(* ===== verification/_CoqProject ===== *)
-Q . S2P
Prelude.v
GoStrings.v
GoJson.v
JsonFacts.v
OpaqueID.v
GoUnicode.v
GoNumber.v
GoFloat.v
GoGraph.v
GoEncode.v
GoSort.v
JsonText.v
JsonRoundTrip.v
JsonCut.v
Schema.v
Identity.v
Issues.v
Cycle.v
NodeJson.v
Predicate.v
Route.v
GraphChecks.v
Frame.v
StateStore.v
GoTime.v
TimeText.v
GoDecode.v
GoCompact.v
GoClosed.v
RawTexts.v
StructText.v
ClosedFacts.v
RunContext.v
Deliverable.v
WireDecode.v
NodeDecode.v
DocumentDecode.v
DocumentTypes.v
DecodeSafety.v
NodeChecks.v
Validator.v
Scheduler.v
Execution.v
RoutePatch.v
RoutePatchSafety.v
DocumentSafety.v
DecodeOrder.v
Reducer.v
WorkReducer.v
Interaction.v
InteractionReducer.v
Lifecycle.v
RunLifecycle.v
WorkLifecycle.v
InteractionLifecycle.v
StoreTables.v
EventStore.v
EventLog.v
Coordination.v
Recovery.v
LeaseLock.v
LeaseSafety.v
QueueOrder.v
RecoverySafety.v
WorkDeletion.v
Commands.v
StreamFacts.v
RunControl.v
RunControlSafety.v
RunReplay.v
