(* ===== verification/Prelude.v ===== *)
(** * Verification of the Darkstar workflow runtime

    Darkstar (a Go program, [runtime/src/]) runs workflows of agent, gate, command, approval
    and nested-workflow nodes.  A document is validated, a route through it is created and
    frozen for one run, the scheduler resolves the inputs of a node, completes it with outputs,
    chooses one transition and fires it in the frame of the run; everything that happened is
    recorded as events, and reducers replay the events into the projections the rest of the
    program reads.  This development models that core as executable functions and proves what
    makes it correct.

    ** How Go is rendered

    A function returning [(T, error)] is a function into [result E T]; an error keeps its code,
    location and the format string and arguments of its message, not the formatted text.  A
    pointer or interface that may be nil is an option.  A Go map is a [gmap]; where the code
    ranges over one the model takes the order from the class [GoRange], a permutation of the
    entries chosen at each loop, so that a theorem for all [GoRange] holds for every iteration
    order.  Machine integers are [Z] with [uint16], [uint64] and [int64] written out where the
    code can wrap.  A [json.RawMessage] is its bytes.  Loops over slices are folds with early
    return; the loops that are not structural run on fuel computed from their input, with a
    theorem that it is enough.

    ** Files

    - Language and standard library: [Prelude], [GoStrings] (package strings), [GoJson] (the
      encoding/json scanner and decoder), [JsonFacts], [GoNumber] (number literals as
      rationals), [GoFloat] (number literals as binary64), [GoEncode] (the encoder),
      [JsonText] and [JsonRoundTrip] (decoding an encoding gives the value back), [GoDecode]
      (decoding into struct fields), [GoSort] (stable sorting), [GoGraph] (reachability), [GoUnicode] (lower case and white space),
      [GoClosed] (decoding that refuses unknown fields), [GoCompact] (json.Compact), [GoTime]
      (RFC 3339 instants), [TimeText] (an instant is read back from its text).  [JsonCut] shows that the parser may be run on a value cut out of its
      text, [RawTexts] that the raw texts a decoder keeps are such cuts, [StructText] that a struct
      that was written is decoded into its fields, strings up to bytes that are not UTF-8, and
      [ClosedFacts] that a decoded value has the type of its target.
    - Workflow documents, [core/workflow]: [Schema] is schema.go and the types of workspace.go,
      delivery.go and extension.go; [Predicate] is predicate.go, [Route] route.go, [Frame]
      frame.go; [Deliverable] the values that cross a node's boundary (resources.go,
      value_schemas.go and two type checks of other packages).
    - The static validator, validate.go with the checks of workspace.go and resources.go:
      [Issues] is [ValidationError] and the order of a list of them, [Cycle] the depth-first
      search for cycles, [GraphChecks] the index of the transitions, joins, reachability and the
      default route, [NodeChecks] the checks of one node, of profiles and of resources,
      [NodeJson] the encoding of a node that one check looks into (json.go), and [Validator]
      puts them together.
    - Documents as text, json.go with the decoders of resources.go, workspace.go and
      extension.go: [Identity] the identifiers and references, [WireDecode] transitions,
      predicates, joins and the declarations, [NodeDecode] nodes with their bindings,
      [DocumentDecode] a document.  [DocumentTypes] says when a document is well formed,
      [DecodeSafety] and [DocumentSafety] that what is decoded is, and [DecodeOrder] compares two
      orders of visiting the maps of a document.
    - Identifiers, [core/identity]: [OpaqueID].
    - Runs: [StateStore] is the events and projections of [ports/statestore]; [RunContext] the
      durable execution context of a run (run_execution_contexts.go of the sqlite adapter) as a
      table with compare-and-swap; [Scheduler] the decisions of
      [core/runexecution/workflow_scheduler.go]; [Execution] composes scheduler, frames, stored
      contexts and validator into runs.  [RoutePatch] is patch.go of [core/workflow], the changes
      to the route of a run (decoding, proposal, authorization, application), and
      [RoutePatchSafety] the states its patches lead to and what they keep.
    - Replay, [core/projection]: [Reducer] is reducer.go (runs, node visits, attempts,
      approvals), [WorkReducer] work.go (projects, work items, stories, points).  [Lifecycle]
      states each lifecycle as a table of moves, and replay of a log as a fold; [RunLifecycle]
      and [WorkLifecycle] prove that the reducers implement the tables.  [Interaction] is the
      scopes and requests of [ports/provider] that inputs and permissions carry,
      [InteractionReducer] readiness.go, input_request.go and provider_permission.go, and
      [InteractionLifecycle] their lifecycles.
    - The event log, [adapters/statestore/sqlite]: [StoreTables] is the projection tables with
      the constraints of the migrations, [EventStore] events.go over them ([Append],
      [RebuildProjections], the event queries) with the ticket gate of source_runs.go, and
      [EventLog] the invariant of a database that transactions have made.
    - Ownership, in the same store: [Coordination] is coordination.go (leases with fencing
      tokens, queues), [LeaseLock] the specification of one lock per scope with the invariant of
      the lease tables, [LeaseSafety] and [QueueOrder] what leases and queues promise.
      [Recovery] is the startup reconciler of [core/recovery] over an interface of its store,
      with the store of sqlite/recovery.go that implements it, and [RecoverySafety] what a run
      of it leaves behind.  [WorkDeletion] follows the deletion of a work item through the
      event log.
    - Commands on a run: [Commands] is the ledger of commands, commands.go of the sqlite adapter;
      [RunControl] is control.go of [core/runexecution] (the idempotency its handlers share,
      [Pause], [Cancel] and the stopping of workers) and work_deletion.go, in a monad that keeps
      what was written before a failure; [StreamFacts] relates the rows of a projection table to
      the streams of the log, [RunControlSafety] shows what a cancellation leaves, [RunReplay]
      what a repeated command is answered.

    ** What is proved

    - Predicates: logical operators evaluate every argument; equality of values is strict JSON
      equality; every error is located under the predicate; the outcome does not depend on the
      iteration order of Go maps when the number literals are in range, and does otherwise.
    - Routes: [CreateRoute] succeeds exactly on the admissible requests; a created route is
      closed and connected, its nodes, transitions, joins, exclusions and input requirements
      are the intended sets; a refusal lists exactly the problems, sorted; the result does not
      depend on map order.
    - Frames: well-formedness is an invariant of any run of firings; a bounded transition fires
      at most its limit; repeating a firing returns the committed token; restoring a snapshot
      gives the frame back, and whatever is restored is well formed; sub-workflow nesting is
      bounded.
    - Scheduling: what inputs resolve to and their types, that the chosen transition is the only
      matching one, what an advance changes, and that an interrupted advance resumes.
    - Documents as text: [Decode] returns for every text, the fuel of its recursion over nested
      predicates being enough ([decode_predicate_enough]); a document it accepts is well formed,
      so the validator never meets a nil predicate and every integer fits the Go field that
      holds it; whether a text is accepted, and as which document, does not depend on the order
      in which maps are visited, while the error that is reported does.
    - Validation: the errors about cycles and unreachable nodes are exact for every iteration
      order; the default-route checks accept exactly what [CreateRoute] accepts; two faults of
      the validator are shown by example.
    - Runs of accepted documents: every run ends, within a bound given by the nodes and the
      limits of the bounded transitions; stored outputs keep their declared types, and the
      inputs of a node whose bindings take whole values resolve to values of the declared types.
    - Route patches: through any number of patches a route is the closed part of the workflow that
      its boundary and overrides give; a patch keeps what was activated, the outgoing transitions
      of running nodes and, up to one case shown by example, the transitions that emitted tokens;
      going past the terminals needs an approval; an applied patch conflicts ever after.
    - Execution contexts: saving is compare-and-swap, immutable fields do not change, a saved
      context is read back as its canonical form.
    - Replay: each reducer moves an aggregate exactly along its lifecycle table, every log it
      accepts ends in a reachable, well-formed projection, and it applies no event twice.
    - Interactions: a readiness assessment, an input request and a provider permission are each
      decided at most once, in their scope, by an actor that may, and answered to the provider
      request that asked.
    - The event log: positions and revisions are numbered without gaps and commands are unique
      in every reachable database; appending is optimistic concurrency control.  As long as the
      actors of the events are in UTF-8, so that their texts give them back, a repeated
      transaction answers the events it committed and changes nothing, and the projections are a
      function of the log; an example shows that neither holds for other actors.  Rebuilding the
      projections stops working once a context manifest is stored.
    - The runs of a deleted work item are over and stay so.
    - Commands on a run: a cancellation settles the run with its attempts and visits, or leaves it
      to be reconciled exactly when a provider did not confirm; once a pause or a cancellation
      has answered, its repetition has the same answer and changes nothing, and its key is
      refused to any other request.  An example shows a cancellation that was interrupted before
      it was recorded and is refused when repeated.
    - Leases refine one lock per scope whose token only grows: ownership is exclusive, a stale
      guard is worthless for ever, an expired lease still blocks and can always be handed over,
      and a repository is locked in the order of its queue.
    - Startup recovery decides every pending lease and operation once, fences what nobody can
      answer for, touches nothing else, and allows scheduling exactly when nothing has to be
      reconciled; once a context manifest is stored it cannot run.

    ** Fuel and bounds

    The decoder of predicates recurses over the length of its text, enough since an operand is
    shorter than the predicate it is part of.  Reachability runs for as many rounds as there are nodes ([GoGraph]), the depth-first search
    as deep as there are nodes ([Cycle]), both proved enough; the JSON scanner runs
    on the length of its input; the ordinal check of a restored frame on the range of uint16.

    ** Parameters

    SHA-256 ([RunContext], [OpaqueID], [RoutePatch]) and the content library ([RunContext]), the order of map iteration ([GoRange]), the
    conversion of a floating-point number outside its range to an integer, which differs between
    processors ([GoInt64]), value schema validators
    ([Deliverable]), the lower case of letters beyond ASCII ([GoUnicode]), sqlite's JSON
    functions ([StoreTables]), the ticket source tables ([EventStore]), the observers of external
    authorities, sqlite's integrity check and the clocks ([Coordination], [Recovery]), and the
    provider adapters with the texts of error messages ([RunControl]) are classes or arguments;
    the examples instantiate them.  What other transactions commit during a command is an
    argument too ([env_meanwhile]); they take effect while the workers stop, where a handler
    waits, and interleavings between the other statements of a handler are left out.

    ** Not modelled

    HTTP, processes, goroutines, git and the file system; SQL beyond the statements the state
    store issues (a transaction is one step: sqlite runs one writer at a time, and the
    connection pool of the store has one connection); [Encode], the indented text of a document,
    and the decoding of frame snapshots; the catalog, the extension registry and the library of node
    definitions; stage presets; launching, resuming, retrying and continuing a run, the services
    around the scheduler (artifacts, trackers, providers); the dashboard, plugins and packages, which are not Go. *)
From stdpp Require Export base option list gmap sets strings sorting pretty.
From Stdlib Require Export ZArith Lia.
From stdpp Require Import options.

#[export] Set Default Proof Using "Type".

(** * Results: a Go function returning [(T, error)] *)

Inductive result (E A : Type) : Type :=
| Ok (a : A)
| Err (e : E).
Arguments Ok {E A} a.
Arguments Err {E A} e.

Definition result_bind {E A B} (r : result E A) (f : A → result E B) : result E B :=
  match r with
  | Ok a => f a
  | Err e => Err e
  end.

Declare Scope go_scope.
Delimit Scope go_scope with go.
#[global] Open Scope go_scope.

(** [let? x := e in k] is Go's [x, err := e; if err != nil { return err }]. *)
Notation "'let?' x := e 'in' k" := (result_bind e (λ x, k))
  (at level 10, x pattern, k at level 200) : go_scope.
(** [guard? b orelse e in k] is Go's [if !b { return e }; k]. *)
Notation "'guard?' b 'orelse' e 'in' k" :=
  (if b then k else Err e)
  (at level 10, b at level 100, e at level 100, k at level 200) : go_scope.

Definition is_ok {E A} (r : result E A) : bool :=
  match r with Ok _ => true | Err _ => false end.

#[global] Instance result_eq_dec {E A} `{EqDecision E, EqDecision A} : EqDecision (result E A).
Proof. solve_decision. Defined.

Section result_lemmas.
Context {E A B : Type}.
Implicit Types (r : result E A) (f : A → result E B).

Lemma result_bind_Ok r f b :
  result_bind r f = Ok b ↔ ∃ a, r = Ok a ∧ f a = Ok b.
Proof. destruct r; naive_solver. Qed.

Lemma result_bind_Err r f e :
  result_bind r f = Err e ↔ r = Err e ∨ ∃ a, r = Ok a ∧ f a = Err e.
Proof. destruct r; naive_solver. Qed.
End result_lemmas.

(** Left-to-right iteration with an early error return: the body of a Go
    [for ... range] loop over a slice whose body may [return err]. *)
Fixpoint foldM {E A S} (f : S → A → result E S) (s : S) (l : list A) : result E S :=
  match l with
  | [] => Ok s
  | x :: l => let? s' := f s x in foldM f s' l
  end.

Fixpoint forM_ {E A} (f : A → result E unit) (l : list A) : result E unit :=
  match l with
  | [] => Ok tt
  | x :: l => let? _ := f x in forM_ f l
  end.

Fixpoint foldM_i_from {E A S} (i : nat) (f : S → nat → A → result E S) (s : S) (l : list A)
  : result E S :=
  match l with
  | [] => Ok s
  | x :: l => let? s' := f s i x in foldM_i_from (Datatypes.S i) f s' l
  end.
Abbreviation foldM_i := (foldM_i_from 0).

(** A [switch] on a string with a default. *)
Fixpoint switch {A} (value : string) (cases : list (string * (unit → A))) (other : A) : A :=
  match cases with
  | [] => other
  | (case, handler) :: cases =>
      if decide (value = case) then handler tt else switch value cases other
  end.

Section foldM_lemmas.
Context {E A S : Type}.
Implicit Types (f : S → A → result E S).

Lemma foldM_app f s l1 l2 :
  foldM f s (l1 ++ l2) = (let? s' := foldM f s l1 in foldM f s' l2).
Proof.
  revert s; induction l1 as [|x l1 IH]; intros s; simpl; [done|].
  destruct (f s x); simpl; [apply IH | done].
Qed.

(** The invariant rule of a loop. *)
Lemma foldM_ind (P : S → Prop) f s l s' :
  P s → (∀ s x s', x ∈ l → P s → f s x = Ok s' → P s') →
  foldM f s l = Ok s' → P s'.
Proof.
  revert s; induction l as [|x l IH]; intros s Hs Hstep; simpl.
  - by intros [= <-].
  - intros (s1 & Hx & Hl)%result_bind_Ok.
    eapply (IH s1); [| |done].
    + eapply Hstep; [by left|done..].
    + intros ????; eapply Hstep; by right.
Qed.

Lemma forM_Ok (f : A → result E unit) l :
  forM_ f l = Ok tt ↔ Forall (λ x, f x = Ok tt) l.
Proof.
  induction l as [|x l IH]; simpl; [split; [constructor|done]|].
  rewrite Forall_cons, <-IH. destruct (f x) as [[]|]; naive_solver.
Qed.
End foldM_lemmas.
Lemma foldM_i_ext {E A S} (f g : S → nat → A → result E S) l : ∀ i s,
  (∀ s i a, a ∈ l → f s i a = g s i a) → foldM_i_from i f s l = foldM_i_from i g s l.
Proof.
  induction l as [|a l IH]; intros i s Hext; [done|]. simpl. rewrite Hext by by left.
  destruct (g s i a); [|done]. simpl. apply IH. intros s' j b Hb. apply Hext. by right.
Qed.

(** * Lists *)
Lemma filter_nil_iff {A} (P : A → Prop) `{∀ x, Decision (P x)} (l : list A) :
  filter P l = [] ↔ ∀ x, x ∈ l → ¬ P x.
Proof.
  split.
  - intros Hnil x Hx HP. assert (x ∈ filter P l) as Hin by (by apply list_elem_of_filter).
    rewrite Hnil in Hin. by apply elem_of_nil in Hin.
  - intros Hno. apply elem_of_nil_inv. intros x [HP Hx]%list_elem_of_filter. by apply (Hno x).
Qed.

Lemma flat_map_nil {A B} (f : A → list B) l x : flat_map f l = [] → x ∈ l → f x = [].
Proof.
  intros Hl Hx. apply elem_of_nil_inv. intros y Hy. apply (not_elem_of_nil y). rewrite <-Hl.
  apply list_elem_of_In, in_flat_map. exists x. by rewrite <-!list_elem_of_In.
Qed.
Lemma fmap_nil {A B} (f : A → B) (l : list A) : f <$> l = [] ↔ l = [].
Proof. split; [apply fmap_nil_inv|by intros ->]. Qed.
Lemma filter_all {A} (P : A → Prop) `{∀ x, Decision (P x)} (l : list A) : (∀ x, x ∈ l → P x) → filter P l = l.
Proof.
  induction l as [|x l IH]; intros Hall; [done|]. rewrite filter_cons, decide_True by (apply Hall; by left).
  f_equal. apply IH. intros y Hy. apply Hall. by right.
Qed.
Lemma length_nil_decide {A B} (l : list A) (x y : B) :
  l = [] → (if decide (length l ≠ 0) then x else y) = y.
Proof. intros ->. by rewrite decide_False by (simpl; lia). Qed.

(** * Messages

    Go builds error texts with [fmt]. A message is kept as its format string and
    arguments: nothing in the modelled code reads a rendered message back. *)
Inductive msg_arg :=
| AStr (s : string)
| AInt (z : Z).
Record msg := Msg { msg_format : string; msg_args : list msg_arg }.
Definition text (s : string) : msg := Msg s [].
#[global] Instance msg_arg_eq_dec : EqDecision msg_arg.
Proof. solve_decision. Defined.
#[global] Instance msg_eq_dec : EqDecision msg.
Proof. solve_decision. Defined.

(** * Map iteration order

    [range m] over a Go map visits the entries in an unspecified order. A
    [GoRange] is one choice of order for every [range] statement (named by its
    site); the theorems hold for every choice. *)
Class GoRange := {
  range : ∀ {K A : Type}, string → list (K * A) → list (K * A);
  range_perm : ∀ {K A : Type} (site : string) (l : list (K * A)), range site l ≡ₚ l;
}.

Section range.
Context `{!GoRange} {K : Type} `{Countable K}.

Definition range_map {A} (site : string) (m : gmap K A) : list (K * A) :=
  range site (map_to_list m).
Definition range_set (site : string) (X : gset K) : list K :=
  (range site ((λ x, (x, tt)) <$> elements X)).*1.

Lemma elem_of_range_map {A} site (m : gmap K A) k a :
  (k, a) ∈ range_map site m ↔ m !! k = Some a.
Proof. unfold range_map. by rewrite range_perm, elem_of_map_to_list. Qed.

Lemma range_set_perm site X : range_set site X ≡ₚ elements X.
Proof.
  unfold range_set. rewrite range_perm, <-list_fmap_compose.
  by rewrite list_fmap_id.
Qed.

Lemma elem_of_range_set site X x : x ∈ range_set site X ↔ x ∈ X.
Proof. by rewrite range_set_perm, elem_of_elements. Qed.
End range.

(** A loop over a map that checks each entry and stores its image under the same key. *)
Section foldM_map.
Context `{!GoRange} {K E A B : Type} `{Countable K}.
Variables (step : gmap K B → K * A → result E (gmap K B)) (f : K → A → result E B).
Hypothesis Hstep : ∀ m k a, step m (k, a) = (let? b := f k a in Ok (<[k := b]> m)).

Lemma foldM_insert_Ok l r0 r :
  NoDup l.*1 →
  foldM step r0 l = Ok r ↔
  (∀ k a, (k, a) ∈ l → ∃ b, f k a = Ok b ∧ r !! k = Some b) ∧
  (∀ k, k ∉ l.*1 → r !! k = r0 !! k).
Proof using Hstep.
  revert r0. induction l as [|[k a] l IH]; intros r0 Hnd.
  { simpl. split.
    - intros [= ->]. split; [|done]. by intros k a ?%elem_of_nil.
    - intros [_ Hr]. f_equal. symmetry. apply map_eq. intros k. apply Hr, not_elem_of_nil. }
  inversion Hnd as [|? ? Hk Hnd']; subst. cbn [foldM]. rewrite Hstep.
  destruct (f k a) as [b|e] eqn:Hf; simpl; last first.
  { split; [done|]. intros [Hall _]. destruct (Hall k a) as (b & ? & _); [by left|congruence]. }
  rewrite IH by done. split; intros [Hin Hout]; split.
  - intros k' a' [[= -> ->]|?]%elem_of_cons; [|by apply Hin].
    exists b. split; [done|]. rewrite Hout by done. apply lookup_insert_eq.
  - intros k' [??]%not_elem_of_cons. rewrite Hout by done. by apply lookup_insert_ne.
  - intros k' a' ?. apply Hin. by right.
  - intros k' Hk'. destruct (decide (k' = k)) as [->|].
    + rewrite lookup_insert_eq. destruct (Hin k a) as (b' & ? & ->); [by left|congruence].
    + rewrite lookup_insert_ne by done. apply Hout. by apply not_elem_of_cons.
Qed.

Lemma foldM_map_Ok site m r :
  foldM step ∅ (range_map site m) = Ok r ↔
  ∀ k, match m !! k with
       | None => r !! k = None
       | Some a => ∃ b, f k a = Ok b ∧ r !! k = Some b
       end.
Proof using Hstep.
  rewrite foldM_insert_Ok; last first.
  { unfold range_map. rewrite range_perm. apply NoDup_fst_map_to_list. }
  setoid_rewrite elem_of_range_map. split.
  - intros [Hin Hout] k. destruct (m !! k) as [a|] eqn:Hk; [by apply Hin|].
    rewrite <-(lookup_empty (M:=gmap K) k). apply Hout.
    intros ([k' a] & -> & Hka%elem_of_range_map)%list_elem_of_fmap. simpl in *. congruence.
  - intros Hall. split.
    + intros k a Hk. specialize (Hall k). by rewrite Hk in Hall.
    + intros k Hk. specialize (Hall k). rewrite lookup_empty.
      destruct (m !! k) as [a|] eqn:Hma; [|done]. destruct Hk.
      apply list_elem_of_fmap. exists (k, a). by rewrite elem_of_range_map.
Qed.

Lemma foldM_map_Err site m e :
  foldM step ∅ (range_map site m) = Err e → ∃ k a, m !! k = Some a ∧ f k a = Err e.
Proof using Hstep.
  intros Herr.
  assert (∀ l r0, foldM step r0 l = Err e → ∃ k a, (k, a) ∈ l ∧ f k a = Err e) as Hgen.
  { induction l as [|[k a] l IH]; intros r0; [done|]. cbn [foldM]. rewrite Hstep.
    destruct (f k a) as [b|e'] eqn:Hf; simpl.
    - intros (k' & a' & ? & ?)%IH. exists k', a'. split; [by right|done].
    - intros [= ->]. exists k, a. split; [by left|done]. }
  apply Hgen in Herr as (k & a & Hin & ?). apply elem_of_range_map in Hin. by exists k, a.
Qed.
End foldM_map.

(** Two concrete orders, used by the witnesses. *)
Definition range_canonical : GoRange.
Proof. by refine {| range := λ _ _ _ l, l |}. Defined.
Definition range_reversed : GoRange.
Proof. refine {| range := λ _ _ _ l, reverse l |}. intros. apply reverse_Permutation. Defined.

(** * Sorting strings: [sort.Strings] and [sort.Slice] on identifiers *)

Definition sort_strings : list string → list string := merge_sort String.le.

Lemma sort_strings_perm l : sort_strings l ≡ₚ l.
Proof. apply merge_sort_Permutation. Qed.

Lemma sort_strings_sorted l : StronglySorted String.le (sort_strings l).
Proof. apply (StronglySorted_merge_sort _). Qed.

(** Sorting forgets the order of its input. *)
#[global] Instance sort_strings_proper : Proper ((≡ₚ) ==> (=)) sort_strings.
Proof.
  intros l1 l2 Hl. apply (StronglySorted_unique String.le);
    [apply sort_strings_sorted..|].
  by rewrite !sort_strings_perm.
Qed.

Lemma elem_of_sort_strings x l : x ∈ sort_strings l ↔ x ∈ l.
Proof. by rewrite sort_strings_perm. Qed.

Lemma sort_strings_NoDup l : NoDup (sort_strings l) ↔ NoDup l.
Proof. by rewrite sort_strings_perm. Qed.

Lemma sort_strings_nil l : sort_strings l = [] ↔ l = [].
Proof.
  split; [|by intros ->].
  intros Hl. apply Permutation_nil_r. by rewrite <-(sort_strings_perm l), Hl.
Qed.

Lemma StronglySorted_filter {A} (R : relation A) (P : A → Prop) `{∀ x, Decision (P x)} l :
  StronglySorted R l → StronglySorted R (filter P l).
Proof.
  induction 1 as [|x l Hl IH Hx]; [constructor|]. rewrite filter_cons. case_decide; [|done].
  constructor; [done|]. apply Forall_forall. intros y [_ Hy]%list_elem_of_filter.
  by eapply (proj1 (Forall_forall _ _)).
Qed.

(** * Fixed-width integers *)
Definition wrap (w z : Z) : Z := z `mod` 2 ^ w.
Abbreviation uint16 := (wrap 16).
Abbreviation uint64 := (wrap 64).

Lemma wrap_small w z : (0 ≤ z < 2 ^ w)%Z → wrap w z = z.
Proof. apply Z.mod_small. Qed.

(** * Automation *)
Create HintDb go.
Create Rewrite HintDb go.
#[export] Hint Resolve sort_strings_perm sort_strings_sorted : go.
#[export] Hint Rewrite @result_bind_Ok @result_bind_Err : go.
#[export] Hint Rewrite elem_of_sort_strings : go.

(** Split a successful computation into its successful steps. *)
Ltac inv_ok :=
  repeat match goal with
  | H : result_bind ?r ?f = Ok _ |- _ =>
      let a := fresh "a" in let Ha := fresh "Ha" in
      apply result_bind_Ok in H; destruct H as (a & Ha & H); cbn beta in H
  | H : (if ?b then _ else Err _) = Ok _ |- _ =>
      let Hb := fresh "Hb" in destruct b eqn:Hb; [|discriminate H]
  | H : (if ?b then Err _ else _) = Ok _ |- _ =>
      let Hb := fresh "Hb" in destruct b eqn:Hb; [discriminate H|]
  | H : Ok _ = Ok _ |- _ => injection H as H
  | H : Err _ = Ok _ |- _ => discriminate H
  | H : Ok _ = Err _ |- _ => discriminate H
  | x : unit |- _ => destruct x
  end.

Ltac bool_to_prop :=
  repeat match goal with
  | H : (_ && _) = true |- _ => apply andb_prop in H; destruct H
  | H : (_ || _) = false |- _ => apply orb_false_elim in H; destruct H
  | H : negb _ = true |- _ => apply negb_true_iff in H
  | H : negb _ = false |- _ => apply negb_false_iff in H
  | H : bool_decide _ = true |- _ => apply bool_decide_eq_true_1 in H
  | H : bool_decide _ = false |- _ => apply bool_decide_eq_false_1 in H
  end.
