(* ===== verification/GoStrings.v ===== *)
(** The parts of Go's [strings], [strconv] and [regexp] packages the modelled
    code uses, on byte strings ([string] is a Go string: a sequence of bytes). *)
From S2P Require Import Prelude.
From Stdlib Require Export Ascii.
From stdpp Require Import options.

Definition byte_of (c : ascii) : N := N_of_ascii c.
Definition char (n : N) : ascii := ascii_of_N n.

Fixpoint str_rev_app (s acc : string) : string :=
  match s with
  | EmptyString => acc
  | String c s => str_rev_app s (String c acc)
  end.
Definition str_rev (s : string) : string := str_rev_app s "".

Definition str_length (s : string) : nat := String.length s.

(** [strings.Split(s, sep)] for a one-byte separator. *)
Fixpoint split_from (sep : ascii) (cur s : string) : list string :=
  match s with
  | EmptyString => [str_rev cur]
  | String c s =>
      if decide (c = sep) then str_rev cur :: split_from sep "" s
      else split_from sep (String c cur) s
  end.
Definition Split (s : string) (sep : ascii) : list string := split_from sep "" s.

(** [strings.Join(parts, sep)]. *)
Fixpoint Join (parts : list string) (sep : string) : string :=
  match parts with
  | [] => ""
  | [x] => x
  | x :: parts => x +:+ sep +:+ Join parts sep
  end.

(** [strings.HasPrefix] and [strings.TrimPrefix]. *)
Fixpoint strip_prefix (p s : string) : option string :=
  match p, s with
  | EmptyString, _ => Some s
  | String a p, String b s => if decide (a = b) then strip_prefix p s else None
  | String _ _, EmptyString => None
  end.
Definition HasPrefix (s p : string) : bool := bool_decide (is_Some (strip_prefix p s)).
Definition TrimPrefix (s p : string) : string := default s (strip_prefix p s).
Definition TrimSuffix (s p : string) : string :=
  match strip_prefix (str_rev p) (str_rev s) with
  | Some r => str_rev r
  | None => s
  end.

(** [strings.ContainsAny(s, chars)] for ASCII [chars]. *)
Fixpoint str_exists (f : ascii → bool) (s : string) : bool :=
  match s with
  | EmptyString => false
  | String c s => f c || str_exists f s
  end.
Fixpoint str_forall (f : ascii → bool) (s : string) : bool :=
  match s with
  | EmptyString => true
  | String c s => f c && str_forall f s
  end.
Definition ContainsAny (s chars : string) : bool :=
  str_exists (λ c, str_exists (λ d, bool_decide (c = d)) chars) s.

(** [strings.TrimSpace]: the UTF-8 encodings of the code points with the
    Unicode White_Space property. *)
Definition bytes (l : list N) : string :=
  foldr (λ n s, String (char n) s) "" l.

Definition space_runes : list string :=
  [bytes [9]; bytes [10]; bytes [11]; bytes [12]; bytes [13]; bytes [32];
   bytes [194; 133]; bytes [194; 160]; bytes [225; 154; 128];
   bytes [226; 128; 128]; bytes [226; 128; 129]; bytes [226; 128; 130];
   bytes [226; 128; 131]; bytes [226; 128; 132]; bytes [226; 128; 133];
   bytes [226; 128; 134]; bytes [226; 128; 135]; bytes [226; 128; 136];
   bytes [226; 128; 137]; bytes [226; 128; 138]; bytes [226; 128; 168];
   bytes [226; 128; 169]; bytes [226; 128; 175]; bytes [226; 129; 159];
   bytes [227; 128; 128]]%N.

Fixpoint strip_any (pats : list string) (s : string) : option string :=
  match pats with
  | [] => None
  | p :: pats =>
      match strip_prefix p s with
      | Some r => Some r
      | None => strip_any pats s
      end
  end.

(** The loop removes at least one byte per step, so [str_length s] steps are enough. *)
Fixpoint trim_left (fuel : nat) (pats : list string) (s : string) : string :=
  match fuel with
  | O => s
  | S fuel =>
      match strip_any pats s with
      | Some r => trim_left fuel pats r
      | None => s
      end
  end.

Definition TrimSpace (s : string) : string :=
  let l := trim_left (str_length s) space_runes s in
  str_rev (trim_left (str_length l) (str_rev <$> space_runes) (str_rev l)).

(** [strings.TrimSpace(s) == ""], the test the code writes for a missing text. *)
Definition blank (s : string) : bool := bool_decide (TrimSpace s = "").

(** [fmt]'s [%d] on a non-negative integer. *)
Definition itoa (n : nat) : string := pretty n.

(** Character classes. *)
Definition in_range (lo hi : N) (c : ascii) : bool :=
  (lo <=? byte_of c)%N && (byte_of c <=? hi)%N.
Definition is_digit : ascii → bool := in_range 48 57.
Definition is_lower : ascii → bool := in_range 97 122.
Definition is_hex_lower (c : ascii) : bool := is_digit c || in_range 97 102 c.

Definition digit_value (c : ascii) : Z := Z.of_N (byte_of c) - 48.

Fixpoint digits_value_from (acc : Z) (s : string) : Z :=
  match s with
  | EmptyString => acc
  | String c s => digits_value_from (10 * acc + digit_value c)%Z s
  end.
Definition digits_value (s : string) : Z := digits_value_from 0 s.

Definition all_digits (s : string) : bool :=
  bool_decide (s ≠ "") && str_forall is_digit s.

(** [strconv.ParseInt(s, 10, 64)] without its error value. *)
Definition max_int64 : Z := 9223372036854775807.
Definition min_int64 : Z := -9223372036854775808.
Definition in_int64 (z : Z) : bool := (min_int64 <=? z)%Z && (z <=? max_int64)%Z.

Definition ParseInt (s : string) : option Z :=
  let signed z ds := if all_digits ds && in_int64 z then Some z else None in
  match s with
  | String "-" ds => signed (- digits_value ds)%Z ds
  | String "+" ds => signed (digits_value ds) ds
  | ds => signed (digits_value ds) ds
  end.

(** [strconv.ParseUint(s, 10, 64)] without its error value. *)
Definition max_uint64 : Z := 18446744073709551615.
Definition ParseUint (s : string) : option Z :=
  if all_digits s && (digits_value s <=? max_uint64)%Z then Some (digits_value s) else None.

(** * Lemmas *)

Lemma str_rev_app_spec s acc : str_rev_app s acc = str_rev s +:+ acc.
Proof.
  unfold str_rev. revert acc. induction s as [|c s IH]; intros acc; [done|]. simpl.
  rewrite (IH (String c acc)), (IH (String c "")).
  generalize (str_rev_app s ""). clear.
  intros t. induction t as [|d t IHt]; [done|].
  change (String d (t +:+ String c acc) = String d ((t +:+ String c "") +:+ acc)).
  by rewrite IHt.
Qed.

Lemma str_app_nil_r s : s +:+ "" = s.
Proof. induction s as [|c s IH]; [done|]. change (String c (s +:+ "") = String c s). by rewrite IH. Qed.

Lemma str_app_assoc s1 s2 s3 : (s1 +:+ s2) +:+ s3 = s1 +:+ (s2 +:+ s3).
Proof.
  induction s1 as [|c s IH]; [done|].
  change (String c ((s +:+ s2) +:+ s3) = String c (s +:+ (s2 +:+ s3))). by rewrite IH.
Qed.

Lemma str_rev_cons c s : str_rev (String c s) = str_rev s +:+ String c "".
Proof. unfold str_rev at 1. simpl. apply str_rev_app_spec. Qed.

Lemma str_rev_append s1 s2 : str_rev (s1 +:+ s2) = str_rev s2 +:+ str_rev s1.
Proof.
  induction s1 as [|c s IH]; [by rewrite str_app_nil_r|].
  change (String c s +:+ s2) with (String c (s +:+ s2)).
  by rewrite !str_rev_cons, IH, str_app_assoc.
Qed.

Lemma str_rev_involutive s : str_rev (str_rev s) = s.
Proof.
  induction s as [|c s IH]; [done|].
  rewrite str_rev_cons, str_rev_append, IH. done.
Qed.

Lemma str_app_inj_l s1 s2 s2' : s1 +:+ s2 = s1 +:+ s2' → s2 = s2'.
Proof. induction s1 as [|c s IH]; [done|]. intros [= H]. auto. Qed.

Lemma str_length_app s1 s2 : str_length (s1 +:+ s2) = str_length s1 + str_length s2.
Proof.
  induction s1 as [|c s IH]; [done|].
  change (S (str_length (s +:+ s2)) = S (str_length s + str_length s2)). by rewrite IH.
Qed.

Lemma strip_prefix_Some p s r : strip_prefix p s = Some r ↔ s = p +:+ r.
Proof.
  revert s. induction p as [|a p IH]; intros s; simpl.
  - split; [by intros [= ->]|by intros ->].
  - destruct s as [|b s]; [done|]. change (String a p +:+ r) with (String a (p +:+ r)).
    case_decide; subst; [rewrite IH; naive_solver congruence|].
    split; [done|]. intros [= -> _]; done.
Qed.

Lemma split_from_nonempty sep cur s : split_from sep cur s ≠ [].
Proof. revert cur. induction s; intros cur; simpl; [done|]. case_decide; [done|auto]. Qed.

(** [strings.Join] undoes [strings.Split]. *)
Lemma Join_split_from sep cur s :
  Join (split_from sep cur s) (String sep "") = str_rev cur +:+ s.
Proof.
  revert cur. induction s as [|c s IH]; intros cur; simpl.
  - by rewrite str_app_nil_r.
  - case_decide as Hc; subst.
    + destruct (split_from sep "" s) as [|x l] eqn:Hs.
      { by apply split_from_nonempty in Hs. }
      change (str_rev cur +:+ String sep "" +:+ Join (x :: l) (String sep "")
              = str_rev cur +:+ String sep s).
      rewrite <-Hs, IH. done.
    + rewrite IH, str_rev_cons, str_app_assoc. done.
Qed.

Lemma Join_Split s sep : Join (Split s sep) (String sep "") = s.
Proof. unfold Split. by rewrite Join_split_from. Qed.
