(* ===== verification/GoJson.v ===== *)
(** Go's [encoding/json]: the scanner and the decoder into [any] with [UseNumber], and the
    UTF-8 decoding its strings need. *)
From S2P Require Import Prelude GoStrings.
From Stdlib Require Import Ascii.
From stdpp Require Import options.

(** * Values: the [any] a decoder with [UseNumber] produces

    An object keeps its members in order of first appearance with distinct keys
    (assigning to a Go map: the last duplicate wins). *)
Inductive Json :=
| JNull
| JBool (b : bool)
| JNumber (lit : string)
| JString (s : string)
| JArray (l : list Json)
| JObject (m : list (string * Json)).

(** A [json.RawMessage]: the bytes of one encoded value. *)
Abbreviation RawMessage := string (only parsing).

(** * UTF-8 *)
Definition between (lo hi : N) (c : ascii) : bool := in_range lo hi c.
Definition is_cont : ascii → bool := between 128%N 191%N.

(** The length in bytes of the valid encoding at the head of [s], 0 if there is none. *)
Definition rune_length (s : string) : nat :=
  match s with
  | EmptyString => 0
  | String b0 s1 =>
    if (byte_of b0 <? 128)%N then 1 else
    match s1 with
    | EmptyString => 0
    | String b1 s2 =>
      if between 194%N 223%N b0 then (if is_cont b1 then 2 else 0) else
      match s2 with
      | EmptyString => 0
      | String b2 s3 =>
        let two lo hi := between lo hi b1 && is_cont b2 in
        if (byte_of b0 =? 224)%N then if two 160%N 191%N then 3 else 0
        else if (byte_of b0 =? 237)%N then if two 128%N 159%N then 3 else 0
        else if between 225%N 239%N b0 then if two 128%N 191%N then 3 else 0
        else
        match s3 with
        | EmptyString => 0
        | String b3 _ =>
          let three lo hi := between lo hi b1 && is_cont b2 && is_cont b3 in
          if (byte_of b0 =? 240)%N then if three 144%N 191%N then 4 else 0
          else if between 241%N 243%N b0 then if three 128%N 191%N then 4 else 0
          else if (byte_of b0 =? 244)%N then if three 128%N 143%N then 4 else 0
          else 0
        end
      end
    end
  end.

Definition str_take (n : nat) (s : string) : string := String.substring 0 n s.
Fixpoint str_drop (n : nat) (s : string) : string :=
  match n, s with
  | S n, String _ s => str_drop n s
  | _, _ => s
  end.

Definition replacement : string := bytes [239; 191; 189]%N.

Definition encode_rune (r : N) : string :=
  (if r <? 128 then bytes [r]
   else if r <? 2048 then bytes [192 + r / 64; 128 + r mod 64]
   else if r <? 65536 then bytes [224 + r / 4096; 128 + (r / 64) mod 64; 128 + r mod 64]
   else bytes [240 + r / 262144; 128 + (r / 4096) mod 64; 128 + (r / 64) mod 64; 128 + r mod 64])%N.

(** * The scanner *)
Definition is_space (c : ascii) : bool :=
  bool_decide (c = " "%char) || in_range 9 10 c || in_range 13 13 c.

Fixpoint skip_space (s : string) : string :=
  match s with
  | String c s' => if is_space c then skip_space s' else s
  | EmptyString => s
  end.

Fixpoint span_digits (s : string) : string * string :=
  match s with
  | String c s' =>
      if is_digit c then let '(d, r) := span_digits s' in (String c d, r) else ("", s)
  | EmptyString => ("", s)
  end.

(** The parts of a number literal: sign, integer digits, fraction digits and the
    signed exponent digits. *)
Record NumberLit := {
  num_neg : bool;
  num_int : string;
  num_frac : string;
  num_exp : option string;
}.

Definition scan_exponent (s : string) : option (option string * string) :=
  match s with
  | String c s1 =>
    if decide (c = "e"%char ∨ c = "E"%char) then
      let '(sign, s2) :=
        match s1 with
        | String "-" s2 => ("-", s2)
        | String "+" s2 => ("+", s2)
        | _ => ("", s1)
        end in
      let '(d, r) := span_digits s2 in
      if decide (d = "") then None else Some (Some (sign +:+ d), r)
    else Some (None, s)
  | EmptyString => Some (None, s)
  end.

Definition scan_fraction (s : string) : option (string * string) :=
  match s with
  | String "." s1 =>
      let '(d, r) := span_digits s1 in
      if decide (d = "") then None else Some (d, r)
  | _ => Some ("", s)
  end.

Definition scan_number (s : string) : option (NumberLit * string) :=
  let '(neg, s1) := match s with String "-" s1 => (true, s1) | _ => (false, s) end in
  let int :=
    match s1 with
    | String "0" s2 => Some ("0", s2)
    | _ => let '(d, r) := span_digits s1 in if decide (d = "") then None else Some (d, r)
    end in
  match int with
  | None => None
  | Some (i, s2) =>
    match scan_fraction s2 with
    | None => None
    | Some (f, s3) =>
      match scan_exponent s3 with
      | None => None
      | Some (e, s4) => Some ({| num_neg := neg; num_int := i; num_frac := f; num_exp := e |}, s4)
      end
    end
  end.

(** The consumed text: [s] without its suffix [rest]. *)
Definition consumed (s rest : string) : string :=
  str_take (str_length s - str_length rest) s.

Definition hex_value (c : ascii) : option N :=
  let n := byte_of c in
  if is_digit c then Some (n - 48)%N
  else if in_range 97 102 c then Some (n - 87)%N
  else if in_range 65 70 c then Some (n - 55)%N
  else None.

(** [getu4] after the two bytes [\u]. *)
Definition hex4 (s : string) : option (N * string) :=
  match s with
  | String a (String b (String c (String d r))) =>
    match hex_value a, hex_value b, hex_value c, hex_value d with
    | Some x, Some y, Some z, Some w => Some (((x * 16 + y) * 16 + z) * 16 + w, r)%N
    | _, _, _, _ => None
    end
  | _ => None
  end.

Definition unicode_escape (s : string) : option (N * string) :=
  match s with
  | String "\" (String "u" r) => hex4 r
  | _ => None
  end.

(** The rune of an escape [\uXXXX], joining a surrogate pair. *)
Definition escaped_rune (s : string) : option (N * string) :=
  match hex4 s with
  | None => None
  | Some (r, rest) =>
    if ((55296 <=? r) && (r <? 57344))%N then
      match unicode_escape rest with
      | Some (r1, rest1) =>
        if ((r <? 56320) && (56320 <=? r1) && (r1 <? 57344))%N
        then Some (65536 + (r - 55296) * 1024 + (r1 - 56320), rest1)%N
        else Some (65533%N, rest)
      | None => Some (65533%N, rest)
      end
    else Some (r, rest)
  end.

Definition simple_escape (c : ascii) : option string :=
  match c with
  | "034" => Some (bytes [34]) | "\" => Some (bytes [92]) | "/" => Some (bytes [47])
  | "b" => Some (bytes [8]) | "f" => Some (bytes [12]) | "n" => Some (bytes [10])
  | "r" => Some (bytes [13]) | "t" => Some (bytes [9])
  | _ => None
  end%N%char.

(** A string literal after its opening quote: the unquoted bytes and the rest. *)
Fixpoint parse_string (fuel : nat) (s : string) : option (string * string) :=
  match fuel with
  | O => None
  | S fuel =>
    let continue head rest :=
      match parse_string fuel rest with
      | Some (t, r) => Some (head +:+ t, r)
      | None => None
      end in
    match s with
    | EmptyString => None
    | String c s1 =>
      if decide (c = "034"%char) then Some ("", s1)
      else if decide (c = "\"%char) then
        match s1 with
        | EmptyString => None
        | String "u" s2 =>
          match escaped_rune s2 with
          | Some (r, rest) => continue (encode_rune r) rest
          | None => None
          end
        | String e s2 =>
          match simple_escape e with
          | Some h => continue h s2
          | None => None
          end
        end
      else if (byte_of c <? 32)%N then None
      else match rune_length s with
           | O => continue replacement s1
           | n => continue (str_take n s) (str_drop n s)
           end
    end
  end.

Definition max_nesting_depth : nat := 100 * 100.

(** Assigning to a Go map. *)
Fixpoint assign (k : string) (v : Json) (m : list (string * Json)) : list (string * Json) :=
  match m with
  | [] => [(k, v)]
  | (k', v') :: m => if decide (k = k') then (k, v) :: m else (k', v') :: assign k v m
  end.
Definition to_map (m : list (string * Json)) : list (string * Json) :=
  foldl (λ acc kv, assign kv.1 kv.2 acc) [] m.

Fixpoint lookup_member (k : string) (m : list (string * Json)) : option Json :=
  match m with
  | [] => None
  | (k', v) :: m => if decide (k = k') then Some v else lookup_member k m
  end.

(** One member [string : ], up to its value. *)
Definition parse_key (fuel : nat) (s : string) : option (string * string) :=
  match skip_space s with
  | String "034" s1 =>
    match parse_string fuel s1 with
    | Some (k, r) =>
      match skip_space r with
      | String ":" r' => Some (k, skip_space r')
      | _ => None
      end
    | None => None
    end
  | _ => None
  end.

(** [depth] is the number of containers that may still be opened. *)
Fixpoint parse_value (fuel depth : nat) (s : string) : option (Json * string) :=
  match fuel with
  | O => None
  | S fuel =>
    match s with
    | EmptyString => None
    | String c s1 =>
      if decide (c = "034"%char) then
        match parse_string (S (str_length s1)) s1 with
        | Some (t, r) => Some (JString t, r)
        | None => None
        end
      else if decide (c = "["%char) then
        match depth with
        | O => None
        | S depth =>
          match skip_space s1 with
          | String "]" r => Some (JArray [], r)
          | s2 =>
            match parse_elements fuel depth s2 with
            | Some (l, r) => Some (JArray l, r)
            | None => None
            end
          end
        end
      else if decide (c = "{"%char) then
        match depth with
        | O => None
        | S depth =>
          match skip_space s1 with
          | String "}" r => Some (JObject [], r)
          | s2 =>
            match parse_members fuel depth s2 with
            | Some (m, r) => Some (JObject (to_map m), r)
            | None => None
            end
          end
        end
      else
        match strip_prefix "true" s, strip_prefix "false" s, strip_prefix "null" s with
        | Some r, _, _ => Some (JBool true, r)
        | _, Some r, _ => Some (JBool false, r)
        | _, _, Some r => Some (JNull, r)
        | _, _, _ =>
          match scan_number s with
          | Some (_, r) => Some (JNumber (consumed s r), r)
          | None => None
          end
        end
    end
  end
with parse_elements (fuel depth : nat) (s : string) : option (list Json * string) :=
  match fuel with
  | O => None
  | S fuel =>
    match parse_value fuel depth (skip_space s) with
    | None => None
    | Some (v, r) =>
      match skip_space r with
      | String "," r' =>
        match parse_elements fuel depth r' with
        | Some (l, r'') => Some (v :: l, r'')
        | None => None
        end
      | String "]" r' => Some ([v], r')
      | _ => None
      end
    end
  end
with parse_members (fuel depth : nat) (s : string) : option (list (string * Json) * string) :=
  match fuel with
  | O => None
  | S fuel =>
    match parse_key (S (str_length s)) s with
    | None => None
    | Some (k, s1) =>
      match parse_value fuel depth s1 with
      | None => None
      | Some (v, r) =>
        match skip_space r with
        | String "," r' =>
          match parse_members fuel depth r' with
          | Some (m, r'') => Some ((k, v) :: m, r'')
          | None => None
          end
        | String "}" r' => Some ([(k, v)], r')
        | _ => None
        end
      end
    end
  end.

(** Every recursive call of the parser is on a shorter text or switches between
    the three functions, so twice the length of the text is enough fuel. *)
Definition parse_fuel (s : string) : nat := S (S (str_length s + str_length s)).

(** [Decoder.Decode]: the first value of the input and what follows it. *)
Definition decode_prefix (s : string) : option (Json * string) :=
  let s := skip_space s in parse_value (parse_fuel s) max_nesting_depth s.
Definition Decode (s : string) : option Json := fst <$> decode_prefix s.

(** [json.Unmarshal] into an [any]: the whole input is one value. *)
Definition Unmarshal (s : string) : option Json :=
  match decode_prefix s with
  | Some (v, r) => if decide (skip_space r = "") then Some v else None
  | None => None
  end.
Definition Valid (s : string) : bool := bool_decide (is_Some (Unmarshal s)).

(** Test texts are written with single quotes. *)
Fixpoint quoted (s : string) : string :=
  match s with
  | EmptyString => EmptyString
  | String "'" s => String "034" (quoted s)
  | String c s => String c (quoted s)
  end.

Example decode_ex1 :
  Unmarshal (quoted " {'a' : [1, -2.50e+3, true], 'b':null, 'a':'x\u00e9\ud83d\ude00'} ") =
  Some (JObject [("a", JString ("x" +:+ bytes [195; 169; 240; 159; 152; 128]%N)); ("b", JNull)]).
Proof. vm_compute. reflexivity. Qed.
Example decode_ex2 : Decode "01" = Some (JNumber "0") ∧ Unmarshal "01" = None.
Proof. split; vm_compute; reflexivity. Qed.
