(* ===== verification/JsonFacts.v ===== *)
(** Facts about the decoded values of [encoding/json]: induction on values, members, the
    distinct keys of decoded objects. *)
From S2P Require Import Prelude GoStrings GoJson.
From stdpp Require Import options.

Section json_ind.
Variable P : Json → Prop.
Hypotheses (Hnull : P JNull) (Hbool : ∀ b, P (JBool b)) (Hnum : ∀ l, P (JNumber l))
  (Hstr : ∀ s, P (JString s)) (Harr : ∀ l, Forall P l → P (JArray l))
  (Hobj : ∀ m, Forall (λ kv, P kv.2) m → P (JObject m)).
Fixpoint Json_nested_ind (v : Json) : P v :=
  match v with
  | JNull => Hnull | JBool b => Hbool b | JNumber l => Hnum l | JString s => Hstr s
  | JArray l => Harr l ((fix go l : Forall P l :=
      match l with [] => Forall_nil_2 _ | x :: l => Forall_cons_2 _ _ _ (Json_nested_ind x) (go l) end) l)
  | JObject m => Hobj m ((fix go m : Forall (λ kv, P kv.2) m :=
      match m with
      | [] => Forall_nil_2 _
      | x :: m => Forall_cons_2 (λ kv, P kv.2) x m (Json_nested_ind x.2) (go m)
      end) m)
  end.
End json_ind.

(** ** Members *)
Lemma lookup_member_elem k v m : lookup_member k m = Some v → (k, v) ∈ m.
Proof.
  induction m as [|[k' v'] m IH]; simpl; [done|].
  case_decide as Hk; [intros [= ->]; subst; by left|]. intros ?. right. auto.
Qed.

Lemma elem_lookup_member k v m : NoDup m.*1 → (k, v) ∈ m → lookup_member k m = Some v.
Proof.
  induction m as [|[k' v'] m IH]; simpl; [by intros _ ?%elem_of_nil|].
  intros [Hk Hnd]%NoDup_cons [[= -> ->]|Hin]%elem_of_cons; [by rewrite decide_True|].
  rewrite decide_False; [auto|]. intros <-. apply Hk. apply list_elem_of_fmap. by exists (k, v).
Qed.

Lemma forallb_Forall {A} (f : A → bool) l : forallb f l = true ↔ Forall (λ x, f x = true) l.
Proof. by rewrite forallb_forall, List.Forall_forall. Qed.

(** ** Distinct keys *)
(** Objects have distinct keys, as every decoded object does. *)
Fixpoint distinct_keys (v : Json) : bool :=
  match v with
  | JArray l => forallb distinct_keys l
  | JObject m => bool_decide (NoDup m.*1) && forallb (λ kv, distinct_keys kv.2) m
  | _ => true
  end.

Lemma assign_keys k v m : NoDup m.*1 → NoDup (assign k v m).*1 ∧
  (∀ k', k' ∈ (assign k v m).*1 ↔ k' = k ∨ k' ∈ m.*1).
Proof.
  induction m as [|[k1 v1] m IH]; simpl; intros Hnd.
  { split; [by apply NoDup_singleton|set_solver]. }
  apply NoDup_cons in Hnd as [Hk1 Hnd]. destruct (IH Hnd) as [IH1 IH2].
  case_decide as Hk; subst; simpl.
  - split; [by constructor|set_solver].
  - split; [constructor; [rewrite IH2; naive_solver|done]|].
    intros k'. rewrite !elem_of_cons, IH2. naive_solver.
Qed.

Lemma assign_values (P : Json → Prop) k v m :
  P v → Forall (λ kv, P kv.2) m → Forall (λ kv, P kv.2) (assign k v m).
Proof.
  intros Hv. induction 1 as [|[k1 v1] m H1 Hm IH]; simpl; [by repeat constructor|].
  case_decide; by constructor.
Qed.

Lemma to_map_distinct m :
  forallb (λ kv, distinct_keys kv.2) m = true → distinct_keys (JObject (to_map m)) = true.
Proof.
  intros Hm%forallb_Forall. simpl. apply andb_true_intro.
  rewrite bool_decide_eq_true, forallb_Forall. unfold to_map.
  assert (∀ acc, NoDup acc.*1 → Forall (λ kv, distinct_keys kv.2 = true) acc →
    NoDup (foldl (λ acc kv, assign kv.1 kv.2 acc) acc m).*1 ∧
    Forall (λ kv, distinct_keys kv.2 = true) (foldl (λ acc kv, assign kv.1 kv.2 acc) acc m))
    as Hgen; [|apply Hgen; constructor].
  induction Hm as [|[k v] m Hv Hm IH]; intros acc Hnd Hacc; simpl; [done|].
  apply IH; [by apply assign_keys|by apply (assign_values (λ v, distinct_keys v = true))].
Qed.

Lemma parse_distinct fuel :
  (∀ depth s v r, parse_value fuel depth s = Some (v, r) → distinct_keys v = true) ∧
  (∀ depth s l r, parse_elements fuel depth s = Some (l, r) → forallb distinct_keys l = true) ∧
  (∀ depth s m r, parse_members fuel depth s = Some (m, r) →
     forallb (λ kv, distinct_keys kv.2) m = true).
Proof.
  induction fuel as [|fuel (IHv & IHe & IHm)]; [done|]. split_and!.
  - intros depth s v r Hp. simpl in Hp.
    destruct s as [|c s1]; [done|].
    repeat (case_match; simplify_eq; try done); simpl; eauto using to_map_distinct.
  - intros depth s l r Hp. simpl in Hp.
    destruct (parse_value fuel depth (skip_space s)) as [[v r1]|] eqn:Hv; [|done].
    apply IHv in Hv.
    repeat (case_match; simplify_eq; try done); simpl; rewrite Hv; simpl; eauto.
  - intros depth s m r Hp. simpl in Hp.
    destruct (parse_key _ s) as [[k s1]|]; [|done].
    destruct (parse_value fuel depth s1) as [[v r1]|] eqn:Hv; [|done].
    apply IHv in Hv.
    repeat (case_match; simplify_eq; try done); simpl; rewrite Hv; simpl; eauto.
Qed.

Lemma Unmarshal_distinct raw v : Unmarshal raw = Some v → distinct_keys v = true.
Proof.
  unfold Unmarshal, decode_prefix. intros Hd. repeat case_match; simplify_eq.
  by eapply parse_distinct.
Qed.
