(* ===== verification/OpaqueID.v ===== *)
(** Opaque identifiers: [runtime/src/core/identity/identity.go].  128 bits, the first ones of a
    SHA-256 digest or random ones, in 26 letters of Crockford's base 32.

    SHA-256 is a parameter: the standard library gives it, and the source prints its digests in
    hexadecimal. *)
From S2P Require Import Prelude GoStrings GoJson.
From stdpp Require Import options.

(** [hex.EncodeToString] of [sha256.Sum256]. *)
Class Sha256 := { sha256_hex : string → string }.

(** The bytes a hexadecimal text stands for. *)
Definition hex_value (c : ascii) : Z :=
  (if is_digit c then digit_value c else Z.of_N (byte_of c) - 87)%Z.
Fixpoint hex_bytes (s : string) : list Z :=
  match s with
  | String a (String b s) => (16 * hex_value a + hex_value b)%Z :: hex_bytes s
  | _ => []
  end.

Definition alphabet : string := "0123456789ABCDEFGHJKMNPQRSTVWXYZ".
Definition letter (digit : Z) : ascii := default "0"%char (String.get (Z.to_nat digit) alphabet).

(** The bit at a position of the value, the most significant one first; behind its end there
    are no bits, and the digit is only shifted. *)
Definition value_bit (value : list Z) (position : Z) : Z :=
  if (position <? 128)%Z
  then Z.land (Z.shiftr (value !!! Z.to_nat (position / 8)) (7 - position mod 8)) 1 else 0%Z.
Definition digit_at (value : list Z) (bit : Z) : Z :=
  foldl (λ digit offset, Z.lor (Z.shiftl digit 1 mod 256) (value_bit value (bit + offset)))
    0%Z [0; 1; 2; 3; 4]%Z.
Fixpoint encode_digits (value : list Z) (bit : Z) (count : nat) : string :=
  match count with
  | O => ""
  | S count => String (letter (digit_at value bit)) (encode_digits value (bit + 5) count)
  end.
Definition encode128 (value : list Z) : string :=
  String (letter (Z.shiftr (Z.land (value !!! 0) 224) 5)) (encode_digits value 3 25).

Definition Deterministic `{!Sha256} (prefix seed : string) : string :=
  prefix +:+ encode128 (hex_bytes (str_take 32 (sha256_hex seed))).
(** [rand.Read] gives the bytes. *)
Definition Random (entropy : list Z) (prefix : string) : string := prefix +:+ encode128 entropy.

(** The cases of the source's test. *)
Example encode128_ex :
  encode128 (replicate 16 0%Z) = "00000000000000000000000000" ∧
  encode128 (replicate 15 0%Z ++ [1%Z]) = "00000000000000000000000001" ∧
  encode128 (replicate 16 255%Z) = "7ZZZZZZZZZZZZZZZZZZZZZZZZZ" ∧
  hex_bytes "00ff1a" = [0; 255; 26]%Z.
Proof. vm_compute. repeat split. Qed.

(** * What the identifiers look like *)
Lemma letter_member digit : (0 ≤ digit < 32)%Z →
  ∃ c, String.get (Z.to_nat digit) alphabet = Some c ∧ letter digit = c.
Proof.
  intros Hd. unfold letter. destruct (String.get _ _) as [c|] eqn:Hg; [by exists c|].
  assert (Z.to_nat digit ∈ seq 0 32) as Hin by (apply elem_of_seq; lia).
  assert (forallb (λ i, match String.get i alphabet with Some _ => true | None => false end) (seq 0 32) = true)
    as Hall by (vm_compute; reflexivity).
  rewrite forallb_forall in Hall. apply list_elem_of_In, Hall in Hin. by rewrite Hg in Hin.
Qed.
Lemma value_bit_range value position : (0 ≤ value_bit value position < 2)%Z.
Proof.
  unfold value_bit. case_match; [|lia]. rewrite (Z.land_ones _ 1) by lia. apply Z.mod_pos_bound. lia.
Qed.
Lemma shift_in digit bit k :
  (0 ≤ k < 8 → 0 ≤ digit < 2 ^ k → 0 ≤ bit < 2 → 0 ≤ Z.lor (Z.shiftl digit 1 mod 256) bit < 2 ^ (k + 1))%Z.
Proof.
  intros Hk Hd Hb. rewrite Z.shiftl_mul_pow2, Z.pow_add_r by lia. change (2 ^ 1)%Z with 2%Z.
  assert (2 ^ k ≤ 128)%Z as Hp by (change 128%Z with (2 ^ 7)%Z; apply Z.pow_le_mono_r; lia).
  rewrite Z.mod_small by lia. rewrite (Z.lor_comm _ bit). assert (bit = 0 ∨ bit = 1)%Z as [->| ->] by lia.
  - rewrite Z.lor_0_l. lia.
  - rewrite Z.lor_comm. replace (Z.lor (digit * 2) 1) with (digit * 2 + 1)%Z; [lia|].
    rewrite (Z.mul_comm digit). destruct digit; [done|done|lia].
Qed.
Lemma digit_at_range value bit : (0 ≤ digit_at value bit < 32)%Z.
Proof.
  unfold digit_at. cbn [foldl]. change 32%Z with (2 ^ (4 + 1))%Z.
  repeat (apply shift_in; [lia| |apply value_bit_range]; try
    match goal with |- (0 ≤ _ < 2 ^ ?k)%Z => 
      replace k with (k - 1 + 1)%Z by lia; change (4 - 1)%Z with 3%Z; change (3 - 1)%Z with 2%Z;
      change (2 - 1)%Z with 1%Z; change (1 - 1)%Z with 0%Z end).
  lia.
Qed.
Lemma encode_digits_letters value bit count (f : ascii → bool) :
  (∀ i c, String.get i alphabet = Some c → f c = true) → str_forall f (encode_digits value bit count) = true.
Proof.
  intros Hf. revert bit. induction count as [|count IH]; intros bit; [done|]. cbn [encode_digits str_forall]. rewrite IH, andb_true_r.
  destruct (letter_member _ (digit_at_range value bit)) as (c & Hc & ->). by eapply Hf.
Qed.
(** 26 letters of the alphabet, whatever the value. *)
Lemma encode128_shape value (f : ascii → bool) :
  (∀ i c, String.get i alphabet = Some c → f c = true) →
  str_length (encode128 value) = 26 ∧ str_forall f (encode128 value) = true.
Proof.
  intros Hf. unfold encode128. split; cbn [str_length String.length str_forall].
  - reflexivity.
  - rewrite encode_digits_letters, andb_true_r by done.
    assert (0 ≤ Z.shiftr (Z.land (value !!! 0%nat) 224) 5 < 32)%Z as Hr.
    { rewrite Z.shiftr_land, (Z.land_ones _ 3) by lia. pose proof (Z.mod_pos_bound (Z.shiftr (value !!! 0%nat) 5) (2 ^ 3) eq_refl). lia. }
    destruct (letter_member _ Hr) as (c & Hc & ->). by eapply Hf.
Qed.
