(* ===== verification/GoUnicode.v ===== *)
(** Go strings as sequences of runes: [strings.ToLower], [unicode.IsControl], and the searches
    for a substring that accompany them. *)
From S2P Require Import Prelude GoStrings GoJson.
From stdpp Require Import options.

(** [unicode.ToLower] on a rune beyond ASCII, which the Unicode tables give. *)
Class UnicodeLower := { lower_rune : string → string }.
Definition lower_ascii (c : ascii) : ascii :=
  if in_range 65 90 c then char (byte_of c + 32) else c.
Fixpoint lower_runes `{!UnicodeLower} (fuel : nat) (s : string) : string :=
  match fuel, s with
  | S fuel, String c rest =>
      if (byte_of c <? 128)%N then String (lower_ascii c) (lower_runes fuel rest)
      else match rune_length s with
           | O => bytes [239; 191; 189]%N +:+ lower_runes fuel rest
           | n => lower_rune (str_take n s) +:+ lower_runes fuel (str_drop n s)
           end
  | _, _ => ""
  end.
(** [strings.ToLower]. *)
Definition ToLower `{!UnicodeLower} (s : string) : string := lower_runes (str_length s) s.

(** [strings.Contains]. *)
Fixpoint Contains (s sub : string) : bool :=
  HasPrefix s sub ||
  match s with
  | EmptyString => false
  | String _ rest => Contains rest sub
  end.

(** A rune of a string on which [f] is true of its bytes; an invalid byte is the replacement
    rune. *)
Fixpoint rune_exists (f : string → bool) (fuel : nat) (s : string) : bool :=
  match fuel, s with
  | S fuel, String c rest =>
      match rune_length s with
      | O => f replacement || rune_exists f fuel rest
      | n => f (str_take n s) || rune_exists f fuel (str_drop n s)
      end
  | _, _ => false
  end.

(** [unicode.IsControl]: the code points below 32 and from 127 to 159. *)
Definition IsControl (rune : string) : bool :=
  match rune with
  | String c EmptyString => (byte_of c <? 32)%N || (byte_of c =? 127)%N
  | String c (String d EmptyString) => (byte_of c =? 194)%N && in_range 128 159 d
  | _ => false
  end.
Definition has_control (s : string) : bool := rune_exists IsControl (str_length s) s.

Example contains_ex : Contains "see http://x" "://" = true ∧ Contains "http:/x" "://" = false.
Proof. split; reflexivity. Qed.
Example has_control_ex :
  has_control ("a" +:+ bytes [194; 133]%N) = true ∧ has_control ("a" +:+ bytes [195; 133]%N) = false.
Proof. split; vm_compute; reflexivity. Qed.
