(* ===== verification/GoNumber.v ===== *)
(** [json.Number]: [Int64], and comparison through [big.Rat.SetString] and [Rat.Cmp]. *)
From S2P Require Import Prelude GoStrings GoJson.
From Stdlib Require Import Ascii QArith Qpower Qfield.
From stdpp Require Import options.
#[local] Open Scope Z_scope.
#[local] Open Scope stdpp_scope.

(** A decimal [mantissa * 10 ^ exponent]. *)
Record Decimal := { dec_mantissa : Z; dec_exponent : Z }.

(** [big.Rat] refuses a decimal exponent beyond this bound. *)
Definition max_rat_exponent : Z := 1000000.

(** [new(big.Rat).SetString(lit)] on a JSON number literal: it fails when the written
    exponent does not fit an [int64], or when a non-zero mantissa has an effective
    exponent larger than [max_rat_exponent]. *)
Definition Rat_SetString (lit : string) : option Decimal :=
  match scan_number lit with
  | Some (n, "") =>
    let exponent :=
      match num_exp n with
      | None => Some 0
      | Some e => ParseInt e
      end in
    match exponent with
    | None => None
    | Some e =>
      let m := digits_value (num_int n +:+ num_frac n) in
      if m =? 0 then Some {| dec_mantissa := 0; dec_exponent := 0 |}
      else
        let e := e - Z.of_nat (str_length (num_frac n)) in
        if Z.abs e <=? max_rat_exponent
        then Some {| dec_mantissa := if num_neg n then - m else m; dec_exponent := e |}
        else None
    end
  | _ => None
  end.

(** [Rat.Cmp]. *)
Definition Rat_Cmp (x y : Decimal) : comparison :=
  let k := Z.min (dec_exponent x) (dec_exponent y) in
  (dec_mantissa x * 10 ^ (dec_exponent x - k) ?= dec_mantissa y * 10 ^ (dec_exponent y - k)).

(** [json.Number.Int64]. *)
Definition Number_Int64 (lit : string) : option Z := ParseInt lit.

(** * [Rat_Cmp] is the order of the rationals *)
Definition dec_Q (x : Decimal) : Q := (inject_Z (dec_mantissa x) * inject_Z 10 ^ dec_exponent x)%Q.

Lemma ten_pos k : (0 < inject_Z 10 ^ k)%Q.
Proof. apply Qpower_0_lt. by compute. Qed.

Lemma dec_Q_shift x k :
  k ≤ dec_exponent x →
  (dec_Q x == inject_Z (dec_mantissa x * 10 ^ (dec_exponent x - k)) * inject_Z 10 ^ k)%Q.
Proof.
  intros Hk. unfold dec_Q. rewrite inject_Z_mult, Zpower_Qpower by lia.
  rewrite <-Qmult_assoc, <-Qpower_plus by (by compute).
  by replace (dec_exponent x - k + k) with (dec_exponent x) by lia.
Qed.

Lemma Rat_Cmp_Q x y : Rat_Cmp x y = (dec_Q x ?= dec_Q y)%Q.
Proof.
  unfold Rat_Cmp. set (k := Z.min _ _).
  rewrite (dec_Q_shift x k), (dec_Q_shift y k) by (unfold k; lia).
  generalize (dec_mantissa x * 10 ^ (dec_exponent x - k)).
  generalize (dec_mantissa y * 10 ^ (dec_exponent y - k)).
  intros a b. pose proof (ten_pos k) as Hk.
  destruct (Z.compare_spec b a) as [->|Hlt|Hlt]; symmetry.
  - by apply Qeq_alt.
  - apply -> Qlt_alt. apply Qmult_lt_compat_r; [done|]. by rewrite <-Zlt_Qlt.
  - apply -> Qgt_alt. apply Qmult_lt_compat_r; [done|]. by rewrite <-Zlt_Qlt.
Qed.

Lemma Rat_Cmp_antisym x y : Rat_Cmp y x = CompOpp (Rat_Cmp x y).
Proof. unfold Rat_Cmp. rewrite Z.min_comm. apply Z.compare_antisym. Qed.

Lemma Rat_Cmp_refl x : Rat_Cmp x x = Eq.
Proof. unfold Rat_Cmp. apply Z.compare_refl. Qed.

Lemma Rat_Cmp_Eq_trans x y z : Rat_Cmp x y = Eq → Rat_Cmp y z = Eq → Rat_Cmp x z = Eq.
Proof. rewrite !Rat_Cmp_Q, <-!Qeq_alt. apply Qeq_trans. Qed.

Lemma Rat_Cmp_Lt_trans x y z : Rat_Cmp x y = Lt → Rat_Cmp y z = Lt → Rat_Cmp x z = Lt.
Proof. rewrite !Rat_Cmp_Q, <-!Qlt_alt. apply Qlt_trans. Qed.

Example rat_ex1 :
  (x ← Rat_SetString "1.50e1"; y ← Rat_SetString "15"; Some (Rat_Cmp x y)) = Some Eq.
Proof. vm_compute. reflexivity. Qed.
Example rat_ex2 : Rat_SetString "1e1000001" = None ∧ Rat_SetString "0e1000001" ≠ None.
Proof. by split; vm_compute. Qed.
