(* ===== verification/GoFloat.v ===== *)
(** [float64] values of JSON numbers: [strconv.ParseFloat] with round-to-nearest-even on
    binary64 ([SpecFloat] of the Standard Library), the conversions between [float64] and
    [int64], and [json.Unmarshal] into an [any], whose numbers are [float64]s. *)
From S2P Require Import Prelude GoStrings GoJson.
From Stdlib Require Import SpecFloat.
From stdpp Require Import options.
#[local] Open Scope Z_scope.
#[local] Open Scope stdpp_scope.

Abbreviation float64 := spec_float.
Definition float_prec : Z := 53.
Definition float_emax : Z := 1024.

(** The value [(-1)^negative * mantissa * 10^exponent] rounded to the nearest [float64]. *)
Definition round_decimal (negative : bool) (mantissa exponent : Z) : float64 :=
  let signed := if negative then - mantissa else mantissa in
  if mantissa =? 0 then S754_zero negative
  else if 0 <=? exponent then
    binary_normalize float_prec float_emax (signed * 10 ^ exponent) 0 negative
  else
    let '(m, e, location) :=
      SFdiv_core_binary float_prec float_emax mantissa 0 (10 ^ (- exponent)) 0 in
    binary_round_aux float_prec float_emax negative m e location.

(** The exponent digits are read until they exceed [10000]. *)
Fixpoint capped_digits (acc : Z) (s : string) : Z :=
  match s with
  | EmptyString => acc
  | String c s => capped_digits (if acc <? 10000 then 10 * acc + digit_value c else acc) s
  end.
Definition written_exponent (digits : option string) : Z :=
  match digits with
  | None => 0
  | Some (String "-" ds) => - capped_digits 0 ds
  | Some (String "+" ds) => capped_digits 0 ds
  | Some ds => capped_digits 0 ds
  end.

(** [strconv.ParseFloat(lit, 64)] on a JSON number literal; [None] when it is out of range.
    Beyond four hundred digits the value is an infinity or zero, so it is not computed. *)
Definition ParseFloat (lit : string) : option float64 :=
  match scan_number lit with
  | Some (n, "") =>
      let digits := (num_int n +:+ num_frac n)%string in
      let m := digits_value digits in
      let e := written_exponent (num_exp n) - Z.of_nat (str_length (num_frac n)) in
      if m =? 0 then Some (S754_zero (num_neg n))
      else if 400 <? e then None
      else if e + Z.of_nat (str_length digits) <? -400 then Some (S754_zero (num_neg n))
      else
        match round_decimal (num_neg n) m e with
        | S754_infinity _ | S754_nan => None
        | x => Some x
        end
  | _ => None
  end.

(** [math.Trunc] of a finite value, as an integer. *)
Definition truncated (x : float64) : Z :=
  match x with
  | S754_finite negative m e =>
      let magnitude := if 0 <=? e then Z.shiftl (Zpos m) e else Z.shiftr (Zpos m) (- e) in
      if negative then - magnitude else magnitude
  | _ => 0
  end.
Definition is_integral (x : float64) : bool :=
  match x with
  | S754_zero _ => true
  | S754_finite _ m e => (0 <=? e) || (Z.land (Zpos m) (Z.ones (- e)) =? 0)
  | _ => false
  end.

(** [int64(x)]: the Go specification leaves the result for an out-of-range value to the
    implementation. *)
Class GoInt64 := { int64_out_of_range : float64 → Z }.
Definition to_int64 `{!GoInt64} (x : float64) : Z :=
  if in_int64 (truncated x) then truncated x else int64_out_of_range x.
(** [float64(n)]. *)
Definition of_int64 (n : Z) : float64 := binary_normalize float_prec float_emax n 0 false.

(** The conversions of amd64 and arm64. *)
Definition int64_amd64 : GoInt64 := {| int64_out_of_range := λ _, min_int64 |}.
Definition int64_arm64 : GoInt64 := {| int64_out_of_range := λ x,
  match x with
  | S754_finite true _ _ => min_int64
  | S754_finite false _ _ => max_int64
  | _ => 0
  end |}.

(** * [json.Unmarshal] into an [any] *)

(** The number literals of a valid text, in order: a digit or a minus sign outside a string
    starts one. Every step consumes a byte. *)
Fixpoint number_literals (fuel : nat) (s : string) : list string :=
  match fuel, s with
  | S fuel, String c s1 =>
      if decide (c = "034"%char) then
        match parse_string (S (str_length s1)) s1 with
        | Some (_, r) => number_literals fuel r
        | None => []
        end
      else if is_digit c || bool_decide (c = "-"%char) then
        match scan_number s with
        | Some (_, r) => consumed s r :: number_literals fuel r
        | None => []
        end
      else number_literals fuel s1
  | _, _ => []
  end.

(** Every number must be a [float64], also one that a later duplicate of its key replaces. *)
Definition numbers_in_range (s : string) : bool :=
  forallb (λ lit, bool_decide (is_Some (ParseFloat lit))) (number_literals (str_length s) s).
Definition Unmarshal_any (s : string) : option Json :=
  if numbers_in_range s then Unmarshal s else None.

Example parse_float_ex1 : ParseFloat "0.1" = Some (S754_finite false 7205759403792794 (-56)).
Proof. vm_compute. reflexivity. Qed.
Example parse_float_ex2 :
  ParseFloat "1e309" = None ∧ ParseFloat "1.7976931348623157e308" ≠ None ∧
  ParseFloat "-1e-400" = Some (S754_zero true) ∧
  ParseFloat "4.9e-324" = Some (S754_finite false 1 (-1074)).
Proof. vm_compute. repeat split; discriminate. Qed.
Example parse_float_ex3 :
  (is_integral <$> ParseFloat "1.50e1", is_integral <$> ParseFloat "1.5",
   is_integral <$> ParseFloat "9007199254740993.1", truncated <$> ParseFloat "-2.5e0") =
  (Some true, Some false, Some true, Some (-2)).
Proof. vm_compute. reflexivity. Qed.
Example unmarshal_any_ex :
  Unmarshal_any (quoted "{'a':1e999,'a':1}") = None ∧
  Unmarshal_any (quoted "{'-1e999':-1.5E2}") = Some (JObject [("-1e999", JNumber "-1.5E2")]).
Proof. vm_compute. split; reflexivity. Qed.

(** * Facts *)
Lemma Unmarshal_any_Some s v : Unmarshal_any s = Some v → Unmarshal s = Some v.
Proof. unfold Unmarshal_any. by destruct (numbers_in_range s). Qed.
