(* ===== verification/GoGraph.v ===== *)
(** The two worklist loops of the workflow packages: a stack of identifiers with the
    visited mark set when a node is popped, or when it is pushed.  Both compute
    reachability, whatever the order of the stack. *)
From S2P Require Import Prelude.
From stdpp Require Import options.

(** The top of a Go stack (its last element) is the head of the list. *)
Definition push_all {K} (new stack : list K) : list K := reverse new ++ stack.

Section worklist.
Context {K : Type} `{Countable K}.
Implicit Types (succ : K → list K) (U visited : gset K) (stack : list K).

(** [for len(stack) != 0 { pop current; if visited { continue }; mark; push successors }] *)
Fixpoint mark_on_pop succ (fuel : nat) stack visited : option (gset K) :=
  match stack with
  | [] => Some visited
  | current :: stack =>
    match fuel with
    | O => None
    | S fuel =>
      if decide (current ∈ visited) then mark_on_pop succ fuel stack visited
      else mark_on_pop succ fuel (push_all (succ current) stack) ({[current]} ∪ visited)
    end
  end.

(** The inner loop of the second form: push the sources that are not marked yet. *)
Fixpoint push_unmarked (sources : list K) stack visited : list K * gset K :=
  match sources with
  | [] => (stack, visited)
  | x :: sources =>
      if decide (x ∈ visited) then push_unmarked sources stack visited
      else push_unmarked sources (x :: stack) ({[x]} ∪ visited)
  end.

(** [for len(stack) != 0 { pop current; for x in next { if !visited { mark; push } } }] *)
Fixpoint mark_on_push succ (fuel : nat) stack visited : option (gset K) :=
  match stack with
  | [] => Some visited
  | current :: stack =>
    match fuel with
    | O => None
    | S fuel =>
      let '(stack, visited) := push_unmarked (succ current) stack visited in
      mark_on_push succ fuel stack visited
    end
  end.

(** [for len(stack) != 0 { pop current; if goal { return true }; if stop || visited { continue };
    mark; push successors }; return false] *)
Fixpoint search succ (goal stop : K → bool) (fuel : nat) stack visited : option bool :=
  match stack with
  | [] => Some false
  | current :: stack =>
    match fuel with
    | O => None
    | S fuel =>
      if goal current then Some true
      else if stop current || bool_decide (current ∈ visited)
      then search succ goal stop fuel stack visited
      else search succ goal stop fuel (push_all (succ current) stack) ({[current]} ∪ visited)
    end
  end.

(** Reachability in the graph of [succ]. *)
Definition edge succ : relation K := λ x y, y ∈ succ x.
Definition reaches succ : relation K := rtc (edge succ).
Definition reachable_from succ (starts : list K) (y : K) : Prop :=
  ∃ x, x ∈ starts ∧ reaches succ x y.

(** ** Marking on pop *)

(** The pushes still possible: the out-degrees of the unmarked nodes of [U]. *)
Definition pending succ U visited : nat :=
  sum_list (length ∘ succ <$> elements (U ∖ visited)).

Lemma pending_mark succ U visited x :
  x ∈ U → x ∉ visited →
  pending succ U visited = length (succ x) + pending succ U ({[x]} ∪ visited).
Proof.
  intros HU Hx. unfold pending.
  assert (U ∖ visited = {[x]} ∪ U ∖ ({[x]} ∪ visited)) as ->.
  { apply set_eq. intros y. destruct (decide (y = x)); set_solver. }
  rewrite elements_union_singleton by set_solver. done.
Qed.

Lemma pending_mark_out succ U visited x :
  x ∉ U → pending succ U ({[x]} ∪ visited) = pending succ U visited.
Proof.
  intros HU. unfold pending. f_equal. f_equal.
  assert (U ∖ ({[x]} ∪ visited) = U ∖ visited) as ->; [|done]. set_solver.
Qed.

(** Enough fuel: one step per stacked element and per possible push. *)
Lemma mark_on_pop_total succ U fuel stack visited :
  (∀ x, x ∉ U → succ x = []) →
  length stack + pending succ U visited ≤ fuel →
  is_Some (mark_on_pop succ fuel stack visited).
Proof.
  intros HU. revert stack visited.
  induction fuel as [|fuel IH]; intros [|x stack] visited Hfuel; simpl in *;
    try (by eauto); try lia.
  case_decide as Hx.
  - apply IH. lia.
  - apply IH. unfold push_all. rewrite length_app, length_reverse.
    destruct (decide (x ∈ U)) as [HxU|HxU].
    + rewrite (pending_mark succ U visited x) in Hfuel by done. lia.
    + rewrite HU, pending_mark_out by done. simpl. lia.
Qed.

(** What the loop marks: everything reachable from the stack without passing through
    a node that was already marked. *)
Lemma mark_on_pop_sound succ fuel stack visited vis :
  mark_on_pop succ fuel stack visited = Some vis →
  visited ⊆ vis ∧ (∀ y, y ∈ vis → y ∈ visited ∨ reachable_from succ stack y).
Proof.
  revert stack visited. induction fuel as [|fuel IH]; intros [|x stack] visited Hrun;
    simpl in *; simplify_eq; try (split; [done|by left]).
  case_decide as Hx.
  - apply IH in Hrun as [Hsub Hvis]. split; [done|]. intros y Hy.
    destruct (Hvis y Hy) as [?|(z & Hz & Hr)]; [by left|].
    right. exists z. split; [by right|done].
  - apply IH in Hrun as [Hsub Hvis]. split; [set_solver|]. intros y Hy.
    destruct (Hvis y Hy) as [[->%elem_of_singleton|?]%elem_of_union|(z & Hz & Hr)].
    + right. exists x. split; [by left|apply rtc_refl].
    + by left.
    + right. unfold push_all in Hz. apply elem_of_app in Hz as [Hz|Hz].
      * exists x. split; [by left|]. eapply rtc_l; [|exact Hr].
        unfold edge. by apply elem_of_reverse.
      * exists z. split; [by right|done].
Qed.

Lemma mark_on_pop_closed succ fuel stack visited vis :
  (∀ x, x ∈ visited → ∀ y, y ∈ succ x → y ∈ visited ∨ y ∈ stack) →
  mark_on_pop succ fuel stack visited = Some vis →
  (∀ x, x ∈ stack → x ∈ vis) ∧ (∀ x y, x ∈ vis → y ∈ succ x → y ∈ vis).
Proof.
  revert stack visited. induction fuel as [|fuel IH]; intros [|x stack] visited Hinv Hrun;
    simpl in *; simplify_eq; try (split; [set_solver|]; intros x' y Hx' Hy;
    destruct (Hinv x' Hx' y Hy); [done|set_solver]).
  case_decide as Hx.
  - pose proof (mark_on_pop_sound _ _ _ _ _ Hrun) as [Hsub _].
    apply IH in Hrun as [Hst Hcl].
    + split; [|done]. intros z [->|Hz]%elem_of_cons; [set_solver|auto].
    + intros a Ha b Hb. destruct (Hinv a Ha b Hb) as [?|[->|?]%elem_of_cons]; auto.
  - pose proof (mark_on_pop_sound _ _ _ _ _ Hrun) as [Hsub _].
    apply IH in Hrun as [Hst Hcl].
    + split; [|done]. intros z [->|Hz]%elem_of_cons; [set_solver|].
      apply Hst. unfold push_all. set_solver.
    + unfold push_all. intros a Ha b Hb.
      apply elem_of_union in Ha as [->%elem_of_singleton|Ha].
      * right. apply elem_of_app. left. by apply elem_of_reverse.
      * destruct (Hinv a Ha b Hb) as [?|[->|?]%elem_of_cons]; set_solver.
Qed.

Lemma closed_reaches succ (vis : gset K) (x y : K) :
  (∀ x y, x ∈ vis → y ∈ succ x → y ∈ vis) → x ∈ vis → reaches succ x y → y ∈ vis.
Proof. intros Hcl Hx Hr. induction Hr; eauto. Qed.

(** The loop started with nothing marked computes the nodes reachable from its stack. *)
Definition pop_fuel succ U (stack : list K) : nat := length stack + pending succ U ∅.

Lemma mark_on_pop_spec succ U stack :
  (∀ x, x ∉ U → succ x = []) →
  ∃ vis, mark_on_pop succ (pop_fuel succ U stack) stack ∅ = Some vis ∧
         ∀ y, y ∈ vis ↔ reachable_from succ stack y.
Proof.
  intros HU. destruct (mark_on_pop_total succ U (pop_fuel succ U stack) stack ∅ HU) as [vis Hrun].
  { unfold pop_fuel. lia. }
  exists vis. split; [done|]. intros y.
  pose proof (mark_on_pop_sound _ _ _ _ _ Hrun) as [_ Hsound].
  assert (∀ x, x ∈ (∅ : gset K) → ∀ y, y ∈ succ x → y ∈ (∅ : gset K) ∨ y ∈ stack) as Hinv.
  { intros x []%not_elem_of_empty. }
  destruct (mark_on_pop_closed _ _ _ _ _ Hinv Hrun) as [Hst Hcl].
  split.
  - intros Hy. destruct (Hsound y Hy) as [?|?]; [set_solver|done].
  - intros (x & Hx & Hr). eapply closed_reaches; eauto.
Qed.

(** ** Marking on push *)

Lemma push_unmarked_spec sources stack visited stack' visited' :
  push_unmarked sources stack visited = (stack', visited') →
  visited' = list_to_set sources ∪ visited ∧
  (∀ y, y ∈ stack' → y ∈ stack ∨ (y ∈ sources ∧ y ∉ visited)) ∧
  (∀ y, y ∈ stack → y ∈ stack') ∧
  (∀ y, y ∈ sources → y ∉ visited → y ∈ stack') ∧
  length stack' + size visited = length stack + size visited'.
Proof.
  revert stack visited. induction sources as [|x sources IH]; intros stack visited; simpl.
  { intros [= <- <-]. split_and!; [set_solver|auto|auto|set_solver|lia]. }
  case_decide as Hx; intros Hp; apply IH in Hp as (-> & H1 & H2 & H3 & H4).
  - split_and!; [set_solver| |done| |done].
    + intros y Hy. destruct (H1 y Hy) as [?|[??]]; [by left|right; set_solver].
    + intros y [->|Hy]%elem_of_cons Hnv; [done|auto].
  - split_and!; [set_solver| | | |].
    + intros y Hy. destruct (H1 y Hy) as [[->|?]%elem_of_cons|[??]]; [|by left|];
        right; set_solver.
    + intros y Hy. apply H2. by right.
    + intros y [->|Hy]%elem_of_cons Hnv; [apply H2; by left|].
      destruct (decide (y = x)) as [->|]; [apply H2; by left|apply H3; set_solver].
    + simpl in *. rewrite size_union, size_singleton in H4 by set_solver. lia.
Qed.

Lemma mark_on_push_total succ U fuel stack visited :
  visited ⊆ U → (∀ x y, y ∈ succ x → y ∈ U) →
  length stack + size U ≤ fuel + size visited →
  is_Some (mark_on_push succ fuel stack visited).
Proof.
  intros Hsub HU. revert stack visited Hsub.
  induction fuel as [|fuel IH]; intros [|x stack] visited Hsub Hfuel; simpl in *;
    try (by eauto).
  - apply subseteq_size in Hsub. lia.
  - destruct (push_unmarked _ _ _) as [stack' visited'] eqn:Hp.
    apply push_unmarked_spec in Hp as (-> & _ & _ & _ & Hlen).
    apply IH; [|lia].
    intros y [Hy%elem_of_list_to_set|Hy]%elem_of_union; [by eapply HU|set_solver].
Qed.

Lemma mark_on_push_sound succ fuel stack visited vis :
  mark_on_push succ fuel stack visited = Some vis →
  visited ⊆ vis ∧ (∀ y, y ∈ vis → y ∈ visited ∨ reachable_from succ stack y).
Proof.
  revert stack visited. induction fuel as [|fuel IH]; intros [|x stack] visited Hrun;
    simpl in *; simplify_eq; try (split; [done|by left]).
  destruct (push_unmarked _ _ _) as [stack' visited'] eqn:Hp.
  apply push_unmarked_spec in Hp as (-> & H1 & H2 & _ & _).
  apply IH in Hrun as [Hsub Hvis]. split; [set_solver|]. intros y Hy.
  destruct (Hvis y Hy) as [[Hs%elem_of_list_to_set|?]%elem_of_union|(z & Hz & Hr)].
  - right. exists x. split; [by left|]. by apply rtc_once.
  - by left.
  - right. destruct (H1 z Hz) as [?|[? _]].
    + exists z. split; [by right|done].
    + exists x. split; [by left|]. eapply rtc_l; [|exact Hr]. done.
Qed.

Lemma mark_on_push_closed succ fuel stack visited vis :
  (∀ x, x ∈ visited → x ∈ stack ∨ ∀ y, y ∈ succ x → y ∈ visited) →
  mark_on_push succ fuel stack visited = Some vis →
  ∀ x y, x ∈ vis → y ∈ succ x → y ∈ vis.
Proof.
  revert stack visited. induction fuel as [|fuel IH]; intros [|x stack] visited Hinv Hrun;
    simpl in *; simplify_eq; try (intros a b Ha Hb;
      destruct (Hinv a Ha) as [?|?]; [set_solver|by eauto]).
  destruct (push_unmarked _ _ _) as [stack' visited'] eqn:Hp.
  apply push_unmarked_spec in Hp as (-> & H1 & H2 & H3 & _).
  eapply IH; [|done].
  intros a [Ha%elem_of_list_to_set|Ha]%elem_of_union.
  - destruct (decide (a ∈ visited)) as [Hav|]; [|left; by apply H3].
    destruct (Hinv a Hav) as [[->|?]%elem_of_cons|?]; [right; set_solver|left; auto|].
    right. set_solver.
  - destruct (Hinv a Ha) as [[->|?]%elem_of_cons|?]; [right; set_solver|left; auto|].
    right. set_solver.
Qed.

(** The loop started on a stack whose elements are marked. *)
Definition push_fuel U (stack : list K) : nat := length stack + size U.

Lemma mark_on_push_spec succ U stack :
  (∀ x y, y ∈ succ x → y ∈ U) → (∀ x, x ∈ stack → x ∈ U) →
  ∃ vis, mark_on_push succ (push_fuel U stack) stack (list_to_set stack) = Some vis ∧
         ∀ y, y ∈ vis ↔ reachable_from succ stack y.
Proof.
  intros HU Hst.
  destruct (mark_on_push_total succ U (push_fuel U stack) stack (list_to_set stack))
    as [vis Hrun]; [|done|unfold push_fuel; lia|].
  { intros y Hy%elem_of_list_to_set. auto. }
  exists vis. split; [done|]. intros y.
  pose proof (mark_on_push_sound _ _ _ _ _ Hrun) as [Hsub Hsound].
  assert (∀ x, x ∈ (list_to_set stack : gset K) →
    x ∈ stack ∨ ∀ y, y ∈ succ x → y ∈ (list_to_set stack : gset K)) as Hinv.
  { intros x Hx%elem_of_list_to_set. by left. }
  pose proof (mark_on_push_closed _ _ _ _ _ Hinv Hrun) as Hcl.
  split.
  - intros Hy. destruct (Hsound y Hy) as [Hy'%elem_of_list_to_set|?]; [|done].
    exists y. split; [done|apply rtc_refl].
  - intros (x & Hx & Hr). eapply closed_reaches; [done| |done]. set_solver.
Qed.
(** The two loops with their fuel: the set of reachable nodes. *)
Definition pop_reachable succ U (stack : list K) : gset K :=
  default ∅ (mark_on_pop succ (pop_fuel succ U stack) stack ∅).
Definition push_reachable succ U (stack : list K) : gset K :=
  default ∅ (mark_on_push succ (push_fuel U stack) stack (list_to_set stack)).

Lemma elem_of_pop_reachable succ U stack y :
  (∀ x, x ∉ U → succ x = []) → y ∈ pop_reachable succ U stack ↔ reachable_from succ stack y.
Proof.
  intros HU. unfold pop_reachable.
  destruct (mark_on_pop_spec succ U stack HU) as (vis & -> & Hvis). apply Hvis.
Qed.

Lemma elem_of_push_reachable succ U stack y :
  (∀ x y, y ∈ succ x → y ∈ U) → (∀ x, x ∈ stack → x ∈ U) →
  y ∈ push_reachable succ U stack ↔ reachable_from succ stack y.
Proof.
  intros HU Hst. unfold push_reachable.
  destruct (mark_on_push_spec succ U stack HU Hst) as (vis & -> & Hvis). apply Hvis.
Qed.

(** ** Searching *)

(** The graph in which the nodes of [stop] have no successors. *)
Definition cut (stop : K → bool) succ (x : K) : list K := if stop x then [] else succ x.

(** The search takes the steps of the marking loop on the cut graph until it meets a goal; it
    does not mark the nodes of [stop]. *)
Lemma search_mark succ goal stop fuel stack visited marked vis :
  visited ⊆ marked → (∀ x, x ∈ marked → x ∈ visited ∨ stop x = true) →
  (∀ x, x ∈ marked → goal x = false) →
  mark_on_pop (cut stop succ) fuel stack marked = Some vis →
  ∃ b, search succ goal stop fuel stack visited = Some b ∧
       (b = true ↔ ∃ y, y ∈ vis ∧ goal y = true).
Proof.
  revert stack visited marked. induction fuel as [|fuel IH]; intros [|x stack] visited marked
    Hsub Hstop Hgoal Hrun; simpl in *; simplify_eq; [exists false..|];
    try (split; [done|]; split; [done|]; intros (y & ?%Hgoal & ?); congruence).
  destruct (goal x) eqn:Hx.
  { exists true. split; [done|]. split; [|done]. intros _. exists x. split; [|done].
    case_decide as Hm; [by apply mark_on_pop_sound in Hrun as [Hr _]; apply Hr|].
    apply mark_on_pop_sound in Hrun as [Hr _]. apply Hr. set_solver. }
  case_decide as Hm.
  - destruct (Hstop x Hm) as [Hv|Hs].
    + rewrite bool_decide_eq_true_2, orb_true_r by done. by eapply IH.
    + rewrite Hs. by eapply IH.
  - unfold cut in Hrun at 2. destruct (stop x) eqn:Hs; simpl.
    + eapply IH; [| | |exact Hrun]; [set_solver| |]; intros y [->%elem_of_singleton|?]%elem_of_union;
        [by right|by apply Hstop|done|by apply Hgoal].
    + rewrite bool_decide_eq_false_2 by set_solver.
      eapply IH; [| | |exact Hrun]; [set_solver| |]; intros y [->%elem_of_singleton|Hy]%elem_of_union;
        [set_solver|destruct (Hstop y Hy); set_solver|done|by apply Hgoal].
Qed.

Definition found_by succ goal stop U (stack : list K) : bool :=
  default false (search succ goal stop (pop_fuel (cut stop succ) U stack) stack ∅).

Lemma found_by_spec succ goal stop U stack :
  (∀ x, x ∉ U → succ x = []) →
  found_by succ goal stop U stack = true ↔
  ∃ y, goal y = true ∧ reachable_from (cut stop succ) stack y.
Proof.
  intros HU. unfold found_by.
  destruct (mark_on_pop_spec (cut stop succ) U stack) as (vis & Hrun & Hvis).
  { intros x Hx. unfold cut. rewrite HU by done. by destruct (stop x). }
  destruct (λ H1 H2 H3, search_mark succ goal stop _ stack ∅ ∅ vis H1 H2 H3 Hrun) as (b & -> & Hb);
    [set_solver..|].
  simpl. rewrite Hb. setoid_rewrite Hvis. naive_solver.
Qed.

(** The adjacency map of the reversed edges: [reverse[to] = append(reverse[to], from)]. *)
Definition append_at {A} (m : gmap K (list A)) (k : K) (x : A) : gmap K (list A) :=
  <[k := default [] (m !! k) ++ [x]]> m.
Definition reverse_index {A} (edges : list (A * K)) : gmap K (list A) :=
  foldl (λ m '(x, k), append_at m k x) ∅ edges.
Definition sources_of {A} (index : gmap K (list A)) (k : K) : list A := default [] (index !! k).

Lemma sources_of_append_at {A} (m : gmap K (list A)) k x k' :
  sources_of (append_at m k x) k' = sources_of m k' ++ (if decide (k' = k) then [x] else []).
Proof.
  unfold sources_of, append_at. destruct (decide (k' = k)) as [->|Hne].
  - by rewrite lookup_insert_eq.
  - by rewrite lookup_insert_ne, (right_id_L [] (++)) by done.
Qed.

Lemma sources_of_reverse_index {A} (edges : list (A * K)) k :
  sources_of (reverse_index edges) k = (filter (λ e, e.2 = k) edges).*1.
Proof.
  unfold reverse_index.
  assert (∀ m, sources_of (foldl (λ m '(x, k), append_at m k x) m edges) k =
    sources_of m k ++ (filter (λ e, e.2 = k) edges).*1) as Hgen.
  { induction edges as [|[x k'] edges IH]; intros m; simpl.
    - by rewrite (right_id_L [] (++)).
    - rewrite IH, sources_of_append_at, filter_cons, <-(assoc_L (++)). simpl.
      repeat case_decide; by try congruence. }
  by rewrite Hgen.
Qed.

Lemma elem_of_sources_of {A} (edges : list (A * K)) k x :
  x ∈ sources_of (reverse_index edges) k ↔ (x, k) ∈ edges.
Proof.
  rewrite sources_of_reverse_index, list_elem_of_fmap. split.
  - intros ([x' k'] & -> & [? Hin]%list_elem_of_filter). by simpl in *; subst.
  - intros Hin. exists (x, k). by rewrite list_elem_of_filter.
Qed.

Lemma reverse_index_lookup_dom {A} (edges : list (A * K)) k :
  is_Some (reverse_index edges !! k) ↔ ∃ x, (x, k) ∈ edges.
Proof.
  unfold reverse_index.
  assert (∀ m : gmap K (list A), is_Some (foldl (λ m '(x, k), append_at m k x) m edges !! k) ↔
    is_Some (m !! k) ∨ ∃ x, (x, k) ∈ edges) as Hgen.
  { induction edges as [|[x k'] edges IH]; intros m; simpl.
    - split; [by left|]. intros [?|[? []%elem_of_nil]]; done.
    - rewrite IH. unfold append_at. rewrite lookup_insert_is_Some'.
      setoid_rewrite elem_of_cons. naive_solver. }
  rewrite Hgen, lookup_empty. split; [|by right]. intros [[]|?]; done.
Qed.
End worklist.

(** Reaching backwards is being reached forwards. *)
Lemma reaches_flip_1 {K} (succ pred : K → list K) x y :
  (∀ a b, b ∈ succ a → a ∈ pred b) → reaches succ x y → reaches pred y x.
Proof.
  intros Hsp Hr. induction Hr as [|a b c Hab Hbc IH]; [apply rtc_refl|].
  eapply rtc_r; [exact IH|]. unfold edge in *. auto.
Qed.

Lemma reaches_flip {K} (succ pred : K → list K) x y :
  (∀ a b, b ∈ succ a ↔ a ∈ pred b) → reaches succ x y ↔ reaches pred y x.
Proof. intros Hsp. split; apply reaches_flip_1; intros ??; by apply Hsp. Qed.

(** Reachability only depends on the edges. *)
Lemma reachable_from_proper {K} (succ1 succ2 : K → list K) (l1 l2 : list K) y :
  (∀ x, succ1 x ≡ₚ succ2 x) → l1 ≡ₚ l2 →
  reachable_from succ1 l1 y ↔ reachable_from succ2 l2 y.
Proof.
  intros Hs Hl. unfold reachable_from.
  setoid_rewrite Hl. apply exist_proper. intros x. apply and_iff_compat_l.
  split; intros Hr; induction Hr; [apply rtc_refl| |apply rtc_refl|];
    (eapply rtc_l; [|eassumption]); unfold edge in *; first [by rewrite <-Hs|by rewrite Hs].
Qed.

#[export] Hint Resolve rtc_refl rtc_once : go.
