(* ===== verification/GoEncode.v ===== *)
(** [json.Marshal]: strings with HTML escaping, numbers, arrays, objects with fields in a
    given order or with sorted keys, and decoded values. *)
From S2P Require Import Prelude GoStrings GoJson.
From stdpp Require Import options.

Definition hex_digit (n : N) : ascii := char (if n <? 10 then 48 + n else 87 + n)%N.

Definition quote_mark : string := bytes [34%N].

(** Bytes that [json.Marshal] writes unchanged. *)
Definition html_safe (c : ascii) : bool :=
  (32 <=? byte_of c)%N && (byte_of c <? 128)%N &&
  negb (bool_decide (byte_of c ∈ [34; 38; 60; 62; 92]%N)).

Definition escape_ascii (c : ascii) : string :=
  let n := byte_of c in
  (if n =? 34 then bytes [92; 34]
   else if n =? 92 then bytes [92; 92]
   else if n =? 8 then "\b" else if n =? 12 then "\f" else if n =? 10 then "\n"
   else if n =? 13 then "\r" else if n =? 9 then "\t"
   else "\u00" +:+ String (hex_digit (n / 16)) (String (hex_digit (n mod 16)) ""))%N.

Definition line_separators : list (string * string) :=
  [(bytes [226; 128; 168]%N, "\u2028"); (bytes [226; 128; 169]%N, "\u2029")].

Fixpoint encode_chars (fuel : nat) (s : string) : string :=
  match fuel, s with
  | S fuel, String c s1 =>
    if html_safe c then String c (encode_chars fuel s1)
    else if (byte_of c <? 128)%N then escape_ascii c +:+ encode_chars fuel s1
    else match rune_length s with
         | O => "\ufffd" +:+ encode_chars fuel s1
         | n =>
           let r := str_take n s in
           let out := default r (snd <$> List.find (λ p, bool_decide (p.1 = r)) line_separators) in
           out +:+ encode_chars fuel (str_drop n s)
         end
  | _, _ => ""
  end.

Definition encode_string (s : string) : string :=
  quote_mark +:+ encode_chars (str_length s) s +:+ quote_mark.

Definition encode_uint (n : Z) : string := pretty n.
Definition encode_bool (b : bool) : string := if b then "true" else "false".

Definition encode_list (items : list string) : string := "[" +:+ Join items "," +:+ "]".
(** A slice that is [nil] when empty. *)
Definition encode_slice (items : list string) : string :=
  if decide (items = []) then "null" else encode_list items.

(** A struct: its fields in order of declaration, those of [omitempty] as [None]. *)
Definition encode_struct (fields : list (string * option string)) : string :=
  "{" +:+ Join (omap (λ '(k, v), (λ v, encode_string k +:+ ":" +:+ v) <$> v) fields) "," +:+ "}".

(** A map: its keys sorted. *)
Definition encode_map (entries : gmap string string) : string :=
  encode_struct ((λ k, (k, entries !! k)) <$> sort_strings (map_to_list entries).*1).

(** A decoded value; object keys are sorted as for a map. *)
Fixpoint Marshal (v : Json) : string :=
  match v with
  | JNull => "null"
  | JBool b => encode_bool b
  | JNumber lit => lit
  | JString s => encode_string s
  | JArray l => encode_list (map Marshal l)
  | JObject m => encode_map (list_to_map (map (λ '(k, v), (k, Marshal v)) m))
  end.

Example marshal_ex :
  Marshal (JObject [("b", JArray [JNumber "1.0"; JNull]); ("a", JString "x<y")]) =
  quoted "{'a':'x\u003cy','b':[1.0,null]}".
Proof. vm_compute. reflexivity. Qed.
