(* ===== verification/GoSort.v ===== *)
(** Sorting with a comparison function: [sort.Slice] and [sort.SliceStable], and the
    lexicographic orders on strings the packages sort with. *)
From S2P Require Import Prelude.
From stdpp Require Import options.

(** A field of a lexicographic comparison: [if x != y { return x < y }; return rest]. *)
Definition lexicographic (x y : string) (rest : bool) : bool :=
  if decide (x ≠ y) then String.ltb x y else rest.

(** [sort.SliceStable]: the unique stable sort, computed by insertion. *)
Section stable_sort.
Context {A : Type} (less : A → A → bool).

Fixpoint stable_insert (x : A) (l : list A) : list A :=
  match l with
  | [] => [x]
  | y :: l => if less y x then y :: stable_insert x l else x :: y :: l
  end.

Definition stable_sort (l : list A) : list A := foldr stable_insert [] l.

Lemma stable_insert_perm x l : stable_insert x l ≡ₚ x :: l.
Proof.
  induction l as [|y l IH]; simpl; [done|]. destruct (less y x); [|done].
  rewrite IH. apply Permutation_swap.
Qed.

Lemma stable_sort_perm l : stable_sort l ≡ₚ l.
Proof. induction l as [|x l IH]; simpl; [done|]. by rewrite stable_insert_perm, IH. Qed.

Lemma stable_sort_nil l : stable_sort l = [] ↔ l = [].
Proof.
  split; [|by intros ->]. intros Hs. apply Permutation_nil_r.
  by rewrite <-(stable_sort_perm l), Hs.
Qed.

(** Elements that the comparison does not separate keep their order. *)
Lemma stable_insert_filter (P : A → Prop) `{∀ x, Decision (P x)} x l :
  (∀ y z, P y → P z → less y z = false) →
  filter P (stable_insert x l) = filter P (x :: l).
Proof.
  intros HP. induction l as [|y l IH]; simpl; [done|]. destruct (less y x) eqn:Hyx; [|done].
  rewrite !filter_cons, IH, filter_cons.
  repeat case_decide; try done. by rewrite HP in Hyx.
Qed.

Lemma stable_sort_filter (P : A → Prop) `{∀ x, Decision (P x)} l :
  (∀ y z, P y → P z → less y z = false) → filter P (stable_sort l) = filter P l.
Proof.
  intros HP. induction l as [|x l IH]; simpl; [done|].
  rewrite stable_insert_filter by done. by rewrite !filter_cons, IH.
Qed.

(** The result is sorted when the comparison is a strict weak order. *)
Lemma stable_insert_sorted x l :
  (∀ x y, less x y = true → less y x = false) →
  (∀ x y z, less y x = false → less z y = false → less z x = false) →
  StronglySorted (λ x y, less y x = false) l →
  StronglySorted (λ x y, less y x = false) (stable_insert x l).
Proof.
  intros Hasym Htrans. induction 1 as [|y l Hl IH Hy]; simpl.
  { repeat constructor. }
  destruct (less y x) eqn:Hyx.
  - constructor; [done|]. rewrite stable_insert_perm. constructor; auto.
  - constructor; [by constructor|]. constructor; [done|].
    eapply Forall_impl; [done|]. simpl. intros z Hz. by eapply Htrans.
Qed.

Lemma stable_sort_sorted l :
  (∀ x y, less x y = true → less y x = false) →
  (∀ x y z, less y x = false → less z y = false → less z x = false) →
  StronglySorted (λ x y, less y x = false) (stable_sort l).
Proof. intros ??. induction l; simpl; [constructor|]. by apply stable_insert_sorted. Qed.
End stable_sort.

(** * Orders on strings *)
Lemma ltb_compare s t : String.ltb s t = bool_decide (String.compare s t = Lt).
Proof. unfold String.ltb. by destruct (String.compare s t). Qed.

Lemma compare_refl s : String.compare s s = Eq.
Proof. induction s as [|c s IH]; simpl; [done|]. unfold Ascii.compare. by rewrite N.compare_refl. Qed.

Lemma ltb_irrefl s : String.ltb s s = false.
Proof. by rewrite ltb_compare, compare_refl. Qed.

Lemma ltb_le s t : String.ltb t s = false ↔ String.le s t.
Proof.
  unfold String.le, String.ltb, String.leb. rewrite (String.compare_antisym t s).
  by destruct (String.compare s t).
Qed.

Lemma ltb_asym s t : String.ltb s t = true → String.ltb t s = false.
Proof. rewrite !ltb_compare, (String.compare_antisym t s). by destruct (String.compare s t). Qed.

Lemma ltb_total s t : s ≠ t → String.ltb s t = false → String.ltb t s = true.
Proof.
  rewrite !ltb_compare, (String.compare_antisym t s). intros Hne.
  destruct (String.compare s t) eqn:Hc; [|done|done].
  by apply String.compare_eq_iff in Hc.
Qed.

Lemma ltb_trans_false s t u :
  String.ltb t s = false → String.ltb u t = false → String.ltb u s = false.
Proof. rewrite !ltb_le. intros ??. by etrans. Qed.

Lemma lexicographic_asym s t r r' :
  (r = true → r' = false) → lexicographic s t r = true → lexicographic t s r' = false.
Proof. unfold lexicographic. intros Hr ?. repeat case_decide; try congruence; auto using ltb_asym. Qed.

Lemma lexicographic_trans s t u r1 r2 r3 :
  (r1 = false → r2 = false → r3 = false) →
  lexicographic t s r1 = false → lexicographic u t r2 = false → lexicographic u s r3 = false.
Proof.
  unfold lexicographic. intros Hr Hts Hut. repeat case_decide; subst; try done; auto.
  - by eapply ltb_trans_false.
  - exfalso. apply ltb_le in Hts, Hut. by apply (anti_symm String.le) in Hts.
Qed.

