(* ===== verification/JsonText.v ===== *)
(** The literals of JSON texts: UTF-8 runes, the encoding of strings and its decoding, and the
    number literals the scanner accepts. *)
From S2P Require Import Prelude GoStrings GoJson GoEncode.
From stdpp Require Import options.

(** * Bytes *)
Lemma str_take_app a b : str_take (str_length a) (a +:+ b) = a.
Proof.
  unfold str_take. induction a as [|c a IH].
  - by destruct b.
  - change (String c (String.substring 0 (str_length a) (a +:+ b)) = String c a). by rewrite IH.
Qed.
Lemma str_drop_app a b : str_drop (str_length a) (a +:+ b) = b.
Proof. induction a as [|c a IH]; [by destruct b|]. exact IH. Qed.
Lemma consumed_app a b : consumed (a +:+ b) b = a.
Proof.
  unfold consumed. rewrite str_length_app.
  replace (str_length a + str_length b - str_length b) with (str_length a) by lia.
  apply str_take_app.
Qed.
Lemma str_cons_app c s t : String c s +:+ t = String c (s +:+ t).
Proof. done. Qed.
Lemma str_take_drop n s : str_take n s +:+ str_drop n s = s.
Proof.
  revert s. unfold str_take. induction n as [|n IH]; intros [|c s]; try done.
  change (String c (String.substring 0 n s +:+ str_drop n s) = String c s). by rewrite IH.
Qed.
Lemma str_length_take n s : n ≤ str_length s → str_length (str_take n s) = n.
Proof.
  unfold str_take. revert s. induction n as [|n IH]; intros [|c s] Hn; simpl in *; try done; [lia|].
  f_equal. apply IH. lia.
Qed.

(** * UTF-8 *)

(** The bytes of one rune. *)
Definition is_rune (r : string) : Prop := r ≠ "" ∧ rune_length r = str_length r.

Inductive utf8 : string → Prop :=
| utf8_nil : utf8 ""
| utf8_rune r s : is_rune r → utf8 s → utf8 (r +:+ s).

(** What the length of the first rune says of its bytes. *)
Lemma rune_length_le s : rune_length s ≤ str_length s.
Proof.
  destruct s as [|b0 [|b1 [|b2 [|b3 s]]]]; cbn [rune_length str_length String.length];
    repeat case_match; lia.
Qed.

Lemma rune_length_app s t : rune_length s ≠ 0 → rune_length (s +:+ t) = rune_length s.
Proof.
  destruct s as [|b0 [|b1 [|b2 [|b3 s]]]]; rewrite ?str_cons_app; [done|..].
  - cbn [rune_length]. destruct (byte_of b0 <? 128)%N; [done|by destruct t].
  - cbn [rune_length]. destruct (byte_of b0 <? 128)%N; [done|].
    destruct (between 194 223 b0); [done|by destruct t].
  - cbn [rune_length]. destruct (byte_of b0 <? 128)%N; [done|].
    destruct (between 194 223 b0); [done|].
    destruct (byte_of b0 =? 224)%N; [done|]. destruct (byte_of b0 =? 237)%N; [done|].
    destruct (between 225 239 b0); [done|by destruct t].
  - done.
Qed.

Lemma rune_length_take s : rune_length s ≠ 0 → rune_length (str_take (rune_length s) s) = rune_length s.
Proof.
  intros Hn. assert (∀ n, n = rune_length s → rune_length (str_take n s) = n) as H; [|by apply H].
  intros n Hs. destruct s as [|b0 [|b1 [|b2 [|b3 s]]]]; [done|..]; cbn [rune_length] in Hs;
    repeat case_match; subst n; try done; cbn -[N.ltb N.eqb between is_cont];
    repeat match goal with E : ?x = _ |- context [?x] => rewrite E end; done.
Qed.

Lemma rune_take s : rune_length s ≠ 0 → is_rune (str_take (rune_length s) s).
Proof.
  intros Hn. pose proof (rune_length_le s).
  assert (str_length (str_take (rune_length s) s) = rune_length s) as Hl by by apply str_length_take.
  split.
  - intros He. rewrite He in Hl. simpl in Hl. congruence.
  - rewrite Hl. by apply rune_length_take.
Qed.

Lemma rune_prefix r s : is_rune r → rune_length (r +:+ s) = str_length r.
Proof.
  intros [Hne Hr]. rewrite rune_length_app; [done|]. rewrite Hr. by destruct r.
Qed.

Lemma utf8_app s t : utf8 s → utf8 t → utf8 (s +:+ t).
Proof. induction 1 as [|r s Hr _ IH]; [done|]. intros Ht. rewrite str_app_assoc. constructor; auto. Qed.
Lemma rune_utf8 r : is_rune r → utf8 r.
Proof. intros Hr. rewrite <-(str_app_nil_r r). apply utf8_rune; [done|constructor]. Qed.

(** * Strings *)

(** What [json.Marshal] writes for one rune. *)
Definition encode_one (r : string) : string :=
  match r with
  | EmptyString => ""
  | String c _ =>
      if html_safe c then String c ""
      else if (byte_of c <? 128)%N then escape_ascii c
      else default r (snd <$> List.find (λ p, bool_decide (p.1 = r)) line_separators)
  end.

Lemma rune_length_ascii c s : (byte_of c <? 128)%N = true → rune_length (String c s) = 1.
Proof. simpl. by intros ->. Qed.

Lemma html_safe_ascii c : html_safe c = true → (byte_of c <? 128)%N = true.
Proof. unfold html_safe. by intros [[_ ?]%andb_prop _]%andb_prop. Qed.

Lemma ascii_rune c r : is_rune (String c r) → (byte_of c <? 128)%N = true → r = "".
Proof. intros [_ Hr] Hc. rewrite rune_length_ascii in Hr by done. by destruct r. Qed.

Lemma encode_chars_rune fuel r s :
  is_rune r → encode_chars (S fuel) (r +:+ s) = encode_one r +:+ encode_chars fuel s.
Proof.
  intros Hr. destruct r as [|c r]; [by destruct Hr|]. rewrite str_cons_app.
  cbn [encode_chars encode_one].
  destruct (html_safe c) eqn:Hs.
  { by rewrite (ascii_rune c r Hr (html_safe_ascii _ Hs)). }
  destruct (byte_of c <? 128)%N eqn:Hc.
  { by rewrite (ascii_rune c r Hr Hc). }
  change (String c (r +:+ s)) with (String c r +:+ s). rewrite (rune_prefix _ s Hr).
  generalize (str_take_app (String c r) s) (str_drop_app (String c r) s).
  destruct (str_length (String c r)) as [|n] eqn:Hn; [done|]. by intros -> ->.
Qed.

Lemma encode_chars_fuel s : utf8 s → ∀ fuel, str_length s ≤ fuel →
  encode_chars fuel s = encode_chars (str_length s) s.
Proof.
  assert (∀ n s, str_length s ≤ n → utf8 s → ∀ fuel, str_length s ≤ fuel →
    encode_chars fuel s = encode_chars (str_length s) s) as H; [|by eauto].
  clear s. induction n as [|n IH]; intros s Hn Hs fuel Hf; inversion Hs as [|r s' Hr Hs']; subst.
  - by destruct fuel.
  - destruct r; [by destruct Hr|]. simpl in Hn. lia.
  - by destruct fuel.
  - rewrite str_length_app in *.
    assert (1 ≤ str_length r) as Hpos by (destruct r; [by destruct Hr|simpl; lia]).
    destruct fuel as [|fuel]; [lia|].
    destruct (str_length r + str_length s') as [|m] eqn:Hm; [lia|].
    rewrite !encode_chars_rune by done. f_equal.
    rewrite (IH s') by (try done; lia). symmetry. apply IH; [lia|done|lia].
Qed.

Lemma encode_chars_app r s :
  is_rune r → utf8 s →
  encode_chars (str_length (r +:+ s)) (r +:+ s) = encode_one r +:+ encode_chars (str_length s) s.
Proof.
  intros Hr Hs. rewrite str_length_app.
  destruct (str_length r + str_length s) as [|m] eqn:Hm.
  { destruct r; [by destruct Hr|]. simpl in Hm. lia. }
  rewrite encode_chars_rune by done. f_equal. apply encode_chars_fuel; [done|].
  destruct r; [by destruct Hr|]. simpl in Hm. lia.
Qed.

(** Reading one encoded rune. *)
Definition prepend (r : string) (parsed : option (string * string)) : option (string * string) :=
  match parsed with Some (u, rest) => Some (r +:+ u, rest) | None => None end.

Lemma parse_ascii fuel c t :
  (byte_of c <? 128)%N = true →
  parse_string (S fuel) (encode_one (String c "") +:+ t) = prepend (String c "") (parse_string fuel t).
Proof. destruct t; destruct c as [[] [] [] [] [] [] [] []]; done. Qed.

Lemma separator_cases r :
  default r (snd <$> List.find (λ p, bool_decide (p.1 = r)) line_separators) = r ∨
  r = bytes [226; 128; 168]%N ∨ r = bytes [226; 128; 169]%N.
Proof. simpl. repeat case_bool_decide; subst; auto. Qed.

Lemma parse_rune fuel r t :
  is_rune r →
  parse_string (S fuel) (encode_one r +:+ t) = prepend r (parse_string fuel t).
Proof.
  intros Hr. destruct r as [|c r]; [by destruct Hr|].
  destruct (byte_of c <? 128)%N eqn:Hc.
  { rewrite (ascii_rune c r Hr Hc). by apply parse_ascii. }
  assert (html_safe c = false) as Hs.
  { destruct (html_safe c) eqn:E; [|done]. apply html_safe_ascii in E. congruence. }
  cbn [encode_one]. rewrite Hs, Hc.
  destruct (separator_cases (String c r)) as [->|[Hsep|Hsep]].
  - cbn [parse_string]. rewrite str_cons_app.
    rewrite decide_False by (by intros ->). rewrite decide_False by (by intros ->).
    replace (byte_of c <? 32)%N with false by (symmetry; apply N.ltb_ge; apply N.ltb_ge in Hc; lia).
    change (String c (r +:+ t)) with (String c r +:+ t). rewrite (rune_prefix _ t Hr).
    generalize (str_take_app (String c r) t) (str_drop_app (String c r) t).
    destruct (str_length (String c r)) as [|n] eqn:Hn; [done|]. by intros -> ->.
  - rewrite Hsep. destruct t; reflexivity.
  - rewrite Hsep. destruct t; reflexivity.
Qed.

Lemma parse_encoded s : utf8 s → ∀ fuel rest, str_length s < fuel →
  parse_string fuel (encode_chars (str_length s) s +:+ String "034" rest) = Some (s, rest).
Proof.
  induction 1 as [|r s Hr Hs IH]; intros fuel rest Hf.
  { destruct fuel; [lia|done]. }
  rewrite str_length_app in Hf. rewrite encode_chars_app by done. rewrite str_app_assoc.
  destruct fuel as [|fuel]; [lia|]. rewrite parse_rune by done.
  rewrite IH; [done|]. destruct r; [by destruct Hr|]. simpl in Hf. lia.
Qed.

Lemma encode_one_length r : is_rune r → str_length r ≤ str_length (encode_one r).
Proof.
  intros Hr. destruct r as [|c r]; [done|]. destruct (byte_of c <? 128)%N eqn:Hc.
  { rewrite (ascii_rune c r Hr Hc). clear. destruct c as [[] [] [] [] [] [] [] []]; simpl; lia. }
  cbn [encode_one]. rewrite Hc. destruct (html_safe c) eqn:E.
  { apply html_safe_ascii in E. congruence. }
  destruct (separator_cases (String c r)) as [->|[Hs|Hs]]; [done|rewrite Hs; simpl; lia..].
Qed.

Lemma encode_chars_length s : utf8 s → str_length s ≤ str_length (encode_chars (str_length s) s).
Proof.
  induction 1 as [|r s Hr Hs IH]; [done|]. rewrite encode_chars_app, !str_length_app by done.
  pose proof (encode_one_length r Hr). lia.
Qed.

(** * Numbers *)
Definition number_text (lit : string) : Prop := ∃ n, scan_number lit = Some (n, "").

(** A text that does not continue a number literal. *)
Definition ends_number (t : string) : bool :=
  match t with
  | EmptyString => true
  | String c _ => negb (is_digit c || bool_decide (c ∈ ["."; "e"; "E"]%char))
  end.

Lemma span_digits_app s t d r :
  span_digits s = (d, r) → (r = "" → ends_number t = true) →
  span_digits (s +:+ t) = (d, r +:+ t).
Proof.
  revert d r. induction s as [|c s IH]; intros d r; rewrite ?str_cons_app; simpl.
  - intros [= <- <-] Ht. specialize (Ht eq_refl). destruct t as [|c t]; [done|]. simpl in Ht |- *.
    by destruct (is_digit c).
  - destruct (is_digit c); [|by intros [= <- <-]].
    destruct (span_digits s) as [d' r'] eqn:Hs. intros [= <- <-] Ht. by rewrite (IH d' r').
Qed.

Lemma scan_exponent_app s t e r :
  scan_exponent s = Some (e, r) → (r = "" → ends_number t = true) →
  scan_exponent (s +:+ t) = Some (e, r +:+ t).
Proof.
  destruct s as [|c s]; rewrite ?str_cons_app; simpl.
  - intros [= <- <-] Ht. specialize (Ht eq_refl). destruct t as [|c t]; [done|]. simpl in Ht |- *.
    apply negb_true_iff, orb_false_iff in Ht as [_ Ht%bool_decide_eq_false].
    rewrite decide_False; [done|set_solver].
  - case_decide as Hc; [|by intros [= <- <-]].
    assert (∀ sign s', (let '(d, r0) := span_digits s' in
        if decide (d = "") then None else Some (Some (sign +:+ d), r0)) = Some (e, r) →
      (r = "" → ends_number t = true) →
      (let '(d, r0) := span_digits (s' +:+ t) in
        if decide (d = "") then None else Some (Some (sign +:+ d), r0)) = Some (e, r +:+ t)) as Hd.
    { intros sign s'. destruct (span_digits s') as [d r'] eqn:Hs. case_decide; [done|].
      intros [= <- <-] Ht. rewrite (span_digits_app s' t d r') by done. by rewrite decide_False. }
    destruct s as [|c' s]; [done|]. rewrite str_cons_app.
    destruct c' as [[] [] [] [] [] [] [] []];
      first [exact (Hd "-" s)|exact (Hd "+" s)|
        match goal with |- context [span_digits (String ?a (s +:+ t))] => exact (Hd "" (String a s)) end].
Qed.

Lemma scan_fraction_app s t f r :
  scan_fraction s = Some (f, r) → (r = "" → ends_number t = true) →
  scan_fraction (s +:+ t) = Some (f, r +:+ t).
Proof.
  destruct s as [|c s]; rewrite ?str_cons_app; simpl.
  - intros [= <- <-] Ht. specialize (Ht eq_refl). destruct t as [|c t]; [done|]. simpl in Ht |- *.
    destruct c as [[] [] [] [] [] [] [] []]; done.
  - assert (∀ s', (let '(d, r0) := span_digits s' in
        if decide (d = "") then None else Some (d, r0)) = Some (f, r) →
      (r = "" → ends_number t = true) →
      (let '(d, r0) := span_digits (s' +:+ t) in
        if decide (d = "") then None else Some (d, r0)) = Some (f, r +:+ t)) as Hd.
    { intros s'. destruct (span_digits s') as [d r'] eqn:Hs. case_decide; [done|].
      intros [= <- <-] Ht. rewrite (span_digits_app s' t d r') by done. by rewrite decide_False. }
    destruct c as [[] [] [] [] [] [] [] []]; first [exact (Hd s)|by intros [= <- <-]].
Qed.

(** The integer part of a literal. *)
Definition scan_int (s : string) : option (string * string) :=
  match s with
  | String "0" s2 => Some ("0", s2)
  | _ => let '(d, r) := span_digits s in if decide (d = "") then None else Some (d, r)
  end.
Definition scan_sign (s : string) : bool * string :=
  match s with String "-" s1 => (true, s1) | _ => (false, s) end.

Lemma scan_number_steps s n r :
  scan_number s = Some (n, r) ↔
  ∃ i f e s2 s3, scan_int (scan_sign s).2 = Some (i, s2) ∧ scan_fraction s2 = Some (f, s3) ∧
    scan_exponent s3 = Some (e, r) ∧
    n = {| num_neg := (scan_sign s).1; num_int := i; num_frac := f; num_exp := e |}.
Proof.
  unfold scan_number. fold (scan_sign s). destruct (scan_sign s) as [neg s1]. simpl.
  fold (scan_int s1). destruct (scan_int s1) as [[i s2]|]; [|naive_solver].
  destruct (scan_fraction s2) as [[f s3]|] eqn:Hf; [|naive_solver].
  destruct (scan_exponent s3) as [[e s4]|] eqn:He; [|naive_solver].
  split; [intros [= <- <-]; naive_solver|].
  intros (i' & f' & e' & s2' & s3' & [= <- <-] & Hf' & He' & ->).
  rewrite Hf in Hf'. injection Hf' as <- <-. congruence.
Qed.

Lemma scan_int_app s t i r :
  scan_int s = Some (i, r) → (r = "" → ends_number t = true) →
  scan_int (s +:+ t) = Some (i, r +:+ t).
Proof.
  destruct s as [|c s]; rewrite ?str_cons_app; [done|].
  assert ((let '(d, r0) := span_digits (String c s) in
      if decide (d = "") then None else Some (d, r0)) = Some (i, r) →
    (r = "" → ends_number t = true) →
    (let '(d, r0) := span_digits (String c s +:+ t) in
      if decide (d = "") then None else Some (d, r0)) = Some (i, r +:+ t)) as Hd.
  { destruct (span_digits (String c s)) as [d r'] eqn:Hs. case_decide; [done|].
    intros [= <- <-] Ht. rewrite (span_digits_app _ t d r') by done. by rewrite decide_False. }
  unfold scan_int. destruct c as [[] [] [] [] [] [] [] []]; first [exact Hd|by intros [= <- <-]].
Qed.

Lemma scan_number_app s t n r :
  scan_number s = Some (n, r) → (r = "" → ends_number t = true) →
  scan_number (s +:+ t) = Some (n, r +:+ t).
Proof.
  rewrite !scan_number_steps. intros (i & f & e & s2 & s3 & Hi & Hf & He & ->) Ht.
  assert (s ≠ "") as Hs by by intros ->.
  assert (scan_sign (s +:+ t) = ((scan_sign s).1, (scan_sign s).2 +:+ t)) as ->.
  { destruct s as [|c s]; [done|]. rewrite str_cons_app.
    destruct c as [[] [] [] [] [] [] [] []]; done. }
  simpl. exists i, f, e, (s2 +:+ t), (s3 +:+ t).
  assert (s3 = "" → r = "") as H3 by (intros ->; simpl in He; congruence).
  assert (s2 = "" → s3 = "") as H2 by (intros ->; simpl in Hf; congruence).
  split_and!; [apply scan_int_app|apply scan_fraction_app|apply scan_exponent_app|done]; auto.
Qed.

(** What a scan consumes is a literal by itself. *)
Lemma str_app_inj_r a b t : a +:+ t = b +:+ t → a = b.
Proof. intros Heq. by rewrite <-(consumed_app a t), Heq, consumed_app. Qed.

Lemma span_digits_split s d r : span_digits s = (d, r) → s = d +:+ r.
Proof.
  revert d r. induction s as [|c s IH]; intros d r; simpl; [by intros [= <- <-]|].
  destruct (is_digit c); [|by intros [= <- <-]]. destruct (span_digits s) as [d' r'].
  intros [= <- <-]. rewrite str_cons_app. f_equal. by apply IH.
Qed.

Lemma span_digits_cut s t d r : span_digits (s +:+ t) = (d, r +:+ t) → span_digits s = (d, r).
Proof.
  intros Hs. pose proof (span_digits_split _ _ _ Hs) as Heq. rewrite <-str_app_assoc in Heq.
  apply str_app_inj_r in Heq. subst s. rewrite str_app_assoc in Hs.
  induction d as [|c d IH].
  - destruct r as [|c r]; [done|]. change (span_digits (String c (r +:+ t)) = ("", String c (r +:+ t))) in Hs.
    change (span_digits (String c r) = ("", String c r)). simpl in *.
    destruct (is_digit c); [|done]. by destruct (span_digits (r +:+ t)).
  - rewrite str_cons_app in Hs |- *. simpl in *. destruct (is_digit c); [|done].
    destruct (span_digits (d +:+ r +:+ t)) as [d' r'] eqn:E. injection Hs as -> ->.
    by rewrite IH.
Qed.

(** A scan consumes a prefix; an absent optional part is empty, a present one has a mark and
    at least one digit. *)
Definition optional_part (present : Prop) (s r : string) : Prop :=
  ∃ p, s = p +:+ r ∧ (present ∧ 2 ≤ str_length p ∨ ¬ present ∧ p = "").

Lemma optional_digits (present : Prop) p s d r :
  present → 1 ≤ str_length p → span_digits s = (d, r) → d ≠ "" → optional_part present (p +:+ s) r.
Proof.
  intros Hp Hlen Hs%span_digits_split Hd. subst s. exists (p +:+ d). rewrite str_app_assoc. split; [done|].
  left. split; [done|]. rewrite str_length_app. destruct d; [done|]. simpl. lia.
Qed.

Lemma scan_fraction_part s f r : scan_fraction s = Some (f, r) → optional_part (f ≠ "") s r.
Proof.
  destruct s as [|c s]; simpl.
  { intros [= <- <-]. exists "". split; [done|]. right. split; [by intros []|done]. }
  assert (Some ("", String c s) = Some (f, r) → optional_part (f ≠ "") (String c s) r) as Hn.
  { intros [= <- <-]. exists "". split; [done|]. right. split; [by intros []|done]. }
  destruct (decide (c = "."%char)) as [->|Hc].
  - simpl. destruct (span_digits s) as [d r'] eqn:Hs. case_decide as Hd; [done|]. intros [= <- <-].
    by apply (optional_digits _ "." s d r').
  - destruct c as [[] [] [] [] [] [] [] []]; first [exact Hn|done].
Qed.

Definition exponent_sign (s : string) : string * string :=
  match s with
  | String "-" s2 => ("-", s2)
  | String "+" s2 => ("+", s2)
  | _ => ("", s)
  end.
Lemma exponent_sign_split s : s = (exponent_sign s).1 +:+ (exponent_sign s).2.
Proof. destruct s as [|c s]; [done|]. by destruct c as [[] [] [] [] [] [] [] []]. Qed.
Lemma exponent_sign_app s t : s ≠ "" →
  exponent_sign (s +:+ t) = ((exponent_sign s).1, (exponent_sign s).2 +:+ t).
Proof.
  destruct s as [|c s]; [done|]. rewrite str_cons_app. by destruct c as [[] [] [] [] [] [] [] []].
Qed.

Lemma scan_exponent_eq c s : c = "e"%char ∨ c = "E"%char →
  scan_exponent (String c s) =
  let '(d, r) := span_digits (exponent_sign s).2 in
  if decide (d = "") then None else Some (Some ((exponent_sign s).1 +:+ d), r).
Proof.
  intros Hc. cbn [scan_exponent]. rewrite decide_True by done.
  destruct s as [|c' s]; [done|]. by destruct c' as [[] [] [] [] [] [] [] []].
Qed.

Lemma scan_exponent_part s e r : scan_exponent s = Some (e, r) → optional_part (e ≠ None) s r.
Proof.
  destruct s as [|c s].
  { intros [= <- <-]. exists "". split; [done|]. right. split; [by intros []|done]. }
  destruct (decide (c = "e"%char ∨ c = "E"%char)) as [Hc|Hc].
  - rewrite scan_exponent_eq by done. destruct (span_digits _) as [d r'] eqn:Hs.
    case_decide as Hd; [done|]. intros [= <- <-].
    rewrite (exponent_sign_split s). rewrite <-str_cons_app.
    apply (optional_digits _ _ _ d); [done| |done|done]. simpl. lia.
  - simpl. rewrite decide_False by done. intros [= <- <-]. exists "". split; [done|]. right.
    split; [by intros []|done].
Qed.

Lemma no_room p r t : str_length p ≠ 0 → t ≠ p +:+ r +:+ t.
Proof. intros Hp Heq. apply (f_equal str_length) in Heq. rewrite !str_length_app in Heq. lia. Qed.
Lemma no_room' p r t : t = p +:+ r +:+ t → p = "" ∧ r = "".
Proof.
  intros Heq. apply (f_equal str_length) in Heq. rewrite !str_length_app in Heq.
  destruct p, r; simpl in *; [done|lia..].
Qed.

Lemma scan_fraction_cut s t f r : scan_fraction (s +:+ t) = Some (f, r +:+ t) → scan_fraction s = Some (f, r).
Proof.
  intros Hs. pose proof (scan_fraction_part _ _ _ Hs) as (p & Hp & Hcase).
  destruct s as [|c s].
  { destruct (no_room' p r t Hp) as [-> ->]. destruct Hcase as [[_ ?]|[Hf _]]; [simpl in *; lia|].
    simpl. by destruct (decide (f = "")) as [->|]. }
  rewrite str_cons_app in Hs. destruct (decide (c = "."%char)) as [->|Hc].
  - simpl in *. destruct (span_digits (s +:+ t)) as [d r'] eqn:Hd. case_decide; [done|].
    injection Hs as <- ->. rewrite (span_digits_cut s t d r Hd). by rewrite decide_False.
  - assert (∀ u, scan_fraction (String c u) = Some ("", String c u)) as Hno.
    { intros u. destruct c as [[] [] [] [] [] [] [] []]; done. }
    rewrite Hno in Hs |- *. injection Hs as <- Hs. by apply (str_app_inj_r (String c s)) in Hs as <-.
Qed.

Lemma scan_exponent_cut s t e r : scan_exponent (s +:+ t) = Some (e, r +:+ t) → scan_exponent s = Some (e, r).
Proof.
  intros Hs. pose proof (scan_exponent_part _ _ _ Hs) as (p & Hp & Hcase).
  destruct s as [|c s].
  { destruct (no_room' p r t Hp) as [-> ->]. destruct Hcase as [[_ ?]|[Hf _]]; [simpl in *; lia|].
    by destruct e; [destruct Hf|]. }
  rewrite str_cons_app in Hs. destruct (decide (c = "e"%char ∨ c = "E"%char)) as [Hc|Hc].
  - rewrite scan_exponent_eq in Hs |- * by done. destruct s as [|c' s].
    { exfalso. destruct (span_digits _) as [d r'] eqn:Hd. case_decide; [done|]. injection Hs as <- ->.
      destruct Hcase as [[_ Hlen]|[[] _]]; [|done]. apply (f_equal str_length) in Hp.
      rewrite !str_length_app in Hp. simpl in Hp. lia. }
    rewrite exponent_sign_app in Hs by done. cbn [fst snd] in Hs.
    destruct (span_digits _) as [d r'] eqn:Hd in Hs. case_decide; [done|]. injection Hs as <- ->.
    apply span_digits_cut in Hd. rewrite Hd. by rewrite decide_False.
  - simpl in Hs |- *. rewrite decide_False in Hs |- * by done. injection Hs as <- Hs.
    by apply (str_app_inj_r (String c s)) in Hs as <-.
Qed.

Lemma scan_int_split s i r : scan_int s = Some (i, r) → s = i +:+ r ∧ i ≠ "".
Proof.
  assert ((let '(d, r) := span_digits s in if decide (d = "") then None else Some (d, r)) = Some (i, r) →
    s = i +:+ r ∧ i ≠ "") as Hd.
  { destruct (span_digits s) as [d r'] eqn:Hs. case_decide; [done|]. intros [= <- <-].
    split; [by apply span_digits_split|done]. }
  destruct s as [|c s]; [done|].
  destruct (decide (c = "0"%char)) as [->|]; [by intros [= <- <-]|].
  unfold scan_int. destruct c as [[] [] [] [] [] [] [] []]; first [exact Hd|done].
Qed.

Lemma scan_int_cut s t i r : scan_int (s +:+ t) = Some (i, r +:+ t) → scan_int s = Some (i, r).
Proof.
  intros Hs. pose proof (scan_int_split _ _ _ Hs) as [Hi Hne].
  destruct s as [|c s]; [by destruct (no_room' i r t Hi) as [-> _]|].
  rewrite str_cons_app in Hs. destruct (decide (c = "0"%char)) as [->|Hc].
  { simpl in *. injection Hs as <- Hs. by apply str_app_inj_r in Hs as ->. }
  assert (∀ u, scan_int (String c u) =
    let '(d, r) := span_digits (String c u) in if decide (d = "") then None else Some (d, r)) as Heq.
  { intros u. unfold scan_int. destruct c as [[] [] [] [] [] [] [] []]; done. }
  rewrite Heq in Hs |- *. rewrite <-str_cons_app in Hs.
  destruct (span_digits (String c s +:+ t)) as [d r'] eqn:Hd.
  case_decide; [done|]. injection Hs as -> ->. apply span_digits_cut in Hd. rewrite Hd.
  by rewrite decide_False.
Qed.

Lemma scan_number_cut s t n r : scan_number (s +:+ t) = Some (n, r +:+ t) → scan_number s = Some (n, r).
Proof.
  rewrite !scan_number_steps. intros (i & f & e & s2 & s3 & Hi & Hf & He & ->).
  pose proof (scan_exponent_part _ _ _ He) as (pe & Hpe & _).
  pose proof (scan_fraction_part _ _ _ Hf) as (pf & Hpf & _). subst s3 s2.
  rewrite <-!str_app_assoc in *. pose proof (scan_int_split _ _ _ Hi) as [Hsplit Hne].
  assert (∃ sg, s +:+ t = sg +:+ (scan_sign (s +:+ t)).2) as [sg Hsg].
  { clear. destruct (s +:+ t) as [|c u]; [by exists ""|].
    destruct c as [[] [] [] [] [] [] [] []]; first [by exists ""|by exists "-"]. }
  assert (s ≠ "") as Hs.
  { intros ->. change (t = sg +:+ (scan_sign t).2) in Hsg. change ("" +:+ t) with t in Hsplit.
    rewrite Hsplit in Hsg. apply (f_equal str_length) in Hsg.
    rewrite !str_length_app in Hsg. destruct i; [done|]. simpl in Hsg. lia. }
  assert (scan_sign (s +:+ t) = ((scan_sign s).1, (scan_sign s).2 +:+ t)) as Hsign.
  { destruct s as [|c s]; [done|]. rewrite str_cons_app.
    destruct c as [[] [] [] [] [] [] [] []]; done. }
  rewrite Hsign in Hi. simpl in Hi.
  exists i, f, e, (pf +:+ pe +:+ r), (pe +:+ r). rewrite <-!str_app_assoc.
  split_and!; [by apply (scan_int_cut _ t)|by apply (scan_fraction_cut _ t)|
    by apply (scan_exponent_cut _ t)|by rewrite Hsign].
Qed.

Lemma scan_number_split s n r :
  scan_number s = Some (n, r) → ∃ lit, s = lit +:+ r ∧ scan_number lit = Some (n, "").
Proof.
  intros Hs. assert (∃ lit, s = lit +:+ r) as [lit ->].
  { apply scan_number_steps in Hs as (i & f & e & s2 & s3 & Hi & Hf & He & ->).
    apply scan_exponent_part in He as (pe & -> & _). apply scan_fraction_part in Hf as (pf & -> & _).
    apply scan_int_split in Hi as [Hi _].
    assert (∃ sg, s = sg +:+ (scan_sign s).2) as [sg Hsg].
    { clear. destruct s as [|c s]; [by exists ""|].
      destruct c as [[] [] [] [] [] [] [] []]; first [by exists ""|by exists "-"]. }
    rewrite Hsg, Hi. exists (sg +:+ i +:+ pf +:+ pe). by rewrite !str_app_assoc. }
  exists lit. split; [done|]. by apply (scan_number_cut lit r n "").
Qed.

(** * The strings the parser returns are UTF-8 *)
#[local] Ltac Zify.zify_post_hook ::= Z.to_euclidean_division_equations.

Lemma byte_of_char n : (n < 256)%N → byte_of (char n) = n.
Proof. apply N_ascii_embedding. Qed.

Lemma encode_rune_rune r :
  (r < 55296 ∨ 57344 ≤ r < 1114112)%N → is_rune (encode_rune r).
Proof.
  intros Hr. unfold encode_rune.
  destruct (N.ltb_spec r 128); [|destruct (N.ltb_spec r 2048); [|destruct (N.ltb_spec r 65536)]].
  - split; [done|]. cbn [bytes foldr rune_length]. rewrite byte_of_char by lia.
    by rewrite (proj2 (N.ltb_lt r 128)).
  - split; [done|]. cbn [bytes foldr rune_length]. unfold is_cont, between, in_range.
    rewrite !byte_of_char by lia.
    repeat match goal with |- context [(?a <? ?b)%N] => destruct (N.ltb_spec a b); try lia end.
    repeat match goal with |- context [(?a <=? ?b)%N] => destruct (N.leb_spec a b); try lia end.
    done.
  - split; [done|]. cbn [bytes foldr rune_length]. unfold is_cont, between, in_range.
    rewrite !byte_of_char by lia.
    repeat match goal with |- context [(?a <? ?b)%N] => destruct (N.ltb_spec a b); try lia end.
    repeat match goal with |- context [(?a =? ?b)%N] => destruct (N.eqb_spec a b); try lia end;
    repeat match goal with |- context [(?a <=? ?b)%N] => destruct (N.leb_spec a b); try lia end;
    done.
  - split; [done|]. cbn [bytes foldr rune_length]. unfold is_cont, between, in_range.
    rewrite !byte_of_char by lia.
    repeat match goal with |- context [(?a <? ?b)%N] => destruct (N.ltb_spec a b); try lia end.
    repeat match goal with |- context [(?a =? ?b)%N] => destruct (N.eqb_spec a b); try lia end;
    repeat match goal with |- context [(?a <=? ?b)%N] => destruct (N.leb_spec a b); try lia end;
    done.
Qed.

Lemma hex_value_bound c n : hex_value c = Some n → (n < 16)%N.
Proof.
  destruct c as [[] [] [] [] [] [] [] []]; simpl; intros [= <-]; lia.
Qed.

Lemma hex4_bound s n r : hex4 s = Some (n, r) → (n < 65536)%N.
Proof.
  unfold hex4. intros Hh. repeat case_match; simplify_eq.
  repeat match goal with H : hex_value _ = Some _ |- _ => apply hex_value_bound in H end. lia.
Qed.

Lemma escaped_rune_rune s n r : escaped_rune s = Some (n, r) → is_rune (encode_rune n).
Proof.
  unfold escaped_rune. intros Hs. apply encode_rune_rune.
  destruct (hex4 s) as [[n0 rest]|] eqn:Hh; [|done]. apply hex4_bound in Hh.
  destruct ((55296 <=? n0) && (n0 <? 57344))%N eqn:Hsur; last first.
  { injection Hs as <- <-. apply andb_false_iff in Hsur as [?%N.leb_gt|?%N.ltb_ge]; lia. }
  apply andb_prop in Hsur as [?%N.leb_le ?%N.ltb_lt].
  destruct (unicode_escape rest) as [[n1 rest1]|] eqn:Hu; [|injection Hs as <- <-; lia].
  destruct ((n0 <? 56320) && (56320 <=? n1) && (n1 <? 57344))%N eqn:Hp; injection Hs as <- <-; [|lia].
  apply andb_prop in Hp as [[?%N.ltb_lt ?%N.leb_le]%andb_prop ?%N.ltb_lt]. lia.
Qed.

Lemma simple_escape_utf8 c h : simple_escape c = Some h → utf8 h.
Proof.
  intros Hc. apply rune_utf8.
  destruct c as [[] [] [] [] [] [] [] []]; simpl in Hc; simplify_eq; by split.
Qed.

Lemma parse_string_utf8 fuel s t r : parse_string fuel s = Some (t, r) → utf8 t.
Proof.
  revert s t r. induction fuel as [|fuel IH]; intros s t r; [done|]. cbn [parse_string].
  assert (∀ head rest, utf8 head →
    match parse_string fuel rest with Some (t, r) => Some (head +:+ t, r) | None => None end = Some (t, r) →
    utf8 t) as Hcont.
  { intros head rest Hh. destruct (parse_string fuel rest) as [[t' r']|] eqn:Hp; [|done].
    intros [= <- <-]. apply utf8_app; [done|by eapply IH]. }
  destruct s as [|c s]; [done|]. case_decide; [intros [= <- <-]; constructor|]. case_decide.
  - destruct s as [|e s]; [done|].
    assert (∀ s2, match simple_escape e with
      | Some h => match parse_string fuel s2 with Some (t, r) => Some (h +:+ t, r) | None => None end
      | None => None end = Some (t, r) → utf8 t) as Hsimple.
    { intros s2. destruct (simple_escape e) as [h|] eqn:He; [|done].
      apply Hcont. by eapply simple_escape_utf8. }
    destruct (decide (e = "u"%char)) as [->|Hu].
    + destruct (escaped_rune s) as [[n rest]|] eqn:He; [|done].
      apply Hcont, rune_utf8. by eapply escaped_rune_rune.
    + destruct e as [[] [] [] [] [] [] [] []]; first [exact (Hsimple s)|done].
  - destruct (byte_of c <? 32)%N; [done|].
    pose proof (rune_take (String c s)) as Hrune.
    destruct (rune_length (String c s)) as [|n]; [by apply Hcont, rune_utf8|].
    apply Hcont, rune_utf8. by apply Hrune.
Qed.
