(* ===== verification/JsonRoundTrip.v ===== *)
(** [json.Unmarshal] reads back what [json.Marshal] writes for a decoded value, with the members
    of its objects sorted; the values the parser returns are well formed. *)
From S2P Require Import Prelude GoStrings GoJson JsonFacts GoEncode GoSort JsonText.
From stdpp Require Import options.

(** * Values *)

(** Sorting the members of an object, as its encoding does. *)
Definition sort_members (m : list (string * Json)) : list (string * Json) :=
  (λ k, (k, default JNull (lookup_member k m))) <$> sort_strings m.*1.
Fixpoint sorted (v : Json) : Json :=
  match v with
  | JArray l => JArray (map sorted l)
  | JObject m => JObject (sort_members (map (λ kv, (kv.1, sorted kv.2)) m))
  | _ => v
  end.

Definition max_list (l : list nat) : nat := foldr Nat.max 0 l.
Fixpoint depth (v : Json) : nat :=
  match v with
  | JArray l => S (max_list (map depth l))
  | JObject m => S (max_list (map (λ kv, depth kv.2) m))
  | _ => 0
  end.

(** Valid UTF-8 in strings, valid number literals, distinct keys. *)
Inductive json_wf : Json → Prop :=
| wf_null : json_wf JNull
| wf_bool b : json_wf (JBool b)
| wf_number lit : number_text lit → json_wf (JNumber lit)
| wf_string s : utf8 s → json_wf (JString s)
| wf_array l : Forall json_wf l → json_wf (JArray l)
| wf_object m : NoDup m.*1 → Forall (λ kv, utf8 kv.1 ∧ json_wf kv.2) m → json_wf (JObject m).

Lemma max_list_le x l n : x ∈ l → max_list l ≤ n → x ≤ n.
Proof.
  induction l as [|y l IH]; [by intros ?%elem_of_nil|]. simpl.
  intros [->|Hx]%elem_of_cons Hn; [lia|]. apply IH; [done|lia].
Qed.
Lemma max_list_bound l n : (∀ x, x ∈ l → x ≤ n) → max_list l ≤ n.
Proof.
  induction l as [|y l IH]; intros Hall; simpl; [lia|].
  apply Nat.max_lub; [apply Hall; by left|]. apply IH. intros x Hx. apply Hall. by right.
Qed.

Lemma sort_members_keys m : (sort_members m).*1 = sort_strings m.*1.
Proof. unfold sort_members. rewrite <-list_fmap_compose. apply list_fmap_id. Qed.

Lemma elem_of_sort_members m k v :
  NoDup m.*1 → (k, v) ∈ sort_members m ↔ (k, v) ∈ m.
Proof.
  intros Hnd. unfold sort_members. rewrite list_elem_of_fmap. split.
  - intros (k' & [= <- ->] & Hk). rewrite elem_of_sort_strings in Hk.
    apply list_elem_of_fmap in Hk as ([k' v'] & -> & Hkv). simpl.
    by rewrite (elem_lookup_member k' v' m).
  - intros Hkv. exists k. rewrite (elem_lookup_member k v m) by done. split; [done|].
    apply elem_of_sort_strings, list_elem_of_fmap. by exists (k, v).
Qed.

Lemma sort_members_perm m : NoDup m.*1 → sort_members m ≡ₚ m.
Proof.
  intros Hnd. apply NoDup_Permutation.
  - apply (NoDup_fmap_1 fst). rewrite sort_members_keys. by apply sort_strings_NoDup.
  - by apply (NoDup_fmap_1 fst).
  - intros [k v]. by apply elem_of_sort_members.
Qed.

Lemma sort_members_proper m1 m2 : NoDup m1.*1 → m1 ≡ₚ m2 → sort_members m1 = sort_members m2.
Proof.
  intros Hnd Hperm. unfold sort_members.
  assert (sort_strings m1.*1 = sort_strings m2.*1) as -> by by rewrite Hperm.
  apply list_fmap_ext. intros i k Hk%list_elem_of_lookup_2. do 2 f_equal.
  rewrite elem_of_sort_strings in Hk. apply list_elem_of_fmap in Hk as ([k' v] & -> & Hkv). simpl.
  rewrite (elem_lookup_member k' v m2); [|by rewrite <-Hperm|done].
  apply elem_lookup_member; [done|]. by rewrite Hperm.
Qed.

Lemma sort_members_NoDup m : NoDup m.*1 → NoDup (sort_members m).*1.
Proof. rewrite sort_members_keys. by rewrite sort_strings_NoDup. Qed.

Lemma sort_members_idemp m : NoDup m.*1 → sort_members (sort_members m) = sort_members m.
Proof.
  intros Hnd. apply sort_members_proper; [by apply sort_members_NoDup|by apply sort_members_perm].
Qed.

(** ** The text of an object *)
Definition member_text (kv : string * Json) : string := encode_string kv.1 +:+ ":" +:+ Marshal kv.2.

Lemma Marshal_object m :
  NoDup m.*1 →
  Marshal (JObject m) = "{" +:+ Join (map member_text (sort_members m)) "," +:+ "}".
Proof.
  intros Hnd. cbn [Marshal]. unfold encode_map, encode_struct. do 2 f_equal.
  set (l := map (λ '(k, v), (k, Marshal v)) m).
  assert (l.*1 = m.*1) as Hl.
  { subst l. clear. induction m as [|[k v] m IH]; [done|]. simpl. by f_equal. }
  assert (NoDup l.*1) as Hnd' by by rewrite Hl.
  rewrite (map_to_list_to_map l Hnd'), Hl. unfold sort_members. f_equal.
  assert (∀ ks, (∀ k, k ∈ ks → k ∈ m.*1) →
    omap (λ '(k, v), (λ v, encode_string k +:+ ":" +:+ v) <$> v)
      ((λ k, (k, (list_to_map l : gmap string string) !! k)) <$> ks) =
    map member_text ((λ k, (k, default JNull (lookup_member k m))) <$> ks)) as Hgen; last first.
  { apply Hgen. intros k. by rewrite elem_of_sort_strings. }
  induction ks as [|k ks IH]; intros Hks; [done|]. cbn.
  assert (k ∈ m.*1) as ([k' v] & -> & Hkv)%list_elem_of_fmap by (apply Hks; by left).
  rewrite (elem_of_list_to_map_1 l k' (Marshal v)); [|done|].
  - cbn. rewrite (elem_lookup_member k' v m) by done. f_equal. apply IH.
    intros; apply Hks; by right.
  - subst l. apply list_elem_of_fmap. by exists (k', v).
Qed.

(** ** The first byte of a value *)
Definition value_starts : list ascii :=
  ["n"; "t"; "f"; "034"; "["; "{"; "-"; "0"; "1"; "2"; "3"; "4"; "5"; "6"; "7"; "8"; "9"]%char.

Lemma number_starts c : c = "-"%char ∨ is_digit c = true → c ∈ value_starts.
Proof.
  intros [->|Hc]; [by repeat constructor|].
  destruct c as [[] [] [] [] [] [] [] []]; try discriminate Hc; by repeat constructor.
Qed.

Lemma scan_int_digit s i r : scan_int s = Some (i, r) → ∃ c s', s = String c s' ∧ is_digit c = true.
Proof.
  destruct s as [|c s]; [done|]. intros Hs. exists c, s. split; [done|].
  destruct (is_digit c) eqn:Hc; [done|]. exfalso.
  assert (span_digits (String c s) = ("", String c s)) as Hd by (simpl; by rewrite Hc).
  unfold scan_int in Hs. rewrite Hd in Hs.
  destruct c as [[] [] [] [] [] [] [] []]; done.
Qed.

Lemma number_head lit : number_text lit → ∃ c s, lit = String c s ∧ (c = "-"%char ∨ is_digit c = true).
Proof.
  intros [n (i & f & e & s2 & s3 & Hi & _)%scan_number_steps].
  destruct lit as [|c s]; [done|]. exists c, s. split; [done|].
  destruct (decide (c = "-"%char)); [by left|]. right.
  assert (scan_sign (String c s) = (false, String c s)) as Hsign.
  { destruct c as [[] [] [] [] [] [] [] []]; done. }
  rewrite Hsign in Hi. by apply scan_int_digit in Hi as (? & ? & [= <- <-] & ?).
Qed.

Lemma Marshal_head v : json_wf v → ∃ c s, Marshal v = String c s ∧ c ∈ value_starts.
Proof.
  destruct 1 as [|[]|lit Hlit|s _|l _|m _ _]; try (do 2 eexists; split; [reflexivity|by repeat constructor]).
  apply number_head in Hlit as (c & s & -> & Hc). exists c, s. split; [done|by apply number_starts].
Qed.

Lemma skip_space_Marshal v t : json_wf v → skip_space (Marshal v +:+ t) = Marshal v +:+ t.
Proof.
  intros (c & s & -> & Hc)%Marshal_head. rewrite str_cons_app.
  repeat (apply elem_of_cons in Hc as [->|Hc]; [done|]). by apply elem_of_nil in Hc.
Qed.

Lemma parse_number_value fuel d lit t :
  number_text lit → ends_number t = true →
  parse_value (S fuel) d (lit +:+ t) = Some (JNumber lit, t).
Proof.
  intros Hlit Ht. pose proof (number_head lit Hlit) as (c & s & -> & Hc%number_starts).
  destruct Hlit as [n Hn]. apply (scan_number_app _ t) in Hn; [|done].
  assert (parse_value (S fuel) d (String c s +:+ t) =
    match scan_number (String c s +:+ t) with
    | Some (_, r) => Some (JNumber (consumed (String c s +:+ t) r), r) | None => None end ∨
    c ∈ ["n"; "t"; "f"; "034"; "["; "{"]%char) as [->|Hno].
  { unfold value_starts in Hc.
    repeat (apply elem_of_cons in Hc as [->|Hc];
      [first [by left|right; by repeat constructor]|]). by apply elem_of_nil in Hc. }
  - rewrite Hn. change ("" +:+ t) with t. by rewrite consumed_app.
  - exfalso. clear Hc. rewrite str_cons_app in Hn. unfold scan_number in Hn.
    repeat (apply elem_of_cons in Hno as [->|Hno]; [done|]). by apply elem_of_nil in Hno.
Qed.

(** ** Elements and members *)
Definition reads_back (v : Json) : Prop :=
  ∀ d fuel t, depth v ≤ d → 2 * str_length (Marshal v) ≤ fuel → ends_number t = true →
    parse_value fuel d (Marshal v +:+ t) = Some (sorted v, t).

Lemma Join_cons x l sep : l ≠ [] → Join (x :: l) sep = x +:+ sep +:+ Join l sep.
Proof. by destruct l. Qed.

Lemma elements_read_back l d : l ≠ [] → Forall json_wf l → Forall reads_back l →
  Forall (λ v, depth v ≤ d) l → ∀ fuel t, 2 * str_length (Join (map Marshal l) ",") < fuel →
  parse_elements fuel d (Join (map Marshal l) "," +:+ "]" +:+ t) = Some (map sorted l, t).
Proof.
  intros Hne Hwf Hread Hdepth. induction l as [|v l IH]; [done|].
  inversion Hwf; inversion Hread; inversion Hdepth; subst. intros fuel t Hf.
  destruct fuel as [|fuel]; [lia|]. destruct (decide (l = [])) as [->|Hl].
  - cbn [map Join parse_elements] in *. rewrite skip_space_Marshal by done.
    match goal with H : reads_back v |- _ => rewrite H by (try done; lia) end. done.
  - cbn [map] in *. rewrite Join_cons in Hf |- * by (by destruct l).
    rewrite !str_length_app in Hf. cbn [str_length String.length] in Hf.
    rewrite !str_app_assoc. cbn [parse_elements]. rewrite skip_space_Marshal by done.
    match goal with H : reads_back v |- _ => rewrite H by (try done; lia) end.
    change (skip_space ("," +:+ ?x)) with ("," +:+ x). rewrite str_cons_app.
    change ("" +:+ ?x) with x. cbv beta iota.
    rewrite IH by (try done; lia). done.
Qed.

Lemma encode_string_length s : utf8 s → S (str_length s) < str_length (encode_string s).
Proof.
  intros Hs. unfold encode_string. rewrite !str_length_app. pose proof (encode_chars_length s Hs).
  unfold quote_mark. simpl. lia.
Qed.

Lemma parse_encoded_string s fuel t :
  utf8 s → str_length (encode_string s) ≤ fuel →
  parse_string fuel (encode_chars (str_length s) s +:+ quote_mark +:+ t) = Some (s, t).
Proof.
  intros Hs Hf. pose proof (encode_string_length s Hs).
  change (quote_mark +:+ t) with (String "034" t). apply parse_encoded; [done|lia].
Qed.

Lemma parse_member_key k v fuel t :
  utf8 k → json_wf v → str_length (encode_string k) ≤ fuel →
  parse_key fuel (member_text (k, v) +:+ t) = Some (k, Marshal v +:+ t).
Proof.
  intros Hk Hv Hf. unfold member_text. cbn [fst snd]. unfold encode_string at 1.
  rewrite !str_app_assoc. unfold parse_key.
  change (quote_mark +:+ encode_chars (str_length k) k +:+ quote_mark +:+ ?x)
    with (String "034" (encode_chars (str_length k) k +:+ quote_mark +:+ x)).
  change (skip_space (String "034" ?x)) with (String "034" x). cbv beta iota.
  rewrite parse_encoded_string by done.
  change (skip_space (":" +:+ ?x)) with (String ":" x). cbv beta iota.
  by rewrite skip_space_Marshal.
Qed.

Lemma members_read_back m d : m ≠ [] → Forall (λ kv, utf8 kv.1 ∧ json_wf kv.2) m →
  Forall (λ kv, reads_back kv.2) m → Forall (λ kv, depth kv.2 ≤ d) m →
  ∀ fuel t, 2 * str_length (Join (map member_text m) ",") < fuel →
  parse_members fuel d (Join (map member_text m) "," +:+ "}" +:+ t) =
  Some (map (λ kv, (kv.1, sorted kv.2)) m, t).
Proof.
  intros Hne Hwf Hread Hdepth. induction m as [|[k v] m IH]; [done|].
  inversion Hwf as [|? ? [Hk Hv]]; inversion Hread as [|? ? Hr]; inversion Hdepth; subst.
  cbn [fst snd] in *. intros fuel t Hf.
  destruct fuel as [|fuel]; [lia|]. destruct (decide (m = [])) as [->|Hm].
  - cbn [map Join] in *. cbn [parse_members].
    rewrite parse_member_key; [|done|done|]; last first.
    { unfold member_text. rewrite !str_length_app. simpl. lia. }
    assert (2 * str_length (Marshal v) ≤ fuel).
    { unfold member_text in Hf. rewrite !str_length_app in Hf. cbn [fst snd] in Hf. lia. }
    rewrite Hr by (try done; lia). done.
  - cbn [map] in *. rewrite Join_cons in Hf |- * by (by destruct m).
    rewrite !str_length_app in Hf. cbn [str_length String.length] in Hf.
    rewrite !str_app_assoc. cbn [parse_members].
    assert (2 * str_length (Marshal v) ≤ fuel).
    { unfold member_text in Hf. rewrite !str_length_app in Hf. cbn [fst snd] in Hf. lia. }
    rewrite parse_member_key; [|done|done|]; last first.
    { unfold member_text. rewrite !str_length_app. simpl. lia. }
    rewrite Hr by (try done; lia).
    change (skip_space ("," +:+ ?x)) with ("," +:+ x). rewrite str_cons_app.
    change ("" +:+ ?x) with x. cbv beta iota.
    rewrite IH by (try done; lia). done.
Qed.

(** ** Assigning distinct keys keeps the members *)
Lemma assign_new k v m : k ∉ m.*1 → assign k v m = m ++ [(k, v)].
Proof.
  induction m as [|[k' v'] m IH]; [done|]. intros [Hk Hm]%not_elem_of_cons. simpl.
  rewrite decide_False by done. by rewrite IH.
Qed.
Lemma to_map_NoDup m : NoDup m.*1 → to_map m = m.
Proof.
  unfold to_map. intros Hnd.
  assert (∀ acc, NoDup (acc ++ m).*1 → foldl (λ acc kv, assign kv.1 kv.2 acc) acc m = acc ++ m) as Hgen;
    [|by apply Hgen].
  clear Hnd. induction m as [|[k v] m IH]; intros acc Hnd; simpl; [by rewrite app_nil_r|].
  assert (k ∉ acc.*1) as Hk.
  { rewrite fmap_app in Hnd. apply NoDup_app in Hnd as (_ & Hd & _). intros Hin.
    apply (Hd k Hin). by left. }
  rewrite assign_new by done. rewrite IH; [by rewrite <-app_assoc|]. by rewrite <-app_assoc.
Qed.

Lemma sort_members_map (f : Json → Json) m :
  NoDup m.*1 →
  sort_members (map (λ kv, (kv.1, f kv.2)) m) = map (λ kv, (kv.1, f kv.2)) (sort_members m).
Proof.
  intros Hnd. unfold sort_members at 1.
  assert ((map (λ kv, (kv.1, f kv.2)) m).*1 = m.*1) as ->.
  { clear. induction m as [|[k v] m IH]; [done|]. simpl. by f_equal. }
  unfold sort_members. rewrite <-(list_fmap_compose _ (λ kv, (kv.1, f kv.2))).
  apply list_fmap_ext. intros i k Hk%list_elem_of_lookup_2. rewrite elem_of_sort_strings in Hk.
  apply list_elem_of_fmap in Hk as ([k' v] & -> & Hkv). simpl.
  rewrite (elem_lookup_member k' v m) by done. simpl. f_equal.
  rewrite (elem_lookup_member k' (f v)); [done| |].
  - clear - Hnd. induction m as [|[k v] m IH]; [done|]. simpl in *.
    apply NoDup_cons in Hnd as [Hk Hnd]. constructor; [|by apply IH].
    intros ([k0 v0] & -> & Hin)%list_elem_of_fmap. apply list_elem_of_fmap in Hin as ([k1 v1] & [= -> ->] & Hin).
    apply Hk, list_elem_of_fmap. by exists (k1, v1).
  - apply list_elem_of_fmap. by exists (k', v).
Qed.

Lemma json_wf_elements l : json_wf (JArray l) → Forall json_wf l.
Proof. by inversion 1. Qed.
Lemma json_wf_members m :
  json_wf (JObject m) → NoDup m.*1 ∧ Forall (λ kv, utf8 kv.1 ∧ json_wf kv.2) m.
Proof. by inversion 1. Qed.

Lemma Forall_sort_members (P : string * Json → Prop) m :
  NoDup m.*1 → Forall P m → Forall P (sort_members m).
Proof. intros Hnd. by rewrite (sort_members_perm m Hnd). Qed.

Lemma parse_array fuel d l t :
  Forall json_wf l → Forall reads_back l → Forall (λ v, depth v ≤ d) l →
  2 * str_length (Marshal (JArray l)) ≤ fuel →
  parse_value fuel (S d) (Marshal (JArray l) +:+ t) = Some (JArray (map sorted l), t).
Proof.
  intros Hwf Hread Hd Hf. cbn [Marshal] in *. unfold encode_list in *.
  rewrite !str_length_app in Hf. cbn [str_length String.length] in Hf. destruct fuel as [|fuel]; [lia|].
  rewrite !str_app_assoc. change ("[" +:+ ?x) with (String "[" x).
  assert (∀ x, (∀ c y, x = String c y → c ∈ value_starts) → x ≠ "" →
    parse_value (S fuel) (S d) (String "[" x) =
    match parse_elements fuel d x with Some (l, r) => Some (JArray l, r) | None => None end) as Hstep.
  { intros x Hx Hne. destruct x as [|c y]; [done|]. specialize (Hx c y eq_refl).
    repeat (apply elem_of_cons in Hx as [->|Hx]; [reflexivity|]). by apply elem_of_nil in Hx. }
  destruct (decide (l = [])) as [->|Hne]; [done|].
  rewrite Hstep.
  - rewrite (elements_read_back l d) by (try done; lia). done.
  - intros c y Hy. destruct l as [|v l]; [done|]. inversion Hwf; subst.
    destruct (Marshal_head v) as (c' & s & Hv & Hc); [done|]. cbn [map] in Hy.
    destruct (decide (l = [])) as [->|Hl]; [|rewrite Join_cons in Hy by (by destruct l)];
      cbn [map Join] in Hy; rewrite Hv, ?str_app_assoc, str_cons_app in Hy; by injection Hy as <- _.
  - destruct l as [|v l]; [done|]. inversion Hwf; subst.
    destruct (Marshal_head v) as (c' & s & Hv & Hc); [done|]. cbn [map].
    destruct (decide (l = [])) as [->|Hl]; [|rewrite Join_cons by (by destruct l)];
      cbn [map Join]; by rewrite Hv.
Qed.

Lemma parse_object fuel d m t :
  NoDup m.*1 → Forall (λ kv, utf8 kv.1 ∧ json_wf kv.2) m → Forall (λ kv, reads_back kv.2) m →
  Forall (λ kv, depth kv.2 ≤ d) m → 2 * str_length (Marshal (JObject m)) ≤ fuel →
  parse_value fuel (S d) (Marshal (JObject m) +:+ t) =
  Some (JObject (map (λ kv, (kv.1, sorted kv.2)) (sort_members m)), t).
Proof.
  intros Hnd Hwf Hread Hd Hf. rewrite Marshal_object in Hf |- * by done.
  rewrite !str_length_app in Hf. cbn [str_length String.length] in Hf. destruct fuel as [|fuel]; [lia|].
  rewrite !str_app_assoc. change ("{" +:+ ?x) with (String "{" x).
  set (sm := sort_members m) in *.
  assert (NoDup sm.*1) as Hsm by by apply sort_members_NoDup.
  assert (Forall (λ kv, utf8 kv.1 ∧ json_wf kv.2) sm) as Hwf' by by apply Forall_sort_members.
  assert (Forall (λ kv, reads_back kv.2) sm) as Hread' by by apply Forall_sort_members.
  assert (Forall (λ kv, depth kv.2 ≤ d) sm) as Hd' by by apply Forall_sort_members.
  destruct (decide (sm = [])) as [->|Hne]; [done|].
  assert (∃ y, Join (map member_text sm) "," +:+ "}" +:+ t = String "034" y) as [y Hy].
  { destruct sm as [|[k v] l]; [done|]. cbn [map].
    destruct (decide (l = [])) as [->|Hl]; [|rewrite Join_cons by (by destruct l)];
      cbn [map Join]; unfold member_text at 1; cbn [fst]; unfold encode_string at 1, quote_mark at 1;
      rewrite !str_app_assoc; by eexists. }
  assert (parse_value (S fuel) (S d) (String "{" (String "034" y)) =
    match parse_members fuel d (String "034" y) with
    | Some (m, r) => Some (JObject (to_map m), r) | None => None end) as Hstep by reflexivity.
  rewrite Hy, Hstep, <-Hy, (members_read_back sm d) by (try done; lia).
  rewrite to_map_NoDup; [done|].
  clearbody sm. clear - Hsm. induction sm as [|[k v] rest IH]; [done|]. simpl in *.
  apply NoDup_cons in Hsm as [Hk Hnd]. constructor; [|by apply IH].
  intros ([k0 v0] & -> & Hin)%list_elem_of_fmap.
  apply list_elem_of_fmap in Hin as ([k1 v1] & [= -> ->] & Hin).
  apply Hk, list_elem_of_fmap. by exists (k1, v1).
Qed.

Lemma Forall_depth {A} (f : A → nat) l d : max_list (map f l) ≤ d → Forall (λ x, f x ≤ d) l.
Proof.
  intros Hd. apply Forall_forall. intros x Hx. apply (max_list_le (f x) (map f l)); [|done].
  apply list_elem_of_fmap. by exists x.
Qed.

Lemma parse_Marshal v : json_wf v → reads_back v.
Proof.
  induction v as [|b|lit|s|l IH|m IH] using Json_nested_ind; intros Hwf d fuel t Hd Hf Ht.
  - by destruct fuel as [|fuel]; [simpl in Hf; lia|].
  - destruct b; by destruct fuel as [|fuel]; [simpl in Hf; lia|].
  - inversion Hwf as [| |? Hlit| | |]; subst. cbn [Marshal] in *.
    destruct (number_head lit Hlit) as (c & s & -> & _). destruct fuel as [|fuel]; [simpl in Hf; lia|].
    by apply parse_number_value.
  - inversion Hwf as [| | |? Hs| |]; subst. cbn [Marshal] in *. pose proof (encode_string_length s Hs).
    destruct fuel as [|fuel]; [lia|]. unfold encode_string. rewrite !str_app_assoc.
    change (quote_mark +:+ encode_chars (str_length s) s +:+ quote_mark +:+ t)
      with (String "034" (encode_chars (str_length s) s +:+ quote_mark +:+ t)).
    cbn [parse_value]. rewrite decide_True by done. rewrite parse_encoded_string; [done|done|].
    rewrite !str_length_app. unfold encode_string. rewrite !str_length_app.
    unfold quote_mark. simpl. lia.
  - simpl in Hd. destruct d as [|d]; [lia|]. apply json_wf_elements in Hwf.
    apply parse_array; [done| |apply (Forall_depth depth); lia|done].
    rewrite Forall_forall in *. naive_solver.
  - simpl in Hd. destruct d as [|d]; [lia|]. apply json_wf_members in Hwf as [Hnd Hwf].
    rewrite parse_object; [|done|done| |apply (Forall_depth (λ kv, depth kv.2)); lia|done].
    + cbn [sorted]. by rewrite sort_members_map.
    + rewrite Forall_forall in *. intros kv Hkv. apply IH; [done|]. by apply Hwf.
Qed.

(** [json.Unmarshal] reads back the encoding of a well-formed value. *)
Lemma Unmarshal_Marshal v :
  json_wf v → depth v ≤ max_nesting_depth → Unmarshal (Marshal v) = Some (sorted v).
Proof.
  intros Hwf Hd. unfold Unmarshal, decode_prefix.
  pose proof (skip_space_Marshal v "" Hwf) as Hskip. rewrite str_app_nil_r in Hskip. rewrite Hskip.
  pose proof (parse_Marshal v Hwf max_nesting_depth (parse_fuel (Marshal v)) "" Hd) as Hp.
  rewrite str_app_nil_r in Hp. rewrite Hp; [done| |done]. unfold parse_fuel. lia.
Qed.

(** ** The values the parser returns *)
Lemma assign_Forall (P : string * Json → Prop) k v m : P (k, v) → Forall P m → Forall P (assign k v m).
Proof.
  intros Hkv. induction 1 as [|[k' v'] m Hk' Hm IH]; simpl; [by repeat constructor|].
  case_decide; by constructor.
Qed.

Lemma to_map_Forall (P : string * Json → Prop) m : Forall P m → NoDup (to_map m).*1 ∧ Forall P (to_map m).
Proof.
  unfold to_map. intros Hm.
  assert (∀ acc, NoDup acc.*1 → Forall P acc →
    NoDup (foldl (λ acc kv, assign kv.1 kv.2 acc) acc m).*1 ∧
    Forall P (foldl (λ acc kv, assign kv.1 kv.2 acc) acc m)) as Hgen; [|by apply Hgen; constructor].
  induction Hm as [|[k v] m Hv Hm IH]; intros acc Hnd Hacc; simpl; [done|].
  apply IH; [by apply assign_keys|by apply assign_Forall].
Qed.

Definition bounded_wf (d : nat) (v : Json) : Prop := json_wf v ∧ depth v ≤ d.

Lemma bounded_array d l : Forall (bounded_wf d) l → bounded_wf (S d) (JArray l).
Proof.
  intros Hl. unfold bounded_wf. split.
  - constructor. eapply Forall_impl; [done|]. intros v Hv. apply Hv.
  - simpl. apply le_n_S, max_list_bound. intros x (v & -> & Hv)%list_elem_of_fmap;
      rewrite Forall_forall in Hl; by apply Hl in Hv as [_ ?].
Qed.

Lemma bounded_object d m :
  Forall (λ kv, utf8 kv.1 ∧ bounded_wf d kv.2) m → bounded_wf (S d) (JObject (to_map m)).
Proof.
  intros [Hnd Hm]%to_map_Forall. split.
  - constructor; [done|]. eapply Forall_impl; [done|]. intros kv Hkv. split; apply Hkv.
  - simpl. apply le_n_S, max_list_bound. intros x (kv & -> & Hkv)%list_elem_of_fmap.
    rewrite Forall_forall in Hm. by apply Hm in Hkv as (_ & _ & ?).
Qed.

Lemma parse_key_utf8 fuel s k r : parse_key fuel s = Some (k, r) → utf8 k.
Proof.
  unfold parse_key. intros Hk. destruct (skip_space s) as [|c s']; [done|].
  destruct (decide (c = "034"%char)) as [->|Hc].
  - destruct (parse_string fuel s') as [[k' r']|] eqn:Hp; [|done]. apply parse_string_utf8 in Hp.
    repeat case_match; by simplify_eq.
  - destruct c as [[] [] [] [] [] [] [] []]; by simplify_eq.
Qed.

Lemma scanned_number s n r : scan_number s = Some (n, r) → number_text (consumed s r).
Proof. intros (lit & -> & Hlit)%scan_number_split. rewrite consumed_app. by eexists. Qed.

Lemma parse_wf fuel :
  (∀ d s v r, parse_value fuel d s = Some (v, r) → bounded_wf d v) ∧
  (∀ d s l r, parse_elements fuel d s = Some (l, r) → Forall (bounded_wf d) l) ∧
  (∀ d s m r, parse_members fuel d s = Some (m, r) →
     Forall (λ kv, utf8 kv.1 ∧ bounded_wf d kv.2) m).
Proof.
  induction fuel as [|fuel (IHv & IHe & IHm)]; [done|]. split_and!.
  - intros d s v r Hp. cbn [parse_value] in Hp. destruct s as [|c s]; [done|].
    case_decide.
    { destruct (parse_string _ s) as [[t r']|] eqn:Ht; simplify_eq.
      split; [constructor; by eapply parse_string_utf8|simpl; lia]. }
    case_decide.
    { destruct d as [|d]; [done|].
      repeat case_match; simplify_eq; try done;
        first [by eapply bounded_array, IHe|by apply bounded_array]. }
    case_decide.
    { destruct d as [|d]; [done|].
      repeat case_match; simplify_eq; try done;
        first [by eapply bounded_object, IHm|by apply (bounded_object d [])]. }
    destruct (strip_prefix "true" _); [simplify_eq; split; [constructor|simpl; lia]|].
    destruct (strip_prefix "false" _); [simplify_eq; split; [constructor|simpl; lia]|].
    destruct (strip_prefix "null" _); [simplify_eq; split; [constructor|simpl; lia]|].
    destruct (scan_number _) as [[n r']|] eqn:Hn; simplify_eq.
    split; [constructor; by eapply scanned_number|simpl; lia].
  - intros d s l r Hp. cbn [parse_elements] in Hp.
    destruct (parse_value fuel d (skip_space s)) as [[v r1]|] eqn:Hv; [|done]. apply IHv in Hv.
    repeat case_match; simplify_eq; constructor; eauto.
  - intros d s m r Hp. cbn [parse_members] in Hp.
    destruct (parse_key _ s) as [[k s1]|] eqn:Hk; [|done]. apply parse_key_utf8 in Hk.
    destruct (parse_value fuel d s1) as [[v r1]|] eqn:Hv; [|done]. apply IHv in Hv.
    repeat case_match; simplify_eq; constructor; eauto.
Qed.

Lemma Unmarshal_wf s v : Unmarshal s = Some v → json_wf v ∧ depth v ≤ max_nesting_depth.
Proof.
  unfold Unmarshal, decode_prefix. intros Hu.
  destruct (parse_value _ _ _) as [[v' r]|] eqn:Hp; [|done]. apply parse_wf in Hp.
  case_decide; by simplify_eq.
Qed.

(** ** Sorting is what encoding forgets *)
Lemma sorted_keys (m : list (string * Json)) : NoDup m.*1 → NoDup (map (λ kv, (kv.1, sorted kv.2)) m).*1.
Proof.
  intros Hnd. assert ((map (λ kv, (kv.1, sorted kv.2)) m).*1 = m.*1) as ->; [|done].
  clear. induction m as [|[k v] m IH]; [done|]. simpl. by f_equal.
Qed.

Lemma json_wf_sorted v : json_wf v → json_wf (sorted v).
Proof.
  induction v as [|b|lit|s|l IH|m IH] using Json_nested_ind; intros Hwf; try done.
  - apply json_wf_elements in Hwf. simpl. constructor. apply Forall_forall.
    intros x (v & -> & Hv)%list_elem_of_fmap. rewrite Forall_forall in *. by apply IH, Hwf.
  - apply json_wf_members in Hwf as [Hnd Hwf]. simpl.
    pose proof (sorted_keys m Hnd) as Hnd'. constructor; [by apply sort_members_NoDup|].
    apply Forall_sort_members; [done|]. apply Forall_forall.
    intros x (kv & -> & Hkv)%list_elem_of_fmap. rewrite Forall_forall in *. simpl.
    split; [by apply Hwf|]. apply IH; [done|]. by apply Hwf.
Qed.

Lemma Marshal_sorted v : json_wf v → Marshal (sorted v) = Marshal v.
Proof.
  induction v as [|b|lit|s|l IH|m IH] using Json_nested_ind; intros Hwf; try done.
  - apply json_wf_elements in Hwf. cbn [sorted Marshal]. f_equal. rewrite !map_map. apply map_ext_in.
    intros v Hv%list_elem_of_In. rewrite Forall_forall in *. by apply IH, Hwf.
  - apply json_wf_members in Hwf as [Hnd Hwf]. cbn [sorted].
    pose proof (sorted_keys m Hnd) as Hnd'.
    rewrite Marshal_object by by apply sort_members_NoDup. rewrite sort_members_idemp by done.
    rewrite Marshal_object by done. do 3 f_equal. rewrite sort_members_map, map_map by done.
    apply map_ext_in. intros [k v] Hkv%list_elem_of_In. rewrite elem_of_sort_members in Hkv by done.
    unfold member_text. simpl. do 2 f_equal. rewrite Forall_forall in *.
    apply (IH (k, v)); [done|]. by apply (Hwf (k, v)).
Qed.

(** Decoding what was encoded gives the sorted value; encoding it again changes nothing. *)
Lemma Marshal_canonical s v :
  Unmarshal s = Some v →
  Unmarshal (Marshal v) = Some (sorted v) ∧ Marshal (sorted v) = Marshal v.
Proof.
  intros [Hwf Hd]%Unmarshal_wf. split; [by apply Unmarshal_Marshal|by apply Marshal_sorted].
Qed.

Lemma Marshal_valid s v : Unmarshal s = Some v → Valid (Marshal v) = true.
Proof.
  intros [Hu _]%Marshal_canonical. unfold Valid. rewrite Hu. apply bool_decide_true. by eexists.
Qed.
