(* ===== verification/JsonCut.v ===== *)
(** The text of a value stands by itself: what the scanner of [GoJson] reads at the head of an
    input depends on the bytes it takes only, so that a raw message cut out of a document is a
    valid text of the same value. *)
From S2P Require Import Prelude GoStrings GoJson JsonFacts GoEncode JsonText JsonRoundTrip.
From stdpp Require Import options.

Lemma str_length_cons a s : str_length (String a s) = S (str_length s).
Proof. done. Qed.

(** * Steps of the parser *)
(** What follows [c], when [s] starts with it. *)
Definition after (c : ascii) (s : string) : option string :=
  match s with String a r => if decide (a = c) then Some r else None | EmptyString => None end.

Lemma after_Some c s r : after c s = Some r ↔ s = String c r.
Proof. destruct s as [|a s]; simpl; [done|]. case_decide; naive_solver. Qed.
Lemma after_comma_close {A} (x y : string → option A) s :
  match s with String "," r => x r | String "]" r => y r | _ => None end =
  match after "," s with Some r => x r | None => match after "]" s with Some r => y r | None => None end end.
Proof. destruct s as [|a s]; [done|]. destruct a as [[] [] [] [] [] [] [] []]; reflexivity. Qed.
Lemma after_comma_brace {A} (x y : string → option A) s :
  match s with String "," r => x r | String "}" r => y r | _ => None end =
  match after "," s with Some r => x r | None => match after "}" s with Some r => y r | None => None end end.
Proof. destruct s as [|a s]; [done|]. destruct a as [[] [] [] [] [] [] [] []]; reflexivity. Qed.
Lemma after_one {A} (x : string → option A) s :
  match s with String ":" r => x r | _ => None end = match after ":" s with Some r => x r | None => None end.
Proof. destruct s as [|a s]; [done|]. destruct a as [[] [] [] [] [] [] [] []]; reflexivity. Qed.
Lemma after_quote {A} (x : string → option A) s :
  match s with String "034" r => x r | _ => None end = match after "034" s with Some r => x r | None => None end.
Proof. destruct s as [|a s]; [done|]. destruct a as [[] [] [] [] [] [] [] []]; reflexivity. Qed.

Definition prefixed (head : string) (r : option (string * string)) : option (string * string) :=
  match r with Some (t, r) => Some (head +:+ t, r) | None => None end.
Lemma parse_string_step fuel c s :
  parse_string (S fuel) (String c s) =
  if decide (c = "034"%char) then Some ("", s)
  else if decide (c = "\"%char) then
    match s with
    | EmptyString => None
    | String e s2 =>
        if decide (e = "u"%char) then
          match escaped_rune s2 with
          | Some (r, rest) => prefixed (encode_rune r) (parse_string fuel rest)
          | None => None
          end
        else match simple_escape e with
             | Some h => prefixed h (parse_string fuel s2)
             | None => None
             end
    end
  else if (byte_of c <? 32)%N then None
  else match rune_length (String c s) with
       | O => prefixed replacement (parse_string fuel s)
       | n => prefixed (str_take n (String c s)) (parse_string fuel (str_drop n (String c s)))
       end.
Proof.
  cbn [parse_string]. case_decide; [done|]. case_decide; [|done]. destruct s as [|e s2]; [done|].
  destruct e as [[] [] [] [] [] [] [] []]; reflexivity.
Qed.

(** * String literals *)
(** [c], with its closing quote, is read as [t] whatever follows. *)
Definition literal_text (c t : string) : Prop :=
  (∃ c0, c = c0 +:+ quote_mark) ∧
  ∀ fuel x, str_length c ≤ fuel → parse_string fuel (c +:+ x) = Some (t, x).

Lemma hex4_app h n r x : hex4 h = Some (n, r) → hex4 (h +:+ x) = Some (n, r +:+ x).
Proof.
  destruct h as [|a [|b [|c [|d h]]]]; try done. unfold hex4. rewrite !str_cons_app. repeat case_match; try done. intros [= <- <-]. done.
Qed.
Lemma hex4_split s n r : hex4 s = Some (n, r) → ∃ h, s = h +:+ r ∧ hex4 h = Some (n, "").
Proof.
  destruct s as [|a [|b [|c [|d s]]]]; try done. intros Hh. exists (String a (String b (String c (String d "")))).
  cbn in *. repeat case_match; try done. by injection Hh as <- <-.
Qed.
Lemma rune_length_stop b c x y :
  rune_length (String b ((c +:+ quote_mark) +:+ x)) = 0 → rune_length (String b ((c +:+ quote_mark) +:+ y)) = 0.
Proof.
  change quote_mark with (String "034" ""). destruct c as [|c1 [|c2 [|c3 c]]]; rewrite !str_app_assoc, ?str_cons_app;
    change ("" +:+ ?z) with z; rewrite ?str_cons_app; change ("" +:+ ?z) with z;
    cbn [rune_length]; change (is_cont "034"%char) with false; rewrite ?andb_false_r; cbn [andb];
    repeat case_match; done.
Qed.

(** The escape at the head of a literal is inside it. *)
Lemma next_escape c t : literal_text c t →
  (∀ x, unicode_escape (c +:+ x) = None) ∨
  ∃ n r, unicode_escape c = Some (n, r) ∧ ∀ x, unicode_escape (c +:+ x) = Some (n, r +:+ x).
Proof.
  intros [_ Hc]. specialize (Hc (S (str_length c)) ""). rewrite str_app_nil_r in Hc.
  specialize (Hc ltac:(lia)). destruct c as [|a c]; [done|]. rewrite parse_string_step in Hc.
  destruct (decide (a = "\"%char)) as [->|Ha]; last first.
  { left. intros x. rewrite str_cons_app. destruct a as [[] [] [] [] [] [] [] []]; done. }
  rewrite decide_False in Hc by done. destruct c as [|e c]; [done|].
  case_decide as He; [subst e|].
  - right. destruct (escaped_rune c) as [[n rest]|] eqn:Hr; [|done]. unfold escaped_rune in Hr.
    destruct (hex4 c) as [[n1 r1]|] eqn:Hh; [|done]. exists n1, r1. cbn. split; [done|].
    intros x. by apply hex4_app.
  - left. intros x. rewrite !str_cons_app. destruct e as [[] [] [] [] [] [] [] []]; done.
Qed.

Lemma escaped_rune_cut s n c t r : escaped_rune s = Some (n, c +:+ r) → literal_text c t →
  ∃ h, s = h +:+ c +:+ r ∧ h ≠ "" ∧ ∀ x, escaped_rune (h +:+ c +:+ x) = Some (n, c +:+ x).
Proof.
  unfold escaped_rune. intros Hs Hc. destruct (hex4 s) as [[n0 rest]|] eqn:Hh; [|done].
  apply hex4_split in Hh as (h & -> & Hh). pose proof (next_escape c t Hc) as Hnext.
  assert (h ≠ "") as Hne by by intros ->.
  destruct ((55296 <=? n0) && (n0 <? 57344))%N eqn:Hsur; last first.
  { injection Hs as -> ->. exists h. split; [done|]. split; [done|]. intros x.
    rewrite (hex4_app _ _ _ _ Hh), Hsur. done. }
  assert (∀ n, Some (65533%N, rest) = Some (n, c +:+ r) →
    (∀ x, match unicode_escape (c +:+ x) with
          | Some (r1, _) => ((n0 <? 56320) && (56320 <=? r1) && (r1 <? 57344))%N = false | None => True end) →
    ∃ h', h +:+ rest = h' +:+ c +:+ r ∧ h' ≠ "" ∧ ∀ x,
      match hex4 (h' +:+ c +:+ x) with
      | Some (r, rest) =>
          if ((55296 <=? r) && (r <? 57344))%N
          then match unicode_escape rest with
               | Some (r1, rest1) =>
                   if ((r <? 56320) && (56320 <=? r1) && (r1 <? 57344))%N
                   then Some ((65536 + (r - 55296) * 1024 + (r1 - 56320))%N, rest1) else Some (65533%N, rest)
               | None => Some (65533%N, rest)
               end
          else Some (r, rest)
      | None => None
      end = Some (n, c +:+ x)) as Hlone.
  { intros n' [= <- ->] Hx. exists h. split; [done|]. split; [done|]. intros x.
    rewrite (hex4_app _ _ _ _ Hh). change ("" +:+ ?y) with y. rewrite Hsur. specialize (Hx x).
    destruct (unicode_escape (c +:+ x)) as [[r1 rest1]|]; [|done]. by rewrite Hx. }
  destruct (unicode_escape rest) as [[r1 rest1]|] eqn:Hu.
  - destruct ((n0 <? 56320) && (56320 <=? r1) && (r1 <? 57344))%N eqn:Hp.
    + injection Hs as <- ->. destruct rest as [|a [|e rest]]; [done|by destruct a as [[] [] [] [] [] [] [] []]|].
      assert (a = "\"%char ∧ e = "u"%char) as [-> ->].
      { destruct a as [[] [] [] [] [] [] [] []]; try done. by destruct e as [[] [] [] [] [] [] [] []]. }
      cbn in Hu. apply hex4_split in Hu as (h1 & -> & Hh1). exists (h +:+ String "\" (String "u" h1)).
      rewrite !str_app_assoc. split; [done|]. split; [by destruct h|]. intros x.
      rewrite str_app_assoc, (hex4_app _ _ _ _ Hh). change ("" +:+ ?y) with y. rewrite Hsur.
      rewrite !str_cons_app. cbn [unicode_escape].
      rewrite (hex4_app _ _ _ _ Hh1). change ("" +:+ ?y) with y. by rewrite Hp.
    + apply Hlone; [done|]. injection Hs as _ ->. intros x.
      destruct Hnext as [Hn|(n2 & r2 & _ & Hn)]; rewrite Hn in Hu |- *; [done|]. by injection Hu as <- _.
  - apply Hlone; [done|]. injection Hs as _ ->. intros x.
    destruct Hnext as [Hn|(n2 & r2 & _ & Hn)]; rewrite Hn in Hu |- *; done.
Qed.

Lemma literal_prefix p h c t :
  literal_text c t → p ≠ "" →
  (∀ fuel x, parse_string (S fuel) (p +:+ c +:+ x) = prefixed h (parse_string fuel (c +:+ x))) →
  literal_text (p +:+ c) (h +:+ t).
Proof.
  intros [[c0 ->] Hc] Hp Hstep. split; [exists (p +:+ c0); by rewrite str_app_assoc|].
  intros fuel x Hf. rewrite str_length_app in Hf. destruct p as [|a p]; [done|].
  cbn [str_length String.length] in Hf. destruct fuel as [|fuel]; [lia|].
  rewrite str_app_assoc, Hstep, Hc by lia. done.
Qed.

Lemma parse_string_cut fuel s t r :
  parse_string fuel s = Some (t, r) → ∃ c, s = c +:+ r ∧ literal_text c t.
Proof.
  revert s t. induction fuel as [|fuel IH]; intros s t; [done|]. destruct s as [|a s]; [done|].
  rewrite parse_string_step. assert (∀ h rest, prefixed h (parse_string fuel rest) = Some (t, r) →
    ∃ c t', rest = c +:+ r ∧ literal_text c t' ∧ t = h +:+ t') as Hrest.
  { intros h rest. destruct (parse_string fuel rest) as [[t' r']|] eqn:Hp; [|done].
    intros [= <- ->]. apply IH in Hp as (c & -> & Hc). by exists c, t'. }
  case_decide as Hq.
  { intros [= <- ->]. subst a. exists quote_mark. split; [done|]. split; [by exists ""|].
    intros fuel' x Hf. destruct fuel' as [|fuel']; [simpl in Hf; lia|]. done. }
  case_decide as Hb; [subst a|].
  - destruct s as [|e s]; [done|]. case_decide as He; [subst e|].
    + destruct (escaped_rune s) as [[n rest]|] eqn:Hr; [|done].
      intros (c & t' & -> & Hc & ->)%Hrest. apply (escaped_rune_cut _ _ _ t') in Hr as (h & -> & Hne & Hr); [|done].
      exists ((String "\" (String "u" h)) +:+ c). split; [by rewrite !str_cons_app, str_app_assoc|].
      apply literal_prefix; [done|done|]. intros fuel' x. rewrite !str_cons_app, parse_string_step.
      rewrite decide_False, !decide_True by done. by rewrite Hr.
    + destruct (simple_escape e) as [h|] eqn:Hh; [|done]. intros (c & t' & -> & Hc & ->)%Hrest.
      exists ((String "\" (String e "")) +:+ c). split; [done|]. apply literal_prefix; [done|done|].
      intros fuel' x. rewrite !str_cons_app, parse_string_step.
      rewrite decide_False, decide_True, decide_False by done. by rewrite Hh.
  - destruct (byte_of a <? 32)%N eqn:H32; [done|].
    destruct (rune_length (String a s)) as [|n] eqn:Hl.
    + intros (c & t' & -> & Hc & ->)%Hrest. exists (String a "" +:+ c). split; [done|].
      apply literal_prefix; [done|done|]. destruct Hc as [[c0 ->] _]. intros fuel' x.
      rewrite !str_cons_app, parse_string_step. rewrite !decide_False, H32 by done.
      change ("" +:+ ?y) with y. by rewrite (rune_length_stop a c0 r x).
    + pose proof (rune_take (String a s)) as Hrune. rewrite Hl in Hrune.
      intros (c & t' & Hdrop & Hc & ->)%Hrest. pose proof (str_take_drop (S n) (String a s)) as Hs.
      rewrite Hdrop in Hs. set (p := str_take (S n) (String a s)) in *. specialize (Hrune ltac:(done)).
      exists (p +:+ c). rewrite str_app_assoc. split; [done|]. apply literal_prefix; [done|by apply Hrune|].
      intros fuel' x. clearbody p. destruct p as [|a' p]; [by destruct Hrune|].
      rewrite str_cons_app in Hs. injection Hs as -> _. rewrite str_cons_app, parse_string_step.
      rewrite !decide_False, H32 by done. rewrite <-str_cons_app.
      rewrite (rune_prefix (String a p)) by done. pose proof (str_take_app (String a p) (c +:+ x)) as Ht.
      pose proof (str_drop_app (String a p) (c +:+ x)) as Hd. cbn [str_length String.length] in Ht, Hd |- *.
      by rewrite Ht, Hd.
Qed.

(** * White space *)
Definition spaces (w : string) : Prop := ∀ x, skip_space (w +:+ x) = skip_space x.
Lemma skip_space_split s : ∃ w, s = w +:+ skip_space s ∧ spaces w ∧ (w = "" ∨ ∃ a w', w = String a w' ∧ is_space a = true).
Proof.
  induction s as [|a s (w & Hs & Hw & _)]; [exists ""; by split_and!; [..|left]|]. simpl.
  destruct (is_space a) eqn:Ha; [|exists ""; by split_and!; [..|left]].
  exists (String a w). rewrite str_cons_app, <-Hs. split; [done|]. split; [|right; by eauto].
  intros x. rewrite str_cons_app. simpl. rewrite Ha. apply Hw.
Qed.
Lemma skip_space_head s a x : skip_space s = String a x → is_space a = false.
Proof. induction s as [|b s IH]; [done|]. simpl. destruct (is_space b) eqn:Hb; [done|]. by intros [= -> ->]. Qed.
Lemma skip_space_done a x : is_space a = false → skip_space (String a x) = String a x.
Proof. simpl. by intros ->. Qed.

Lemma space_ends a w : is_space a = true → ends_number (String a w) = true.
Proof. destruct a as [[] [] [] [] [] [] [] []]; done. Qed.
(** White space and then a character that does not continue a number. *)
Lemma space_then_ends w a x :
  (w = "" ∨ ∃ b w', w = String b w' ∧ is_space b = true) → ends_number (String a "") = true →
  ends_number (w +:+ String a x) = true.
Proof. intros [->|(b & w' & -> & Hb)] Ha; [done|]. by apply space_ends. Qed.
(** A separator after white space. *)
Lemma after_space a r r' : after a (skip_space r) = Some r' →
  ∃ w, r = w +:+ String a r' ∧ spaces w ∧ (w = "" ∨ ∃ b w', w = String b w' ∧ is_space b = true) ∧
       is_space a = false.
Proof.
  intros Hr%after_Some. destruct (skip_space_split r) as (w & Hs & Hw & Hh). exists w.
  rewrite Hr in Hs. split_and!; [done..|]. by eapply skip_space_head.
Qed.
Lemma after_here a x : after a (String a x) = Some x.
Proof. by apply after_Some. Qed.

(** * Values *)
(** [c] is read as [v], whatever follows that does not continue a number, when [d] containers may
    be opened. *)
Definition value_text (d : nat) (c : string) (v : Json) : Prop :=
  (∃ a c', c = String a c' ∧ is_space a = false) ∧
  ∀ fuel d' t, 2 * str_length c ≤ fuel → d ≤ d' → ends_number t = true →
    parse_value fuel d' (c +:+ t) = Some (v, t).
(** The elements or members with what closes them. *)
Definition elements_text (d : nat) (c : string) (l : list Json) : Prop :=
  c ≠ "" ∧ ∀ fuel d' t, 2 * str_length c ≤ fuel → d ≤ d' → parse_elements fuel d' (c +:+ t) = Some (l, t).
Definition members_text (d : nat) (c : string) (m : list (string * Json)) : Prop :=
  c ≠ "" ∧ ∀ fuel d' t, 2 * str_length c ≤ fuel → d ≤ d' → parse_members fuel d' (c +:+ t) = Some (m, t).
Definition key_text (c k : string) : Prop :=
  c ≠ "" ∧ ∀ fuel x, str_length c ≤ fuel → skip_space x = x → parse_key fuel (c +:+ x) = Some (k, x).

Lemma value_text_starts d c v x : value_text d c v → skip_space (c +:+ x) = c +:+ x.
Proof. intros [(a & c' & -> & Ha) _]. by apply skip_space_done. Qed.
Lemma value_text_mono d d' c v : value_text d c v → d ≤ d' → value_text d' c v.
Proof. intros [Hh Hv] Hd. split; [done|]. intros fuel d'' t Hf Hd' Ht. apply Hv; [done|lia|done]. Qed.

Lemma parse_key_cut fuel s k r : parse_key fuel s = Some (k, r) → ∃ c, s = c +:+ r ∧ key_text c k ∧ skip_space r = r.
Proof.
  unfold parse_key. rewrite after_quote. destruct (after _ _) as [s1|] eqn:Hq; [|done].
  destruct (parse_string fuel s1) as [[k' r1]|] eqn:Hp; [|done]. rewrite after_one.
  destruct (after ":" _) as [r2|] eqn:Hc; [|done]. intros [= -> <-].
  apply after_space in Hq as (w & -> & Hw & _ & _). apply parse_string_cut in Hp as (c & -> & _ & Hlit).
  apply after_space in Hc as (w1 & -> & Hw1 & _ & _).
  destruct (skip_space_split r2) as (w2 & Hr2 & Hw2 & _).
  assert (skip_space (skip_space r2) = skip_space r2) as Hidem.
  { destruct (skip_space r2) as [|a y] eqn:Hy; [done|]. apply skip_space_head in Hy. by apply skip_space_done. }
  exists (w +:+ String "034" (c +:+ w1 +:+ String ":" w2)). split_and!; [|split|done].
  - rewrite Hr2 at 1. rewrite !str_app_assoc, !str_cons_app, !str_app_assoc, !str_cons_app. done.
  - destruct w; done.
  - intros fuel' x Hf Hx. unfold parse_key. rewrite !str_app_assoc, !str_cons_app, !str_app_assoc, Hw.
    rewrite skip_space_done by done. cbv iota. rewrite Hlit; last first.
    { rewrite !str_length_app in Hf. cbn [str_length String.length] in Hf. rewrite str_length_app in Hf. lia. }
    rewrite Hw1, !str_cons_app, skip_space_done by done. by rewrite Hw2, Hx.
Qed.

Lemma quote_text d c t : literal_text c t → value_text d (String "034" c) (JString t).
Proof.
  intros [_ Hc]. split; [by do 2 eexists|]. intros fuel d' x Hf _ _. cbn [str_length String.length] in Hf.
  destruct fuel as [|fuel]; [lia|]. rewrite str_cons_app. cbn [parse_value]. rewrite decide_True by done.
  rewrite Hc; [done|]. rewrite str_length_app. lia.
Qed.

Lemma parse_container_step fuel d s : parse_value (S fuel) d (String "[" s) =
  match d with
  | O => None
  | S d => match after "]" (skip_space s) with
           | Some r => Some (JArray [], r)
           | None => match parse_elements fuel d (skip_space s) with Some (l, r) => Some (JArray l, r) | None => None end
           end
  end.
Proof.
  cbn [parse_value]. rewrite decide_False, decide_True by done. destruct d as [|d]; [done|].
  destruct (skip_space s) as [|[[] [] [] [] [] [] [] []] s']; reflexivity.
Qed.
Lemma parse_object_step fuel d s : parse_value (S fuel) d (String "{" s) =
  match d with
  | O => None
  | S d => match after "}" (skip_space s) with
           | Some r => Some (JObject [], r)
           | None => match parse_members fuel d (skip_space s) with
                     | Some (m, r) => Some (JObject (to_map m), r) | None => None end
           end
  end.
Proof.
  cbn [parse_value]. rewrite !decide_False, decide_True by done. destruct d as [|d]; [done|].
  destruct (skip_space s) as [|[[] [] [] [] [] [] [] []] s']; reflexivity.
Qed.
Lemma parse_elements_step fuel d s : parse_elements (S fuel) d s =
  match parse_value fuel d (skip_space s) with
  | None => None
  | Some (v, r) =>
      match after "," (skip_space r) with
      | Some r' => match parse_elements fuel d r' with Some (l, r'') => Some (v :: l, r'') | None => None end
      | None => match after "]" (skip_space r) with Some r' => Some ([v], r') | None => None end
      end
  end.
Proof. cbn [parse_elements]. destruct (parse_value _ _ _) as [[v r]|]; [|done]. by rewrite after_comma_close. Qed.
Lemma parse_members_step fuel d s : parse_members (S fuel) d s =
  match parse_key (S (str_length s)) s with
  | None => None
  | Some (k, s1) =>
      match parse_value fuel d s1 with
      | None => None
      | Some (v, r) =>
          match after "," (skip_space r) with
          | Some r' => match parse_members fuel d r' with Some (l, r'') => Some ((k, v) :: l, r'') | None => None end
          | None => match after "}" (skip_space r) with Some r' => Some ([(k, v)], r') | None => None end
          end
      end
  end.
Proof.
  cbn [parse_members]. destruct (parse_key _ _) as [[k s1]|]; [|done].
  destruct (parse_value _ _ _) as [[v r]|]; [|done]. by rewrite after_comma_brace.
Qed.

(** An opening, white space and what follows up to the closing. *)
Lemma array_text d w c l : spaces w → elements_text d c l → (∀ t, after "]" (c +:+ t) = None) →
  (∀ t, skip_space (c +:+ t) = c +:+ t) → value_text (S d) (String "[" (w +:+ c)) (JArray l).
Proof.
  intros Hw [Hne Hc] Hafter Hskip. split; [by do 2 eexists|]. intros fuel d' t Hf Hd _.
  cbn [str_length String.length] in Hf. rewrite str_length_app in Hf. destruct fuel as [|fuel]; [lia|].
  rewrite str_cons_app, str_app_assoc, parse_container_step. destruct d' as [|d']; [lia|].
  rewrite Hw, Hskip, Hafter, Hc by lia. done.
Qed.
Lemma object_text d w c m : spaces w → members_text d c m → (∀ t, after "}" (c +:+ t) = None) →
  (∀ t, skip_space (c +:+ t) = c +:+ t) → value_text (S d) (String "{" (w +:+ c)) (JObject (to_map m)).
Proof.
  intros Hw [Hne Hc] Hafter Hskip. split; [by do 2 eexists|]. intros fuel d' t Hf Hd _.
  cbn [str_length String.length] in Hf. rewrite str_length_app in Hf. destruct fuel as [|fuel]; [lia|].
  rewrite str_cons_app, str_app_assoc, parse_object_step. destruct d' as [|d']; [lia|].
  rewrite Hw, Hskip, Hafter, Hc by lia. done.
Qed.
Lemma empty_text d w v open close : spaces w → is_space close = false →
  (open = "["%char ∧ close = "]"%char ∧ v = JArray [] ∨ open = "{"%char ∧ close = "}"%char ∧ v = JObject []) →
  value_text (S d) (String open (w +:+ String close "")) v.
Proof.
  intros Hw Hs Hcase. split; [by destruct Hcase as [(-> & _)|(-> & _)]; do 2 eexists|]. intros fuel d' t Hf Hd _.
  destruct fuel as [|fuel]; [simpl in Hf; lia|]. rewrite str_cons_app, str_app_assoc, str_cons_app.
  destruct d' as [|d']; [lia|].
  destruct Hcase as [(-> & -> & ->)|(-> & -> & ->)]; [rewrite parse_container_step|rewrite parse_object_step];
    by rewrite Hw, skip_space_done, after_here.
Qed.

(** ** Elements and members *)
Definition space_text (w : string) : Prop := spaces w ∧ (w = "" ∨ ∃ a w', w = String a w' ∧ is_space a = true).
Lemma no_space : space_text "".
Proof. split; [done|by left]. Qed.

Lemma element_then d w c w1 v c' l :
  space_text w → value_text d c v → space_text w1 → elements_text d c' l →
  elements_text d (w +:+ c +:+ w1 +:+ String "," c') (v :: l).
Proof.
  intros [Hw _] Hv [Hw1 Hh] [Hne Hl]. split; [by destruct Hv as [(a & x & -> & _) _]; destruct w|].
  intros fuel d' t Hf Hd. rewrite !str_length_app, ?str_length_cons in Hf.
  assert (str_length c ≠ 0) by by destruct Hv as [(a & x & -> & _) _].
  destruct fuel as [|fuel]; [lia|]. rewrite !str_app_assoc, str_cons_app, parse_elements_step, Hw.
  rewrite (value_text_starts _ _ _ _ Hv). destruct Hv as [_ Hv].
  rewrite Hv by (first [lia|by apply space_then_ends]). rewrite Hw1, skip_space_done, after_here by done.
  rewrite Hl by lia. done.
Qed.
Lemma element_last d w c w1 v :
  space_text w → value_text d c v → space_text w1 → elements_text d (w +:+ c +:+ w1 +:+ "]") [v].
Proof.
  intros [Hw _] Hv [Hw1 Hh]. split; [by destruct Hv as [(a & x & -> & _) _]; destruct w|].
  intros fuel d' t Hf Hd. rewrite !str_length_app, ?str_length_cons in Hf.
  assert (str_length c ≠ 0) by by destruct Hv as [(a & x & -> & _) _].
  destruct fuel as [|fuel]; [lia|]. rewrite !str_app_assoc, str_cons_app, parse_elements_step, Hw.
  rewrite (value_text_starts _ _ _ _ Hv). destruct Hv as [_ Hv].
  rewrite Hv by (first [lia|by apply space_then_ends]). rewrite Hw1, skip_space_done by done.
  change (after "," (String "]" ?x)) with (@None string). by rewrite after_here.
Qed.
Lemma member_then d k c0 c w1 v c' m :
  key_text c0 k → value_text d c v → space_text w1 → members_text d c' m →
  members_text d (c0 +:+ c +:+ w1 +:+ String "," c') ((k, v) :: m).
Proof.
  intros [Hk0 Hk] Hv [Hw1 Hh] [Hne Hl]. split; [by destruct c0|].
  intros fuel d' t Hf Hd. rewrite !str_length_app, ?str_length_cons in Hf.
  destruct fuel as [|fuel]; [lia|]. rewrite !str_app_assoc, str_cons_app, parse_members_step.
  rewrite Hk; [|rewrite !str_length_app; lia|by apply (value_text_starts _ _ _ _ Hv)]. destruct Hv as [_ Hv].
  rewrite Hv by (first [lia|by apply space_then_ends]). rewrite Hw1, skip_space_done, after_here by done.
  rewrite Hl by lia. done.
Qed.
Lemma member_last d k c0 c w1 v :
  key_text c0 k → value_text d c v → space_text w1 → members_text d (c0 +:+ c +:+ w1 +:+ "}") [(k, v)].
Proof.
  intros [Hk0 Hk] Hv [Hw1 Hh]. split; [by destruct c0|].
  intros fuel d' t Hf Hd. rewrite !str_length_app, ?str_length_cons in Hf.
  destruct fuel as [|fuel]; [lia|]. rewrite !str_app_assoc, str_cons_app, parse_members_step.
  rewrite Hk; [|rewrite !str_length_app; lia|by apply (value_text_starts _ _ _ _ Hv)]. destruct Hv as [_ Hv].
  rewrite Hv by (first [lia|by apply space_then_ends]). rewrite Hw1, skip_space_done by done.
  change (after "," (String "}" ?x)) with (@None string). by rewrite after_here.
Qed.

Lemma number_value_text d lit : number_text lit → value_text d lit (JNumber lit).
Proof.
  intros Hlit. pose proof (number_head lit Hlit) as (c & s & -> & Hc). split.
  - exists c, s. split; [done|]. destruct Hc as [->|Hc]; [done|]. by destruct c as [[] [] [] [] [] [] [] []].
  - intros fuel d' t Hf _ Ht. destruct fuel as [|fuel]; [simpl in Hf; lia|]. by apply parse_number_value.
Qed.
Lemma word_text d : value_text d "true" (JBool true) ∧ value_text d "false" (JBool false) ∧ value_text d "null" JNull.
Proof.
  split_and!; (split; [by do 2 eexists|]); intros fuel d' t Hf _ _; (destruct fuel as [|fuel]; [simpl in Hf; lia|]); done.
Qed.

(** The parser reads texts. *)
Definition reads_value (fuel : nat) : Prop :=
  ∀ d s v r, parse_value fuel d s = Some (v, r) → ∃ c, s = c +:+ r ∧ value_text d c v.
Definition reads_elements (fuel : nat) : Prop :=
  ∀ d s l r, parse_elements fuel d s = Some (l, r) → ∃ c, s = c +:+ r ∧ elements_text d c l.
Definition reads_members (fuel : nat) : Prop :=
  ∀ d s m r, parse_members fuel d s = Some (m, r) → ∃ c, s = c +:+ r ∧ members_text d c m.

Lemma array_cut fuel d s v r : reads_elements fuel →
  parse_value (S fuel) d (String "[" s) = Some (v, r) → ∃ c, String "[" s = c +:+ r ∧ value_text d c v.
Proof.
  intros IHe Hp. rewrite parse_container_step in Hp. destruct d as [|d]; [done|].
  destruct (after "]" (skip_space s)) as [r'|] eqn:Ha.
  { injection Hp as <- <-. apply after_space in Ha as (w & -> & Hw & _). exists (String "[" (w +:+ "]")).
    rewrite str_cons_app, str_app_assoc. split; [done|]. apply empty_text; [done..|by left]. }
  destruct (parse_elements fuel d (skip_space s)) as [[l r']|] eqn:Hl; [|done]. injection Hp as <- <-.
  apply IHe in Hl as (c & Hs & Hc). destruct (skip_space_split s) as (w & Hw0 & Hw & _).
  exists (String "[" (w +:+ c)). rewrite str_cons_app, str_app_assoc, <-Hs, <-Hw0. split; [done|].
  destruct c as [|b c]; [by destruct Hc|]. rewrite Hs, str_cons_app in Ha. rewrite str_cons_app in Hs.
  apply array_text; [done..| |].
  * intros t. rewrite str_cons_app. simpl in Ha |- *. by case_decide.
  * intros t. rewrite str_cons_app. by apply skip_space_done, (skip_space_head s b (c +:+ r')).
Qed.
Lemma object_cut fuel d s v r : reads_members fuel →
  parse_value (S fuel) d (String "{" s) = Some (v, r) → ∃ c, String "{" s = c +:+ r ∧ value_text d c v.
Proof.
  intros IHm Hp. rewrite parse_object_step in Hp. destruct d as [|d]; [done|].
  destruct (after "}" (skip_space s)) as [r'|] eqn:Ha.
  { injection Hp as <- <-. apply after_space in Ha as (w & -> & Hw & _). exists (String "{" (w +:+ "}")).
    rewrite str_cons_app, str_app_assoc. split; [done|]. apply empty_text; [done..|by right]. }
  destruct (parse_members fuel d (skip_space s)) as [[l r']|] eqn:Hl; [|done]. injection Hp as <- <-.
  apply IHm in Hl as (c & Hs & Hc). destruct (skip_space_split s) as (w & Hw0 & Hw & _).
  exists (String "{" (w +:+ c)). rewrite str_cons_app, str_app_assoc, <-Hs, <-Hw0. split; [done|].
  destruct c as [|b' c]; [by destruct Hc|]. rewrite Hs, str_cons_app in Ha. rewrite str_cons_app in Hs.
  apply object_text; [done..| |].
  * intros t. rewrite str_cons_app. simpl in Ha |- *. by case_decide.
  * intros t. rewrite str_cons_app. by apply skip_space_done, (skip_space_head s b' (c +:+ r')).
Qed.
Lemma scalar_cut fuel d a s v r : a ≠ "["%char → a ≠ "{"%char →
  parse_value (S fuel) d (String a s) = Some (v, r) → ∃ c, String a s = c +:+ r ∧ value_text d c v.
Proof.
  intros Hb Hc Hp. cbn [parse_value] in Hp. case_decide as Hq.
  { destruct (parse_string _ s) as [[t r']|] eqn:Ht; [|done]. injection Hp as <- <-. subst a.
    apply parse_string_cut in Ht as (c & -> & Hlit). exists (String "034" c).
    split; [done|]. by apply quote_text. }
  rewrite !decide_False in Hp by done. destruct (word_text d) as (Htrue & Hfalse & Hnull).
  destruct (strip_prefix "true" _) as [r'|] eqn:H1.
  { injection Hp as <- <-. apply strip_prefix_Some in H1 as ->. by eexists. }
  destruct (strip_prefix "false" _) as [r'|] eqn:H2.
  { injection Hp as <- <-. apply strip_prefix_Some in H2 as ->. by eexists. }
  destruct (strip_prefix "null" _) as [r'|] eqn:H3.
  { injection Hp as <- <-. apply strip_prefix_Some in H3 as ->. by eexists. }
  destruct (scan_number _) as [[n r']|] eqn:Hn; [|done]. injection Hp as <- <-.
  pose proof (scanned_number _ _ _ Hn) as Hlit. apply scan_number_split in Hn as (lit & Hs & _).
  rewrite Hs, consumed_app in Hlit |- *. exists lit. split; [done|]. by apply number_value_text.
Qed.
Lemma elements_cut fuel : reads_value fuel → reads_elements fuel → reads_elements (S fuel).
Proof.
  intros IHv IHe d s l r Hp. rewrite parse_elements_step in Hp.
  destruct (parse_value fuel d (skip_space s)) as [[v r1]|] eqn:Hv; [|done].
  apply IHv in Hv as (c & Hs & Hv). destruct (skip_space_split s) as (w & Hw0 & Hw). rewrite Hs in Hw0.
  destruct (after "," (skip_space r1)) as [r2|] eqn:Ha.
  + destruct (parse_elements fuel d r2) as [[l' r3]|] eqn:Hl; [|done]. injection Hp as <- <-.
    apply IHe in Hl as (c' & -> & Hl). apply after_space in Ha as (w1 & -> & Hw1 & Hh & _).
    exists (w +:+ c +:+ w1 +:+ String "," c'). split; [by rewrite Hw0, !str_app_assoc|].
    by apply element_then.
  + destruct (after "]" (skip_space r1)) as [r2|] eqn:Hb; [|done]. injection Hp as <- <-.
    apply after_space in Hb as (w1 & -> & Hw1 & Hh & _).
    exists (w +:+ c +:+ w1 +:+ "]"). split; [by rewrite Hw0, !str_app_assoc|]. by apply element_last.
Qed.
Lemma members_cut fuel : reads_value fuel → reads_members fuel → reads_members (S fuel).
Proof.
  intros IHv IHm d s l r Hp. rewrite parse_members_step in Hp.
  destruct (parse_key _ s) as [[k s1]|] eqn:Hk; [|done].
  apply parse_key_cut in Hk as (c0 & -> & Hk & Hskip).
  destruct (parse_value fuel d s1) as [[v r1]|] eqn:Hv; [|done]. apply IHv in Hv as (c & -> & Hv).
  destruct (after "," (skip_space r1)) as [r2|] eqn:Ha.
  + destruct (parse_members fuel d r2) as [[l' r3]|] eqn:Hl; [|done]. injection Hp as <- <-.
    apply IHm in Hl as (c' & -> & Hl). apply after_space in Ha as (w1 & -> & Hw1 & Hh & _).
    exists (c0 +:+ c +:+ w1 +:+ String "," c'). split; [by rewrite !str_app_assoc|]. by apply member_then.
  + destruct (after "}" (skip_space r1)) as [r2|] eqn:Hb; [|done]. injection Hp as <- <-.
    apply after_space in Hb as (w1 & -> & Hw1 & Hh & _).
    exists (c0 +:+ c +:+ w1 +:+ "}"). split; [by rewrite !str_app_assoc|]. by apply member_last.
Qed.
Lemma parse_cut fuel : reads_value fuel ∧ reads_elements fuel ∧ reads_members fuel.
Proof.
  induction fuel as [|fuel (IHv & IHe & IHm)]; [done|].
  split_and!; [|by apply elements_cut|by apply members_cut].
  intros d s v r Hp. destruct s as [|a s]; [done|].
  destruct (decide (a = "["%char)) as [->|Hb]; [by apply (array_cut fuel)|].
  destruct (decide (a = "{"%char)) as [->|Hc]; [by apply (object_cut fuel)|by apply (scalar_cut fuel)].
Qed.
