(* ===== verification/Schema.v ===== *)
(** The workflow contract of [runtime/src/core/workflow]: [schema.go], the node kinds
    declared in [workspace.go], [delivery.go] and [extension.go], the resources of
    [resources.go], and the identifier checks of [json.go].

    A Go string enumeration is [string] with named constants; a closed interface is an
    inductive type with one constructor per implementation; a pointer is an [option];
    an interface field that may hold [nil] has a [Nil] constructor or is an [option]. *)
From S2P Require Import Prelude GoStrings GoJson.
From Stdlib Require Import Ascii.
From stdpp Require Import options.

(** * Identifiers and digests *)
Abbreviation Identifier := string (only parsing).

Definition identifier_char (c : ascii) : bool :=
  is_lower c || is_digit c || bool_decide (c = "_"%char).

(** [identifierPattern]: a lower-case letter and at most 63 more characters. *)
Definition identifierPattern (s : string) : bool :=
  match s with
  | EmptyString => false
  | String c s => is_lower c && str_forall identifier_char s && (str_length s <=? 63)
  end.

(** [digestPattern]: 64 lower-case hexadecimal digits. *)
Definition digestPattern (s : string) : bool :=
  (str_length s =? 64) && str_forall is_hex_lower s.

(** * Value types *)
Abbreviation ValueType := string (only parsing).
Definition ValueTask : ValueType := "task".
Definition ValueRepository : ValueType := "repository".
Definition ValueWorkspace : ValueType := "workspace".
Definition ValueTemplate : ValueType := "template".
Definition ValueMarkdown : ValueType := "markdown".
Definition ValueOpenItems : ValueType := "open_items".
Definition ValueDecisionLog : ValueType := "decision_log".
Definition ValueNull : ValueType := "null".
Definition ValueBoolean : ValueType := "boolean".
Definition ValueInteger : ValueType := "integer".
Definition ValueNumber : ValueType := "number".
Definition ValueString : ValueType := "string".
Definition ValueArray : ValueType := "array".
Definition ValueObject : ValueType := "object".

Definition StorageType (value : ValueType) : ValueType :=
  if HasPrefix value "schema:" then ValueObject
  else if decide (value = ValueMarkdown) then ValueString
  else if decide (value ∈ [ValueTask; ValueRepository; ValueWorkspace; ValueTemplate;
                           ValueOpenItems; ValueDecisionLog]) then ValueObject
  else value.

(** * Predicates *)
Inductive Operand :=
| ReferenceOperand (Ref : string)
| LiteralOperand (Literal : RawMessage)
| NilOperand.

Definition CompareEqual := "eq".
Definition CompareNotEqual := "ne".
Definition CompareLess := "lt".
Definition CompareLessOrEqual := "lte".
Definition CompareGreater := "gt".
Definition CompareGreaterOrEqual := "gte".
Definition LogicalAll := "all".
Definition LogicalAny := "any".

Inductive Predicate :=
| ConstantPredicate (Value : bool)
| ComparisonPredicate (Operator : string) (Arg0 Arg1 : Operand)
| PresentPredicate (Reference : string)
| LogicalPredicate (Operator : string) (Args : list Predicate)
| NotPredicate (Arg : Predicate)
| NilPredicate.

Definition is_nil_predicate (p : Predicate) : bool :=
  match p with NilPredicate => true | _ => false end.

(** * Transitions and joins *)
Record TransitionFields := {
  tf_TransitionID : Identifier;
  tf_To : Identifier;
  tf_When : Predicate;
  tf_EnabledByDefault : option bool;
}.

Inductive Transition :=
| NormalTransition (Common : TransitionFields)
| BoundedTransition (Common : TransitionFields) (MaxTraversals : Z).

Definition transitionFields (transition : Transition) : TransitionFields :=
  match transition with
  | NormalTransition c => c
  | BoundedTransition c _ => c
  end.
Definition ID (t : Transition) : Identifier := tf_TransitionID (transitionFields t).
Definition Target (t : Transition) : Identifier := tf_To (transitionFields t).

(** [transitionEnabled] and [transitionAlwaysFires] of [validate.go]. *)
Definition transitionEnabled (t : Transition) : bool :=
  match tf_EnabledByDefault (transitionFields t) with
  | None => true
  | Some b => b
  end.
Definition transitionAlwaysFires (t : Transition) : bool :=
  match tf_When (transitionFields t) with
  | NilPredicate => true
  | ConstantPredicate b => b
  | _ => false
  end.

Abbreviation TransitionMode := string (only parsing).
Definition TransitionExclusive : TransitionMode := "exclusive".
Definition TransitionFanout : TransitionMode := "fanout".
Abbreviation JoinMode := string (only parsing).
Definition JoinOne : JoinMode := "one".
Definition JoinAll : JoinMode := "all".

Record Join := { join_Mode : JoinMode; join_From : list Identifier }.

(** * Bindings, declarations and policies *)
Inductive Binding :=
| RequiredBinding (From Pointer : string) (Type_ : ValueType) (Description : string)
| OptionalBinding (From Pointer : string) (Type_ : ValueType) (Default : option RawMessage)
    (Description : string).

Definition Source (b : Binding) : string :=
  match b with
  | RequiredBinding from _ _ _ => from
  | OptionalBinding from _ _ _ _ => from
  end.
Definition BindingValueType (b : Binding) : ValueType :=
  match b with
  | RequiredBinding _ _ t _ => t
  | OptionalBinding _ _ t _ _ => t
  end.
Definition bindingPointer (b : Binding) : string :=
  match b with
  | RequiredBinding _ p _ _ => p
  | OptionalBinding _ p _ _ _ => p
  end.

Record ContentReference := { cr_ID : string; cr_Version : string; cr_Digest : string }.

Inductive ResourceSource :=
| ArtifactResource (Filename Content : string)
| TaskResource
| RepositoryResource
| TemplateResource (Content Version : string) (RequiredHeadings : list string)
| TemplateReferenceResource (Reference : ContentReference)
| ConstantResource (Value : RawMessage)
| ConfigResource (Key : string)
| OpenItemsResource
| DecisionLogResource.

Record ValueDeclaration := {
  vd_Resource : option ResourceSource;
  vd_SchemaDefinition : RawMessage;
  vd_Type : ValueType;
  vd_Schema : string;
  vd_Description : string;
}.

Record ArtifactContract := { ac_Filename : string; ac_TemplateInput : Identifier }.

Record OutputDeclaration := {
  od_Artifact : option ArtifactContract;
  od_SchemaDefinition : RawMessage;
  od_Type : ValueType;
  od_Schema : string;
  od_Description : string;
  od_Required : option bool;
}.

Inductive NodeDefinitionRef :=
| BuiltInNodeDefinitionRef (Name Version : string)
| ProjectNodeDefinitionRef (ProjectID Name Version : string)
| UserNodeDefinitionRef (UserID Name Version : string).
Record ResolvedNodeDefinitionRef := {
  rnd_Ref : option NodeDefinitionRef;
  rnd_Digest : string;
}.

Record EvidenceRequirement := { er_Role : Identifier; er_Description : string }.
Record ReadinessPolicyGate := {
  rpg_Policy : Identifier; rpg_Enforcement : string; rpg_Description : string;
}.
Record ReadinessRemedy := {
  rr_Code : Identifier; rr_Target : Identifier; rr_Action : string; rr_Description : string;
}.
Record ReadinessContract := {
  rc_RecommendedEvidence : list EvidenceRequirement;
  rc_PolicyGates : list ReadinessPolicyGate;
  rc_Invariants : list string;
  rc_Remedies : list ReadinessRemedy;
}.

Record ExtensionRef := { xr_ID : string; xr_Version : string; xr_Digest : string }.
Record ExtensionExecutor := { xe_Ref : ExtensionRef; xe_Configuration : RawMessage }.

Inductive Validator :=
| SchemaValidator (Output : Identifier) (Schema : string)
| CommandValidator (Command : list string)
| ExtensionValidator (Extension : ExtensionExecutor).

Record RetryPolicy := { rp_MaxAttempts : Z; rp_On : list string }.

Inductive Checkpoint :=
| NoCheckpoint
| AcknowledgeCheckpoint
| ApproveCheckpoint (MaxRevisions : option Z)
| ApproveOnChangeCheckpoint (When : Predicate) (MaxRevisions : option Z)
| ExternalCheckpoint (ExternalCondition : string).

(** * Nodes *)
Record NodeFields := {
  nf_Prompt : option ContentReference;
  nf_DisplayName : string;
  nf_Definition : option ResolvedNodeDefinitionRef;
  nf_Entry : bool;
  nf_Terminal : bool;
  nf_Inputs : gmap Identifier Binding;
  nf_Outputs : gmap Identifier OutputDeclaration;
  nf_Readiness : option ReadinessContract;
  nf_Validators : list Validator;
  nf_Retry : option RetryPolicy;
  nf_Checkpoint : option Checkpoint;
  nf_TransitionMode : TransitionMode;
  nf_Join : option Join;
  nf_Permissions : list string;
  nf_Transitions : list Transition;
}.

Record ImplementationExecutor := {
  ie_TaskInput : Identifier; ie_WorkspaceInput : Identifier; ie_Instructions : string;
}.
Record RoutingBranch := { rb_Name : Identifier; rb_Transition : Identifier }.
Record RoutingExecutor := {
  re_Agent : string;
  re_Branches : list RoutingBranch;
  re_RouteOutput : Identifier;
  re_RationaleOutput : Identifier;
  re_AdviceOutput : Identifier;
  re_MissingInformationOutput : Identifier;
  re_AssumptionsOutput : Identifier;
  re_ConfirmationOutput : Identifier;
}.
Record PointExecutionExecutor := {
  pe_PlanInput : Identifier;
  pe_Approval : string;
  pe_RiskTags : list string;
  pe_Validation : string;
  pe_Publishing : string;
}.
Record ReasoningExecutor := {
  rx_Instructions : string; rx_Agent : string; rx_Skills : list string; rx_Tools : list string;
}.
Record GateExecutor := { ge_Policy : string; ge_Condition : Predicate }.
Record CommandExecutor := {
  ce_Argv : list string; ce_CWD : string; ce_TimeoutSeconds : option Z;
}.
Inductive ApprovalExecutor :=
| NamedApproval (Name : string)
| ExternalApproval (ExternalCondition : string) (EvidenceOutput : Identifier).
Record WorkflowReference := {
  wr_Name : string; wr_Version : string; wr_Digest : string; wr_Path : string;
}.
Record SubworkflowCall := {
  sc_Workflow : WorkflowReference;
  sc_Entry : Identifier;
  sc_Terminals : list Identifier;
  sc_Inputs : gmap Identifier Identifier;
  sc_Outputs : gmap Identifier string;
}.
Inductive CheckoutPlan :=
| CurrentCheckout
| NewWorktree (BaseRef Branch : string).
Record WorkspacePrepareExecutor := {
  wp_RepositoryInput : Identifier; wp_Checkout : option CheckoutPlan;
}.
Record WorkspaceValidateExecutor := {
  wv_WorkspaceInput : Identifier; wv_Checks : list (list string);
}.
Record GitCommitExecutor := {
  gc_WorkspaceInput : Identifier; gc_ChangesetInput : Identifier; gc_TextInput : Identifier;
}.
Record GitPushExecutor := {
  gp_WorkspaceInput : Identifier; gp_CommitInput : Identifier; gp_Remote : string;
}.
Record CreatePRExecutor := {
  pr_WorkspaceInput : Identifier; pr_BranchInput : Identifier; pr_TextInput : Identifier;
  pr_Base : string; pr_Draft : bool;
}.

Inductive Node :=
| ReasoningNode (Common : NodeFields) (Executor : ReasoningExecutor)
| ImplementationNode (Common : NodeFields) (Executor : ImplementationExecutor)
| GateNode (Common : NodeFields) (Executor : GateExecutor)
| CommandNode (Common : NodeFields) (Executor : CommandExecutor)
| ApprovalNode (Common : NodeFields) (Executor : ApprovalExecutor)
| SubworkflowNode (Common : NodeFields) (Call : SubworkflowCall)
| PointExecutionNode (Common : NodeFields) (Executor : PointExecutionExecutor)
| RoutingNode (Common : NodeFields) (Executor : RoutingExecutor)
| WorkspacePrepareNode (Common : NodeFields) (Executor : WorkspacePrepareExecutor)
| WorkspaceValidateNode (Common : NodeFields) (Executor : WorkspaceValidateExecutor)
| GitCommitNode (Common : NodeFields) (Executor : GitCommitExecutor)
| GitPushNode (Common : NodeFields) (Executor : GitPushExecutor)
| CreatePRNode (Common : NodeFields) (Executor : CreatePRExecutor)
| ExtensionNode (Common : NodeFields) (Executor : ExtensionExecutor).

Definition Fields (n : Node) : NodeFields :=
  match n with
  | ReasoningNode c _ | ImplementationNode c _ | GateNode c _ | CommandNode c _
  | ApprovalNode c _ | SubworkflowNode c _ | PointExecutionNode c _ | RoutingNode c _
  | WorkspacePrepareNode c _ | WorkspaceValidateNode c _ | GitCommitNode c _
  | GitPushNode c _ | CreatePRNode c _ | ExtensionNode c _ => c
  end.

Abbreviation NodeType := string (only parsing).
Definition NodeTypeOf (n : Node) : NodeType :=
  match n with
  | ReasoningNode _ _ => "reasoning"
  | ImplementationNode _ _ => "implementation"
  | GateNode _ _ => "gate"
  | CommandNode _ _ => "command"
  | ApprovalNode _ _ => "approval"
  | SubworkflowNode _ _ => "subworkflow"
  | PointExecutionNode _ _ => "point_execution"
  | RoutingNode _ _ => "routing"
  | WorkspacePrepareNode _ _ => "workspace_prepare"
  | WorkspaceValidateNode _ _ => "workspace_validate"
  | GitCommitNode _ _ => "git_commit"
  | GitPushNode _ _ => "git_push"
  | CreatePRNode _ _ => "create_pr"
  | ExtensionNode _ _ => "extension"
  end.

(** * Documents *)
Record Metadata := {
  md_Name : string; md_Version : string; md_DisplayName : string; md_Description : string;
}.
Record RouteDefaults := { rd_Entry : Identifier; rd_Terminals : list Identifier }.
Record RouteProfile := {
  rpf_Description : string;
  rpf_Entry : Identifier;
  rpf_Terminals : list Identifier;
  rpf_InputDefaults : gmap Identifier RawMessage;
}.
Record Spec := {
  spec_Inputs : gmap Identifier ValueDeclaration;
  spec_RouteDefaults : RouteDefaults;
  spec_Profiles : gmap Identifier RouteProfile;
  spec_Nodes : gmap Identifier Node;
}.
Record Document := {
  doc_APIVersion : string;
  doc_Kind : string;
  doc_Metadata : Metadata;
  doc_Spec : Spec;
}.

Definition nodes_of (document : Document) : gmap Identifier Node := spec_Nodes (doc_Spec document).

(** * Errors of the workflow package *)
Record FrameError := {
  fe_Code : string; fe_Message : msg; fe_Location : string; fe_TransitionID : Identifier;
}.

(** [validateIdentifier] and [validateIdentifierList]. *)
Definition validateIdentifier (identifier : Identifier) : result msg unit :=
  guard? identifierPattern identifier orelse Msg "invalid identifier %q" [AStr identifier] in
  Ok tt.

Definition unique_identifier (unique : bool) (seen : gset Identifier) (value : Identifier)
  : result msg (gset Identifier) :=
  let? _ := validateIdentifier value in
  if unique then
    if decide (value ∈ seen) then Err (Msg "duplicate identifier %q" [AStr value])
    else Ok ({[value]} ∪ seen)
  else Ok seen.

Definition validateIdentifierList (values : list Identifier) (unique : bool) : result msg unit :=
  let? seen := foldM (unique_identifier unique) ∅ values in
  Ok tt.

(** * Facts *)
Lemma validateIdentifier_Ok s : validateIdentifier s = Ok tt ↔ identifierPattern s = true.
Proof. unfold validateIdentifier. destruct (identifierPattern s); naive_solver. Qed.

Lemma identifierPattern_nonempty s : identifierPattern s = true → s ≠ "".
Proof. by destruct s. Qed.

Lemma validateIdentifierList_aux unique seen values seen' :
  foldM (unique_identifier unique) seen values = Ok seen' →
  Forall (λ x, identifierPattern x = true) values ∧
  (unique = true → NoDup values ∧ ∀ x, x ∈ values → x ∉ seen).
Proof.
  revert seen. induction values as [|x values IH]; intros seen Hf; simpl in Hf.
  { split; [constructor|]. intros _. split; [constructor|set_solver]. }
  apply result_bind_Ok in Hf as (s1 & Hx & Hf). apply result_bind_Ok in Hx as ([] & Hid & Hx).
  apply validateIdentifier_Ok in Hid. apply IH in Hf as [Hall Hu].
  split; [by constructor|]. intros ->. case_decide as Hseen; [done|].
  injection Hx as <-. destruct (Hu eq_refl) as [Hnd Hns].
  split; [constructor; set_solver|]. set_solver.
Qed.

(** An accepted list has valid, and if asked distinct, identifiers. *)
Lemma validateIdentifierList_Ok values unique :
  validateIdentifierList values unique = Ok tt →
  Forall (λ x, identifierPattern x = true) values ∧ (unique = true → NoDup values).
Proof.
  unfold validateIdentifierList. intros (s & Hf & _)%result_bind_Ok.
  apply validateIdentifierList_aux in Hf as [? Hu]. split; [done|]. intros ->. by apply Hu.
Qed.
