(* ===== verification/Identity.v ===== *)
(** Pinned references: [Ref.Validate] of [ports/extension/extension.go], [Reference.Validate] and
    [ValidateVersion] of [ports/contentstore/content.go], and the name and version patterns of
    [core/workflow/json.go]. *)
From S2P Require Import Prelude GoStrings GoJson Schema.
From stdpp Require Import options.

Definition is_upper (c : ascii) : bool := in_range 65 90 c.
Definition is_letter_or_digit (c : ascii) : bool := is_lower c || is_upper c || is_digit c.

(** [strings.Cut] at the first separator. *)
Definition Cut (s : string) (sep : ascii) : string * option string :=
  match Split s sep with
  | first :: ((_ :: _) as rest) => (first, Some (GoStrings.Join rest (String sep "")))
  | _ => (s, None)
  end.

(** * Extensions *)
Definition ext_char (extra : list ascii) (c : ascii) : bool :=
  is_lower c || is_digit c || bool_decide (c ∈ extra).
Definition extension_identifier (s : string) : bool :=
  match Split s "/"%char with
  | [String a namespace; String b name] =>
      is_lower a && str_forall (ext_char ["."; "-"]%char) namespace &&
      is_lower b && str_forall (ext_char ["."; "_"; "-"]%char) name
  | _ => false
  end.
Definition release (s : string) : bool :=
  match Split s "."%char with
  | [major; minor; patch] => all_digits major && all_digits minor && all_digits patch
  | _ => false
  end.
Definition prerelease (s : string) : bool :=
  bool_decide (s ≠ "") && str_forall (λ c, is_upper c || ext_char ["."; "-"]%char c) s.
Definition extension_version (s : string) : bool :=
  match Split s "-"%char with
  | [core] => release core
  | core :: rest => release core && prerelease (GoStrings.Join rest "-")
  | [] => false
  end.
Definition valid_extension_ref (ref : ExtensionRef) : bool :=
  extension_identifier (xr_ID ref) && extension_version (xr_Version ref) &&
  digestPattern (xr_Digest ref).

(** * Workflows *)
(** [workflowNamePattern]: a lower-case letter and at most 127 more characters. *)
Definition workflowNamePattern (s : string) : bool :=
  match s with
  | String c s => is_lower c && str_forall (ext_char ["."; "_"; "/"; "-"]%char) s && (str_length s <=? 127)
  | EmptyString => false
  end.
(** [semanticVersionPattern] of json.go is the version pattern of extensions. *)
Definition semanticVersionPattern : string → bool := extension_version.

(** * Content *)
Definition content_identifier (s : string) : bool :=
  match s with
  | String c s =>
      is_letter_or_digit c &&
      str_forall (λ c, is_letter_or_digit c || bool_decide (c ∈ ["."; "_"; "-"]%char)) s && (str_length s <=? 127)
  | EmptyString => false
  end.
(** No leading zero. *)
Definition canonical_number (s : string) : bool :=
  all_digits s && (bool_decide (s = "0") || negb (HasPrefix s "0")).
Definition dotted_identifiers (s : string) : bool :=
  forallb (λ part, bool_decide (part ≠ "") &&
                   str_forall (λ c, is_letter_or_digit c || bool_decide (c = "-"%char)) part) (Split s "."%char).
Definition optional_identifiers (s : option string) : bool :=
  match s with Some s => dotted_identifiers s | None => true end.
(** [semanticVersionPattern] of content.go. *)
Definition content_version_pattern (s : string) : bool :=
  let '(before, build) := Cut s "+"%char in
  let '(core, pre) := Cut before "-"%char in
  match Split core "."%char with
  | [major; minor; patch] => canonical_number major && canonical_number minor && canonical_number patch
  | _ => false
  end && optional_identifiers pre && optional_identifiers build.
Definition ValidateVersion (version : string) : bool :=
  (str_length version <=? 128)%nat && content_version_pattern version &&
  let '(_, pre) := Cut (Cut version "+"%char).1 "-"%char in
  match pre with
  | Some pre => forallb (λ part, negb ((1 <? str_length part)%nat && HasPrefix part "0" && all_digits part))
                  (Split pre "."%char)
  | None => true
  end.
Definition valid_content_reference (ref : ContentReference) : bool :=
  content_identifier (cr_ID ref) && ValidateVersion (cr_Version ref) && digestPattern (cr_Digest ref).

Example versions_ex :
  (ValidateVersion <$> ["1.2.3"; "1.0.0-rc.1+b-7.x"; "1.02.3"; "1.2.3-01"; "1.2.3-"; "1.2"; "1.2.3+a+b"]) =
    [true; true; false; false; false; false; false] ∧
  (semanticVersionPattern <$> ["1.02.3-.-"; "1.2.3-"; "1.2.3+a"]) = [true; false; false] ∧
  workflowNamePattern "team/build-1" = true.
Proof. vm_compute. split_and!; reflexivity. Qed.
