(* ===== verification/Issues.v ===== *)
(** Validation errors and their order: [runtime/src/core/workflow/validate.go]. *)
From S2P Require Import Prelude GoStrings GoJson GoEncode GoSort Schema.
From stdpp Require Import options.

Abbreviation ValidationCode := string (only parsing).
Definition ValidationSchemaInvalid : ValidationCode := "WF_SCHEMA_INVALID".
Definition ValidationReferenceMissing : ValidationCode := "WF_REFERENCE_MISSING".
Definition ValidationBindingIncompatible : ValidationCode := "WF_BINDING_INCOMPATIBLE".
Definition ValidationReasoningEdgeInvalid : ValidationCode := "WF_REASONING_EDGE_INVALID".
Definition ValidationGateInvalid : ValidationCode := "WF_GATE_INVALID".
Definition ValidationUnreachableNode : ValidationCode := "WF_UNREACHABLE_NODE".
Definition ValidationUnboundedCycle : ValidationCode := "WF_UNBOUNDED_CYCLE".
Definition ValidationJoinInvalid : ValidationCode := "WF_JOIN_INVALID".
Definition ValidationDefaultRouteInvalid : ValidationCode := "WF_DEFAULT_ROUTE_INVALID".
Definition ValidationCapabilityMissing : ValidationCode := "CAPABILITY_REQUIRED_MISSING".
Definition ValidationReadinessInvalid : ValidationCode := "WF_READINESS_INVALID".
Definition ValidationRoutingInvalid : ValidationCode := "WF_ROUTING_INVALID".
Definition ValidationDefinitionInvalid : ValidationCode := "WF_NODE_DEFINITION_INVALID".

(** One semantic error; [None] details are a nil map. *)
Record ValidationError := {
  ve_Code : ValidationCode;
  ve_Message : msg;
  ve_Location : string;
  ve_Details : option (gmap string (list string));
}.
Abbreviation ValidationErrors := (list ValidationError).

#[global] Instance ValidationError_eq_dec : EqDecision ValidationError.
Proof. solve_decision. Defined.

Definition encode_details (details : option (gmap string (list string))) : string :=
  match details with
  | None => "null"
  | Some m => encode_map ((λ values, encode_slice (encode_string <$> values)) <$> m)
  end.

(** The comparison of [sortValidationErrors]. *)
Definition error_less (x y : ValidationError) : bool :=
  lexicographic (ve_Location x) (ve_Location y)
    (lexicographic (ve_Code x) (ve_Code y)
      (String.ltb (encode_details (ve_Details x)) (encode_details (ve_Details y)))).

Definition sortValidationErrors (errors : ValidationErrors) : ValidationErrors :=
  stable_sort error_less errors.

Lemma sortValidationErrors_nil errors : sortValidationErrors errors = [] ↔ errors = [].
Proof. apply stable_sort_nil. Qed.

(** ** [error_less] is a strict weak order *)
Lemma error_less_asym x y : error_less x y = true → error_less y x = false.
Proof. unfold error_less. apply lexicographic_asym, lexicographic_asym, ltb_asym. Qed.

Lemma error_less_trans x y z :
  error_less y x = false → error_less z y = false → error_less z x = false.
Proof. unfold error_less. apply lexicographic_trans, lexicographic_trans, ltb_trans_false. Qed.

(** [sortValidationErrors] returns the same errors, ordered by location, code and encoded
    details, and keeps the order of the errors that agree on all three. *)
Lemma sortValidationErrors_spec errors :
  sortValidationErrors errors ≡ₚ errors ∧
  StronglySorted (λ x y, error_less y x = false) (sortValidationErrors errors) ∧
  ∀ x, filter (λ y, error_less x y = false ∧ error_less y x = false)
         (sortValidationErrors errors) =
       filter (λ y, error_less x y = false ∧ error_less y x = false) errors.
Proof.
  split_and!.
  - apply stable_sort_perm.
  - apply stable_sort_sorted; [apply error_less_asym|apply error_less_trans].
  - intros x. apply stable_sort_filter. intros y z [Hxy Hyx] [Hxz Hzx].
    by apply (error_less_trans _ x).
Qed.
