(* ===== verification/Cycle.v ===== *)
(** Cycle detection by colours: [validateCycles] of [runtime/src/core/workflow/validate.go].

    A node is white (absent), grey (1) while its successors are visited, black (2) after. *)
From S2P Require Import Prelude GoGraph Schema.
From stdpp Require Import options.

Abbreviation Colors := (gmap Identifier Z).
Definition color (colors : Colors) (id : Identifier) : Z := default 0%Z (colors !! id).

Section visit.
Variable normalGraph : Identifier → list Identifier.

(** The loop over the targets of a node, given how a white target is visited. *)
Fixpoint visit_targets (visit : Colors → Identifier → option (bool * Colors))
    (targets : list Identifier) (colors : Colors) : option (bool * Colors) :=
  match targets with
  | [] => Some (false, colors)
  | target :: targets =>
      if decide (color colors target = 1%Z) then Some (true, colors)
      else if decide (color colors target = 0%Z) then
        match visit colors target with
        | Some (false, colors) => visit_targets visit targets colors
        | stopped => stopped
        end
      else visit_targets visit targets colors
  end.

(** The closure [visit]: whether a cycle was found, and the colours.  The fuel bounds the depth
    of the recursion. *)
Fixpoint visit (fuel : nat) (colors : Colors) (nodeID : Identifier) : option (bool * Colors) :=
  match fuel with
  | O => None
  | S fuel =>
      match visit_targets (visit fuel) (sort_strings (normalGraph nodeID))
              (<[nodeID := 1%Z]> colors) with
      | Some (false, colors) => Some (false, <[nodeID := 2%Z]> colors)
      | stopped => stopped
      end
  end.

(** The loop over all nodes. *)
Fixpoint visit_all (fuel : nat) (nodeIDs : list Identifier) (colors : Colors)
  : option (bool * Colors) :=
  match nodeIDs with
  | [] => Some (false, colors)
  | nodeID :: nodeIDs =>
      if decide (color colors nodeID = 0%Z) then
        match visit fuel colors nodeID with
        | Some (false, colors) => visit_all fuel nodeIDs colors
        | stopped => stopped
        end
      else visit_all fuel nodeIDs colors
  end.

Definition has_cycle (nodeIDs : list Identifier) : bool :=
  match visit_all (length nodeIDs) nodeIDs ∅ with
  | Some (found, _) => found
  | None => false
  end.

(** * Correctness *)
Abbreviation step := (edge normalGraph).
Definition acyclic_below : Identifier → Prop := Acc (λ y x, step x y).

Lemma sorted_edge x y : y ∈ sort_strings (normalGraph x) ↔ step x y.
Proof. apply elem_of_sort_strings. Qed.

Lemma acyclic_below_no_cycle x : acyclic_below x → ¬ tc step x x.
Proof.
  induction 1 as [x _ IH]. intros Ht.
  assert (∃ y, step x y ∧ rtc step y x) as (y & Hxy & Hyx).
  { inversion Ht as [|? y ? Hxy Hyx]; subst; [exists x; split; [done|apply rtc_refl]|].
    exists y. split; [done|by apply tc_rtc]. }
  apply (IH y Hxy). by eapply tc_rtc_l; [|apply tc_once].
Qed.

Definition grey (colors : Colors) (x : Identifier) : Prop := color colors x = 1%Z.
Definition black (colors : Colors) (x : Identifier) : Prop := color colors x = 2%Z.

(** The invariant of the colours, and what a visit without a cycle does to them. *)
Record well_colored (colors : Colors) : Prop := {
  wc_black x : black colors x → acyclic_below x;
  wc_range x c : colors !! x = Some c → c = 1%Z ∨ c = 2%Z;
}.
Record visited (before after : Colors) : Prop := {
  vd_colored : well_colored after;
  vd_grey x : grey after x ↔ grey before x;
  vd_black x : black before x → black after x;
  vd_dom : (dom before : gset Identifier) ⊆ dom after;
}.

Lemma visited_trans c1 c2 c3 : visited c1 c2 → visited c2 c3 → visited c1 c3.
Proof.
  intros [_ Hg1 Hb1 Hd1] [? Hg2 Hb2 Hd2]. split; [done| |auto|set_solver].
  intros x. by rewrite Hg2.
Qed.

Lemma color_insert colors x c y : color (<[x := c]> colors) y = if decide (y = x) then c else color colors y.
Proof.
  unfold color. case_decide as Hy; [subst; by rewrite lookup_insert_eq|by rewrite lookup_insert_ne].
Qed.

Section nodes.
Variable U : gset Identifier.
Hypothesis HU : ∀ x y, step x y → y ∈ U.

Definition unvisited (colors : Colors) : nat := size (U ∖ dom colors).

(** What the visit of a white node promises, given the fuel. *)
Definition visit_promise (fuel : nat) : Prop := ∀ colors n,
  n ∈ U → color colors n = 0%Z → well_colored colors → (∀ x, grey colors x → rtc step x n) →
  unvisited colors ≤ fuel →
  ∃ found colors', visit fuel colors n = Some (found, colors') ∧
    if (found : bool) then ∃ x, tc step x x else visited colors colors' ∧ black colors' n.

Lemma unvisited_mono c1 c2 : (dom c1 : gset Identifier) ⊆ dom c2 → unvisited c2 ≤ unvisited c1.
Proof. intros Hd. clear -Hd. unfold unvisited. apply subseteq_size. set_solver. Qed.

Lemma visit_targets_spec fuel parent targets colors :
  visit_promise fuel → (∀ y, y ∈ targets → step parent y) → well_colored colors →
  grey colors parent → (∀ x, grey colors x → rtc step x parent) → unvisited colors ≤ fuel →
  ∃ found colors', visit_targets (visit fuel) targets colors = Some (found, colors') ∧
    if (found : bool) then ∃ x, tc step x x
    else visited colors colors' ∧ ∀ y, y ∈ targets → black colors' y.
Proof using HU.
  intros Hvisit. revert colors. induction targets as [|t targets IH]; intros colors Ht Hw Hp Hg Hf; simpl.
  { exists false, colors. split; [done|]. split; [by split|]. by intros y ?%elem_of_nil. }
  assert (step parent t) as Hpt by (apply Ht; by left).
  assert (∀ y, y ∈ targets → step parent y) as Ht' by (intros y ?; apply Ht; by right).
  case_decide as H1.
  { exists true, colors. split; [done|]. exists t. eapply tc_rtc_l; [by apply Hg|by apply tc_once]. }
  case_decide as H0.
  - destruct (Hvisit colors t) as (found & c1 & -> & Hc1); [by eapply HU|done..| |done|].
    { intros x Hx. eapply rtc_r; [by apply Hg|done]. }
    destruct found; [by exists true, c1|]. destruct Hc1 as [Hv1 Hb1].
    destruct (IH c1 Ht') as (found & c2 & -> & Hc2).
    { apply Hv1. }
    { by apply (vd_grey _ _ Hv1). }
    { intros x Hx. by apply Hg, (vd_grey _ _ Hv1). }
    { pose proof (unvisited_mono _ _ (vd_dom _ _ Hv1)). lia. }
    destruct found; [by exists true, c2|]. destruct Hc2 as [Hv2 Hb2].
    exists false, c2. split; [done|]. split; [by eapply visited_trans|].
    intros y [->|Hy]%elem_of_cons; [by apply (vd_black _ _ Hv2)|by apply Hb2].
  - destruct (IH colors Ht' Hw Hp Hg Hf) as (found & c2 & -> & Hc2).
    exists found, c2. split; [done|]. destruct found; [done|]. destruct Hc2 as [Hv Hb].
    split; [done|]. intros y [->|Hy]%elem_of_cons; [|by apply Hb].
    apply (vd_black _ _ Hv). unfold black, color in *. destruct (colors !! t) as [c|] eqn:Hc; simpl in *; [|done].
    by destruct (wc_range _ Hw t c Hc) as [->| ->].
Qed.

Lemma visit_spec fuel : visit_promise fuel.
Proof using HU.
  induction fuel as [|fuel IH]; intros colors n Hn H0 Hw Hg Hf.
  { exfalso. assert (n ∈ U ∖ dom colors) as Hin.
    { apply elem_of_difference. split; [done|]. intros [c Hc]%elem_of_dom.
      unfold color in H0. rewrite Hc in H0. simpl in H0. by destruct (wc_range _ Hw n c Hc) as [->| ->]. }
    unfold unvisited in Hf. assert (U ∖ dom colors ≡ ∅) as Hempty by (apply size_empty_iff; lia). set_solver. }
  simpl. set (c1 := <[n := 1%Z]> colors).
  destruct (visit_targets_spec fuel n (sort_strings (normalGraph n)) c1) as (found & c2 & -> & Hc2).
  { done. }
  { intros y. by rewrite sorted_edge. }
  { split.
    - intros x. unfold black, c1. rewrite color_insert. case_decide; [done|]. apply (wc_black _ Hw).
    - intros x c [[<- <-]|[? Hx]]%lookup_insert_Some; [by left|by eapply wc_range]. }
  { unfold grey, c1. rewrite color_insert. by case_decide. }
  { intros x. unfold grey, c1. rewrite color_insert. case_decide; [by subst|]. apply Hg. }
  { unfold unvisited, c1. rewrite dom_insert_L.
    assert (size ({[n]} ∪ U ∖ ({[n]} ∪ dom colors)) ≤ unvisited colors) as Hs.
    { unfold unvisited. apply subseteq_size. intros x Hx. apply elem_of_union in Hx as [->%elem_of_singleton|Hx]; [|set_solver].
      apply elem_of_difference. split; [done|]. intros [c Hc]%elem_of_dom.
      unfold color in H0. rewrite Hc in H0. simpl in H0. by destruct (wc_range _ Hw n c Hc) as [->| ->]. }
    rewrite size_union, size_singleton in Hs by set_solver. lia. }
  destruct found; [by exists true, c2|]. destruct Hc2 as [Hv Hb].
  eexists false, _. split; [done|]. split; [|unfold black; rewrite color_insert; by case_decide].
  split; [split| | |].
  - intros x. unfold black. rewrite color_insert. case_decide as Hx; [|apply (wc_black _ (vd_colored _ _ Hv))].
    intros _. subst x. constructor. intros y Hy. apply (wc_black _ (vd_colored _ _ Hv)), Hb.
    by apply sorted_edge.
  - intros x c [[<- <-]|[? Hx]]%lookup_insert_Some; [by right|]. by eapply (wc_range _ (vd_colored _ _ Hv)).
  - intros x. unfold grey. rewrite color_insert. case_decide as Hx.
    + subst. by rewrite H0.
    + etrans; [apply (vd_grey _ _ Hv)|]. unfold grey, c1. rewrite color_insert. by case_decide.
  - intros x Hx. unfold black. rewrite color_insert. case_decide as Hxn; [done|].
    apply (vd_black _ _ Hv). unfold black, c1. rewrite color_insert. by case_decide.
  - intros x Hx. rewrite dom_insert_L. pose proof (vd_dom _ _ Hv) as Hd. unfold c1 in Hd. set_solver.
Qed.

Lemma visit_all_spec fuel nodeIDs colors :
  (∀ n, n ∈ nodeIDs → n ∈ U) → well_colored colors → (∀ x, ¬ grey colors x) → unvisited colors ≤ fuel →
  ∃ found colors', visit_all fuel nodeIDs colors = Some (found, colors') ∧
    if (found : bool) then ∃ x, tc step x x else ∀ n, n ∈ nodeIDs → acyclic_below n.
Proof using HU.
  intros Hn. revert colors. induction nodeIDs as [|n nodeIDs IH]; intros colors Hw Hg Hf; simpl.
  { exists false, colors. split; [done|]. by intros n ?%elem_of_nil. }
  assert (∀ n', n' ∈ nodeIDs → n' ∈ U) as Hn' by (intros ??; apply Hn; by right).
  case_decide as H0.
  - destruct (visit_spec fuel colors n) as (found & c1 & -> & Hc1);
      [apply Hn; by left|done|done|by intros x ?%Hg|done|].
    destruct found; [by exists true, c1|]. destruct Hc1 as [Hv Hb].
    destruct (IH Hn' c1) as (found & c2 & -> & Hc2).
    { apply Hv. }
    { intros x Hx%(vd_grey _ _ Hv). by apply (Hg x). }
    { pose proof (unvisited_mono _ _ (vd_dom _ _ Hv)). lia. }
    exists found, c2. split; [done|]. destruct found; [done|].
    intros n' [->|?]%elem_of_cons; [|by apply Hc2]. by apply (wc_black _ (vd_colored _ _ Hv)).
  - destruct (IH Hn' colors Hw Hg Hf) as (found & c2 & -> & Hc2).
    exists found, c2. split; [done|]. destruct found; [done|].
    intros n' [->|?]%elem_of_cons; [|by apply Hc2]. apply (wc_black _ Hw).
    unfold black, grey, color in *. specialize (Hg n). destruct (colors !! n) as [c|] eqn:Hc; simpl in *; [|done].
    by destruct (wc_range _ Hw n c Hc) as [->| ->].
Qed.
End nodes.

(** Colours detect exactly the directed cycles: a found cycle exists, and otherwise the graph is
    well founded. *)
Lemma has_cycle_spec nodeIDs :
  NoDup nodeIDs → (∀ x y, step x y → x ∈ nodeIDs ∧ y ∈ nodeIDs) →
  has_cycle nodeIDs = true ↔ ∃ x, tc step x x.
Proof.
  intros Hnd Hstep. unfold has_cycle.
  destruct (visit_all_spec (list_to_set nodeIDs)) with (fuel := length nodeIDs) (nodeIDs := nodeIDs)
    (colors := ∅ : Colors) as (found & c & -> & Hc).
  { intros x y [_ Hy]%Hstep. by apply elem_of_list_to_set. }
  { intros n. by rewrite elem_of_list_to_set. }
  { split; intros x; [unfold black, color; by rewrite lookup_empty|intros c; by rewrite lookup_empty]. }
  { intros x. unfold grey, color. by rewrite lookup_empty. }
  { unfold unvisited. rewrite dom_empty_L, difference_empty_L, size_list_to_set by done. lia. }
  destruct found; [done|]. split; [done|]. intros [x Hx]. exfalso.
  assert (x ∈ nodeIDs) as Hin.
  { inversion Hx as [? ? Hxy|? ? ? Hxy]; subst; by apply Hstep in Hxy as [? ?]. }
  by apply (acyclic_below_no_cycle x (Hc x Hin)).
Qed.

Lemma no_cycle_wf nodeIDs :
  NoDup nodeIDs → (∀ x y, step x y → x ∈ nodeIDs ∧ y ∈ nodeIDs) →
  has_cycle nodeIDs = false → ∀ x, ¬ tc step x x.
Proof.
  intros Hnd Hs Hc x Hx. assert (has_cycle nodeIDs = true) as Ht by (apply has_cycle_spec; eauto). congruence.
Qed.
End visit.

Definition ex_edges (x : Identifier) : list Identifier :=
  if decide (x = "a") then ["b"; "c"] else if decide (x = "b") then ["c"] else [].
Example cycle_ex : has_cycle ex_edges ["a"; "b"; "c"] = false ∧
  has_cycle (λ x, if decide (x = "c") then ["a"] else ex_edges x) ["a"; "b"; "c"] = true.
Proof. vm_compute. split; reflexivity. Qed.
