(* ===== verification/NodeJson.v ===== *)
(** The JSON value that [json.Marshal] encodes for a node: the [MarshalJSON] methods of
    [runtime/src/core/workflow/json.go], [workspace.go], [delivery.go] and [extension.go].

    A nil slice or map is encoded as [null] and an empty one as an empty array or object; the
    data model does not separate them and encodes both as empty.  A raw message is spliced in
    as the value it denotes.  [None] is an encoding error: an invalid raw message, or nesting
    beyond the depth the scanner accepts. *)
From S2P Require Import Prelude GoStrings GoJson GoEncode JsonText JsonRoundTrip Schema.
From stdpp Require Import options.

(** * Helpers *)
Fixpoint all_some {A} (l : list (option A)) : option (list A) :=
  match l with
  | [] => Some []
  | x :: l => x ≫= λ a, (cons a) <$> all_some l
  end.

(** The text of a Go string with its invalid bytes replaced. *)
Definition wire_text (s : string) : string :=
  match Unmarshal (encode_string s) with Some (JString t) => t | _ => "" end.
Definition wire (s : string) : Json := JString (wire_text s).
Definition wire_list (l : list string) : Json := JArray (wire <$> l).
Definition number (n : Z) : Json := JNumber (pretty n).

(** A member that is always there, and one that is left out under a condition. *)
Abbreviation Members := (list (string * option Json)).
Definition omitted : option Json := None.
Definition unless (empty : bool) (v : Json) : option Json := if empty then None else Some v.
Definition is_empty (s : string) : bool := bool_decide (s = "").
Definition object (members : Members) : Json :=
  JObject (omap (λ m, pair m.1 <$> m.2) members).
Definition map_json {A} (f : A → option Json) (m : gmap string A) : option Json :=
  JObject <$> all_some ((λ kv, pair (wire_text kv.1) <$> f kv.2) <$> map_to_list m).

(** A raw message: a nil one is [null]. *)
Definition raw_json (raw : RawMessage) : option Json :=
  if decide (raw = "") then Some JNull else Unmarshal raw.

(** * Predicates *)
Definition operand_json (operand : Operand) : option Json :=
  match operand with
  | ReferenceOperand ref => Some (object [("ref", Some (wire ref))])
  | LiteralOperand literal => (λ v, object [("literal", Some v)]) <$> raw_json literal
  | NilOperand => Some JNull
  end.
Fixpoint predicate_json (predicate : Predicate) : option Json :=
  match predicate with
  | ConstantPredicate value => Some (object [("const", Some (JBool value))])
  | ComparisonPredicate op l r =>
      operand_json l ≫= λ l, operand_json r ≫= λ r,
      Some (object [("op", Some (wire op)); ("args", Some (JArray [l; r]))])
  | PresentPredicate ref =>
      Some (object [("op", Some (wire "present")); ("arg", Some (object [("ref", Some (wire ref))]))])
  | LogicalPredicate op args =>
      all_some (map predicate_json args) ≫= λ args,
      Some (object [("op", Some (wire op)); ("args", Some (JArray args))])
  | NotPredicate arg =>
      predicate_json arg ≫= λ arg, Some (object [("op", Some (wire "not")); ("arg", Some arg)])
  | NilPredicate => Some JNull
  end.

(** * Transitions, bindings, declarations *)
Definition when_json (when : Predicate) : option (option Json) :=
  if is_nil_predicate when then Some None else Some <$> predicate_json when.
Definition transition_members (common : TransitionFields) : option Members :=
  when_json (tf_When common) ≫= λ when,
  Some [("id", Some (wire (tf_TransitionID common))); ("to", Some (wire (tf_To common)));
        ("when", when); ("enabledByDefault", JBool <$> tf_EnabledByDefault common)].
Definition transition_json (transition : Transition) : option Json :=
  match transition with
  | NormalTransition common => object <$> transition_members common
  | BoundedTransition common maxTraversals =>
      (λ members, object (members ++ [("kind", Some (wire "bounded"));
                                      ("maxTraversals", Some (number maxTraversals))])) <$>
      transition_members common
  end.

Definition binding_json (binding : Binding) : option Json :=
  match binding with
  | RequiredBinding from pointer type description =>
      Some (object [("from", Some (wire from)); ("type", Some (wire type));
                    ("pointer", unless (is_empty pointer) (wire pointer));
                    ("description", unless (is_empty description) (wire description))])
  | OptionalBinding from pointer type default description =>
      match default with
      | None => Some None
      | Some raw => Some <$> Unmarshal raw
      end ≫= λ default,
      Some (object [("from", Some (wire from)); ("type", Some (wire type));
                    ("required", Some (JBool false));
                    ("pointer", unless (is_empty pointer) (wire pointer)); ("default", default);
                    ("description", unless (is_empty description) (wire description))])
  end.

Definition schema_json (schema : RawMessage) : option (option Json) :=
  if decide (schema = "") then Some None else Some <$> Unmarshal schema.
Definition artifact_json (artifact : ArtifactContract) : Json :=
  object [("filename", Some (wire (ac_Filename artifact)));
          ("templateInput", unless (is_empty (ac_TemplateInput artifact)) (wire (ac_TemplateInput artifact)))].
Definition output_json (output : OutputDeclaration) : option Json :=
  schema_json (od_SchemaDefinition output) ≫= λ schema,
  Some (object [("artifact", artifact_json <$> od_Artifact output); ("schemaDefinition", schema);
                ("type", Some (wire (od_Type output)));
                ("schema", unless (is_empty (od_Schema output)) (wire (od_Schema output)));
                ("description", unless (is_empty (od_Description output)) (wire (od_Description output)));
                ("required", JBool <$> od_Required output)]).

(** * Policies *)
Definition reference_json (ref : ContentReference) : Json :=
  object [("id", Some (wire (cr_ID ref))); ("version", Some (wire (cr_Version ref)));
          ("digest", Some (wire (cr_Digest ref)))].
Definition extension_ref_json (ref : ExtensionRef) : Json :=
  object [("id", Some (wire (xr_ID ref))); ("version", Some (wire (xr_Version ref)));
          ("digest", Some (wire (xr_Digest ref)))].
Definition extension_json (executor : ExtensionExecutor) : option Json :=
  raw_json (xe_Configuration executor) ≫= λ configuration,
  Some (object [("ref", Some (extension_ref_json (xe_Ref executor))); ("configuration", Some configuration)]).
Definition validator_json (validator : Validator) : option Json :=
  match validator with
  | SchemaValidator output schema =>
      Some (object [("output", Some (wire output)); ("schema", Some (wire schema))])
  | CommandValidator command => Some (object [("command", Some (wire_list command))])
  | ExtensionValidator extension => (λ e, object [("extension", Some e)]) <$> extension_json extension
  end.
Definition retry_json (retry : RetryPolicy) : Json :=
  object [("maxAttempts", Some (number (rp_MaxAttempts retry))); ("on", Some (wire_list (rp_On retry)))].
Definition checkpoint_json (checkpoint : Checkpoint) : option Json :=
  match checkpoint with
  | NoCheckpoint => Some (object [("mode", Some (wire "none"))])
  | AcknowledgeCheckpoint => Some (object [("mode", Some (wire "acknowledge"))])
  | ApproveCheckpoint maxRevisions =>
      Some (object [("mode", Some (wire "approve")); ("maxRevisions", number <$> maxRevisions)])
  | ApproveOnChangeCheckpoint when maxRevisions =>
      predicate_json when ≫= λ when,
      Some (object [("mode", Some (wire "approve_on_change")); ("when", Some when);
                    ("maxRevisions", number <$> maxRevisions)])
  | ExternalCheckpoint externalCondition =>
      Some (object [("mode", Some (wire "external")); ("externalCondition", Some (wire externalCondition))])
  end.
Definition join_json (join : Join) : Json :=
  object [("mode", Some (wire (join_Mode join))); ("from", Some (wire_list (join_From join)))].

Definition evidence_json (evidence : EvidenceRequirement) : Json :=
  object [("role", Some (wire (er_Role evidence))); ("description", Some (wire (er_Description evidence)))].
Definition gate_policy_json (gate : ReadinessPolicyGate) : Json :=
  object [("policy", Some (wire (rpg_Policy gate))); ("enforcement", Some (wire (rpg_Enforcement gate)));
          ("description", Some (wire (rpg_Description gate)))].
Definition remedy_json (remedy : ReadinessRemedy) : Json :=
  object [("code", Some (wire (rr_Code remedy))); ("target", Some (wire (rr_Target remedy)));
          ("action", Some (wire (rr_Action remedy))); ("description", Some (wire (rr_Description remedy)))].
Definition readiness_json (readiness : ReadinessContract) : Json :=
  object [("recommendedEvidence", Some (JArray (evidence_json <$> rc_RecommendedEvidence readiness)));
          ("policyGates", Some (JArray (gate_policy_json <$> rc_PolicyGates readiness)));
          ("invariants", Some (wire_list (rc_Invariants readiness)));
          ("remedies", Some (JArray (remedy_json <$> rc_Remedies readiness)))].

(** [ResolvedNodeDefinitionRef.MarshalJSON], which dereferences [Ref] before it looks at it. *)
Definition scoped (scope name version : string) (owner : option string) (digest : string) : Json :=
  object [("scope", Some (wire scope)); ("name", Some (wire name)); ("version", Some (wire version));
          ("digest", Some (wire digest)); ("owner", wire <$> owner)].
Definition definition_json (resolved : ResolvedNodeDefinitionRef) : option Json :=
  (λ ref, match ref with
          | BuiltInNodeDefinitionRef name version =>
              scoped "built_in" name version None (rnd_Digest resolved)
          | ProjectNodeDefinitionRef project name version =>
              scoped "project" name version (Some project) (rnd_Digest resolved)
          | UserNodeDefinitionRef user name version =>
              scoped "user" name version (Some user) (rnd_Digest resolved)
          end) <$> rnd_Ref resolved.
(** The encoding of the node dereferences a nil interface: the program panics. *)
Definition definition_panics (node : Node) : bool :=
  match nf_Definition (Fields node) with
  | Some resolved => bool_decide (rnd_Ref resolved = None)
  | None => false
  end.

(** * Executors *)
Definition checkout_json (checkout : option CheckoutPlan) : Json :=
  match checkout with
  | None => JNull
  | Some CurrentCheckout => object [("mode", Some (wire "current_checkout"))]
  | Some (NewWorktree baseRef branch) =>
      object [("mode", Some (wire "new_worktree")); ("baseRef", Some (wire baseRef));
              ("branch", Some (wire branch))]
  end.
Definition branch_json (branch : RoutingBranch) : Json :=
  object [("name", Some (wire (rb_Name branch))); ("transition", Some (wire (rb_Transition branch)))].
Definition routing_json (e : RoutingExecutor) : Json :=
  object [("agent", Some (wire (re_Agent e))); ("branches", Some (JArray (branch_json <$> re_Branches e)));
          ("routeOutput", Some (wire (re_RouteOutput e)));
          ("rationaleOutput", Some (wire (re_RationaleOutput e)));
          ("adviceOutput", Some (wire (re_AdviceOutput e)));
          ("missingInformationOutput", Some (wire (re_MissingInformationOutput e)));
          ("assumptionsOutput", Some (wire (re_AssumptionsOutput e)));
          ("confirmationOutput", Some (wire (re_ConfirmationOutput e)))].
Definition call_json (call : SubworkflowCall) : option Json :=
  map_json (Some ∘ wire) (sc_Inputs call) ≫= λ inputs,
  map_json (Some ∘ wire) (sc_Outputs call) ≫= λ outputs,
  let workflow := sc_Workflow call in
  Some (object
    [("workflow", Some (object [("name", Some (wire (wr_Name workflow)));
        ("version", Some (wire (wr_Version workflow)));
        ("digest", unless (is_empty (wr_Digest workflow)) (wire (wr_Digest workflow)));
        ("path", unless (is_empty (wr_Path workflow)) (wire (wr_Path workflow)))]));
     ("entry", Some (wire (sc_Entry call))); ("terminals", Some (wire_list (sc_Terminals call)));
     ("inputs", Some inputs); ("outputs", Some outputs)]).
Definition approval_json (executor : ApprovalExecutor) : Json :=
  match executor with
  | NamedApproval name => object [("actor", Some (wire name))]
  | ExternalApproval externalCondition evidenceOutput =>
      object [("actor", Some (wire "external")); ("externalCondition", Some (wire externalCondition));
              ("evidenceOutput", unless (is_empty evidenceOutput) (wire evidenceOutput))]
  end.

(** The name of the executor member and its value. *)
Definition executor_json (node : Node) : string * option Json :=
  match node with
  | ReasoningNode _ e =>
      ("reasoning", Some (object
         [("instructions", unless (is_empty (rx_Instructions e)) (wire (rx_Instructions e)));
          ("agent", Some (wire (rx_Agent e)));
          ("skills", unless (bool_decide (rx_Skills e = [])) (wire_list (rx_Skills e)));
          ("tools", unless (bool_decide (rx_Tools e = [])) (wire_list (rx_Tools e)))]))
  | ImplementationNode _ e =>
      ("implementation", Some (object
         [("taskInput", Some (wire (ie_TaskInput e)));
          ("workspaceInput", unless (is_empty (ie_WorkspaceInput e)) (wire (ie_WorkspaceInput e)));
          ("instructions", unless (is_empty (ie_Instructions e)) (wire (ie_Instructions e)))]))
  | GateNode _ e =>
      ("gate", (λ condition, object [("policy", Some (wire (ge_Policy e))); ("condition", Some condition)])
                 <$> predicate_json (ge_Condition e))
  | CommandNode _ e =>
      ("command", Some (object
         [("argv", Some (wire_list (ce_Argv e))); ("cwd", unless (is_empty (ce_CWD e)) (wire (ce_CWD e)));
          ("timeoutSeconds", number <$> ce_TimeoutSeconds e)]))
  | ApprovalNode _ e => ("approval", Some (approval_json e))
  | SubworkflowNode _ call => ("call", call_json call)
  | PointExecutionNode _ e =>
      ("points", Some (object
         [("planInput", Some (wire (pe_PlanInput e))); ("approval", Some (wire (pe_Approval e)));
          ("riskTags", Some (wire_list (pe_RiskTags e))); ("validation", Some (wire (pe_Validation e)));
          ("publishing", Some (wire (pe_Publishing e)))]))
  | RoutingNode _ e => ("routing", Some (routing_json e))
  | WorkspacePrepareNode _ e =>
      ("workspacePrepare", Some (object [("repositoryInput", Some (wire (wp_RepositoryInput e)));
                                         ("checkout", Some (checkout_json (wp_Checkout e)))]))
  | WorkspaceValidateNode _ e =>
      ("workspaceValidate", Some (object [("workspaceInput", Some (wire (wv_WorkspaceInput e)));
                                          ("checks", Some (JArray (wire_list <$> wv_Checks e)))]))
  | GitCommitNode _ e =>
      ("gitCommit", Some (object
         [("workspaceInput", Some (wire (gc_WorkspaceInput e)));
          ("changesetInput", Some (wire (gc_ChangesetInput e))); ("textInput", Some (wire (gc_TextInput e)))]))
  | GitPushNode _ e =>
      ("gitPush", Some (object
         [("workspaceInput", Some (wire (gp_WorkspaceInput e)));
          ("commitInput", Some (wire (gp_CommitInput e))); ("remote", Some (wire (gp_Remote e)))]))
  | CreatePRNode _ e =>
      ("createPR", Some (object
         [("workspaceInput", Some (wire (pr_WorkspaceInput e)));
          ("branchInput", Some (wire (pr_BranchInput e))); ("textInput", Some (wire (pr_TextInput e)));
          ("base", Some (wire (pr_Base e))); ("draft", Some (JBool (pr_Draft e)))]))
  | ExtensionNode _ e => ("extension", extension_json e)
  end.

(** * Nodes *)
Definition optional_json {A} (f : A → option Json) (v : option A) : option (option Json) :=
  match v with None => Some None | Some v => Some <$> f v end.
Definition slice_json {A} (f : A → option Json) (l : list A) : option (option Json) :=
  if decide (length l = 0) then Some None else (Some ∘ JArray) <$> all_some (f <$> l).

(** [nodeObject]. *)
Definition nodeObject (common : NodeFields) (nodeType : NodeType) (executorName : string)
    (executor : option Json) : option Json :=
  executor ≫= λ executor,
  map_json binding_json (nf_Inputs common) ≫= λ inputs,
  map_json output_json (nf_Outputs common) ≫= λ outputs,
  optional_json definition_json (nf_Definition common) ≫= λ definition,
  slice_json validator_json (nf_Validators common) ≫= λ validators,
  optional_json checkpoint_json (nf_Checkpoint common) ≫= λ checkpoint,
  slice_json transition_json (nf_Transitions common) ≫= λ transitions,
  Some (object
    [("type", Some (wire nodeType)); ("entry", Some (JBool (nf_Entry common)));
     ("terminal", Some (JBool (nf_Terminal common))); ("inputs", Some inputs);
     ("outputs", Some outputs); (executorName, Some executor);
     ("displayName", unless (is_empty (nf_DisplayName common)) (wire (nf_DisplayName common)));
     ("definition", definition); ("prompt", reference_json <$> nf_Prompt common);
     ("validators", validators); ("readiness", readiness_json <$> nf_Readiness common);
     ("retry", retry_json <$> nf_Retry common); ("checkpoint", checkpoint);
     ("transitionMode",
        unless (is_empty (nf_TransitionMode common) ||
                bool_decide (nf_TransitionMode common = TransitionExclusive))
          (wire (nf_TransitionMode common)));
     ("join", join_json <$> nf_Join common);
     ("permissions", unless (bool_decide (nf_Permissions common = [])) (wire_list (nf_Permissions common)));
     ("transitions", transitions)]).

(** [json.Marshal(node)], as a value. *)
Definition node_json (node : Node) : option Json :=
  let '(executorName, executor) := executor_json node in
  nodeObject (Fields node) (NodeTypeOf node) executorName executor ≫= λ encoded,
  if decide (depth encoded ≤ max_nesting_depth) then Some encoded else None.

(** The member of an encoded object. *)
Definition json_member (name : string) (value : option Json) : option Json :=
  match value with
  | Some (JObject members) => snd <$> List.find (λ m, bool_decide (m.1 = name)) members
  | _ => None
  end.
Definition json_text (value : option Json) : string :=
  match value with Some (JString s) => s | _ => "" end.
