(* ===== verification/Predicate.v ===== *)
(** Predicate evaluation: [runtime/src/core/workflow/predicate.go]. *)
From S2P Require Import Prelude GoStrings GoJson JsonFacts GoNumber Schema.
From stdpp Require Import options.

Definition RunPredicateInvalid := "RUN_PREDICATE_INVALID".

(** The value snapshot visible to one evaluation; presence is map membership. *)
Record PredicateValues := {
  pv_Outputs : gmap Identifier RawMessage;
  pv_Inputs : gmap Identifier RawMessage;
  pv_RunInputs : gmap Identifier RawMessage;
}.

Definition predicateFailure (message : msg) (location : string) : FrameError :=
  {| fe_Code := RunPredicateInvalid; fe_Message := message;
     fe_Location := location; fe_TransitionID := "" |}.

Definition pointerChild (location child : string) : string :=
  if decide (location = "") then "/" +:+ child
  else TrimSuffix location "/" +:+ "/" +:+ child.

(** * Values *)
Definition predicateValueType (value : Json) : ValueType :=
  match value with
  | JNull => ValueNull
  | JBool _ => ValueBoolean
  | JString _ => ValueString
  | JNumber lit => if ContainsAny lit ".eE" then ValueNumber else ValueInteger
  | JArray _ => ValueArray
  | JObject _ => ValueObject
  end.

Definition decodePredicateValue (raw : RawMessage) (location : string) : result FrameError Json :=
  match Unmarshal raw with
  | Some value => Ok value
  | None => Err (predicateFailure (text "predicate value is invalid JSON") location)
  end.

Definition invalid_number (lit : string) : msg := Msg "invalid JSON number %q" [AStr lit].

Definition parse_number (lit : string) : result msg Decimal :=
  match Rat_SetString lit with
  | Some x => Ok x
  | None => Err (invalid_number lit)
  end.

Definition equalPredicateNumbers (left right : string) : result msg bool :=
  if decide (predicateValueType (JNumber left) ≠ predicateValueType (JNumber right)) then Ok false
  else
    let? leftValue := parse_number left in
    let? rightValue := parse_number right in
    Ok (bool_decide (Rat_Cmp leftValue rightValue = Eq)).

(** The loop bodies of the array and object cases; [eqs] holds the comparison of each
    left component, awaiting its right component. *)
Fixpoint equal_elements (eqs : list (Json → result msg bool)) (right : list Json)
  : result msg bool :=
  match eqs, right with
  | eq :: eqs, other :: others =>
      let? equal := eq other in
      if equal then equal_elements eqs others else Ok false
  | _, _ => Ok true
  end.

Fixpoint equal_members (eqs : list (string * (Json → result msg bool)))
    (right : list (string * Json)) : result msg bool :=
  match eqs with
  | [] => Ok true
  | (key, eq) :: eqs =>
      match lookup_member key right with
      | None => Ok false
      | Some other =>
          let? equal := eq other in
          if equal then equal_members eqs right else Ok false
      end
  end.

Fixpoint equalPredicateValues `{!GoRange} (left right : Json) : result msg bool :=
  if decide (predicateValueType left ≠ predicateValueType right) then Ok false
  else
    match left, right with
    | JNull, _ => Ok true
    | JBool l, JBool r => Ok (bool_decide (l = r))
    | JString l, JString r => Ok (bool_decide (l = r))
    | JNumber l, JNumber r => equalPredicateNumbers l r
    | JArray l, JArray r =>
        if decide (length l ≠ length r) then Ok false
        else equal_elements (map equalPredicateValues l) r
    | JObject l, JObject r =>
        if decide (length l ≠ length r) then Ok false
        else equal_members
               (range "equalPredicateValues" (map (λ '(k, v), (k, equalPredicateValues v)) l)) r
    | _, _ => Ok false
    end.

(** [None] is Go's [comparable = false]. *)
Definition comparePredicateValues (left right : Json) : result msg (option comparison) :=
  match left with
  | JString leftString =>
      match right with
      | JString rightString => Ok (Some (String.compare leftString rightString))
      | _ => Ok None
      end
  | JNumber leftNumber =>
      match right with
      | JNumber rightNumber =>
          let? leftValue := parse_number leftNumber in
          let? rightValue := parse_number rightNumber in
          Ok (Some (Rat_Cmp leftValue rightValue))
      | _ => Ok None
      end
  | _ => Ok None
  end.

Definition validComparisonOperator (operator : string) : bool :=
  bool_decide (operator ∈ [CompareEqual; CompareNotEqual; CompareLess; CompareLessOrEqual;
                           CompareGreater; CompareGreaterOrEqual]).

(** * References and operands *)
Fixpoint select_members (current : Json) (tail : list string) : option Json :=
  match tail with
  | [] => Some current
  | member :: tail =>
      match current with
      | JObject object =>
          match lookup_member member object with
          | Some next => select_members next tail
          | None => None
          end
      | _ => None
      end
  end.

(** The snapshot entry and the member path a reference names. *)
Definition reference_root (values : PredicateValues) (reference : string)
  : option (option RawMessage * list string) :=
  match Split reference "."%char with
  | root :: name :: tail =>
      if decide (root = "output") then Some (pv_Outputs values !! name, tail)
      else if decide (root = "input") then Some (pv_Inputs values !! name, tail)
      else if decide (root = "run" ∧ name = "input") then
        match tail with
        | run_input :: tail => Some (pv_RunInputs values !! run_input, tail)
        | [] => None
        end
      else None
  | _ => None
  end.

(** [Ok None] is Go's [present = false]. *)
Definition resolve (values : PredicateValues) (reference location : string)
  : result FrameError (option Json) :=
  match reference_root values reference with
  | None =>
      Err (predicateFailure (Msg "predicate reference '%s' is invalid" [AStr reference]) location)
  | Some (None, _) => Ok None
  | Some (Some raw, tail) =>
      let? current := decodePredicateValue raw location in
      Ok (select_members current tail)
  end.

Definition operand (values : PredicateValues) (o : Operand) (location : string)
  : result FrameError Json :=
  match o with
  | LiteralOperand literal => decodePredicateValue literal location
  | ReferenceOperand ref =>
      let? resolved := resolve values ref (pointerChild location "ref") in
      match resolved with
      | Some value => Ok value
      | None =>
          Err (predicateFailure (Msg "predicate reference '%s' is missing" [AStr ref])
                 (pointerChild location "ref"))
      end
  | NilOperand => Err (predicateFailure (text "operand is missing") location)
  end.

(** * Evaluation *)
Definition unknown_operator (operator location : string) : FrameError :=
  predicateFailure (Msg "unknown predicate operator '%s'" [AStr operator]) location.

Definition invalid_comparison (location : string) : FrameError :=
  predicateFailure (text "comparison contains an invalid JSON number") location.

Definition order_result (operator : string) (order : comparison) : bool :=
  if decide (operator = CompareLess) then bool_decide (order = Lt)
  else if decide (operator = CompareLessOrEqual) then bool_decide (order ≠ Gt)
  else if decide (operator = CompareGreater) then bool_decide (order = Gt)
  else bool_decide (order ≠ Lt).

Definition evaluateComparison `{!GoRange} (values : PredicateValues) (operator : string)
    (arg0 arg1 : Operand) (location : string) : result FrameError bool :=
  guard? validComparisonOperator operator orelse unknown_operator operator location in
  let? leftValue := operand values arg0 (pointerChild location "args/0") in
  let? rightValue := operand values arg1 (pointerChild location "args/1") in
  if decide (operator = CompareEqual ∨ operator = CompareNotEqual) then
    match equalPredicateValues leftValue rightValue with
    | Err _ => Err (invalid_comparison location)
    | Ok equal => Ok (if decide (operator = CompareNotEqual) then negb equal else equal)
    end
  else
    match comparePredicateValues leftValue rightValue with
    | Err _ => Err (invalid_comparison location)
    | Ok None =>
        Err (predicateFailure
               (Msg "operator '%s' requires two numbers or two strings" [AStr operator]) location)
    | Ok (Some order) => Ok (order_result operator order)
    end.

Section logical.
Variable evaluate : Predicate → string → result FrameError bool.

Definition combine (operator : string) (result value : bool) : bool :=
  if decide (operator = LogicalAll) then result && value else result || value.

Fixpoint logical_loop (operator location : string) (index : nat) (result : bool)
    (args : list Predicate) : Prelude.result FrameError bool :=
  match args with
  | [] => Ok result
  | arg :: args =>
      let? value := evaluate arg (pointerChild location ("args/" +:+ itoa index)) in
      logical_loop operator location (S index) (combine operator result value) args
  end.

Definition evaluateLogical (operator : string) (args : list Predicate) (location : string)
  : Prelude.result FrameError bool :=
  if decide (operator ≠ LogicalAll ∧ operator ≠ LogicalAny) then
    Err (unknown_operator operator location)
  else if decide (length args = 0) then
    Err (predicateFailure (Msg "operator '%s' requires predicates" [AStr operator]) location)
  else logical_loop operator location 0 (bool_decide (operator = LogicalAll)) args.
End logical.

Fixpoint evaluate `{!GoRange} (values : PredicateValues) (predicate : Predicate)
    (location : string) : result FrameError bool :=
  match predicate with
  | ConstantPredicate value => Ok value
  | ComparisonPredicate operator arg0 arg1 =>
      evaluateComparison values operator arg0 arg1 location
  | PresentPredicate reference =>
      let? resolved := resolve values reference (pointerChild location "arg/ref") in
      Ok (bool_decide (is_Some resolved))
  | LogicalPredicate operator args =>
      evaluateLogical (evaluate values) operator args location
  | NotPredicate arg =>
      let? result := evaluate values arg (pointerChild location "arg") in
      Ok (negb result)
  | NilPredicate => Err (predicateFailure (text "predicate is missing") location)
  end.

Definition EvaluatePredicate `{!GoRange} (predicate : Predicate) (values : PredicateValues)
    (location : string) : result FrameError bool :=
  evaluate values predicate location.

Definition ex_values : PredicateValues := {|
  pv_Outputs := {[ "score" := quoted "{'total': 1.0, 'tags': ['a', null]}" ]};
  pv_Inputs := {[ "n" := "12" ]};
  pv_RunInputs := {[ "mode" := quoted "'fast'" ]};
|}.

Example evaluate_ex1 :
  @EvaluatePredicate range_canonical
    (LogicalPredicate "all"
       [ComparisonPredicate "gte" (ReferenceOperand "input.n") (LiteralOperand "1.2e1");
        ComparisonPredicate "eq" (ReferenceOperand "output.score")
          (LiteralOperand (quoted "{'tags':['a',null],'total':10e-1}"));
        NotPredicate (PresentPredicate "output.score.missing")])
    ex_values "/when" = Ok true.
Proof. vm_compute. reflexivity. Qed.
Example evaluate_ex2 :
  fe_Location <$> (match @EvaluatePredicate range_canonical
    (LogicalPredicate "any" [ConstantPredicate true;
       ComparisonPredicate "lt" (ReferenceOperand "run.input.mode") (LiteralOperand "3")])
    ex_values "/when" with Err e => Some e | Ok _ => None end) = Some "/when/args/1".
Proof. vm_compute. reflexivity. Qed.

(** * Values: the strict equality the language specifies *)

(** Every number literal of a value is one [big.Rat] accepts. *)
Fixpoint numbers_ok (v : Json) : bool :=
  match v with
  | JNumber lit => bool_decide (is_Some (Rat_SetString lit))
  | JArray l => forallb numbers_ok l
  | JObject m => forallb (λ kv, numbers_ok kv.2) m
  | _ => true
  end.

(** Strict JSON equality: no coercion between types (an integer literal is not equal to
    a decimal one), numbers by value, objects as finite maps. *)
Inductive json_eq : Json → Json → Prop :=
| json_eq_null : json_eq JNull JNull
| json_eq_bool b : json_eq (JBool b) (JBool b)
| json_eq_string s : json_eq (JString s) (JString s)
| json_eq_number l r x y :
    predicateValueType (JNumber l) = predicateValueType (JNumber r) →
    Rat_SetString l = Some x → Rat_SetString r = Some y → Rat_Cmp x y = Eq →
    json_eq (JNumber l) (JNumber r)
| json_eq_array l r : Forall2 json_eq l r → json_eq (JArray l) (JArray r)
| json_eq_object l r :
    length l = length r →
    (∀ k v, (k, v) ∈ l → ∃ w, lookup_member k r = Some w ∧ json_eq v w) →
    json_eq (JObject l) (JObject r).

Lemma parse_number_Ok lit x : parse_number lit = Ok x ↔ Rat_SetString lit = Some x.
Proof. unfold parse_number. destruct (Rat_SetString lit); naive_solver. Qed.

Lemma equalPredicateNumbers_spec l r :
  numbers_ok (JNumber l) = true → numbers_ok (JNumber r) = true →
  ∃ b, equalPredicateNumbers l r = Ok b ∧ (b = true ↔ json_eq (JNumber l) (JNumber r)).
Proof.
  simpl. intros [x Hx]%bool_decide_eq_true_1 [y Hy]%bool_decide_eq_true_1.
  unfold equalPredicateNumbers. case_decide as Ht.
  - exists false. split; [done|]. split; [done|]. by inversion 1.
  - unfold parse_number. rewrite Hx, Hy. simpl. eexists. split; [done|].
    rewrite bool_decide_eq_true. split.
    + intros Hc. eapply json_eq_number; eauto.
    + inversion 1; simplify_eq. done.
Qed.

(** The element loop, given the specification of each comparison. *)
Lemma equal_elements_spec (f : Json → Json → result msg bool) l r :
  length l = length r →
  Forall (λ x, ∀ y, y ∈ r → ∃ b, f x y = Ok b ∧ (b = true ↔ json_eq x y)) l →
  ∃ b, equal_elements (map f l) r = Ok b ∧ (b = true ↔ Forall2 json_eq l r).
Proof.
  revert r. induction l as [|x l IH]; intros [|y r] Hlen Hall; simpl in *; try done.
  - exists true. split; [done|]. split; [constructor|done].
  - apply Forall_cons in Hall as [Hx Hl]. injection Hlen as Hlen.
    destruct (Hx y) as (b & -> & Hb); [by left|]. simpl.
    destruct b.
    + destruct (IH r Hlen) as (b & Hrun & Hbs).
      { eapply Forall_impl; [done|]. intros x' Hx' y' ?. apply Hx'. by right. }
      exists b. split; [done|]. rewrite Hbs, Forall2_cons. naive_solver.
    + exists false. split; [done|]. rewrite Forall2_cons. naive_solver.
Qed.

(** The member loop visits the entries in any order. *)
Lemma equal_members_spec (f : Json → Json → result msg bool) fs l r :
  fs ≡ₚ map (λ '(k, v), (k, f v)) l →
  Forall (λ kv, ∀ w, w ∈ r.*2 → ∃ b, f kv.2 w = Ok b ∧ (b = true ↔ json_eq kv.2 w)) l →
  ∃ b, equal_members fs r = Ok b ∧
       (b = true ↔ ∀ k v, (k, v) ∈ l → ∃ w, lookup_member k r = Some w ∧ json_eq v w).
Proof.
  revert l. induction fs as [|[k g] fs IH]; intros l Hperm Hall.
  { apply Permutation_nil in Hperm. destruct l; [|done].
    exists true. split; [done|]. split; [|done]. by intros _ k v ?%elem_of_nil. }
  assert (∃ v l', l ≡ₚ (k, v) :: l' ∧ g = f v ∧ fs ≡ₚ map (λ '(k, v), (k, f v)) l')
    as (v & l' & Hl & -> & Hfs).
  { assert ((k, g) ∈ map (λ '(k, v), (k, f v)) l) as Hin by (rewrite <-Hperm; by left).
    apply list_elem_of_fmap in Hin as ([k' v] & [= -> ->] & Hin).
    apply elem_of_Permutation in Hin as [l' Hl]. exists v, l'. split_and!; [done..|].
    rewrite Hl in Hperm. simpl in Hperm. by apply Permutation_cons_inv in Hperm. }
  rewrite Hl in Hall. apply Forall_cons in Hall as [Hkv Hall].
  destruct (IH l' Hfs Hall) as (b & Hrun & Hb). simpl.
  assert (Hiff : (∀ k0 v0, (k0, v0) ∈ l → ∃ w, lookup_member k0 r = Some w ∧ json_eq v0 w) ↔
    (∃ w, lookup_member k r = Some w ∧ json_eq v w) ∧
    (∀ k0 v0, (k0, v0) ∈ l' → ∃ w, lookup_member k0 r = Some w ∧ json_eq v0 w)).
  { setoid_rewrite Hl. setoid_rewrite elem_of_cons. naive_solver. }
  setoid_rewrite Hiff. destruct (lookup_member k r) as [w|] eqn:Hw.
  - destruct (Hkv w) as (b0 & Hb0 & Hb0'); [apply list_elem_of_fmap; exists (k, w);
      split; [done|by apply lookup_member_elem]|].
    simpl in Hb0. rewrite Hb0. simpl. destruct b0.
    + exists b. split; [done|]. rewrite Hb. naive_solver.
    + exists false. split; [done|]. naive_solver.
  - exists false. split; [done|]. naive_solver.
Qed.

Lemma equalPredicateValues_spec `{!GoRange} l r :
  numbers_ok l = true → numbers_ok r = true →
  ∃ b, equalPredicateValues l r = Ok b ∧ (b = true ↔ json_eq l r).
Proof.
  revert r. induction l as [|b|lit|s|l IH|m IH] using Json_nested_ind; intros r Hl Hr;
    simpl; case_decide as Ht;
    try (exists false; split; [done|split; [done|]; intros Heq; exfalso; apply Ht;
         inversion Heq; subst; simpl in *; congruence]).
  all: destruct r as [|b'|lit'|s'|l'|m']; simpl in Ht;
    try (destruct (ContainsAny _ _); discriminate Ht); try discriminate Ht.
  - exists true. split; [done|]. split; [constructor|done].
  - eexists. split; [done|]. rewrite bool_decide_eq_true.
    split; [intros ->; constructor|by inversion 1].
  - by apply equalPredicateNumbers_spec.
  - eexists. split; [done|]. rewrite bool_decide_eq_true.
    split; [intros ->; constructor|by inversion 1].
  - simpl in Hl, Hr. apply forallb_Forall in Hl, Hr.
    case_decide as Hlen.
    { exists false. split; [done|]. split; [done|]. inversion 1; subst.
      exfalso. apply Hlen. by eapply Forall2_length. }
    destruct (equal_elements_spec equalPredicateValues l l' Hlen) as (b & Hrun & Hb).
    { rewrite Forall_forall in IH, Hl, Hr |- *. eauto. }
    exists b. split; [done|]. rewrite Hb. split; [by constructor|by inversion 1].
  - simpl in Hl, Hr. apply forallb_Forall in Hl, Hr.
    case_decide as Hlen.
    { exists false. split; [done|]. split; [done|]. by inversion 1. }
    edestruct (equal_members_spec equalPredicateValues) as (b & Hrun & Hb).
    { apply range_perm. }
    { rewrite Forall_forall in IH, Hl, Hr |- *. intros kv Hkv w Hw.
      apply list_elem_of_fmap in Hw as ([k' w'] & -> & Hin). apply IH; [done|auto|].
      by apply (Hr (k', w')). }
    exists b. split; [done|]. rewrite Hb. split; [intros; by constructor|by inversion 1].
Qed.

(** * [json_eq] is an equivalence on decoded values *)
Lemma json_eq_refl v : numbers_ok v = true → distinct_keys v = true → json_eq v v.
Proof.
  induction v as [|b|lit|s|l IH|m IH] using Json_nested_ind; simpl; try (by constructor).
  - intros [x Hx]%bool_decide_eq_true_1 _. eapply json_eq_number; eauto using Rat_Cmp_refl.
  - intros Hn%forallb_Forall Hd%forallb_Forall. constructor.
    apply Forall_Forall2_diag. rewrite Forall_forall in IH, Hn, Hd |- *. eauto.
  - intros Hn%forallb_Forall [Hnd Hd]%andb_prop. apply forallb_Forall in Hd.
    apply bool_decide_eq_true_1 in Hnd. constructor; [done|]. intros k w Hin.
    exists w. split; [by apply elem_lookup_member|].
    rewrite Forall_forall in IH, Hn, Hd.
    apply (IH (k, w) Hin); [by apply (Hn (k, w))|by apply (Hd (k, w))].
Qed.

(** Two duplicate-free association lists of the same length, the keys of one among
    those of the other, have the same keys. *)
Lemma same_keys (l r : list (string * Json)) :
  length l = length r → NoDup l.*1 → l.*1 ⊆ r.*1 → r.*1 ⊆ l.*1.
Proof.
  intros Hlen Hnd Hsub k Hk.
  assert (l.*1 ⊆+ r.*1) as Hsm by (by apply NoDup_submseteq).
  apply submseteq_length_Permutation in Hsm; [by rewrite Hsm|].
  by rewrite !length_fmap, Hlen.
Qed.

Lemma json_eq_sym l r :
  distinct_keys l = true → distinct_keys r = true → json_eq l r → json_eq r l.
Proof.
  revert r. induction l as [|b|lit|s|l IH|m IH] using Json_nested_ind; intros r Hl Hr Heq;
    inversion Heq as [| | |? ? x y ? ? ? Hc|? l' Hll|? m' Hlen Hm]; subst; try (by constructor).
  - eapply json_eq_number; eauto. by rewrite Rat_Cmp_antisym, Hc.
  - simpl in Hl, Hr. apply forallb_Forall in Hl, Hr. constructor. clear Heq.
    induction Hll as [|x y l l' Hxy Hll IHll]; [constructor|].
    apply Forall_cons in IH as [IHx IH], Hl as [Hx Hl], Hr as [Hy Hr]. constructor; auto.
  - simpl in Hl, Hr. apply andb_prop in Hl as [Hnl Hl], Hr as [Hnr Hr].
    apply forallb_Forall in Hl, Hr. apply bool_decide_eq_true_1 in Hnl, Hnr.
    rewrite Forall_forall in IH, Hl, Hr. constructor; [done|]. intros k w Hkw.
    assert (k ∈ m.*1) as Hk.
    { apply (same_keys m m' Hlen Hnl).
      - intros k' ([k'' v] & -> & Hin)%list_elem_of_fmap. simpl.
        destruct (Hm _ _ Hin) as (w' & Hw' & _). apply list_elem_of_fmap.
        exists (k'', w'). split; [done|by apply lookup_member_elem].
      - apply list_elem_of_fmap. by exists (k, w). }
    apply list_elem_of_fmap in Hk as ([k' v] & -> & Hv). simpl in *.
    exists v. split; [by apply elem_lookup_member|].
    destruct (Hm _ _ Hv) as (w' & Hw' & Hvw').
    apply (elem_lookup_member _ _ _ Hnr) in Hkw. simplify_eq.
    apply (IH (k', v) Hv); [by apply (Hl (k', v))| |done].
    apply (Hr (k', w)). by apply lookup_member_elem.
Qed.

Lemma json_eq_trans u v w : json_eq u v → json_eq v w → json_eq u w.
Proof.
  revert v w. induction u as [|b|lit|s|l IH|m IH] using Json_nested_ind; intros v w Huv Hvw;
    inversion Huv as [| | |? ? x y ? ? ? Hc|? l' Hll|? m' Hlen Hm]; subst;
    inversion Hvw as [| | |? ? x' y' ? ? ? Hc'|? l'' Hll'|? m'' Hlen' Hm']; subst;
    try (by constructor).
  - simplify_eq. eapply json_eq_number; eauto using Rat_Cmp_Eq_trans. congruence.
  - constructor. clear Huv Hvw. revert l'' Hll'.
    induction Hll as [|x y l l' Hxy Hll IHll]; intros l'' Hll'; inversion Hll'; subst;
      [constructor|].
    apply Forall_cons in IH as [IHx IH]. constructor; eauto.
  - rewrite Forall_forall in IH. constructor; [congruence|]. intros k v Hkv.
    destruct (Hm _ _ Hkv) as (v' & Hv' & Heq).
    destruct (Hm' k v') as (v'' & Hv'' & Heq'); [by apply lookup_member_elem|].
    exists v''. split; [done|]. by eapply (IH (k, v)).
Qed.

(** Decoding assigns members to a map, so every decoded object has distinct keys. *)
(** * Evaluation *)

Section predicate_ind.
Variable P : Predicate → Prop.
Hypotheses (Hconst : ∀ b, P (ConstantPredicate b))
  (Hcmp : ∀ op a b, P (ComparisonPredicate op a b)) (Hpres : ∀ r, P (PresentPredicate r))
  (Hlog : ∀ op args, Forall P args → P (LogicalPredicate op args))
  (Hnot : ∀ p, P p → P (NotPredicate p)) (Hnil : P NilPredicate).
Fixpoint Predicate_nested_ind (p : Predicate) : P p :=
  match p with
  | ConstantPredicate b => Hconst b
  | ComparisonPredicate op a b => Hcmp op a b
  | PresentPredicate r => Hpres r
  | LogicalPredicate op args => Hlog op args ((fix go l : Forall P l :=
      match l with
      | [] => Forall_nil_2 _
      | x :: l => Forall_cons_2 _ _ _ (Predicate_nested_ind x) (go l)
      end) args)
  | NotPredicate q => Hnot q (Predicate_nested_ind q)
  | NilPredicate => Hnil
  end.
End predicate_ind.

(** The results of the arguments of a logical predicate, in authored order. *)
Fixpoint eval_args `{!GoRange} (values : PredicateValues) (location : string) (index : nat)
    (args : list Predicate) : result FrameError (list bool) :=
  match args with
  | [] => Ok []
  | arg :: args =>
      let? value := evaluate values arg (pointerChild location ("args/" +:+ itoa index)) in
      let? rest := eval_args values location (S index) args in
      Ok (value :: rest)
  end.

Lemma logical_loop_spec `{!GoRange} values op location index acc args :
  logical_loop (evaluate values) op location index acc args =
  (let? bs := eval_args values location index args in Ok (foldl (combine op) acc bs)).
Proof.
  revert index acc. induction args as [|arg args IH]; intros index acc; simpl; [done|].
  destruct (evaluate _ _ _) as [b|e]; simpl; [|done].
  rewrite IH. by destruct (eval_args _ _ _ _).
Qed.

Lemma foldl_combine_all acc bs :
  foldl (combine LogicalAll) acc bs = acc && forallb id bs.
Proof.
  revert acc. induction bs as [|b bs IH]; intros acc; simpl; [by rewrite andb_true_r|].
  rewrite IH. unfold combine. rewrite decide_True by done. by rewrite andb_assoc.
Qed.

Lemma foldl_combine_any acc bs :
  foldl (combine LogicalAny) acc bs = acc || existsb id bs.
Proof.
  revert acc. induction bs as [|b bs IH]; intros acc; simpl; [by rewrite orb_false_r|].
  rewrite IH. unfold combine. rewrite decide_False by done. by rewrite orb_assoc.
Qed.

(** The logical operators of [evaluateLogical]: a non-empty [all] is the conjunction and
    a non-empty [any] the disjunction of its arguments, every argument is evaluated (no
    short circuit), and the result is the first error in authored order if there is one. *)
Theorem evaluate_logical `{!GoRange} values op args location :
  op = LogicalAll ∨ op = LogicalAny → args ≠ [] →
  EvaluatePredicate (LogicalPredicate op args) values location =
  (let? bs := eval_args values location 0 args in
   Ok (if decide (op = LogicalAll) then forallb id bs else existsb id bs)).
Proof.
  intros Hop Hargs. unfold EvaluatePredicate. simpl. unfold evaluateLogical.
  rewrite decide_False by naive_solver. rewrite decide_False by (by destruct args).
  rewrite logical_loop_spec. destruct (eval_args _ _ _ _) as [bs|e]; simpl; [|done].
  destruct Hop as [-> | ->].
  - by rewrite foldl_combine_all.
  - by rewrite foldl_combine_any.
Qed.

Definition ex_logical_args : list Predicate :=
  [ConstantPredicate true; PresentPredicate "input.n"; ConstantPredicate false].

Theorem evaluate_logical_witness :
  @EvaluatePredicate range_canonical (LogicalPredicate LogicalAny ex_logical_args) ex_values "/w"
  = (let? bs := @eval_args range_canonical ex_values "/w" 0 ex_logical_args in
     Ok (if decide (LogicalAny = LogicalAll) then forallb id bs else existsb id bs)).
Proof.
  apply (@evaluate_logical range_canonical); [by right|discriminate].
Defined.

(** (C30) Strict equality ([equalPredicateValues]): on decoded values whose number literals
    [big.Rat] accepts, the comparison returns without error, for every iteration order of
    the objects' members it answers [json_eq], and [json_eq] is reflexive, symmetric and
    transitive: equality of types, of numbers by value within a type, of arrays element
    by element and of objects as maps. *)
Theorem equal_values_strict `{!GoRange} rawl rawr l r :
  Unmarshal rawl = Some l → Unmarshal rawr = Some r →
  numbers_ok l = true → numbers_ok r = true →
  (∃ b, equalPredicateValues l r = Ok b ∧ (b = true ↔ json_eq l r)) ∧
  json_eq l l ∧ (json_eq l r ↔ json_eq r l) ∧ (∀ v, json_eq l r → json_eq r v → json_eq l v).
Proof.
  intros Hl%Unmarshal_distinct Hr%Unmarshal_distinct Hnl Hnr. split_and!.
  - by apply equalPredicateValues_spec.
  - by apply json_eq_refl.
  - split; by apply json_eq_sym.
  - intros v. apply json_eq_trans.
Qed.

Definition ex_raw_l := quoted "{'a': [1, 2.50], 'b': null}".
Definition ex_raw_r := quoted "{'b':null,'a':[1,25e-1]}".
Definition ex_val (raw : RawMessage) : Json := default JNull (Unmarshal raw).

Theorem equal_values_strict_witness :
  @equalPredicateValues range_reversed (ex_val ex_raw_l) (ex_val ex_raw_r) = Ok true ∧
  json_eq (ex_val ex_raw_l) (ex_val ex_raw_r).
Proof.
  destruct (@equal_values_strict range_reversed ex_raw_l ex_raw_r
    (ex_val ex_raw_l) (ex_val ex_raw_r)) as ((b & Hb & Hiff) & _);
    try (vm_compute; reflexivity).
  assert (Ok b = Ok true :> result msg bool) as [= ->] by (rewrite <-Hb; vm_compute; reflexivity).
  split; [done|by apply Hiff].
Defined.

(** A snapshot or predicate in which [big.Rat] accepts every number literal. *)
Definition raw_numbers_ok (raw : RawMessage) : bool :=
  match Unmarshal raw with Some v => numbers_ok v | None => true end.
Definition values_numbers_ok (values : PredicateValues) : Prop :=
  ∀ name raw, pv_Outputs values !! name = Some raw ∨ pv_Inputs values !! name = Some raw ∨
    pv_RunInputs values !! name = Some raw → raw_numbers_ok raw = true.
Definition operand_numbers_ok (o : Operand) : bool :=
  match o with LiteralOperand raw => raw_numbers_ok raw | _ => true end.
Fixpoint predicate_numbers_ok (p : Predicate) : bool :=
  match p with
  | ComparisonPredicate _ a b => operand_numbers_ok a && operand_numbers_ok b
  | LogicalPredicate _ args => forallb predicate_numbers_ok args
  | NotPredicate p => predicate_numbers_ok p
  | _ => true
  end.

Lemma reference_root_member values ref raw tail :
  reference_root values ref = Some (Some raw, tail) →
  ∃ name, pv_Outputs values !! name = Some raw ∨ pv_Inputs values !! name = Some raw ∨
    pv_RunInputs values !! name = Some raw.
Proof.
  unfold reference_root. intros Hr. repeat case_match; simplify_eq; eauto.
Qed.

Lemma select_members_numbers_ok v tail w :
  numbers_ok v = true → select_members v tail = Some w → numbers_ok w = true.
Proof.
  revert v. induction tail as [|m tail IH]; intros v Hv Hs; simpl in Hs; [by simplify_eq|].
  destruct v as [| | | | |obj]; try done.
  destruct (lookup_member m obj) as [next|] eqn:Hm; [|done].
  apply (IH next); [|done]. simpl in Hv. rewrite forallb_Forall, Forall_forall in Hv.
  apply (Hv (m, next)). by apply lookup_member_elem.
Qed.

Lemma operand_numbers_ok_spec values o location v :
  values_numbers_ok values → operand_numbers_ok o = true →
  operand values o location = Ok v → numbers_ok v = true.
Proof.
  intros Hvals Ho. unfold operand. destruct o as [ref|lit|]; [|simpl in Ho|done].
  - intros (r & Hr & Hv)%result_bind_Ok. destruct r as [w|]; [|done]. injection Hv as ->.
    unfold resolve in Hr. destruct (reference_root values ref) as [[[raw|] tail]|] eqn:Hroot;
      try done. apply result_bind_Ok in Hr as (cur & Hd & Hs). injection Hs as Hs.
    unfold decodePredicateValue in Hd. destruct (Unmarshal raw) as [x|] eqn:Hu; [|done].
    injection Hd as ->. eapply select_members_numbers_ok; [|done].
    apply reference_root_member in Hroot as [name Hname]. apply Hvals in Hname.
    unfold raw_numbers_ok in Hname. by rewrite Hu in Hname.
  - unfold decodePredicateValue, raw_numbers_ok in *. destruct (Unmarshal lit); [|done].
    by intros [= ->].
Qed.

Lemma equalPredicateValues_order `{R1 : !GoRange} (R2 : GoRange) l r :
  numbers_ok l = true → numbers_ok r = true →
  @equalPredicateValues R1 l r = @equalPredicateValues R2 l r.
Proof.
  intros Hl Hr.
  destruct (@equalPredicateValues_spec R1 l r Hl Hr) as (b1 & -> & H1).
  destruct (@equalPredicateValues_spec R2 l r Hl Hr) as (b2 & -> & H2).
  f_equal. destruct b1, b2; naive_solver.
Qed.

(** Determinism of evaluation: when [big.Rat] accepts the number literals of the snapshot
    and of the predicate, [EvaluatePredicate] gives the same boolean or the same error
    whatever order the runtime iterates over maps in. *)
Theorem evaluate_deterministic (R1 R2 : GoRange) predicate values location :
  values_numbers_ok values → predicate_numbers_ok predicate = true →
  @EvaluatePredicate R1 predicate values location =
  @EvaluatePredicate R2 predicate values location.
Proof.
  intros Hvals. unfold EvaluatePredicate. revert location.
  induction predicate as [b|op a0 a1|ref|op args IH|p IH|] using Predicate_nested_ind;
    intros location Hp; simpl in *; try done.
  - apply andb_prop in Hp as [H0 H1]. unfold evaluateComparison.
    destruct (validComparisonOperator op); [|done].
    destruct (operand values a0 _) as [l|] eqn:Hl; [|done].
    destruct (operand values a1 _) as [r|] eqn:Hr; [|done]. simpl.
    case_decide; [|done].
    rewrite (@equalPredicateValues_order R1 R2); [done| |];
      (eapply (operand_numbers_ok_spec _ _ _ _ Hvals); [|eassumption]; done).
  - unfold evaluateLogical. case_decide; [done|]. case_decide as Hlen; [done|]. clear Hlen.
    generalize (bool_decide (op = LogicalAll)), 0.
    apply forallb_Forall in Hp.
    induction args as [|arg args IHargs]; intros acc n; simpl; [done|].
    apply Forall_cons in IH as [Harg IH], Hp as [Hparg Hp].
    rewrite Harg by done. destruct (@evaluate R2 _ _ _); [|done]. by apply IHargs.
  - by rewrite IH.
Qed.

Definition ex_pred : Predicate :=
  ComparisonPredicate CompareEqual (ReferenceOperand "output.score")
    (LiteralOperand (quoted "{'tags':['a',null],'total':1.00}")).

Lemma ex_values_numbers_ok : values_numbers_ok ex_values.
Proof.
  intros name raw [H|[H|H]]; simpl in H;
    apply lookup_singleton_Some in H as [_ <-]; vm_compute; reflexivity.
Defined.

Theorem evaluate_deterministic_witness :
  @EvaluatePredicate range_canonical ex_pred ex_values "/when" =
  @EvaluatePredicate range_reversed ex_pred ex_values "/when".
Proof.
  apply evaluate_deterministic; [apply ex_values_numbers_ok|vm_compute; reflexivity].
Defined.

Definition ex_huge_l := quoted "{'a': 1e1000001, 'b': 1}".
Definition ex_huge_r := quoted "{'a': 1e1000001, 'b': 2}".
Definition ex_huge : Predicate :=
  ComparisonPredicate CompareEqual (LiteralOperand ex_huge_l) (LiteralOperand ex_huge_r).

(** Without that hypothesis the outcome depends on the map order: comparing two objects
    that differ in one member and hold a number literal beyond [big.Rat]'s exponent limit
    in another answers [false] in one order and fails in the other. *)
Theorem evaluate_order_dependent :
  ∃ (R1 R2 : GoRange) predicate values location e,
    @EvaluatePredicate R1 predicate values location = Err e ∧
    @EvaluatePredicate R2 predicate values location = Ok false.
Proof.
  exists range_canonical, range_reversed, ex_huge, ex_values, "/when". eexists.
  split; vm_compute; reflexivity.
Qed.

(** The location only matters to a failing operand. *)
Lemma operand_location values o location location' v :
  operand values o location = Ok v → operand values o location' = Ok v.
Proof.
  assert (Hdec : ∀ raw l l' w, decodePredicateValue raw l = Ok w →
    decodePredicateValue raw l' = Ok w).
  { intros raw l l' w. unfold decodePredicateValue. by destruct (Unmarshal raw). }
  destruct o as [ref|lit|]; simpl; [|apply Hdec|done].
  intros (r & Hr & Hv)%result_bind_Ok. destruct r as [w|]; [|done]. simplify_eq.
  enough (resolve values ref (pointerChild location' "ref") = Ok (Some v)) as -> by done.
  unfold resolve in *. destruct (reference_root values ref) as [[[raw|] tail]|]; try done.
  apply result_bind_Ok in Hr as (cur & Hd & Hs).
  by erewrite Hdec; [|exact Hd].
Qed.

Lemma comparePredicateValues_flip l r o :
  comparePredicateValues l r = Ok (Some o) →
  comparePredicateValues r l = Ok (Some (CompOpp o)).
Proof.
  destruct l, r; simpl; try done.
  - unfold parse_number. destruct (Rat_SetString _), (Rat_SetString _); simpl; try done.
    intros [= <-]. by rewrite Rat_Cmp_antisym.
  - intros [= <-]. by rewrite String.compare_antisym.
Qed.

(** What a successful ordering comparison computed. *)
Lemma evaluate_ordering_Ok `{!GoRange} values op a b location r :
  op ∈ [CompareLess; CompareLessOrEqual; CompareGreater; CompareGreaterOrEqual] →
  EvaluatePredicate (ComparisonPredicate op a b) values location = Ok r ↔
  ∃ x y o, (∀ l, operand values a l = Ok x) ∧ (∀ l, operand values b l = Ok y) ∧
    comparePredicateValues x y = Ok (Some o) ∧ r = order_result op o.
Proof.
  intros Hop. unfold EvaluatePredicate. simpl. unfold evaluateComparison.
  assert (validComparisonOperator op = true) as ->.
  { unfold validComparisonOperator. rewrite bool_decide_eq_true. set_solver. }
  assert (¬ (op = CompareEqual ∨ op = CompareNotEqual)) as Hne.
  { intros [-> | ->]; set_solver. }
  split.
  - intros (x & Hx & (y & Hy & Hc)%result_bind_Ok)%result_bind_Ok.
    rewrite decide_False in Hc by done.
    destruct (comparePredicateValues x y) as [[o|]|] eqn:Ho; simplify_eq.
    exists x, y, o. split_and!; eauto using operand_location.
  - intros (x & y & o & Hx & Hy & Ho & ->). rewrite Hx, Hy. simpl.
    by rewrite decide_False, Ho by done.
Qed.

(** The ordering operators agree with one another: when [lt] answers, then on the same
    operands [gte] is its negation, and with the operands exchanged [gt] is equal to it,
    [lte] is its negation, and [lt] does not hold in both directions. *)
Theorem ordering_operators_coherent `{!GoRange} values a b location r :
  EvaluatePredicate (ComparisonPredicate CompareLess a b) values location = Ok r →
  EvaluatePredicate (ComparisonPredicate CompareGreaterOrEqual a b) values location
    = Ok (negb r) ∧
  EvaluatePredicate (ComparisonPredicate CompareGreater b a) values location = Ok r ∧
  EvaluatePredicate (ComparisonPredicate CompareLessOrEqual b a) values location
    = Ok (negb r) ∧
  (r = true →
   EvaluatePredicate (ComparisonPredicate CompareLess b a) values location = Ok false).
Proof.
  rewrite (evaluate_ordering_Ok values CompareLess) by (by repeat constructor).
  intros (x & y & o & Hx & Hy & Ho & ->).
  pose proof (comparePredicateValues_flip _ _ _ Ho) as Ho'.
  split_and!; [| | |intros Hlt]; (apply evaluate_ordering_Ok; [by repeat constructor|]).
  1: exists x, y, o. 2,3,4: exists y, x, (CompOpp o).
  all: split_and!; try done; by destruct o.
Qed.

Theorem ordering_operators_coherent_witness :
  @EvaluatePredicate range_canonical (ComparisonPredicate CompareGreaterOrEqual
    (ReferenceOperand "input.n") (LiteralOperand "12.5")) ex_values "/w" = Ok false.
Proof.
  destruct (@ordering_operators_coherent range_canonical ex_values
    (ReferenceOperand "input.n") (LiteralOperand "12.5") "/w" true) as [Hge _].
  - vm_compute. reflexivity.
  - exact Hge.
Defined.

(** A location reached from [location] by descending into children. *)
Inductive extends : string → string → Prop :=
| extends_refl location : extends location location
| extends_child location child location' :
    extends (pointerChild location child) location' → extends location location'.

Lemma extends_trans l1 l2 l3 : extends l1 l2 → extends l2 l3 → extends l1 l3.
Proof. induction 1; [done|]. intros. eapply extends_child. eauto. Qed.

#[local] Hint Constructors extends : go.

Definition located (location : string) (e : FrameError) : Prop :=
  fe_Code e = RunPredicateInvalid ∧ extends location (fe_Location e).

Lemma located_child location child e :
  located (pointerChild location child) e → located location e.
Proof. intros [? ?]. split; [done|]. by eapply extends_child. Qed.

Lemma located_failure m location location' :
  extends location location' → located location (predicateFailure m location').
Proof. done. Qed.

Lemma decode_located raw location e :
  decodePredicateValue raw location = Err e → located location e.
Proof.
  unfold decodePredicateValue. destruct (Unmarshal raw); [done|]. intros [= <-].
  apply located_failure, extends_refl.
Qed.

Lemma resolve_located values ref location e :
  resolve values ref location = Err e → located location e.
Proof.
  unfold resolve. destruct (reference_root values ref) as [[[raw|] tail]|]; [|done|].
  - intros [?|(? & _ & ?)]%result_bind_Err; [by eapply decode_located|done].
  - intros [= <-]. apply located_failure, extends_refl.
Qed.

Lemma operand_located values o location e :
  operand values o location = Err e → located location e.
Proof.
  destruct o as [ref|lit|]; simpl.
  - intros [Hr|(r & _ & Hr)]%result_bind_Err.
    + eapply located_child. by eapply resolve_located.
    + destruct r; [done|]. injection Hr as <-.
      eapply located_child, located_failure, extends_refl.
  - apply decode_located.
  - intros [= <-]. apply located_failure, extends_refl.
Qed.

(** Every failure of an evaluation carries the code RUN_PREDICATE_INVALID and the JSON
    pointer of an authored operand: the location passed in, extended child by child. *)
Theorem evaluate_error_located `{!GoRange} predicate values location e :
  EvaluatePredicate predicate values location = Err e → located location e.
Proof.
  unfold EvaluatePredicate. revert location.
  induction predicate as [b|op a0 a1|ref|op args IH|p IH|] using Predicate_nested_ind;
    intros location; simpl; try done.
  - unfold evaluateComparison.
    destruct (validComparisonOperator op);
      [|intros [= <-]; apply located_failure, extends_refl].
    intros [?%operand_located|(l & _ & [?%operand_located|(r & _ & Hc)]%result_bind_Err)]%result_bind_Err;
      [by eapply located_child..|].
    case_decide; repeat case_match; simplify_eq; apply located_failure, extends_refl.
  - intros [?%resolve_located|(? & _ & ?)]%result_bind_Err; [by eapply located_child|done].
  - unfold evaluateLogical.
    case_decide; [intros [= <-]; apply located_failure, extends_refl|].
    case_decide as Hlen; [intros [= <-]; apply located_failure, extends_refl|]. clear Hlen.
    generalize (bool_decide (op = LogicalAll)), 0.
    induction args as [|arg args IHargs]; intros acc n; simpl; [done|].
    apply Forall_cons in IH as [Harg IH].
    intros [?%Harg|(v & _ & Hl)]%result_bind_Err; [by eapply located_child|].
    by eapply IHargs.
  - intros [?%IH|(? & _ & ?)]%result_bind_Err; [by eapply located_child|done].
  - intros [= <-]. apply located_failure, extends_refl.
Qed.

Theorem evaluate_error_located_witness :
  located "/when" (predicateFailure (Msg "predicate reference '%s' is missing" [AStr "input.k"])
                     "/when/arg/args/0/ref").
Proof.
  apply (@evaluate_error_located range_canonical
    (NotPredicate (ComparisonPredicate "eq" (ReferenceOperand "input.k") (LiteralOperand "1")))
    ex_values).
  vm_compute. reflexivity.
Defined.
