(* ===== verification/Route.v ===== *)
(** Route creation: [runtime/src/core/workflow/route.go]. *)
From S2P Require Import Prelude GoStrings GoJson GoGraph Schema Issues.
From stdpp Require Import options.

Definition ValidationRouteEntryInvalid : ValidationCode := "ROUTE_ENTRY_INVALID".
Definition ValidationRouteTerminalInvalid : ValidationCode := "ROUTE_TERMINAL_INVALID".
Definition ValidationRoutePathIncomplete : ValidationCode := "ROUTE_PATH_INCOMPLETE".
Definition ValidationRoutePolicyViolation : ValidationCode := "ROUTE_POLICY_VIOLATION".
Definition ValidationRunInputRequired : ValidationCode := "RUN_INPUT_REQUIRED".

(** * Data *)
Record RouteRequest := { rq_From : Identifier; rq_Until : list Identifier }.
Record RouteContext := {
  rc_RunInputs : gmap Identifier RawMessage;
  rc_AcceptedOutputs : gmap Identifier (gmap Identifier RawMessage);
  rc_RequiredNodes : list Identifier;
}.
Record RouteNode := { rn_ID : Identifier; rn_Join : option Join }.
Record RouteTransition := {
  rt_ID : Identifier; rt_From : Identifier; rt_To : Identifier;
}.
Abbreviation ExclusionReason := string (only parsing).
Definition ExclusionBeforeEntry : ExclusionReason := "before_entry".
Definition ExclusionPastTerminal : ExclusionReason := "past_terminal".
Definition ExclusionNotConnected : ExclusionReason := "not_connected".
Record ExcludedNode := { en_ID : Identifier; en_Reason : ExclusionReason }.
Record InputRequirement := {
  ir_Code : ValidationCode; ir_Node : Identifier; ir_Input : Identifier; ir_Source : string;
}.
Record Route := {
  route_Assessment : RawMessage;
  route_Entry : Identifier;
  route_Terminals : list Identifier;
  route_Nodes : list RouteNode;
  route_Transitions : list RouteTransition;
  route_ExcludedNodes : list ExcludedNode;
  route_InputRequirements : list InputRequirement;
}.

#[global] Instance Join_eq_dec : EqDecision Join.
Proof. solve_decision. Defined.
#[global] Instance RouteNode_eq_dec : EqDecision RouteNode.
Proof. solve_decision. Defined.
#[global] Instance RouteTransition_eq_dec : EqDecision RouteTransition.
Proof. solve_decision. Defined.
#[global] Instance ExcludedNode_eq_dec : EqDecision ExcludedNode.
Proof. solve_decision. Defined.
#[global] Instance InputRequirement_eq_dec : EqDecision InputRequirement.
Proof. solve_decision. Defined.
#[global] Instance Route_eq_dec : EqDecision Route.
Proof. solve_decision. Defined.

(** * Helpers *)
Definition identifierSet (values : list Identifier) : gset Identifier := list_to_set values.

Definition uniqueSortedIdentifiers `{!GoRange} (values : list Identifier) : list Identifier :=
  sort_strings (range_set "uniqueSortedIdentifiers" (identifierSet values)).

Definition splitReference (value : string) : list string := Split value "."%char.

(** [sortedNodeIDs] and [sortedBindingIDs] of [validate.go]. *)
Definition sortedIDs `{!GoRange} {A} (site : string) (m : gmap Identifier A) : list Identifier :=
  sort_strings (range_map site m).*1.
Definition sortedNodeIDs `{!GoRange} (nodes : gmap Identifier Node) : list Identifier :=
  sortedIDs "sortedNodeIDs" nodes.
Definition sortedBindingIDs `{!GoRange} (bindings : gmap Identifier Binding) : list Identifier :=
  sortedIDs "sortedBindingIDs" bindings.

Definition node_ids_details (ids : list string) : option (gmap string (list string)) :=
  Some {[ "nodeIds" := ids ]}.

Definition route_error (code : ValidationCode) (message location : string)
    (details : option (gmap string (list string))) : ValidationError :=
  {| ve_Code := code; ve_Message := text message; ve_Location := location;
     ve_Details := details |}.

Definition transitions_of (document : Document) (id : Identifier) : list Transition :=
  match nodes_of document !! id with
  | Some node => nf_Transitions (Fields node)
  | None => []
  end.

(** [overrides] is consulted before the authored default. *)
Definition routeTransitionEnabled (overrides : gmap Identifier bool) (transition : Transition)
  : bool :=
  match overrides !! ID transition with
  | Some enabled => enabled
  | None => transitionEnabled transition
  end.

Definition enabled_transitions (document : Document) (overrides : gmap Identifier bool)
    (id : Identifier) : list Transition :=
  filter (λ t, routeTransitionEnabled overrides t = true) (transitions_of document id).

(** * Boundaries *)
Definition node_flag (flag : NodeFields → bool) (document : Document) (id : Identifier) : bool :=
  match nodes_of document !! id with
  | Some node => flag (Fields node)
  | None => false
  end.

Definition invalid_entry (entry : Identifier) : ValidationError :=
  route_error ValidationRouteEntryInvalid "selected entry is absent or not entry-capable"
    "/from" (node_ids_details [entry]).
Definition no_terminal : ValidationError :=
  route_error ValidationRouteTerminalInvalid "at least one selected terminal is required"
    "/until" None.
Definition invalid_terminal (terminal : Identifier) : ValidationError :=
  route_error ValidationRouteTerminalInvalid
    "selected terminal is absent or not terminal-capable" "/until" (node_ids_details [terminal]).
Definition unreachable_terminal (terminal : Identifier) : ValidationError :=
  route_error ValidationRouteTerminalInvalid
    "selected terminal is unreachable from the selected entry" "/until"
    (node_ids_details [terminal]).

Definition validateRouteBoundaries (document : Document) (entry : Identifier)
    (terminals : list Identifier) : ValidationErrors :=
  let errors :=
    if node_flag nf_Entry document entry then [] else [invalid_entry entry] in
  if decide (length terminals = 0) then errors ++ [no_terminal]
  else
    errors ++ (invalid_terminal <$>
      filter (λ terminal, node_flag nf_Terminal document terminal = false) terminals).

(** * The included subgraph *)
Definition forward_targets (document : Document) (terminals : gset Identifier)
    (overrides : gmap Identifier bool) (current : Identifier) : list Identifier :=
  if decide (current ∈ terminals) then []
  else
    filter (λ target, is_Some (nodes_of document !! target))
      (Target <$> enabled_transitions document overrides current).

Definition forwardRouteNodes (document : Document) (entry : Identifier)
    (terminals : gset Identifier) (overrides : gmap Identifier bool) : gset Identifier :=
  pop_reachable (forward_targets document terminals overrides) (dom (nodes_of document)) [entry].

Definition validateReachableTerminals (terminals : list Identifier) (included : gset Identifier)
  : ValidationErrors :=
  unreachable_terminal <$> filter (λ terminal, terminal ∉ included) terminals.

Definition includedRouteTransitions `{!GoRange} (document : Document)
    (included terminals : gset Identifier) (overrides : gmap Identifier bool)
  : list RouteTransition :=
  flat_map (λ source,
    if decide (source ∉ included ∨ source ∈ terminals) then []
    else
      (λ t, {| rt_ID := ID t; rt_From := source; rt_To := Target t |}) <$>
        filter (λ t, Target t ∈ included) (enabled_transitions document overrides source))
    (sortedNodeIDs (nodes_of document)).

Definition route_edges (transitions : list RouteTransition) : list (Identifier * Identifier) :=
  (λ t, (rt_From t, rt_To t)) <$> transitions.

(** * Closure and policy *)
Definition can_reach_terminal `{!GoRange} (included terminals : gset Identifier)
    (transitions : list RouteTransition) : gset Identifier :=
  let reverse := reverse_index (route_edges transitions) in
  let stack := filter (λ terminal, terminal ∈ included)
                 (range_set "validateRouteClosure.terminals" terminals) in
  push_reachable (sources_of reverse) (list_to_set (rt_From <$> transitions) ∪ list_to_set stack)
    stack.

Definition path_incomplete (stranded : list Identifier) : ValidationError :=
  route_error ValidationRoutePathIncomplete
    "one or more possible enabled branches cannot reach the selected terminal boundary"
    "/" (node_ids_details stranded).

Definition validateRouteClosure `{!GoRange} (included terminals : gset Identifier)
    (transitions : list RouteTransition) : ValidationErrors :=
  let canReachTerminal := can_reach_terminal included terminals transitions in
  let stranded := filter (λ nodeID, nodeID ∉ canReachTerminal)
                    (range_set "validateRouteClosure.included" included) in
  if decide (length stranded = 0) then [] else [path_incomplete (sort_strings stranded)].

Definition policy_violation (missing : list Identifier) : ValidationError :=
  route_error ValidationRoutePolicyViolation
    "selected route bypasses one or more policy-required nodes" "/" (node_ids_details missing).

Definition validateRoutePolicy `{!GoRange} (document : Document) (included : gset Identifier)
    (required : list Identifier) : ValidationErrors :=
  let missing := filter (λ nodeID, nodes_of document !! nodeID = None ∨ nodeID ∉ included)
                   (range_set "validateRoutePolicy" (identifierSet required)) in
  if decide (length missing = 0) then [] else [policy_violation (sort_strings missing)].

(** * The projected parts *)
Definition project_join (incoming : list Identifier) (authored : option Join) : option Join :=
  match authored with
  | None => None
  | Some join =>
      if decide (length incoming = 0) then None
      else Some {| join_Mode := join_Mode join;
                   join_From := filter (λ id, id ∈ identifierSet incoming) (join_From join) |}
  end.

Definition projectedRouteNodes `{!GoRange} (document : Document) (included : gset Identifier)
    (transitions : list RouteTransition) : list RouteNode :=
  let incoming := reverse_index ((λ t, (rt_ID t, rt_To t)) <$> transitions) in
  (λ nodeID, {| rn_ID := nodeID;
                rn_Join := project_join (sources_of incoming nodeID)
                             (nodes_of document !! nodeID ≫= nf_Join ∘ Fields) |}) <$>
    filter (λ nodeID, nodeID ∈ included) (sortedNodeIDs (nodes_of document)).

Definition enabled_edges (document : Document) (overrides : gmap Identifier bool)
    (source : Identifier) : list (Identifier * Identifier) :=
  (λ t, (source, Target t)) <$> enabled_transitions document overrides source.

Definition reverseReachable `{!GoRange} (document : Document) (target : Identifier)
    (overrides : gmap Identifier bool) : gset Identifier :=
  let edges := flat_map (enabled_edges document overrides)
                 (range_map "reverseReachable" (nodes_of document)).*1 in
  push_reachable (sources_of (reverse_index edges)) (list_to_set edges.*1 ∪ {[target]}) [target].

Definition enabled_targets (document : Document) (overrides : gmap Identifier bool)
    (current : Identifier) : list Identifier :=
  Target <$> enabled_transitions document overrides current.

Definition forwardReachable `{!GoRange} (document : Document) (starts : gset Identifier)
    (overrides : gmap Identifier bool) : gset Identifier :=
  pop_reachable (enabled_targets document overrides) (dom (nodes_of document))
    (reverse (range_set "forwardReachable" starts)).

Definition exclusion_reason (before past : gset Identifier) (nodeID : Identifier)
  : ExclusionReason :=
  if decide (nodeID ∈ before) then ExclusionBeforeEntry
  else if decide (nodeID ∈ past) then ExclusionPastTerminal
  else ExclusionNotConnected.

Definition excludedRouteNodes `{!GoRange} (document : Document) (included : gset Identifier)
    (entry : Identifier) (terminals : gset Identifier) (overrides : gmap Identifier bool)
  : list ExcludedNode :=
  let before := reverseReachable document entry overrides in
  let past := forwardReachable document terminals overrides in
  (λ nodeID, {| en_ID := nodeID; en_Reason := exclusion_reason before past nodeID |}) <$>
    filter (λ nodeID, nodeID ∉ included) (sortedNodeIDs (nodes_of document)).

(** * Input requirements *)
Definition route_predecessors_of (index : gmap Identifier (list Identifier))
    (consumer : Identifier) : gset Identifier :=
  pop_reachable (sources_of index) (dom index) (reverse (sources_of index consumer))
    ∖ {[consumer]}.

Definition routePredecessors `{!GoRange} (transitions : list RouteTransition)
  : gmap Identifier (gset Identifier) :=
  let index := reverse_index (route_edges transitions) in
  foldl (λ result '(consumer, _), <[consumer := route_predecessors_of index consumer]> result)
    ∅ (range_map "routePredecessors" index).

Definition routeBindingAvailable (source : string) (consumer : Identifier)
    (predecessors : gmap Identifier (gset Identifier)) (context : RouteContext) : bool :=
  match splitReference source with
  | [p0; p1; p2] =>
      bool_decide (p0 = "run" ∧ p1 = "input" ∧ is_Some (rc_RunInputs context !! p2))
  | [p0; sourceNode; p2; output] =>
      if decide (p0 = "node" ∧ p2 = "output") then
        bool_decide (is_Some (rc_AcceptedOutputs context !! sourceNode ≫= lookup output)) ||
        bool_decide (sourceNode ∈ default ∅ (predecessors !! consumer))
      else false
  | _ => false
  end.

Definition input_requirement (nodeID inputID : Identifier) (source : string) : InputRequirement :=
  {| ir_Code := ValidationRunInputRequired; ir_Node := nodeID; ir_Input := inputID;
     ir_Source := source |}.

Definition missing_input (predecessors : gmap Identifier (gset Identifier))
    (context : RouteContext) (nodeID : Identifier) (inputs : gmap Identifier Binding)
    (inputID : Identifier) : option InputRequirement :=
  match inputs !! inputID with
  | Some (RequiredBinding from _ _ _) =>
      if routeBindingAvailable from nodeID predecessors context then None
      else Some (input_requirement nodeID inputID from)
  | _ => None
  end.

Definition inputs_of (document : Document) (id : Identifier) : gmap Identifier Binding :=
  match nodes_of document !! id with
  | Some node => nf_Inputs (Fields node)
  | None => ∅
  end.

Definition routeInputRequirements `{!GoRange} (document : Document) (included : gset Identifier)
    (transitions : list RouteTransition) (context : RouteContext) : list InputRequirement :=
  let predecessors := routePredecessors transitions in
  flat_map (λ nodeID,
    let inputs := inputs_of document nodeID in
    omap (missing_input predecessors context nodeID inputs) (sortedBindingIDs inputs))
    (filter (λ nodeID, nodeID ∈ included) (sortedNodeIDs (nodes_of document))).

(** * Route creation *)
Definition route_entry (document : Document) (request : RouteRequest) : Identifier :=
  if decide (rq_From request = "") then rd_Entry (spec_RouteDefaults (doc_Spec document))
  else rq_From request.
Definition route_terminals `{!GoRange} (document : Document) (request : RouteRequest)
  : list Identifier :=
  uniqueSortedIdentifiers
    (if decide (length (rq_Until request) = 0) then
       rd_Terminals (spec_RouteDefaults (doc_Spec document))
     else rq_Until request).

Definition createRoute `{!GoRange} (document : Document) (request : RouteRequest)
    (context : RouteContext) (overrides : gmap Identifier bool)
  : result ValidationErrors Route :=
  let entry := route_entry document request in
  let terminals := route_terminals document request in
  let errors := validateRouteBoundaries document entry terminals in
  if decide (length errors ≠ 0) then Err (sortValidationErrors errors)
  else
    let terminalSet := identifierSet terminals in
    let included := forwardRouteNodes document entry terminalSet overrides in
    let transitions := includedRouteTransitions document included terminalSet overrides in
    let errors := validateReachableTerminals terminals included ++
                  validateRouteClosure included terminalSet transitions ++
                  validateRoutePolicy document included (rc_RequiredNodes context) in
    if decide (length errors ≠ 0) then Err (sortValidationErrors errors)
    else Ok {|
      route_Assessment := "";
      route_Entry := entry;
      route_Terminals := terminals;
      route_Nodes := projectedRouteNodes document included transitions;
      route_Transitions := transitions;
      route_ExcludedNodes := excludedRouteNodes document included entry terminalSet overrides;
      route_InputRequirements := routeInputRequirements document included transitions context;
    |}.

Definition CreateRoute `{!GoRange} (document : Document) (request : RouteRequest)
    (context : RouteContext) : result ValidationErrors Route :=
  createRoute document request context ∅.

(** [for id, value := range from { into[id] = value }] *)
Definition copy_into `{!GoRange} (site : string) (into from : gmap Identifier RawMessage)
  : gmap Identifier RawMessage :=
  foldl (λ m '(id, value), <[id := value]> m) into (range_map site from).

Definition absent_profile (profileID : Identifier) : ValidationError :=
  route_error ValidationRouteEntryInvalid "selected route profile is absent" "/profile"
    (Some {[ "profileIds" := [profileID] ]}).

Definition CreateProfileRoute `{!GoRange} (document : Document) (profileID : Identifier)
    (context : RouteContext) : result ValidationErrors Route :=
  match spec_Profiles (doc_Spec document) !! profileID with
  | None => Err [absent_profile profileID]
  | Some profile =>
      let merged := {|
        rc_RunInputs :=
          copy_into "CreateProfileRoute.context"
            (copy_into "CreateProfileRoute.profile" ∅ (rpf_InputDefaults profile))
            (rc_RunInputs context);
        rc_AcceptedOutputs := rc_AcceptedOutputs context;
        rc_RequiredNodes := rc_RequiredNodes context;
      |} in
      CreateRoute document
        {| rq_From := rpf_Entry profile; rq_Until := rpf_Terminals profile |} merged
  end.

(** * Graphs of a document *)

(** One enabled step of the forward traversal: it stops at the selected terminals. *)
Definition forward_step (document : Document) (terminals : list Identifier)
    (overrides : gmap Identifier bool) (x y : Identifier) : Prop :=
  x ∉ terminals ∧ is_Some (nodes_of document !! y) ∧
  ∃ t, t ∈ enabled_transitions document overrides x ∧ Target t = y.

(** One enabled step of the authored workflow, terminals ignored. *)
Definition enabled_step (document : Document) (overrides : gmap Identifier bool)
    (x y : Identifier) : Prop :=
  ∃ t, t ∈ enabled_transitions document overrides x ∧ Target t = y.

(** One step along the transitions of a route. *)
Definition route_step (transitions : list RouteTransition) (x y : Identifier) : Prop :=
  ∃ t, t ∈ transitions ∧ rt_From t = x ∧ rt_To t = y.

(** When a route range is authorised. *)
Record admissible (document : Document) (entry : Identifier) (terminals : list Identifier)
    (overrides : gmap Identifier bool) (required : list Identifier) : Prop := {
  adm_entry : node_flag nf_Entry document entry = true;
  adm_some_terminal : terminals ≠ [];
  adm_terminals : ∀ t, t ∈ terminals → node_flag nf_Terminal document t = true;
  adm_reachable : ∀ t, t ∈ terminals → rtc (forward_step document terminals overrides) entry t;
  adm_closed : ∀ x, rtc (forward_step document terminals overrides) entry x →
    ∃ t, t ∈ terminals ∧ rtc (forward_step document terminals overrides) x t;
  adm_required : ∀ x, x ∈ required → rtc (forward_step document terminals overrides) entry x;
}.

(** * Lemmas *)
Section sorted_ids.
Context `{!GoRange}.

Lemma elem_of_sortedIDs {A} site (m : gmap Identifier A) k :
  k ∈ sortedIDs site m ↔ is_Some (m !! k).
Proof.
  unfold sortedIDs. rewrite elem_of_sort_strings, list_elem_of_fmap. split.
  - intros ([k' a] & -> & Hin). apply elem_of_range_map in Hin. by exists a.
  - intros [a Ha]. exists (k, a). by rewrite elem_of_range_map.
Qed.

Lemma sortedIDs_canonical {A} site (m : gmap Identifier A) :
  sortedIDs site m = sort_strings (elements (dom m)).
Proof.
  unfold sortedIDs. apply sort_strings_proper, NoDup_Permutation.
  - unfold range_map. rewrite range_perm. apply NoDup_fst_map_to_list.
  - apply NoDup_elements.
  - intros k. rewrite elem_of_elements, elem_of_dom, <-(elem_of_sortedIDs site).
    unfold sortedIDs. by rewrite elem_of_sort_strings.
Qed.

Lemma sortedIDs_sorted {A} site (m : gmap Identifier A) :
  StronglySorted String.le (sortedIDs site m).
Proof. apply sort_strings_sorted. Qed.

Lemma sortedIDs_NoDup {A} site (m : gmap Identifier A) : NoDup (sortedIDs site m).
Proof. rewrite sortedIDs_canonical, sort_strings_NoDup. apply NoDup_elements. Qed.

Lemma uniqueSortedIdentifiers_canonical values :
  uniqueSortedIdentifiers values = sort_strings (elements (identifierSet values)).
Proof. unfold uniqueSortedIdentifiers. apply sort_strings_proper, range_set_perm. Qed.

Lemma elem_of_uniqueSortedIdentifiers x values :
  x ∈ uniqueSortedIdentifiers values ↔ x ∈ values.
Proof.
  rewrite uniqueSortedIdentifiers_canonical, elem_of_sort_strings, elem_of_elements.
  apply elem_of_list_to_set.
Qed.

Lemma uniqueSortedIdentifiers_sorted values :
  StronglySorted String.le (uniqueSortedIdentifiers values) ∧
  NoDup (uniqueSortedIdentifiers values).
Proof.
  rewrite uniqueSortedIdentifiers_canonical. split; [apply sort_strings_sorted|].
  rewrite sort_strings_NoDup. apply NoDup_elements.
Qed.
End sorted_ids.
#[export] Hint Resolve sortedIDs_sorted sortedIDs_NoDup : go.

Section included.
Variables (document : Document) (entry : Identifier) (terminals : list Identifier)
  (overrides : gmap Identifier bool).
Abbreviation step := (forward_step document terminals overrides).
Abbreviation included := (forwardRouteNodes document entry (identifierSet terminals) overrides).
Implicit Types x y : Identifier.

Lemma elem_of_enabled_targets x y :
  y ∈ enabled_targets document overrides x ↔ enabled_step document overrides x y.
Proof.
  unfold enabled_targets, enabled_step. rewrite list_elem_of_fmap.
  split; intros (t & ? & ?); exists t; naive_solver.
Qed.

Lemma elem_of_forward_targets x y :
  y ∈ forward_targets document (identifierSet terminals) overrides x ↔ step x y.
Proof.
  unfold forward_targets, forward_step. case_decide as Hx.
  - apply elem_of_list_to_set in Hx. rewrite elem_of_nil. naive_solver.
  - rewrite list_elem_of_filter. fold (enabled_targets document overrides x).
    rewrite elem_of_enabled_targets. unfold identifierSet in Hx.
    rewrite elem_of_list_to_set in Hx. unfold enabled_step. naive_solver.
Qed.

Lemma enabled_transitions_absent x :
  x ∉ dom (nodes_of document) → enabled_transitions document overrides x = [].
Proof.
  intros Hx%not_elem_of_dom. unfold enabled_transitions, transitions_of. by rewrite Hx.
Qed.

Lemma elem_of_forwardRouteNodes y : y ∈ included ↔ rtc step entry y.
Proof.
  unfold forwardRouteNodes. rewrite elem_of_pop_reachable.
  - unfold reachable_from. setoid_rewrite list_elem_of_singleton. split.
    + intros (x & -> & Hr). eapply rtc_subrel; [|exact Hr].
      intros ??. apply elem_of_forward_targets.
    + intros Hr. exists entry. split; [done|]. eapply rtc_subrel; [|exact Hr].
      intros ??. apply elem_of_forward_targets.
  - intros x Hx. unfold forward_targets. case_decide; [done|].
    by rewrite enabled_transitions_absent.
Qed.

Lemma included_subset y :
  is_Some (nodes_of document !! entry) → y ∈ included → is_Some (nodes_of document !! y).
Proof.
  intros He Hy%elem_of_forwardRouteNodes.
  apply rtc_inv_r in Hy as [->|(z & _ & _ & ? & _)]; done.
Qed.

Lemma elem_of_includedRouteTransitions `{!GoRange} (X : gset Identifier) t :
  t ∈ includedRouteTransitions document X (identifierSet terminals) overrides ↔
  rt_From t ∈ X ∧ rt_To t ∈ X ∧ rt_From t ∉ terminals ∧
  ∃ tr, tr ∈ enabled_transitions document overrides (rt_From t) ∧
        ID tr = rt_ID t ∧ Target tr = rt_To t.
Proof.
  unfold includedRouteTransitions.
  rewrite list_elem_of_In, in_flat_map. setoid_rewrite <-list_elem_of_In. split.
  - intros (x & Hx & Ht). case_decide as Hc; [by apply elem_of_nil in Ht|].
    apply list_elem_of_fmap in Ht as (tr & -> & [Htr Hin]%list_elem_of_filter). simpl.
    unfold identifierSet in Hc. rewrite elem_of_list_to_set in Hc.
    split_and!; [by destruct (decide (x ∈ X)); [|naive_solver]|done|naive_solver|by exists tr].
  - intros (HF & HT & Hnt & tr & Htr & Hid & Htgt). exists (rt_From t). split.
    + unfold sortedNodeIDs. rewrite elem_of_sortedIDs.
      destruct (nodes_of document !! rt_From t) eqn:E; [by eexists|].
      rewrite enabled_transitions_absent in Htr by (by apply not_elem_of_dom).
      by apply elem_of_nil in Htr.
    + rewrite decide_False; last (unfold identifierSet; rewrite elem_of_list_to_set; naive_solver).
      apply list_elem_of_fmap. exists tr. rewrite list_elem_of_filter, Htgt.
      destruct t; simpl in *; by subst.
Qed.

(** Between included nodes the retained transitions are the forward steps. *)
Lemma route_step_included `{!GoRange} x y :
  is_Some (nodes_of document !! entry) →
  route_step (includedRouteTransitions document included (identifierSet terminals) overrides) x y
  ↔ x ∈ included ∧ step x y.
Proof.
  intros He. unfold route_step. split.
  - intros (t & Ht & <- & <-). apply elem_of_includedRouteTransitions in Ht
      as (HF & HT & Hnt & tr & Htr & _ & Htgt).
    split; [done|]. split_and!; [done|by eapply included_subset|eauto].
  - intros (Hx & Hstep). pose proof Hstep as (Hnt & Hy & tr & Htr & <-).
    exists {| rt_ID := ID tr; rt_From := x; rt_To := Target tr |}.
    rewrite elem_of_includedRouteTransitions. simpl. split_and!; try done; [|by eauto].
    rewrite elem_of_forwardRouteNodes in *. by eapply rtc_r.
Qed.

Lemma route_reach_included `{!GoRange} x y :
  is_Some (nodes_of document !! entry) → x ∈ included →
  rtc (route_step
    (includedRouteTransitions document included (identifierSet terminals) overrides)) x y
  ↔ rtc step x y.
Proof.
  intros He Hx. split.
  - apply rtc_subrel. intros a b. rewrite route_step_included by done. by intros [].
  - intros Hr. revert Hx. induction Hr as [|a b c Hab Hbc IH]; intros Ha; [apply rtc_refl|].
    eapply rtc_l; [by apply route_step_included|]. apply IH.
    rewrite elem_of_forwardRouteNodes in *. by eapply rtc_r.
Qed.
End included.

(** * Backward closure *)
Section closure.
Context `{!GoRange}.
Implicit Types (X terminals : gset Identifier) (transitions : list RouteTransition).

Lemma elem_of_route_sources transitions x y :
  x ∈ sources_of (reverse_index (route_edges transitions)) y ↔ route_step transitions x y.
Proof.
  rewrite elem_of_sources_of. unfold route_edges, route_step. rewrite list_elem_of_fmap.
  split; [intros (t & [= -> ->] & Ht); by eauto|intros (t & Ht & <- & <-); by eauto].
Qed.

Lemma reaches_sources transitions x y :
  reaches (sources_of (reverse_index (route_edges transitions))) y x ↔
  rtc (route_step transitions) x y.
Proof.
  split.
  - intros Hr. induction Hr as [|a b c Hab Hbc IH]; [apply rtc_refl|].
    eapply rtc_r; [exact IH|]. by apply elem_of_route_sources.
  - intros Hr. induction Hr as [|a b c Hab Hbc IH]; [apply rtc_refl|].
    eapply rtc_r; [exact IH|]. by apply elem_of_route_sources.
Qed.

Lemma elem_of_can_reach_terminal X terminals transitions x :
  x ∈ can_reach_terminal X terminals transitions ↔
  ∃ t, t ∈ terminals ∧ t ∈ X ∧ rtc (route_step transitions) x t.
Proof.
  unfold can_reach_terminal. rewrite elem_of_push_reachable.
  - unfold reachable_from. setoid_rewrite list_elem_of_filter.
    setoid_rewrite elem_of_range_set. setoid_rewrite reaches_sources. naive_solver.
  - intros a b (t & Ht & <- & <-)%elem_of_route_sources.
    apply elem_of_union_l, elem_of_list_to_set, list_elem_of_fmap. eauto.
  - intros a Ha. by apply elem_of_union_r, elem_of_list_to_set.
Qed.

(** The identifiers a check reports: sorted, and exactly those that satisfy [P]. *)
Definition reports (P : Identifier → Prop) (ids : list Identifier) : Prop :=
  ids ≠ [] ∧ StronglySorted String.le ids ∧ NoDup ids ∧ ∀ x, x ∈ ids ↔ P x.

Lemma elem_of_reported site X (P : Identifier → Prop) `{∀ x, Decision (P x)}
    (mk : list Identifier → ValidationError) e :
  e ∈ (let l := filter P (range_set site X) in
       if decide (length l = 0) then [] else [mk (sort_strings l)]) ↔
  ∃ ids, reports (λ x, x ∈ X ∧ P x) ids ∧ e = mk ids.
Proof.
  assert (reports (λ x, x ∈ X ∧ P x) (sort_strings (filter P (range_set site X))) ↔
    filter P (range_set site X) ≠ []) as Hrep.
  { unfold reports. rewrite sort_strings_nil. split; [by intros []|]. intros Hne.
    split_and!; [done|apply sort_strings_sorted| |].
    - rewrite sort_strings_NoDup. apply list.NoDup_filter. rewrite range_set_perm.
      apply NoDup_elements.
    - intros x. rewrite elem_of_sort_strings, list_elem_of_filter, elem_of_range_set.
      naive_solver. }
  cbn zeta. case_decide as Hlen.
  - apply nil_length_inv in Hlen. rewrite elem_of_nil. split; [done|].
    intros (ids & (Hne & _ & _ & Hids) & ->). destruct ids as [|x ids]; [done|].
    assert (x ∈ X ∧ P x) as [HX HP] by (apply Hids; by left).
    assert (x ∈ filter P (range_set site X)) as Hx.
    { rewrite list_elem_of_filter, elem_of_range_set. done. }
    rewrite Hlen in Hx. by apply elem_of_nil in Hx.
  - rewrite list_elem_of_singleton. split.
    + intros ->. eexists. split; [|done]. apply Hrep. by intros Hnil; rewrite Hnil in Hlen.
    + intros (ids & (_ & Hs & Hnd & Hids) & ->). f_equal.
      apply (StronglySorted_unique String.le); [done|apply sort_strings_sorted|].
      rewrite sort_strings_perm. apply NoDup_Permutation; [done| |].
      * apply list.NoDup_filter. rewrite range_set_perm. apply NoDup_elements.
      * intros x. rewrite Hids, list_elem_of_filter, elem_of_range_set. naive_solver.
Qed.

Lemma reported_nil site X (P : Identifier → Prop) `{∀ x, Decision (P x)}
    (mk : list Identifier → ValidationError) :
  (let l := filter P (range_set site X) in
   if decide (length l = 0) then [] else [mk (sort_strings l)]) = [] ↔
  ∀ x, x ∈ X → ¬ P x.
Proof.
  cbn zeta. case_decide as Hlen; (split; [|try done]).
  - intros _ x Hx HP. apply nil_length_inv in Hlen.
    assert (x ∈ filter P (range_set site X)) as Hin.
    { by rewrite list_elem_of_filter, elem_of_range_set. }
    rewrite Hlen in Hin. by apply elem_of_nil in Hin.
  - done.
  - intros Hno. destruct (filter P _) as [|x l] eqn:E; [done|].
    assert (x ∈ filter P (range_set site X)) as Hin by (rewrite E; by left).
    rewrite list_elem_of_filter, elem_of_range_set in Hin. naive_solver.
Qed.

Lemma validateRouteClosure_nil X terminals transitions :
  validateRouteClosure X terminals transitions = [] ↔
  ∀ x, x ∈ X → ∃ t, t ∈ terminals ∧ t ∈ X ∧ rtc (route_step transitions) x t.
Proof.
  unfold validateRouteClosure. rewrite (reported_nil _ _ _ path_incomplete).
  apply forall_proper. intros x. rewrite elem_of_can_reach_terminal.
  destruct (decide (x ∈ can_reach_terminal X terminals transitions)) as [Hx|Hx];
    rewrite elem_of_can_reach_terminal in Hx; naive_solver.
Qed.

Lemma validateRoutePolicy_nil document X required :
  validateRoutePolicy document X required = [] ↔
  ∀ x, x ∈ required → is_Some (nodes_of document !! x) ∧ x ∈ X.
Proof.
  unfold validateRoutePolicy. rewrite (reported_nil _ _ _ policy_violation).
  unfold identifierSet. setoid_rewrite elem_of_list_to_set.
  apply forall_proper. intros x. rewrite <-not_eq_None_Some.
  destruct (decide (x ∈ X)), (decide (nodes_of document !! x = None)); naive_solver.
Qed.

Lemma elem_of_validateRouteClosure X terminals transitions e :
  e ∈ validateRouteClosure X terminals transitions ↔
  ∃ ids, reports (λ x, x ∈ X ∧
    ¬ ∃ t, t ∈ terminals ∧ t ∈ X ∧ rtc (route_step transitions) x t) ids ∧
    e = path_incomplete ids.
Proof.
  unfold validateRouteClosure. rewrite (elem_of_reported _ _ _ path_incomplete).
  unfold reports. by setoid_rewrite elem_of_can_reach_terminal.
Qed.

Lemma elem_of_validateRoutePolicy document X required e :
  e ∈ validateRoutePolicy document X required ↔
  ∃ ids, reports (λ x, x ∈ required ∧ (nodes_of document !! x = None ∨ x ∉ X)) ids ∧
    e = policy_violation ids.
Proof.
  unfold validateRoutePolicy. rewrite (elem_of_reported _ _ _ policy_violation).
  unfold reports, identifierSet. by setoid_rewrite elem_of_list_to_set.
Qed.
End closure.

(** * Exclusion reasons and predecessors *)
Section reasons.
Context `{!GoRange}.
Variables (document : Document) (overrides : gmap Identifier bool).

Lemma elem_of_enabled_edges x y :
  (x, y) ∈ flat_map (enabled_edges document overrides)
             (range_map "reverseReachable" (nodes_of document)).*1 ↔
  enabled_step document overrides x y.
Proof.
  rewrite list_elem_of_In, in_flat_map. setoid_rewrite <-list_elem_of_In.
  unfold enabled_edges, enabled_step. setoid_rewrite list_elem_of_fmap. split.
  - intros (z & _ & t & [= -> ->] & Ht). by eauto.
  - intros (t & Ht & <-). exists x. split; [|by eauto].
    destruct (nodes_of document !! x) as [n|] eqn:E.
    + exists (x, n). by rewrite elem_of_range_map.
    + rewrite enabled_transitions_absent in Ht by (by apply not_elem_of_dom).
      by apply elem_of_nil in Ht.
Qed.

Lemma elem_of_reverseReachable target x :
  x ∈ reverseReachable document target overrides ↔
  rtc (enabled_step document overrides) x target.
Proof.
  unfold reverseReachable. rewrite elem_of_push_reachable.
  - unfold reachable_from. setoid_rewrite list_elem_of_singleton. split.
    + intros (? & -> & Hr). induction Hr as [|a b c Hab Hbc IH]; [apply rtc_refl|].
      eapply rtc_r; [exact IH|]. by apply elem_of_enabled_edges, elem_of_sources_of.
    + intros Hr. exists target. split; [done|].
      induction Hr as [|a b c Hab Hbc IH]; [apply rtc_refl|].
      eapply rtc_r; [exact IH|]. by apply elem_of_sources_of, elem_of_enabled_edges.
  - intros a b Hb%elem_of_sources_of. apply elem_of_union_l, elem_of_list_to_set.
    apply list_elem_of_fmap. by exists (b, a).
  - intros a Ha%list_elem_of_singleton. set_solver.
Qed.

Lemma elem_of_forwardReachable starts x :
  x ∈ forwardReachable document starts overrides ↔
  ∃ start, start ∈ starts ∧ rtc (enabled_step document overrides) start x.
Proof.
  unfold forwardReachable. rewrite elem_of_pop_reachable.
  - unfold reachable_from. setoid_rewrite elem_of_reverse.
    setoid_rewrite elem_of_range_set.
    split; intros (s & ? & Hr); exists s; (split; [done|]); revert Hr;
      apply rtc_subrel; intros ??; apply elem_of_enabled_targets.
  - intros y Hy. unfold enabled_targets. by rewrite enabled_transitions_absent.
Qed.
End reasons.

Lemma tc_last {A} (R : relation A) x y : tc R x y ↔ ∃ z, rtc R x z ∧ R z y.
Proof.
  split.
  - induction 1 as [x y Hxy|x y z Hxy Hyz (w & Hyw & Hwz)]; [by eauto using rtc_refl|].
    exists w. split; [by eapply rtc_l|done].
  - intros (z & Hxz & Hzy). eapply tc_rtc_l; [done|by apply tc_once].
Qed.

Section predecessors.
Context `{!GoRange}.

Lemma lookup_foldl_insert {A B} (f : Identifier → B) (l : list (Identifier * A))
    (m : gmap Identifier B) k :
  foldl (λ m '(k, _), <[k := f k]> m) m l !! k =
  if decide (k ∈ l.*1) then Some (f k) else m !! k.
Proof.
  revert m. induction l as [|[k' a] l IH]; intros m.
  { case_decide as Hk; [by apply elem_of_nil in Hk|done]. }
  cbn [foldl fmap list_fmap fst].
  rewrite IH. destruct (decide (k = k')) as [->|Hne].
  - rewrite lookup_insert_eq. repeat case_decide; set_solver.
  - rewrite lookup_insert_ne by done. repeat case_decide; set_solver.
Qed.

(** The predecessors of a node are its proper ancestors in the route. *)
Lemma elem_of_routePredecessors transitions consumer x :
  x ∈ default ∅ (routePredecessors transitions !! consumer) ↔
  x ≠ consumer ∧ tc (route_step transitions) x consumer.
Proof.
  unfold routePredecessors. rewrite lookup_foldl_insert, lookup_empty.
  set (index := reverse_index _).
  assert (∀ y z, z ∈ sources_of index y ↔ route_step transitions z y) as Hidx.
  { intros. apply elem_of_route_sources. }
  assert (∀ y z, reaches (sources_of index) y z ↔ rtc (route_step transitions) z y) as Hreach.
  { intros. apply reaches_sources. }
  assert (consumer ∈ (range_map "routePredecessors" index).*1 ↔ is_Some (index !! consumer))
    as Hdom.
  { rewrite list_elem_of_fmap. split.
    - intros ([k a] & -> & Hin). apply elem_of_range_map in Hin. by eauto.
    - intros [a Ha]. exists (consumer, a). by rewrite elem_of_range_map. }
  case_decide as Hc; simpl.
  - unfold route_predecessors_of. rewrite elem_of_difference, elem_of_singleton.
    rewrite elem_of_pop_reachable.
    + rewrite tc_last. unfold reachable_from. setoid_rewrite elem_of_reverse.
      setoid_rewrite Hidx. setoid_rewrite Hreach. naive_solver.
    + intros y Hy%not_elem_of_dom. unfold sources_of. by rewrite Hy.
  - rewrite elem_of_empty. split; [done|]. intros [_ (y & _ & Hy)%tc_last].
    apply Hc, Hdom. apply Hidx in Hy. unfold sources_of in Hy.
    destruct (index !! consumer); [by eauto|]. by apply elem_of_nil in Hy.
Qed.
End predecessors.

(** * The derivation, unfolded *)
Section derivation.
Context `{!GoRange}.
Variables (document : Document) (request : RouteRequest) (context : RouteContext)
  (overrides : gmap Identifier bool).
Abbreviation entry := (route_entry document request).
Abbreviation terminals := (route_terminals document request).
Abbreviation step := (forward_step document terminals overrides).
Abbreviation included := (forwardRouteNodes document entry (identifierSet terminals) overrides).
Abbreviation transitions :=
  (includedRouteTransitions document included (identifierSet terminals) overrides).
Implicit Types x : Identifier.

Lemma validateRouteBoundaries_nil (ts : list Identifier) e :
  validateRouteBoundaries document e ts = [] ↔
  node_flag nf_Entry document e = true ∧ ts ≠ [] ∧
  ∀ t, t ∈ ts → node_flag nf_Terminal document t = true.
Proof.
  unfold validateRouteBoundaries. destruct (node_flag nf_Entry document e); simpl.
  - destruct ts as [|t0 ts]; [naive_solver|]. rewrite decide_False by done.
    split.
    + intros Hnil%fmap_nil_inv. split_and!; [done..|]. intros t Ht.
      destruct (node_flag nf_Terminal document t) eqn:E; [done|].
      assert (t ∈ filter (λ t, node_flag nf_Terminal document t = false) (t0 :: ts)) as Hin.
      { by apply list_elem_of_filter. }
      rewrite Hnil in Hin. by apply elem_of_nil in Hin.
    + intros (_ & _ & Ht). destruct (filter _ _) as [|t l] eqn:E; [done|].
      assert (t ∈ filter (λ t, node_flag nf_Terminal document t = false) (t0 :: ts)) as Hin.
      { rewrite E. by left. }
      apply list_elem_of_filter in Hin as [Hf Hin]. by rewrite Ht in Hf.
  - case_decide; naive_solver.
Qed.

Lemma node_flag_exists flag x :
  node_flag flag document x = true → is_Some (nodes_of document !! x).
Proof. unfold node_flag. destruct (nodes_of document !! x); [by eauto|done]. Qed.

Lemma validateReachableTerminals_nil (ts : list Identifier) (X : gset Identifier) :
  validateReachableTerminals ts X = [] ↔ ∀ t, t ∈ ts → t ∈ X.
Proof.
  unfold validateReachableTerminals. split.
  - intros Hnil%fmap_nil_inv t Ht. destruct (decide (t ∈ X)) as [|Hn]; [done|].
    assert (t ∈ filter (λ t, t ∉ X) ts) as Hin by (by apply list_elem_of_filter).
    rewrite Hnil in Hin. by apply elem_of_nil in Hin.
  - intros Hall. destruct (filter _ ts) as [|t l] eqn:E; [done|].
    assert (t ∈ filter (λ t, t ∉ X) ts) as [Hn ?]%list_elem_of_filter by (rewrite E; by left).
    naive_solver.
Qed.

Lemma entry_exists ts :
  validateRouteBoundaries document entry ts = [] → is_Some (nodes_of document !! entry).
Proof. intros (He & _)%validateRouteBoundaries_nil. by eapply node_flag_exists. Qed.

(** The accepted derivations. *)
Lemma createRoute_Ok route :
  createRoute document request context overrides = Ok route ↔
  validateRouteBoundaries document entry terminals = [] ∧
  validateReachableTerminals terminals included = [] ∧
  validateRouteClosure included (identifierSet terminals) transitions = [] ∧
  validateRoutePolicy document included (rc_RequiredNodes context) = [] ∧
  route = {|
    route_Assessment := "";
    route_Entry := entry;
    route_Terminals := terminals;
    route_Nodes := projectedRouteNodes document included transitions;
    route_Transitions := transitions;
    route_ExcludedNodes :=
      excludedRouteNodes document included entry (identifierSet terminals) overrides;
    route_InputRequirements := routeInputRequirements document included transitions context;
  |}.
Proof.
  unfold createRoute. cbv zeta.
  destruct (validateRouteBoundaries document entry terminals) as [|e l]; simpl; [|naive_solver].
  destruct (decide _) as [Hlen|Hlen].
  - split; [done|]. intros (_ & H1 & H2 & H3 & _). by rewrite H1, H2, H3 in Hlen.
  - apply dec_stable in Hlen. rewrite !length_app in Hlen. split.
    + intros [= <-]. split_and!; try done; apply nil_length_inv; lia.
    + by intros (_ & _ & _ & _ & ->).
Qed.

Lemma createRoute_admissible :
  is_ok (createRoute document request context overrides) = true ↔
  admissible document entry terminals overrides (rc_RequiredNodes context).
Proof.
  assert (is_ok (createRoute document request context overrides) = true ↔
    validateRouteBoundaries document entry terminals = [] ∧
    validateReachableTerminals terminals included = [] ∧
    validateRouteClosure included (identifierSet terminals) transitions = [] ∧
    validateRoutePolicy document included (rc_RequiredNodes context) = []) as ->.
  { transitivity (∃ r, createRoute document request context overrides = Ok r).
    - destruct (createRoute _ _ _ _); naive_solver.
    - setoid_rewrite createRoute_Ok. naive_solver. }
  rewrite validateReachableTerminals_nil, validateRouteClosure_nil, validateRoutePolicy_nil,
    validateRouteBoundaries_nil.
  setoid_rewrite elem_of_forwardRouteNodes. unfold identifierSet.
  setoid_rewrite elem_of_list_to_set.
  assert (node_flag nf_Entry document entry = true → ∀ x y, rtc step entry x →
    rtc (route_step transitions) x y ↔ rtc step x y) as Hreach.
  { intros He x y Hx. apply route_reach_included; [by eapply node_flag_exists|].
    by apply elem_of_forwardRouteNodes. }
  split.
  - intros ((He & Hne & Ht) & Hr & Hc & Hp). split; try done.
    + intros x Hx. destruct (Hc x Hx) as (t & Htt & _ & Hxt). exists t.
      split; [done|]. by apply Hreach.
    + intros x Hx. by apply Hp.
  - intros [He Hne Ht Hr Hc Hp]. split_and!; try done.
    + intros x Hx. destruct (Hc x Hx) as (t & Htt & Hxt). exists t. split_and!; [done|by etrans|].
      by apply Hreach.
    + intros x Hx. pose proof (Hp x Hx) as Hex. split; [|done].
      apply rtc_inv_r in Hex as [<-|(z & _ & _ & ? & _)]; [by eapply node_flag_exists|done].
Qed.
End derivation.

(** * Properties *)
Section properties.
#[local] Set Default Proof Using "All".
Context `{!GoRange}.
Variables (document : Document) (request : RouteRequest) (context : RouteContext)
  (overrides : gmap Identifier bool) (route : Route).
Hypothesis Hroute : createRoute document request context overrides = Ok route.
Abbreviation step := (forward_step document (route_Terminals route) overrides).
Abbreviation included :=
  (forwardRouteNodes document (route_Entry route) (identifierSet (route_Terminals route))
     overrides).
Implicit Types x : Identifier.

Lemma route_fields :
  is_Some (nodes_of document !! route_Entry route) ∧
  route_Entry route = route_entry document request ∧
  route_Terminals route = route_terminals document request ∧
  route_Transitions route = includedRouteTransitions document included
    (identifierSet (route_Terminals route)) overrides ∧
  route_Nodes route = projectedRouteNodes document included (route_Transitions route) ∧
  route_ExcludedNodes route = excludedRouteNodes document included (route_Entry route)
    (identifierSet (route_Terminals route)) overrides ∧
  route_InputRequirements route =
    routeInputRequirements document included (route_Transitions route) context.
Proof.
  apply createRoute_Ok in Hroute as (Hb & _ & _ & _ & ->). simpl.
  split_and!; try done. by eapply entry_exists.
Qed.

Lemma route_admissible :
  admissible document (route_Entry route) (route_Terminals route) overrides
    (rc_RequiredNodes context).
Proof.
  destruct route_fields as (_ & -> & -> & _).
  apply createRoute_admissible. by rewrite Hroute.
Qed.

Lemma route_node_ids :
  rn_ID <$> route_Nodes route =
  filter (λ x, x ∈ included) (sortedNodeIDs (nodes_of document)).
Proof.
  destruct route_fields as (_ & _ & _ & _ & -> & _). unfold projectedRouteNodes.
  rewrite <-list_fmap_compose. apply list_fmap_id.
Qed.

Lemma elem_of_route_nodes x :
  x ∈ rn_ID <$> route_Nodes route ↔ rtc step (route_Entry route) x.
Proof.
  rewrite route_node_ids, list_elem_of_filter, elem_of_forwardRouteNodes.
  unfold sortedNodeIDs. rewrite elem_of_sortedIDs. split; [by intros []|].
  intros Hr. split; [done|]. apply (included_subset document (route_Entry route)
    (route_Terminals route) overrides); [apply route_fields|].
  by apply elem_of_forwardRouteNodes.
Qed.

Lemma route_excluded_ids :
  en_ID <$> route_ExcludedNodes route =
  filter (λ x, x ∉ included) (sortedNodeIDs (nodes_of document)).
Proof.
  destruct route_fields as (_ & _ & _ & _ & _ & -> & _). unfold excludedRouteNodes.
  rewrite <-list_fmap_compose. apply list_fmap_id.
Qed.

Lemma route_steps x y :
  route_step (route_Transitions route) x y ↔ rtc step (route_Entry route) x ∧ step x y.
Proof.
  destruct route_fields as (He & _ & _ & -> & _).
  by rewrite route_step_included, elem_of_forwardRouteNodes.
Qed.

Lemma route_reaches x y :
  rtc step (route_Entry route) x →
  rtc (route_step (route_Transitions route)) x y ↔ rtc step x y.
Proof.
  destruct route_fields as (He & _ & _ & -> & _). intros Hx.
  apply route_reach_included; [done|]. by apply elem_of_forwardRouteNodes.
Qed.
End properties.

(** ** An example workflow *)
Definition ex_fields (entry terminal : bool) (inputs : gmap Identifier Binding)
    (join : option Join) (transitions : list Transition) : NodeFields := {|
  nf_Prompt := None; nf_DisplayName := ""; nf_Definition := None;
  nf_Entry := entry; nf_Terminal := terminal; nf_Inputs := inputs; nf_Outputs := ∅;
  nf_Readiness := None; nf_Validators := []; nf_Retry := None; nf_Checkpoint := None;
  nf_TransitionMode := ""; nf_Join := join; nf_Permissions := []; nf_Transitions := transitions;
|}.
Definition ex_node fields : Node :=
  GateNode fields {| ge_Policy := "gate"; ge_Condition := ConstantPredicate true |}.
Definition ex_to (id to : Identifier) : Transition :=
  NormalTransition {| tf_TransitionID := id; tf_To := to; tf_When := NilPredicate;
                      tf_EnabledByDefault := None |}.
Definition ex_loop (id to : Identifier) (max : Z) : Transition :=
  BoundedTransition {| tf_TransitionID := id; tf_To := to; tf_When := NilPredicate;
                       tf_EnabledByDefault := None |} max.
Definition ex_off (id to : Identifier) : Transition :=
  NormalTransition {| tf_TransitionID := id; tf_To := to; tf_When := NilPredicate;
                      tf_EnabledByDefault := Some false |}.

Definition ex_document : Document := {|
  doc_APIVersion := ""; doc_Kind := "";
  doc_Metadata := {| md_Name := "demo"; md_Version := "1"; md_DisplayName := "";
                     md_Description := "" |};
  doc_Spec := {|
    spec_Inputs := ∅;
    spec_RouteDefaults := {| rd_Entry := "plan"; rd_Terminals := ["review"] |};
    spec_Profiles := {[ "quick" :=
      {| rpf_Description := ""; rpf_Entry := "build"; rpf_Terminals := ["review"; "review"];
         rpf_InputDefaults := {[ "goal" := "1"; "mode" := "2" ]} |} ]};
    spec_Nodes := list_to_map [
      ("draft", ex_node (ex_fields true false ∅ None [ex_to "t_draft" "plan"]));
      ("plan", ex_node (ex_fields true false
        {[ "goal" := RequiredBinding "run.input.goal" "" "string" "" ]} None
        [ex_to "t_plan" "build"; ex_off "t_skip" "review"]));
      ("build", ex_node (ex_fields true false
        {[ "plan" := RequiredBinding "node.plan.output.text" "" "string" "" ]} None
        [ex_to "t_build" "review"; ex_loop "t_again" "build" 2]));
      ("review", ex_node (ex_fields false true ∅
        (Some {| join_Mode := JoinOne; join_From := ["t_build"; "t_skip"] |})
        [ex_to "t_ship" "ship"]));
      ("ship", ex_node (ex_fields false true ∅ None []));
      ("island", ex_node (ex_fields false false ∅ None []))];
  |};
|}.
Definition ex_request : RouteRequest := {| rq_From := ""; rq_Until := [] |}.
Definition ex_context : RouteContext :=
  {| rc_RunInputs := ∅; rc_AcceptedOutputs := ∅; rc_RequiredNodes := ["build"] |}.
Definition ex_route : Route := {|
  route_Assessment := "";
  route_Entry := "plan"; route_Terminals := ["review"];
  route_Nodes := [{| rn_ID := "build"; rn_Join := None |}; {| rn_ID := "plan"; rn_Join := None |};
    {| rn_ID := "review";
       rn_Join := Some {| join_Mode := JoinOne; join_From := ["t_build"] |} |}];
  route_Transitions := [{| rt_ID := "t_build"; rt_From := "build"; rt_To := "review" |};
    {| rt_ID := "t_again"; rt_From := "build"; rt_To := "build" |};
    {| rt_ID := "t_plan"; rt_From := "plan"; rt_To := "build" |}];
  route_ExcludedNodes := [{| en_ID := "draft"; en_Reason := ExclusionBeforeEntry |};
    {| en_ID := "island"; en_Reason := ExclusionNotConnected |};
    {| en_ID := "ship"; en_Reason := ExclusionPastTerminal |}];
  route_InputRequirements := [{| ir_Code := "RUN_INPUT_REQUIRED"; ir_Node := "plan";
    ir_Input := "goal"; ir_Source := "run.input.goal" |}];
|}.

Lemma ex_route_created :
  @createRoute range_reversed ex_document ex_request ex_context ∅ = Ok ex_route.
Proof. vm_compute. reflexivity. Qed.

(** ** Claims *)

(** (C27) A route is created exactly when the requested range is admissible: the entry is
    entry-capable, at least one terminal is selected and all are terminal-capable and
    reachable, every node the traversal can reach can still reach a selected terminal, and
    every policy-required node is on the way.  This holds with any overrides of the
    transitions and for any map iteration order. *)
Theorem create_route_admissible (R : GoRange) document request context overrides :
  is_ok (createRoute document request context overrides) = true ↔
  admissible document (route_entry document request) (route_terminals document request)
    overrides (rc_RequiredNodes context).
Proof. apply createRoute_admissible. Qed.

(** The nodes of a created route are, sorted and without repetition, exactly the nodes
    reachable from the entry along enabled transitions that stop at the selected
    terminals. *)
Theorem create_route_nodes (R : GoRange) document request context overrides route
    (Hroute : createRoute document request context overrides = Ok route) :
  StronglySorted String.le (rn_ID <$> route_Nodes route) ∧
  NoDup (rn_ID <$> route_Nodes route) ∧
  ∀ x, x ∈ rn_ID <$> route_Nodes route ↔
    rtc (forward_step document (route_Terminals route) overrides) (route_Entry route) x.
Proof.
  rewrite (route_node_ids _ _ _ _ _ Hroute). split_and!.
  - apply StronglySorted_filter, sortedIDs_sorted.
  - apply list.NoDup_filter, sortedIDs_NoDup.
  - intros x. rewrite <-(route_node_ids _ _ _ _ _ Hroute). by eapply elem_of_route_nodes.
Qed.

Lemma create_route_nodes_witness :
  "build" ∈ rn_ID <$> route_Nodes ex_route ∧
  rtc (forward_step ex_document ["review"] ∅) "plan" "build".
Proof.
  assert ("build" ∈ rn_ID <$> route_Nodes ex_route) as Hin by left.
  split; [exact Hin|].
  apply (create_route_nodes range_reversed ex_document ex_request ex_context ∅ ex_route
    ex_route_created). exact Hin.
Defined.

(** (C28) A created route is closed under its own transitions: they connect included nodes
    and are enabled authored transitions of a non-terminal source, every node is reached
    from the entry, and from every node a selected terminal can be reached. *)
Theorem create_route_connected (R : GoRange) document request context overrides route
    (Hroute : createRoute document request context overrides = Ok route) :
  (∀ t, t ∈ route_Transitions route ↔
    rt_From t ∈ rn_ID <$> route_Nodes route ∧ rt_To t ∈ rn_ID <$> route_Nodes route ∧
    rt_From t ∉ route_Terminals route ∧
    ∃ tr, tr ∈ transitions_of document (rt_From t) ∧ ID tr = rt_ID t ∧ Target tr = rt_To t ∧
          routeTransitionEnabled overrides tr = true) ∧
  (∀ x, x ∈ rn_ID <$> route_Nodes route →
    rtc (route_step (route_Transitions route)) (route_Entry route) x ∧
    ∃ t, t ∈ route_Terminals route ∧ rtc (route_step (route_Transitions route)) x t).
Proof.
  split.
  - intros t. rewrite !(elem_of_route_nodes _ _ _ _ _ Hroute).
    destruct (route_fields _ _ _ _ _ Hroute) as (_ & _ & _ & -> & _).
    rewrite elem_of_includedRouteTransitions, !elem_of_forwardRouteNodes.
    unfold enabled_transitions. setoid_rewrite list_elem_of_filter. naive_solver.
  - intros x Hx%(elem_of_route_nodes _ _ _ _ _ Hroute). split.
    + apply (route_reaches _ _ _ _ _ Hroute); [apply rtc_refl|done].
    + destruct (adm_closed _ _ _ _ _ (route_admissible _ _ _ _ _ Hroute) x Hx) as (t & Ht & Hr).
      exists t. split; [done|]. by apply (route_reaches _ _ _ _ _ Hroute).
Qed.

Lemma create_route_connected_witness :
  ∃ t, t ∈ ["review"] ∧ rtc (route_step (route_Transitions ex_route)) "plan" t.
Proof.
  apply (create_route_connected range_reversed ex_document ex_request ex_context ∅ ex_route
    ex_route_created).
  vm_compute. right. left.
Defined.

(** The executable and the excluded nodes partition the workflow, and an excluded node
    is reported as before the entry when the entry can be reached from it, otherwise as
    past a terminal when a selected terminal leads to it, otherwise as not connected. *)
Theorem create_route_partition (R : GoRange) document request context overrides route
    (Hroute : createRoute document request context overrides = Ok route) :
  (rn_ID <$> route_Nodes route) ++ (en_ID <$> route_ExcludedNodes route)
    ≡ₚ elements (dom (nodes_of document)) ∧
  ∀ n, n ∈ route_ExcludedNodes route →
    let before := rtc (enabled_step document overrides) (en_ID n) (route_Entry route) in
    let past := ∃ t, t ∈ route_Terminals route ∧
                     rtc (enabled_step document overrides) t (en_ID n) in
    (before ∧ en_Reason n = ExclusionBeforeEntry) ∨
    (¬ before ∧ past ∧ en_Reason n = ExclusionPastTerminal) ∨
    (¬ before ∧ ¬ past ∧ en_Reason n = ExclusionNotConnected).
Proof.
  split.
  - rewrite (route_node_ids _ _ _ _ _ Hroute), (route_excluded_ids _ _ _ _ _ Hroute).
    rewrite list.filter_app_complement. unfold sortedNodeIDs.
    by rewrite sortedIDs_canonical, sort_strings_perm.
  - intros n. destruct (route_fields _ _ _ _ _ Hroute) as (_ & _ & _ & _ & _ & -> & _).
    unfold excludedRouteNodes. intros (x & -> & _)%list_elem_of_fmap. simpl.
    unfold exclusion_reason.
    rewrite <-elem_of_reverseReachable.
    assert ((∃ t, t ∈ route_Terminals route ∧ rtc (enabled_step document overrides) t x) ↔
      x ∈ forwardReachable document (identifierSet (route_Terminals route)) overrides) as ->.
    { rewrite elem_of_forwardReachable. unfold identifierSet.
      by setoid_rewrite elem_of_list_to_set. }
    repeat case_decide; naive_solver.
Qed.

Lemma create_route_partition_witness :
  (rn_ID <$> route_Nodes ex_route) ++ (en_ID <$> route_ExcludedNodes ex_route)
    ≡ₚ elements (dom (nodes_of ex_document)).
Proof.
  apply (create_route_partition range_reversed ex_document ex_request ex_context ∅ ex_route
    ex_route_created).
Defined.

(** When the source a required binding names is available to its consumer: a present run
    input, an accepted output, or any output of a node that precedes the consumer in the
    route (which the consumer itself does not, even on a loop). *)
Definition binding_available (context : RouteContext) (transitions : list RouteTransition)
    (consumer : Identifier) (source : string) : Prop :=
  (∃ name, splitReference source = ["run"; "input"; name] ∧
           is_Some (rc_RunInputs context !! name)) ∨
  (∃ node output, splitReference source = ["node"; node; "output"; output] ∧
    ((∃ outputs, rc_AcceptedOutputs context !! node = Some outputs ∧
                 is_Some (outputs !! output)) ∨
     node ≠ consumer ∧ tc (route_step transitions) node consumer)).

Lemma bind_is_Some {A B} (f : A → option B) mx :
  is_Some (mx ≫= f) ↔ ∃ x, mx = Some x ∧ is_Some (f x).
Proof. destruct mx; simpl; [naive_solver|]. split; [by intros []|naive_solver]. Qed.

Lemma routeBindingAvailable_spec `{!GoRange} context transitions consumer source :
  routeBindingAvailable source consumer (routePredecessors transitions) context = true ↔
  binding_available context transitions consumer source.
Proof.
  unfold routeBindingAvailable, binding_available.
  destruct (splitReference source) as [|p0 [|p1 [|p2 [|p3 [|]]]]];
    try (by split; [done|intros [(? & [=] & _)|(? & ? & [=] & _)]]).
  - rewrite bool_decide_eq_true. split.
    + intros (-> & -> & Hin). left. by exists p2.
    + by intros [(? & [= -> -> ->] & ?)|(? & ? & [=] & _)].
  - case_decide as Hp.
    + destruct Hp as [-> ->].
      rewrite orb_true_iff, !bool_decide_eq_true, elem_of_routePredecessors, bind_is_Some. split.
      * intros Hor. right. by exists p1, p3.
      * by intros [(? & [=] & _)|(? & ? & [= -> ->] & ?)].
    + split; [done|]. intros [(? & [=] & _)|(? & ? & [= -> -> -> ->] & _)]. naive_solver.
Qed.

(** The input requirements of a created route are exactly the required bindings of its
    nodes whose source is not available. *)
Theorem create_route_inputs (R : GoRange) document request context overrides route
    (Hroute : createRoute document request context overrides = Ok route) q :
  q ∈ route_InputRequirements route ↔
  ir_Code q = ValidationRunInputRequired ∧
  ir_Node q ∈ rn_ID <$> route_Nodes route ∧
  (∃ pointer type description,
    inputs_of document (ir_Node q) !! ir_Input q =
      Some (RequiredBinding (ir_Source q) pointer type description)) ∧
  ¬ binding_available context (route_Transitions route) (ir_Node q) (ir_Source q).
Proof.
  rewrite (route_node_ids _ _ _ _ _ Hroute).
  destruct (route_fields _ _ _ _ _ Hroute) as (_ & _ & _ & _ & _ & _ & ->).
  unfold routeInputRequirements. rewrite list_elem_of_In, in_flat_map.
  setoid_rewrite <-list_elem_of_In. setoid_rewrite list_elem_of_omap. unfold missing_input.
  rewrite <-routeBindingAvailable_spec, not_true_iff_false. split.
  - intros (x & Hx & i & Hi & Hm). destruct (inputs_of document x !! i) as [[]|] eqn:E; simplify_eq.
    destruct (routeBindingAvailable _ _ _ _) eqn:Ha; simplify_eq; simpl. naive_solver.
  - destruct q as [code n i src]; simpl. intros (-> & Hn & (p & ty & d & Hb) & Ha).
    exists n. split; [done|]. exists i. rewrite Hb, Ha. split; [|done].
    unfold sortedBindingIDs. rewrite elem_of_sortedIDs. by rewrite Hb.
Qed.

Lemma create_route_inputs_witness :
  ¬ binding_available ex_context (route_Transitions ex_route) "plan" "run.input.goal".
Proof.
  apply (create_route_inputs range_reversed ex_document ex_request ex_context ∅ ex_route
    ex_route_created (input_requirement "plan" "goal" "run.input.goal")).
  vm_compute. left.
Defined.

(** The join of a route node keeps the authored mode and exactly the authored sources
    that are transitions of the route into that node, in the authored order; a node
    without an authored join or without an incoming transition has none. *)
Theorem create_route_joins (R : GoRange) document request context overrides route
    (Hroute : createRoute document request context overrides = Ok route) n :
  n ∈ route_Nodes route →
  let authored := nodes_of document !! rn_ID n ≫= nf_Join ∘ Fields in
  let incoming id := ∃ t, t ∈ route_Transitions route ∧ rt_To t = rn_ID n ∧ rt_ID t = id in
  match rn_Join n with
  | None => authored = None ∨ ∀ id, ¬ incoming id
  | Some join => ∃ id join', incoming id ∧ authored = Some join' ∧
      join_Mode join = join_Mode join' ∧ join_From join `sublist_of` join_From join' ∧
      ∀ id, id ∈ join_From join ↔ id ∈ join_From join' ∧ incoming id
  end.
Proof.
  destruct (route_fields _ _ _ _ _ Hroute) as (_ & _ & _ & _ & -> & _).
  unfold projectedRouteNodes. intros (x & -> & _)%list_elem_of_fmap.
  cbn [rn_ID rn_Join]. cbv beta zeta. unfold project_join. set (index := reverse_index _).
  assert (∀ id, id ∈ sources_of index x ↔
    ∃ t, t ∈ route_Transitions route ∧ rt_To t = x ∧ rt_ID t = id) as Hidx.
  { intros id. unfold index. rewrite elem_of_sources_of, list_elem_of_fmap. naive_solver. }
  destruct (nodes_of document !! x ≫= nf_Join ∘ Fields) as [join|]; [|by left].
  destruct (decide (length (sources_of index x) = 0)) as [Hs%nil_length_inv|Hs].
  { right. intros id. rewrite <-Hidx, Hs. apply not_elem_of_nil. }
  destruct (sources_of index x) as [|id l] eqn:Hl; [done|]. rewrite <-Hl in *.
  exists id, join. cbn [join_Mode join_From]. setoid_rewrite <-Hidx. split_and!; try done.
  - rewrite Hl. by left.
  - apply sublist_filter.
  - intros id'. rewrite list_elem_of_filter. unfold identifierSet.
    rewrite elem_of_list_to_set. naive_solver.
Qed.

Definition ex_review : RouteNode :=
  {| rn_ID := "review"; rn_Join := Some {| join_Mode := JoinOne; join_From := ["t_build"] |} |}.
Lemma create_route_joins_witness :
  match rn_Join ex_review with
  | None => False
  | Some join => ∃ join', nodes_of ex_document !! rn_ID ex_review ≫= nf_Join ∘ Fields = Some join' ∧
      join_From join `sublist_of` join_From join'
  end.
Proof.
  assert (ex_review ∈ route_Nodes ex_route) as Hin by (right; right; left).
  pose proof (create_route_joins range_reversed ex_document ex_request ex_context ∅ ex_route
    ex_route_created ex_review Hin) as H.
  cbv beta iota zeta delta [ex_review rn_Join] in H |- *.
  destruct H as (id & join & _ & Hj & _ & Hs & _). by exists join.
Defined.

(** ** Independence of the map iteration order *)
Section deterministic.
Variables R1 R2 : GoRange.

Lemma sortedIDs_det {A} site (m : gmap Identifier A) :
  @sortedIDs R1 A site m = @sortedIDs R2 A site m.
Proof. by rewrite !sortedIDs_canonical. Qed.

Lemma route_terminals_det document request :
  @route_terminals R1 document request = @route_terminals R2 document request.
Proof. unfold route_terminals. by rewrite !uniqueSortedIdentifiers_canonical. Qed.

Lemma includedRouteTransitions_det document X T overrides :
  @includedRouteTransitions R1 document X T overrides =
  @includedRouteTransitions R2 document X T overrides.
Proof. unfold includedRouteTransitions, sortedNodeIDs. by rewrite sortedIDs_det. Qed.

Lemma reported_det site X (P Q : Identifier → Prop) `{∀ x, Decision (P x), ∀ x, Decision (Q x)}
    (mk : list Identifier → ValidationError) :
  (∀ x, P x ↔ Q x) →
  (let l := filter P (@range_set R1 _ _ _ site X) in
   if decide (length l = 0) then [] else [mk (sort_strings l)]) =
  (let l := filter Q (@range_set R2 _ _ _ site X) in
   if decide (length l = 0) then [] else [mk (sort_strings l)]).
Proof.
  intros HPQ.
  assert (filter P (@range_set R1 _ _ _ site X) ≡ₚ filter Q (@range_set R2 _ _ _ site X)) as Hl.
  { rewrite (list.list_filter_iff P Q) by done. by rewrite !range_set_perm. }
  cbn zeta. rewrite (sort_strings_proper _ _ Hl). apply Permutation_length in Hl. by rewrite Hl.
Qed.

Lemma validateRouteClosure_det X T transitions :
  @validateRouteClosure R1 X T transitions = @validateRouteClosure R2 X T transitions.
Proof.
  unfold validateRouteClosure. apply reported_det. intros x.
  by rewrite !elem_of_can_reach_terminal.
Qed.

Lemma validateRoutePolicy_det document X required :
  @validateRoutePolicy R1 document X required = @validateRoutePolicy R2 document X required.
Proof. unfold validateRoutePolicy. by apply reported_det. Qed.

Lemma excludedRouteNodes_det document X entry T overrides :
  @excludedRouteNodes R1 document X entry T overrides =
  @excludedRouteNodes R2 document X entry T overrides.
Proof.
  unfold excludedRouteNodes, sortedNodeIDs. rewrite sortedIDs_det.
  assert (@reverseReachable R1 document entry overrides =
    @reverseReachable R2 document entry overrides) as ->.
  { apply set_eq. intros x. by rewrite !elem_of_reverseReachable. }
  assert (@forwardReachable R1 document T overrides =
    @forwardReachable R2 document T overrides) as ->; [|done].
  apply set_eq. intros x. by rewrite !elem_of_forwardReachable.
Qed.

Lemma routeBindingAvailable_det source consumer transitions context :
  routeBindingAvailable source consumer (@routePredecessors R1 transitions) context =
  routeBindingAvailable source consumer (@routePredecessors R2 transitions) context.
Proof. apply eq_true_iff_eq. by rewrite !routeBindingAvailable_spec. Qed.

Lemma routeInputRequirements_det document X transitions context :
  @routeInputRequirements R1 document X transitions context =
  @routeInputRequirements R2 document X transitions context.
Proof.
  unfold routeInputRequirements, sortedNodeIDs, sortedBindingIDs. rewrite sortedIDs_det.
  apply flat_map_ext. intros x. rewrite sortedIDs_det. apply list_omap_ext.
  apply Forall_Forall2_diag, Forall_forall. intros i _. unfold missing_input.
  destruct (inputs_of document x !! i) as [[]|]; try done. by rewrite routeBindingAvailable_det.
Qed.
End deterministic.

(** Neither the route nor the reported errors depend on the iteration order of any map. *)
Theorem create_route_deterministic (R1 R2 : GoRange) document request context overrides :
  @createRoute R1 document request context overrides =
  @createRoute R2 document request context overrides.
Proof.
  unfold createRoute, projectedRouteNodes, sortedNodeIDs.
  rewrite (route_terminals_det R1 R2), (includedRouteTransitions_det R1 R2),
    (validateRouteClosure_det R1 R2), (validateRoutePolicy_det R1 R2),
    (excludedRouteNodes_det R1 R2), (routeInputRequirements_det R1 R2).
  by rewrite (sortedIDs_det R1 R2).
Qed.

Lemma elem_of_validateRouteBoundaries document entry terminals e :
  e ∈ validateRouteBoundaries document entry terminals ↔
  (node_flag nf_Entry document entry = false ∧ e = invalid_entry entry) ∨
  (terminals = [] ∧ e = no_terminal) ∨
  (∃ t, t ∈ terminals ∧ node_flag nf_Terminal document t = false ∧ e = invalid_terminal t).
Proof.
  assert (e ∈ (if node_flag nf_Entry document entry then [] else [invalid_entry entry]) ↔
    node_flag nf_Entry document entry = false ∧ e = invalid_entry entry) as He.
  { destruct (node_flag nf_Entry document entry); set_solver. }
  unfold validateRouteBoundaries. destruct terminals as [|t ts].
  - rewrite decide_True by done. rewrite elem_of_app, He. set_solver.
  - rewrite decide_False by done. rewrite elem_of_app, He, list_elem_of_fmap.
    setoid_rewrite list_elem_of_filter. naive_solver.
Qed.

Lemma elem_of_validateReachableTerminals terminals X e :
  e ∈ validateReachableTerminals terminals X ↔
  ∃ t, t ∈ terminals ∧ t ∉ X ∧ e = unreachable_terminal t.
Proof.
  unfold validateReachableTerminals. rewrite list_elem_of_fmap.
  setoid_rewrite list_elem_of_filter. naive_solver.
Qed.

(** Membership only matters to [reports] up to equivalence. *)
Lemma reports_iff (P Q : Identifier → Prop) (mk : list Identifier → ValidationError) e :
  (∀ x, P x ↔ Q x) →
  (∃ ids, reports P ids ∧ e = mk ids) ↔ ∃ ids, reports Q ids ∧ e = mk ids.
Proof. intros HPQ. unfold reports. by setoid_rewrite HPQ. Qed.

Lemma and_iff_compat_l_weak (A B C : Prop) : (A → B ↔ C) → A ∧ B ↔ A ∧ C.
Proof. tauto. Qed.

Section stranded.
Variables (document : Document) (entry : Identifier) (terminals : list Identifier)
  (overrides : gmap Identifier bool).
Hypothesis Hentry : is_Some (nodes_of document !! entry).
Abbreviation step := (forward_step document terminals overrides).
Abbreviation included := (forwardRouteNodes document entry (identifierSet terminals) overrides).

Lemma stranded_iff `{!GoRange} x :
  (x ∈ included ∧ ¬ ∃ t, t ∈ identifierSet terminals ∧ t ∈ included ∧
    rtc (route_step (includedRouteTransitions document included (identifierSet terminals)
      overrides)) x t) ↔
  rtc step entry x ∧ ¬ ∃ t, t ∈ terminals ∧ rtc step x t.
Proof using Hentry.
  rewrite <-(elem_of_forwardRouteNodes document entry).
  apply and_iff_compat_l_weak. intros Hx. apply not_iff_compat.
  split; intros (t & Ht).
  - exists t. destruct Ht as (?%elem_of_list_to_set & _ & Hr). split; [done|].
    by apply route_reach_included in Hr.
  - destruct Ht as [Ht Hr]. exists t. split_and!; [by apply elem_of_list_to_set| |].
    + apply elem_of_forwardRouteNodes in Hx. apply elem_of_forwardRouteNodes. by etrans.
    + by apply route_reach_included.
Qed.

Lemma bypassed_iff (required : list Identifier) x :
  (x ∈ required ∧ (nodes_of document !! x = None ∨ x ∉ included)) ↔
  x ∈ required ∧ ¬ rtc step entry x.
Proof using Hentry.
  rewrite <-(elem_of_forwardRouteNodes document entry).
  apply and_iff_compat_l. split; [|by right]. intros [Hn|?]; [|done]. intros Hr.
  destruct (included_subset document entry terminals overrides x) as [n Hx]; [done..|congruence].
Qed.
End stranded.

Lemma createRoute_Err `{!GoRange} document request context overrides errors :
  createRoute document request context overrides = Err errors ↔
  ∃ unsorted, errors = sortValidationErrors unsorted ∧ unsorted ≠ [] ∧
  let entry := route_entry document request in
  let terminals := route_terminals document request in
  let included := forwardRouteNodes document entry (identifierSet terminals) overrides in
  (unsorted = validateRouteBoundaries document entry terminals ∨
   validateRouteBoundaries document entry terminals = [] ∧
   unsorted = validateReachableTerminals terminals included ++
     validateRouteClosure included (identifierSet terminals)
       (includedRouteTransitions document included (identifierSet terminals) overrides) ++
     validateRoutePolicy document included (rc_RequiredNodes context)).
Proof.
  unfold createRoute. cbv zeta.
  destruct (validateRouteBoundaries _ _ _) as [|e l]; cbn [length].
  - rewrite decide_False by (by intros []). case_decide as Hlen.
    + split; [|naive_solver]. intros [= <-]. eexists. split_and!; [done| |by right].
      intros Hnil. by rewrite Hnil in Hlen.
    + split; [done|]. intros (u & _ & Hne & [->|[_ ->]]); [by destruct Hne|].
      apply nil_length_inv in Hlen. by rewrite Hlen in Hne.
  - rewrite decide_True by done. split; [|naive_solver].
    intros [= <-]. exists (e :: l). split_and!; [done|by intros [=]|by left].
Qed.

(** (C29) A refused request reports, sorted, every boundary problem; and when the boundaries
    are sound, every unreachable terminal, all the nodes that cannot reach a terminal and
    all the bypassed policy nodes, and nothing else. *)
Theorem create_route_errors (R : GoRange) document request context overrides errors
    (Herr : createRoute document request context overrides = Err errors) :
  let entry := route_entry document request in
  let terminals := route_terminals document request in
  let step := forward_step document terminals overrides in
  let boundaries_ok := node_flag nf_Entry document entry = true ∧ terminals ≠ [] ∧
    ∀ t, t ∈ terminals → node_flag nf_Terminal document t = true in
  errors ≠ [] ∧
  StronglySorted (λ x y, error_less y x = false) errors ∧
  ∀ e, e ∈ errors ↔
    (node_flag nf_Entry document entry = false ∧ e = invalid_entry entry) ∨
    (terminals = [] ∧ e = no_terminal) ∨
    (∃ t, t ∈ terminals ∧ node_flag nf_Terminal document t = false ∧ e = invalid_terminal t) ∨
    boundaries_ok ∧
    ((∃ t, t ∈ terminals ∧ ¬ rtc step entry t ∧ e = unreachable_terminal t) ∨
     (∃ ids, reports (λ x, rtc step entry x ∧
        ¬ ∃ t, t ∈ terminals ∧ rtc step x t) ids ∧ e = path_incomplete ids) ∨
     (∃ ids, reports (λ x, x ∈ rc_RequiredNodes context ∧ ¬ rtc step entry x) ids ∧
        e = policy_violation ids)).
Proof.
  cbv zeta. apply createRoute_Err in Herr as (u & -> & Hne & Hu).
  split; [by rewrite sortValidationErrors_nil|]. split; [apply sortValidationErrors_spec|].
  intros e. destruct (sortValidationErrors_spec u) as (Hperm & _). rewrite Hperm. clear Hperm.
  rewrite <-validateRouteBoundaries_nil. cbv zeta in Hu. destruct Hu as [->|[Hb ->]].
  - rewrite elem_of_validateRouteBoundaries. naive_solver.
  - pose proof (entry_exists _ _ _ Hb) as Hex.
    pose proof (elem_of_validateRouteBoundaries document (route_entry document request)
      (route_terminals document request) e) as Hno.
    rewrite Hb, elem_of_nil in Hno.
    rewrite !elem_of_app, elem_of_validateReachableTerminals, elem_of_validateRouteClosure,
      elem_of_validateRoutePolicy.
    rewrite (reports_iff _ _ _ _ (stranded_iff _ _ _ _ Hex)),
      (reports_iff _ _ _ _ (bypassed_iff _ _ _ _ Hex _)).
    assert (∀ t, t ∉ forwardRouteNodes document (route_entry document request)
        (identifierSet (route_terminals document request)) overrides ↔
      ¬ rtc (forward_step document (route_terminals document request) overrides)
        (route_entry document request) t) as Hun.
    { intros t. by rewrite elem_of_forwardRouteNodes. }
    setoid_rewrite Hun. tauto.
Qed.

Lemma create_route_errors_witness :
  ∃ errors, @CreateRoute range_canonical ex_document
      {| rq_From := "plan"; rq_Until := ["island"; "ship"] |} ex_context = Err errors ∧
    invalid_terminal "island" ∈ errors.
Proof.
  eexists. split; [vm_compute; reflexivity|].
  eapply (create_route_errors range_canonical ex_document
    {| rq_From := "plan"; rq_Until := ["island"; "ship"] |} ex_context ∅);
    [vm_compute; reflexivity|].
  right; right; left. exists "island". split; [|by split; vm_compute].
  vm_compute. left.
Defined.

Lemma copy_into_union `{!GoRange} site into from :
  copy_into site into from = from ∪ into.
Proof.
  unfold copy_into. apply map_eq. intros k.
  assert (∀ (l : list (Identifier * RawMessage)) (m : gmap Identifier RawMessage),
    NoDup l.*1 → foldl (λ m '(id, value), <[id := value]> m) m l !! k =
      (list_to_map l ∪ m : gmap Identifier RawMessage) !! k) as Hgen.
  { induction l as [|[i v] l IH]; intros m Hnd; simpl.
    - by rewrite lookup_union, lookup_empty, (left_id_L None _).
    - inversion Hnd; subst. rewrite IH by done.
      rewrite !lookup_union. destruct (decide (k = i)) as [->|Hne].
      + rewrite !lookup_insert_eq, (not_elem_of_list_to_map_1 _ i), (left_id_L None _) by done.
        by destruct (m !! i).
      + by rewrite !lookup_insert_ne. }
  assert (NoDup (range_map site from).*1) as Hnd.
  { unfold range_map. rewrite range_perm. apply NoDup_fst_map_to_list. }
  rewrite Hgen by done. f_equal. f_equal. unfold range_map.
  rewrite (list_to_map_proper _ (map_to_list from)); [apply list_to_map_to_list|done|].
  apply range_perm.
Qed.

(** A profile route is the ordinary route of the profile's entry and terminals in which
    an explicit run input takes precedence over the profile's default; an unknown profile
    is refused. *)
Theorem create_profile_route (R : GoRange) document profileID context :
  CreateProfileRoute document profileID context =
  match spec_Profiles (doc_Spec document) !! profileID with
  | None => Err [absent_profile profileID]
  | Some profile =>
      CreateRoute document {| rq_From := rpf_Entry profile; rq_Until := rpf_Terminals profile |}
        {| rc_RunInputs := rc_RunInputs context ∪ rpf_InputDefaults profile;
           rc_AcceptedOutputs := rc_AcceptedOutputs context;
           rc_RequiredNodes := rc_RequiredNodes context |}
  end.
Proof.
  unfold CreateProfileRoute. destruct (spec_Profiles _ !! _); [|done].
  by rewrite !copy_into_union, (right_id_L ∅ (∪)).
Qed.

Example profile_route :
  route_InputRequirements <$>
    (match @CreateProfileRoute range_canonical ex_document "quick" ex_context with
     | Ok r => Some r | Err _ => None end) =
  Some [input_requirement "build" "plan" "node.plan.output.text"].
Proof. vm_compute. reflexivity. Qed.
