(* ===== verification/GraphChecks.v ===== *)
(** Static validation, the checks on the transition graph: [indexTransitions], [validateJoins],
    [validateReachability], [validateCycles] and [validateDefaultRoute] of
    [runtime/src/core/workflow/validate.go].

    Each check returns the errors it adds, in the order it adds them. *)
From S2P Require Import Prelude GoStrings GoJson GoGraph Schema Issues Route Cycle.
From stdpp Require Import options.

(** * Errors: [validationState.add] *)
Definition sorted_details (details : gmap string (list string)) : option (gmap string (list string)) :=
  if decide (details = ∅) then None else Some (sort_strings <$> details).
Definition add (code : ValidationCode) (message : msg) (location : string)
    (details : gmap string (list string)) : ValidationError :=
  {| ve_Code := code; ve_Message := message; ve_Location := location;
     ve_Details := sorted_details details |}.
Definition transition_details (ids : list Identifier) : gmap string (list string) :=
  {[ "transitionIds" := ids ]}.

(** * Indexes *)
Record transitionRecord := {
  tr_source : Identifier; tr_target : Identifier; tr_transition : Transition; tr_index : nat;
}.

(** The indexes of [validationState] over the transitions, and the errors of indexing. *)
Record indexes := {
  ix_transitions : gmap Identifier transitionRecord;
  ix_incoming : gmap Identifier (list transitionRecord);
  ix_adjacency : gmap Identifier (list Identifier);
  ix_normalGraph : gmap Identifier (list Identifier);
  ix_errors : ValidationErrors;
}.
Definition no_indexes : indexes := {|
  ix_transitions := ∅; ix_incoming := ∅; ix_adjacency := ∅; ix_normalGraph := ∅; ix_errors := [];
|}.

Definition node_location (nodeID : Identifier) : string := "/spec/nodes/" +:+ nodeID.
Definition transitionLocation (nodeID : Identifier) (index : nat) : string :=
  node_location nodeID +:+ "/transitions/" +:+ itoa index.

Definition bounded_transition (transition : Transition) : bool :=
  match transition with BoundedTransition _ _ => true | NormalTransition _ => false end.

Section index.
Variable nodes : gmap Identifier Node.

Definition duplicate_transition (record previous : transitionRecord) : ValidationError :=
  let id := ID (tr_transition record) in
  add ValidationSchemaInvalid
    (Msg "transition id %q is also declared by node %q" [AStr id; AStr (tr_source previous)])
    (transitionLocation (tr_source record) (tr_index record) +:+ "/id") (transition_details [id]).
Definition unknown_target (record : transitionRecord) : ValidationError :=
  add ValidationReferenceMissing
    (Msg "transition %q targets unknown node %q"
       [AStr (ID (tr_transition record)); AStr (tr_target record)])
    (transitionLocation (tr_source record) (tr_index record) +:+ "/to") ∅.

(** The identifier: declared here, or an error when it was declared before. *)
Definition index_id (record : transitionRecord) (state : indexes) : indexes :=
  let id := ID (tr_transition record) in
  match ix_transitions state !! id with
  | Some previous =>
      {| ix_transitions := ix_transitions state; ix_incoming := ix_incoming state;
         ix_adjacency := ix_adjacency state; ix_normalGraph := ix_normalGraph state;
         ix_errors := ix_errors state ++ [duplicate_transition record previous] |}
  | None =>
      {| ix_transitions := <[id := record]> (ix_transitions state); ix_incoming := ix_incoming state;
         ix_adjacency := ix_adjacency state; ix_normalGraph := ix_normalGraph state;
         ix_errors := ix_errors state |}
  end.
(** The edge: an error when the target does not exist. *)
Definition index_edge (record : transitionRecord) (state : indexes) : indexes :=
  let source := tr_source record in
  let target := tr_target record in
  match nodes !! target with
  | None =>
      {| ix_transitions := ix_transitions state; ix_incoming := ix_incoming state;
         ix_adjacency := ix_adjacency state; ix_normalGraph := ix_normalGraph state;
         ix_errors := ix_errors state ++ [unknown_target record] |}
  | Some _ =>
      {| ix_transitions := ix_transitions state;
         ix_incoming := append_at (ix_incoming state) target record;
         ix_adjacency := append_at (ix_adjacency state) source target;
         ix_normalGraph := if bounded_transition (tr_transition record) then ix_normalGraph state
                           else append_at (ix_normalGraph state) source target;
         ix_errors := ix_errors state |}
  end.
Definition index_transition (state : indexes) (record : transitionRecord) : indexes :=
  index_edge record (index_id record state).

(** The records in the order of the two loops. *)
Definition node_records (nodeID : Identifier) : list transitionRecord :=
  match nodes !! nodeID with
  | Some node =>
      imap (λ index transition,
        {| tr_source := nodeID; tr_target := Target transition; tr_transition := transition;
           tr_index := index |}) (nf_Transitions (Fields node))
  | None => []
  end.
Definition indexTransitions (nodeIDs : list Identifier) : indexes :=
  foldl index_transition no_indexes (flat_map node_records nodeIDs).
End index.

(** * The checks *)
Section checks.
Context `{!GoRange}.
Variables (document : Document) (state : indexes).
Abbreviation nodes := (nodes_of document).
Definition adjacent (id : Identifier) : list Identifier := sources_of (ix_adjacency state) id.
Definition normal_targets (id : Identifier) : list Identifier := sources_of (ix_normalGraph state) id.

(** ** Reachability *)
Definition nodeReaches (start target : Identifier) : bool :=
  found_by adjacent (λ x, bool_decide (x = target)) (λ _, false) (dom nodes) [start].

Definition unreachable_node (nodeID : Identifier) : ValidationError :=
  add ValidationUnreachableNode (Msg "node %q is unreachable" [AStr nodeID]) (node_location nodeID) ∅.
Definition validateReachability (nodeIDs : list Identifier) : ValidationErrors :=
  let entries := filter (λ id, node_flag nf_Entry document id = true) nodeIDs in
  let reachable := pop_reachable adjacent (dom nodes) (reverse entries) in
  unreachable_node <$> filter (λ id, id ∉ reachable) nodeIDs.

(** ** Cycles *)
Definition unbounded_cycle : ValidationError :=
  add ValidationUnboundedCycle (text "normal transitions contain a directed cycle") "/spec/nodes" ∅.
Definition validateCycles (nodeIDs : list Identifier) : ValidationErrors :=
  if has_cycle normal_targets nodeIDs then [unbounded_cycle] else [].

(** ** Joins *)
Definition join_location (nodeID : Identifier) : string := node_location nodeID +:+ "/join".
Definition redundant_join (nodeID : Identifier) : ValidationError :=
  add ValidationJoinInvalid (Msg "node %q has a redundant join" [AStr nodeID]) (join_location nodeID) ∅.
Definition incomplete_join (nodeID : Identifier) (authored : list Identifier) : ValidationError :=
  add ValidationJoinInvalid
    (Msg "node %q must join all authored incoming transitions" [AStr nodeID])
    (join_location nodeID) (transition_details authored).
Definition exclusive_join (nodeID forkID : Identifier) (producers : list Identifier) : ValidationError :=
  add ValidationJoinInvalid
    (Msg "all join %q requires mutually exclusive branches from %q" [AStr nodeID; AStr forkID])
    (join_location nodeID) (transition_details producers).
Definition multiple_join (nodeID forkID : Identifier) (producers : list Identifier) : ValidationError :=
  add ValidationJoinInvalid
    (Msg "one join %q can receive multiple branches from fanout node %q" [AStr nodeID; AStr forkID])
    (join_location nodeID) (transition_details producers).

Definition sameIdentifiers (declared authored : list Identifier) : bool :=
  bool_decide (length declared = length authored) &&
  forallb (λ id, bool_decide (id ∈ identifierSet declared)) authored.

(** Whether firing [branch] can lead to firing the incoming transition without passing the join. *)
Definition branchReachesIncoming (branch : Transition) (incoming : transitionRecord)
    (joinNode : Identifier) : bool :=
  if decide (ID branch = ID (tr_transition incoming)) then true
  else if decide (Target branch = joinNode) then false
  else found_by adjacent (λ x, bool_decide (x = tr_source incoming))
         (λ x, bool_decide (x = joinNode)) (dom nodes) [Target branch].

Definition covered_incoming (nodeID : Identifier) (incoming : list transitionRecord)
    (branch : Transition) : gset Identifier :=
  list_to_set ((λ producer, ID (tr_transition producer)) <$>
    filter (λ producer, branchReachesIncoming branch producer nodeID = true) incoming).

Definition distinctCoveredIncoming (left right : gset Identifier) : list Identifier :=
  filter (λ id, id ∉ right) (range_set "distinctCoveredIncoming.left" left) ++
  filter (λ id, id ∉ left) (range_set "distinctCoveredIncoming.right" right).

Fixpoint pairs {A} (l : list A) : list (A * A) :=
  match l with
  | [] => []
  | x :: l => (pair x <$> l) ++ pairs l
  end.

(** The conflict of two branches of a fork at a join. *)
Definition branch_conflict (nodeID : Identifier) (join : Join) (incoming : list transitionRecord)
    (forkID : Identifier) (fork : NodeFields) (branches : Transition * Transition)
  : option ValidationError :=
  let '(first, second) := branches in
  let producers := distinctCoveredIncoming (covered_incoming nodeID incoming first)
                     (covered_incoming nodeID incoming second) in
  if decide (length producers < 2) then None
  else if decide (join_Mode join = JoinAll ∧ nf_TransitionMode fork = TransitionExclusive)
  then Some (exclusive_join nodeID forkID producers)
  else if bool_decide (join_Mode join = JoinOne ∧ nf_TransitionMode fork = TransitionFanout) &&
          transitionAlwaysFires first && transitionAlwaysFires second
  then Some (multiple_join nodeID forkID producers)
  else None.
Definition fork_conflicts (nodeID : Identifier) (join : Join) (incoming : list transitionRecord)
    (forkID : Identifier) : list ValidationError :=
  match nodes !! forkID with
  | None => []
  | Some fork =>
      if decide (length (nf_Transitions (Fields fork)) < 2) then []
      else omap (branch_conflict nodeID join incoming forkID (Fields fork))
             (pairs (nf_Transitions (Fields fork)))
  end.
(** The first conflict ends the search. *)
Definition validateJoinSatisfiability (nodeID : Identifier) (join : Join)
    (incoming : list transitionRecord) : ValidationErrors :=
  take 1 (flat_map (fork_conflicts nodeID join incoming) (sortedNodeIDs nodes)).

Definition join_errors (nodeID : Identifier) (node : Node) : ValidationErrors :=
  let incoming := sources_of (ix_incoming state) nodeID in
  let join := nf_Join (Fields node) in
  if decide (length incoming ≤ 1) then
    match join with Some _ => [redundant_join nodeID] | None => [] end
  else
    let authored := (λ record, ID (tr_transition record)) <$> incoming in
    match join with
    | Some join =>
        if sameIdentifiers (join_From join) authored
        then validateJoinSatisfiability nodeID join incoming
        else [incomplete_join nodeID authored]
    | None => [incomplete_join nodeID authored]
    end.
Definition for_node (check : Identifier → Node → ValidationErrors) (nodeID : Identifier) : ValidationErrors :=
  match nodes !! nodeID with Some node => check nodeID node | None => [] end.
Definition validateJoins (nodeIDs : list Identifier) : ValidationErrors :=
  flat_map (for_node join_errors) nodeIDs.

(** ** The default route *)
Definition route_defaults : RouteDefaults := spec_RouteDefaults (doc_Spec document).
Definition node_details (ids : list Identifier) : gmap string (list string) := {[ "nodeIds" := ids ]}.
Definition default_entry_invalid : ValidationError :=
  add ValidationDefaultRouteInvalid (text "default entry is absent or not entry-capable")
    "/spec/routeDefaults/entry" ∅.
Definition default_terminal_invalid (terminal : Identifier) : ValidationError :=
  add ValidationDefaultRouteInvalid (text "default terminal is absent or not terminal-capable")
    "/spec/routeDefaults/terminals" (node_details [terminal]).
Definition default_terminals_unreachable (missing : list Identifier) : ValidationError :=
  add ValidationDefaultRouteInvalid (text "one or more default terminals are unreachable")
    "/spec/routeDefaults/terminals" (node_details missing).
Definition default_branch_stranded (stranded : list Identifier) : ValidationError :=
  add ValidationDefaultRouteInvalid (text "enabled branch cannot reach a default terminal")
    "/spec/routeDefaults" (node_details stranded).

Definition default_enabled (id : Identifier) : list Transition :=
  filter (λ t, transitionEnabled t = true) (transitions_of document id).

Section default_route.
Variable terminalSet : gset Identifier.

Definition default_targets (current : Identifier) : list Identifier :=
  if decide (current ∈ terminalSet) then []
  else filter (λ target, is_Some (nodes !! target)) (Target <$> default_enabled current).
Definition default_reachable : gset Identifier :=
  pop_reachable default_targets (dom nodes) [rd_Entry route_defaults].

Definition default_edges (reachable : gset Identifier) (source : Identifier)
  : list (Identifier * Identifier) :=
  if decide (source ∈ terminalSet) then []
  else (λ t, (source, Target t)) <$> filter (λ t, Target t ∈ reachable) (default_enabled source).
Definition default_can_reach (reachable : gset Identifier) : gset Identifier :=
  let edges := flat_map (default_edges reachable) (range_set "validateDefaultRoute.reachable" reachable) in
  let stack := range_set "validateDefaultRoute.terminals" terminalSet in
  push_reachable (sources_of (reverse_index edges)) (list_to_set edges.*1 ∪ terminalSet) (reverse stack).

Definition default_closure_errors : ValidationErrors :=
  let reachable := default_reachable in
  let missing := filter (λ terminal, terminal ∉ reachable)
                   (range_set "validateDefaultRoute.missing" terminalSet) in
  if decide (length missing ≠ 0) then [default_terminals_unreachable missing]
  else
    let canReachTerminal := default_can_reach reachable in
    let stranded := filter (λ id, id ∉ canReachTerminal)
                      (range_set "validateDefaultRoute.stranded" reachable) in
    if decide (length stranded ≠ 0) then [default_branch_stranded stranded] else [].
End default_route.

Definition validateDefaultRoute : ValidationErrors :=
  if negb (node_flag nf_Entry document (rd_Entry route_defaults)) then [default_entry_invalid]
  else
    let terminals := rd_Terminals route_defaults in
    let terminalSet := identifierSet (filter (λ id, node_flag nf_Terminal document id = true) terminals) in
    (default_terminal_invalid <$> filter (λ id, node_flag nf_Terminal document id = false) terminals) ++
    (if decide (terminalSet = ∅) then [] else default_closure_errors terminalSet).
End checks.
