(* ===== verification/Frame.v ===== *)
(** Execution frames, their transition tokens and their snapshots:
    [runtime/src/core/workflow/frame.go]. *)
From S2P Require Import Prelude GoStrings GoJson GoNumber GoSort Schema Route.
From stdpp Require Import options.

Definition RunLoopLimitExhausted := "RUN_LOOP_LIMIT_EXHAUSTED".
Definition RunInputRequired := "RUN_INPUT_REQUIRED".
Definition RunOutputInvalid := "RUN_OUTPUT_INVALID".
Definition WorkflowReferenceError := "WF_REFERENCE_MISSING".
Definition WorkflowRecursionError := "WF_SUBWORKFLOW_RECURSION".

(** * Data *)
Record WorkflowIdentity := { wi_Name : string; wi_Version : string; wi_Digest : string }.

(** The closed union of origins; [NilFrameOrigin] is the nil interface. *)
Inductive FrameOrigin :=
| RootFrameOrigin (RunID : string)
| ChildFrameOrigin (ParentFrameID ParentVisitID : string)
| NilFrameOrigin.

Record TransitionTokenKey := {
  tk_SourceVisitID : string; tk_TransitionID : Identifier; tk_JoinEpoch : Z;
}.
Abbreviation TransitionTokenKind := string (only parsing).
Definition TransitionTokenNormal : TransitionTokenKind := "normal".
Definition TransitionTokenBounded : TransitionTokenKind := "bounded".

Record TransitionToken := {
  tok_Key : TransitionTokenKey;
  tok_Source : Identifier;
  tok_Target : Identifier;
  tok_Kind : TransitionTokenKind;
  tok_Traversal : Z;
  tok_MaxTraversals : Z;
}.

#[global] Instance WorkflowIdentity_eq_dec : EqDecision WorkflowIdentity.
Proof. solve_decision. Defined.
#[global] Instance WorkflowIdentity_countable : Countable WorkflowIdentity.
Proof.
  apply (inj_countable' (λ w, (wi_Name w, wi_Version w, wi_Digest w))
    (λ '(n, v, d), {| wi_Name := n; wi_Version := v; wi_Digest := d |})).
  by intros [].
Defined.
#[global] Instance TransitionTokenKey_eq_dec : EqDecision TransitionTokenKey.
Proof. solve_decision. Defined.
#[global] Instance TransitionTokenKey_countable : Countable TransitionTokenKey.
Proof.
  apply (inj_countable' (λ k, (tk_SourceVisitID k, tk_TransitionID k, tk_JoinEpoch k))
    (λ '(v, t, j), {| tk_SourceVisitID := v; tk_TransitionID := t; tk_JoinEpoch := j |})).
  by intros [].
Defined.

Record FrameSnapshot := {
  fs_ID : string;
  fs_Workflow : WorkflowIdentity;
  fs_Origin : FrameOrigin;
  fs_Route : Route;
  fs_Inputs : gmap Identifier RawMessage;
  fs_Tokens : list TransitionToken;
  fs_Ancestry : list WorkflowIdentity;
}.

(** The state of a frame; the mutex makes every method one atomic step on it. *)
Record Frame := {
  fr_id : string;
  fr_workflow : WorkflowIdentity;
  fr_origin : FrameOrigin;
  fr_route : Route;
  fr_inputs : gmap Identifier RawMessage;
  fr_tokens : gmap TransitionTokenKey TransitionToken;
  fr_traversals : gmap Identifier Z;
  fr_ancestry : list WorkflowIdentity;
}.

(** [LoadedDefinition] of [catalog.go]. *)
Record LoadedDefinition := {
  ld_Document : Document; ld_CanonicalJSON : RawMessage; ld_Digest : string;
  ld_SourceScope : string; ld_SourceRef : string;
}.

(** The package returns plain errors and [*FrameError]s. *)
Inductive frame_error :=
| Plain (message : msg)
| Coded (error : FrameError).
Abbreviation fresult := (result frame_error).
Definition plain {A} (message : string) : fresult A := Err (Plain (text message)).
Definition coded (code : string) (message : msg) (location : string) : frame_error :=
  Coded {| fe_Code := code; fe_Message := message; fe_Location := location;
           fe_TransitionID := "" |}.

#[global] Instance FrameOrigin_eq_dec : EqDecision FrameOrigin.
Proof. solve_decision. Defined.
#[global] Instance TransitionToken_eq_dec : EqDecision TransitionToken.
Proof. solve_decision. Defined.
#[global] Instance Frame_eq_dec : EqDecision Frame.
Proof. solve_decision. Defined.

(** * Helpers *)
Definition workflowIdentity (definition : LoadedDefinition) : WorkflowIdentity := {|
  wi_Name := md_Name (doc_Metadata (ld_Document definition));
  wi_Version := md_Version (doc_Metadata (ld_Document definition));
  wi_Digest := ld_Digest definition;
|}.

Definition validatePinnedReference (reference : WorkflowReference) (identity : WorkflowIdentity)
  : fresult unit :=
  if decide (wr_Name reference ≠ wi_Name identity ∨ wr_Version reference ≠ wi_Version identity ∨
             (wr_Digest reference ≠ "" ∧ wr_Digest reference ≠ wi_Digest identity))
  then Err (coded WorkflowReferenceError
              (Msg "sub-workflow %q does not match its pinned identity" [AStr (wr_Name reference)])
              "/call/workflow")
  else Ok tt.

Definition validateFrameOrigin (origin : FrameOrigin) : fresult unit :=
  match origin with
  | RootFrameOrigin runID =>
      if blank runID then plain "root frame origin requires a run ID" else Ok tt
  | ChildFrameOrigin parentFrameID parentVisitID =>
      if blank parentFrameID || blank parentVisitID
      then plain "child frame origin requires parent frame and visit IDs" else Ok tt
  | NilFrameOrigin => plain "execution frame snapshot requires a valid origin"
  end.

Definition valid_identity (identity : WorkflowIdentity) : bool :=
  bool_decide (wi_Name identity ≠ "") && bool_decide (wi_Version identity ≠ "") &&
  digestPattern (wi_Digest identity).

Definition ancestry_step (seen : gset WorkflowIdentity) (identity : WorkflowIdentity)
  : fresult (gset WorkflowIdentity) :=
  if negb (valid_identity identity) || bool_decide (identity ∈ seen)
  then plain "execution frame ancestry is invalid or recursive"
  else Ok ({[identity]} ∪ seen).

Definition validateFrameAncestry (origin : FrameOrigin) (current : WorkflowIdentity)
    (ancestry : list WorkflowIdentity) : fresult unit :=
  let? _ :=
    match origin, ancestry with
    | RootFrameOrigin _, _ :: _ => plain "root frame cannot carry sub-workflow ancestry"
    | ChildFrameOrigin _ _, [] => plain "child frame requires sub-workflow ancestry"
    | _, _ => Ok tt
    end in
  let? _ := foldM ancestry_step {[current]} ancestry in
  Ok tt.

Definition sameWorkflow (left right : WorkflowIdentity) : bool :=
  bool_decide (wi_Name left = wi_Name right) && bool_decide (wi_Version left = wi_Version right) &&
  bool_decide (wi_Digest left = wi_Digest right).

(** A deep copy of every field but [Assessment], which is left empty. *)
Definition cloneRoute (route : Route) : Route := {|
  route_Assessment := "";
  route_Entry := route_Entry route;
  route_Terminals := route_Terminals route;
  route_Nodes :=
    (λ node, {| rn_ID := rn_ID node;
                rn_Join := (λ join, {| join_Mode := join_Mode join; join_From := join_From join |})
                             <$> rn_Join node |}) <$> route_Nodes route;
  route_Transitions := route_Transitions route;
  route_ExcludedNodes := route_ExcludedNodes route;
  route_InputRequirements := route_InputRequirements route;
|}.

Definition frozen_transition (seen : gset Identifier) (transition : RouteTransition)
  : fresult (gset Identifier) :=
  if decide (rt_ID transition = "" ∨ rt_From transition = "" ∨ rt_To transition = "" ∨
             rt_ID transition ∈ seen)
  then plain "execution frame route has an invalid or duplicate transition"
  else Ok ({[rt_ID transition]} ∪ seen).

Definition validateFrozenRoute (route : Route) : fresult unit :=
  if decide (route_Entry route = "" ∨ length (route_Terminals route) = 0)
  then plain "execution frame requires a frozen route"
  else
    let? _ := foldM frozen_transition ∅ (route_Transitions route) in
    Ok tt.

Fixpoint findRouteTransition (transitions : list RouteTransition) (id : Identifier)
  : option RouteTransition :=
  match transitions with
  | [] => None
  | transition :: transitions =>
      if decide (rt_ID transition = id) then Some transition
      else findRouteTransition transitions id
  end.

(** [slicesEqual] of two slices of the same length. *)
Fixpoint slicesEqual (left right : list Identifier) : bool :=
  match left, right with
  | x :: xs, y :: ys => if decide (x ≠ y) then false else slicesEqual xs ys
  | _, _ => true
  end.
Definition sameIdentifierSet (left right : list Identifier) : bool :=
  if decide (length left ≠ length right) then false
  else slicesEqual (sort_strings left) (sort_strings right).

Definition clone_message (result : gmap Identifier RawMessage) (entry : Identifier * RawMessage)
  : fresult (gmap Identifier RawMessage) :=
  let '(name, value) := entry in
  if negb (Valid value) then Err (Plain (Msg "input %q is not valid JSON" [AStr name]))
  else Ok (<[name := value]> result).
Definition cloneRawMessages `{!GoRange} (values : gmap Identifier RawMessage)
  : fresult (gmap Identifier RawMessage) :=
  foldM clone_message ∅ (range_map "cloneRawMessages" values).
(** The error is dropped, and with it the map. *)
Definition mustCloneRawMessages `{!GoRange} (values : gmap Identifier RawMessage)
  : gmap Identifier RawMessage :=
  match cloneRawMessages values with Ok result => result | Err _ => ∅ end.

Definition tokenMatchesTransition (token : TransitionToken) (transition : Transition) : bool :=
  match transition with
  | NormalTransition _ =>
      bool_decide (tok_Kind token = TransitionTokenNormal ∧ tok_Traversal token = 0%Z ∧
                   tok_MaxTraversals token = 0%Z)
  | BoundedTransition _ maxTraversals =>
      bool_decide (tok_Kind token = TransitionTokenBounded ∧ (tok_Traversal token > 0)%Z ∧
                   tok_MaxTraversals token = maxTraversals)
  end.

Definition rawMessageHasType (value : RawMessage) (want : ValueType) : bool :=
  if negb (Valid value) then false
  else
    match Decode value with
    | None => false
    | Some decoded =>
        let storage := StorageType want in
        if decide (storage = ValueNull) then
          match decoded with JNull => true | _ => false end
        else if decide (storage = ValueBoolean) then
          match decoded with JBool _ => true | _ => false end
        else if decide (storage = ValueInteger) then
          match decoded with JNumber lit => bool_decide (is_Some (Number_Int64 lit)) | _ => false end
        else if decide (storage = ValueNumber) then
          match decoded with JNumber _ => true | _ => false end
        else if decide (storage = ValueString) then
          match decoded with JString _ => true | _ => false end
        else if decide (storage = ValueArray) then
          match decoded with JArray _ => true | _ => false end
        else if decide (storage = ValueObject) then
          match decoded with JObject _ => true | _ => false end
        else false
    end.

Definition parseNodeOutputSource (source : string) : option (Identifier * Identifier) :=
  match Split source "."%char with
  | [p0; p1; p2; p3] =>
      if decide (p0 ≠ "node" ∨ p2 ≠ "output" ∨ p1 = "" ∨ p3 = "") then None
      else Some (p1, p3)
  | _ => None
  end.

(** * Construction *)
Definition newFrame `{!GoRange} (id : string) (identity : WorkflowIdentity)
    (origin : FrameOrigin) (route : Route) (inputs : gmap Identifier RawMessage)
    (ancestry : list WorkflowIdentity) : fresult Frame :=
  if blank id then plain "execution frame requires an ID"
  else if negb (valid_identity identity)
  then plain "execution frame requires an installed workflow identity"
  else
    let? _ := validateFrozenRoute route in
    let? _ := validateFrameOrigin origin in
    let? _ := validateFrameAncestry origin identity ancestry in
    let? copiedInputs := cloneRawMessages inputs in
    Ok {| fr_id := id; fr_workflow := identity; fr_origin := origin;
          fr_route := cloneRoute route; fr_inputs := copiedInputs;
          fr_tokens := ∅; fr_traversals := ∅; fr_ancestry := ancestry |}.

Definition NewRootFrame `{!GoRange} (id runID : string) (definition : LoadedDefinition)
    (route : Route) (inputs : gmap Identifier RawMessage) : fresult Frame :=
  if blank runID then plain "root frame requires a run ID"
  else newFrame id (workflowIdentity definition) (RootFrameOrigin runID) route inputs [].

Section start.
Variables (child : LoadedDefinition) (parentInputs : gmap Identifier RawMessage).

Definition child_input (childInputs : gmap Identifier RawMessage)
    (entry : Identifier * Identifier) : fresult (gmap Identifier RawMessage) :=
  let '(childName, parentName) := entry in
  let location := "/call/inputs/" +:+ childName in
  match parentInputs !! parentName with
  | None =>
      Err (coded RunInputRequired (Msg "sub-workflow input %q is missing" [AStr childName]) location)
  | Some value =>
      match spec_Inputs (doc_Spec (ld_Document child)) !! childName with
      | None =>
          Err (coded WorkflowReferenceError
                 (Msg "sub-workflow input %q is not declared by the child" [AStr childName]) location)
      | Some declaration =>
          if negb (rawMessageHasType value (vd_Type declaration)) then
            Err (coded RunInputRequired
                   (Msg "sub-workflow input %q has incompatible type" [AStr childName]) location)
          else Ok (<[childName := value]> childInputs)
      end
  end.

Definition declared_input (childInputs : gmap Identifier RawMessage)
    (entry : Identifier * ValueDeclaration) : fresult unit :=
  match childInputs !! entry.1 with
  | None =>
      Err (coded RunInputRequired
             (Msg "sub-workflow input %q has no parent mapping" [AStr entry.1]) "/call/inputs")
  | Some _ => Ok tt
  end.
End start.

Definition recursion_check (identity ancestor : WorkflowIdentity) : fresult unit :=
  if sameWorkflow ancestor identity then
    Err (coded WorkflowRecursionError
           (Msg "recursive sub-workflow %q" [AStr (wi_Name identity)]) "/call/workflow")
  else Ok tt.

Definition StartSubworkflow `{!GoRange} (parent : option Frame) (id parentVisitID : string)
    (call : SubworkflowCall) (child : LoadedDefinition) (route : Route)
    (parentInputs : gmap Identifier RawMessage) : fresult Frame :=
  match parent with
  | None => plain "sub-workflow requires a parent frame"
  | Some parent =>
      if blank parentVisitID then plain "sub-workflow requires a parent visit ID"
      else
        let identity := workflowIdentity child in
        let? _ := validatePinnedReference (sc_Workflow call) identity in
        if bool_decide (route_Entry route ≠ sc_Entry call) ||
           negb (sameIdentifierSet (route_Terminals route) (sc_Terminals call)) then
          Err (coded WorkflowReferenceError
                 (text "sub-workflow route does not match its pinned entry and terminals") "/call")
        else
          let ancestry := fr_ancestry parent ++ [fr_workflow parent] in
          let? _ := forM_ (recursion_check identity) ancestry in
          let? childInputs := foldM (child_input child parentInputs) ∅
                                (range_map "StartSubworkflow.call" (sc_Inputs call)) in
          let? _ := forM_ (declared_input childInputs)
                      (range_map "StartSubworkflow.declared"
                         (spec_Inputs (doc_Spec (ld_Document child)))) in
          newFrame id identity (ChildFrameOrigin (fr_id parent) parentVisitID) route childInputs
            ancestry
  end.

(** * Firing *)
Definition traversals_of (frame : Frame) (id : Identifier) : Z :=
  default 0%Z (fr_traversals frame !! id).
Definition TraversalCount (frame : Frame) (transitionID : Identifier) : Z :=
  traversals_of frame transitionID.

Definition commit_token (frame : Frame) (token : TransitionToken)
    (traversals : gmap Identifier Z) : Frame := {|
  fr_id := fr_id frame; fr_workflow := fr_workflow frame; fr_origin := fr_origin frame;
  fr_route := fr_route frame; fr_inputs := fr_inputs frame;
  fr_tokens := <[tok_Key token := token]> (fr_tokens frame);
  fr_traversals := traversals; fr_ancestry := fr_ancestry frame;
|}.

Definition exhausted (id : Identifier) : frame_error :=
  Coded {| fe_Code := RunLoopLimitExhausted;
           fe_Message := Msg "transition %q exhausted its traversal budget" [AStr id];
           fe_Location := "/transitions"; fe_TransitionID := id |}.

(** The token and whether it is a replay, with the frame after the call. *)
Definition fire_transition (frame : Frame) (sourceVisitID : string) (sourceNodeID : Identifier)
    (joinEpoch : Z) (transition : Transition) : Frame * fresult (TransitionToken * bool) :=
  if blank sourceVisitID
  then (frame, plain "transition firing requires a source visit ID")
  else
    let outside :=
      match findRouteTransition (route_Transitions (fr_route frame)) (ID transition) with
      | None => true
      | Some rt => bool_decide (rt_From rt ≠ sourceNodeID ∨ rt_To rt ≠ Target transition)
      end in
    if outside
    then (frame, plain "transition is not enabled for the source node in this execution frame")
    else
      let key := {| tk_SourceVisitID := sourceVisitID; tk_TransitionID := ID transition;
                    tk_JoinEpoch := joinEpoch |} in
      match fr_tokens frame !! key with
      | Some token =>
          if decide (tok_Source token ≠ sourceNodeID ∨ tok_Target token ≠ Target transition ∨
                     tokenMatchesTransition token transition = false)
          then (frame, plain "replayed transition token conflicts with its committed route")
          else (frame, Ok (token, true))
      | None =>
          match transition with
          | NormalTransition _ =>
              let token := {| tok_Key := key; tok_Source := sourceNodeID;
                              tok_Target := Target transition; tok_Kind := TransitionTokenNormal;
                              tok_Traversal := 0; tok_MaxTraversals := 0 |} in
              (commit_token frame token (fr_traversals frame), Ok (token, false))
          | BoundedTransition _ maxTraversals =>
              let used := traversals_of frame (ID transition) in
              if (maxTraversals <=? used)%Z then (frame, Err (exhausted (ID transition)))
              else
                let token := {| tok_Key := key; tok_Source := sourceNodeID;
                                tok_Target := Target transition;
                                tok_Kind := TransitionTokenBounded;
                                tok_Traversal := uint16 (used + 1);
                                tok_MaxTraversals := maxTraversals |} in
                (commit_token frame token
                   (<[ID transition := tok_Traversal token]> (fr_traversals frame)),
                 Ok (token, false))
          end
      end.

(** [frame] and [transition] may be nil. *)
Definition FireTransition (frame : option Frame) (sourceVisitID : string)
    (sourceNodeID : Identifier) (joinEpoch : Z) (transition : option Transition)
  : option Frame * fresult (TransitionToken * bool) :=
  match frame, transition with
  | Some f, Some t =>
      let '(f', outcome) := fire_transition f sourceVisitID sourceNodeID joinEpoch t in
      (Some f', outcome)
  | _, _ => (frame, plain "transition firing requires a frame and transition")
  end.

(** * Snapshots *)
Definition token_less (x y : TransitionToken) : bool :=
  lexicographic (tk_SourceVisitID (tok_Key x)) (tk_SourceVisitID (tok_Key y))
    (lexicographic (tk_TransitionID (tok_Key x)) (tk_TransitionID (tok_Key y))
       (tk_JoinEpoch (tok_Key x) <? tk_JoinEpoch (tok_Key y))%Z).

Definition Snapshot `{!GoRange} (frame : Frame) : FrameSnapshot := {|
  fs_ID := fr_id frame;
  fs_Workflow := fr_workflow frame;
  fs_Origin := fr_origin frame;
  fs_Route := cloneRoute (fr_route frame);
  fs_Inputs := mustCloneRawMessages (fr_inputs frame);
  fs_Tokens := stable_sort token_less (range_map "Snapshot" (fr_tokens frame)).*2;
  fs_Ancestry := fr_ancestry frame;
|}.

(** The loop state of [RestoreFrame]. *)
Record restoring := {
  rs_tokens : gmap TransitionTokenKey TransitionToken;
  rs_derived : gmap Identifier Z;
  rs_seen : gmap Identifier (gset Z);
  rs_limits : gmap Identifier Z;
}.

Definition seen_of (seen : gmap Identifier (gset Z)) (id : Identifier) : gset Z :=
  default ∅ (seen !! id).

(** The [switch token.Kind] of the loop, with its updates of the two maps. *)
Definition restore_kind (state : restoring) (token : TransitionToken)
  : fresult (gmap Identifier (gset Z) * gmap Identifier Z) :=
  let id := tk_TransitionID (tok_Key token) in
  let traversal := tok_Traversal token in
  let maxTraversals := tok_MaxTraversals token in
  if decide (tok_Kind token = TransitionTokenNormal) then
    if decide (traversal ≠ 0 ∨ maxTraversals ≠ 0)%Z
    then plain "normal transition token has bounded traversal fields"
    else Ok (rs_seen state, rs_limits state)
  else if decide (tok_Kind token = TransitionTokenBounded) then
    if decide (traversal = 0 ∨ maxTraversals = 0 ∨ traversal > maxTraversals)%Z
    then plain "bounded transition token has invalid traversal fields"
    else if decide (traversal ∈ seen_of (rs_seen state) id)
    then plain "execution frame snapshot reuses a bounded traversal ordinal"
    else
      let limit := default 0%Z (rs_limits state !! id) in
      if decide (limit ≠ 0 ∧ limit ≠ maxTraversals)%Z
      then plain "execution frame snapshot changes a bounded traversal limit"
      else Ok (<[id := {[traversal]} ∪ seen_of (rs_seen state) id]> (rs_seen state),
               <[id := maxTraversals]> (rs_limits state))
  else plain "transition token has an invalid kind".

Definition restore_token (route : Route) (state : restoring) (token : TransitionToken)
  : fresult restoring :=
  let key := tok_Key token in
  if decide (tk_SourceVisitID key = "" ∨ tk_TransitionID key = "" ∨ tok_Source token = "" ∨
             tok_Target token = "")
  then plain "execution frame snapshot has an invalid transition token"
  else
    let outside :=
      match findRouteTransition (route_Transitions route) (tk_TransitionID key) with
      | None => true
      | Some rt => bool_decide (rt_From rt ≠ tok_Source token ∨ rt_To rt ≠ tok_Target token)
      end in
    if outside then plain "execution frame snapshot token is outside its frozen route"
    else
      let? (seen, limits) := restore_kind state token in
      if decide (is_Some (rs_tokens state !! key))
      then plain "execution frame snapshot has a duplicate transition token"
      else
        let count := default 0%Z (rs_derived state !! tk_TransitionID key) in
        Ok {| rs_tokens := <[key := token]> (rs_tokens state);
              rs_derived :=
                if (count <? tok_Traversal token)%Z
                then <[tk_TransitionID key := tok_Traversal token]> (rs_derived state)
                else rs_derived state;
              rs_seen := seen; rs_limits := limits |}.

(** [for ordinal := uint16(1); ordinal <= count; ordinal++]: [true] when every ordinal is
    present.  The counter wraps at 2^16, so the fuel covers one full round. *)
Fixpoint check_ordinals (fuel : nat) (seen : gset Z) (count ordinal : Z) : option bool :=
  match fuel with
  | O => None
  | S fuel =>
      if (ordinal <=? count)%Z then
        if decide (ordinal ∈ seen) then check_ordinals fuel seen count (uint16 (ordinal + 1))
        else Some false
      else Some true
  end.
Definition ordinal_fuel : nat := Z.to_nat (2 ^ 16 + 1).
Definition ordinals_complete (seen : gset Z) (count : Z) : bool :=
  default false (check_ordinals ordinal_fuel seen count 1).

Definition restore_count (seen : gmap Identifier (gset Z)) (traversals : gmap Identifier Z)
    (entry : Identifier * Z) : fresult (gmap Identifier Z) :=
  let '(transitionID, count) := entry in
  if negb (ordinals_complete (seen_of seen transitionID) count)
  then plain "execution frame snapshot has a gap in bounded traversal ordinals"
  else Ok (<[transitionID := count]> traversals).

Definition RestoreFrame `{!GoRange} (snapshot : FrameSnapshot) : fresult Frame :=
  let? _ := validateFrameOrigin (fs_Origin snapshot) in
  let? inputs := cloneRawMessages (fs_Inputs snapshot) in
  let route := cloneRoute (fs_Route snapshot) in
  if bool_decide (fs_ID snapshot = "") || negb (valid_identity (fs_Workflow snapshot))
  then plain "execution frame snapshot has invalid identity"
  else
    let? _ := validateFrozenRoute route in
    let? _ := validateFrameAncestry (fs_Origin snapshot) (fs_Workflow snapshot)
                (fs_Ancestry snapshot) in
    let? state := foldM (restore_token route)
                    {| rs_tokens := ∅; rs_derived := ∅; rs_seen := ∅; rs_limits := ∅ |}
                    (fs_Tokens snapshot) in
    let? traversals := foldM (restore_count (rs_seen state)) ∅
                         (range_map "RestoreFrame" (rs_derived state)) in
    Ok {| fr_id := fs_ID snapshot; fr_workflow := fs_Workflow snapshot;
          fr_origin := fs_Origin snapshot; fr_route := route; fr_inputs := inputs;
          fr_tokens := rs_tokens state; fr_traversals := traversals;
          fr_ancestry := fs_Ancestry snapshot |}.

(** * Outputs of a completed child *)
Section outputs.
Variables (node : NodeFields) (child : Document)
  (outputs : gmap Identifier (gmap Identifier RawMessage)).

Definition map_output (candidate : gmap Identifier RawMessage) (entry : Identifier * string)
  : fresult (gmap Identifier RawMessage) :=
  let '(parentName, source) := entry in
  let location := "/call/outputs/" +:+ parentName in
  match parseNodeOutputSource source with
  | None =>
      Err (coded RunOutputInvalid (Msg "child output source %q is invalid" [AStr source]) location)
  | Some (childNode, childOutput) =>
      match nodes_of child !! childNode with
      | None =>
          Err (coded WorkflowReferenceError
                 (Msg "child node %q does not exist" [AStr childNode]) location)
      | Some declaredNode =>
          match nf_Outputs (Fields declaredNode) !! childOutput with
          | None =>
              Err (coded WorkflowReferenceError
                     (Msg "child output %q does not exist" [AStr source]) location)
          | Some declaration =>
              match outputs !! childNode ≫= lookup childOutput with
              | Some value =>
                  if negb (rawMessageHasType value (od_Type declaration)) then
                    Err (coded RunOutputInvalid
                           (Msg "child output %q is missing or has incompatible type" [AStr source])
                           location)
                  else
                    match nf_Outputs node !! parentName with
                    | Some parentDeclaration =>
                        if decide (od_Type parentDeclaration ≠ od_Type declaration) then
                          Err (coded RunOutputInvalid
                                 (Msg "parent output %q is incompatible with %q"
                                    [AStr parentName; AStr source]) location)
                        else Ok (<[parentName := value]> candidate)
                    | None =>
                        Err (coded RunOutputInvalid
                               (Msg "parent output %q is incompatible with %q"
                                  [AStr parentName; AStr source]) location)
                    end
              | None =>
                  Err (coded RunOutputInvalid
                         (Msg "child output %q is missing or has incompatible type" [AStr source])
                         location)
              end
          end
      end
  end.
End outputs.

Definition MapSubworkflowOutputs `{!GoRange} (node : NodeFields) (call : SubworkflowCall)
    (child : Document) (outputs : gmap Identifier (gmap Identifier RawMessage))
  : fresult (gmap Identifier RawMessage) :=
  foldM (map_output node child outputs) ∅ (range_map "MapSubworkflowOutputs" (sc_Outputs call)).

(** * Well-formed frames *)
Definition is_bounded (token : TransitionToken) : Prop := tok_Kind token = TransitionTokenBounded.
Definition token_id (token : TransitionToken) : Identifier := tk_TransitionID (tok_Key token).

(** What one token must satisfy against the frozen transitions. *)
Record token_shape (transitions : list RouteTransition) (token : TransitionToken) : Prop := {
  ts_visit : tk_SourceVisitID (tok_Key token) ≠ "";
  ts_id : token_id token ≠ "";
  ts_source : tok_Source token ≠ "";
  ts_target : tok_Target token ≠ "";
  ts_route : ∃ rt, findRouteTransition transitions (token_id token) = Some rt ∧
    rt_From rt = tok_Source token ∧ rt_To rt = tok_Target token;
  ts_kind :
    (tok_Kind token = TransitionTokenNormal ∧ tok_Traversal token = 0 ∧
     tok_MaxTraversals token = 0)%Z ∨
    (is_bounded token ∧ 1 ≤ tok_Traversal token ≤ tok_MaxTraversals token)%Z;
}.

(** What the tokens of one frame must satisfy together: within one bounded transition they
    have one limit and distinct ordinals. *)
Definition compatible (x y : TransitionToken) : Prop :=
  tok_Key x ≠ tok_Key y ∧
  (is_bounded x → is_bounded y → token_id x = token_id y →
   tok_MaxTraversals x = tok_MaxTraversals y ∧ tok_Traversal x ≠ tok_Traversal y).

(** The width of the machine integers of a token. *)
Definition token_typed (token : TransitionToken) : Prop :=
  (0 ≤ tok_Traversal token < 2 ^ 16 ∧ 0 ≤ tok_MaxTraversals token < 2 ^ 16 ∧
   0 ≤ tk_JoinEpoch (tok_Key token) < 2 ^ 64)%Z.

Definition token_in (frame : Frame) (token : TransitionToken) : Prop :=
  fr_tokens frame !! tok_Key token = Some token.

Record frame_wf (frame : Frame) : Prop := {
  wf_id : fr_id frame ≠ "";
  wf_identity : valid_identity (fr_workflow frame) = true;
  wf_origin : validateFrameOrigin (fr_origin frame) = Ok tt;
  wf_ancestry : validateFrameAncestry (fr_origin frame) (fr_workflow frame) (fr_ancestry frame) = Ok tt;
  wf_route : validateFrozenRoute (fr_route frame) = Ok tt;
  wf_assessment : route_Assessment (fr_route frame) = "";
  wf_inputs : ∀ k v, fr_inputs frame !! k = Some v → Valid v = true;
  wf_keys : ∀ k t, fr_tokens frame !! k = Some t → tok_Key t = k;
  wf_shape : ∀ t, token_in frame t → token_shape (route_Transitions (fr_route frame)) t;
  wf_typed : ∀ t, token_in frame t → token_typed t;
  wf_compatible : ∀ x y, token_in frame x → token_in frame y → x ≠ y → compatible x y;
  wf_ordinals : ∀ id n, (1 ≤ n ≤ traversals_of frame id)%Z ↔
    ∃ t, token_in frame t ∧ is_bounded t ∧ token_id t = id ∧ tok_Traversal t = n;
  wf_traversals : ∀ id n, fr_traversals frame !! id = Some n → (0 < n)%Z;
}.

(** * Lemmas *)
Lemma cloneRawMessages_Ok `{!GoRange} values result :
  cloneRawMessages values = Ok result ↔
  result = values ∧ ∀ k v, values !! k = Some v → Valid v = true.
Proof.
  unfold cloneRawMessages.
  rewrite (foldM_map_Ok _ (λ name value, if negb (Valid value)
    then Err (Plain (Msg "input %q is not valid JSON" [AStr name])) else Ok value)); last first.
  { intros m k a. simpl. by destruct (Valid a). }
  split.
  - intros Hall. split.
    + apply map_eq. intros k. specialize (Hall k). destruct (values !! k) as [v|]; [|done].
      destruct Hall as (b & Hb & ->). destruct (Valid v); naive_solver.
    + intros k v Hk. specialize (Hall k). rewrite Hk in Hall. destruct Hall as (b & Hb & _).
      by destruct (Valid v).
  - intros [-> Hv] k. destruct (values !! k) as [v|] eqn:Hk; [|done].
    exists v. by rewrite (Hv k v Hk).
Qed.

Lemma mustCloneRawMessages_valid `{!GoRange} values :
  (∀ k v, values !! k = Some v → Valid v = true) → mustCloneRawMessages values = values.
Proof.
  intros Hv. unfold mustCloneRawMessages.
  by rewrite (proj2 (cloneRawMessages_Ok values values) (conj eq_refl Hv)).
Qed.

Lemma cloneRoute_id route : route_Assessment route = "" → cloneRoute route = route.
Proof.
  destruct route as [a e ts ns trs ex ins]; simpl. intros ->. unfold cloneRoute; simpl. f_equal.
  rewrite <-(list_fmap_id ns) at 2. apply list_fmap_ext. by intros _ [id [[]|]] _.
Qed.

Lemma cloneRoute_idemp route : cloneRoute (cloneRoute route) = cloneRoute route.
Proof. by apply cloneRoute_id. Qed.

Lemma validateFrozenRoute_clone route :
  validateFrozenRoute (cloneRoute route) = validateFrozenRoute route.
Proof. done. Qed.

Lemma findRouteTransition_Some transitions id rt :
  findRouteTransition transitions id = Some rt → rt ∈ transitions ∧ rt_ID rt = id.
Proof.
  induction transitions as [|t transitions IH]; simpl; [done|]. case_decide as Ht.
  - intros [= ->]. split; [by left|done].
  - intros [? ?]%IH. split; [by right|done].
Qed.

Lemma frozen_transitions seen transitions seen' :
  foldM frozen_transition seen transitions = Ok seen' →
  Forall (λ t, rt_ID t ≠ "" ∧ rt_From t ≠ "" ∧ rt_To t ≠ "") transitions ∧
  NoDup (rt_ID <$> transitions) ∧ (∀ x, x ∈ rt_ID <$> transitions → x ∉ seen).
Proof.
  revert seen. induction transitions as [|t ts IH]; intros seen Hf; simpl in *.
  { split_and!; [constructor|constructor|]. by intros x ?%elem_of_nil. }
  apply result_bind_Ok in Hf as (s1 & Ht & Hf). unfold frozen_transition in Ht.
  case_decide as Hc; [done|]. injection Ht as <-. apply IH in Hf as (H1 & H2 & H3).
  split_and!.
  - constructor; [naive_solver|done].
  - constructor; [|done]. intros Hin. specialize (H3 _ Hin). set_solver.
  - intros x [->|Hx]%elem_of_cons; [naive_solver|]. specialize (H3 _ Hx). set_solver.
Qed.

(** A frozen route: an entry, terminals, and transitions with distinct identifiers. *)
Lemma validateFrozenRoute_Ok route :
  validateFrozenRoute route = Ok tt →
  route_Entry route ≠ "" ∧ route_Terminals route ≠ [] ∧
  Forall (λ t, rt_ID t ≠ "" ∧ rt_From t ≠ "" ∧ rt_To t ≠ "") (route_Transitions route) ∧
  NoDup (rt_ID <$> route_Transitions route).
Proof.
  unfold validateFrozenRoute. case_decide as Hc; [done|]. intros (s & Hf & _)%result_bind_Ok.
  apply frozen_transitions in Hf as (H1 & H2 & _). split_and!; try done; [naive_solver|].
  intros Hnil. apply Hc. right. by rewrite Hnil.
Qed.

Lemma ancestry_loop seen ancestry seen' :
  foldM ancestry_step seen ancestry = Ok seen' →
  NoDup ancestry ∧ (∀ w, w ∈ ancestry → w ∉ seen ∧ valid_identity w = true).
Proof.
  revert seen. induction ancestry as [|w l IH]; intros seen Hf; simpl in *.
  { split; [constructor|]. by intros w ?%elem_of_nil. }
  apply result_bind_Ok in Hf as (s1 & Hw & Hf). unfold ancestry_step in Hw.
  destruct (valid_identity w) eqn:Hv; [|done]. simpl in Hw.
  destruct (bool_decide (w ∈ seen)) eqn:Hs; [done|]. apply bool_decide_eq_false in Hs.
  injection Hw as <-. apply IH in Hf as [Hnd Hl]. split.
  - constructor; [|done]. intros Hin. destruct (Hl w Hin). set_solver.
  - intros x [->|Hx]%elem_of_cons; [done|]. destruct (Hl x Hx). set_solver.
Qed.

Lemma validateFrameAncestry_Ok origin current ancestry :
  validateFrameAncestry origin current ancestry = Ok tt →
  NoDup (ancestry ++ [current]) ∧ (∀ w, w ∈ ancestry → valid_identity w = true).
Proof.
  unfold validateFrameAncestry. intros (u & _ & Hf)%result_bind_Ok.
  apply result_bind_Ok in Hf as (s & Hf & _). apply ancestry_loop in Hf as [Hnd Hl].
  split; [|intros; by apply Hl]. apply NoDup_app. split_and!; [done| |apply NoDup_singleton].
  intros w Hw ->%list_elem_of_singleton. destruct (Hl current Hw). set_solver.
Qed.

(** ** A new frame *)
Lemma blank_nonempty s : blank s = false → s ≠ "".
Proof. by intros ? ->. Qed.

Lemma newFrame_Ok `{!GoRange} id identity origin route inputs ancestry f :
  newFrame id identity origin route inputs ancestry = Ok f ↔
  blank id = false ∧ valid_identity identity = true ∧ validateFrozenRoute route = Ok tt ∧
  validateFrameOrigin origin = Ok tt ∧ validateFrameAncestry origin identity ancestry = Ok tt ∧
  (∀ k v, inputs !! k = Some v → Valid v = true) ∧
  f = {| fr_id := id; fr_workflow := identity; fr_origin := origin;
         fr_route := cloneRoute route; fr_inputs := inputs;
         fr_tokens := ∅; fr_traversals := ∅; fr_ancestry := ancestry |}.
Proof.
  unfold newFrame. destruct (blank id); [naive_solver|].
  destruct (valid_identity identity); [|naive_solver]. simpl.
  destruct (validateFrozenRoute route) as [[]|]; [|naive_solver]. simpl.
  destruct (validateFrameOrigin origin) as [[]|]; [|naive_solver]. simpl.
  destruct (validateFrameAncestry _ _ _) as [[]|]; [|naive_solver]. simpl.
  rewrite result_bind_Ok. setoid_rewrite cloneRawMessages_Ok. naive_solver.
Qed.

Lemma newFrame_wf `{!GoRange} id identity origin route inputs ancestry f :
  newFrame id identity origin route inputs ancestry = Ok f → frame_wf f.
Proof.
  intros (? & ? & ? & ? & ? & ? & ->)%newFrame_Ok.
  split; simpl; try done; unfold token_in, traversals_of; simpl.
  - by apply blank_nonempty.
  - intros id' n. rewrite lookup_empty. simpl. split; [lia|]. by intros (t & Ht & _).
Qed.

(** ** One firing *)

(** The transition is the one its identifier has always named in this frame. *)
Definition limit_agrees (frame : Frame) (transition : Transition) : Prop :=
  match transition with
  | NormalTransition _ => True
  | BoundedTransition _ maxTraversals =>
      (0 ≤ maxTraversals < 2 ^ 16)%Z ∧
      ∀ t, token_in frame t → is_bounded t → token_id t = ID transition →
           tok_MaxTraversals t = maxTraversals
  end.

Section fire.
Variables (f : Frame) (visit : string) (node : Identifier) (epoch : Z) (tr : Transition).
Definition fire_key : TransitionTokenKey :=
  {| tk_SourceVisitID := visit; tk_TransitionID := ID tr; tk_JoinEpoch := epoch |}.

(** The token a first firing commits. *)
Definition fired_token : TransitionToken :=
  match tr with
  | NormalTransition _ =>
      {| tok_Key := fire_key; tok_Source := node; tok_Target := Target tr;
         tok_Kind := TransitionTokenNormal; tok_Traversal := 0; tok_MaxTraversals := 0 |}
  | BoundedTransition _ maxTraversals =>
      {| tok_Key := fire_key; tok_Source := node; tok_Target := Target tr;
         tok_Kind := TransitionTokenBounded;
         tok_Traversal := uint16 (traversals_of f (ID tr) + 1);
         tok_MaxTraversals := maxTraversals |}
  end.
Definition fired_traversals : gmap Identifier Z :=
  match tr with
  | NormalTransition _ => fr_traversals f
  | BoundedTransition _ _ => <[ID tr := uint16 (traversals_of f (ID tr) + 1)]> (fr_traversals f)
  end.

Definition in_route : Prop :=
  ∃ rt, findRouteTransition (route_Transitions (fr_route f)) (ID tr) = Some rt ∧
        rt_From rt = node ∧ rt_To rt = Target tr.
Definition within_budget : Prop :=
  match tr with
  | NormalTransition _ => True
  | BoundedTransition _ maxTraversals => (traversals_of f (ID tr) < maxTraversals)%Z
  end.

End fire.

(** The three ways a call ends. *)
Inductive fire_outcome (f : Frame) (visit : string) (node : Identifier) (epoch : Z)
    (tr : Transition) : Frame * fresult (TransitionToken * bool) → Prop :=
| fire_replay token :
    in_route f node tr → blank visit = false → fr_tokens f !! (fire_key visit epoch tr) = Some token →
    tok_Source token = node → tok_Target token = Target tr →
    tokenMatchesTransition token tr = true →
    fire_outcome f visit node epoch tr (f, Ok (token, true))
| fire_commit :
    in_route f node tr → blank visit = false → fr_tokens f !! (fire_key visit epoch tr) = None → within_budget f tr →
    fire_outcome f visit node epoch tr (commit_token f (fired_token f visit node epoch tr) (fired_traversals f tr), Ok ((fired_token f visit node epoch tr), false))
| fire_refused e :
    e = Plain (text "transition firing requires a source visit ID") ∧ blank visit = true ∨
    e = Plain (text "transition is not enabled for the source node in this execution frame") ∧
      ¬ in_route f node tr ∨
    e = Plain (text "replayed transition token conflicts with its committed route") ∧
      (∃ token, fr_tokens f !! (fire_key visit epoch tr) = Some token ∧
        (tok_Source token ≠ node ∨ tok_Target token ≠ Target tr ∨
         tokenMatchesTransition token tr = false)) ∨
    e = exhausted (ID tr) ∧ in_route f node tr ∧ blank visit = false ∧
      fr_tokens f !! (fire_key visit epoch tr) = None ∧ ¬ within_budget f tr →
    fire_outcome f visit node epoch tr (f, Err e).

Lemma fire_transition_outcome f visit node epoch tr :
  fire_outcome f visit node epoch tr (fire_transition f visit node epoch tr).
Proof.
  unfold fire_transition. destruct (blank visit) eqn:Hv; [constructor; by left|].
  assert (match findRouteTransition (route_Transitions (fr_route f)) (ID tr) with
    | None => true
    | Some rt => bool_decide (rt_From rt ≠ node ∨ rt_To rt ≠ Target tr) end = false ↔ in_route f node tr)
    as Hin.
  { unfold in_route. destruct (findRouteTransition _ _) as [rt|]; [|naive_solver].
    rewrite bool_decide_eq_false. destruct (decide (rt_From rt = node)),
      (decide (rt_To rt = Target tr)); naive_solver. }
  cbv zeta. destruct (match findRouteTransition _ _ with Some _ => _ | None => _ end).
  { constructor. right; left. split; [done|]. by rewrite <-Hin. }
  assert (in_route f node tr) as Hroute by by apply Hin.
  destruct (fr_tokens f !! _) as [token|] eqn:Htok.
  - destruct (decide _) as [Hc|Hc].
    + constructor. right; right; left. naive_solver.
    + constructor; try done; [destruct (decide (tok_Source token = node))|
        destruct (decide (tok_Target token = Target tr))|
        destruct (tokenMatchesTransition token tr) eqn:E]; naive_solver.
  - pose proof (fire_commit f visit node epoch tr Hroute Hv Htok) as Hcommit.
    unfold within_budget, fired_token, fired_traversals in *. destruct tr as [c|c m]; [auto|].
    destruct (Z.leb_spec m (traversals_of f (ID (BoundedTransition c m)))).
    + constructor. right; right; right. split_and!; [done|done|done|exact Htok|]. unfold within_budget. simpl. lia.
    + auto.
Qed.

(** ** Firing preserves well-formedness *)
Record firing (f : Frame) (visit : string) (node : Identifier) (epoch : Z) (tr : Transition)
  : Prop := {
  fg_wf : frame_wf f;
  fg_agrees : limit_agrees f tr;
  fg_epoch : (0 ≤ epoch < 2 ^ 64)%Z;
  fg_route : in_route f node tr;
  fg_visit : blank visit = false;
  fg_new : fr_tokens f !! fire_key visit epoch tr = None;
  fg_budget : within_budget f tr;
}.

Lemma traversals_bound f id : frame_wf f → (0 ≤ traversals_of f id)%Z.
Proof.
  intros Hwf. unfold traversals_of. destruct (fr_traversals f !! id) as [n|] eqn:Hn; simpl; [|lia].
  apply (wf_traversals f Hwf) in Hn. lia.
Qed.

Abbreviation after f visit node epoch tr :=
  (commit_token f (fired_token f visit node epoch tr) (fired_traversals f tr)).

Lemma fired_key f visit node epoch tr : tok_Key (fired_token f visit node epoch tr) = fire_key visit epoch tr.
Proof. by destruct tr. Qed.

Lemma fired_id f visit node epoch tr : token_id (fired_token f visit node epoch tr) = ID tr.
Proof. by destruct tr. Qed.

Lemma token_in_commit f visit node epoch tr t :
  firing f visit node epoch tr →
  token_in (after f visit node epoch tr) t ↔ t = fired_token f visit node epoch tr ∨ token_in f t.
Proof.
  intros [Hwf Hagrees Hepoch Hroute Hvisit Hnew Hbudget].
  unfold token_in. simpl. rewrite lookup_insert_Some, fired_key. split.
  - intros [[Hk <-]|[Hk Ht]]; [by left|by right].
  - intros [->|Ht]; [left; by rewrite fired_key|]. right. split; [|done].
    intros Hk. rewrite <-Hk, Hnew in Ht. done.
Qed.

Lemma fired_typed f visit node epoch tr :
  firing f visit node epoch tr → token_typed (fired_token f visit node epoch tr).
Proof.
  intros [Hwf Hagrees Hepoch Hroute Hvisit Hnew Hbudget].
  unfold token_typed. rewrite fired_key. simpl. pose proof (traversals_bound f (ID tr) ltac:(done)).
  destruct tr as [c|c m]; simpl in *; [lia|]. unfold wrap.
  split_and!; try lia; apply Z.mod_pos_bound; lia.
Qed.

Lemma fired_traversal_bounded f visit node epoch tr c m :
  firing f visit node epoch tr →
  tr = BoundedTransition c m → uint16 (traversals_of f (ID tr) + 1) = (traversals_of f (ID tr) + 1)%Z.
Proof.
  intros [Hwf Hagrees Hepoch Hroute Hvisit Hnew Hbudget] ->. pose proof (traversals_bound f (ID (BoundedTransition c m)) Hwf). simpl in *.
  apply wrap_small. lia.
Qed.

Lemma fired_shape f visit node epoch tr :
  firing f visit node epoch tr →
  token_shape (route_Transitions (fr_route f)) (fired_token f visit node epoch tr).
Proof.
  intros Hf. pose proof Hf as [Hwf Hagrees Hepoch Hroute Hvisit Hnew Hbudget].
  destruct Hroute as (rt & Hfind & Hfrom & Hto). pose proof (wf_route f Hwf) as Hr.
  apply validateFrozenRoute_Ok in Hr as (_ & _ & Hall & _).
  apply findRouteTransition_Some in Hfind as Hin. destruct Hin as [Hin Hid].
  apply (proj1 (Forall_forall _ _) Hall) in Hin as (Hn1 & Hn2 & Hn3).
  pose proof (traversals_bound f (ID tr) ltac:(done)). pose proof (λ c m, fired_traversal_bounded f visit node epoch tr c m Hf) as Hu.
  split; rewrite ?fired_id, ?fired_key.
  - by apply blank_nonempty.
  - congruence.
  - destruct tr; simpl in *; congruence.
  - destruct tr; simpl in *; congruence.
  - exists rt. destruct tr; simpl in *; by subst.
  - destruct tr as [c|c m]; [by left|right]. split; [done|]. cbn [fired_token tok_Traversal tok_MaxTraversals].
    rewrite (Hu c m eq_refl). simpl in Hbudget. lia.
Qed.

Lemma traversals_of_commit f visit node epoch tr id :
  firing f visit node epoch tr →
  traversals_of (after f visit node epoch tr) id =
  match tr with
  | BoundedTransition _ _ =>
      if decide (id = ID tr) then (traversals_of f id + 1)%Z else traversals_of f id
  | NormalTransition _ => traversals_of f id
  end.
Proof.
  intros Hf. pose proof (λ c m, fired_traversal_bounded f visit node epoch tr c m Hf) as Hu.
  destruct tr as [c|c m] eqn:Htr; [done|].
  unfold traversals_of at 1. simpl fr_traversals. case_decide as Hid.
  - subst id. unfold fired_traversals. rewrite lookup_insert_eq. simpl. by apply (Hu c m).
  - unfold fired_traversals. by rewrite lookup_insert_ne.
Qed.

Lemma fired_compatible f visit node epoch tr t :
  firing f visit node epoch tr →
  token_in f t →
  compatible (fired_token f visit node epoch tr) t ∧ compatible t (fired_token f visit node epoch tr).
Proof.
  intros Hf Ht. pose proof Hf as [Hwf Hagrees Hepoch Hroute Hvisit Hnew Hbudget].
  set (token := fired_token f visit node epoch tr).
  assert (tok_Key token ≠ tok_Key t) as Hk.
  { unfold token. rewrite fired_key. intros Hk. unfold token_in in Ht. rewrite <-Hk, Hnew in Ht. done. }
  assert (is_bounded token → is_bounded t → token_id token = token_id t →
    tok_MaxTraversals token = tok_MaxTraversals t ∧ tok_Traversal token ≠ tok_Traversal t) as H.
  { unfold token. rewrite fired_id. intros Hb Hbt Hid. pose proof (λ c m, fired_traversal_bounded f visit node epoch tr c m Hf) as Hu.
    destruct tr as [c|c m]; [done|]. simpl in Hagrees. destruct Hagrees as [_ Ha]. split.
    - simpl. symmetry. by apply Ha.
    - cbn [fired_token tok_Traversal]. rewrite (Hu c m eq_refl). intros Htrav.
      assert (1 ≤ tok_Traversal t ≤ traversals_of f (ID (BoundedTransition c m)))%Z; [|lia].
      apply (wf_ordinals f Hwf). by exists t. }
  unfold compatible. split; split; try done; intros; destruct H; auto.
Qed.

Lemma commit_wf f visit node epoch tr :
  firing f visit node epoch tr →
  frame_wf (after f visit node epoch tr).
Proof.
  intros Hf. pose proof Hf as [Hwf Hagrees Hepoch Hroute Hvisit Hnew Hbudget].
  pose proof (λ t, token_in_commit f visit node epoch tr t Hf) as Hin.
  pose proof Hwf as []. split; try done.
  - intros k t. simpl. intros [[<- <-]|[Hk Ht]]%lookup_insert_Some; [done|auto].
  - intros t [->|Ht]%Hin; [exact (fired_shape f visit node epoch tr Hf)|by apply wf_shape0].
  - intros t [->|Ht]%Hin; [exact (fired_typed f visit node epoch tr Hf)|auto].
  - intros x y [->|Hx]%Hin [->|Hy]%Hin Hne; [done| | |auto];
      by (eapply fired_compatible; done).
  - intros id n. rewrite traversals_of_commit by done. setoid_rewrite Hin.
    pose proof (λ c m, fired_traversal_bounded f visit node epoch tr c m Hf) as Hu.
    pose proof (traversals_bound f id ltac:(done)).
    destruct tr as [c|c m] eqn:Htr.
    + rewrite wf_ordinals0. split; [naive_solver|]. intros (t & [->|?] & Hb & ?); [done|eauto].
    + specialize (Hu c m eq_refl). case_decide as Hid.
      * subst id. split.
        -- intros Hn. destruct (decide (n = traversals_of f (ID (BoundedTransition c m)) + 1)%Z) as [->|].
           ++ eexists. split_and!; [by left|done|done|]. by rewrite <-Hu.
           ++ destruct (proj1 (wf_ordinals0 (ID (BoundedTransition c m)) n)) as (t & ? & ?); [lia|eauto].
        -- intros (t & [->|Ht] & Hb & Hid & <-).
           ++ cbn [fired_token tok_Traversal]. rewrite Hu. lia.
           ++ assert (1 ≤ tok_Traversal t ≤ traversals_of f (ID (BoundedTransition c m)))%Z; [|lia].
              apply wf_ordinals0. eauto.
      * rewrite wf_ordinals0. split; [naive_solver|].
        intros (t & [->|?] & Hb & Hid' & ?); [|eauto]. by destruct Hid.
  - intros id n. simpl. pose proof (λ c m, fired_traversal_bounded f visit node epoch tr c m Hf) as Hu.
    pose proof (traversals_bound f (ID tr) ltac:(done)).
    destruct tr as [c|c m]; unfold fired_traversals; [by apply wf_traversals0|].
    specialize (Hu c m eq_refl). intros [[<- <-]|[_ ?]]%lookup_insert_Some; [|eauto]. lia.
Qed.

Lemma fire_transition_wf f visit node epoch tr :
  frame_wf f → limit_agrees f tr → (0 ≤ epoch < 2 ^ 64)%Z →
  frame_wf (fire_transition f visit node epoch tr).1.
Proof.
  intros ???. destruct (fire_transition_outcome f visit node epoch tr) as [| |]; [done| |done].
  apply commit_wf. by split.
Qed.

(** ** Runs of a frame *)

(** The authored transitions by identifier, with 16-bit limits. *)
Definition authored (T : gmap Identifier Transition) : Prop :=
  ∀ id tr, T !! id = Some tr → ID tr = id ∧
    match tr with
    | NormalTransition _ => True
    | BoundedTransition _ maxTraversals => (0 ≤ maxTraversals < 2 ^ 16)%Z
    end.

(** One call of [FireTransition] with an authored transition, whatever its outcome. *)
Inductive fires (T : gmap Identifier Transition) : Frame → Frame → Prop :=
| fires_call f visit node epoch tr f' outcome :
    T !! ID tr = Some tr → (0 ≤ epoch < 2 ^ 64)%Z →
    FireTransition (Some f) visit node epoch (Some tr) = (Some f', outcome) →
    fires T f f'.

(** What the calls keep: well-formedness, and the authored limits. *)
Record consistent (T : gmap Identifier Transition) (f : Frame) : Prop := {
  cons_wf : frame_wf f;
  cons_limit : ∀ t, token_in f t → is_bounded t →
    ∃ c, T !! token_id t = Some (BoundedTransition c (tok_MaxTraversals t));
}.

Lemma FireTransition_Some f visit node epoch tr f' outcome :
  FireTransition (Some f) visit node epoch (Some tr) = (Some f', outcome) ↔
  fire_transition f visit node epoch tr = (f', outcome).
Proof. simpl. destruct (fire_transition _ _ _ _ _). naive_solver. Qed.

Lemma consistent_agrees T f tr :
  authored T → consistent T f → T !! ID tr = Some tr → limit_agrees f tr.
Proof.
  intros HT [_ Hlim] Htr. unfold limit_agrees. destruct tr as [c|c m]; [done|].
  destruct (HT _ _ Htr) as [_ ?]. split; [done|]. intros t Ht Hb Hid.
  destruct (Hlim t Ht Hb) as (c' & Hc). rewrite Hid, Htr in Hc. congruence.
Qed.

Lemma fires_consistent T f f' : authored T → consistent T f → fires T f f' → consistent T f'.
Proof.
  intros HT Hc Hf. destruct Hf as [f visit node epoch tr f' outcome Htr Hepoch Hfire].
  apply FireTransition_Some in Hfire.
  pose proof (consistent_agrees T f tr HT Hc Htr) as Hagrees.
  pose proof Hc as [Hwf Hlim].
  pose proof (fire_transition_outcome f visit node epoch tr) as Ho. rewrite Hfire in Ho.
  inversion Ho as [| Hroute Hvisit Hnew Hbudget |]; subst; [done| |done].
  assert (firing f visit node epoch tr) as Hfg by by split.
  split; [by apply commit_wf|]. intros t Ht Hb.
  apply token_in_commit in Ht as [->|Ht]; [|by apply Hlim|done].
  rewrite fired_id, Htr. destruct tr as [c|c m]; [done|]. by exists c.
Qed.

Lemma run_consistent T f f' : authored T → consistent T f → rtc (fires T) f f' → consistent T f'.
Proof. intros HT Hc Hr. induction Hr; eauto using fires_consistent. Qed.

Lemma newFrame_consistent `{!GoRange} T id identity origin route inputs ancestry f :
  newFrame id identity origin route inputs ancestry = Ok f → consistent T f.
Proof.
  intros Hf. split; [by eapply newFrame_wf|]. apply newFrame_Ok in Hf as (_ & _ & _ & _ & _ & _ & ->).
  by intros t.
Qed.

(** The bounded tokens of one transition. *)
Definition tokens_of (f : Frame) (id : Identifier) : list TransitionToken :=
  filter (λ t, is_bounded t ∧ token_id t = id) (map_to_list (fr_tokens f)).*2.

Lemma elem_of_tokens f t : frame_wf f → t ∈ (map_to_list (fr_tokens f)).*2 ↔ token_in f t.
Proof.
  intros Hwf. rewrite list_elem_of_fmap. unfold token_in. split.
  - intros ([k t'] & -> & Hin%elem_of_map_to_list). simpl. by rewrite (wf_keys f Hwf k t' Hin).
  - intros Hin. exists (tok_Key t, t). by rewrite elem_of_map_to_list.
Qed.

Lemma tokens_NoDup f : frame_wf f → NoDup (map_to_list (fr_tokens f)).*2.
Proof.
  intros Hwf. apply (NoDup_fmap_1 tok_Key).
  assert (tok_Key <$> (map_to_list (fr_tokens f)).*2 = (map_to_list (fr_tokens f)).*1) as ->.
  { rewrite <-list_fmap_compose. apply list_fmap_ext. intros i [k t] Hi. simpl.
    apply (wf_keys f Hwf), elem_of_map_to_list. by eapply list_elem_of_lookup_2. }
  apply NoDup_fst_map_to_list.
Qed.

(** The ordinals of the bounded tokens are 1 .. count, each once. *)
Lemma tokens_of_ordinals f id :
  frame_wf f → tok_Traversal <$> tokens_of f id ≡ₚ seqZ 1 (TraversalCount f id).
Proof.
  intros Hwf. assert (NoDup (tokens_of f id)) as Hnd.
  { apply list.NoDup_filter. by apply tokens_NoDup. }
  assert (∀ t, t ∈ tokens_of f id ↔ token_in f t ∧ is_bounded t ∧ token_id t = id) as Hin.
  { intros t. unfold tokens_of. rewrite list_elem_of_filter, elem_of_tokens by done. tauto. }
  apply NoDup_Permutation; [|apply NoDup_seqZ|].
  - apply NoDup_fmap_2_strong; [|done]. intros x y (Hx & Hbx & Hix)%Hin (Hy & Hby & Hiy)%Hin Heq.
    destruct (decide (x = y)) as [|Hne]; [done|].
    destruct (wf_compatible f Hwf x y Hx Hy Hne) as [_ Hc].
    destruct Hc as [_ ?]; [done|done|congruence|done].
  - intros n. rewrite elem_of_seqZ, list_elem_of_fmap. unfold TraversalCount.
    assert (1 ≤ n < 1 + traversals_of f id ↔ 1 ≤ n ≤ traversals_of f id)%Z as -> by lia.
    rewrite (wf_ordinals f Hwf). setoid_rewrite Hin. naive_solver.
Qed.

(** ** The token loop of [RestoreFrame] *)

(** A list of tokens the loop accepts. *)
Record tokens_ok (transitions : list RouteTransition) (l : list TransitionToken) : Prop := {
  to_shape : Forall (token_shape transitions) l;
  to_compatible : ∀ i j x y, l !! i = Some x → l !! j = Some y → i ≠ j → compatible x y;
}.

(** The state of the loop after the tokens [l]. *)
Record restored (l : list TransitionToken) (state : restoring) : Prop := {
  r_tokens : ∀ k t, rs_tokens state !! k = Some t ↔ t ∈ l ∧ tok_Key t = k;
  r_seen : ∀ id n, n ∈ seen_of (rs_seen state) id ↔
    ∃ t, t ∈ l ∧ is_bounded t ∧ token_id t = id ∧ tok_Traversal t = n;
  r_limits : ∀ id m, rs_limits state !! id = Some m ↔
    ∃ t, t ∈ l ∧ is_bounded t ∧ token_id t = id ∧ tok_MaxTraversals t = m;
  r_derived : ∀ id n, rs_derived state !! id = Some n →
    ∃ t, t ∈ l ∧ is_bounded t ∧ token_id t = id ∧ tok_Traversal t = n;
  r_bound : ∀ t, t ∈ l → (tok_Traversal t ≤ default 0 (rs_derived state !! token_id t))%Z;
}.

Lemma tokens_ok_snoc transitions l t :
  tokens_ok transitions (l ++ [t]) ↔
  tokens_ok transitions l ∧ token_shape transitions t ∧ ∀ x, x ∈ l → compatible x t.
Proof.
  assert (∀ x y, compatible x y → compatible y x) as Hsym.
  { intros x y [Hk Hc]. split; [done|]. intros. destruct Hc; [done..|]. by split. }
  split.
  - intros [Hs Hc]. apply Forall_app in Hs as [Hs Ht]. inversion Ht; subst. split_and!; [|done|].
    + split; [done|]. intros i j x y Hx Hy Hij.
      apply (Hc i j); [by apply lookup_app_l_Some|by apply lookup_app_l_Some|done].
    + intros x [i Hi]%list_elem_of_lookup_1. apply (Hc i (length l)).
      * by apply lookup_app_l_Some.
      * by rewrite list_lookup_middle.
      * apply lookup_lt_Some in Hi. lia.
  - intros ([Hs Hc] & Ht & Hx). split; [by apply Forall_app_2; [|constructor]|].
    intros i j x y Hi Hj Hij. apply lookup_app_Some in Hi, Hj.
    destruct Hi as [Hi|[Hi1 Hi2]], Hj as [Hj|[Hj1 Hj2]].
    + by apply (Hc i j).
    + apply list_lookup_singleton_Some in Hj2 as [? <-]. apply Hx. by eapply list_elem_of_lookup_2.
    + apply list_lookup_singleton_Some in Hi2 as [? <-]. apply Hsym, Hx.
      by eapply list_elem_of_lookup_2.
    + apply list_lookup_singleton_Some in Hi2 as [? _], Hj2 as [? _]. lia.
Qed.

Lemma normal_not_bounded x : tok_Kind x = TransitionTokenNormal → ¬ is_bounded x.
Proof. unfold is_bounded. by intros ->. Qed.

Section restore_step.
Variables (route : Route) (l : list TransitionToken) (state : restoring) (t : TransitionToken).
Hypotheses (Hok : tokens_ok (route_Transitions route) l) (Hst : restored l state).
Abbreviation id := (token_id t).
#[local] Set Default Proof Using "All".

Lemma limits_nonzero id m : rs_limits state !! id = Some m → (m ≠ 0)%Z.
Proof.
  intros (x & Hx & Hb & _ & <-)%(r_limits _ _ Hst).
  apply (proj1 (Forall_forall _ _) (to_shape _ _ Hok)) in Hx as [_ _ _ _ _ [[Hn _]|[_ ?]]]; [|lia].
  by apply normal_not_bounded in Hn.
Qed.

(** The new state when the token is accepted. *)
Definition restored_next : restoring :=
  let count := default 0%Z (rs_derived state !! id) in
  {| rs_tokens := <[tok_Key t := t]> (rs_tokens state);
     rs_derived := if (count <? tok_Traversal t)%Z then <[id := tok_Traversal t]> (rs_derived state)
                   else rs_derived state;
     rs_seen := if decide (is_bounded t)
                then <[id := {[tok_Traversal t]} ∪ seen_of (rs_seen state) id]> (rs_seen state)
                else rs_seen state;
     rs_limits := if decide (is_bounded t) then <[id := tok_MaxTraversals t]> (rs_limits state)
                  else rs_limits state |}.

Definition kind_ok : Prop :=
  (tok_Kind t = TransitionTokenNormal ∧ tok_Traversal t = 0 ∧ tok_MaxTraversals t = 0)%Z ∨
  (is_bounded t ∧ 1 ≤ tok_Traversal t ≤ tok_MaxTraversals t)%Z.
Definition ordinal_ok : Prop :=
  is_bounded t → tok_Traversal t ∉ seen_of (rs_seen state) id ∧
    ∀ m, rs_limits state !! id = Some m → m = tok_MaxTraversals t.

Lemma restore_kind_Ok seen limits :
  token_typed t →
  restore_kind state t = Ok (seen, limits) ↔
  kind_ok ∧ ordinal_ok ∧ seen = rs_seen restored_next ∧ limits = rs_limits restored_next.
Proof.
  intros (Htrav & Hmax & _). unfold restore_kind, kind_ok, ordinal_ok, restored_next, is_bounded.
  fold id. simpl. destruct (decide (tok_Kind t = TransitionTokenNormal)) as [Hn|Hn].
  { rewrite Hn. rewrite (decide_False (P := TransitionTokenNormal = TransitionTokenBounded)) by done.
    destruct (decide (tok_Traversal t ≠ 0 ∨ tok_MaxTraversals t ≠ 0)%Z) as [H1|H1].
    - split; [done|]. intros ([|[? _]] & _); [lia|done].
    - split; [|by intros (_ & _ & -> & ->)].
      intros [= <- <-]. split_and!; [left; split_and!; [done|lia|lia]|done|done|done]. }
  destruct (decide (tok_Kind t = TransitionTokenBounded)) as [Hb|Hb]; [|naive_solver].
  case_decide as H1. { split; [done|]. intros ([[? _]|?] & _); [done|lia]. }
  case_decide as H2. { naive_solver. }
  assert (default 0%Z (rs_limits state !! id) ≠ 0%Z ∧
      default 0%Z (rs_limits state !! id) ≠ tok_MaxTraversals t ↔
    ¬ ∀ m, rs_limits state !! id = Some m → m = tok_MaxTraversals t) as Hlim.
  { destruct (rs_limits state !! id) as [m|] eqn:Hm; simpl.
    - apply limits_nonzero in Hm. split; [naive_solver|]. intros Hall. split; [done|].
      intros ->. apply Hall. by intros ? [= ->].
    - split; [by intros []|]. intros Hall. by destruct Hall. }
  case_decide as H3.
  - apply Hlim in H3. naive_solver.
  - split.
    + intros [= <- <-]. split_and!; [right; split; [done|lia]| |done|done]. intros _. split; [done|].
      intros m Hm. apply dec_stable. intros Hne. apply H3, Hlim. intros Hall. by apply Hne, Hall.
    + by intros (_ & _ & -> & ->).
Qed.

Lemma compatible_state :
  (∀ x, x ∈ l → compatible x t) ↔ rs_tokens state !! tok_Key t = None ∧ ordinal_ok.
Proof.
  unfold ordinal_ok. split.
  - intros Hall. split.
    + destruct (rs_tokens state !! tok_Key t) as [x|] eqn:Hx; [|done].
      apply (r_tokens _ _ Hst) in Hx as [Hx Hk]. by destruct (Hall x Hx).
    + intros Hb. split.
      * intros (x & Hx & Hbx & Hid & Ht)%(r_seen _ _ Hst). destruct (Hall x Hx) as [_ Hc].
        by destruct (Hc Hbx Hb Hid).
      * intros m (x & Hx & Hbx & Hid & <-)%(r_limits _ _ Hst). destruct (Hall x Hx) as [_ Hc].
        by destruct (Hc Hbx Hb Hid).
  - intros [Hnone Hord] x Hx. split.
    + intros Hk. assert (rs_tokens state !! tok_Key t = Some x); [|congruence].
      by apply (r_tokens _ _ Hst).
    + intros Hbx Hb Hid. destruct (Hord Hb) as [Hseen Hlim]. split.
      * apply Hlim, (r_limits _ _ Hst). by exists x.
      * intros Heq. apply Hseen, (r_seen _ _ Hst). by exists x.
Qed.

Lemma restore_token_Ok state' :
  token_typed t →
  restore_token route state t = Ok state' ↔
  tokens_ok (route_Transitions route) (l ++ [t]) ∧ state' = restored_next.
Proof.
  intros Htyped. rewrite tokens_ok_snoc, compatible_state.
  assert (token_shape (route_Transitions route) t ↔
    (tk_SourceVisitID (tok_Key t) ≠ "" ∧ id ≠ "" ∧ tok_Source t ≠ "" ∧ tok_Target t ≠ "") ∧
    (∃ rt, findRouteTransition (route_Transitions route) id = Some rt ∧
      rt_From rt = tok_Source t ∧ rt_To rt = tok_Target t) ∧ kind_ok) as ->.
  { split; [by intros []|]. intros ((? & ? & ? & ?) & ? & ?). by split. }
  unfold restore_token. fold id. case_decide as H1; [naive_solver|].
  destruct (findRouteTransition _ _) as [rt|]; [|naive_solver].
  destruct (bool_decide _) eqn:H2.
  { apply bool_decide_eq_true in H2. naive_solver. }
  apply bool_decide_eq_false in H2. rewrite result_bind_Ok. split.
  - intros ([seen limits] & Hk & Hd). apply restore_kind_Ok in Hk as (Hko & Hord & -> & ->); [|done].
    case_decide as Hnone; [done|]. injection Hd as <-. apply eq_None_not_Some in Hnone.
    split; [|done]. split_and!; try done; try naive_solver.
    exists rt. split; [done|]. destruct (decide (rt_From rt = tok_Source t)),
      (decide (rt_To rt = tok_Target t)); naive_solver.
  - intros ((_ & (_ & _ & Hko) & Hnone & Hord) & ->).
    exists (rs_seen restored_next, rs_limits restored_next). split; [by apply restore_kind_Ok|].
    rewrite decide_False; [done|]. by rewrite Hnone; intros [].
Qed.

Lemma restored_snoc :
  tokens_ok (route_Transitions route) (l ++ [t]) → restored (l ++ [t]) restored_next.
Proof.
  intros Hall. apply tokens_ok_snoc in Hall as (_ & Hshape & Hcomp). pose proof Hcomp as Hcomp'.
  apply compatible_state in Hcomp' as [Hnone Hord].
  assert (∀ (P : TransitionToken → Prop), (∃ x, x ∈ l ++ [t] ∧ P x) ↔ (∃ x, x ∈ l ∧ P x) ∨ P t)
    as Hex.
  { intros P. setoid_rewrite elem_of_app. setoid_rewrite list_elem_of_singleton. naive_solver. }
  split; unfold restored_next; simpl.
  - intros k x. rewrite lookup_insert_Some, (r_tokens _ _ Hst), elem_of_app, list_elem_of_singleton.
    split; [naive_solver|]. intros [[Hx| ->] Hk]; [|naive_solver]. right. split; [|done].
    intros Heq. destruct (Hcomp x Hx). congruence.
  - intros id' n. rewrite Hex, <-(r_seen _ _ Hst). unfold seen_of. case_decide as Hb; [|naive_solver].
    destruct (decide (id' = id)) as [->|Hne].
    + rewrite lookup_insert_eq. simpl. set_solver.
    + rewrite lookup_insert_ne by done. naive_solver.
  - intros id' m. rewrite Hex, <-(r_limits _ _ Hst). case_decide as Hb; [|naive_solver].
    destruct (decide (id' = id)) as [->|Hne].
    + rewrite lookup_insert_eq. destruct (Hord Hb) as [_ Hl]. naive_solver.
    + rewrite lookup_insert_ne by done. naive_solver.
  - intros id' n. rewrite Hex. destruct (Z.ltb_spec (default 0 (rs_derived state !! id)) (tok_Traversal t))%Z
      as [Hlt|Hge].
    + intros [[<- <-]|[Hne Hd]]%lookup_insert_Some; [right|left; by apply (r_derived _ _ Hst)].
      split_and!; try done. destruct Hshape as [_ _ _ _ _ [(_ & Hz & _)|[? _]]]; [|done].
      rewrite Hz in Hlt. destruct (rs_derived state !! id) as [d|] eqn:Hd; simpl in Hlt; [|lia].
      apply (r_derived _ _ Hst) in Hd as (x & Hx & Hbx & _ & <-).
      apply (proj1 (Forall_forall _ _) (to_shape _ _ Hok)) in Hx as [_ _ _ _ _ [[Hn _]|[_ ?]]]; [|lia].
      by apply normal_not_bounded in Hn.
    + intros Hd. left. by apply (r_derived _ _ Hst).
  - intros x [Hx| ->%list_elem_of_singleton]%elem_of_app.
    + apply (r_bound _ _ Hst) in Hx. destruct (Z.ltb_spec (default 0 (rs_derived state !! id)) (tok_Traversal t))%Z.
      * destruct (decide (token_id x = id)) as [Heq|Hne].
        -- rewrite Heq, lookup_insert_eq in *. simpl. lia.
        -- by rewrite lookup_insert_ne.
      * done.
    + destruct (Z.ltb_spec (default 0 (rs_derived state !! id)) (tok_Traversal t))%Z; [|done].
      rewrite lookup_insert_eq. simpl. lia.
Qed.
End restore_step.

(** The whole token loop. *)
Definition restore_start : restoring :=
  {| rs_tokens := ∅; rs_derived := ∅; rs_seen := ∅; rs_limits := ∅ |}.

Lemma restored_start : restored [] restore_start.
Proof.
  split; simpl.
  - intros k t. rewrite lookup_empty, elem_of_nil. naive_solver.
  - intros id n. unfold seen_of. rewrite lookup_empty. simpl. setoid_rewrite elem_of_nil. set_solver.
  - intros id m. rewrite lookup_empty. setoid_rewrite elem_of_nil. naive_solver.
  - intros id n. by rewrite lookup_empty.
  - by intros t ?%elem_of_nil.
Qed.

Lemma tokens_ok_nil transitions : tokens_ok transitions [].
Proof. split; [constructor|]. intros i j x y Hx. by rewrite lookup_nil in Hx. Qed.

Lemma tokens_ok_app_l transitions l1 l2 : tokens_ok transitions (l1 ++ l2) → tokens_ok transitions l1.
Proof.
  intros [Hs Hc]. apply Forall_app in Hs as [Hs _]. split; [done|].
  intros i j x y Hx Hy. apply Hc; by apply lookup_app_l_Some.
Qed.

Lemma restore_tokens_aux route l1 st l2 :
  tokens_ok (route_Transitions route) l1 → restored l1 st → Forall token_typed l2 →
  (tokens_ok (route_Transitions route) (l1 ++ l2) →
     ∃ st', foldM (restore_token route) st l2 = Ok st') ∧
  (∀ st', foldM (restore_token route) st l2 = Ok st' →
     tokens_ok (route_Transitions route) (l1 ++ l2) ∧ restored (l1 ++ l2) st').
Proof.
  revert l1 st. induction l2 as [|t l2 IH]; intros l1 st Hok Hst Htyped.
  { rewrite (right_id_L [] (++)). split; [by eexists|]. by intros st' [= <-]. }
  inversion Htyped as [|? ? Ht Hl]; subst. rewrite (cons_middle t l1 l2), (assoc_L (++)). split.
  - intros Hall. pose proof (tokens_ok_app_l _ _ _ Hall) as Hok1.
    cbn [foldM]. rewrite (proj2 (restore_token_Ok route l1 st t Hok Hst _ Ht) (conj Hok1 eq_refl)).
    simpl. apply (IH (l1 ++ [t])); [done|by eapply restored_snoc|done|done].
  - intros st' (st1 & H1 & H2)%result_bind_Ok.
    apply (restore_token_Ok route l1) in H1 as [Hok1 ->]; [|done..].
    apply (IH (l1 ++ [t]) (restored_next st t)); [done|by eapply restored_snoc|done|done].
Qed.

Lemma restore_tokens route l :
  Forall token_typed l →
  (tokens_ok (route_Transitions route) l →
     ∃ st, foldM (restore_token route) restore_start l = Ok st) ∧
  (∀ st, foldM (restore_token route) restore_start l = Ok st →
     tokens_ok (route_Transitions route) l ∧ restored l st).
Proof. apply (restore_tokens_aux route [] restore_start l (tokens_ok_nil _) restored_start). Qed.

(** ** The ordinal loop of [RestoreFrame] *)

(** The loop ends within one round of the counter, because 0 is never an ordinal; a count
    of 2^16 - 1 is never complete. *)
Lemma check_ordinals_spec seen count i fuel :
  (0 ∉ seen → 0 ≤ count < 2 ^ 16 → 1 ≤ i ≤ count + 1 → i < 2 ^ 16 →
   count + 2 ≤ Z.of_nat fuel + i →
   ∃ b, check_ordinals fuel seen count i = Some b ∧
        (b = true ↔ count < 2 ^ 16 - 1 ∧ ∀ n, i ≤ n ≤ count → n ∈ seen))%Z.
Proof.
  intros Hz Hcount. revert i. induction fuel as [|fuel IH]; intros i Hi Hi16 Hfuel; [lia|].
  cbn [check_ordinals]. destruct (Z.leb_spec i count) as [Hle|Hgt].
  - case_decide as Hin; last first.
    { exists false. split; [done|]. split; [done|]. intros [_ Hall]. by destruct Hin; apply Hall. }
    destruct (decide (i + 1 < 2 ^ 16)%Z) as [Hlt|Hge].
    + rewrite wrap_small by lia.
      destruct (IH (i + 1)%Z) as (b & -> & Hb); [lia..|]. exists b. split; [done|].
      rewrite Hb. split; intros [? Hall]; (split; [done|]); intros n Hn; [|apply Hall; lia].
      destruct (decide (n = i)) as [->|]; [done|apply Hall; lia].
    + assert (i = 65535 ∧ count = 65535)%Z as [-> ->] by lia.
      replace (uint16 (65535 + 1)) with 0%Z by done.
      destruct fuel as [|fuel]; [lia|]. cbn [check_ordinals].
      rewrite (decide_False (P := 0%Z ∈ seen)) by done.
      exists false. split; [done|]. split; [done|]. intros [? _]. lia.
  - exists true. split; [done|]. split; [|done]. intros _. split; [lia|]. intros n Hn. lia.
Qed.

Lemma ordinals_complete_spec seen count :
  (0 ∉ seen → 0 ≤ count < 2 ^ 16 →
   ordinals_complete seen count = true ↔ count < 2 ^ 16 - 1 ∧ ∀ n, 1 ≤ n ≤ count → n ∈ seen)%Z.
Proof.
  intros Hz Hc. unfold ordinals_complete.
  destruct (check_ordinals_spec seen count 1 ordinal_fuel) as (b & -> & Hb);
    [done|done|lia|lia| |exact Hb].
  unfold ordinal_fuel. rewrite Z2Nat.id by lia. lia.
Qed.

Section restore_counts.
Context `{!GoRange}.
Variables (route : Route) (l : list TransitionToken) (st : restoring).
Hypotheses (Hok : tokens_ok (route_Transitions route) l) (Hst : restored l st)
  (Htyped : Forall token_typed l).
#[local] Set Default Proof Using "All".

Lemma bounded_range t :
  t ∈ l → is_bounded t → (1 ≤ tok_Traversal t < 2 ^ 16)%Z ∧ (tok_Traversal t ≤ tok_MaxTraversals t)%Z.
Proof.
  intros Ht Hb. apply (proj1 (Forall_forall _ _) Htyped) in Ht as Hty. destruct Hty as (? & _).
  apply (proj1 (Forall_forall _ _) (to_shape _ _ Hok)) in Ht as [_ _ _ _ _ [[Hn _]|[_ ?]]]; [|lia].
  by apply normal_not_bounded in Hn.
Qed.

Lemma restored_derived_range id n : rs_derived st !! id = Some n → (1 ≤ n < 2 ^ 16)%Z.
Proof. intros (t & Ht & Hb & _ & <-)%(r_derived _ _ Hst). by apply bounded_range. Qed.

Lemma restored_no_zero id : (0 ∉ seen_of (rs_seen st) id)%Z.
Proof.
  intros (t & Ht & Hb & _ & Hz)%(r_seen _ _ Hst).
  destruct (bounded_range t Ht Hb). lia.
Qed.

Lemma restore_counts site traversals :
  foldM (restore_count (rs_seen st)) ∅ (range_map site (rs_derived st)) = Ok traversals ↔
  traversals = rs_derived st ∧
  ∀ id n, rs_derived st !! id = Some n →
    (n < 2 ^ 16 - 1 ∧ ∀ k, 1 ≤ k ≤ n → k ∈ seen_of (rs_seen st) id)%Z.
Proof.
  rewrite (foldM_map_Ok _ (λ id count,
    if negb (ordinals_complete (seen_of (rs_seen st) id) count)
    then plain "execution frame snapshot has a gap in bounded traversal ordinals"
    else Ok count)); last first.
  { intros m k a. simpl. by destruct (ordinals_complete _ _). }
  assert (∀ id n, rs_derived st !! id = Some n →
    ordinals_complete (seen_of (rs_seen st) id) n = true ↔
    (n < 2 ^ 16 - 1 ∧ ∀ k, 1 ≤ k ≤ n → k ∈ seen_of (rs_seen st) id)%Z) as Hc.
  { intros id n Hn. apply restored_derived_range in Hn. apply ordinals_complete_spec;
      [apply restored_no_zero|lia]. }
  split.
  - intros Hall. split.
    + apply map_eq. intros k. specialize (Hall k). destruct (rs_derived st !! k) as [n|]; [|done].
      destruct Hall as (b & Hb & ->). destruct (ordinals_complete _ _); naive_solver.
    + intros id n Hn. specialize (Hall id). rewrite Hn in Hall. destruct Hall as (b & Hb & _).
      apply Hc; [done|]. by destruct (ordinals_complete _ _).
  - intros [-> Hall] k. destruct (rs_derived st !! k) as [n|] eqn:Hn; [|done].
    exists n. split; [|done]. by rewrite (proj2 (Hc k n Hn) (Hall k n Hn)).
Qed.
End restore_counts.

(** The accepted snapshots. *)
Definition snapshot_typed (snapshot : FrameSnapshot) : Prop := Forall token_typed (fs_Tokens snapshot).

Lemma RestoreFrame_inv `{!GoRange} snapshot f :
  snapshot_typed snapshot → RestoreFrame snapshot = Ok f →
  ∃ st,
    validateFrameOrigin (fs_Origin snapshot) = Ok tt ∧
    (∀ k v, fs_Inputs snapshot !! k = Some v → Valid v = true) ∧
    fs_ID snapshot ≠ "" ∧ valid_identity (fs_Workflow snapshot) = true ∧
    validateFrozenRoute (fs_Route snapshot) = Ok tt ∧
    validateFrameAncestry (fs_Origin snapshot) (fs_Workflow snapshot) (fs_Ancestry snapshot) = Ok tt ∧
    tokens_ok (route_Transitions (fs_Route snapshot)) (fs_Tokens snapshot) ∧
    restored (fs_Tokens snapshot) st ∧
    (∀ id n, rs_derived st !! id = Some n →
      (n < 2 ^ 16 - 1 ∧ ∀ k, 1 ≤ k ≤ n → k ∈ seen_of (rs_seen st) id)%Z) ∧
    f = {| fr_id := fs_ID snapshot; fr_workflow := fs_Workflow snapshot;
           fr_origin := fs_Origin snapshot; fr_route := cloneRoute (fs_Route snapshot);
           fr_inputs := fs_Inputs snapshot; fr_tokens := rs_tokens st;
           fr_traversals := rs_derived st; fr_ancestry := fs_Ancestry snapshot |}.
Proof.
  intros Htyped. unfold RestoreFrame. intros ([] & Ho & Hf)%result_bind_Ok.
  apply result_bind_Ok in Hf as (ins & Hins & Hf). apply cloneRawMessages_Ok in Hins as [-> Hins].
  destruct (bool_decide (fs_ID snapshot = "")) eqn:Hid; [done|].
  destruct (valid_identity (fs_Workflow snapshot)) eqn:Hw; [|done]. simpl in Hf.
  apply bool_decide_eq_false in Hid.
  apply result_bind_Ok in Hf as ([] & Hr & Hf). apply result_bind_Ok in Hf as ([] & Ha & Hf).
  apply result_bind_Ok in Hf as (st & Hst & Hf). apply result_bind_Ok in Hf as (trav & Htrav & Hf).
  injection Hf as <-.
  apply (proj2 (restore_tokens (cloneRoute (fs_Route snapshot)) _ Htyped)) in Hst as [Hok Hst].
  pose proof (proj1 (restore_counts _ _ _ Hok Hst Htyped _ _) Htrav) as [-> Hc].
  exists st. by split_and!.
Qed.

Lemma compatible_irrefl t : ¬ compatible t t.
Proof. by intros [? _]. Qed.

Lemma tokens_ok_pairwise transitions l x y :
  tokens_ok transitions l → x ∈ l → y ∈ l → x ≠ y → compatible x y.
Proof.
  intros Hok [i Hi]%list_elem_of_lookup_1 [j Hj]%list_elem_of_lookup_1 Hne.
  apply (to_compatible _ _ Hok i j); [done|done|]. congruence.
Qed.

Lemma RestoreFrame_wf `{!GoRange} snapshot f :
  snapshot_typed snapshot → RestoreFrame snapshot = Ok f →
  frame_wf f ∧ (∀ t, token_in f t ↔ t ∈ fs_Tokens snapshot).
Proof.
  intros Htyped Hf. apply RestoreFrame_inv in Hf as (st & ? & ? & ? & ? & ? & ? & Hok & Hst & Hc & ->);
    [|done].
  set (f := {| fr_id := _ |}).
  assert (∀ t, token_in f t ↔ t ∈ fs_Tokens snapshot) as Hin.
  { intros t. unfold token_in. simpl. rewrite (r_tokens _ _ Hst). naive_solver. }
  split; [|done]. split; try done.
  - intros k t. simpl. by intros [_ ?]%(r_tokens _ _ Hst).
  - intros t Ht%Hin. by apply (proj1 (Forall_forall _ _) (to_shape _ _ Hok)).
  - intros t Ht%Hin. by apply (proj1 (Forall_forall _ _) Htyped).
  - intros x y Hx%Hin Hy%Hin. by eapply tokens_ok_pairwise.
  - intros id n. setoid_rewrite Hin. rewrite <-(r_seen _ _ Hst). unfold traversals_of. simpl. split.
    + intros Hn. destruct (rs_derived st !! id) as [c|] eqn:Hd; simpl in Hn; [|lia].
      by apply (Hc id c Hd).
    + intros (t & Ht & Hb & <- & <-)%(r_seen _ _ Hst).
      pose proof (r_bound _ _ Hst t Ht). pose proof (bounded_range _ _ _ Hok Hst Htyped t Ht Hb). lia.
  - intros id n Hd. apply (restored_derived_range _ _ _ Hok Hst Htyped) in Hd. lia.
Qed.

(** ** Snapshots *)
Section snapshot.
Context `{!GoRange}.

Lemma Snapshot_tokens f : fs_Tokens (Snapshot f) ≡ₚ (map_to_list (fr_tokens f)).*2.
Proof. simpl. rewrite stable_sort_perm. unfold range_map. by rewrite range_perm. Qed.

Lemma elem_of_Snapshot f t : frame_wf f → t ∈ fs_Tokens (Snapshot f) ↔ token_in f t.
Proof. intros ?. by rewrite Snapshot_tokens, elem_of_tokens. Qed.

Lemma Snapshot_typed f : frame_wf f → snapshot_typed (Snapshot f).
Proof.
  intros Hwf. apply Forall_forall. intros t Ht%elem_of_Snapshot; [|done].
  by apply (wf_typed f Hwf).
Qed.

Lemma Snapshot_tokens_ok f :
  frame_wf f → tokens_ok (route_Transitions (fr_route f)) (fs_Tokens (Snapshot f)).
Proof.
  intros Hwf. split.
  - apply Forall_forall. intros t Ht%elem_of_Snapshot; [|done]. by apply (wf_shape f Hwf).
  - assert (NoDup (fs_Tokens (Snapshot f))) as Hnd.
    { rewrite Snapshot_tokens. by apply tokens_NoDup. }
    intros i j x y Hx Hy Hij. apply (wf_compatible f Hwf).
    + apply elem_of_Snapshot; [done|]. by eapply list_elem_of_lookup_2.
    + apply elem_of_Snapshot; [done|]. by eapply list_elem_of_lookup_2.
    + intros ->. by apply Hij, (NoDup_lookup (fs_Tokens (Snapshot f)) i j y).
Qed.

(** The loop recomputes the maps of the frame. *)
Lemma restored_Snapshot f st :
  frame_wf f → restored (fs_Tokens (Snapshot f)) st →
  rs_tokens st = fr_tokens f ∧ rs_derived st = fr_traversals f.
Proof.
  intros Hwf Hst. pose proof (λ t, elem_of_Snapshot f t Hwf) as Hin. split; apply map_eq.
  - intros k. apply option_eq. intros t. rewrite (r_tokens _ _ Hst), Hin. unfold token_in. split.
    + by intros [? <-].
    + intros Ht. pose proof (wf_keys f Hwf _ _ Ht) as Hk. by rewrite Hk.
  - intros id.
    assert (∀ n, rs_derived st !! id = Some n → (1 ≤ n ≤ traversals_of f id)%Z) as Hle.
    { intros n (t & Ht & Hb & Hid & Hn)%(r_derived _ _ Hst). apply (wf_ordinals f Hwf).
      exists t. by rewrite <-Hin. }
    assert (∀ n, fr_traversals f !! id = Some n → (1 ≤ n ≤ default 0 (rs_derived st !! id))%Z) as Hge.
    { intros n Hn. pose proof (wf_traversals f Hwf id n Hn).
      destruct (proj1 (wf_ordinals f Hwf id n)) as (t & Ht & Hb & Hid & Htn).
      { unfold traversals_of. rewrite Hn. simpl. lia. }
      apply Hin, (r_bound _ _ Hst) in Ht. rewrite Hid, Htn in Ht. lia. }
    unfold traversals_of in Hle.
    destruct (rs_derived st !! id) as [n|], (fr_traversals f !! id) as [m|]; simpl in *;
      [specialize (Hle _ eq_refl); specialize (Hge _ eq_refl); f_equal; lia
      |specialize (Hle _ eq_refl); lia|specialize (Hge _ eq_refl); lia|done].
Qed.

Lemma RestoreFrame_Snapshot f :
  frame_wf f →
  RestoreFrame (Snapshot f) =
  if decide (map_Forall (λ _ n, (n < 2 ^ 16 - 1)%Z) (fr_traversals f)) then Ok f
  else plain "execution frame snapshot has a gap in bounded traversal ordinals".
Proof.
  intros Hwf. pose proof Hwf as [Hid Hident Horigin Hanc Hroute Hassess Hins _ _ _ _ _ _].
  pose proof (Snapshot_tokens_ok f Hwf) as Hok. pose proof (Snapshot_typed f Hwf) as Htyped.
  pose proof (restore_tokens (fr_route f) (fs_Tokens (Snapshot f)) Htyped) as [Hex Hinv].
  destruct (Hex Hok) as [st Hrun]. destruct (Hinv st Hrun) as [_ Hst].
  pose proof (restored_Snapshot f st Hwf Hst) as [Htok Hder].
  pose proof (λ tr, restore_counts (fr_route f) _ st Hok Hst Htyped "RestoreFrame" tr) as Hcounts.
  unfold RestoreFrame. remember (fs_Tokens (Snapshot f)) as l eqn:Hl.
  cbn [Snapshot fs_Origin fs_Inputs fs_ID fs_Workflow fs_Ancestry fs_Route].
  rewrite cloneRoute_idemp, (cloneRoute_id _ Hassess), (mustCloneRawMessages_valid _ Hins).
  rewrite Horigin, (proj2 (cloneRawMessages_Ok (fr_inputs f) _) (conj eq_refl Hins)).
  cbn [result_bind]. rewrite (bool_decide_eq_false_2 _ Hid), Hident. cbn [orb negb].
  rewrite Hroute, Hanc. cbn [result_bind]. fold restore_start. rewrite Hrun. cbn [result_bind].
  case_decide as Hall.
  - rewrite (proj2 (Hcounts (fr_traversals f))).
    + cbn [result_bind]. rewrite Htok. by destruct f.
    + rewrite Hder. split; [done|]. intros id n Hn. split; [by apply (Hall id n)|]. intros k Hk.
      apply (r_seen _ _ Hst). subst l. setoid_rewrite (elem_of_Snapshot f _ Hwf).
      apply (wf_ordinals f Hwf). unfold traversals_of. by rewrite Hn.
  - destruct (foldM (restore_count _) _ _) as [tr|e] eqn:Hloop.
    + destruct (proj1 (Hcounts tr) eq_refl) as [_ Hlim]. destruct Hall. intros id n Hn. rewrite <-Hder in Hn.
      by destruct (Hlim id n Hn).
    + cbn [result_bind]. apply (foldM_map_Err _ (λ id count,
        if negb (ordinals_complete (seen_of (rs_seen st) id) count)
        then plain "execution frame snapshot has a gap in bounded traversal ordinals"
        else Ok count)) in Hloop as (k & a & _ & He).
      * destruct (negb _) in He; [|done]. injection He as <-. done.
      * intros m k a. simpl. by destruct (ordinals_complete _ _).
Qed.
End snapshot.

(** * Properties *)
Lemma token_less_asym x y : token_less x y = true → token_less y x = false.
Proof.
  unfold token_less. apply lexicographic_asym, lexicographic_asym.
  intros Hlt%Z.ltb_lt. apply Z.ltb_ge. lia.
Qed.
Lemma token_less_trans x y z :
  token_less y x = false → token_less z y = false → token_less z x = false.
Proof.
  unfold token_less. apply lexicographic_trans, lexicographic_trans.
  intros H1%Z.ltb_ge H2%Z.ltb_ge. apply Z.ltb_ge. lia.
Qed.
Lemma lexicographic_antisym s t r1 r2 :
  lexicographic s t r1 = false → lexicographic t s r2 = false → s = t ∧ r1 = false ∧ r2 = false.
Proof.
  unfold lexicographic. intros H1 H2. repeat case_decide; subst; try done.
  apply ltb_le in H1, H2. by destruct (anti_symm String.le s t).
Qed.
Lemma token_less_antisym x y :
  token_less x y = false → token_less y x = false → tok_Key x = tok_Key y.
Proof.
  unfold token_less. intros H1 H2.
  destruct (lexicographic_antisym _ _ _ _ H1 H2) as (Hv & H1' & H2').
  destruct (lexicographic_antisym _ _ _ _ H1' H2') as (Ht & H1''%Z.ltb_ge & H2''%Z.ltb_ge).
  destruct (tok_Key x), (tok_Key y); simpl in *. f_equal; [done|done|lia].
Qed.

Lemma frame_fields_kept f visit node epoch tr :
  let f' := (fire_transition f visit node epoch tr).1 in
  fr_id f' = fr_id f ∧ fr_workflow f' = fr_workflow f ∧ fr_origin f' = fr_origin f ∧
  fr_route f' = fr_route f ∧ fr_inputs f' = fr_inputs f ∧ fr_ancestry f' = fr_ancestry f ∧
  fr_tokens f ⊆ fr_tokens f'.
Proof.
  cbv zeta. destruct (fire_transition_outcome f visit node epoch tr) as [| _ _ Hnew _ |];
    split_and!; try done.
  simpl. apply insert_subseteq. by rewrite fired_key.
Qed.

Lemma fires_kept T f f' :
  fires T f f' → fr_route f' = fr_route f ∧ fr_tokens f ⊆ fr_tokens f'.
Proof.
  intros [f0 visit node epoch tr f1 outcome _ _ Hfire%FireTransition_Some].
  pose proof (frame_fields_kept f0 visit node epoch tr) as Hk. cbv zeta in Hk.
  rewrite Hfire in Hk. naive_solver.
Qed.

Lemma run_kept T f f' :
  rtc (fires T) f f' → fr_route f' = fr_route f ∧ fr_tokens f ⊆ fr_tokens f'.
Proof.
  induction 1 as [|f f1 f2 H1 _ [IHr IHt]]; [done|]. apply fires_kept in H1 as [Hr Ht].
  split; [congruence|by etrans].
Qed.

(** ** An example: the loop of the example workflow *)
Definition ex_authored (max : Z) : gmap Identifier Transition :=
  list_to_map [("t_plan", ex_to "t_plan" "build"); ("t_build", ex_to "t_build" "review");
               ("t_again", ex_loop "t_again" "build" max)].
Definition ex_digest : string :=
  "0123456789abcdef0123456789abcdef0123456789abcdef0123456789abcdef".
Definition ex_definition : LoadedDefinition := {|
  ld_Document := ex_document; ld_CanonicalJSON := "{}"; ld_Digest := ex_digest;
  ld_SourceScope := "builtin"; ld_SourceRef := "";
|}.
Definition ex_frame : Frame := {|
  fr_id := "frame"; fr_workflow := workflowIdentity ex_definition;
  fr_origin := RootFrameOrigin "run"; fr_route := ex_route; fr_inputs := {[ "goal" := "1" ]};
  fr_tokens := ∅; fr_traversals := ∅; fr_ancestry := [];
|}.

Lemma ex_frame_new :
  @NewRootFrame range_canonical "frame" "run" ex_definition ex_route {[ "goal" := "1" ]} = Ok ex_frame.
Proof. vm_compute. reflexivity. Qed.

Lemma ex_authored_ok max : (0 ≤ max < 2 ^ 16)%Z → authored (ex_authored max).
Proof.
  intros Hmax id tr. unfold ex_authored. simpl.
  rewrite !lookup_insert_Some, lookup_empty. naive_solver.
Qed.

Lemma ex_frame_consistent max : consistent (ex_authored max) ex_frame.
Proof. eapply newFrame_consistent. exact ex_frame_new. Qed.

Definition ex_fire (f : Frame) (epoch : Z) : Frame :=
  (fire_transition f "visit" "build" epoch (ex_loop "t_again" "build" 2)).1.
Definition ex_fired : Frame := ex_fire (ex_fire (ex_fire ex_frame 1) 2) 3.

Lemma fires_step T f visit node epoch tr :
  T !! ID tr = Some tr → (0 ≤ epoch < 2 ^ 64)%Z →
  fires T f (fire_transition f visit node epoch tr).1.
Proof.
  intros HT He. apply (fires_call T f visit node epoch tr _
    (fire_transition f visit node epoch tr).2); [done|done|].
  apply FireTransition_Some. by destruct (fire_transition _ _ _ _ _).
Qed.

Lemma ex_fired_run : rtc (fires (ex_authored 2)) ex_frame ex_fired.
Proof.
  unfold ex_fired, ex_fire. do 3 (eapply rtc_r; [|apply fires_step; [by vm_compute|lia]]).
  apply rtc_refl.
Qed.

(** ** Claims *)

(** (C1) Loop budgets hold in every run: however [FireTransition] is called with the authored
    transitions, including replays and refused calls, the bounded tokens of a transition
    carry the ordinals 1 .. count, each exactly once, where count is its
    [TraversalCount], and the count never exceeds the authored limit. *)
Theorem frame_budget T f0 f
    (HT : authored T) (H0 : consistent T f0) (Hrun : rtc (fires T) f0 f) id c max
    (Hid : T !! id = Some (BoundedTransition c max)) :
  tok_Traversal <$> tokens_of f id ≡ₚ seqZ 1 (TraversalCount f id) ∧
  (0 ≤ TraversalCount f id ≤ max)%Z.
Proof.
  destruct (run_consistent T f0 f HT H0 Hrun) as [Hwf Hlim].
  split; [by apply tokens_of_ordinals|]. split; [by apply traversals_bound|].
  unfold TraversalCount. destruct (Z.le_gt_cases (traversals_of f id) 0) as [Hle|Hgt].
  { destruct (HT _ _ Hid) as [_ ?]. lia. }
  destruct (proj1 (wf_ordinals f Hwf id (traversals_of f id))) as (t & Ht & Hb & Htid & Hn); [lia|].
  destruct (Hlim t Ht Hb) as (c' & Hc). rewrite Htid, Hid in Hc. injection Hc as _ ->.
  destruct (ts_kind _ _ (wf_shape f Hwf t Ht)) as [[Hk _]|[_ ?]]; [|lia].
  by apply normal_not_bounded in Hk.
Qed.

Lemma frame_budget_witness :
  TraversalCount ex_fired "t_again" = 2%Z ∧
  tok_Traversal <$> tokens_of ex_fired "t_again" ≡ₚ seqZ 1 (TraversalCount ex_fired "t_again").
Proof.
  split; [vm_compute; reflexivity|].
  apply (frame_budget (ex_authored 2) ex_frame ex_fired) with
    {| tf_TransitionID := "t_again"; tf_To := "build"; tf_When := NilPredicate;
       tf_EnabledByDefault := None |} 2%Z.
  - apply ex_authored_ok. lia.
  - apply ex_frame_consistent.
  - apply ex_fired_run.
  - vm_compute. reflexivity.
Defined.

(** Firing is idempotent: once a call has returned a token, the same call returns that
    token as a replay and leaves the frame as it is, whatever was fired in between. *)
Theorem fire_replay_stable T f0 visit node epoch tr f1 token replayed f2 :
  FireTransition (Some f0) visit node epoch (Some tr) = (Some f1, Ok (token, replayed)) →
  (∃ c, tr = NormalTransition c) ∨ consistent T f0 ∧ authored T ∧ T !! ID tr = Some tr →
  rtc (fires T) f1 f2 →
  FireTransition (Some f2) visit node epoch (Some tr) = (Some f2, Ok (token, true)).
Proof.
  intros Hfire%FireTransition_Some Htr [Hroute Htok]%run_kept. apply FireTransition_Some.
  pose proof (fire_transition_outcome f0 visit node epoch tr) as Ho. rewrite Hfire in Ho.
  assert (in_route f0 node tr ∧ blank visit = false ∧ fr_route f1 = fr_route f0 ∧
    fr_tokens f1 !! fire_key visit epoch tr = Some token ∧ tok_Source token = node ∧
    tok_Target token = Target tr ∧ tokenMatchesTransition token tr = true) as
    (Hin & Hv & Hr1 & Htok1 & Hs & Ht & Hm).
  { inversion Ho as [? ? ? Hk| Hin Hv Hnew Hb |]; subst; [by split_and!|].
    split_and!; try done.
    - simpl. by rewrite fired_key, lookup_insert_eq.
    - by destruct tr.
    - by destruct tr.
    - destruct tr as [c|c m]; [by apply bool_decide_eq_true|].
      destruct Htr as [[? [=]]|(Hc & HT & HTr)]. simpl. apply bool_decide_eq_true.
      pose proof (consistent_agrees T _ _ HT Hc HTr) as [? _].
      pose proof (traversals_bound f0 (ID (BoundedTransition c m)) (cons_wf _ _ Hc)).
      simpl in Hb. rewrite wrap_small by lia. split_and!; [done|lia|done]. }
  pose proof (fire_transition_outcome f2 visit node epoch tr) as Ho2.
  pose proof (lookup_weaken _ _ _ _ Htok1 Htok) as Htok2.
  unfold in_route in Hin. rewrite <-Hr1, <-Hroute in Hin. fold (in_route f2 node tr) in Hin.
  destruct Ho2 as [token' ? ? Hk|? ? Hk|e He]; [congruence|congruence|].
  exfalso. destruct He as [[_ ?]|[[_ ?]|[(_ & t & Hk & Hne)|(_ & _ & _ & Hk & _)]]]; [congruence|done| |congruence].
  rewrite Htok2 in Hk. injection Hk as <-.
  destruct Hne as [?|[?|?]]; congruence.
Qed.

Lemma fire_replay_stable_witness :
  ∃ token, FireTransition (Some ex_fired) "visit" "build" 1 (Some (ex_loop "t_again" "build" 2)) =
    (Some ex_fired, Ok (token, true)).
Proof.
  eexists. eapply (fire_replay_stable (ex_authored 2) ex_frame "visit" "build" 1
    (ex_loop "t_again" "build" 2)).
  - vm_compute. reflexivity.
  - right. split; [apply ex_frame_consistent|]. split; [apply ex_authored_ok; lia|].
    vm_compute. reflexivity.
  - unfold ex_fired. eapply rtc_l; [apply (fires_step _ _ "visit" "build" 2 (ex_loop "t_again" "build" 2));
      [vm_compute; reflexivity|lia]|].
    eapply rtc_l; [apply (fires_step _ _ "visit" "build" 3 (ex_loop "t_again" "build" 2));
      [vm_compute; reflexivity|lia]|].
    vm_compute. apply rtc_refl.
Defined.

(** Every run keeps the frame well formed, keeps its committed tokens, and leaves its
    identity, origin, route, inputs and ancestry untouched. *)
Theorem frame_run_invariant T f0 f
    (HT : authored T) (H0 : consistent T f0) (Hrun : rtc (fires T) f0 f) :
  frame_wf f ∧ fr_tokens f0 ⊆ fr_tokens f ∧ fr_id f = fr_id f0 ∧
  fr_workflow f = fr_workflow f0 ∧ fr_origin f = fr_origin f0 ∧ fr_route f = fr_route f0 ∧
  fr_inputs f = fr_inputs f0 ∧ fr_ancestry f = fr_ancestry f0.
Proof.
  split; [by apply (run_consistent T f0 f HT H0 Hrun)|]. clear H0.
  induction Hrun as [|f f1 f2 H1 _ IH]; [done|].
  destruct H1 as [f visit node epoch tr f1 outcome _ _ Hfire%FireTransition_Some].
  pose proof (frame_fields_kept f visit node epoch tr) as Hk. cbv zeta in Hk.
  rewrite Hfire in Hk. simpl in Hk. destruct Hk as (? & ? & ? & ? & ? & ? & ?).
  destruct IH as (? & ? & ? & ? & ? & ? & ?). split_and!; try congruence. by etrans.
Qed.

Lemma frame_run_invariant_witness : frame_wf ex_fired ∧ size (fr_tokens ex_fired) = 2.
Proof.
  split; [|vm_compute; reflexivity].
  exact (proj1 (frame_run_invariant (ex_authored 2) ex_frame ex_fired
    (ex_authored_ok 2 ltac:(lia)) (ex_frame_consistent 2) ex_fired_run)).
Defined.

(** The only coded failure of a firing is the loop limit: it is reported exactly when a
    bounded transition of the frame's route, not fired before under this key, has used its
    whole budget; and every refused call leaves the frame unchanged. *)
Theorem fire_loop_limit f visit node epoch tr :
  (∀ e, (FireTransition (Some f) visit node epoch (Some tr)).2 = Err e →
     (FireTransition (Some f) visit node epoch (Some tr)).1 = Some f ∧
     (e = exhausted (ID tr) ∨ ∃ m, e = Plain m)) ∧
  ((FireTransition (Some f) visit node epoch (Some tr)).2 = Err (exhausted (ID tr)) ↔
   blank visit = false ∧ in_route f node tr ∧ fr_tokens f !! fire_key visit epoch tr = None ∧
   ∃ c max, tr = BoundedTransition c max ∧ (max ≤ TraversalCount f (ID tr))%Z).
Proof.
  destruct (FireTransition (Some f) visit node epoch (Some tr)) as [o r] eqn:Hfire.
  assert (∃ f', o = Some f') as [f' ->].
  { simpl in Hfire. destruct (fire_transition _ _ _ _ _). injection Hfire as <- _. eauto. }
  apply FireTransition_Some in Hfire.
  pose proof (fire_transition_outcome f visit node epoch tr) as Ho. rewrite Hfire in Ho.
  assert (within_budget f tr ↔ ¬ ∃ c max, tr = BoundedTransition c max ∧
    (max ≤ TraversalCount f (ID tr))%Z) as Hb.
  { unfold within_budget, TraversalCount. destruct tr as [c|c m]; split.
    - by intros _ (? & ? & ? & _).
    - done.
    - intros Hlt (? & ? & [= <- <-] & ?). lia.
    - intros Hno. apply Z.nle_gt. intros Hle. destruct Hno. by exists c, m. }
  assert (within_budget f tr ∨ ∃ c max, tr = BoundedTransition c max ∧
    (max ≤ TraversalCount f (ID tr))%Z) as Hcases.
  { unfold within_budget, TraversalCount. destruct tr as [c|c m]; [by left|].
    destruct (Z.lt_ge_cases (traversals_of f (ID (BoundedTransition c m))) m); [by left|].
    right. by exists c, m. }
  simpl. inversion Ho as [token Hin Hv Hk|Hin Hv Hk Hbud|e He]; subst; simpl.
  - split; [done|]. split; [done|]. intros (_ & _ & Hk' & _). congruence.
  - split; [done|]. split; [done|]. intros (_ & _ & _ & Hex). by apply Hb in Hbud.
  - split.
    + intros e' [= <-]. split; [done|]. destruct He as [[-> _]|[[-> _]|[[-> _]|[-> _]]]]; eauto.
    + split.
      * intros [= ->]. destruct He as [[[=] _]|[[[=] _]|[[[=] _]|(_ & ? & ? & ? & Hno)]]].
        split_and!; try done. by destruct Hcases.
      * intros (Hv & Hin & Hk & Hex). destruct He as [[_ ?]|[[_ ?]|[(_ & t & Ht & _)|[-> _]]]];
          [congruence|done|congruence|done].
Qed.

(** (C2) [RestoreFrame] inverts [Snapshot] on every well-formed frame whose traversal counts
    all stay below 2^16 - 1; when one count has reached 2^16 - 1 the ordinal loop wraps
    around and the snapshot is refused. *)
Theorem restore_snapshot (R1 R2 : GoRange) f (Hwf : frame_wf f) :
  @RestoreFrame R2 (@Snapshot R1 f) =
  if decide (map_Forall (λ _ n, (n < 2 ^ 16 - 1)%Z) (fr_traversals f)) then Ok f
  else plain "execution frame snapshot has a gap in bounded traversal ordinals".
Proof.
  rewrite <-(@RestoreFrame_Snapshot R2 f Hwf). f_equal. unfold Snapshot. f_equal.
  - by rewrite !mustCloneRawMessages_valid by apply (wf_inputs f Hwf).
  - apply (StronglySorted_unique_strong (λ x y, token_less y x = false)).
    + intros x y. rewrite !stable_sort_perm. unfold range_map. rewrite !range_perm.
      rewrite !elem_of_tokens by done. intros Hx Hy H1 H2. unfold token_in in *.
      rewrite (token_less_antisym _ _ H2 H1) in Hx. congruence.
    + apply stable_sort_sorted; [apply token_less_asym|apply token_less_trans].
    + apply stable_sort_sorted; [apply token_less_asym|apply token_less_trans].
    + rewrite !stable_sort_perm. unfold range_map. by rewrite !range_perm.
Qed.

Lemma restore_snapshot_witness :
  @RestoreFrame range_canonical (@Snapshot range_reversed ex_fired) = Ok ex_fired.
Proof.
  rewrite (restore_snapshot range_reversed range_canonical ex_fired).
  - apply decide_True. apply map_Forall_to_list. vm_compute. repeat constructor.
  - eapply cons_wf, (run_consistent (ex_authored 2) ex_frame ex_fired).
    + apply ex_authored_ok. lia.
    + apply ex_frame_consistent.
    + apply ex_fired_run.
Defined.

(** Firing a bounded transition [n] times, with distinct epochs. *)
Fixpoint fire_epochs (f : Frame) (visit : string) (node : Identifier) (tr : Transition) (n : nat)
  : Frame :=
  match n with
  | O => f
  | S n => (fire_transition (fire_epochs f visit node tr n) visit node (Z.of_nat n) tr).1
  end.

Lemma fire_epochs_run T f visit node tr n :
  T !! ID tr = Some tr → (Z.of_nat n ≤ 2 ^ 64)%Z → rtc (fires T) f (fire_epochs f visit node tr n).
Proof.
  intros HT. induction n as [|n IH]; intros Hn; simpl; [apply rtc_refl|].
  eapply rtc_r; [apply IH; lia|]. apply fires_step; [done|lia].
Qed.

Lemma fire_epochs_count T f visit node c max n :
  authored T → consistent T f → T !! ID (BoundedTransition c max) = Some (BoundedTransition c max) →
  in_route f node (BoundedTransition c max) → blank visit = false → fr_tokens f = ∅ →
  traversals_of f (ID (BoundedTransition c max)) = 0%Z →
  (Z.of_nat n ≤ max)%Z →
  let f' := fire_epochs f visit node (BoundedTransition c max) n in
  traversals_of f' (ID (BoundedTransition c max)) = Z.of_nat n ∧
  ∀ k, is_Some (fr_tokens f' !! k) → (tk_JoinEpoch k < Z.of_nat n)%Z.
Proof.
  intros HT Hc HTr Hin Hv Hempty Hzero. set (tr := BoundedTransition c max) in *.
  assert (max < 2 ^ 16)%Z as Hmax by (destruct (HT _ _ HTr) as [_ Hm]; unfold tr in Hm; lia).
  induction n as [|n IH]; intros Hn.
  { simpl. split; [done|]. intros k. rewrite Hempty, lookup_empty. by intros []. }
  destruct IH as [IHc IHk]; [lia|]. cbn [fire_epochs].
  set (fn := fire_epochs f visit node tr n) in *.
  assert (rtc (fires T) f fn) as Hrun by (apply fire_epochs_run; [done|lia]).
  pose proof (run_consistent T f fn HT Hc Hrun) as Hcn.
  pose proof (run_kept T f fn Hrun) as [Hr _].
  assert (firing fn visit node (Z.of_nat n) tr) as Hfg.
  { split; [apply Hcn|by eapply consistent_agrees|lia| |done| |].
    - unfold in_route in *. by rewrite Hr.
    - apply eq_None_not_Some. intros Hk%IHk. simpl in Hk. lia.
    - unfold within_budget, tr. fold tr. rewrite IHc. lia. }
  destruct (fire_transition_outcome fn visit node (Z.of_nat n) tr) as [t _ _ Hk|_ _ _ _|e He].
  - by rewrite (fg_new _ _ _ _ _ Hfg) in Hk.
  - cbn [fst]. split.
    + rewrite (traversals_of_commit fn visit node (Z.of_nat n) tr (ID tr) Hfg).
      rewrite decide_True by done. unfold tr at 1. lia.
    + intros k. simpl. rewrite lookup_insert_is_Some. intros [<-|[_ Hk%IHk]]; [|lia].
      simpl. lia.
  - exfalso. destruct Hfg as [_ _ _ Hin' Hv' Hnew Hbud].
    destruct He as [[_ ?]|[[_ ?]|[(_ & t & Hk & _)|(_ & _ & _ & _ & ?)]]]; congruence || done.
Qed.

Definition ex_saturated (n : nat) : Frame :=
  fire_epochs ex_frame "visit" "build" (ex_loop "t_again" "build" 65535) n.

Lemma ex_saturated_count n :
  (Z.of_nat n ≤ 65535)%Z →
  rtc (fires (ex_authored 65535)) ex_frame (ex_saturated n) ∧
  traversals_of (ex_saturated n) "t_again" = Z.of_nat n.
Proof.
  intros Hn. split; [apply fire_epochs_run; [by vm_compute|lia]|].
  eapply (fire_epochs_count (ex_authored 65535) ex_frame "visit" "build").
  - apply ex_authored_ok. lia.
  - apply ex_frame_consistent.
  - vm_compute. reflexivity.
  - eexists. split_and!; vm_compute; reflexivity.
  - vm_compute. reflexivity.
  - reflexivity.
  - reflexivity.
  - exact Hn.
Qed.

(** A frame that has used a limit of 2^16 - 1 traversals in full, which the limit's type
    and [FireTransition] allow, cannot be restored from its own snapshot. *)
Theorem restore_saturated_refused :
  ∃ f, rtc (fires (ex_authored 65535)) ex_frame f ∧ frame_wf f ∧
    TraversalCount f "t_again" = 65535%Z ∧
    ∀ R : GoRange, RestoreFrame (Snapshot f) =
      plain "execution frame snapshot has a gap in bounded traversal ordinals".
Proof.
  assert (∃ n, Z.of_nat n = 65535%Z) as [n Hn] by (exists (Z.to_nat 65535); by rewrite Z2Nat.id).
  destruct (ex_saturated_count n) as [Hrun Hcount]; [lia|]. exists (ex_saturated n).
  pose proof (run_consistent _ _ _ (ex_authored_ok 65535 ltac:(lia)) (ex_frame_consistent 65535) Hrun)
    as [Hwf _].
  rewrite Hn in Hcount. split_and!; [done|done|exact Hcount|]. intros R.
  rewrite RestoreFrame_Snapshot by done. apply decide_False. intros Hall.
  unfold traversals_of in Hcount.
  destruct (fr_traversals (ex_saturated n) !! _) as [m|] eqn:Hm; [|by simpl in Hcount].
  simpl in Hcount. apply Hall in Hm. lia.
Qed.

(** (C31) Whatever [RestoreFrame] accepts is a well-formed frame with exactly the tokens of the
    snapshot, which it snapshots back up to the order of the tokens and the route's
    assessment. *)
Theorem restore_frame_validates (R : GoRange) snapshot f
    (Htyped : snapshot_typed snapshot) (Hf : RestoreFrame snapshot = Ok f) :
  frame_wf f ∧
  Snapshot f = {| fs_ID := fs_ID snapshot; fs_Workflow := fs_Workflow snapshot;
                  fs_Origin := fs_Origin snapshot; fs_Route := cloneRoute (fs_Route snapshot);
                  fs_Inputs := fs_Inputs snapshot;
                  fs_Tokens := stable_sort token_less (fs_Tokens snapshot);
                  fs_Ancestry := fs_Ancestry snapshot |}.
Proof.
  pose proof (RestoreFrame_wf snapshot f Htyped Hf) as [Hwf Hin]. split; [done|].
  apply RestoreFrame_inv in Hf as (st & _ & Hins & _ & _ & _ & _ & Hok & Hst & _ & Heq); [|done].
  assert (fs_Tokens (Snapshot f) ≡ₚ fs_Tokens snapshot) as Hperm.
  { apply NoDup_Permutation.
    - rewrite Snapshot_tokens. by apply tokens_NoDup.
    - apply NoDup_alt. intros i j x Hi Hj. apply dec_stable. intros Hij.
      by apply (compatible_irrefl x), (to_compatible _ _ Hok i j).
    - intros t. by rewrite elem_of_Snapshot. }
  assert (fs_Tokens (Snapshot f) = stable_sort token_less (fs_Tokens snapshot)) as Htok.
  { apply (StronglySorted_unique_strong (λ x y, token_less y x = false)).
    - intros x y Hx Hy H1 H2. rewrite stable_sort_perm in Hy.
      apply elem_of_Snapshot in Hx; [|done]. apply Hin in Hy. unfold token_in in *.
      rewrite (token_less_antisym _ _ H2 H1) in Hx. congruence.
    - apply stable_sort_sorted; [apply token_less_asym|apply token_less_trans].
    - apply stable_sort_sorted; [apply token_less_asym|apply token_less_trans].
    - by rewrite stable_sort_perm. }
  rewrite <-Htok. unfold Snapshot. simpl. subst f. simpl. f_equal.
  - apply cloneRoute_idemp.
  - by apply mustCloneRawMessages_valid.
Qed.

Definition ex_snapshot : FrameSnapshot := {|
  fs_ID := "frame"; fs_Workflow := workflowIdentity ex_definition; fs_Origin := RootFrameOrigin "run";
  fs_Route := ex_route; fs_Inputs := ∅;
  fs_Tokens := [
    {| tok_Key := {| tk_SourceVisitID := "v2"; tk_TransitionID := "t_again"; tk_JoinEpoch := 0 |};
       tok_Source := "build"; tok_Target := "build"; tok_Kind := TransitionTokenBounded;
       tok_Traversal := 2; tok_MaxTraversals := 3 |};
    {| tok_Key := {| tk_SourceVisitID := "v1"; tk_TransitionID := "t_again"; tk_JoinEpoch := 0 |};
       tok_Source := "build"; tok_Target := "build"; tok_Kind := TransitionTokenBounded;
       tok_Traversal := 1; tok_MaxTraversals := 3 |}];
  fs_Ancestry := [];
|}.
Lemma restore_frame_validates_witness :
  ∃ f, @RestoreFrame range_canonical ex_snapshot = Ok f ∧ frame_wf f ∧
       TraversalCount f "t_again" = 2%Z.
Proof.
  eexists. split; [vm_compute; reflexivity|]. split; [|vm_compute; reflexivity].
  eapply (restore_frame_validates range_canonical ex_snapshot); [|vm_compute; reflexivity].
  repeat constructor; cbv; try discriminate; done.
Defined.

(** ** Sub-workflows *)
Lemma sameIdentifierSet_spec l1 l2 : sameIdentifierSet l1 l2 = true ↔ l1 ≡ₚ l2.
Proof.
  assert (∀ a b, length a = length b → slicesEqual a b = true ↔ a = b) as Heq.
  { induction a as [|x a IH]; intros [|y b] Hlen; simpl; try done.
    injection Hlen as Hlen. case_decide; [naive_solver|]. rewrite IH by done. naive_solver. }
  unfold sameIdentifierSet. case_decide as Hlen.
  - split; [done|]. by intros ?%Permutation_length.
  - rewrite Heq.
    + split; [|intros Hp; by apply sort_strings_proper].
      intros Hs. by rewrite <-(sort_strings_perm l1), Hs, sort_strings_perm.
    + by rewrite !(Permutation_length (sort_strings_perm _)).
Qed.

Lemma sameWorkflow_spec w1 w2 : sameWorkflow w1 w2 = true ↔ w1 = w2.
Proof.
  unfold sameWorkflow. rewrite !andb_true_iff, !bool_decide_eq_true.
  destruct w1, w2; simpl. naive_solver.
Qed.

(** What the accepted inputs of a child are. *)
Definition child_inputs_ok (call : SubworkflowCall) (child : LoadedDefinition)
    (parentInputs childInputs : gmap Identifier RawMessage) : Prop :=
  ∀ name, match sc_Inputs call !! name with
  | None => childInputs !! name = None ∧ spec_Inputs (doc_Spec (ld_Document child)) !! name = None
  | Some parentName => ∃ value declaration,
      parentInputs !! parentName = Some value ∧ childInputs !! name = Some value ∧
      spec_Inputs (doc_Spec (ld_Document child)) !! name = Some declaration ∧
      rawMessageHasType value (vd_Type declaration) = true
  end.

Definition child_input_value (child : LoadedDefinition) (parentInputs : gmap Identifier RawMessage)
    (name parentName : Identifier) : fresult RawMessage :=
  let? m := child_input child parentInputs ∅ (name, parentName) in
  match m !! name with Some v => Ok v | None => plain "" end.

Lemma child_input_step child parentInputs m name parentName :
  child_input child parentInputs m (name, parentName) =
  (let? v := child_input_value child parentInputs name parentName in Ok (<[name := v]> m)).
Proof.
  unfold child_input_value, child_input.
  destruct (parentInputs !! parentName); [|done].
  destruct (spec_Inputs _ !! name); [|done]. destruct (rawMessageHasType _ _); [|done].
  simpl. by rewrite lookup_insert_eq.
Qed.

Lemma child_inputs_spec `{!GoRange} call child parentInputs childInputs :
  foldM (child_input child parentInputs) ∅ (range_map "StartSubworkflow.call" (sc_Inputs call)) =
    Ok childInputs ∧
  forM_ (declared_input childInputs)
    (range_map "StartSubworkflow.declared" (spec_Inputs (doc_Spec (ld_Document child)))) = Ok tt ↔
  child_inputs_ok call child parentInputs childInputs.
Proof.
  rewrite (foldM_map_Ok _ _ (child_input_step child parentInputs)), forM_Ok, Forall_forall.
  assert (∀ name parentName v, child_input_value child parentInputs name parentName = Ok v ↔
    ∃ declaration, parentInputs !! parentName = Some v ∧
      spec_Inputs (doc_Spec (ld_Document child)) !! name = Some declaration ∧
      rawMessageHasType v (vd_Type declaration) = true) as Hv.
  { intros name parentName v. unfold child_input_value, child_input.
    destruct (parentInputs !! parentName) as [w|]; [|naive_solver].
    destruct (spec_Inputs _ !! name) as [d|]; [|naive_solver].
    destruct (rawMessageHasType w _) eqn:E; simpl.
    - rewrite lookup_insert_eq. split; [intros [= <-]; by exists d|].
      by intros (d' & [= ->] & _).
    - split; [done|]. intros (d' & [= ->] & [= ->] & ?). congruence. }
  assert (∀ e, declared_input childInputs e = Ok tt ↔ is_Some (childInputs !! e.1)) as Hd.
  { intros e. unfold declared_input. destruct (childInputs !! e.1); [by split; [eauto|]|].
    split; [done|]. by intros []. }
  unfold child_inputs_ok. split.
  - intros [H1 H2] name. specialize (H1 name). destruct (sc_Inputs call !! name) as [pn|].
    + destruct H1 as (v & (d & ? & ? & ?)%Hv & ?). by exists v, d.
    + split; [done|]. destruct (spec_Inputs _ !! name) as [d|] eqn:E; [|done].
      assert (declared_input childInputs (name, d) = Ok tt) as Hx.
      { apply H2. by apply elem_of_range_map. }
      apply Hd in Hx. simpl in Hx. rewrite H1 in Hx. by destruct Hx.
  - intros Hall. split.
    + intros name. specialize (Hall name). destruct (sc_Inputs call !! name) as [pn|]; [|by destruct Hall].
      destruct Hall as (v & d & ? & ? & ? & ?). exists v. split; [|done]. apply Hv. by exists d.
    + intros [name d] Hin%elem_of_range_map. apply Hd. simpl. specialize (Hall name).
      destruct (sc_Inputs call !! name) as [pn|].
      * destruct Hall as (v & d' & _ & ? & _). by eexists.
      * destruct Hall as [_ Hn]. congruence.
Qed.

Lemma ancestry_loop_Ok seen ancestry :
  NoDup ancestry → (∀ w, w ∈ ancestry → w ∉ seen ∧ valid_identity w = true) →
  ∃ seen', foldM ancestry_step seen ancestry = Ok seen'.
Proof.
  revert seen. induction ancestry as [|w l IH]; intros seen Hnd Hall; [by eexists|].
  inversion Hnd; subst. cbn [foldM]. unfold ancestry_step at 1.
  destruct (Hall w) as [Hs ->]; [by left|]. rewrite bool_decide_eq_false_2 by done. simpl.
  apply IH; [done|]. intros x Hx. destruct (Hall x) as [??]; [by right|]. split; [|done]. set_solver.
Qed.

Lemma ancestry_Ok parentID visit current ancestry :
  ancestry ≠ [] → NoDup (ancestry ++ [current]) →
  (∀ w, w ∈ ancestry → valid_identity w = true) →
  validateFrameAncestry (ChildFrameOrigin parentID visit) current ancestry = Ok tt.
Proof.
  intros Hne (Hnd & Hdis & _)%NoDup_app Hval. unfold validateFrameAncestry.
  destruct ancestry as [|w l]; [done|]. cbn [result_bind].
  destruct (ancestry_loop_Ok {[current]} (w :: l)) as [s ->]; [done| |done].
  intros x Hx. split; [|by apply Hval]. intros ->%elem_of_singleton.
  apply (Hdis current Hx). by left.
Qed.

Lemma recursion_checks identity ancestry :
  forM_ (recursion_check identity) ancestry = Ok tt ↔ identity ∉ ancestry.
Proof.
  rewrite forM_Ok, Forall_forall.
  assert (∀ w, recursion_check identity w = Ok tt ↔ w ≠ identity) as Hw.
  { intros w. unfold recursion_check. rewrite <-sameWorkflow_spec.
    by destruct (sameWorkflow w identity). }
  setoid_rewrite Hw. split; [intros Hall Hin; by apply (Hall _ Hin)|]. intros Hn w Hin ->. done.
Qed.

Definition pinned (reference : WorkflowReference) (identity : WorkflowIdentity) : Prop :=
  wr_Name reference = wi_Name identity ∧ wr_Version reference = wi_Version identity ∧
  (wr_Digest reference = "" ∨ wr_Digest reference = wi_Digest identity).

Lemma validatePinnedReference_Ok reference identity :
  validatePinnedReference reference identity = Ok tt ↔ pinned reference identity.
Proof.
  unfold validatePinnedReference, pinned. case_decide as Hc.
  - split; [done|]. naive_solver.
  - split; [|done]. intros _. destruct (decide (wr_Name reference = wi_Name identity)),
      (decide (wr_Version reference = wi_Version identity)), (decide (wr_Digest reference = "")),
      (decide (wr_Digest reference = wi_Digest identity)); naive_solver.
Qed.

Lemma StartSubworkflow_Ok `{!GoRange} parent id visit call child route inputs f :
  StartSubworkflow (Some parent) id visit call child route inputs = Ok f ↔
  blank visit = false ∧ pinned (sc_Workflow call) (workflowIdentity child) ∧
  route_Entry route = sc_Entry call ∧ route_Terminals route ≡ₚ sc_Terminals call ∧
  workflowIdentity child ∉ fr_ancestry parent ++ [fr_workflow parent] ∧
  ∃ childInputs, child_inputs_ok call child inputs childInputs ∧
    newFrame id (workflowIdentity child) (ChildFrameOrigin (fr_id parent) visit) route childInputs
      (fr_ancestry parent ++ [fr_workflow parent]) = Ok f.
Proof.
  unfold StartSubworkflow. destruct (blank visit); [split; [done|by intros []]|].
  cbv zeta. rewrite result_bind_Ok. setoid_rewrite <-validatePinnedReference_Ok. split.
  - intros ([] & Hp & Hs). destruct (bool_decide _) eqn:He; [done|]. simpl in Hs.
    apply bool_decide_eq_false, dec_stable in He.
    destruct (sameIdentifierSet _ _) eqn:Ht; [|done]. simpl in Hs.
    apply sameIdentifierSet_spec in Ht.
    apply result_bind_Ok in Hs as ([] & Hr & Hs). apply recursion_checks in Hr.
    apply result_bind_Ok in Hs as (ci & Hci & Hs). apply result_bind_Ok in Hs as ([] & Hd & Hs).
    split_and!; try done. exists ci. split; [|done]. by apply child_inputs_spec.
  - intros (_ & Hp & He & Ht & Hr & ci & (Hci & Hd)%child_inputs_spec & Hnew).
    exists tt. split; [done|]. rewrite (bool_decide_eq_false_2 (route_Entry route ≠ _)) by naive_solver.
    rewrite (proj2 (sameIdentifierSet_spec _ _) Ht). simpl.
    rewrite (proj2 (recursion_checks _ _) Hr). simpl. rewrite Hci. simpl. rewrite Hd. done.
Qed.

(** A sub-workflow starts exactly when its reference is pinned to the installed child,
    its route has the pinned entry and terminals, the child is not among its own ancestors
    and every child input is mapped to a present parent input of its declared type; the
    child frame then has exactly those inputs, no tokens, and the parent's ancestry and
    workflow as its own ancestry. *)
Theorem start_subworkflow (R : GoRange) parent id visit call child route inputs f
    (Hparent : frame_wf parent) :
  StartSubworkflow (Some parent) id visit call child route inputs = Ok f ↔
  blank visit = false ∧ blank id = false ∧ blank (fr_id parent) = false ∧
  pinned (sc_Workflow call) (workflowIdentity child) ∧
  valid_identity (workflowIdentity child) = true ∧
  route_Entry route = sc_Entry call ∧ route_Terminals route ≡ₚ sc_Terminals call ∧
  validateFrozenRoute route = Ok tt ∧
  workflowIdentity child ∉ fr_ancestry parent ++ [fr_workflow parent] ∧
  ∃ childInputs, child_inputs_ok call child inputs childInputs ∧
    (∀ k v, childInputs !! k = Some v → Valid v = true) ∧
    f = {| fr_id := id; fr_workflow := workflowIdentity child;
           fr_origin := ChildFrameOrigin (fr_id parent) visit; fr_route := cloneRoute route;
           fr_inputs := childInputs; fr_tokens := ∅; fr_traversals := ∅;
           fr_ancestry := fr_ancestry parent ++ [fr_workflow parent] |}.
Proof.
  rewrite StartSubworkflow_Ok. setoid_rewrite newFrame_Ok. simpl. split.
  - intros (Hv & Hp & He & Ht & Hr & ci & Hci & Hid & Hw & Hfz & Ho & _ & Hvalid & ->).
    rewrite Hv in *. destruct (blank (fr_id parent)); [done|]. split_and!; try done. by exists ci.
  - intros (Hv & Hid & Hpid & Hp & Hw & He & Ht & Hfz & Hr & ci & Hci & Hvalid & ->).
    rewrite Hv, Hpid. split_and!; try done. exists ci. split_and!; try done.
    pose proof (wf_ancestry parent Hparent) as Ha.
    pose proof (wf_identity parent Hparent) as Hwi.
    apply validateFrameAncestry_Ok in Ha as [Hnd Hval].
    apply ancestry_Ok.
    + by intros [? ?]%app_nil.
    + apply NoDup_app. split_and!; [done| |apply NoDup_singleton].
      by intros w Hin ->%list_elem_of_singleton.
    + intros w [Hin| ->%list_elem_of_singleton]%elem_of_app; auto.
Qed.

Definition ex_call : SubworkflowCall := {|
  sc_Workflow := {| wr_Name := "child"; wr_Version := "1"; wr_Digest := ""; wr_Path := "" |};
  sc_Entry := "plan"; sc_Terminals := ["review"];
  sc_Inputs := {[ "goal" := "topic" ]}; sc_Outputs := {[ "text" := "node.plan.output.text" ]};
|}.
Definition ex_string_input : ValueDeclaration := {|
  vd_Resource := None; vd_SchemaDefinition := ""; vd_Type := ValueString; vd_Schema := "";
  vd_Description := "";
|}.
Definition ex_child : LoadedDefinition := {|
  ld_Document := {|
    doc_APIVersion := ""; doc_Kind := "";
    doc_Metadata := {| md_Name := "child"; md_Version := "1"; md_DisplayName := "";
                       md_Description := "" |};
    doc_Spec := {| spec_Inputs := {[ "goal" := ex_string_input ]};
      spec_RouteDefaults := {| rd_Entry := "plan"; rd_Terminals := ["review"] |};
      spec_Profiles := ∅; spec_Nodes := spec_Nodes (doc_Spec ex_document) |} |};
  ld_CanonicalJSON := "{}"; ld_Digest := ex_digest; ld_SourceScope := ""; ld_SourceRef := "";
|}.
Definition ex_child_frame : Frame := {|
  fr_id := "child-frame"; fr_workflow := workflowIdentity ex_child;
  fr_origin := ChildFrameOrigin "frame" "visit"; fr_route := ex_route;
  fr_inputs := {[ "goal" := quoted "'x'" ]}; fr_tokens := ∅; fr_traversals := ∅;
  fr_ancestry := [workflowIdentity ex_definition];
|}.
Lemma ex_child_started :
  @StartSubworkflow range_canonical (Some ex_frame) "child-frame" "visit" ex_call ex_child ex_route
    {[ "topic" := quoted "'x'" ]} = Ok ex_child_frame.
Proof. vm_compute. reflexivity. Qed.

Lemma start_subworkflow_witness :
  frame_wf ex_frame ∧ workflowIdentity ex_child ∉ [workflowIdentity ex_definition].
Proof.
  assert (frame_wf ex_frame) as Hwf by exact (cons_wf _ _ (ex_frame_consistent 2)).
  split; [exact Hwf|].
  exact (proj1 (proj2 (proj2 (proj2 (proj2 (proj2 (proj2 (proj2 (proj2
    (proj1 (start_subworkflow range_canonical ex_frame "child-frame" "visit" ex_call ex_child
      ex_route {[ "topic" := quoted "'x'" ]} ex_child_frame Hwf) ex_child_started)))))))))).
Defined.

(** Frames at nesting depth [n]. *)
Inductive nested `{!GoRange} : nat → Frame → Prop :=
| nested_root id runID definition route inputs f :
    NewRootFrame id runID definition route inputs = Ok f → nested 0 f
| nested_child n parent id visit call child route inputs f :
    nested n parent →
    StartSubworkflow (Some parent) id visit call child route inputs = Ok f → nested (S n) f
| nested_fire n T f f' : nested n f → fires T f f' → nested n f'.

(** (C32) Nesting is finite: a frame at depth [n] has [n] distinct ancestors that differ from
    its own workflow, so [n] is smaller than the number of installed workflow identities. *)
Theorem nesting_bounded (R : GoRange) n f W
    (Hn : nested n f) (HW : ∀ w, w ∈ fr_ancestry f ++ [fr_workflow f] → w ∈ W) :
  n < size (W : gset WorkflowIdentity) ∧ length (fr_ancestry f) = n ∧
  NoDup (fr_ancestry f ++ [fr_workflow f]).
Proof.
  assert (length (fr_ancestry f) = n ∧ NoDup (fr_ancestry f ++ [fr_workflow f])) as [Hlen Hnd].
  { clear HW. induction Hn as [id runID d route inputs f Hf
      |n p id visit call child route inputs f _ [IHl IHn] Hf|n T f f' _ IH Hf].
    - unfold NewRootFrame in Hf. destruct (blank runID); [done|].
      apply newFrame_Ok in Hf as (_ & _ & _ & _ & _ & _ & ->). simpl.
      split; [done|apply NoDup_singleton].
    - apply StartSubworkflow_Ok in Hf as (_ & _ & _ & _ & Hr & ci & _ & Hf).
      apply newFrame_Ok in Hf as (_ & _ & _ & _ & _ & _ & ->). simpl.
      split; [rewrite length_app; simpl; lia|]. apply NoDup_app.
      split_and!; [done| |apply NoDup_singleton]. by intros w Hw ->%list_elem_of_singleton.
    - destruct Hf as [f visit node epoch tr f' outcome _ _ Hf%FireTransition_Some].
      pose proof (frame_fields_kept f visit node epoch tr) as Hk. cbv zeta in Hk.
      rewrite Hf in Hk. simpl in Hk. destruct Hk as (_ & -> & _ & _ & _ & -> & _). done. }
  split; [|done].
  assert (length (fr_ancestry f ++ [fr_workflow f]) ≤ size W) as Hle.
  { rewrite <-(size_list_to_set (C:=gset WorkflowIdentity)) by done.
    apply subseteq_size. intros w Hw%elem_of_list_to_set. by apply HW. }
  rewrite length_app in Hle. simpl in Hle. lia.
Qed.

Lemma nesting_bounded_witness :
  1 < size ({[workflowIdentity ex_definition; workflowIdentity ex_child]} : gset WorkflowIdentity).
Proof.
  refine (proj1 (nesting_bounded range_canonical 1 ex_child_frame _ _ _)).
  - eapply nested_child; [|exact ex_child_started]. eapply nested_root. exact ex_frame_new.
  - intros w Hw. apply elem_of_union.
    apply elem_of_cons in Hw as [->|Hw]; [left; by apply elem_of_singleton|].
    apply list_elem_of_singleton in Hw as ->. right. by apply elem_of_singleton.
Defined.

(** ** Outputs *)
Definition map_output_value (node : NodeFields) (child : Document)
    (outputs : gmap Identifier (gmap Identifier RawMessage)) (name : Identifier) (source : string)
  : fresult RawMessage :=
  let? m := map_output node child outputs ∅ (name, source) in
  match m !! name with Some v => Ok v | None => plain "" end.

Lemma map_output_step node child outputs m name source :
  map_output node child outputs m (name, source) =
  (let? v := map_output_value node child outputs name source in Ok (<[name := v]> m)).
Proof.
  unfold map_output_value, map_output. repeat case_match; simpl; by rewrite ?lookup_insert_eq.
Qed.

(** The value a parent output receives. *)
Definition output_mapped (node : NodeFields) (child : Document)
    (outputs : gmap Identifier (gmap Identifier RawMessage)) (name : Identifier) (source : string)
    (value : RawMessage) : Prop :=
  ∃ childNode childOutput n declaration parentDeclaration,
    source = "node." +:+ childNode +:+ ".output." +:+ childOutput ∧
    parseNodeOutputSource source = Some (childNode, childOutput) ∧
    nodes_of child !! childNode = Some n ∧
    nf_Outputs (Fields n) !! childOutput = Some declaration ∧
    outputs !! childNode ≫= lookup childOutput = Some value ∧
    rawMessageHasType value (od_Type declaration) = true ∧
    nf_Outputs node !! name = Some parentDeclaration ∧
    od_Type parentDeclaration = od_Type declaration.

Lemma parseNodeOutputSource_Some source childNode childOutput :
  parseNodeOutputSource source = Some (childNode, childOutput) →
  source = "node." +:+ childNode +:+ ".output." +:+ childOutput.
Proof.
  unfold parseNodeOutputSource. intros Hp. rewrite <-(Join_Split source ".").
  destruct (Split source ".") as [|p0 [|p1 [|p2 [|p3 [|]]]]]; try done.
  case_decide as Hc; [done|]. injection Hp as -> ->.
  assert (p0 = "node" ∧ p2 = "output") as [-> ->].
  { destruct (decide (p0 = "node")), (decide (p2 = "output")); naive_solver. }
  done.
Qed.

(** A failing branch: no witness of the specification fits it. *)
Ltac refute_with elim := split; [done|apply elim; intros; destruct_and!; congruence].

Lemma map_output_value_Ok node child outputs name source value :
  map_output_value node child outputs name source = Ok value ↔
  output_mapped node child outputs name source value.
Proof.
  unfold map_output_value, map_output, output_mapped.
  assert (∀ (P : Prop), (∀ cn co n d pd, source = "node." +:+ cn +:+ ".output." +:+ co ∧
    parseNodeOutputSource source = Some (cn, co) ∧ nodes_of child !! cn = Some n ∧
    nf_Outputs (Fields n) !! co = Some d ∧ outputs !! cn ≫= lookup co = Some value ∧
    rawMessageHasType value (od_Type d) = true ∧ nf_Outputs node !! name = Some pd ∧
    od_Type pd = od_Type d → P) → output_mapped node child outputs name source value → P) as Helim.
  { intros P HP (cn & co & n & d & pd & Hall). by apply (HP cn co n d pd). }
  unfold output_mapped in Helim.
  destruct (parseNodeOutputSource source) as [[cn co]|] eqn:Hp;
    [|refute_with Helim].
  apply parseNodeOutputSource_Some in Hp as Hs.
  destruct (nodes_of child !! cn) as [n|] eqn:Hn;
    [|refute_with Helim].
  destruct (nf_Outputs (Fields n) !! co) as [d|] eqn:Hd;
    [|refute_with Helim].
  destruct (outputs !! cn ≫= lookup co) as [v|] eqn:Hv;
    [|refute_with Helim].
  destruct (rawMessageHasType v (od_Type d)) eqn:Ht; simpl;
    [|refute_with Helim].
  destruct (nf_Outputs node !! name) as [pd|] eqn:Hpd;
    [|refute_with Helim].
  case_decide as Hty; [refute_with Helim|].
  simpl. rewrite lookup_insert_eq. split.
  - intros [= <-]. by exists cn, co, n, d, pd.
  - apply Helim. intros. destruct_and!. congruence.
Qed.

(** [MapSubworkflowOutputs] succeeds exactly when every mapped output names an accepted
    output of a child node whose value has the declared type, and that type is the one the
    parent declares; the result then has exactly the mapped names with those values,
    whatever the iteration order, and otherwise some mapped output is to blame. *)
Theorem map_subworkflow_outputs (R : GoRange) node call child outputs candidate :
  MapSubworkflowOutputs node call child outputs = Ok candidate ↔
  ∀ name, match sc_Outputs call !! name with
          | None => candidate !! name = None
          | Some source => ∃ value, output_mapped node child outputs name source value ∧
                                    candidate !! name = Some value
          end.
Proof.
  unfold MapSubworkflowOutputs. rewrite (foldM_map_Ok _ _ (map_output_step node child outputs)).
  apply forall_proper. intros name. destruct (sc_Outputs call !! name); [|done].
  by setoid_rewrite map_output_value_Ok.
Qed.

(** The copies a frame keeps drop the route's assessment: a snapshot of a frame created
    for an assessed route is never the route it was created for. *)
Theorem frame_drops_assessment (R : GoRange) id runID definition route inputs f
    (Hf : NewRootFrame id runID definition route inputs = Ok f)
    (Hassessed : route_Assessment route ≠ "") :
  fs_Route (Snapshot f) ≠ route ∧ fr_route f ≠ route ∧
  cloneRoute (fs_Route (Snapshot f)) = cloneRoute route.
Proof.
  unfold NewRootFrame in Hf. destruct (blank runID); [done|].
  apply newFrame_Ok in Hf as (_ & _ & _ & _ & _ & _ & ->). simpl. rewrite !cloneRoute_idemp.
  split_and!; [intros Heq..|done]; rewrite <-Heq in Hassessed; done.
Qed.

Definition ex_assessed_route : Route := {|
  route_Assessment := "{}"; route_Entry := route_Entry ex_route;
  route_Terminals := route_Terminals ex_route; route_Nodes := route_Nodes ex_route;
  route_Transitions := route_Transitions ex_route;
  route_ExcludedNodes := route_ExcludedNodes ex_route;
  route_InputRequirements := route_InputRequirements ex_route;
|}.
Lemma frame_drops_assessment_witness :
  fs_Route (@Snapshot range_canonical ex_frame) ≠ ex_assessed_route.
Proof.
  refine (proj1 (frame_drops_assessment range_canonical "frame" "run" ex_definition
    ex_assessed_route {[ "goal" := "1" ]} ex_frame _ _)).
  - vm_compute. reflexivity.
  - vm_compute. discriminate.
Defined.
