(* ===== verification/StateStore.v ===== *)
(** Events and current-state projections: [runtime/src/ports/statestore/statestore.go] and
    [work.go]. *)
From S2P Require Import Prelude GoStrings GoJson.
From stdpp Require Import options.

(** An instant; the reducers only copy it. *)
Abbreviation Time := Z (only parsing).

(** * Events *)
Abbreviation AggregateType := string (only parsing).
Definition AggregateProject : AggregateType := "project".
Definition AggregateWork : AggregateType := "work".
Definition AggregateStory : AggregateType := "story".
Definition AggregatePoint : AggregateType := "point".
Definition AggregateRun : AggregateType := "run".
Definition AggregateVisit : AggregateType := "visit".
Definition AggregateAttempt : AggregateType := "attempt".
Definition AggregateArtifact : AggregateType := "artifact".
Definition AggregateApproval : AggregateType := "approval".
Definition AggregateOperation : AggregateType := "operation".
Definition AggregateAssessment : AggregateType := "assessment".
Definition AggregateInput : AggregateType := "input".
Definition AggregatePermission : AggregateType := "permission".

Abbreviation ActorType := string (only parsing).
Definition ActorUser : ActorType := "user".
Definition ActorSystem : ActorType := "system".
Definition ActorProvider : ActorType := "provider".
Definition ActorExternal : ActorType := "external".

Record Actor := { actor_Type : string; actor_ID : string }.
#[global] Instance Actor_eq_dec : EqDecision Actor.
Proof. solve_decision. Defined.
Record PendingEvent := {
  pe_SchemaVersion : Z;
  pe_ID : string;
  pe_AggregateType : AggregateType;
  pe_AggregateID : string;
  pe_ExpectedRevision : Z;
  pe_Kind : string;
  pe_OccurredAt : Time;
  pe_CorrelationID : string;
  pe_CausationID : option string;
  pe_CommandID : string;
  pe_Actor : Actor;
  pe_Data : RawMessage;
  pe_Metadata : RawMessage;
}.
Record Event := {
  ev_SchemaVersion : Z;
  ev_ID : string;
  ev_GlobalPosition : Z;
  ev_AggregateType : AggregateType;
  ev_AggregateID : string;
  ev_AggregateRevision : Z;
  ev_Kind : string;
  ev_OccurredAt : Time;
  ev_RecordedAt : Time;
  ev_CorrelationID : string;
  ev_CausationID : option string;
  ev_CommandID : string;
  ev_Actor : Actor;
  ev_Data : RawMessage;
  ev_Metadata : RawMessage;
}.

(** * Runs *)
Abbreviation RunStatus := string (only parsing).
Definition RunDraft : RunStatus := "draft".
Definition RunReady : RunStatus := "ready".
Definition RunQueued : RunStatus := "queued".
Definition RunRunning : RunStatus := "running".
Definition RunWaiting : RunStatus := "waiting".
Definition RunBlocked : RunStatus := "blocked".
Definition RunCompleted : RunStatus := "completed".
Definition RunFailed : RunStatus := "failed".
Definition RunCancelled : RunStatus := "cancelled".
Definition RunReconcileRequired : RunStatus := "reconcile_required".
Definition RunTerminal (status : RunStatus) : bool :=
  bool_decide (status ∈ [RunCompleted; RunCancelled; RunReconcileRequired]).

Record RunProjection := {
  run_RunID : string;
  run_WorkItemID : string;
  run_WorkflowID : string;
  run_WorkflowVersion : string;
  run_WorkflowDigest : string;
  run_RouteDigest : string;
  run_RouteSnapshot : string;
  run_Priority : Z;
  run_Status : RunStatus;
  run_ResourceVersion : Z;
  run_LastGlobalPosition : Z;
  run_CreatedAt : Time;
  run_UpdatedAt : Time;
}.

(** * Node visits *)
Abbreviation NodeStatus := string (only parsing).
Definition NodePending : NodeStatus := "pending".
Definition NodeReady : NodeStatus := "ready".
Definition NodeRunning : NodeStatus := "running".
Definition NodeValidating : NodeStatus := "validating".
Definition NodeWaitingCheckpoint : NodeStatus := "waiting_checkpoint".
Definition NodeSucceeded : NodeStatus := "succeeded".
Definition NodeRejected : NodeStatus := "rejected".
Definition NodeFailed : NodeStatus := "failed".
Definition NodeCancelled : NodeStatus := "cancelled".
Definition NodeTerminal (status : NodeStatus) : bool :=
  bool_decide (status ∈ [NodeSucceeded; NodeRejected; NodeFailed; NodeCancelled]).

Record NodeProjection := {
  node_VisitID : string;
  node_RunID : string;
  node_NodeID : string;
  node_Status : NodeStatus;
  node_ResourceVersion : Z;
  node_LastGlobalPosition : Z;
  node_CreatedAt : Time;
  node_UpdatedAt : Time;
}.

(** * Attempts *)
Abbreviation AttemptStatus := string (only parsing).
Definition AttemptCreated : AttemptStatus := "created".
Definition AttemptStarting : AttemptStatus := "starting".
Definition AttemptRunning : AttemptStatus := "running".
Definition AttemptValidating : AttemptStatus := "validating".
Definition AttemptSucceeded : AttemptStatus := "succeeded".
Definition AttemptFailed : AttemptStatus := "failed".
Definition AttemptCancelled : AttemptStatus := "cancelled".
Definition AttemptInterrupted : AttemptStatus := "interrupted".
Definition AttemptReconcileRequired : AttemptStatus := "reconcile_required".
Definition AttemptTerminal (status : AttemptStatus) : bool :=
  bool_decide (status ∈ [AttemptSucceeded; AttemptFailed; AttemptCancelled; AttemptInterrupted;
                         AttemptReconcileRequired]).

Record AttemptProjection := {
  att_AttemptID : string;
  att_RunID : string;
  att_VisitID : string;
  att_NodeID : string;
  att_PointID : string;
  att_PointRevision : Z;
  att_Priority : Z;
  att_Scenario : string;
  att_Provider : string;
  att_Status : AttemptStatus;
  att_ProviderThreadID : string;
  att_ProviderTurnID : string;
  att_ProcessOwnerID : string;
  att_LastSequence : Z;
  att_LogReference : string;
  att_ResourceVersion : Z;
  att_LastGlobalPosition : Z;
  att_CreatedAt : Time;
  att_UpdatedAt : Time;
}.

(** * Approvals *)
Abbreviation ApprovalClass := string (only parsing).
Definition ApprovalWorkflowCheckpoint : ApprovalClass := "workflow_checkpoint".
Definition ApprovalWorkflowControl : ApprovalClass := "workflow_control".
Definition ApprovalProviderPermission : ApprovalClass := "provider_permission".
Definition ApprovalExternalDelivery : ApprovalClass := "external_delivery".
Abbreviation ApprovalStatus := string (only parsing).
Definition ApprovalPending : ApprovalStatus := "pending".
Definition ApprovalApproved : ApprovalStatus := "approved".
Definition ApprovalChangesRequested : ApprovalStatus := "changes_requested".
Definition ApprovalRejected : ApprovalStatus := "rejected".
Definition ApprovalDenied : ApprovalStatus := "denied".
Definition ApprovalCancelled : ApprovalStatus := "cancelled".
Definition ApprovalExpired : ApprovalStatus := "expired".

Record ApprovalDecisionProjection := {
  dec_Action : string; dec_ActionKey : string; dec_Comment : string; dec_Actor : Actor;
  dec_DecidedAt : Time;
}.
Record ApprovalProjection := {
  app_ApprovalID : string;
  app_RunID : string;
  app_Class : ApprovalClass;
  app_Status : ApprovalStatus;
  app_CheckpointID : string;
  app_VisitID : string;
  app_NodeID : string;
  app_AttemptID : string;
  app_CheckpointRevision : Z;
  app_CandidateArtifactID : string;
  app_CandidateArtifactVersion : Z;
  app_CandidateDigest : string;
  app_CheckpointMode : string;
  app_MaxRevisions : option Z;
  app_ScopeDigest : string;
  app_PolicyDigest : string;
  app_Decision : option ApprovalDecisionProjection;
  app_ResourceVersion : Z;
  app_LastGlobalPosition : Z;
  app_CreatedAt : Time;
  app_UpdatedAt : Time;
}.

(** * Readiness assessments, input requests and provider permissions *)
Abbreviation ReadinessAssessmentStatus := string (only parsing).
Definition ReadinessAssessmentPending : ReadinessAssessmentStatus := "pending".
Definition ReadinessAssessmentDecided : ReadinessAssessmentStatus := "decided".
Definition ReadinessEffectPending : string := "pending".
Record ReadinessDecisionProjection := {
  rdp_DecisionID : string; rdp_Choice : string; rdp_RemedyCode : string; rdp_Reason : string;
  rdp_EffectStatus : string; rdp_Actor : Actor; rdp_DecidedAt : Time;
}.
Record ReadinessAssessmentProjection := {
  ras_AssessmentID : string; ras_RunID : string; ras_NodeID : string; ras_Disposition : string;
  ras_AssessmentDigest : string; ras_PolicyDigest : string; ras_Submission : string;
  ras_RouteContext : string; ras_Status : ReadinessAssessmentStatus;
  ras_Decision : option ReadinessDecisionProjection; ras_ResourceVersion : Z;
  ras_LastGlobalPosition : Z; ras_CreatedAt : Time; ras_UpdatedAt : Time;
}.

Abbreviation InputRequestStatus := string (only parsing).
Definition InputRequestPending : InputRequestStatus := "pending".
Definition InputRequestAnswerRecorded : InputRequestStatus := "answer_recorded".
Definition InputRequestAnswered : InputRequestStatus := "answered".
Record InputAnswerProjection := {
  ian_Answer : string; ian_ActionKey : string; ian_Actor : Actor; ian_RecordedAt : Time;
}.
Record InputReceiptProjection := { irc_ProviderRequestID : string; irc_DeliveredAt : Time }.
Record InputRequestProjection := {
  inp_InputRequestID : string; inp_RunID : string; inp_AttemptID : string; inp_NodeID : string;
  inp_ProviderThreadID : string; inp_ProviderRequestID : string; inp_ScopeDigest : string;
  inp_Request : string; inp_Status : InputRequestStatus; inp_Answer : option InputAnswerProjection;
  inp_Receipt : option InputReceiptProjection; inp_ResourceVersion : Z;
  inp_LastGlobalPosition : Z; inp_CreatedAt : Time; inp_UpdatedAt : Time;
}.

Abbreviation ProviderPermissionStatus := string (only parsing).
Definition ProviderPermissionPending : ProviderPermissionStatus := "pending".
Definition ProviderPermissionDecisionRecorded : ProviderPermissionStatus := "decision_recorded".
Definition ProviderPermissionResponded : ProviderPermissionStatus := "responded".
Record ProviderPermissionDecisionProjection := {
  ppd_Decision : string; ppd_ActionKey : string; ppd_Actor : Actor; ppd_RecordedAt : Time;
}.
Record ProviderPermissionReceiptProjection := {
  ppr_ProviderRequestID : string; ppr_DeliveredAt : Time;
}.
Record ProviderPermissionProjection := {
  per_PermissionRequestID : string; per_RunID : string; per_AttemptID : string;
  per_NodeID : string; per_ProviderThreadID : string; per_ProviderTurnID : string;
  per_ProviderRequestID : string; per_InteractionKind : string; per_Scope : string;
  per_ScopeDigest : string; per_PolicyDigest : string; per_Evidence : string;
  per_Status : ProviderPermissionStatus;
  per_Decision : option ProviderPermissionDecisionProjection;
  per_Receipt : option ProviderPermissionReceiptProjection; per_ResourceVersion : Z;
  per_LastGlobalPosition : Z; per_CreatedAt : Time; per_UpdatedAt : Time;
}.

(** * Projects, work items, stories and points *)
Abbreviation ProjectStatus := string (only parsing).
Definition ProjectActive : ProjectStatus := "active".
Definition ProjectArchived : ProjectStatus := "archived".
Record ProjectProjection := {
  prj_ProjectID : string; prj_Name : string; prj_SourceHash : string; prj_Status : ProjectStatus;
  prj_ResourceVersion : Z; prj_LastGlobalPosition : Z; prj_CreatedAt : Time; prj_UpdatedAt : Time;
}.

Abbreviation WorkRoutingMode := string (only parsing).
Definition WorkRoutingAutomatic : WorkRoutingMode := "automatic".
Definition WorkRoutingOverride : WorkRoutingMode := "override".
Record WorkRoutingIntent := {
  wri_Mode : WorkRoutingMode; wri_WorkflowID : string; wri_WorkflowVersion : string;
  wri_EntryNodeID : string; wri_TerminalNodeIDs : list string;
}.
Abbreviation WorkItemStatus := string (only parsing).
Definition WorkItemOpen : WorkItemStatus := "open".
Definition WorkItemActive : WorkItemStatus := "active".
Definition WorkItemCompleted : WorkItemStatus := "completed".
Definition WorkItemCancelled : WorkItemStatus := "cancelled".
Definition WorkItemTerminal (status : WorkItemStatus) : bool :=
  bool_decide (status ∈ [WorkItemCompleted; WorkItemCancelled]).
Abbreviation WorkDeletionState := string (only parsing).
Definition WorkRetained : WorkDeletionState := "".
Definition WorkDeleting : WorkDeletionState := "deleting".
Definition WorkDeleted : WorkDeletionState := "deleted".
Record WorkItemProjection := {
  wit_WorkItemID : string; wit_ProjectID : string; wit_Title : string;
  wit_Deletion : WorkDeletionState; wit_Details : string; wit_Evidence : list string;
  wit_RoutingIntent : WorkRoutingIntent; wit_SourceHash : string; wit_Priority : Z;
  wit_Status : WorkItemStatus; wit_ResourceVersion : Z; wit_LastGlobalPosition : Z;
  wit_CreatedAt : Time; wit_UpdatedAt : Time;
}.

Abbreviation StoryStatus := string (only parsing).
Definition StoryPlanned : StoryStatus := "planned".
Definition StoryReady : StoryStatus := "ready".
Definition StoryRunning : StoryStatus := "running".
Definition StoryCompleted : StoryStatus := "completed".
Definition StoryCancelled : StoryStatus := "cancelled".
Definition StoryRetired : StoryStatus := "retired".
Definition StoryTerminal (status : StoryStatus) : bool :=
  bool_decide (status ∈ [StoryCompleted; StoryCancelled; StoryRetired]).
Record StoryProjection := {
  sty_StoryID : string; sty_WorkItemID : string; sty_Title : string; sty_SourceHash : string;
  sty_Priority : Z; sty_Position : Z; sty_Status : StoryStatus; sty_ResourceVersion : Z;
  sty_LastGlobalPosition : Z; sty_CreatedAt : Time; sty_UpdatedAt : Time;
}.

Abbreviation PointStatus := string (only parsing).
Definition PointPlanned : PointStatus := "planned".
Definition PointReady : PointStatus := "ready".
Definition PointRunning : PointStatus := "running".
Definition PointValidating : PointStatus := "validating".
Definition PointAwaitingApproval : PointStatus := "awaiting_approval".
Definition PointAccepted : PointStatus := "accepted".
Definition PointCommitted : PointStatus := "committed".
Definition PointPublished : PointStatus := "published".
Definition PointFailed : PointStatus := "failed".
Definition PointRejected : PointStatus := "rejected".
Definition PointSuperseded : PointStatus := "superseded".
Definition PointReconcileRequired : PointStatus := "reconcile_required".
Definition PointTerminal (status : PointStatus) : bool :=
  bool_decide (status ∈ [PointPublished; PointFailed; PointRejected; PointSuperseded;
                         PointReconcileRequired]).
Record PointProjection := {
  pt_PointID : string; pt_StoryID : string; pt_Revision : Z; pt_Title : string;
  pt_SourceHash : string; pt_Priority : Z; pt_Position : Z; pt_Dependencies : list string;
  pt_Status : PointStatus; pt_ResourceVersion : Z; pt_LastGlobalPosition : Z;
  pt_CreatedAt : Time; pt_UpdatedAt : Time;
}.
