(* ===== verification/GoTime.v ===== *)
(** Instants and their text: [time.Time] in UTC as [time.RFC3339Nano] writes it
    ([formatTime] of [adapters/statestore/sqlite/events.go]) and as [time.Time.UnmarshalJSON]
    reads it back.

    An instant is its distance from 1 January 1970, 00:00 UTC, in nanoseconds. *)
From S2P Require Import Prelude GoStrings GoJson StateStore.
From stdpp Require Import options.

#[local] Open Scope Z_scope.

Definition second : Z := 1000000000.
Definition day_seconds : Z := 86400.

(** The civil date of a day counted from 1 January 1970: years start in March, so that the leap
    day ends one, and 400 years are 146097 days. *)
Definition civil (day : Z) : Z * Z * Z :=
  let z := day + 719468 in
  let era := z / 146097 in
  let doe := z mod 146097 in
  let yoe := (doe - doe / 1460 + doe / 36524 - doe / 146096) / 365 in
  let doy := doe - (365 * yoe + yoe / 4 - yoe / 100) in
  let mp := (5 * doy + 2) / 153 in
  let d := doy - (153 * mp + 2) / 5 + 1 in
  let m := if mp <? 10 then mp + 3 else mp - 9 in
  (yoe + era * 400 + (if m <=? 2 then 1 else 0), m, d).

(** The last digits of a number, zeros included. *)
Fixpoint digits (width : nat) (n : Z) : string :=
  match width with
  | O => ""
  | S width => digits width (n / 10) +:+ String (char (Z.to_N (48 + n mod 10))) ""
  end.
Fixpoint trim_zeros (s : string) : string :=
  match s with
  | EmptyString => ""
  | String c s =>
      match trim_zeros s with
      | EmptyString => if decide (c = "0"%char) then "" else String c ""
      | s => String c s
      end
  end.
(** [.999999999]: nothing for a whole second, no zeros at the end. *)
Definition fraction (ns : Z) : string :=
  match trim_zeros (digits 9 ns) with EmptyString => "" | s => "." +:+ s end.
Definition year_text (y : Z) : string :=
  if y <? 0 then "-" +:+ digits 4 (- y) else if y <? 10000 then digits 4 y else digits 5 y.

Definition formatTime (value : Time) : string :=
  let seconds := value / second in
  let '(y, m, d) := civil (seconds / day_seconds) in
  let clock := seconds mod day_seconds in
  year_text y +:+ "-" +:+ digits 2 m +:+ "-" +:+ digits 2 d +:+ "T" +:+
  digits 2 (clock / 3600) +:+ ":" +:+ digits 2 (clock / 60 mod 60) +:+ ":" +:+ digits 2 (clock mod 60) +:+
  fraction (value mod second) +:+ "Z".

(** Four digits are all [time.Parse] reads of a year. *)
Definition parses_back (value : Time) : bool :=
  (-62167219200 <=? value / second) && (value / second <? 253402300800).

(** [Time.IsZero]: 1 January of year 1. *)
Definition zero_time : Time := -62135596800 * second.

Example format_ex :
  formatTime 0 = "1970-01-01T00:00:00Z" ∧
  formatTime (1709210096 * second + 120000000) = "2024-02-29T12:34:56.12Z" ∧
  formatTime (-62167219200 * second) = "0000-01-01T00:00:00Z" ∧
  formatTime (253402300799 * second + 999999999) = "9999-12-31T23:59:59.999999999Z" ∧
  formatTime zero_time = "0001-01-01T00:00:00Z" ∧
  formatTime (-1) = "1969-12-31T23:59:59.999999999Z".
Proof. vm_compute. repeat split. Qed.

(** * Reading an instant

    [parseStrictRFC3339] of the standard library; the texts that only its lenient fallback
    accepts (an hour of one digit, a comma before the fraction) are refused here, and no text
    that [formatTime] writes is one of them. *)
Definition leap (y : Z) : bool :=
  (y mod 4 =? 0) && (negb (y mod 100 =? 0) || (y mod 400 =? 0)).
Definition days_in (y m : Z) : Z :=
  if m =? 2 then if leap y then 29 else 28
  else if (m =? 4) || (m =? 6) || (m =? 9) || (m =? 11) then 30 else 31.
(** The inverse of [civil]. *)
Definition civil_day (y m d : Z) : Z :=
  let y := if m <=? 2 then y - 1 else y in
  let era := y / 400 in
  let yoe := y mod 400 in
  let doy := (153 * (if 2 <? m then m - 3 else m + 9) + 2) / 5 + d - 1 in
  era * 146097 + (yoe * 365 + yoe / 4 - yoe / 100 + doy) - 719468.

Definition str_part (from count : nat) (s : string) : string := str_take count (str_drop from s).
Definition number_in (lo hi : Z) (s : string) : option Z :=
  if all_digits s && (lo <=? digits_value s) && (digits_value s <=? hi) then Some (digits_value s) else None.
(** A point and at least one digit, of which nine count; the nanoseconds and what follows. *)
Definition parse_fraction (s : string) : Z * string :=
  match s with
  | String c s1 =>
      if decide (c = "."%char) then
        let '(ds, rest) := span_digits s1 in
        if decide (ds = "") then (0, s)
        else let ds := str_take 9 ds in (digits_value ds * 10 ^ (9 - Z.of_nat (str_length ds)), rest)
      else (0, s)
  | EmptyString => (0, s)
  end.
(** The seconds east of UTC. *)
Definition parse_zone (s : string) : option Z :=
  if decide (s = "Z") then Some 0
  else if (str_length s =? 6)%nat && bool_decide (str_part 0 1 s ∈ ["+"; "-"]) && bool_decide (str_part 3 1 s = ":")
  then
    hour ← number_in 0 23 (str_part 1 2 s); minute ← number_in 0 59 (str_part 4 2 s);
    let offset := (hour * 60 + minute) * 60 in
    Some (if decide (str_part 0 1 s = "-") then - offset else offset)
  else None.
Definition parseTime (s : string) : option Time :=
  if (str_length s <? 19)%nat then None
  else
    y ← number_in 0 9999 (str_part 0 4 s);
    m ← number_in 1 12 (str_part 5 2 s);
    d ← number_in 1 (days_in y m) (str_part 8 2 s);
    hour ← number_in 0 23 (str_part 11 2 s);
    minute ← number_in 0 59 (str_part 14 2 s);
    sec ← number_in 0 59 (str_part 17 2 s);
    if bool_decide (str_part 4 1 s = "-" ∧ str_part 7 1 s = "-" ∧ str_part 10 1 s = "T" ∧
                    str_part 13 1 s = ":" ∧ str_part 16 1 s = ":") then
      let '(ns, zone) := parse_fraction (str_drop 19 s) in
      offset ← parse_zone zone;
      Some ((civil_day y m d * day_seconds + hour * 3600 + minute * 60 + sec - offset) * second + ns)
    else None.

Example parse_ex :
  parseTime "2024-02-29T12:34:56.12Z" = Some (1709210096 * second + 120000000) ∧
  parseTime "2024-02-29T14:34:56.1200000009+02:00" = Some (1709210096 * second + 120000000) ∧
  parseTime "2023-02-29T12:34:56Z" = None ∧ parseTime "2024-02-29T12:34:56" = None.
Proof. vm_compute. repeat split. Qed.
