(* ===== verification/TimeText.v ===== *)
(** Instants and their texts: an instant of a year that [time.Parse] reads is read back from the
    text that is written for it. *)
From S2P Require Import Prelude GoStrings GoJson StateStore GoTime.
From stdpp Require Import options.

#[local] Open Scope Z_scope.

(** * Digits *)
Lemma digit_char n : 0 ≤ n < 10 →
  is_digit (char (Z.to_N (48 + n))) = true ∧ digit_value (char (Z.to_N (48 + n))) = n.
Proof.
  intros Hn. assert (n ∈ seqZ 0 10) as Hin by (apply elem_of_seqZ; lia).
  assert (forallb (λ n, is_digit (char (Z.to_N (48 + n))) && (digit_value (char (Z.to_N (48 + n))) =? n)) (seqZ 0 10) = true)
    as Hall by (vm_compute; reflexivity).
  rewrite forallb_forall in Hall. apply list_elem_of_In, Hall, andb_prop in Hin as [? ?%Z.eqb_eq]. done.
Qed.
Lemma digits_value_from_app acc a b :
  digits_value_from acc (a +:+ b) = digits_value_from (digits_value_from acc a) b.
Proof. revert acc. induction a as [|c a IH]; intros acc; [done|apply IH]. Qed.
Lemma str_forall_app p a b : str_forall p (a +:+ b) = str_forall p a && str_forall p b.
Proof. induction a as [|c a IH]; [done|]. change (String c a +:+ b) with (String c (a +:+ b)). cbn. by rewrite IH, andb_assoc. Qed.

Lemma digits_facts width n : 0 ≤ n < 10 ^ Z.of_nat width →
  str_length (digits width n) = width ∧ str_forall is_digit (digits width n) = true ∧
  digits_value (digits width n) = n.
Proof.
  revert n. induction width as [|width IH]; intros n Hn.
  { cbn in *. split_and!; [done..|lia]. }
  rewrite Nat2Z.inj_succ, Z.pow_succ_r in Hn by lia. cbn [digits].
  assert (0 ≤ n / 10 < 10 ^ Z.of_nat width) as Hq by (split; [apply Z.div_pos|apply Z.div_lt_upper_bound]; lia).
  destruct (IH _ Hq) as (Hl & Hd & Hv). pose proof (Z.mod_pos_bound n 10 eq_refl) as Hr.
  destruct (digit_char _ Hr) as [Hc Hcv].
  rewrite str_length_app, str_forall_app, Hl, Hd. unfold digits_value in *. rewrite digits_value_from_app, Hv.
  cbn [str_forall digits_value_from str_length String.length andb]. rewrite Hc, Hcv.
  split_and!; [lia|done|]. pose proof (Z.div_mod n 10). lia.
Qed.
Lemma number_in_digits width lo hi n :
  (0 < width)%nat → 0 ≤ n < 10 ^ Z.of_nat width → lo ≤ n ≤ hi → number_in lo hi (digits width n) = Some n.
Proof.
  intros Hw (Hl & Hd & Hv)%digits_facts Hn. unfold number_in, all_digits. rewrite Hd, Hv, bool_decide_true.
  - cbn [andb]. by rewrite (proj2 (Z.leb_le _ _)), (proj2 (Z.leb_le _ _)) by lia.
  - intros He. rewrite He in Hl. cbn in Hl. lia.
Qed.

(** * Fractions *)
Lemma trim_zeros_value s : ∀ acc,
  (str_length (trim_zeros s) ≤ str_length s)%nat ∧
  digits_value_from acc s =
    digits_value_from acc (trim_zeros s) * 10 ^ (Z.of_nat (str_length s) - Z.of_nat (str_length (trim_zeros s))).
Proof.
  induction s as [|c s IH]; intros acc; [cbn; lia|]. cbn [trim_zeros digits_value_from].
  destruct (IH (10 * acc + digit_value c)) as [Hl Hv]. rewrite Hv.
  destruct (trim_zeros s) as [|c' s']; [case_decide as Hc; [subst c|]|];
    cbn [digits_value_from str_length String.length] in *; unfold str_length in *; (split; [lia|]).
  - change (digit_value "0") with 0. change (Z.of_nat 0) with 0. rewrite Nat2Z.inj_succ, !Z.sub_0_r, Z.pow_succ_r by lia. ring.
  - f_equal. f_equal. lia.
  - f_equal. f_equal. lia.
Qed.
Lemma trim_zeros_digits s : str_forall is_digit s = true → str_forall is_digit (trim_zeros s) = true.
Proof.
  induction s as [|c s IH]; [done|]. cbn [trim_zeros str_forall]. intros [Hc Hs%IH]%andb_prop.
  destruct (trim_zeros s); [case_decide; cbn; by rewrite ?Hc|cbn in *; by rewrite Hc].
Qed.
Lemma span_digits_all s c rest :
  str_forall is_digit s = true → is_digit c = false →
  span_digits (s +:+ String c rest) = (s, String c rest).
Proof.
  intros Hs Hc. induction s as [|d s IH]; [change ("" +:+ String c rest) with (String c rest); cbn; by rewrite Hc|].
  change (String d s +:+ String c rest) with (String d (s +:+ String c rest)). cbn in Hs |- *. apply andb_prop in Hs as [-> Hs]. by rewrite IH.
Qed.
Lemma str_take_all s n : (str_length s ≤ n)%nat → str_take n s = s.
Proof.
  unfold str_take, str_length. revert n. induction s as [|c s IH]; intros [|n]; cbn; intros Hn; [done..|lia|].
  f_equal. apply IH. lia.
Qed.
Lemma parse_fraction_format ns : 0 ≤ ns < second → parse_fraction (fraction ns +:+ "Z") = (ns, "Z").
Proof.
  intros Hns. destruct (digits_facts 9 ns Hns) as (Hl & Hd & Hv). unfold fraction.
  destruct (trim_zeros_value (digits 9 ns) 0) as [Hlen Hval]. fold (digits_value (digits 9 ns)) in Hval.
  rewrite Hv, Hl in Hval. rewrite Hl in Hlen. apply trim_zeros_digits in Hd.
  destruct (trim_zeros (digits 9 ns)) as [|c s]; [cbn in Hval |- *; by rewrite Hval|].
  remember (String c s) as s0. change (("." +:+ s0) +:+ "Z") with (String "." (s0 +:+ String "Z" "")).
  unfold parse_fraction. rewrite decide_True by done. rewrite (span_digits_all _ _ _ Hd) by done.
  rewrite decide_False by (by subst s0). rewrite (str_take_all _ _ Hlen). by rewrite Hval.
Qed.

(** * Civil dates *)

(** The year of a day of an era and the day of that year; the last day of a year that starts in
    March is 29 February. *)
Definition year_start (yoe : Z) : Z := 365 * yoe + yoe / 4 - yoe / 100.
Lemma year_of_era doe : 0 ≤ doe < 146097 →
  let yoe := (doe - doe / 1460 + doe / 36524 - doe / 146096) / 365 in
  0 ≤ yoe ≤ 399 ∧ 0 ≤ doe - year_start yoe ≤ 365 ∧
  (doe - year_start yoe = 365 → (yoe + 1) mod 4 = 0 ∧ ((yoe + 1) mod 100 ≠ 0 ∨ yoe = 399)).
Proof.
  intros Hdoe; cbv zeta. unfold year_start.
  destruct (decide (doe = 146096)) as [->|Hlast]; [vm_compute; intuition discriminate|].
  replace (doe / 146096) with 0 by (symmetry; apply Z.div_small; lia).
  assert (∃ c, 0 ≤ c ≤ 3 ∧ 36524 * c ≤ doe < 36524 * c + 36524 ∧ doe / 36524 = c) as (c & Hc & Hdc & ->).
  { exists (doe / 36524). Z.to_euclidean_division_equations; lia. }
  assert (∃ b, 1460 * b ≤ doe < 1460 * b + 1460 ∧ doe / 1460 = b) as (b & Hb & ->).
  { exists (doe / 1460). Z.to_euclidean_division_equations; lia. }
  assert (∃ y, y = (doe - b + c - 0) / 365) as [y Hy] by eauto. rewrite <-Hy.
  assert (365 * y ≤ doe - b + c < 365 * y + 365) as Hyb by (subst y; Z.to_euclidean_division_equations; lia).
  assert (c = 0 ∨ c = 1 ∨ c = 2 ∨ c = 3) as Hcs by lia. clear Hy.
  assert (y / 100 = c) as Hy100.
  { symmetry. apply Z.div_unique with (y - 100 * c); [|lia].
    destruct Hcs as [Hcs|[Hcs|[Hcs|Hcs]]]; rewrite Hcs in *; lia. }
  destruct Hcs as [->|[->|[->| ->]]]; (split_and!; [| | | |intros Hend; split]);
    Z.to_euclidean_division_equations; lia.
Qed.
(** The month and the day of a day of the year. *)
Definition month_ok (doy : Z) : bool :=
  let mp := (5 * doy + 2) / 153 in
  let d := doy - (153 * mp + 2) / 5 + 1 in
  let m := if mp <? 10 then mp + 3 else mp - 9 in
  (1 <=? m) && (m <=? 12) && (1 <=? d) &&
  (d <=? (if m =? 2 then if doy =? 365 then 29 else 28
          else if (m =? 4) || (m =? 6) || (m =? 9) || (m =? 11) then 30 else 31)) &&
  ((153 * (if 2 <? m then m - 3 else m + 9) + 2) / 5 + d - 1 =? doy) &&
  Bool.eqb (m <=? 2) (306 <=? doy).
Lemma month_of_year doy : 0 ≤ doy ≤ 365 → month_ok doy = true.
Proof.
  intros Hdoy. assert (forallb month_ok (seqZ 0 366) = true) as Hall by (vm_compute; reflexivity).
  rewrite forallb_forall in Hall. apply Hall, list_elem_of_In, elem_of_seqZ. lia.
Qed.

Lemma days_in_le y m : days_in y m ≤ 31.
Proof. unfold days_in. repeat case_match; lia. Qed.
Lemma leap_last era yoe : (yoe + 1) mod 4 = 0 → (yoe + 1) mod 100 ≠ 0 ∨ yoe = 399 →
  leap (yoe + era * 400 + 1) = true.
Proof.
  intros H4 Hc. unfold leap. replace (yoe + era * 400 + 1) with (yoe + 1 + era * 400) by lia.
  rewrite Z_mod_plus_full. replace (era * 400) with ((era * 100) * 4) by lia. rewrite Z_mod_plus_full.
  replace ((era * 100) * 4) with ((era * 4) * 100) by lia. rewrite Z_mod_plus_full, H4.
  destruct Hc as [Hc| ->]; [|done]. by rewrite (proj2 (Z.eqb_neq _ _) Hc).
Qed.
(** Every day of the years 0 to 9999 has a date with four, two and two digits, which names it. *)
Lemma civil_facts day : -719528 ≤ day < 2932897 →
  let '(y, m, d) := civil day in
  0 ≤ y ≤ 9999 ∧ 1 ≤ m ≤ 12 ∧ 1 ≤ d ≤ days_in y m ∧ civil_day y m d = day.
Proof.
  intros Hday. unfold civil, civil_day. cbv zeta.
  pose proof (Z.mod_pos_bound (day + 719468) 146097 eq_refl) as Hdoe.
  pose proof (Z.div_mod (day + 719468) 146097 ltac:(lia)) as Hdm.
  set (era := (day + 719468) / 146097) in *. set (doe := (day + 719468) mod 146097) in *. clearbody era doe.
  pose proof (year_of_era doe Hdoe) as (Hyoe & Hdoy & Hleap). cbv zeta in Hleap.
  set (yoe := (doe - doe / 1460 + doe / 36524 - doe / 146096) / 365) in *. clearbody yoe.
  fold (year_start yoe). replace (doe - (365 * yoe + yoe / 4 - yoe / 100)) with (doe - year_start yoe) by done.
  set (doy := doe - year_start yoe) in *. assert (doe = year_start yoe + doy) as Hsum by lia. clearbody doy.
  pose proof (month_of_year doy Hdoy) as Hmonth. unfold month_ok in Hmonth. cbv zeta in Hmonth.
  set (mp := (5 * doy + 2) / 153) in *. set (m := if mp <? 10 then mp + 3 else mp - 9) in *.
  set (d := doy - (153 * mp + 2) / 5 + 1) in *. clearbody m d.
  repeat (apply andb_prop in Hmonth as [Hmonth ?]).
  repeat match goal with H : (_ <=? _) = true |- _ => apply Z.leb_le in H | H : (_ =? _) = true |- _ => apply Z.eqb_eq in H end.
  match goal with H : Bool.eqb _ _ = true |- _ => apply Bool.eqb_prop in H; rename H into Hjan end.
  assert (year_start yoe = 365 * yoe + yoe / 4 - yoe / 100) as Hstart by done.
  pose proof (Z.div_mod yoe 4 ltac:(lia)) as H4. pose proof (Z.mod_pos_bound yoe 4 eq_refl).
  pose proof (Z.div_mod yoe 100 ltac:(lia)) as H100. pose proof (Z.mod_pos_bound yoe 100 eq_refl).
  assert (yoe = 399 ∧ year_start yoe = 145731 ∨ yoe ≤ 398 ∧ year_start yoe ≤ 145366) as Hlast by lia.
  assert (if m <=? 2 then 306 ≤ doy else doy < 306) as Hwinter.
  { rewrite Hjan. destruct (306 <=? doy) eqn:?; [by apply Z.leb_le|by apply Z.leb_gt]. }
  replace (if m <=? 2 then yoe + era * 400 + (if m <=? 2 then 1 else 0) - 1
           else yoe + era * 400 + (if m <=? 2 then 1 else 0)) with (yoe + era * 400) by (case_match; lia).
  rewrite Z_div_plus_full, Z_mod_plus_full, (Z.div_small yoe), (Z.mod_small yoe) by lia.
  split_and!; try lia.
  - destruct (m <=? 2); lia.
  - destruct (m <=? 2); lia.
  - etrans; [eassumption|]. unfold days_in. destruct (m =? 2) eqn:Hm2; [|done]. apply Z.eqb_eq in Hm2 as ->.
    cbn [Z.leb Z.compare Pos.compare Pos.compare_cont]. destruct (doy =? 365) eqn:Hend; [|by destruct (leap _)].
    apply Z.eqb_eq in Hend. destruct (Hleap Hend) as [Hf Hc]. by rewrite (leap_last era yoe Hf Hc).
Qed.

(** * The round trip *)
Lemma digits_two n : ∃ a b, digits 2 n = String a (String b "").
Proof. by eexists _, _. Qed.
Lemma digits_four n : ∃ a b c d, digits 4 n = String a (String b (String c (String d ""))).
Proof. by eexists _, _, _, _. Qed.

Lemma time_chars y1 y2 y3 y4 m1 m2 d1 d2 h1 h2 n1 n2 s1 s2 rest :
  String y1 (String y2 (String y3 (String y4 ""))) +:+ "-" +:+ String m1 (String m2 "") +:+ "-" +:+
  String d1 (String d2 "") +:+ "T" +:+ String h1 (String h2 "") +:+ ":" +:+ String n1 (String n2 "") +:+ ":" +:+
  String s1 (String s2 "") +:+ rest =
  String y1 (String y2 (String y3 (String y4 (String "-" (String m1 (String m2 (String "-" (String d1 (String d2
  (String "T" (String h1 (String h2 (String ":" (String n1 (String n2 (String ":" (String s1 (String s2 rest)))))))))))))))))).
Proof. reflexivity. Qed.

(** [time.RFC3339Nano] loses nothing of an instant of the years 0 to 9999: reading the text
    that is written for it gives it back, to the nanosecond. *)
Theorem time_read_back value : parses_back value = true → parseTime (formatTime value) = Some value.
Proof.
  intros [Hlo%Z.leb_le Hhi%Z.ltb_lt]%andb_prop. unfold formatTime. change day_seconds with 86400 in *.
  pose (seconds := value / second). fold seconds in Hlo, Hhi |- *.
  assert (-719528 ≤ seconds / 86400 < 2932897) as Hday
    by (split; [apply Z.div_le_lower_bound|apply Z.div_lt_upper_bound]; lia).
  pose proof (civil_facts _ Hday) as Hciv. destruct (civil (seconds / 86400)) as [[y m] d].
  destruct Hciv as (Hy & Hm & Hd & Hinv). pose proof (days_in_le y m) as Hd31.
  pose proof (Z.mod_pos_bound seconds 86400 eq_refl) as Hclock. pose (clock := seconds mod 86400). fold clock in Hclock |- *.
  assert (0 ≤ clock / 3600 ≤ 23) as Hhour by (split; [apply Z.div_pos|apply Z.lt_succ_r, Z.div_lt_upper_bound]; lia).
  pose proof (Z.mod_pos_bound (clock / 60) 60 eq_refl) as Hmin. pose proof (Z.mod_pos_bound clock 60 eq_refl) as Hsec.
  assert (year_text y = digits 4 y) as ->
    by (unfold year_text; rewrite (proj2 (Z.ltb_ge _ _)), (proj2 (Z.ltb_lt _ _)) by lia; done).
  pose proof (parse_fraction_format (value mod second) (Z.mod_pos_bound value second eq_refl)) as Hfrac.
  pose proof (number_in_digits 4 0 9999 y ltac:(lia) ltac:(lia) ltac:(lia)) as Ny.
  pose proof (number_in_digits 2 1 12 m ltac:(lia) ltac:(lia) ltac:(lia)) as Nm.
  pose proof (number_in_digits 2 1 (days_in y m) d ltac:(lia) ltac:(lia) ltac:(lia)) as Nd.
  pose proof (number_in_digits 2 0 23 (clock / 3600) ltac:(lia) ltac:(lia) ltac:(lia)) as Nh.
  pose proof (number_in_digits 2 0 59 (clock / 60 mod 60) ltac:(lia) ltac:(lia) ltac:(lia)) as Nmin.
  pose proof (number_in_digits 2 0 59 (clock mod 60) ltac:(lia) ltac:(lia) ltac:(lia)) as Ns.
  destruct (digits_four y) as (y1 & y2 & y3 & y4 & Ey). destruct (digits_two m) as (m1 & m2 & Em).
  destruct (digits_two d) as (d1 & d2 & Ed). destruct (digits_two (clock / 3600)) as (h1 & h2 & Eh).
  destruct (digits_two (clock / 60 mod 60)) as (n1 & n2 & En). destruct (digits_two (clock mod 60)) as (s1 & s2 & Es).
  rewrite Ey, Em, Ed, Eh, En, Es in *. rewrite time_chars. unfold parseTime, str_part, str_take. cbn [str_length String.length Nat.ltb Nat.leb str_drop String.substring].
  assert (∀ rest, String.substring 0 0 rest = "") as -> by by intros [].
  rewrite Ny. cbn [mbind option_bind]. rewrite Nm. cbn [mbind option_bind]. rewrite Nd. cbn [mbind option_bind].
  rewrite Nh. cbn [mbind option_bind]. rewrite Nmin. cbn [mbind option_bind]. rewrite Ns. cbn [mbind option_bind].
  rewrite bool_decide_true by done. rewrite Hfrac. cbn [parse_zone]. change (parse_zone "Z") with (Some 0). cbn [mbind option_bind].
  f_equal. rewrite Hinv. change day_seconds with 86400.
  assert (clock = clock / 3600 * 3600 + clock / 60 mod 60 * 60 + clock mod 60) as Hc.
  { pose proof (Z.div_mod clock 60). pose proof (Z.div_mod (clock / 60) 60). rewrite Z.div_div in * by lia.
    change (60 * 60) with 3600 in *. lia. }
  pose proof (Z.div_mod seconds 86400 ltac:(lia)) as Hs. fold clock in Hs.
  pose proof (Z.div_mod value second ltac:(done)) as Hval. fold seconds in Hval. nia.
Qed.
