(* ===== verification/GoDecode.v ===== *)
(** [json.Unmarshal] into a struct: members are matched to fields by exact name and then by
    case folding, [null] leaves a plain field alone, a member of the wrong type fails the
    whole decoding, and the last of several members for one field wins (slices are refilled
    in place). *)
From S2P Require Import Prelude GoStrings GoJson StateStore GoTime.
From Stdlib Require Import Ascii.
From stdpp Require Import options.

(** * Struct types and values *)
(** [KTime] is a [time.Time], which reads its own text: the bytes between the quotes. *)
Inductive SimpleKind := KString | KInt | KUint64 | KRaw | KStrings | KUint64Ptr | KTime.
Inductive FieldKind :=
| Simple (kind : SimpleKind)
| Struct (fields : list (string * SimpleKind))
| StructPtr (fields : list (string * SimpleKind)).

(** A slice keeps the elements beyond its length that its storage still holds. *)
Inductive SimpleValue :=
| VString (s : string)
| VInt (n : Z)
| VRaw (raw : RawMessage)
| VStrings (length : nat) (storage : list string)
| VUint64Ptr (n : option Z).
Inductive FieldValue :=
| VSimple (v : SimpleValue)
| VStruct (v : option (gmap string SimpleValue)).
Abbreviation StructFields := (gmap string FieldValue).
Abbreviation SimpleFields := (gmap string SimpleValue).

(** * Field names *)
Definition upper (c : ascii) : ascii :=
  if is_lower c then char (byte_of c - 32)%N else c.

(** [foldName]: the smallest rune of each case-folding class; besides the ASCII letters only
    the Kelvin sign and the long s fold to ASCII. *)
Fixpoint foldName (s : string) : string :=
  match s with
  | EmptyString => EmptyString
  | String c0 s1 =>
      match s1 with
      | String c1 s2 =>
          if decide (byte_of c0 = 197 ∧ byte_of c1 = 191)%N then String "S" (foldName s2)
          else
            match s2 with
            | String c2 s3 =>
                if decide (byte_of c0 = 226 ∧ byte_of c1 = 132 ∧ byte_of c2 = 170)%N
                then String "K" (foldName s3)
                else String (upper c0) (foldName s1)
            | EmptyString => String (upper c0) (foldName s1)
            end
      | EmptyString => String (upper c0) EmptyString
      end
  end.

Definition find_field {K} (fields : list (string * K)) (key : string) : option (string * K) :=
  match List.find (λ f, bool_decide (f.1 = key)) fields with
  | Some f => Some f
  | None => List.find (λ f, bool_decide (foldName f.1 = foldName key)) fields
  end.

(** * Members with their texts *)
Fixpoint raw_members (fuel : nat) (s : string) : option (list (string * RawMessage * Json)) :=
  match fuel with
  | O => None
  | S fuel =>
    match parse_key (S (str_length s)) s with
    | None => None
    | Some (k, s1) =>
      match parse_value (parse_fuel s1) max_nesting_depth s1 with
      | None => None
      | Some (v, r) =>
        match skip_space r with
        | String "," r' => (λ m, (k, consumed s1 r, v) :: m) <$> raw_members fuel r'
        | String "}" _ => Some [(k, consumed s1 r, v)]
        | _ => None
        end
      end
    end
  end.

(** The members of an object, [None] when the text is another value. *)
Definition object_members (s : string) : option (list (string * RawMessage * Json)) :=
  match skip_space s with
  | String "{" s1 =>
      match skip_space s1 with
      | String "}" _ => Some []
      | s2 => raw_members (S (str_length s2)) s2
      end
  | _ => None
  end.

(** * Values of fields *)
Fixpoint decode_elements (i : nat) (l : list Json) (storage : list string) : option (list string) :=
  match l with
  | [] => Some storage
  | v :: l =>
      let storage := if decide (i < length storage) then storage else storage ++ [""] in
      match v with
      | JString s => decode_elements (S i) l (<[i := s]> storage)
      | JNull => decode_elements (S i) l storage
      | _ => None
      end
  end.

Definition storage_of (v : option SimpleValue) : list string :=
  match v with Some (VStrings _ storage) => storage | _ => [] end.

Definition decode_simple (env : SimpleFields) (name : string) (kind : SimpleKind)
    (raw : RawMessage) (v : Json) : option SimpleFields :=
  match kind, v with
  | KRaw, _ => Some (<[name := VRaw raw]> env)
  | KStrings, JNull => Some (<[name := VStrings 0 []]> env)
  | KStrings, JArray [] => Some (<[name := VStrings 0 []]> env)
  | KStrings, JArray l =>
      storage ← decode_elements 0 l (storage_of (env !! name));
      Some (<[name := VStrings (length l) storage]> env)
  | KUint64Ptr, JNull => Some (<[name := VUint64Ptr None]> env)
  | KUint64Ptr, JNumber lit => n ← ParseUint lit; Some (<[name := VUint64Ptr (Some n)]> env)
  | _, JNull => Some env
  | KString, JString s => Some (<[name := VString s]> env)
  | KInt, JNumber lit => n ← ParseInt lit; Some (<[name := VInt n]> env)
  | KUint64, JNumber lit => n ← ParseUint lit; Some (<[name := VInt n]> env)
  | KTime, JString _ =>
      t ← parseTime (str_take (str_length raw - 2) (str_drop 1 raw)); Some (<[name := VInt t]> env)
  | _, _ => None
  end.

Section members.
Context {K V : Type} (fields : list (string * K))
  (decode : gmap string V → string → K → RawMessage → Json → option (gmap string V)).

Fixpoint decode_members (env : gmap string V) (members : list (string * RawMessage * Json))
  : option (gmap string V) :=
  match members with
  | [] => Some env
  | (key, raw, v) :: members =>
      match find_field fields key with
      | None => decode_members env members
      | Some (name, kind) => env ← decode env name kind raw v; decode_members env members
      end
  end.
End members.

Definition decode_nested (fields : list (string * SimpleKind)) (env : SimpleFields)
    (raw : RawMessage) : option SimpleFields :=
  members ← object_members raw; decode_members fields decode_simple env members.

Definition simple_fields (env : StructFields) : SimpleFields :=
  omap (λ v, match v with VSimple v => Some v | VStruct _ => None end) env.
Definition nested_fields (v : option FieldValue) : SimpleFields :=
  match v with Some (VStruct (Some env)) => env | _ => ∅ end.

Definition decode_field (env : StructFields) (name : string) (kind : FieldKind)
    (raw : RawMessage) (v : Json) : option StructFields :=
  match kind with
  | Simple kind =>
      new ← decode_simple (simple_fields env) name kind raw v;
      Some (match new !! name with Some v => <[name := VSimple v]> env | None => env end)
  | Struct fields =>
      match v with
      | JNull => Some env
      | _ =>
          nested ← decode_nested fields (nested_fields (env !! name)) raw;
          Some (<[name := VStruct (Some nested)]> env)
      end
  | StructPtr fields =>
      match v with
      | JNull => Some (<[name := VStruct None]> env)
      | _ =>
          nested ← decode_nested fields (nested_fields (env !! name)) raw;
          Some (<[name := VStruct (Some nested)]> env)
      end
  end.

(** [json.Unmarshal(data, &v)] for a zero struct [v]; [None] is an error. *)
Definition Unmarshal_struct (fields : list (string * FieldKind)) (data : RawMessage)
  : option StructFields :=
  match Unmarshal data with
  | None => None
  | Some JNull => Some ∅
  | Some _ => members ← object_members data; decode_members fields decode_field ∅ members
  end.

(** * Reading fields: absent fields are zero *)
Definition simple_string (v : option SimpleValue) : string :=
  match v with Some (VString s) => s | _ => "" end.
Definition simple_int (v : option SimpleValue) : Z :=
  match v with Some (VInt n) => n | _ => 0%Z end.
Definition simple_raw (v : option SimpleValue) : RawMessage :=
  match v with Some (VRaw raw) => raw | _ => "" end.
Definition simple_strings (v : option SimpleValue) : list string :=
  match v with Some (VStrings n storage) => take n storage | _ => [] end.
Definition simple_uint64_ptr (v : option SimpleValue) : option Z :=
  match v with Some (VUint64Ptr n) => n | _ => None end.

Definition simple_of (env : StructFields) (name : string) : option SimpleValue :=
  match env !! name with Some (VSimple v) => Some v | _ => None end.
Definition get_string (env : StructFields) (name : string) : string := simple_string (simple_of env name).
Definition get_int (env : StructFields) (name : string) : Z := simple_int (simple_of env name).
Definition get_raw (env : StructFields) (name : string) : RawMessage := simple_raw (simple_of env name).
Definition get_strings (env : StructFields) (name : string) : list string :=
  simple_strings (simple_of env name).
Definition get_uint64_ptr (env : StructFields) (name : string) : option Z :=
  simple_uint64_ptr (simple_of env name).
Definition get_struct (env : StructFields) (name : string) : option SimpleFields :=
  match env !! name with Some (VStruct v) => v | _ => None end.

(** Shorthands for the struct types of the event data. *)
Definition string_field (name : string) : string * FieldKind := (name, Simple KString).
Definition int_field (name : string) : string * FieldKind := (name, Simple KInt).
Definition uint64_field (name : string) : string * FieldKind := (name, Simple KUint64).
Definition time_field (name : string) : string * FieldKind := (name, Simple KTime).
Definition raw_field (name : string) : string * FieldKind := (name, Simple KRaw).
Definition strings_field (name : string) : string * FieldKind := (name, Simple KStrings).

Example decode_struct_ex :
  (λ env, (get_string env "title", get_int env "priority", get_strings env "tags", get_raw env "doc"))
    <$> Unmarshal_struct [string_field "title"; int_field "priority"; strings_field "tags"; raw_field "doc"]
      (quoted " {'TITLE':'a','title':null,'tags':['x','y'],'priority':-3,'tags':[null],
        'other':{},'doc': {'a' : [1, 2]} }") =
  Some ("a", (-3)%Z, ["x"], quoted "{'a' : [1, 2]}").
Proof. vm_compute. reflexivity. Qed.
Example decode_struct_type_error :
  Unmarshal_struct [uint64_field "n"] (quoted "{'n':1.0}") = None.
Proof. vm_compute. reflexivity. Qed.
