(* ===== verification/GoCompact.v ===== *)
(** [json.Marshal] of a [json.RawMessage]: the text without white space between its tokens, with
    the characters escaped that HTML gives a meaning. *)
From S2P Require Import Prelude GoStrings GoJson GoEncode.
From stdpp Require Import options.

Definition html_escape (c : ascii) : string :=
  "\u00" +:+ String (hex_digit (byte_of c / 16)) (String (hex_digit (byte_of c mod 16)) "").
Definition is_html (c : ascii) : bool := bool_decide (byte_of c ∈ [38; 60; 62]%N).

(** The scan of [appendCompact] outside and inside string literals; a backslash takes the next
    character with it. *)
Fixpoint compact_text (in_string : bool) (s : string) : string :=
  match s with
  | EmptyString => ""
  | String c s1 =>
      if in_string then
        if decide (c = "034"%char) then String c (compact_text false s1)
        else if decide (c = "\"%char) then
          match s1 with
          | String d s2 => String c (String d (compact_text true s2))
          | EmptyString => String c ""
          end
        else if is_html c then html_escape c +:+ compact_text true s1
        else if decide (c = char 226) then
          match s1 with
          | String d (String e s3) =>
              match snd <$> List.find (λ p, bool_decide (p.1 = String c (String d (String e "")))) line_separators with
              | Some escaped => escaped +:+ compact_text true s3
              | None => String c (compact_text true s1)
              end
          | _ => String c (compact_text true s1)
          end
        else String c (compact_text true s1)
      else if is_space c then compact_text false s1
      else String c (compact_text (bool_decide (c = "034"%char)) s1)
  end.
(** A nil message is [null]; a message that is not JSON is an error. *)
Definition Compact (raw : RawMessage) : option string :=
  if decide (raw = "") then Some "null"
  else if Valid raw then Some (compact_text false raw) else None.

Example compact_ex :
  Compact (quoted " {'a' : [ 1, 'x <\u0026 \' '], 'b':null } ") =
    Some (quoted "{'a':[1,'x \u003c\u0026 \' '],'b':null}") ∧
  Compact (quoted "{'a' 1}") = None ∧ Compact "" = Some "null".
Proof. vm_compute. split_and!; reflexivity. Qed.
