(* ===== verification/GoClosed.v ===== *)
(** Decoding into typed values: [json.Unmarshal], and a [json.Decoder] with
    [DisallowUnknownFields] that must then be at the end of its input, for the types that
    structs of the program have.

    A value is decoded over the one that is there: [null] leaves a string, number or struct
    alone and empties a pointer, slice or map; a slice is refilled in place, over the elements
    its storage still holds; the elements of a map are decoded anew; a member that is repeated
    is decoded again over the same field. *)
From S2P Require Import Prelude GoStrings GoJson GoDecode.
From stdpp Require Import options.

(** * Types and values *)
Inductive GoType :=
| GoString
| GoBool
| GoUint (bits : Z)
| GoRaw
| GoCustom (accepts : RawMessage → bool)  (* a type with an [UnmarshalJSON] of its own *)
| GoPtr (element : GoType)
| GoSlice (element : GoType)
| GoMap (element : GoType)
| GoStruct (fields : list (string * GoType)).
(** The value of a type with an [UnmarshalJSON] of its own is the text it was decoded from. *)
Inductive GoValue :=
| StringValue (s : string)
| BoolValue (b : bool)
| UintValue (n : Z)
| RawValue (raw : RawMessage)
| PtrValue (v : option GoValue)
| NilSlice
| SliceValue (length : nat) (storage : list GoValue)
| MapValue (m : option (list (string * GoValue)))
| StructValue (fields : list (string * GoValue)).

Fixpoint zero_value (t : GoType) : GoValue :=
  match t with
  | GoString => StringValue ""
  | GoBool => BoolValue false
  | GoUint _ => UintValue 0
  | GoRaw | GoCustom _ => RawValue ""
  | GoPtr _ => PtrValue None
  | GoSlice _ => NilSlice
  | GoMap _ => MapValue None
  | GoStruct fields => StructValue ((λ '(name, t), (name, zero_value t)) <$> fields)
  end.

Definition struct_members (v : GoValue) : list (string * GoValue) :=
  match v with StructValue fields => fields | _ => [] end.
Definition slice_storage (v : GoValue) : list GoValue :=
  match v with SliceValue _ storage => storage | _ => [] end.
Definition map_entries (v : GoValue) : list (string * GoValue) :=
  match v with MapValue (Some m) => m | _ => [] end.
Definition field_value (name : string) (v : GoValue) : option GoValue :=
  snd <$> List.find (λ f, bool_decide (f.1 = name)) (struct_members v).
Definition set_field (name : string) (v : GoValue) (fields : list (string * GoValue))
  : list (string * GoValue) :=
  (λ f, if decide (f.1 = name) then (name, v) else f) <$> fields.
Fixpoint set_entry (key : string) (v : GoValue) (m : list (string * GoValue)) : list (string * GoValue) :=
  match m with
  | [] => [(key, v)]
  | (k, old) :: m => if decide (key = k) then (k, v) :: m else (k, old) :: set_entry key v m
  end.

(** * Elements with their texts *)
Fixpoint raw_elements (fuel : nat) (s : string) : option (list RawMessage) :=
  match fuel with
  | O => None
  | S fuel =>
    let s := skip_space s in
    match parse_value (parse_fuel s) max_nesting_depth s with
    | None => None
    | Some (v, r) =>
      match skip_space r with
      | String "," r' => (λ l, consumed s r :: l) <$> raw_elements fuel r'
      | String "]" _ => Some [consumed s r]
      | _ => None
      end
    end
  end.
Definition array_elements (s : string) : option (list RawMessage) :=
  match skip_space s with
  | String "[" s1 =>
      match skip_space s1 with
      | String "]" _ => Some []
      | s2 => raw_elements (S (str_length s2)) s2
      end
  | _ => None
  end.

(** * Decoding *)
Section decode.
Variables (closed : bool) (decode_into : GoType → GoValue → RawMessage → option GoValue).

Fixpoint decode_struct_members (fields : list (string * GoType)) (current : list (string * GoValue))
    (members : list (string * RawMessage * Json)) : option (list (string * GoValue)) :=
  match members with
  | [] => Some current
  | (key, raw, _) :: members =>
      match find_field fields key with
      | None => if closed then None else decode_struct_members fields current members
      | Some (name, t) =>
          old ← field_value name (StructValue current);
          v ← decode_into t old raw;
          decode_struct_members fields (set_field name v current) members
      end
  end.
Fixpoint decode_slice_elements (t : GoType) (i : nat) (elements : list RawMessage)
    (storage : list GoValue) : option (list GoValue) :=
  match elements with
  | [] => Some storage
  | raw :: elements =>
      let storage := if decide (i < length storage) then storage else storage ++ [zero_value t] in
      old ← storage !! i;
      v ← decode_into t old raw;
      decode_slice_elements t (S i) elements (<[i := v]> storage)
  end.
Fixpoint decode_map_entries (t : GoType) (m : list (string * GoValue))
    (members : list (string * RawMessage * Json)) : option (list (string * GoValue)) :=
  match members with
  | [] => Some m
  | (key, raw, _) :: members =>
      v ← decode_into t (zero_value t) raw;
      decode_map_entries t (set_entry key v m) members
  end.
End decode.

Definition pointed_value (t : GoType) (old : GoValue) : GoValue :=
  match old with PtrValue (Some v) => v | _ => zero_value t end.
Definition trim_json (raw : RawMessage) : RawMessage :=
  let s := skip_space raw in
  match parse_value (parse_fuel s) max_nesting_depth s with
  | Some (_, r) => consumed s r
  | None => s
  end.

(** The fuel bounds the nesting of the type. *)
Fixpoint decode_into (closed : bool) (fuel : nat) (t : GoType) (old : GoValue) (raw : RawMessage) : option GoValue :=
  match fuel with
  | O => None
  | S fuel =>
    match t, Unmarshal raw with
    | _, None => None
    | GoRaw, _ => Some (RawValue (trim_json raw))
    | GoCustom accepts, _ => if accepts (trim_json raw) then Some (RawValue (trim_json raw)) else None
    | GoPtr _, Some JNull => Some (PtrValue None)
    | GoPtr t, _ => PtrValue ∘ Some <$> decode_into closed fuel t (pointed_value t old) raw
    | GoSlice _, Some JNull => Some NilSlice
    | GoMap _, Some JNull => Some (MapValue None)
    | _, Some JNull => Some old
    | GoString, Some (JString s) => Some (StringValue s)
    | GoBool, Some (JBool b) => Some (BoolValue b)
    | GoUint bits, Some (JNumber lit) =>
        n ← ParseUint lit; if decide (n < 2 ^ bits)%Z then Some (UintValue n) else None
    | GoSlice t, Some (JArray _) =>
        elements ← array_elements raw;
        storage ← decode_slice_elements (decode_into closed fuel) t 0 elements (slice_storage old);
        Some (if decide (elements = []) then SliceValue 0 [] else SliceValue (length elements) storage)
    | GoMap t, Some (JObject _) =>
        members ← object_members raw;
        MapValue ∘ Some <$> decode_map_entries (decode_into closed fuel) t (map_entries old) members
    | GoStruct fields, Some (JObject _) =>
        members ← object_members raw;
        StructValue <$> decode_struct_members closed (decode_into closed fuel) fields (struct_members old) members
    | _, _ => None
    end
  end.

Fixpoint type_depth (t : GoType) : nat :=
  match t with
  | GoString | GoBool | GoUint _ | GoRaw | GoCustom _ => 1
  | GoPtr t | GoSlice t | GoMap t => S (type_depth t)
  | GoStruct fields => S (foldr (λ '(_, t) n, max (type_depth t) n) 0 fields)
  end.

(** [json.Unmarshal] and the closed decoding, into a zero value. *)
Definition UnmarshalInto (t : GoType) (raw : RawMessage) : option GoValue :=
  decode_into false (type_depth t) t (zero_value t) raw.
Definition decodeClosedJSON (t : GoType) (raw : RawMessage) : option GoValue :=
  decode_into true (type_depth t) t (zero_value t) raw.

(** * Reading *)
Definition go_string (v : option GoValue) : string :=
  match v with Some (StringValue s) => s | _ => "" end.
Definition go_bool (v : option GoValue) : bool := match v with Some (BoolValue b) => b | _ => false end.
Definition go_uint (v : option GoValue) : Z := match v with Some (UintValue n) => n | _ => 0%Z end.
Definition go_raw (v : option GoValue) : RawMessage := match v with Some (RawValue raw) => raw | _ => "" end.
Definition go_pointer (v : option GoValue) : option GoValue :=
  match v with Some (PtrValue v) => v | _ => None end.
Definition go_elements (v : option GoValue) : list GoValue :=
  match v with Some (SliceValue n storage) => take n storage | _ => [] end.
Definition go_strings (v : option GoValue) : list string := (λ v, go_string (Some v)) <$> go_elements v.
Definition go_raws (v : option GoValue) : list RawMessage := (λ v, go_raw (Some v)) <$> go_elements v.
(** A slice that is not nil. *)
Definition go_made (v : option GoValue) : bool := match v with Some (SliceValue _ _) => true | _ => false end.
Definition go_map (v : option GoValue) : option (gmap string GoValue) :=
  match v with Some (MapValue (Some m)) => Some (list_to_map m) | _ => None end.

Example decode_closed_ex :
  let t := GoStruct [("id", GoString); ("tags", GoSlice GoString)] in
  (λ v, (go_string (field_value "id" v), go_strings (field_value "tags" v))) <$>
    decodeClosedJSON t (quoted " {'ID':'a', 'tags':['x','y'], 'tags':[null]} ") = Some ("a", ["x"]) ∧
  decodeClosedJSON t (quoted "{'id':'a','other':1}") = None ∧
  decodeClosedJSON t (quoted "{'id':'a'} {}") = None.
Proof. vm_compute. split_and!; reflexivity. Qed.
Example decode_values_ex :
  let t := GoStruct [("n", GoUint 8); ("b", GoPtr GoBool); ("raw", GoRaw); ("m", GoMap (GoSlice GoRaw))] in
  (λ v, (go_uint (field_value "n" v), go_bool (go_pointer (field_value "b" v)), go_raw (field_value "raw" v),
         (λ m, go_raws (m !! "k")) <$> go_map (field_value "m" v))) <$>
    UnmarshalInto t (quoted "{'n':255,'b':true,'raw': [1, 2] ,'m':{'k':[ null,{ } ]},'other':0}") =
    Some (255%Z, true, "[1, 2]", Some ["null"; "{ }"]) ∧
  UnmarshalInto t (quoted "{'n':256}") = None.
Proof. vm_compute. split_and!; reflexivity. Qed.
