(* ===== verification/RawTexts.v ===== *)
(** The texts inside a text: the members of an object and the elements of an array, cut out as
    raw messages, are valid texts of the values they have in the whole, and shorter than it. *)
From S2P Require Import Prelude GoStrings GoJson JsonFacts GoEncode JsonText JsonRoundTrip JsonCut GoDecode GoClosed.
From stdpp Require Import options.

(** [c] is the text of [v], without white space around it. *)
Definition raw_text (c : RawMessage) (v : Json) : Prop := value_text max_nesting_depth c v.

Lemma Unmarshal_raw_text s v : Unmarshal s = Some v →
  raw_text (trim_json s) v ∧ ∃ w w', s = w +:+ trim_json s +:+ w' ∧ spaces w.
Proof.
  unfold Unmarshal, decode_prefix, trim_json. destruct (skip_space_split s) as (w & Hs & Hw & _).
  destruct (parse_value _ _ _) as [[v' r]|] eqn:Hp; [|done]. case_decide; [|done]. intros [= ->].
  apply (proj1 (parse_cut _)) in Hp as (c & Hc & Hv). rewrite Hc in Hs |- *. rewrite consumed_app.
  split; [done|]. by exists w, r.
Qed.
Lemma raw_text_Unmarshal c v : raw_text c v → Unmarshal c = Some v ∧ trim_json c = c.
Proof.
  intros Hc. pose proof (value_text_starts _ _ _ "" Hc) as Hskip. rewrite str_app_nil_r in Hskip.
  destruct Hc as [_ Hc]. specialize (Hc (parse_fuel c) max_nesting_depth "").
  rewrite str_app_nil_r in Hc. unfold Unmarshal, decode_prefix, trim_json.
  rewrite Hskip, Hc by (try done; unfold parse_fuel; lia). split; [done|].
  pose proof (consumed_app c "") as Ha. by rewrite str_app_nil_r in Ha.
Qed.
Lemma raw_text_Valid c v : raw_text c v → Valid c = true.
Proof. intros [Hc _]%raw_text_Unmarshal. unfold Valid. rewrite Hc. by apply bool_decide_true. Qed.
Lemma Unmarshal_trim s v : Unmarshal s = Some v → Unmarshal (trim_json s) = Some v.
Proof. intros [Hc _]%Unmarshal_raw_text. by apply raw_text_Unmarshal. Qed.
Lemma trim_json_length s v : Unmarshal s = Some v → str_length (trim_json s) ≤ str_length s.
Proof. intros [_ (w & w' & Hs & _)]%Unmarshal_raw_text. rewrite Hs at 2. rewrite !str_length_app. lia. Qed.
Lemma raw_text_nonempty c v : raw_text c v → c ≠ "".
Proof. by intros [(a & x & -> & _) _]. Qed.

(** A value that was read is read again wherever a value may stand. *)
Lemma parse_value_max fuel d s v r : parse_value fuel d s = Some (v, r) → d ≤ max_nesting_depth →
  ends_number r = true →
  parse_value (parse_fuel s) max_nesting_depth s = Some (v, r) ∧ raw_text (consumed s r) v.
Proof.
  intros (c & -> & Hv)%(proj1 (parse_cut fuel)) Hd Hr. rewrite consumed_app. split.
  - apply Hv; [|done..]. unfold parse_fuel. rewrite str_length_app. lia.
  - by apply (value_text_mono d).
Qed.
Lemma consumed_length fuel d s v r : parse_value fuel d s = Some (v, r) →
  str_length (consumed s r) + str_length r = str_length s.
Proof. intros (c & -> & _)%(proj1 (parse_cut fuel)). by rewrite consumed_app, str_length_app. Qed.
Lemma after_space_ends a r r' : after a (skip_space r) = Some r' → ends_number (String a "") = true →
  ends_number r = true ∧ str_length r' < str_length r.
Proof.
  intros (w & -> & _ & Hh & _)%after_space Ha. split; [by apply space_then_ends|].
  rewrite str_length_app, str_length_cons. lia.
Qed.
Lemma parse_key_length fuel s k r : parse_key fuel s = Some (k, r) → str_length r < str_length s.
Proof.
  intros (c & -> & [Hne _] & _)%parse_key_cut. rewrite str_length_app.
  destruct c; [done|]. rewrite str_length_cons. lia.
Qed.

(** ** Members *)
Definition member_value (m : string * RawMessage * Json) : string * Json := (m.1.1, m.2).
Definition member_text_ok (bound : nat) (m : string * RawMessage * Json) : Prop :=
  utf8 m.1.1 ∧ raw_text m.1.2 m.2 ∧ str_length m.1.2 < bound.

Lemma members_raw fuel d s m r : parse_members fuel d s = Some (m, r) → d ≤ max_nesting_depth →
  ∀ fuel', str_length s < fuel' →
  ∃ ms, raw_members fuel' s = Some ms ∧ member_value <$> ms = m ∧ Forall (member_text_ok (str_length s)) ms.
Proof.
  revert s m. induction fuel as [|fuel IH]; intros s m Hp Hd; [done|]. rewrite parse_members_step in Hp.
  intros [|fuel'] Hf; [lia|]. cbn [raw_members].
  destruct (parse_key _ s) as [[k s1]|] eqn:Hk; [|done]. pose proof (parse_key_length _ _ _ _ Hk) as Hlen.
  apply parse_key_utf8 in Hk. destruct (parse_value fuel d s1) as [[v r1]|] eqn:Hv; [|done].
  pose proof (consumed_length _ _ _ _ _ Hv) as Hlen1.
  destruct (after "," (skip_space r1)) as [r2|] eqn:Ha.
  - destruct (parse_members fuel d r2) as [[m' r3]|] eqn:Hm; [|done]. injection Hp as <- <-.
    pose proof (after_space_ends _ _ _ Ha eq_refl) as [Hends Hlen2].
    destruct (parse_value_max _ _ _ _ _ Hv Hd Hends) as [-> Hraw]. rewrite after_comma_brace, Ha.
    destruct (IH _ _ Hm Hd fuel') as (ms & -> & <- & Hms); [lia|]. eexists. split; [done|]. split; [done|].
    constructor; [split_and!; simpl; [done..|lia]|]. eapply Forall_impl; [done|].
    intros m (? & ? & ?). split_and!; [done..|lia].
  - destruct (after "}" (skip_space r1)) as [r2|] eqn:Hb; [|done]. injection Hp as <- <-.
    pose proof (after_space_ends _ _ _ Hb eq_refl) as [Hends Hlen2].
    destruct (parse_value_max _ _ _ _ _ Hv Hd Hends) as [-> Hraw]. rewrite after_comma_brace, Ha, Hb.
    eexists. split; [done|]. split; [done|]. constructor; [split_and!; simpl; [done..|lia]|constructor].
Qed.

Lemma skip_space_length s : str_length (skip_space s) ≤ str_length s.
Proof. destruct (skip_space_split s) as (w & Hs & _). rewrite Hs at 2. rewrite str_length_app. lia. Qed.
(** The patterns of brackets. *)
Lemma after_open_brace {A} (x : string → option A) s :
  match s with String "{" r => x r | _ => None end = match after "{" s with Some r => x r | None => None end.
Proof. by destruct s as [|[[] [] [] [] [] [] [] []] s]. Qed.
Lemma after_open_bracket {A} (x : string → option A) s :
  match s with String "[" r => x r | _ => None end = match after "[" s with Some r => x r | None => None end.
Proof. by destruct s as [|[[] [] [] [] [] [] [] []] s]. Qed.
Lemma object_members_step s : object_members s =
  match after "{" (skip_space s) with
  | Some s1 => match after "}" (skip_space s1) with
               | Some _ => Some []
               | None => raw_members (S (str_length (skip_space s1))) (skip_space s1)
               end
  | None => None
  end.
Proof.
  etransitivity; [exact (after_open_brace _ (skip_space s))|]. destruct (after _ _) as [s1|]; [|done].
  generalize raw_members (skip_space s1). by intros f [|[[] [] [] [] [] [] [] []] s2].
Qed.
Lemma array_elements_step s : array_elements s =
  match after "[" (skip_space s) with
  | Some s1 => match after "]" (skip_space s1) with
               | Some _ => Some []
               | None => raw_elements (S (str_length (skip_space s1))) (skip_space s1)
               end
  | None => None
  end.
Proof.
  etransitivity; [exact (after_open_bracket _ (skip_space s))|]. destruct (after _ _) as [s1|]; [|done].
  generalize raw_elements (skip_space s1). by intros f [|[[] [] [] [] [] [] [] []] s2].
Qed.
(** A container starts with its bracket. *)
Lemma container_head fuel d s v r : parse_value fuel d s = Some (v, r) →
  match v with
  | JObject _ => ∃ s1, s = String "{" s1
  | JArray _ => ∃ s1, s = String "[" s1
  | _ => True
  end.
Proof.
  destruct fuel as [|fuel]; [done|]. destruct s as [|a s]; [done|]. cbn [parse_value].
  case_decide; [destruct (parse_string _ _) as [[]|]; by intros [= <- _]|].
  case_decide as Hb; [subst a|].
  { destruct d as [|d]; [done|]. intros Hp. assert (∃ l, v = JArray l) as [l ->]; [|by eexists].
    repeat case_match; simplify_eq; by eexists. }
  case_decide as Hc; [subst a|].
  { destruct d as [|d]; [done|]. intros Hp. assert (∃ m, v = JObject m) as [m ->]; [|by eexists].
    repeat case_match; simplify_eq; by eexists. }
  repeat (destruct (strip_prefix _ _); [by intros [= <- _]|]).
  destruct (scan_number _) as [[]|]; by intros [= <- _].
Qed.

Lemma object_members_text s m : Unmarshal s = Some (JObject m) →
  ∃ ms, object_members s = Some ms ∧ m = to_map (member_value <$> ms) ∧ Forall (member_text_ok (str_length s)) ms.
Proof.
  unfold Unmarshal, decode_prefix. rewrite object_members_step. pose proof (skip_space_length s) as Hle.
  destruct (parse_value _ _ _) as [[v r]|] eqn:Hp; [|done]. case_decide; [|done]. intros [= ->].
  destruct (container_head _ _ _ _ _ Hp) as [s1 Hs]. rewrite Hs in Hp, Hle |- *. rewrite after_here.
  rewrite str_length_cons in Hle. pose proof (skip_space_length s1) as Hle1. unfold parse_fuel in Hp.
  rewrite parse_object_step in Hp. destruct max_nesting_depth as [|d] eqn:Hd; [done|].
  destruct (after "}" (skip_space s1)) as [r1|]; [injection Hp as <- <-; by exists []|].
  destruct (parse_members _ _ _) as [[ms r1]|] eqn:Hm; [|done]. injection Hp as <- <-.
  eapply members_raw in Hm as (l & Hl & <- & Hall); [|lia|by apply Nat.lt_succ_diag_r].
  exists l. split_and!; [done..|]. eapply Forall_impl; [done|]. intros x (? & ? & ?). split_and!; [done..|lia].
Qed.

(** ** Elements *)
Definition element_text_ok (bound : nat) (raw : RawMessage) (v : Json) : Prop :=
  raw_text raw v ∧ str_length raw < bound.

Lemma elements_raw fuel d s l r : parse_elements fuel d s = Some (l, r) → d ≤ max_nesting_depth →
  ∀ fuel', str_length s < fuel' →
  ∃ raws, raw_elements fuel' s = Some raws ∧ Forall2 (element_text_ok (str_length s)) raws l.
Proof.
  revert s l. induction fuel as [|fuel IH]; intros s l Hp Hd; [done|]. rewrite parse_elements_step in Hp.
  intros [|fuel'] Hf; [lia|]. cbn [raw_elements]. pose proof (skip_space_length s) as Hle.
  destruct (parse_value fuel d (skip_space s)) as [[v r1]|] eqn:Hv; [|done].
  pose proof (consumed_length _ _ _ _ _ Hv) as Hlen1.
  destruct (after "," (skip_space r1)) as [r2|] eqn:Ha.
  - destruct (parse_elements fuel d r2) as [[l' r3]|] eqn:Hm; [|done]. injection Hp as <- <-.
    pose proof (after_space_ends _ _ _ Ha eq_refl) as [Hends Hlen2].
    destruct (parse_value_max _ _ _ _ _ Hv Hd Hends) as [-> Hraw]. rewrite after_comma_close, Ha.
    destruct (IH _ _ Hm Hd fuel') as (ms & -> & Hms); [lia|]. eexists. split; [done|].
    constructor; [split; [done|lia]|]. eapply Forall2_impl; [done|]. intros x y [? ?]. split; [done|lia].
  - destruct (after "]" (skip_space r1)) as [r2|] eqn:Hb; [|done]. injection Hp as <- <-.
    pose proof (after_space_ends _ _ _ Hb eq_refl) as [Hends Hlen2].
    destruct (parse_value_max _ _ _ _ _ Hv Hd Hends) as [-> Hraw]. rewrite after_comma_close, Ha, Hb.
    eexists. split; [done|]. constructor; [split; [done|lia]|constructor].
Qed.
Lemma array_elements_text s l : Unmarshal s = Some (JArray l) →
  ∃ raws, array_elements s = Some raws ∧ Forall2 (element_text_ok (str_length s)) raws l.
Proof.
  unfold Unmarshal, decode_prefix. rewrite array_elements_step. pose proof (skip_space_length s) as Hle.
  destruct (parse_value _ _ _) as [[v r]|] eqn:Hp; [|done]. case_decide; [|done]. intros [= ->].
  destruct (container_head _ _ _ _ _ Hp) as [s1 Hs]. rewrite Hs in Hp, Hle |- *. rewrite after_here.
  rewrite str_length_cons in Hle. pose proof (skip_space_length s1) as Hle1. unfold parse_fuel in Hp.
  rewrite parse_container_step in Hp. destruct max_nesting_depth as [|d] eqn:Hd; [done|].
  destruct (after "]" (skip_space s1)) as [r1|]; [injection Hp as <- <-; by exists []|].
  destruct (parse_elements _ _ _) as [[ms r1]|] eqn:Hm; [|done]. injection Hp as <- <-.
  eapply elements_raw in Hm as (raws & Hl & Hall); [|lia|by apply Nat.lt_succ_diag_r].
  exists raws. split; [done|]. eapply Forall2_impl; [done|]. intros x y [? ?]. split; [done|lia].
Qed.
