(* ===== verification/StructText.v ===== *)
(** Structs written and read back: what [json.Marshal] writes for a struct is decoded, field by
    field, into the values that were written.  Numbers in decimal, strings, times and raw texts
    are the fields that occur. *)
From S2P Require Import Prelude GoStrings GoJson GoEncode JsonText JsonRoundTrip JsonCut StateStore GoTime TimeText GoDecode GoClosed RawTexts.
From stdpp Require Import options.

(** * Numbers *)
Lemma pretty_char_digit x : (x < 10)%N →
  is_digit (pretty_N_char x) = true ∧ digit_value (pretty_N_char x) = Z.of_N x ∧
  ((0 < x)%N → pretty_N_char x ≠ "0"%char).
Proof.
  intros Hx. assert (x ∈ [0; 1; 2; 3; 4; 5; 6; 7; 8; 9]%N) as Hin.
  { rewrite !elem_of_cons, elem_of_nil. lia. }
  repeat (apply elem_of_cons in Hin as [->|Hin]; [split_and!; done|]). by apply elem_of_nil in Hin.
Qed.
(** The digits of a positive number, the first of them not zero. *)
Lemma pretty_digits x s : (0 < x)%N → ∃ c ds, pretty_N_go x s = String c ds +:+ s ∧ c ≠ "0"%char ∧
  str_forall is_digit (String c ds) = true ∧ digits_value (String c ds) = Z.of_N x.
Proof.
  revert s. induction (N.lt_wf_0 x) as [x _ IH]; intros s Hx. rewrite pretty_N_go_step by done.
  assert (x `mod` 10 < 10)%N as Hm by by apply N.mod_lt.
  destruct (pretty_char_digit _ Hm) as (Hd & Hv & Hz). destruct (decide (x < 10)%N) as [Hlt|Hge].
  - rewrite N.div_small, pretty_N_go_0 by done. rewrite N.mod_small in Hd, Hv, Hz |- * by done.
    exists (pretty_N_char x), "". split; [done|]. split; [by apply Hz|]. split; [cbn; by rewrite Hd|].
    unfold digits_value. cbn. rewrite Hv. lia.
  - destruct (IH (x `div` 10)%N) with (s := String (pretty_N_char (x `mod` 10)) s) as (c & ds & -> & Hc & Hall & Hval).
    { by apply N.div_lt. } { apply N.div_str_pos. lia. }
    exists c, (ds +:+ String (pretty_N_char (x `mod` 10)) ""). split; [|split; [done|split]].
    + by rewrite !str_cons_app, str_app_assoc.
    + rewrite <-str_cons_app, str_forall_app, Hall. cbn. by rewrite Hd.
    + rewrite <-str_cons_app. unfold digits_value in *. rewrite digits_value_from_app, Hval.
      cbn [digits_value_from]. rewrite Hv. rewrite N2Z.inj_div, N2Z.inj_mod. pose proof (Z.div_mod (Z.of_N x) 10). lia.
Qed.
Lemma positive_text p : ∃ c ds, pretty p = String c ds ∧ c ≠ "0"%char ∧
  str_forall is_digit (String c ds) = true ∧ digits_value (String c ds) = Z.pos p.
Proof.
  destruct (pretty_digits (N.pos p) "") as (c & ds & Hp & Hc & Hd & Hv); [done|]. exists c, ds. rewrite str_app_nil_r in Hp.
  split_and!; [|done..]. unfold pretty, pretty_positive, pretty, pretty_N. by rewrite decide_False by done.
Qed.
Lemma scan_digits neg c ds : c ≠ "0"%char → str_forall is_digit (String c ds) = true →
  ∃ n, scan_number ((if neg : bool then "-" else "") +:+ String c ds) = Some (n, "").
Proof.
  intros Hc Hd. assert (span_digits (String c ds) = (String c ds, "")) as Hspan.
  { clear Hc. revert Hd. generalize (String c ds). intros s. induction s as [|a s IH]; [done|]. cbn.
    intros [-> Hs%IH]%andb_prop. by rewrite Hs. }
  assert (is_digit c = true) as Hdc by (cbn in Hd; by destruct (is_digit c)).
  unfold scan_number. destruct neg.
  - change ("-" +:+ String c ds) with (String "-" (String c ds)). cbv iota beta.
    destruct c as [[] [] [] [] [] [] [] []]; try done; rewrite Hspan; by eexists.
  - change ("" +:+ String c ds) with (String c ds).
    destruct c as [[] [] [] [] [] [] [] []]; try done; rewrite Hspan; by eexists.
Qed.
Lemma encode_uint_number n : number_text (encode_uint n).
Proof.
  unfold encode_uint, pretty, pretty_Z. destruct n as [|p|p]; [by eexists|..];
    destruct (positive_text p) as (c & ds & -> & Hc & Hd & _).
  - by apply (scan_digits false).
  - by apply (scan_digits true).
Qed.
Lemma ParseUint_encode n : (0 ≤ n ≤ max_uint64)%Z → ParseUint (encode_uint n) = Some n.
Proof.
  intros Hn. unfold encode_uint, pretty, pretty_Z, ParseUint, all_digits. destruct n as [|p|p]; [done| |lia].
  destruct (positive_text p) as (c & ds & -> & _ & -> & ->). by rewrite (proj2 (Z.leb_le _ _)) by lia.
Qed.
Lemma ParseInt_encode n : in_int64 n = true → ParseInt (encode_uint n) = Some n.
Proof.
  intros Hn. unfold encode_uint, pretty, pretty_Z. destruct n as [|p|p]; [done|..];
    destruct (positive_text p) as (c & ds & -> & Hc & Hd & Hv).
  - unfold ParseInt, all_digits. assert (is_digit c = true) as Hdc by (cbn in Hd; by destruct (is_digit c)).
    destruct c as [[] [] [] [] [] [] [] []]; try done; by rewrite Hd, Hv, Hn.
  - change ("-" +:+ String c ds) with (String "-" (String c ds)). unfold ParseInt, all_digits. rewrite Hd, Hv.
    change (- Z.pos p)%Z with (Z.neg p). by rewrite Hn.
Qed.
Lemma uint_text d n : value_text d (encode_uint n) (JNumber (encode_uint n)).
Proof. apply number_value_text, encode_uint_number. Qed.

(** * Strings and times *)

(** What is left of a string after it has been written and read: a byte that is not part of a
    rune is replaced. *)
Fixpoint coerce (fuel : nat) (s : string) : string :=
  match fuel, s with
  | S fuel, String c s1 =>
      match rune_length s with
      | O => replacement +:+ coerce fuel s1
      | n => str_take n s +:+ coerce fuel (str_drop n s)
      end
  | _, _ => ""
  end.
Definition coerceUTF8 (s : string) : string := coerce (str_length s) s.

(** A string is empty or begins with a rune or with a byte that is none. *)
Lemma string_runes (P : string → Prop) :
  P "" → (∀ r s, is_rune r → P s → P (r +:+ s)) →
  (∀ c s, rune_length (String c s) = 0 → P s → P (String c s)) → ∀ s, P s.
Proof.
  intros Hnil Hrune Hbyte s. remember (str_length s) as n eqn:Hn. revert s Hn.
  induction (lt_wf n) as [n _ IH]; intros s ->. destruct s as [|c s]; [done|].
  destruct (decide (rune_length (String c s) = 0)) as [Hz|Hz].
  - apply Hbyte; [done|]. eapply IH; [|done]. rewrite str_length_cons. lia.
  - rewrite <-(str_take_drop (rune_length (String c s)) (String c s)). apply Hrune; [by apply rune_take|].
    eapply IH; [|done]. pose proof (f_equal str_length (str_take_drop (rune_length (String c s)) (String c s))) as Hl.
    rewrite str_length_app, str_length_take in Hl by apply rune_length_le. lia.
Qed.
Lemma rune_pos r : is_rune r → 1 ≤ str_length r.
Proof. intros [Hne _]. destruct r; [done|]. rewrite str_length_cons. lia. Qed.
Lemma coerce_rune fuel r s : is_rune r → coerce (S fuel) (r +:+ s) = r +:+ coerce fuel s.
Proof.
  intros Hr. pose proof (rune_prefix r s Hr) as Hl. pose proof (rune_pos r Hr).
  pose proof (str_take_app r s) as Ht. pose proof (str_drop_app r s) as Hd.
  destruct r as [|c r]; [by destruct Hr|]. rewrite str_cons_app in *. cbn [coerce]. rewrite Hl.
  destruct (str_length (String c r)) as [|n]; [lia|]. by rewrite Ht, Hd.
Qed.
Lemma coerce_byte fuel c s : rune_length (String c s) = 0 → coerce (S fuel) (String c s) = replacement +:+ coerce fuel s.
Proof. intros Hz. cbn [coerce]. by rewrite Hz. Qed.
Lemma coerce_fuel s : ∀ fuel, str_length s ≤ fuel → coerce fuel s = coerceUTF8 s.
Proof.
  unfold coerceUTF8. induction s as [|r s Hr IH|c s Hz IH] using string_runes; intros fuel Hf; [by destruct fuel|..].
  - pose proof (rune_pos r Hr). rewrite str_length_app in Hf |- *. destruct fuel as [|fuel]; [lia|].
    destruct (str_length r + str_length s) as [|n] eqn:Hn; [lia|]. rewrite !coerce_rune by done. rewrite (IH fuel), (IH n) by lia. done.
  - rewrite str_length_cons in Hf |- *. destruct fuel as [|fuel]; [lia|]. rewrite !coerce_byte by done. f_equal. apply IH. lia.
Qed.
Lemma coerce_app r s : is_rune r → coerceUTF8 (r +:+ s) = r +:+ coerceUTF8 s.
Proof.
  intros Hr. unfold coerceUTF8 at 1. pose proof (rune_pos r Hr). rewrite str_length_app.
  destruct (str_length r + str_length s) as [|n] eqn:Hn; [lia|]. rewrite coerce_rune by done. by rewrite coerce_fuel by lia.
Qed.
Lemma coerce_cons c s : rune_length (String c s) = 0 → coerceUTF8 (String c s) = replacement +:+ coerceUTF8 s.
Proof. intros Hz. by apply coerce_byte. Qed.
(** UTF-8 is kept, and is what every string becomes. *)
Lemma coerce_utf8 s : utf8 s → coerceUTF8 s = s.
Proof. induction 1 as [|r s Hr _ IH]; [done|]. by rewrite coerce_app, IH. Qed.
Lemma utf8_coerce s : utf8 (coerceUTF8 s).
Proof.
  induction s as [|r s Hr IH|c s Hz IH] using string_runes; [constructor|..].
  - rewrite coerce_app by done. by constructor.
  - rewrite coerce_cons by done. by constructor.
Qed.
Lemma coerce_idemp s : coerceUTF8 (coerceUTF8 s) = coerceUTF8 s.
Proof. apply coerce_utf8, utf8_coerce. Qed.

(** The encoder and the decoder on any string. *)
Lemma byte_not_ascii c s : rune_length (String c s) = 0 → html_safe c = false ∧ (byte_of c <? 128)%N = false.
Proof.
  intros Hz. destruct (byte_of c <? 128)%N eqn:Hc; [by rewrite rune_length_ascii in Hz|]. split; [|done].
  destruct (html_safe c) eqn:Hs; [|done]. apply html_safe_ascii in Hs. congruence.
Qed.
Lemma encode_chars_byte fuel c s : rune_length (String c s) = 0 →
  encode_chars (S fuel) (String c s) = "\ufffd" +:+ encode_chars fuel s.
Proof. intros Hz. destruct (byte_not_ascii _ _ Hz) as [Hs Hc]. cbn [encode_chars]. by rewrite Hs, Hc, Hz. Qed.
Lemma parse_replacement fuel t : parse_string (S fuel) ("\ufffd" +:+ t) = prepend replacement (parse_string fuel t).
Proof. destruct t; reflexivity. Qed.
Lemma parse_encoded_any s : ∀ fuel n x, str_length s ≤ n → str_length s < fuel →
  parse_string fuel (encode_chars n s +:+ String "034" x) = Some (coerceUTF8 s, x).
Proof.
  induction s as [|r s Hr IH|c s Hz IH] using string_runes; intros fuel n x Hn Hf.
  - destruct fuel; [lia|]. by destruct n.
  - pose proof (rune_pos r Hr). rewrite str_length_app in Hn, Hf. destruct n as [|n]; [lia|]. destruct fuel as [|fuel]; [lia|].
    rewrite encode_chars_rune, str_app_assoc, parse_rune, IH by (done || lia). by rewrite coerce_app.
  - rewrite str_length_cons in Hn, Hf. destruct n as [|n]; [lia|]. destruct fuel as [|fuel]; [lia|].
    rewrite encode_chars_byte, str_app_assoc, parse_replacement, IH by (done || lia). by rewrite coerce_cons.
Qed.
Lemma encode_chars_length_any s : ∀ n, str_length s ≤ n → str_length s ≤ str_length (encode_chars n s).
Proof.
  induction s as [|r s Hr IH|c s Hz IH] using string_runes; intros n Hn; [cbn; lia|..].
  - pose proof (rune_pos r Hr). rewrite str_length_app in Hn |- *. destruct n as [|n]; [lia|].
    rewrite encode_chars_rune, str_length_app by done. pose proof (encode_one_length r Hr). specialize (IH n). lia.
  - rewrite str_length_cons in Hn |- *. destruct n as [|n]; [lia|]. rewrite encode_chars_byte, str_length_app by done.
    change (str_length "\ufffd") with 6. specialize (IH n). lia.
Qed.
Lemma any_string_text d s : value_text d (encode_string s) (JString (coerceUTF8 s)).
Proof.
  unfold encode_string. apply (quote_text d). split; [by eexists|]. intros fuel x Hf.
  pose proof (encode_chars_length_any s (str_length s) (le_n _)). rewrite str_length_app in Hf. cbn in Hf.
  rewrite str_app_assoc. apply (parse_encoded_any s fuel _ x); [done|]. unfold str_length in *. lia.
Qed.
Lemma string_text d s : utf8 s → value_text d (encode_string s) (JString s).
Proof. intros Hs. rewrite <-(coerce_utf8 s Hs) at 2. apply any_string_text. Qed.

(** Characters that are written as they are. *)
Lemma plain_text s : str_forall html_safe s = true → utf8 s ∧ encode_chars (str_length s) s = s.
Proof.
  induction s as [|c s IH]; [by split; [constructor|]|]. cbn [str_forall]. intros [Hc [Hu He]%IH]%andb_prop.
  assert (is_rune (String c "")) as Hr.
  { split; [done|]. rewrite rune_length_ascii by by apply html_safe_ascii. done. }
  change (String c s) with (String c "" +:+ s). split; [by constructor|].
  rewrite encode_chars_app by done. rewrite He. cbn [encode_one]. by rewrite Hc.
Qed.
Lemma digits_plain s : str_forall is_digit s = true → str_forall html_safe s = true.
Proof.
  induction s as [|c s IH]; [done|]. cbn [str_forall]. intros [Hc ->%IH]%andb_prop. rewrite andb_true_r.
  destruct c as [[] [] [] [] [] [] [] []]; done.
Qed.
Lemma digits_digits width n : str_forall is_digit (digits width n) = true.
Proof.
  revert n. induction width as [|width IH]; intros n; [done|]. cbn [digits]. rewrite str_forall_app, IH. cbn.
  destruct (digit_char (n mod 10)) as [-> _]; [by apply Z.mod_pos_bound|done].
Qed.
Lemma formatTime_plain t : str_forall html_safe (formatTime t) = true.
Proof.
  unfold formatTime. destruct (civil _) as [[y m] d].
  assert (str_forall html_safe (year_text y) = true) as Hy.
  { unfold year_text. repeat case_match; rewrite ?str_forall_app, (digits_plain _ (digits_digits _ _)); done. }
  assert (str_forall html_safe (fraction (t mod second)) = true) as Hf.
  { unfold fraction. pose proof (trim_zeros_digits _ (digits_digits 9 (t mod second))) as Hd.
    destruct (trim_zeros _); [done|]. rewrite str_forall_app. by rewrite (digits_plain _ Hd). }
  rewrite !str_forall_app, Hy, Hf, !(digits_plain _ (digits_digits _ _)). done.
Qed.
Definition time_text (t : Time) : string := quote_mark +:+ formatTime t +:+ quote_mark.
Lemma time_value_text d t : value_text d (time_text t) (JString (formatTime t)).
Proof.
  destruct (plain_text _ (formatTime_plain t)) as [Hu He]. unfold time_text. rewrite <-He at 1. by apply string_text.
Qed.
Lemma time_text_inner t : str_take (str_length (time_text t) - 2) (str_drop 1 (time_text t)) = formatTime t.
Proof.
  unfold time_text. rewrite !str_length_app. change (str_length quote_mark) with 1.
  change (str_drop 1 (quote_mark +:+ ?x)) with (str_drop 0 x). 
  replace (1 + (str_length (formatTime t) + 1) - 2) with (str_length (formatTime t)) by lia.
  assert (∀ s, str_drop 0 s = s) as -> by by intros [].
  apply str_take_app.
Qed.

(** * Structs *)

(** A member: its name, its text and the value the text stands for. *)
Abbreviation text_member := (string * RawMessage * Json)%type.
Definition member_ok (d : nat) (m : text_member) : Prop := utf8 m.1.1 ∧ value_text d m.1.2 m.2.
Definition member_line (m : text_member) : string := encode_string m.1.1 +:+ ":" +:+ m.1.2.

Lemma member_key k : utf8 k → key_text (encode_string k +:+ ":") k.
Proof.
  intros Hk. split; [done|]. intros fuel x Hf Hx. unfold encode_string. rewrite !str_app_assoc. unfold parse_key.
  change (quote_mark +:+ encode_chars (str_length k) k +:+ ?x) with (String "034" (encode_chars (str_length k) k +:+ x)).
  change (skip_space (String "034" ?x)) with (String "034" x). cbv beta iota. rewrite str_length_app in Hf.
  rewrite parse_encoded_string by (done || lia).
  change (skip_space (":" +:+ ?x)) with (String ":" x). cbv beta iota. by rewrite Hx.
Qed.
Lemma member_line_split m x : member_line m +:+ x = (encode_string m.1.1 +:+ ":") +:+ m.1.2 +:+ x.
Proof. unfold member_line. by rewrite !str_app_assoc. Qed.
Lemma members_text_join d ms : ms ≠ [] → Forall (member_ok d) ms →
  members_text d (Join (member_line <$> ms) "," +:+ "}") (member_value <$> ms).
Proof.
  intros Hne Hall. induction Hall as [|m ms [Hk Hv] _ IH]; [done|]. destruct (decide (ms = [])) as [->|Hms].
  - cbn [fmap list_fmap Join]. rewrite member_line_split. 
    exact (member_last d m.1.1 _ m.1.2 "" m.2 (member_key _ Hk) Hv no_space).
  - cbn [fmap list_fmap]. rewrite Join_cons by (by destruct ms). rewrite str_app_assoc, member_line_split.
    exact (member_then d m.1.1 _ m.1.2 "" m.2 _ _ (member_key _ Hk) Hv no_space (IH Hms)).
Qed.
Definition struct_text (ms : list text_member) : string := "{" +:+ Join (member_line <$> ms) "," +:+ "}".
Lemma member_line_head m x : ∃ y, member_line m +:+ x = String "034" y.
Proof. by eexists. Qed.
Lemma join_head ms x : ms ≠ [] → ∃ y, Join (member_line <$> ms) "," +:+ x = String "034" y.
Proof.
  intros Hne. destruct ms as [|m ms]; [done|]. destruct (decide (ms = [])) as [->|Hms]; [apply member_line_head|].
  cbn [fmap list_fmap]. rewrite Join_cons by (by destruct ms). rewrite str_app_assoc. apply member_line_head.
Qed.
Lemma struct_value_text d ms : Forall (member_ok d) ms →
  value_text (S d) (struct_text ms) (JObject (to_map (member_value <$> ms))).
Proof.
  intros Hall. destruct (decide (ms = [])) as [->|Hne].
  - apply (empty_text d "" (JObject []) "{" "}"); [done|done|by right].
  - apply (object_text d "" _ _ (proj1 no_space) (members_text_join d ms Hne Hall)).
    + intros t. rewrite str_app_assoc. by destruct (join_head ms ("}" +:+ t) Hne) as (y & ->).
    + intros t. rewrite str_app_assoc. by destruct (join_head ms ("}" +:+ t) Hne) as (y & ->).
Qed.

Lemma raw_members_join d ms : ms ≠ [] → d ≤ max_nesting_depth → Forall (member_ok d) ms →
  ∀ fuel, length ms ≤ fuel → raw_members fuel (Join (member_line <$> ms) "," +:+ "}") = Some ms.
Proof.
  intros Hne Hd Hall. induction Hall as [|[[k c] v] ms [Hk Hv] _ IH]; [done|]. cbn [fst snd] in Hk, Hv.
  intros [|fuel] Hf; cbn [length] in Hf; [lia|]. cbn [raw_members].
  assert (∀ x, ends_number x = true → parse_value (parse_fuel (c +:+ x)) max_nesting_depth (c +:+ x) = Some (v, x)) as Hread.
  { intros x Hx. destruct Hv as [_ Hv]. apply Hv; [|done|done]. unfold parse_fuel. rewrite str_length_app. lia. }
  assert (∀ x, parse_key (S (str_length (member_line ((k, c), v) +:+ x))) (member_line ((k, c), v) +:+ x) = Some (k, c +:+ x)) as Hkey.
  { intros x. rewrite member_line_split. cbn [fst snd]. apply (member_key k Hk); [rewrite !str_length_app; lia|].
    by apply (value_text_starts d c v). }
  destruct (decide (ms = [])) as [->|Hms].
  - cbn [fmap list_fmap Join]. rewrite Hkey, Hread by done. cbn. by rewrite consumed_app.
  - cbn [fmap list_fmap]. rewrite Join_cons by (by destruct ms). rewrite str_app_assoc, Hkey, str_app_assoc.
    change ("," +:+ ?x) with (String "," x). rewrite Hread by done. change (skip_space (String "," ?x)) with (String "," x).
    cbv beta iota. rewrite consumed_app, IH by (done || lia). done.
Qed.
Lemma join_length ms : length ms ≤ str_length (Join (member_line <$> ms) ",").
Proof.
  induction ms as [|m ms IH]; [done|]. assert (1 ≤ str_length (member_line m)) by (unfold member_line, encode_string; rewrite !str_length_app; change (str_length quote_mark) with 1; lia).
  cbn [fmap list_fmap length]. destruct (decide (ms = [])) as [->|Hms]; [done|].
  rewrite Join_cons by (by destruct ms). rewrite !str_length_app. cbn [str_length String.length]. lia.
Qed.
Lemma struct_members d ms : d ≤ max_nesting_depth → Forall (member_ok d) ms → object_members (struct_text ms) = Some ms.
Proof.
  intros Hd Hall. rewrite object_members_step. unfold struct_text. destruct (decide (ms = [])) as [->|Hne]; [done|].
  change (after "{" (skip_space ("{" +:+ ?x))) with (Some x). cbv beta iota.
  pose proof (raw_members_join d ms Hne Hd Hall) as Hraw. pose proof (join_length ms) as Hlen.
  destruct (join_head ms "}" Hne) as (y & Hy).
  assert (skip_space (Join (member_line <$> ms) "," +:+ "}") = Join (member_line <$> ms) "," +:+ "}") as -> by by rewrite Hy.
  rewrite Hy at 1. change (after "}" (String "034" y)) with (@None string). cbv beta iota. apply Hraw.
  rewrite str_length_app. lia.
Qed.

(** * Fields *)

(** A field as the encoder has it, [None] when it is omitted, with the value its text decodes
    to. *)
Abbreviation text_entry := (string * option (RawMessage * Json * SimpleValue))%type.
Definition entry_text (e : text_entry) : string * option string := (e.1, (λ x, x.1.1) <$> e.2).
Definition entry_members (es : list text_entry) : list text_member :=
  omap (λ e : text_entry, (λ x, ((e.1, x.1.1), x.1.2)) <$> e.2) es.
Definition entry_ok (fields : list (string * SimpleKind)) (d : nat) (e : text_entry) : Prop :=
  utf8 e.1 ∧ match e.2 with
  | None => True
  | Some (c, v, value) => value_text d c v ∧
      ∃ kind, find_field fields e.1 = Some (e.1, kind) ∧ ∀ env, decode_simple env e.1 kind c v = Some (<[e.1 := value]> env)
  end.
Lemma encode_entries es : encode_struct (entry_text <$> es) = struct_text (entry_members es).
Proof.
  unfold encode_struct, struct_text. do 3 f_equal. unfold entry_members.
  induction es as [|[k [[[c v] value]|]] es IH]; [done| |exact IH]. cbn. by f_equal.
Qed.
Lemma entries_ok fields d es : Forall (entry_ok fields d) es → Forall (member_ok d) (entry_members es).
Proof.
  unfold entry_members. induction 1 as [|[k [[[c v] value]|]] es [Hk He] _ IH]; [constructor| |done].
  cbn. constructor; [|done]. split; [done|]. apply He.
Qed.
Lemma decode_entries fields d es : NoDup es.*1 → Forall (entry_ok fields d) es → ∀ env,
  ∃ env', decode_members fields decode_simple env (entry_members es) = Some env' ∧
    (∀ k x, (k, x) ∈ es → env' !! k = match x with Some x => Some x.2 | None => env !! k end) ∧
    (∀ k, k ∉ es.*1 → env' !! k = env !! k).
Proof.
  intros Hnd Hall. induction Hall as [|[k x] es [_ He] _ IH]; intros env.
  { exists env. split_and!; [done| |done]. by intros k x ?%elem_of_nil. }
  apply NoDup_cons in Hnd as [Hk Hnd]. cbn [fst snd] in *. specialize (IH Hnd).
  assert (∃ env1 env', decode_members fields decode_simple env (entry_members ((k, x) :: es)) =
      decode_members fields decode_simple env1 (entry_members es) ∧
    env1 = (match x with Some x => <[k := x.2]> env | None => env end) ∧
    decode_members fields decode_simple env1 (entry_members es) = Some env' ∧
    (∀ k x, (k, x) ∈ es → env' !! k = match x with Some x => Some x.2 | None => env1 !! k end) ∧
    (∀ k, k ∉ es.*1 → env' !! k = env1 !! k)) as (env1 & env' & -> & -> & -> & Hin & Hout).
  { destruct x as [[[c v] value]|]; cbn [entry_members omap list_omap fmap option_fmap option_map fst snd].
    - destruct He as (_ & kind & Hfind & Hdec). destruct (IH (<[k := value]> env)) as (env' & ? & ? & ?).
      eexists _, env'. split; [|by split_and!]. cbn. by rewrite Hfind, Hdec.
    - destruct (IH env) as (env' & ? & ? & ?). by exists env, env'. }
  exists env'. split; [done|]. split.
  - intros k' x' [[= -> ->]|Hk']%elem_of_cons.
    + rewrite Hout by done. destruct x as [x|]; [by rewrite lookup_insert_eq|done].
    + rewrite (Hin _ _ Hk'). destruct x' as [x'|]; [done|]. destruct x as [x|]; [|done].
      rewrite lookup_insert_ne; [done|]. intros ->. apply Hk. apply list_elem_of_fmap. by exists (k', None).
  - intros k' [Hne Hk']%not_elem_of_cons. rewrite Hout by done. destruct x as [x|]; [by rewrite lookup_insert_ne|done].
Qed.
(** A struct that was written is read back into the values of its fields. *)
Lemma decode_nested_entries fields d es : NoDup es.*1 → d ≤ max_nesting_depth → Forall (entry_ok fields d) es →
  ∃ env, decode_nested fields ∅ (encode_struct (entry_text <$> es)) = Some env ∧
    ∀ k x, (k, x) ∈ es → env !! k = snd <$> x.
Proof.
  intros Hnd Hd Hall. rewrite encode_entries. unfold decode_nested.
  rewrite (struct_members d _ Hd (entries_ok _ _ _ Hall)). destruct (decode_entries _ _ _ Hnd Hall ∅) as (env & Henv & Hin & _).
  exists env. split; [done|]. intros k x Hkx. rewrite (Hin k x Hkx). by destruct x.
Qed.

(** A struct inside a struct, with nothing else in it. *)
Lemma Unmarshal_one_struct outer k fields d es : utf8 k → find_field outer k = Some (k, StructPtr fields) →
  NoDup es.*1 → S (S d) ≤ max_nesting_depth → Forall (entry_ok fields d) es →
  ∃ env, Unmarshal_struct outer (encode_struct [(k, Some (encode_struct (entry_text <$> es)))]) =
      Some {[k := VStruct (Some env)]} ∧ ∀ k x, (k, x) ∈ es → env !! k = snd <$> x.
Proof.
  intros Hk Hfind Hnd Hd Hall. destruct (decode_nested_entries fields d es Hnd ltac:(lia) Hall) as (env & Henv & Hin).
  exists env. split; [|done]. pose proof (struct_value_text d _ (entries_ok _ _ _ Hall)) as Hinner.
  rewrite <-encode_entries in Hinner. set (c := encode_struct (entry_text <$> es)) in *.
  set (m := ((k, c), JObject (to_map (member_value <$> entry_members es))) : text_member).
  assert (Forall (member_ok (S d)) [m]) as Hm by (constructor; [split; [exact Hk|exact Hinner]|constructor]).
  change (encode_struct [(k, Some c)]) with (struct_text [m]).
  assert (raw_text (struct_text [m]) (JObject (to_map (member_value <$> [m])))) as [Hun _]%raw_text_Unmarshal.
  { eapply value_text_mono; [by apply struct_value_text|lia]. }
  unfold Unmarshal_struct. rewrite Hun, (struct_members (S d)) by (done || lia). subst m. cbn [mbind option_bind decode_members].
  rewrite Hfind. cbn [decode_field nested_fields]. rewrite lookup_empty. cbn [nested_fields]. by rewrite Henv.
Qed.
