(* ===== verification/ClosedFacts.v ===== *)
(** What typed decoding produces: a value of the type it decodes into, with UTF-8 strings, unsigned
    numbers in range and raw messages that are texts of values. *)
From S2P Require Import Prelude GoStrings GoJson JsonFacts GoEncode JsonText JsonRoundTrip JsonCut GoDecode GoClosed RawTexts.
From stdpp Require Import options.

(** * Typed values *)
Definition is_text (raw : RawMessage) : Prop := ∃ v, raw_text raw v.
Definition raw_ok (raw : RawMessage) : Prop := raw = "" ∨ is_text raw.

(** The fields of a struct have distinct names. *)
Fixpoint type_ok (t : GoType) : bool :=
  match t with
  | GoString | GoBool | GoRaw | GoCustom _ => true
  | GoUint bits => (0 <=? bits)%Z
  | GoPtr t | GoSlice t | GoMap t => type_ok t
  | GoStruct fields => bool_decide (NoDup fields.*1) && forallb (λ f, type_ok f.2) fields
  end.

(** Raw messages are at most [bound] bytes long. *)
Inductive has_type (bound : nat) : GoType → GoValue → Prop :=
| string_typed s : utf8 s → has_type bound GoString (StringValue s)
| bool_typed b : has_type bound GoBool (BoolValue b)
| uint_typed bits n : (0 ≤ n < 2 ^ bits)%Z → has_type bound (GoUint bits) (UintValue n)
| raw_typed raw : raw_ok raw → str_length raw ≤ bound → has_type bound GoRaw (RawValue raw)
| custom_typed accepts raw : raw_ok raw → str_length raw ≤ bound → (raw ≠ "" → accepts raw = true) → has_type bound (GoCustom accepts) (RawValue raw)
| nil_typed t : has_type bound (GoPtr t) (PtrValue None)
| ptr_typed t v : has_type bound t v → has_type bound (GoPtr t) (PtrValue (Some v))
| nil_slice_typed t : has_type bound (GoSlice t) NilSlice
| slice_typed t n storage : n ≤ length storage → Forall (has_type bound t) storage →
    has_type bound (GoSlice t) (SliceValue n storage)
| nil_map_typed t : has_type bound (GoMap t) (MapValue None)
| map_typed t m : Forall (λ kv, utf8 kv.1 ∧ has_type bound t kv.2) m → has_type bound (GoMap t) (MapValue (Some m))
| struct_typed fields values :
    Forall2 (λ f v, f.1 = v.1 ∧ has_type bound f.2 v.2) fields values → has_type bound (GoStruct fields) (StructValue values).

(** How long the text of a value may be whose raw messages are at most [bound] bytes long. *)
Definition reach (bound : nat) (t : GoType) : nat :=
  match t with GoSlice _ | GoMap _ | GoStruct _ => S bound | _ => bound end.

Lemma type_depth_field (fields : list (string * GoType)) f : f ∈ fields → type_depth f.2 < type_depth (GoStruct fields).
Proof.
  simpl. induction fields as [|[name' t'] fields IH]; [by intros ?%elem_of_nil|].
  intros [->|Hin]%elem_of_cons; simpl; [lia|]. specialize (IH Hin). lia.
Qed.
Lemma type_ok_field fields f : type_ok (GoStruct fields) = true → f ∈ fields → type_ok f.2 = true.
Proof.
  intros [_ Hf]%andb_prop Hin. rewrite forallb_Forall, Forall_forall in Hf. by apply Hf.
Qed.
Lemma type_ok_names fields : type_ok (GoStruct fields) = true → NoDup fields.*1.
Proof. by intros [Hf%bool_decide_eq_true _]%andb_prop. Qed.

Section typed.
Context (bound : nat).

Lemma zero_typed t : type_ok t = true → has_type bound t (zero_value t).
Proof.
  assert (∀ n t, type_depth t ≤ n → type_ok t = true → has_type bound t (zero_value t)) as Hgen; [|by apply (Hgen (type_depth t))].
  clear t. induction n as [|n IH]; intros t Hn Hok; [by destruct t; simpl in Hn; lia|].
  destruct t as [| |bits| |accepts|t|t|t|fields]; try (by repeat constructor; simpl; first [done|lia]).
  - constructor. apply Z.leb_le in Hok. pose proof (Z.pow_pos_nonneg 2 bits). lia.
  - constructor. assert (∀ f, f ∈ fields → has_type bound f.2 (zero_value f.2)) as Hall.
    { intros f Hf. pose proof (type_depth_field fields f Hf). apply IH; [lia|by eapply type_ok_field]. }
    clear - Hall. induction fields as [|[name t] fields IHf]; constructor.
    + split; [done|]. apply (Hall (name, t)). by left.
    + apply IHf. intros f Hf. apply Hall. by right.
Qed.

(** * Decoding keeps types *)
Lemma find_field_elem (fields : list (string * GoType)) key f : find_field fields key = Some f → f ∈ fields.
Proof.
  unfold find_field. destruct (List.find _ fields) as [f'|] eqn:Hf.
  - intros [= <-]. apply List.find_some in Hf as [Hf _]. by apply list_elem_of_In.
  - intros [Hin _]%List.find_some. by apply list_elem_of_In.
Qed.
Definition fields_typed (fields : list (string * GoType)) (values : list (string * GoValue)) : Prop :=
  Forall2 (λ f v, f.1 = v.1 ∧ has_type bound f.2 v.2) fields values.

Lemma field_typed fields values name t :
  fields_typed fields values → NoDup fields.*1 → (name, t) ∈ fields →
  ∃ v, field_value name (StructValue values) = Some v ∧ has_type bound t v.
Proof.
  unfold field_value. cbn [struct_members]. induction 1 as [|[n t'] [n' v] fields values [Hn Ht] _ IH].
  - by intros _ ?%elem_of_nil.
  - simpl in Hn, Ht. subst n'. cbn [fmap list_fmap fst]. intros [Hnew Hnd]%NoDup_cons [[= -> ->]|Hin]%elem_of_cons.
    + cbn [List.find fst]. rewrite bool_decide_true by done. by exists v.
    + cbn [List.find fst]. rewrite bool_decide_false; [by apply IH|]. intros ->. apply Hnew.
      apply list_elem_of_fmap. by exists (name, t).
Qed.
Lemma set_field_typed fields values name t v :
  fields_typed fields values → NoDup fields.*1 → (name, t) ∈ fields → has_type bound t v →
  fields_typed fields (set_field name v values).
Proof.
  intros Hall Hnd Hin Hv. unfold set_field. apply Forall2_fmap_r.
  assert (∀ f, f ∈ fields → f.1 = name → f.2 = t) as Heq.
  { intros [n t'] Hf Hn. simpl in Hn |- *. subst n.
    apply list_elem_of_lookup in Hin as [i Hi], Hf as [j Hj].
    assert (i = j) as ->; [|congruence]. apply (NoDup_lookup fields.*1 i j name); [done|..];
      rewrite list_lookup_fmap; [by rewrite Hi|by rewrite Hj]. }
  clear Hin Hnd. induction Hall as [|f x fields values [Hn Ht] _ IH]; constructor.
  - cbn. destruct (decide (x.1 = name)) as [Hx|Hx]; [|by split]. simpl. split; [congruence|]. rewrite Heq; [done|by left|congruence].
  - apply IH. intros f' Hf'. apply Heq. by right.
Qed.
Lemma set_entry_typed (P : string * GoValue → Prop) key v m : P (key, v) → Forall P m → Forall P (set_entry key v m).
Proof.
  intros Hv. induction 1 as [|[k old] m Hk Hm IH]; simpl; [by repeat constructor|].
  case_decide; [subst|]; by constructor.
Qed.

Section decode.
Variables (closed : bool) (decode : GoType → GoValue → RawMessage → option GoValue).
Definition raw_fits (raw : RawMessage) : Prop := is_Some (Unmarshal raw) ∧ str_length raw ≤ bound.
Hypothesis Hdecode : ∀ t old raw v, type_ok t = true → has_type bound t old → raw_fits raw →
  decode t old raw = Some v → has_type bound t v.

Lemma struct_members_typed fields members current values :
  type_ok (GoStruct fields) = true → fields_typed fields current →
  Forall (λ m : string * RawMessage * Json, raw_fits m.1.2) members →
  decode_struct_members closed decode fields current members = Some values → fields_typed fields values.
Proof using Hdecode.
  intros Hok Hcurrent Hmembers. revert current Hcurrent.
  induction Hmembers as [|[[key raw] w] members Hraw _ IH]; intros current Hcurrent; simpl; [by intros [= <-]|].
  destruct (find_field fields key) as [[name t]|] eqn:Hf; [|destruct closed; [done|by apply IH]].
  apply find_field_elem in Hf. pose proof (type_ok_names _ Hok) as Hnd.
  destruct (field_typed _ _ _ _ Hcurrent Hnd Hf) as (old & -> & Hold). cbn.
  destruct (decode t old raw) as [v|] eqn:Hv; [|done]. cbn. apply IH.
  apply (set_field_typed _ _ _ t); [done..|]. apply (Hdecode t old raw); [|done..]. by apply (type_ok_field _ _ Hok Hf).
Qed.
Lemma slice_elements_typed t elements : ∀ i storage values,
  type_ok t = true → Forall (has_type bound t) storage → i ≤ length storage →
  Forall raw_fits elements →
  decode_slice_elements decode t i elements storage = Some values →
  Forall (has_type bound t) values ∧ i + length elements ≤ length values.
Proof using Hdecode.
  induction elements as [|raw elements IH]; intros i storage values Ht Hs Hi Hraws; simpl.
  { intros [= <-]. split; [done|lia]. }
  inversion Hraws as [|? ? Hraw Hraws']; subst.
  set (storage' := if decide (i < length storage) then storage else storage ++ [zero_value t]).
  assert (Forall (has_type bound t) storage' ∧ i < length storage') as [Hs' Hi'].
  { unfold storage'. case_decide; [by split|]. rewrite Forall_app, length_app. simpl. split; [|lia].
    split; [done|]. constructor; [by apply zero_typed|constructor]. }
  destruct (storage' !! i) as [old|] eqn:Hold; [|done]. cbn.
  destruct (decode t old raw) as [v|] eqn:Hv; [|done]. cbn. intros Hrest. apply IH in Hrest; [|done| |by rewrite length_insert|done].
  - split; [apply Hrest|]. lia.
  - apply Forall_insert; [done|]. apply (Hdecode t old raw); [done| |done..].
    by apply (Forall_lookup_1 _ _ _ _ Hs' Hold).
Qed.
Lemma map_entries_typed t members : ∀ m values, type_ok t = true →
  Forall (λ kv : string * GoValue, utf8 kv.1 ∧ has_type bound t kv.2) m →
  Forall (λ m : string * RawMessage * Json, utf8 m.1.1 ∧ raw_fits m.1.2) members →
  decode_map_entries decode t m members = Some values →
  Forall (λ kv : string * GoValue, utf8 kv.1 ∧ has_type bound t kv.2) values.
Proof using Hdecode.
  induction members as [|[[key raw] w] members IH]; intros m values Ht Hm Hall; simpl; [by intros [= <-]|].
  inversion Hall as [|? ? [Hkey Hraw] Hall']; subst.
  destruct (decode t (zero_value t) raw) as [v|] eqn:Hv; [|done]. cbn. apply IH; [done| |done].
  apply set_entry_typed; [|done]. split; [done|]. simpl. apply (Hdecode t (zero_value t) raw); [done| |done..].
  by apply zero_typed.
Qed.
End decode.

Lemma ParseUint_nonneg s n : ParseUint s = Some n → (0 ≤ n)%Z.
Proof.
  unfold ParseUint, all_digits, digits_value. destruct (str_forall is_digit s) eqn:Hs; [|by rewrite andb_false_r].
  intros Hn. assert (n = digits_value_from 0 s) as -> by (by case_match; [injection Hn as <-|]). clear Hn.
  assert (∀ acc, (0 ≤ acc)%Z → (0 ≤ digits_value_from acc s)%Z) as Hgen; [|by apply Hgen].
  induction s as [|c s IH]; intros acc Hacc; [done|]. simpl in *. apply andb_prop in Hs as [Hc Hs].
  apply IH; [done|]. unfold is_digit, in_range in Hc. apply andb_prop in Hc as [Hc%N.leb_le _].
  unfold digit_value. lia.
Qed.

Lemma member_raws_fit n ms : n ≤ S bound → Forall (member_text_ok n) ms →
  Forall (λ m : string * RawMessage * Json, utf8 m.1.1 ∧ raw_fits m.1.2) ms.
Proof.
  intros Hn Hms. eapply Forall_impl; [exact Hms|]. intros x (Hk & Hx & Hlen). split; [done|].
  apply raw_text_Unmarshal in Hx as [Hx _]. split; [by eexists|lia].
Qed.
Lemma decode_into_typed closed fuel t old raw v :
  type_ok t = true → has_type bound t old → str_length raw ≤ reach bound t →
  decode_into closed fuel t old raw = Some v → has_type bound t v.
Proof.
  revert t old raw v. induction fuel as [|fuel IH]; intros t old raw v Hok Hold Hlen; [done|]. cbn [decode_into].
  destruct (Unmarshal raw) as [w|] eqn:Hu; [|by destruct t].
  pose proof (Unmarshal_raw_text _ _ Hu) as [Htext _]. pose proof (Unmarshal_wf _ _ Hu) as [Hwf _].
  pose proof (trim_json_length _ _ Hu) as Htrim.
  assert (∀ t old raw v, type_ok t = true → has_type bound t old → raw_fits raw →
    decode_into closed fuel t old raw = Some v → has_type bound t v) as Hdecode.
  { intros t' old' raw' v' Ht' Hold' [_ Hl]. apply IH; [done..|]. destruct t'; simpl; lia. }
  destruct t as [| |bits| |accepts|t|t|t|fields]; cbn [reach] in Hlen.
  - destruct w; try (by intros [= <-]); try done. intros [= <-]. constructor. by inversion Hwf.
  - destruct w; try (by intros [= <-]); try done. intros [= <-]. constructor.
  - destruct w as [| |lit| | |]; try (by intros [= <-]); try done.
    destruct (ParseUint lit) as [n|] eqn:Hn; [|done]. apply ParseUint_nonneg in Hn. simpl. case_decide; [|done].
    intros [= <-]. by constructor.
  - intros [= <-]. constructor; [right; by exists w|lia].
  - destruct (accepts (trim_json raw)) eqn:Ha; [|done]. intros [= <-]. constructor; [right; by exists w|lia|done].
  - assert (PtrValue ∘ Some <$> decode_into closed fuel t (pointed_value t old) raw = Some v → has_type bound (GoPtr t) v) as Hptr.
    { destruct (decode_into closed fuel t (pointed_value t old) raw) as [x|] eqn:Hx; [|done].
      intros [= <-]. constructor. apply (Hdecode t) in Hx; [done..| |by split].
      inversion Hold; subst; simpl; [by apply zero_typed|done]. }
    destruct w; [intros [= <-]; constructor|exact Hptr..].
  - destruct w as [| | | |l|]; try done; [intros [= <-]; constructor|].
    apply array_elements_text in Hu as (raws & -> & Hraws). cbn.
    destruct (decode_slice_elements _ _ _ _ _) as [storage|] eqn:Hs; [|done]. cbn. intros [= <-].
    eapply slice_elements_typed in Hs as [Hs Hlens]; [|exact Hdecode|done| |lia|].
    + case_decide; [by repeat constructor|]. constructor; [lia|done].
    + inversion Hold; subst; simpl; [constructor|done].
    + clear - Hraws Hlen. induction Hraws as [|x y l k [Hx ?] _ IHr]; constructor; [|done].
      apply raw_text_Unmarshal in Hx as [Hx _]. split; [by eexists|lia].
  - destruct w as [| | | | |m]; try done; [intros [= <-]; constructor|].
    apply object_members_text in Hu as (ms & -> & _ & Hms). cbn.
    destruct (decode_map_entries _ _ _ _) as [entries|] eqn:He; [|done]. intros [= <-]. constructor.
    eapply map_entries_typed in He; [done|exact Hdecode|done| |by eapply member_raws_fit].
    inversion Hold; subst; simpl; [constructor|done].
  - destruct w as [| | | | |m]; try done; [by intros [= <-]|].
    apply object_members_text in Hu as (ms & -> & _ & Hms). cbn.
    destruct (decode_struct_members _ _ _ _ _) as [values|] eqn:He; [|done]. intros [= <-]. constructor.
    eapply struct_members_typed in He; [exact He|exact Hdecode|done| |].
    + by inversion Hold; subst.
    + eapply Forall_impl; [by eapply member_raws_fit|]. by intros x [_ ?].
Qed.
Lemma decodeClosedJSON_typed t raw v : type_ok t = true → str_length raw ≤ reach bound t →
  decodeClosedJSON t raw = Some v → has_type bound t v.
Proof. intros Ht. apply decode_into_typed; [done|]. by apply zero_typed. Qed.
Lemma UnmarshalInto_typed t raw v : type_ok t = true → str_length raw ≤ reach bound t →
  UnmarshalInto t raw = Some v → has_type bound t v.
Proof. intros Ht. apply decode_into_typed; [done|]. by apply zero_typed. Qed.

(** * What is read off typed values *)
Definition field_type (fields : list (string * GoType)) (name : string) : option GoType :=
  snd <$> List.find (λ f, bool_decide (f.1 = name)) fields.
Lemma field_value_typed fields values name t : has_type bound (GoStruct fields) values → field_type fields name = Some t →
  ∃ v, field_value name values = Some v ∧ has_type bound t v.
Proof.
  intros Hs. inversion Hs as [| | | | | | | | | | |? vs Hall]; subst. unfold field_type, field_value.
  cbn [struct_members]. clear Hs. induction Hall as [|f x fs vs [Hn Ht] _ IH]; [done|]. cbn [List.find].
  rewrite <-Hn. destruct (bool_decide (f.1 = name)); [|done]. intros [= <-]. by exists x.2.
Qed.
Lemma field_value_some fields values name v : has_type bound (GoStruct fields) values → field_value name values = Some v →
  ∃ t, field_type fields name = Some t ∧ has_type bound t v.
Proof.
  intros Hs. inversion Hs as [| | | | | | | | | | |? vs Hall]; subst. unfold field_type, field_value.
  cbn [struct_members]. clear Hs. induction Hall as [|f x fs vs [Hn Ht] _ IH]; [done|]. cbn [List.find].
  rewrite <-Hn. destruct (bool_decide (f.1 = name)); [|done]. intros [= <-]. by exists f.2.
Qed.
Lemma string_utf8 t v : has_type bound t v → utf8 (go_string (Some v)).
Proof. destruct 1; simpl; try constructor. done. Qed.
Lemma read_raw_ok t v : has_type bound t v → raw_ok (go_raw (Some v)).
Proof. destruct 1; simpl; try (by left); done. Qed.
Lemma read_raw_length t v : has_type bound t v → str_length (go_raw (Some v)) ≤ bound.
Proof. destruct 1; simpl; lia. Qed.
Lemma uint_nonneg t v : has_type bound t v → (0 ≤ go_uint (Some v))%Z.
Proof. destruct 1; simpl; lia. Qed.
Lemma elements_typed t v : has_type bound (GoSlice t) v → Forall (has_type bound t) (go_elements (Some v)).
Proof. inversion 1; subst; simpl; [constructor|by apply Forall_take]. Qed.
Lemma pointer_typed t v x : has_type bound (GoPtr t) v → go_pointer (Some v) = Some x → has_type bound t x.
Proof. inversion 1; subst; simpl; [done|]. by intros [= ->]. Qed.
Lemma map_entries_lookup t v m key x : has_type bound (GoMap t) v → go_map (Some v) = Some m → m !! key = Some x →
  utf8 key ∧ has_type bound t x.
Proof.
  inversion 1 as [| | | | | | | | | |? l Hl|]; subst; simpl; [done|]. intros [= <-] Hx.
  apply elem_of_list_to_map_2 in Hx. rewrite Forall_forall in Hl. by apply (Hl (key, x)).
Qed.

End typed.

(** * A string field does not depend on the fields beside it *)
Lemma find_field_fold (fields : list (string * GoType)) name t key :
  NoDup (foldName <$> fields.*1) → (name, t) ∈ fields →
  find_field fields key = Some (name, t) ↔ foldName key = foldName name.
Proof.
  intros Hnd Hin.
  assert (∀ f, f ∈ fields → foldName f.1 = foldName name → f = (name, t)) as Huniq.
  { intros f Hf Heq. apply list_elem_of_lookup in Hin as [i Hi], Hf as [j Hj].
    assert (i = j) as ->; [|congruence].
    apply (NoDup_lookup (foldName <$> fields.*1) i j (foldName name)); [done|..];
      rewrite !list_lookup_fmap; [by rewrite Hi|by rewrite Hj, <-Heq]. }
  split.
  - unfold find_field. destruct (List.find _ fields) as [f|] eqn:Hf.
    + intros [= ->]. apply List.find_some in Hf as [_ Hf%bool_decide_eq_true_1]. by simpl in Hf; subst.
    + intros [_ Hg%bool_decide_eq_true_1]%List.find_some. by simpl in Hg.
  - intros Hkey. unfold find_field. destruct (List.find (λ f, bool_decide (f.1 = key)) fields) as [f|] eqn:Hf.
    + f_equal. apply List.find_some in Hf as [Hf%list_elem_of_In Hname%bool_decide_eq_true_1].
      apply Huniq; [done|]. by rewrite Hname.
    + destruct (List.find (λ f, bool_decide (foldName f.1 = foldName key)) fields) as [f|] eqn:Hg.
      * f_equal. apply List.find_some in Hg as [Hg%list_elem_of_In Hname%bool_decide_eq_true_1].
        apply Huniq; [done|]. by rewrite Hname.
      * exfalso. apply list_elem_of_In in Hin. pose proof (List.find_none _ _ Hg _ Hin) as Hno.
        apply bool_decide_eq_false_1 in Hno. by apply Hno.
Qed.
Lemma field_value_set name n v values :
  field_value name (StructValue (set_field n v values)) =
  if decide (n = name) then (λ _, v) <$> field_value name (StructValue values) else field_value name (StructValue values).
Proof.
  unfold field_value, set_field. cbn [struct_members]. induction values as [|[m x] values IH]; [by case_decide|].
  cbn [fmap list_fmap]. destruct (decide (m = n)) as [->|Hmn]; cbn [List.find fst].
  - rewrite decide_True by done. cbn [List.find fst]. case_decide as Hn.
    + subst n. by rewrite bool_decide_true.
    + by rewrite bool_decide_false.
  - rewrite decide_False by done. cbn [List.find fst]. case_decide as Hn.
    + subst n. by rewrite bool_decide_false.
    + by destruct (bool_decide (m = name)).
Qed.

(** The last text that is not [null]. *)
Fixpoint last_string (name : string) (old : option GoValue) (members : list (string * RawMessage * Json)) : option GoValue :=
  match members with
  | [] => old
  | (key, raw, _) :: members =>
      last_string name
        (if decide (foldName key = foldName name) then
           match Unmarshal raw with Some (JString s) => (λ _, StringValue s) <$> old | _ => old end
         else old) members
  end.
Lemma decode_string_field closed fuel fields name members : ∀ current values,
  NoDup (foldName <$> fields.*1) → (name, GoString) ∈ fields →
  decode_struct_members closed (decode_into closed fuel) fields current members = Some values →
  field_value name (StructValue values) = last_string name (field_value name (StructValue current)) members.
Proof.
  intros current values Hnd Hin. revert current. induction members as [|[[key raw] w] members IH]; intros current;
    cbn [decode_struct_members last_string].
  { by intros [= <-]. }
  pose proof (find_field_fold fields name GoString key Hnd Hin) as Hfold.
  destruct (find_field fields key) as [[n t]|] eqn:Hf.
  - destruct (field_value n (StructValue current)) as [old|] eqn:Hold; [|done]. cbn [mbind option_bind].
    destruct (decode_into closed fuel t old raw) as [v|] eqn:Hv; [|done]. cbn [mbind option_bind]. intros ->%IH. f_equal.
    rewrite field_value_set. destruct (decide (n = name)) as [->|Hn].
    + assert (t = GoString) as ->.
      { apply find_field_elem in Hf. apply list_elem_of_lookup in Hin as [i Hi], Hf as [j Hj].
        assert (i = j) as ->; [|congruence].
        apply (NoDup_lookup (foldName <$> fields.*1) i j (foldName name)); [done|..];
          rewrite !list_lookup_fmap; [by rewrite Hi|by rewrite Hj]. }
      rewrite decide_True by by apply Hfold. rewrite Hold. destruct fuel as [|fuel]; [done|]. cbn [decode_into] in Hv.
      destruct (Unmarshal raw) as [[]|]; simplify_eq/=; done.
    + rewrite decide_False; [done|]. intros Heq%Hfold. congruence.
  - destruct closed; [done|]. intros ->%IH. f_equal. rewrite decide_False; [done|]. by intros Heq%Hfold.
Qed.
Lemma string_field_agrees fields fields' name raw w w' :
  NoDup (foldName <$> fields.*1) → (name, GoString) ∈ fields →
  NoDup (foldName <$> fields'.*1) → (name, GoString) ∈ fields' →
  decodeClosedJSON (GoStruct fields) raw = Some w → UnmarshalInto (GoStruct fields') raw = Some w' →
  go_string (field_value name w) = go_string (field_value name w').
Proof.
  intros Hnd Hin Hnd' Hin'. unfold decodeClosedJSON, UnmarshalInto. cbn [type_depth]. cbn [decode_into].
  assert (∀ fs, NoDup (foldName <$> fs.*1) → (name, GoString) ∈ fs →
    field_value name (zero_value (GoStruct fs)) = Some (StringValue "")) as Hzero.
  { intros fs Hfs Hf. unfold field_value. cbn [zero_value struct_members]. clear - Hfs Hf.
    induction fs as [|[n t] fs IH]; [by apply elem_of_nil in Hf|]. cbn [fmap list_fmap List.find fst].
    cbn [fmap list_fmap fst] in Hfs. apply NoDup_cons in Hfs as [Hn Hfs].
    apply elem_of_cons in Hf as [[= <- <-]|Hf]; [by rewrite bool_decide_true|].
    rewrite bool_decide_false; [by apply IH|]. intros ->. apply Hn. apply list_elem_of_fmap. exists name.
    split; [done|]. apply list_elem_of_fmap. by exists (name, GoString). }
  pose proof (Hzero _ Hnd Hin) as H1. pose proof (Hzero _ Hnd' Hin') as H2. cbn [zero_value] in H1, H2.
  destruct (Unmarshal raw) as [v|] eqn:Hu; [|done]. destruct v; try done.
  - intros [= <-] [= <-]. cbn [zero_value]. by rewrite H1, H2.
  - destruct (object_members raw) as [ms|]; [|done]. cbn.
    destruct (decode_struct_members true _ fields _ ms) as [x|] eqn:Hx; [|done].
    destruct (decode_struct_members false _ fields' _ ms) as [y|] eqn:Hy; [|done]. intros [= <-] [= <-].
    apply (decode_string_field _ _ _ name) in Hx, Hy; [|done..]. rewrite Hx, Hy.
    cbn [zero_value struct_members]. by rewrite H1, H2.
Qed.
