(* ===== verification/RunContext.v ===== *)
(** Durable execution contexts of runs: [runtime/src/ports/statestore/run_execution_context.go]
    and [runtime/src/adapters/statestore/sqlite/run_execution_contexts.go] on the table of
    migration [0020_run_execution_contexts.sql].

    A row keeps the encoded maps as values: [json.Marshal] of a map of canonical raw messages
    and decoding it again give the same map. The frame snapshot is kept as a value too; its
    wire form is not modelled. The transaction makes a save one atomic step. *)
From S2P Require Import Prelude GoStrings GoJson JsonFacts GoEncode JsonText JsonRoundTrip Schema Identity Frame StateStore.
From stdpp Require Import options.

Definition RunExecutionContextSchemaVersion : Z := 1.

(** * Data *)
Record ContentSection := {
  cs_ID : string; cs_WhenKind : string; cs_WhenInput : string; cs_Instructions : string;
}.
Record ContentDocument := {
  cd_Kind : string; cd_Content : string; cd_RequiredHeadings : list string;
  cd_Instructions : string; cd_Sections : list ContentSection;
}.
Record ContentVersion := {
  cv_Reference : ContentReference; cv_Document : ContentDocument; cv_CreatedAt : Time;
}.
#[global] Instance ContentReference_eq_dec : EqDecision ContentReference.
Proof. solve_decision. Defined.
#[global] Instance ContentSection_eq_dec : EqDecision ContentSection.
Proof. solve_decision. Defined.
#[global] Instance ContentDocument_eq_dec : EqDecision ContentDocument.
Proof. solve_decision. Defined.
#[global] Instance ContentVersion_eq_dec : EqDecision ContentVersion.
Proof. solve_decision. Defined.
#[global] Instance ExtensionRef_eq_dec : EqDecision ExtensionRef.
Proof. solve_decision. Defined.
#[global] Instance FrameSnapshot_eq_dec : EqDecision FrameSnapshot.
Proof. solve_decision. Defined.

(** What the digest covers: every field but the revision and the digest. *)
Record runExecutionContextContent := {
  xc_PromptSnapshots : gmap string ContentVersion;
  xc_Provider : string;
  xc_ExtensionPins : gmap string ExtensionRef;
  xc_SchemaVersion : Z;
  xc_RunID : string;
  xc_RunInputs : gmap string RawMessage;
  xc_AcceptedOutputs : gmap string (gmap string RawMessage);
  xc_FrameSnapshot : FrameSnapshot;
}.
Record RunExecutionContext := {
  xc_content : runExecutionContextContent;
  xc_Revision : Z;
  xc_Digest : string;
}.
#[global] Instance content_eq_dec : EqDecision runExecutionContextContent.
Proof. solve_decision. Defined.
#[global] Instance RunExecutionContext_eq_dec : EqDecision RunExecutionContext.
Proof. solve_decision. Defined.

(** The content with other outputs, another frame and other inputs. *)
Definition content_with (content : runExecutionContextContent)
    (outputs : gmap string (gmap string RawMessage)) (frame : FrameSnapshot)
    (inputs : gmap string RawMessage) : runExecutionContextContent := {|
  xc_PromptSnapshots := xc_PromptSnapshots content; xc_Provider := xc_Provider content;
  xc_ExtensionPins := xc_ExtensionPins content; xc_SchemaVersion := xc_SchemaVersion content;
  xc_RunID := xc_RunID content; xc_RunInputs := inputs;
  xc_AcceptedOutputs := outputs; xc_FrameSnapshot := frame;
|}.

(** ** Errors *)
Inductive context_error :=
| ContextInvalid (message : msg)
| ContextNotFound
| ContextRevisionConflict (runID : string) (expected actual : Z)
| ContextWriteFailed (runID : string).
Abbreviation cresult := (result context_error).
Definition context_invalid {A} (format : string) (args : list msg_arg) : cresult A :=
  Err (ContextInvalid (Msg format args)).
#[global] Instance context_error_eq_dec : EqDecision context_error.
Proof. solve_decision. Defined.

(** * Canonical JSON *)
Definition normalizeJSON (raw : RawMessage) : option RawMessage := Marshal <$> Unmarshal raw.

Definition valid_name (name : string) : bool :=
  bool_decide (TrimSpace name ≠ "") && bool_decide (TrimSpace name = name).

Definition normalize_entry (kind : string) (m : gmap string RawMessage) (entry : string * RawMessage)
  : cresult (gmap string RawMessage) :=
  if negb (valid_name entry.1) then context_invalid "%s requires a valid name" [AStr kind]
  else
    match normalizeJSON entry.2 with
    | None => context_invalid "%s %q contains invalid JSON" [AStr kind; AStr entry.1]
    | Some encoded => Ok (<[entry.1 := encoded]> m)
    end.
Definition normalizeRawMap `{!GoRange} (values : gmap string RawMessage) (kind : string)
  : cresult (gmap string RawMessage) :=
  foldM (normalize_entry kind) ∅ (range_map "normalizeRawMap" values).

(** * Normalization *)

(** The content library promises to check a published version against its identifier. *)
Class ContentLibrary := {
  validateContentVersion : ContentVersion → string → result msg unit;
}.

(** [sha256] of the encoding of the content, in hexadecimal. *)
Class ContentDigest := {
  content_digest : runExecutionContextContent → string;
}.

Section normalize.
Context `{!GoRange, !ContentLibrary}.

Definition check_snapshot (entry : string * ContentVersion) : cresult unit :=
  if blank entry.1 || negb (bool_decide (cd_Kind (cv_Document entry.2) = "prompt"))
  then context_invalid "prompt snapshots require a node name and prompt document" []
  else
    match validateContentVersion entry.2 (cr_ID (cv_Reference entry.2)) with
    | Ok _ => Ok tt
    | Err e => Err (ContextInvalid e)
    end.
Definition check_pin (entry : string * ExtensionRef) : cresult unit :=
  if decide (entry.1 = "") then context_invalid "extension pin name is required" []
  else if negb (valid_extension_ref entry.2)
  then context_invalid
         "EXTENSION_INVALID_REF: expected namespaced ID, exact version, and SHA-256 digest" []
  else Ok tt.

Definition valid_run_id (runID : string) : bool :=
  HasPrefix runID "run_" && bool_decide (TrimSpace runID = runID) && bool_decide (runID ≠ "run_").

Definition normalize_outputs (m : gmap string (gmap string RawMessage))
    (entry : string * gmap string RawMessage) : cresult (gmap string (gmap string RawMessage)) :=
  if negb (valid_name entry.1) then context_invalid "accepted output requires a valid node ID" []
  else
    let? normalized := normalizeRawMap entry.2 "accepted output" in
    Ok (<[entry.1 := normalized]> m).

Definition normalizeRunExecutionContext (value : runExecutionContextContent)
  : cresult runExecutionContextContent :=
  let? _ := forM_ check_snapshot (range_map "normalize.prompts" (xc_PromptSnapshots value)) in
  let? _ := forM_ check_pin (range_map "normalize.pins" (xc_ExtensionPins value)) in
  if decide (xc_SchemaVersion value ≠ RunExecutionContextSchemaVersion)
  then context_invalid "unsupported run execution context schema version %d"
         [AInt (xc_SchemaVersion value)]
  else if negb (valid_run_id (xc_RunID value))
  then context_invalid "run execution context requires a valid run ID" []
  else
    let? inputs := normalizeRawMap (xc_RunInputs value) "run input" in
    let? outputs := foldM normalize_outputs ∅ (range_map "normalize.outputs" (xc_AcceptedOutputs value)) in
    Ok {| xc_PromptSnapshots := xc_PromptSnapshots value; xc_Provider := xc_Provider value;
          xc_ExtensionPins := xc_ExtensionPins value; xc_SchemaVersion := xc_SchemaVersion value;
          xc_RunID := xc_RunID value; xc_RunInputs := inputs; xc_AcceptedOutputs := outputs;
          xc_FrameSnapshot := xc_FrameSnapshot value |}.
End normalize.

(** * The table *)
Abbreviation context_table := (gmap string RunExecutionContext).

Section table.
Context `{!GoRange, !ContentLibrary, !ContentDigest}.

Definition scanRunExecutionContext (row : RunExecutionContext) : cresult RunExecutionContext :=
  let? normalized := normalizeRunExecutionContext (xc_content row) in
  if bool_decide (xc_Revision row = 0%Z) || negb (bool_decide (xc_Digest row = content_digest normalized))
  then context_invalid "run execution context failed integrity validation" []
  else Ok {| xc_content := normalized; xc_Revision := xc_Revision row; xc_Digest := xc_Digest row |}.

Definition ReadRunExecutionContext (rows : context_table) (runID : string)
  : cresult RunExecutionContext :=
  match rows !! runID with
  | None => Err ContextNotFound
  | Some row => scanRunExecutionContext row
  end.

(** The [switch] on the current row. *)
Definition check_current_row (current : option RunExecutionContext)
    (normalized : runExecutionContextContent) (expected : Z) : cresult unit :=
  match current with
  | None =>
      if decide (expected ≠ 0%Z)
      then Err (ContextRevisionConflict (xc_RunID normalized) expected 0) else Ok tt
  | Some row =>
      let existing := xc_content row in
      if decide (xc_Revision row ≠ expected)
      then Err (ContextRevisionConflict (xc_RunID normalized) expected (xc_Revision row))
      else if decide (xc_Provider existing ≠ xc_Provider normalized)
      then context_invalid "run provider selection is immutable" []
      else if decide (xc_ExtensionPins existing ≠ xc_ExtensionPins normalized)
      then context_invalid "run extension pins are immutable" []
      else if decide (xc_PromptSnapshots existing ≠ xc_PromptSnapshots normalized)
      then context_invalid "run prompt snapshots are immutable" []
      else if decide (xc_RunInputs existing ≠ xc_RunInputs normalized)
      then context_invalid "run execution inputs are immutable" []
      else Ok tt
  end.

(** A revision is stored as a positive signed integer. *)
Definition storable_revision (revision : Z) : bool := (1 <=? revision)%Z && (revision <=? max_int64)%Z.

(** [runs] are the run aggregates: a context is inserted for one of them. *)
Definition SaveRunExecutionContext (runs : gset string) (rows : context_table)
    (value : runExecutionContextContent) (expectedRevision : Z)
  : context_table * cresult RunExecutionContext :=
  let saved :=
    let? normalized := normalizeRunExecutionContext value in
    let runID := xc_RunID normalized in
    let current := rows !! runID in
    let? _ := check_current_row current normalized expectedRevision in
    let row := {| xc_content := normalized; xc_Revision := uint64 (expectedRevision + 1);
                  xc_Digest := content_digest normalized |} in
    if negb (storable_revision (xc_Revision row)) ||
       (bool_decide (current = None) && negb (bool_decide (runID ∈ runs)))
    then Err (ContextWriteFailed runID)
    else
      let? result := scanRunExecutionContext row in
      Ok (<[runID := row]> rows, result) in
  match saved with
  | Ok (rows, result) => (rows, Ok result)
  | Err e => (rows, Err e)
  end.
End table.

(** * Normalization is idempotent *)
Lemma normalizeJSON_idemp raw encoded :
  normalizeJSON raw = Some encoded → normalizeJSON encoded = Some encoded.
Proof.
  unfold normalizeJSON. destruct (Unmarshal raw) as [v|] eqn:Hu; [|done]. intros [= <-].
  apply Marshal_canonical in Hu as [-> Hm]. simpl. by rewrite Hm.
Qed.

(** The normal form denotes the value that was given. *)
Lemma normalizeJSON_value raw encoded :
  normalizeJSON raw = Some encoded →
  ∃ v, Unmarshal raw = Some v ∧ Unmarshal encoded = Some (sorted v) ∧ json_wf v.
Proof.
  unfold normalizeJSON. destruct (Unmarshal raw) as [v|] eqn:Hu; [|done]. intros [= <-].
  exists v. split; [done|]. split; [by apply Marshal_canonical in Hu as [? _]|].
  by apply Unmarshal_wf in Hu as [? _].
Qed.

Section normalize_facts.
Context `{!GoRange, !ContentLibrary}.

Lemma normalizeRawMap_Ok values kind r :
  normalizeRawMap values kind = Ok r ↔
  ∀ k, match values !! k with
       | None => r !! k = None
       | Some raw => valid_name k = true ∧ ∃ e, normalizeJSON raw = Some e ∧ r !! k = Some e
       end.
Proof.
  unfold normalizeRawMap.
  rewrite (foldM_map_Ok _ (λ name raw, if negb (valid_name name)
    then context_invalid "%s requires a valid name" [AStr kind]
    else match normalizeJSON raw with
         | None => context_invalid "%s %q contains invalid JSON" [AStr kind; AStr name]
         | Some encoded => Ok encoded end)); last first.
  { intros m k raw. unfold normalize_entry. simpl. destruct (valid_name k); [|done]. simpl.
    by destruct (normalizeJSON raw). }
  apply forall_proper. intros k. destruct (values !! k) as [raw|]; [|done].
  destruct (valid_name k); simpl; [|naive_solver].
  destruct (normalizeJSON raw) as [e|]; naive_solver.
Qed.

Lemma normalizeRawMap_idemp values kind r :
  normalizeRawMap values kind = Ok r → normalizeRawMap r kind = Ok r.
Proof.
  rewrite !normalizeRawMap_Ok. intros Hr k. specialize (Hr k).
  destruct (values !! k) as [raw|]; [|by rewrite Hr].
  destruct Hr as (Hk & e & He & ->). split; [done|]. exists e. split; [|done].
  by eapply normalizeJSON_idemp.
Qed.

Lemma normalize_outputs_Ok values r :
  foldM normalize_outputs ∅ (range_map "normalize.outputs" values) = Ok r ↔
  ∀ k, match values !! k with
       | None => r !! k = None
       | Some m => valid_name k = true ∧
           ∃ n, normalizeRawMap m "accepted output" = Ok n ∧ r !! k = Some n
       end.
Proof.
  rewrite (foldM_map_Ok _ (λ node m, if negb (valid_name node)
    then context_invalid "accepted output requires a valid node ID" []
    else normalizeRawMap m "accepted output")); last first.
  { intros m k a. unfold normalize_outputs. simpl. by destruct (valid_name k). }
  apply forall_proper. intros k. destruct (values !! k) as [m|]; [|done].
  destruct (valid_name k); simpl; naive_solver.
Qed.

Lemma normalize_Ok value n :
  normalizeRunExecutionContext value = Ok n ↔
  forM_ check_snapshot (range_map "normalize.prompts" (xc_PromptSnapshots value)) = Ok tt ∧
  forM_ check_pin (range_map "normalize.pins" (xc_ExtensionPins value)) = Ok tt ∧
  xc_SchemaVersion value = RunExecutionContextSchemaVersion ∧
  valid_run_id (xc_RunID value) = true ∧
  normalizeRawMap (xc_RunInputs value) "run input" = Ok (xc_RunInputs n) ∧
  foldM normalize_outputs ∅ (range_map "normalize.outputs" (xc_AcceptedOutputs value)) =
    Ok (xc_AcceptedOutputs n) ∧
  n = {| xc_PromptSnapshots := xc_PromptSnapshots value; xc_Provider := xc_Provider value;
         xc_ExtensionPins := xc_ExtensionPins value; xc_SchemaVersion := xc_SchemaVersion value;
         xc_RunID := xc_RunID value; xc_RunInputs := xc_RunInputs n;
         xc_AcceptedOutputs := xc_AcceptedOutputs n; xc_FrameSnapshot := xc_FrameSnapshot value |}.
Proof.
  unfold normalizeRunExecutionContext. split.
  - intros Hn. inv_ok. case_decide; [done|].
    destruct (valid_run_id (xc_RunID value)) eqn:Hid; [|done]. simpl in Hn. inv_ok. subst n.
    by split_and!.
  - intros (-> & -> & Hs & Hid & Hin & Hout & Heq). simpl. rewrite decide_False by auto.
    rewrite Hid, Hin. simpl. rewrite Hout. simpl. by rewrite <-Heq.
Qed.

Lemma normalize_idemp value n :
  normalizeRunExecutionContext value = Ok n → normalizeRunExecutionContext n = Ok n.
Proof.
  rewrite !normalize_Ok. intros (Hp & Hx & Hs & Hid & Hin & Hout & Heq).
  rewrite Heq. simpl. split_and!; try done.
  - by eapply normalizeRawMap_idemp.
  - apply normalize_outputs_Ok. intros k. pose proof (proj1 (normalize_outputs_Ok _ _) Hout k) as Hk.
    destruct (xc_AcceptedOutputs value !! k) as [m|]; [|by rewrite Hk].
    destruct Hk as (Hv & m' & Hm & ->). split; [done|]. exists m'. split; [|done].
    by eapply normalizeRawMap_idemp.
Qed.
End normalize_facts.

(** * Saving *)
Section saving.
Context `{!GoRange, !ContentLibrary, !ContentDigest}.
Implicit Types (rows : context_table) (row : RunExecutionContext).

(** The row of a content at a revision. *)
Definition stored_row (n : runExecutionContextContent) (revision : Z) : RunExecutionContext :=
  {| xc_content := n; xc_Revision := revision; xc_Digest := content_digest n |}.

(** A stored row passes the integrity check of every read. *)
Definition intact row : Prop :=
  normalizeRunExecutionContext (xc_content row) = Ok (xc_content row) ∧
  storable_revision (xc_Revision row) = true ∧ xc_Digest row = content_digest (xc_content row).

Lemma scan_intact row : intact row → scanRunExecutionContext row = Ok row.
Proof.
  intros (Hn & Hr & Hd). unfold scanRunExecutionContext. rewrite Hn. simpl.
  rewrite (bool_decide_eq_true_2 _ Hd), bool_decide_eq_false_2; [by destruct row|].
  intros Hzero. by rewrite Hzero in Hr.
Qed.

Definition save_accepted (runs : gset string) rows (n : runExecutionContextContent) (expected : Z)
  : Prop :=
  check_current_row (rows !! xc_RunID n) n expected = Ok tt ∧
  storable_revision (uint64 (expected + 1)) = true ∧
  (rows !! xc_RunID n = None → xc_RunID n ∈ runs).

Lemma Save_Ok runs rows value expected rows' result :
  SaveRunExecutionContext runs rows value expected = (rows', Ok result) ↔
  ∃ n, normalizeRunExecutionContext value = Ok n ∧ save_accepted runs rows n expected ∧
    result = stored_row n (uint64 (expected + 1)) ∧ rows' = <[xc_RunID n := result]> rows.
Proof.
  unfold SaveRunExecutionContext, save_accepted.
  destruct (normalizeRunExecutionContext value) as [n|e] eqn:Hn; simpl;
    [|split; [by intros [=]|by intros (? & [=] & _)]].
  transitivity (check_current_row (rows !! xc_RunID n) n expected = Ok tt ∧
    storable_revision (uint64 (expected + 1)) = true ∧ (rows !! xc_RunID n = None → xc_RunID n ∈ runs) ∧
    result = stored_row n (uint64 (expected + 1)) ∧ rows' = <[xc_RunID n := result]> rows);
    [|split; [intros (? & ? & ? & ? & ?); by exists n|by intros (? & [= <-] & (? & ? & ?) & ? & ?)]].
  destruct (check_current_row _ n expected) as [[]|e]; simpl; [|split; [by intros [=]|by intros ([=] & _)]].
  destruct (storable_revision (uint64 (expected + 1))) eqn:Hr; simpl;
    [|split; [by intros [=]|by intros (_ & [=] & _)]].
  fold (stored_row n (uint64 (expected + 1))).
  rewrite scan_intact by (split_and!; [by eapply normalize_idemp|done|done]). simpl.
  destruct (bool_decide (rows !! xc_RunID n = None)) eqn:Hrow; simpl.
  - apply bool_decide_eq_true in Hrow.
    destruct (bool_decide (xc_RunID n ∈ runs)) eqn:Hruns; simpl.
    + apply bool_decide_eq_true in Hruns. split; [by intros [= <- <-]|by intros (_ & _ & _ & -> & ->)].
    + apply bool_decide_eq_false in Hruns. split; [by intros [=]|by intros (_ & _ & Hin & _); destruct Hruns; auto].
  - apply bool_decide_eq_false in Hrow. split; [by intros [= <- <-]|by intros (_ & _ & _ & -> & ->)].
Qed.

Lemma Save_Err runs rows value expected rows' e :
  SaveRunExecutionContext runs rows value expected = (rows', Err e) → rows' = rows.
Proof. unfold SaveRunExecutionContext. case_match; [case_match|]; by intros [= <- _]. Qed.

(** Any call of the save, by any caller. *)
Inductive save_step : context_table → context_table → Prop :=
| save_call runs rows value expected rows' outcome :
    SaveRunExecutionContext runs rows value expected = (rows', outcome) → save_step rows rows'.

Definition table_intact rows : Prop := ∀ runID row, rows !! runID = Some row →
  intact row ∧ xc_RunID (xc_content row) = runID.

Lemma stored_intact runs rows value expected rows' result :
  SaveRunExecutionContext runs rows value expected = (rows', Ok result) → intact result.
Proof.
  intros (n & Hn & (_ & Hr & _) & -> & _)%Save_Ok.
  split_and!; [by eapply normalize_idemp|done|done].
Qed.

Lemma save_step_intact rows rows' : table_intact rows → save_step rows rows' → table_intact rows'.
Proof.
  intros Hrows Hstep. destruct Hstep as [runs rows value expected rows' [result|e] Hsave];
    [|by apply Save_Err in Hsave as ->].
  pose proof (stored_intact _ _ _ _ _ _ Hsave) as Hi.
  apply Save_Ok in Hsave as (n & _ & _ & Hres & ->). intros runID row.
  destruct (decide (runID = xc_RunID n)) as [->|Hne].
  - rewrite lookup_insert_eq. intros [= <-]. split; [done|by rewrite Hres].
  - rewrite lookup_insert_ne by done. apply Hrows.
Qed.

(** What later contexts of a run keep. *)
Record continues (old new : RunExecutionContext) : Prop := {
  ct_provider : xc_Provider (xc_content new) = xc_Provider (xc_content old);
  ct_pins : xc_ExtensionPins (xc_content new) = xc_ExtensionPins (xc_content old);
  ct_prompts : xc_PromptSnapshots (xc_content new) = xc_PromptSnapshots (xc_content old);
  ct_inputs : xc_RunInputs (xc_content new) = xc_RunInputs (xc_content old);
  ct_revision : (xc_Revision old ≤ xc_Revision new)%Z;
  ct_same : xc_Revision new = xc_Revision old → new = old;
}.

#[global] Instance continues_refl : Reflexive continues.
Proof. intros row. by split. Qed.
#[global] Instance continues_trans : Transitive continues.
Proof.
  intros x y z [????? Hxy] [????? Hyz]. split; try congruence; [lia|].
  intros Heq. rewrite Hyz by lia. apply Hxy. lia.
Qed.

Lemma storable_range revision : storable_revision revision = true → (1 ≤ revision ≤ max_int64)%Z.
Proof. unfold storable_revision. intros [?%Z.leb_le ?%Z.leb_le]%andb_prop. lia. Qed.

Lemma check_current_row_Ok row n expected :
  check_current_row (Some row) n expected = Ok tt ↔
  xc_Revision row = expected ∧ xc_Provider (xc_content row) = xc_Provider n ∧
  xc_ExtensionPins (xc_content row) = xc_ExtensionPins n ∧
  xc_PromptSnapshots (xc_content row) = xc_PromptSnapshots n ∧
  xc_RunInputs (xc_content row) = xc_RunInputs n.
Proof.
  unfold check_current_row. repeat case_decide; (split; [done|]); intros; destruct_and?; try done;
    repeat match goal with H : ¬ (_ ≠ _) |- _ => apply dec_stable in H end; naive_solver.
Qed.

Lemma save_step_continues rows rows' runID row :
  table_intact rows → save_step rows rows' → rows !! runID = Some row →
  ∃ row', rows' !! runID = Some row' ∧ continues row row'.
Proof.
  intros Hrows Hstep Hrow. destruct Hstep as [runs rows value expected rows' [result|e] Hsave];
    [|apply Save_Err in Hsave as ->; by exists row].
  apply Save_Ok in Hsave as (n & _ & (Hcur & Hr & _) & -> & ->).
  destruct (decide (runID = xc_RunID n)) as [->|Hne]; [|rewrite lookup_insert_ne by done; by exists row].
  rewrite lookup_insert_eq. eexists. split; [done|].
  rewrite Hrow in Hcur. apply check_current_row_Ok in Hcur as (Hrev & ? & ? & ? & ?).
  pose proof (Hrows _ _ Hrow) as [(_ & Hold%storable_range & _) _].
  assert (uint64 (expected + 1) = expected + 1)%Z as Heq.
  { apply wrap_small. unfold max_int64 in Hold. lia. }
  split; simpl; try congruence; rewrite Heq; lia.
Qed.
End saving.

(** * Properties *)

(** The stored raw messages encode, canonically, the values that were given. *)
Definition same_values (given stored : gmap string RawMessage) : Prop :=
  ∀ k, match given !! k with
       | None => stored !! k = None
       | Some raw => ∃ v, Unmarshal raw = Some v ∧ stored !! k = Some (Marshal v) ∧
           Unmarshal (Marshal v) = Some (sorted v)
       end.

Lemma normalized_same `{!GoRange} values kind r : normalizeRawMap values kind = Ok r → same_values values r.
Proof.
  rewrite normalizeRawMap_Ok. intros Hr k. specialize (Hr k). destruct (values !! k) as [raw|]; [|done].
  destruct Hr as (_ & e & He & Hk). unfold normalizeJSON in He.
  destruct (Unmarshal raw) as [v|] eqn:Hu; [|done]. injection He as <-. exists v.
  split_and!; [done|done|]. by apply Marshal_canonical in Hu as [? _].
Qed.

Lemma table_run_intact `{!GoRange, !ContentLibrary, !ContentDigest} rows rows' :
  table_intact rows → rtc save_step rows rows' → table_intact rows'.
Proof. intros Hi Hr. induction Hr; eauto using save_step_intact. Qed.

Lemma run_continues `{!GoRange, !ContentLibrary, !ContentDigest} rows rows' runID row :
  table_intact rows → rtc save_step rows rows' → rows !! runID = Some row →
  ∃ row', rows' !! runID = Some row' ∧ continues row row'.
Proof.
  intros Hi Hr. revert row. induction Hr as [rows|rows rows1 rows2 Hs _ IH]; intros row Hrow.
  { by exists row. }
  destruct (save_step_continues _ _ _ _ Hi Hs Hrow) as (row1 & Hrow1 & Hc1).
  destruct (IH (save_step_intact _ _ Hi Hs) row1 Hrow1) as (row2 & ? & Hc2).
  exists row2. split; [done|]. by etrans.
Qed.

(** (C39) What a save returns is what the next read returns: the content that was given, its
    run inputs and accepted outputs in canonical form, at the next revision. *)
Theorem context_read_back (R : GoRange) (L : ContentLibrary) (D : ContentDigest)
    runs rows value expected rows' result
    (Hsave : SaveRunExecutionContext runs rows value expected = (rows', Ok result)) :
  ReadRunExecutionContext rows' (xc_RunID value) = Ok result ∧
  xc_Revision result = uint64 (expected + 1) ∧
  same_values (xc_RunInputs value) (xc_RunInputs (xc_content result)) ∧
  (∀ node, match xc_AcceptedOutputs value !! node with
           | None => xc_AcceptedOutputs (xc_content result) !! node = None
           | Some outputs => ∃ stored, same_values outputs stored ∧
               xc_AcceptedOutputs (xc_content result) !! node = Some stored
           end) ∧
  xc_content result = content_with value (xc_AcceptedOutputs (xc_content result))
    (xc_FrameSnapshot value) (xc_RunInputs (xc_content result)) ∧
  ∀ runID, runID ≠ xc_RunID value → rows' !! runID = rows !! runID.
Proof.
  pose proof (stored_intact _ _ _ _ _ _ Hsave) as Hi.
  apply Save_Ok in Hsave as (n & Hn & _ & Hres & ->).
  apply normalize_Ok in Hn as (_ & _ & _ & _ & Hin & Hout & Heq).
  assert (xc_RunID n = xc_RunID value) as Hid by by rewrite Heq.
  assert (xc_content result = n) as Hc by by rewrite Hres. rewrite Hc, Hid.
  split_and!.
  - unfold ReadRunExecutionContext. rewrite lookup_insert_eq. by apply scan_intact.
  - by rewrite Hres.
  - by eapply normalized_same.
  - intros node. pose proof (proj1 (normalize_outputs_Ok _ _) Hout node) as Hk.
    destruct (xc_AcceptedOutputs value !! node) as [m|]; [|done].
    destruct Hk as (_ & m' & Hm & ->). exists m'. split; [by eapply normalized_same|done].
  - exact Heq.
  - intros runID Hne. by apply lookup_insert_ne.
Qed.

(** (C38) Saves are compare-and-swap: through any calls, by any callers, the context of a run
    stays intact and readable, never changes its provider, pins, prompts or run inputs, and
    moves forward by revisions; once a save at a revision has succeeded, every later save of
    that run at the same expected revision is refused and changes nothing. *)
Theorem context_compare_and_swap (R : GoRange) (L : ContentLibrary) (D : ContentDigest)
    rows0 rows1 (Hrows : table_intact rows0) (Hrun : rtc save_step rows0 rows1) :
  (∀ runID row, rows0 !! runID = Some row →
     ∃ row', ReadRunExecutionContext rows1 runID = Ok row' ∧ continues row row') ∧
  ∀ runs value expected rows2 result,
    SaveRunExecutionContext runs rows1 value expected = (rows2, Ok result) →
    ∀ rows3 runs' value' , rtc save_step rows2 rows3 → xc_RunID value' = xc_RunID value →
    ∃ e, SaveRunExecutionContext runs' rows3 value' expected = (rows3, Err e).
Proof.
  pose proof (table_run_intact _ _ Hrows Hrun) as Hrows1. split.
  - intros runID row Hrow. destruct (run_continues _ _ _ _ Hrows Hrun Hrow) as (row' & Hrow' & Hc).
    exists row'. split; [|done]. unfold ReadRunExecutionContext. rewrite Hrow'.
    by apply scan_intact, (Hrows1 runID).
  - intros runs value expected rows2 result Hsave rows3 runs' value' Hrun' Hid.
    pose proof (save_step_intact _ _ Hrows1 (save_call _ _ _ _ _ _ Hsave)) as Hrows2.
    destruct (SaveRunExecutionContext runs' rows3 value' expected) as [rows4 [result'|e]] eqn:Hsave';
      [|apply Save_Err in Hsave' as ->; by exists e].
    exfalso. apply Save_Ok in Hsave as (n & Hn & (_ & Hr & _) & Hres & ->).
    apply normalize_Ok in Hn as (_ & _ & _ & _ & _ & _ & Hn).
    apply Save_Ok in Hsave' as (n' & Hn' & (Hcur & _ & _) & _ & _).
    apply normalize_Ok in Hn' as (_ & _ & _ & _ & _ & _ & Hn').
    assert (xc_RunID n' = xc_RunID n) as Hnn by (rewrite Hn', Hn; simpl; done).
    assert (<[xc_RunID n:=result]> rows1 !! xc_RunID n = Some result) as Hrow by apply lookup_insert_eq.
    destruct (run_continues _ _ _ _ Hrows2 Hrun' Hrow) as (row & Hrow' & Hc).
    rewrite Hnn, Hrow' in Hcur. apply check_current_row_Ok in Hcur as [Hrev _].
    pose proof (ct_revision _ _ Hc) as Hle. rewrite Hres in Hle. simpl in Hle.
    rewrite <-Hrev in Hle. pose proof (table_run_intact _ _ Hrows2 Hrun' _ _ Hrow') as [(_ & Hrow'' & _) _].
    apply storable_range in Hrow''. rewrite wrap_small in Hle by (unfold max_int64 in *; lia). lia.
Qed.

(** ** An example *)
Definition ex_library : ContentLibrary := {| validateContentVersion := λ _ _, Ok tt |}.
Definition ex_context_digest : ContentDigest := {| content_digest := λ content, "digest of " +:+ xc_RunID content |}.
Definition ex_content : runExecutionContextContent := {|
  xc_PromptSnapshots := ∅; xc_Provider := "codex"; xc_ExtensionPins := ∅;
  xc_SchemaVersion := 1; xc_RunID := "run_1";
  xc_RunInputs := {[ "task" := quoted "{'b': 1, 'a': [true]}" ]};
  xc_AcceptedOutputs := ∅; xc_FrameSnapshot := @Snapshot range_canonical ex_frame;
|}.
Definition ex_save (rows : context_table) (expected : Z) : context_table * cresult RunExecutionContext :=
  @SaveRunExecutionContext range_canonical ex_library ex_context_digest {["run_1"]} rows ex_content expected.

Lemma context_read_back_witness :
  ∃ result, @ReadRunExecutionContext range_canonical ex_library ex_context_digest (ex_save ∅ 0).1 "run_1" = Ok result ∧
    xc_RunInputs (xc_content result) !! "task" = Some (quoted "{'a':[true],'b':1}").
Proof.
  eexists. split.
  - refine (proj1 (context_read_back range_canonical ex_library ex_context_digest {["run_1"]} ∅ ex_content 0
      (ex_save ∅ 0).1 _ _)). vm_compute. reflexivity.
  - vm_compute. reflexivity.
Defined.

Lemma context_compare_and_swap_witness :
  ∃ e, ex_save (ex_save (ex_save ∅ 0).1 1).1 0 = ((ex_save (ex_save ∅ 0).1 1).1, Err e) ∧
    e = ContextRevisionConflict "run_1" 0 2.
Proof.
  assert (@table_intact range_canonical ex_library ex_context_digest ∅) as Hempty by by intros ???.
  destruct (context_compare_and_swap range_canonical ex_library ex_context_digest ∅ ∅ Hempty (rtc_refl _ _))
    as [_ Hcas].
  destruct (ex_save ∅ 0) as [rows1 [r1|e1]] eqn:Hfirst; [|by vm_compute in Hfirst].
  specialize (Hcas {["run_1"]} ex_content 0%Z rows1 r1 Hfirst).
  destruct (Hcas (ex_save rows1 1).1 {["run_1"]} ex_content) as [e He].
  - apply rtc_once. eapply (save_call {["run_1"]} rows1 ex_content 1). apply surjective_pairing.
  - done.
  - exists e. split; [exact He|]. simpl fst in *. vm_compute in Hfirst. injection Hfirst as <- _.
    vm_compute in He. by injection He as <-.
Defined.
