(* ===== verification/Deliverable.v ===== *)
(** Values at the boundary of a node: the types of inputs and outputs, deliverables and
    artifacts ([runtime/src/core/workflow/resources.go], [value_schemas.go]), the input type
    check of [core/runexecution/preparation.go] and the output of a gate
    ([core/nodes/gate_node.go]).

    [valueschema.Validator] is a port: a validator is an argument, absent when none is
    configured. *)
From S2P Require Import Prelude GoStrings GoJson GoEncode GoDecode GoFloat Schema Predicate.
From stdpp Require Import options.

(** * Errors *)
Inductive value_error :=
| Message (message : msg)
| JsonFailure
| SchemaFailure (output : Identifier) (message : msg)
| PredicateFailure (error : FrameError).
Abbreviation vresult := (result value_error).
Definition message {A} (text_ : string) : vresult A := Err (Message (text text_)).
Definition or_json {A} (value : option A) : vresult A :=
  match value with Some a => Ok a | None => Err JsonFailure end.

#[global] Instance FrameError_eq_dec : EqDecision FrameError.
Proof. solve_decision. Defined.
#[global] Instance value_error_eq_dec : EqDecision value_error.
Proof. solve_decision. Defined.

(** A configured [valueschema.Validator]. *)
Abbreviation SchemaValidation := (RawMessage → RawMessage → result msg unit).

(** * Value types *)
Definition json_value_type (integral : float64 → bool) (decoded : Json) (kind : ValueType) : bool :=
  let storage := StorageType kind in
  if decide (storage = ValueNull) then
    match decoded with JNull => true | _ => false end
  else if decide (storage = ValueBoolean) then
    match decoded with JBool _ => true | _ => false end
  else if decide (storage = ValueString) then
    match decoded with JString _ => true | _ => false end
  else if decide (storage = ValueObject) then
    match decoded with JObject _ => true | _ => false end
  else if decide (storage = ValueArray) then
    match decoded with JArray _ => true | _ => false end
  else if decide (storage = ValueNumber) then
    match decoded with JNumber _ => true | _ => false end
  else if decide (storage = ValueInteger) then
    match decoded with
    | JNumber lit => match ParseFloat lit with Some n => integral n | None => false end
    | _ => false
    end
  else false.

(** [n == float64(int64(n))]. *)
Definition survives_int64 `{!GoInt64} (n : float64) : bool := SpecFloat.SFeqb n (of_int64 (to_int64 n)).

Definition literalMatchesType `{!GoInt64} (raw : RawMessage) (kind : ValueType) : bool :=
  match Unmarshal_any raw with
  | None => false
  | Some decoded => json_value_type survives_int64 decoded kind
  end.

(** [math.Trunc(n) == n] for an integer. *)
Definition preparationInputType (raw : RawMessage) (kind : ValueType) : bool :=
  match Unmarshal_any raw with
  | None => false
  | Some decoded => json_value_type is_integral decoded kind
  end.

(** [valueType]: the type named in a message. *)
Definition valueType (raw : RawMessage) : ValueType :=
  match Decode raw with
  | None => ""
  | Some JNull => ValueNull
  | Some (JBool _) => ValueBoolean
  | Some (JNumber lit) => if ContainsAny lit ".eE" then ValueNumber else ValueInteger
  | Some (JString _) => ValueString
  | Some (JArray _) => ValueArray
  | Some (JObject _) => ValueObject
  end.

(** * Nominal value schemas *)

(** The embedded [value_schemas.json], with single quotes. *)
Definition valueSchemasJSON : string := quoted "{
  'schema:changeset_v1': {
    'type': 'object',
    'additionalProperties': false,
    'properties': {
      'disposition': {
        'enum': [
          'changed',
          'unchanged',
          'blocked'
        ]
      },
      'summary': {
        'type': 'string'
      },
      'files': {
        'type': 'array',
        'items': {
          'type': 'string'
        }
      },
      'validation': {
        'type': 'array',
        'items': {
          'type': 'string'
        }
      },
      'snapshotDigest': {
        'type': 'string',
        'pattern': '^[a-f0-9]{64}$'
      }
    },
    'required': [
      'disposition',
      'summary',
      'files',
      'validation'
    ]
  },
  'schema:delivery_text_v1': {
    'type': 'object',
    'additionalProperties': false,
    'properties': {
      'commitSubject': {
        'type': 'string'
      },
      'commitBody': {
        'type': 'string'
      },
      'prTitle': {
        'type': 'string'
      },
      'prBody': {
        'type': 'string'
      },
      'changesetSnapshot': {
        'type': 'string',
        'pattern': '^[a-f0-9]{64}$'
      }
    },
    'required': [
      'commitSubject',
      'commitBody',
      'prTitle',
      'prBody',
      'changesetSnapshot'
    ]
  },
  'schema:commit_v1': {
    'type': 'object',
    'additionalProperties': false,
    'properties': {
      'sha': {
        'type': 'string'
      },
      'branch': {
        'type': 'string'
      },
      'workspaceId': {
        'type': 'string'
      },
      'snapshotDigest': {
        'type': 'string',
        'pattern': '^[a-f0-9]{64}$'
      }
    },
    'required': [
      'sha',
      'branch',
      'workspaceId',
      'snapshotDigest'
    ]
  },
  'schema:published_branch_v1': {
    'type': 'object',
    'additionalProperties': false,
    'properties': {
      'sha': {
        'type': 'string'
      },
      'branch': {
        'type': 'string'
      },
      'remote': {
        'type': 'string'
      },
      'workspaceId': {
        'type': 'string'
      },
      'snapshotDigest': {
        'type': 'string',
        'pattern': '^[a-f0-9]{64}$'
      }
    },
    'required': [
      'sha',
      'branch',
      'remote',
      'workspaceId',
      'snapshotDigest'
    ]
  },
  'schema:pull_request_v1': {
    'type': 'object',
    'additionalProperties': false,
    'properties': {
      'url': {
        'type': 'string'
      },
      'number': {
        'type': 'integer'
      },
      'headSha': {
        'type': 'string'
      },
      'base': {
        'type': 'string'
      }
    },
    'required': [
      'url',
      'number',
      'headSha',
      'base'
    ]
  },
  'schema:validation_v1': {
    'type': 'object',
    'additionalProperties': false,
    'properties': {
      'passed': {
        'type': 'boolean'
      },
      'checks': {
        'type': 'array',
        'items': {
          'type': 'object',
          'additionalProperties': false,
          'properties': {
            'argv': {
              'type': 'array',
              'items': {
                'type': 'string'
              }
            },
            'output': {
              'type': 'string'
            },
            'exitCode': {
              'type': 'integer'
            }
          },
          'required': [
            'argv',
            'output',
            'exitCode'
          ]
        }
      },
      'workspaceId': {
        'type': 'string'
      }
    },
    'required': [
      'passed',
      'checks',
      'workspaceId'
    ]
  },
  'schema:gate_evidence_v1': {
    'type': 'object',
    'additionalProperties': false,
    'properties': {
      'policy': {
        'type': 'string'
      },
      'passed': {
        'type': 'boolean'
      }
    },
    'required': [
      'policy',
      'passed'
    ]
  }
}
".

(** Decoding into a map of raw messages: the last duplicate wins; [Some None] is the nil map
    of [null]. [Decode] reads one value and ignores what follows it. *)
Definition collect_raw (members : list (string * RawMessage * Json)) : gmap string RawMessage :=
  foldl (λ m member, <[member.1.1 := member.1.2]> m) ∅ members.
Definition raw_map_of (decoded : option Json) (data : RawMessage)
  : option (option (gmap string RawMessage)) :=
  match decoded with
  | Some JNull => Some None
  | Some (JObject _) => (λ members, Some (collect_raw members)) <$> object_members data
  | _ => None
  end.
Definition Unmarshal_raw_map (data : RawMessage) := raw_map_of (Unmarshal data) data.
Definition Decode_raw_map (data : RawMessage) := raw_map_of (Decode data) data.

Definition BuiltinValueSchemas : gmap ValueType RawMessage :=
  default ∅ (default None (Unmarshal_raw_map valueSchemasJSON)).

Definition ValueSchema (kind : ValueType) (explicit : RawMessage) : RawMessage :=
  default explicit (BuiltinValueSchemas !! kind).

Example builtin_schemas : size BuiltinValueSchemas = 7.
Proof. vm_compute. reflexivity. Qed.

(** [json.Unmarshal] into a string. *)
Definition Unmarshal_string (data : RawMessage) : option string :=
  match Unmarshal data with
  | Some (JString s) => Some s
  | Some JNull => Some ""
  | _ => None
  end.

(** * Artifacts *)

(** [path.Base]: the last element without trailing slashes. *)
Definition path_Base (path : string) : string :=
  if decide (path = "") then "."
  else
    match List.find (λ part, bool_decide (part ≠ "")) (reverse (Split path "/"%char)) with
    | Some part => part
    | None => "/"
    end.

Definition valid_filename (filename : string) : bool :=
  bool_decide (filename ≠ "") && bool_decide (path_Base filename = filename) &&
  negb (ContainsAny filename "\:") && bool_decide (filename ≠ ".") && bool_decide (filename ≠ "..").

Fixpoint TrimLeft_char (c : ascii) (s : string) : string :=
  match s with
  | String d rest => if decide (d = c) then TrimLeft_char c rest else s
  | EmptyString => s
  end.

(** The headings of a Markdown text. *)
Definition heading_of (line : string) : option string :=
  let line := TrimSpace line in
  if HasPrefix line "#" then Some (TrimSpace (TrimLeft_char "#"%char line)) else None.
Definition headings (content : string) : list string :=
  omap heading_of (Split content (char 10)).

Definition required_heading (content : string) (heading : string) : vresult unit :=
  if decide (heading ∈ headings content) then Ok tt
  else Err (Message (Msg "missing required heading %q" [AStr heading])).

(** The template is given by its required headings, absent for a nil pointer. *)
Definition ValidateArtifact (contract : ArtifactContract) (content : string)
    (template : option (list string)) : vresult unit :=
  if negb (valid_filename (ac_Filename contract))
  then message "artifact filename must be a single filename"
  else if blank content then message "artifact content is empty"
  else
    match template with
    | Some required => forM_ (required_heading content) required
    | None => Ok tt
    end.

(** [ValidateSchemaValue]: the transport shape of a schema and a value. *)
Definition ValidateSchemaValue (schema value : RawMessage) : vresult unit :=
  if decide (schema = "") then Ok tt
  else
    let? definition := or_json (Unmarshal_any schema) in
    match definition with
    | JObject _ | JBool _ =>
        if bool_decide (value ≠ "") && negb (Valid value) then message "invalid JSON value" else Ok tt
    | _ => message "schema must be an object or boolean"
    end.

(** * Deliverables *)
Section deliverable.
Context `{!GoRange, !GoInt64}.
Variables (node : Node) (inputs : gmap Identifier RawMessage)
  (validator : option SchemaValidation).

Definition raw_input (id : Identifier) : RawMessage := default "" (inputs !! id).

(** The input [name] is a changeset whose snapshot is [snapshot]. *)
Definition changeset_matches (snapshot : string) (entry : Identifier * Binding) : bool :=
  bool_decide (BindingValueType entry.2 = "schema:changeset_v1") &&
  match Unmarshal_struct [string_field "snapshotDigest"] (raw_input entry.1) with
  | Some changeset =>
      let digest := get_string changeset "snapshotDigest" in
      bool_decide (digest ≠ "") && bool_decide (digest = snapshot)
  | None => false
  end.

Definition delivery_text (declaration : OutputDeclaration) (value : RawMessage) : vresult unit :=
  if decide (od_Type declaration = "schema:delivery_text_v1") then
    let? delivered := or_json (Unmarshal_struct [string_field "changesetSnapshot"] value) in
    if existsb (changeset_matches (get_string delivered "changesetSnapshot"))
         (range_map "ValidateDeliverable" (nf_Inputs (Fields node)))
    then Ok tt
    else message "delivery text must reference the exact snapshot of a connected Changeset"
  else Ok tt.

Definition schema_check (id : Identifier) (schema value : RawMessage) : vresult unit :=
  if decide (schema = "") then Ok tt
  else
    match validator with
    | None => message "output requires a value schema validator"
    | Some validate =>
        match validate schema value with
        | Ok _ => Ok tt
        | Err e => Err (SchemaFailure id e)
        end
    end.

Definition template_fields : list (string * FieldKind) :=
  [string_field "content"; string_field "version"; strings_field "requiredHeadings"].
Definition template_headings (inputID : Identifier) : vresult (list string) :=
  let unavailable := Err (Message (Msg "template input %q is unavailable" [AStr inputID])) in
  match Unmarshal_struct template_fields (raw_input inputID) with
  | Some resolved =>
      if decide (get_string resolved "content" = "") then unavailable
      else Ok (get_strings resolved "requiredHeadings")
  | None => unavailable
  end.

Definition artifact_check (contract : option ArtifactContract) (value : RawMessage) : vresult unit :=
  match contract with
  | None => Ok tt
  | Some contract =>
      let? content := or_json (Unmarshal_string value) in
      let? template :=
        if decide (ac_TemplateInput contract = "") then Ok None
        else let? required := template_headings (ac_TemplateInput contract) in Ok (Some required) in
      ValidateArtifact contract content template
  end.

Definition ValidateDeliverable (id : Identifier) (value : RawMessage) : vresult unit :=
  match nf_Outputs (Fields node) !! id with
  | None => Err (Message (Msg "undeclared output %q" [AStr id]))
  | Some declaration =>
      if negb (literalMatchesType value (od_Type declaration)) then
        Err (Message (Msg "output %q must have type %s" [AStr id; AStr (od_Type declaration)]))
      else
        let? _ := delivery_text declaration value in
        let? _ := schema_check id
                    (ValueSchema (od_Type declaration) (od_SchemaDefinition declaration)) value in
        artifact_check (od_Artifact declaration) value
  end.
End deliverable.

(** [nodes.GateOutput]. *)
Definition GateOutput `{!GoRange} (executor : GateExecutor)
    (inputs runInputs : gmap Identifier RawMessage) : vresult RawMessage :=
  match EvaluatePredicate (ge_Condition executor)
          {| pv_Outputs := ∅; pv_Inputs := inputs; pv_RunInputs := runInputs |} "/gate/condition" with
  | Err e => Err (PredicateFailure e)
  | Ok passed =>
      Ok (Marshal (JObject [("passed", JBool passed);
            ("gate_evidence", JObject [("policy", JString (ge_Policy executor));
                                       ("passed", JBool passed)])]))
  end.

Example artifact_ex :
  ValidateArtifact {| ac_Filename := "plan.md"; ac_TemplateInput := "" |}
    ("## Goal" +:+ bytes [10%N] +:+ "text") (Some ["Goal"]) = Ok tt ∧
  ValidateArtifact {| ac_Filename := "a/plan.md"; ac_TemplateInput := "" |} "x" None =
    message "artifact filename must be a single filename".
Proof. vm_compute. split; reflexivity. Qed.
Example literal_types :
  @literalMatchesType int64_amd64 "2.0" ValueInteger = true ∧
  @literalMatchesType int64_amd64 "1e300" ValueInteger = false ∧
  preparationInputType "1e300" ValueInteger = true ∧
  @literalMatchesType int64_amd64 "9223372036854775808" ValueInteger = false ∧
  @literalMatchesType int64_arm64 "9223372036854775808" ValueInteger = true.
Proof. vm_compute. repeat split. Qed.
