(* ===== verification/WireDecode.v ===== *)
(** Strict JSON decoding of the parts of a workflow document: the decode functions of
    [runtime/src/core/workflow/json.go] for predicates, declarations, bindings, policies and
    executors, with the [UnmarshalJSON] methods of [resources.go] and [workspace.go].

    An error keeps the messages that wrap it and the path segments [atDecodePath] gives it; the
    failures of [encoding/json] are not told apart.  Recursion on the texts of nested predicates
    is on fuel; [decode_predicate_enough] shows that the length of the text is enough. *)
From S2P Require Import Prelude GoStrings GoJson GoEncode GoCompact GoDecode GoClosed Schema Identity Deliverable.
From stdpp Require Import options.

(** * Errors *)
Inductive decode_error :=
| JsonFailed
| DecodeFailed (message : msg)
| Within (context : msg) (cause : decode_error)
| AtPath (segments : list string) (cause : decode_error)
| OutOfFuel.
Abbreviation dresult := (result decode_error).

Definition refuse_decode {A} (format : string) (args : list msg_arg) : dresult A :=
  Err (DecodeFailed (Msg format args)).
Definition within {A} (format : string) (args : list msg_arg) (r : dresult A) : dresult A :=
  match r with Err e => Err (Within (Msg format args) e) | Ok a => Ok a end.
Definition on_error {A} (f : decode_error → decode_error) (r : dresult A) : dresult A :=
  match r with Err e => Err (f e) | Ok a => Ok a end.
Definition of_message {A} (r : result msg A) : dresult A :=
  match r with Err m => Err (DecodeFailed m) | Ok a => Ok a end.

(** [errors.As] for the outermost path. *)
Fixpoint located (e : decode_error) : option (list string) :=
  match e with
  | AtPath segments _ => Some segments
  | Within _ cause => located cause
  | _ => None
  end.
Fixpoint escapeJSONPointerSegment (value : string) : string :=
  match value with
  | String "~" rest => "~0" +:+ escapeJSONPointerSegment rest
  | String "/" rest => "~1" +:+ escapeJSONPointerSegment rest
  | String c rest => String c (escapeJSONPointerSegment rest)
  | EmptyString => ""
  end.
Definition atDecodePath (segment : string) (e : decode_error) : decode_error :=
  AtPath (escapeJSONPointerSegment segment :: default [] (located e)) e.
Definition prependDecodePath (segment : string) (e : decode_error) : decode_error :=
  match located e with None => e | Some _ => atDecodePath segment e end.

(** * Texts *)
Definition of_json {A} (v : option A) : dresult A := match v with Some a => Ok a | None => Err JsonFailed end.
Definition strictDecode (t : GoType) (raw : RawMessage) : dresult GoValue := of_json (decodeClosedJSON t raw).
Definition field_string (wire : GoValue) (name : string) : string := go_string (field_value name wire).
Definition field_raw (wire : GoValue) (name : string) : RawMessage := go_raw (field_value name wire).
Definition field_strings (wire : GoValue) (name : string) : list string := go_strings (field_value name wire).
Definition field_pointer (wire : GoValue) (name : string) : option GoValue := go_pointer (field_value name wire).
Definition absent (raw : RawMessage) : bool := bool_decide (raw = "").
Definition decodeOptionalNonEmptyString (data : RawMessage) : dresult string :=
  if absent data then Ok ""
  else if decide (TrimSpace data = "null") then refuse_decode "must be a non-empty string" []
  else
    let? value := strictDecode GoString data in
    let value := go_string (Some value) in
    if decide (value = "") then refuse_decode "must be a non-empty string" [] else Ok value.
Definition cloneRaw (value : RawMessage) : RawMessage := value.

(** * Checks *)
Definition check_identifier (identifier : Identifier) : dresult unit := of_message (validateIdentifier identifier).
Definition valueTypes : list ValueType :=
  [ValueWorkspace; ValueNull; ValueBoolean; ValueInteger; ValueNumber; ValueString; ValueArray; ValueObject;
   ValueTask; ValueRepository; ValueTemplate; ValueMarkdown; ValueOpenItems; ValueDecisionLog].
Definition validateValueType (value : ValueType) : dresult unit :=
  if HasPrefix value "schema:" then check_identifier (TrimPrefix value "schema:")
  else if decide (value ∈ valueTypes) then Ok tt
  else refuse_decode "unsupported value type %q" [AStr value].
Definition nodeTypes : list NodeType :=
  ["git_commit"; "git_push"; "create_pr"; "extension"; "reasoning"; "gate"; "command"; "approval"; "subworkflow";
   "point_execution"; "routing"; "implementation"; "workspace_prepare"; "workspace_validate"].
Definition validNodeType (value : NodeType) : bool := bool_decide (value ∈ nodeTypes).
Definition retryFailures : list string :=
  ["provider_unavailable"; "provider_rate_limit"; "process_failure"; "validator_failure"; "timeout"; "interrupted"].
Definition validRetryFailure (value : string) : bool := bool_decide (value ∈ retryFailures).
(** The loop that remembers what it has seen. *)
Definition unique_step (message : string) (seen : gset string) (value : string) : dresult (gset string) :=
  if decide (value ∈ seen) then refuse_decode message [AStr value] else Ok ({[value]} ∪ seen).
Definition validateUniqueStrings (values : list string) : dresult unit :=
  let? _ := foldM (unique_step "duplicate value %q") ∅ values in Ok tt.
Fixpoint pointer_escapes_ok (s : string) : bool :=
  match s with
  | String "~" s1 =>
      match s1 with
      | String "0" s2 | String "1" s2 => pointer_escapes_ok s2
      | _ => false
      end
  | String _ s1 => pointer_escapes_ok s1
  | EmptyString => true
  end.
Definition validJSONPointer (pointer : string) : bool :=
  bool_decide (pointer = "") || HasPrefix pointer "/" && pointer_escapes_ok pointer.

(** [bindingSourcePattern], [outputSourcePattern] and [operandReferencePattern]. *)
Definition outputSourcePattern (s : string) : bool :=
  match Split s "."%char with
  | [a; b; c; d] => bool_decide (a = "node" ∧ c = "output") && identifierPattern b && identifierPattern d
  | _ => false
  end.
Definition bindingSourcePattern (s : string) : bool :=
  match Split s "."%char with
  | [a; b; c] => bool_decide (a = "run" ∧ b = "input") && identifierPattern c
  | _ => outputSourcePattern s
  end.
Definition member_name (s : string) : bool :=
  match s with
  | String c s =>
      (is_letter_or_digit c && negb (is_digit c) || bool_decide (c = "_"%char)) &&
      str_forall (λ d, is_letter_or_digit d || bool_decide (d = "_"%char)) s
  | EmptyString => false
  end.
Definition operandReferencePattern (s : string) : bool :=
  match Split s "."%char with
  | a :: b :: rest =>
      (bool_decide (a = "output" ∨ a = "input") && identifierPattern b && forallb member_name rest) ||
      match rest with
      | c :: rest => bool_decide (a = "run" ∧ b = "input") && identifierPattern c && forallb member_name rest
      | [] => false
      end
  | _ => false
  end.

(** * Predicates *)
Definition operand_wire : GoType := GoStruct [("ref", GoPtr GoString); ("literal", GoRaw)].
Definition decodeOperand (data : RawMessage) : dresult Operand :=
  let? wire := strictDecode operand_wire data in
  let ref := field_pointer wire "ref" in
  let literal := field_raw wire "literal" in
  if Bool.eqb (bool_decide (ref = None)) (absent literal)
  then refuse_decode "exactly one ref or literal is required" []
  else match ref with
       | Some ref =>
           let ref := go_string (Some ref) in
           if negb (operandReferencePattern ref) then refuse_decode "invalid reference %q" [AStr ref]
           else Ok (ReferenceOperand ref)
       | None => Ok (LiteralOperand (cloneRaw literal))
       end.

Definition comparisons : list string :=
  [CompareEqual; CompareNotEqual; CompareLess; CompareLessOrEqual; CompareGreater; CompareGreaterOrEqual].
Definition args_wire : GoType := GoStruct [("op", GoString); ("args", GoSlice GoRaw)].
Definition arg_wire : GoType := GoStruct [("op", GoString); ("arg", GoRaw)].
Definition decode_comparison (data : RawMessage) : dresult Predicate :=
  let? wire := strictDecode args_wire data in
  match go_raws (field_value "args" wire) with
  | [arg0; arg1] =>
      let? leftOperand := within "args.0" [] (decodeOperand arg0) in
      let? rightOperand := within "args.1" [] (decodeOperand arg1) in
      Ok (ComparisonPredicate (field_string wire "op") leftOperand rightOperand)
  | _ => refuse_decode "comparison predicate requires exactly two operands" []
  end.
Definition decode_present (data : RawMessage) : dresult Predicate :=
  let? wire := strictDecode arg_wire data in
  let? operand := within "arg" [] (decodeOperand (field_raw wire "arg")) in
  match operand with
  | ReferenceOperand ref => Ok (PresentPredicate ref)
  | _ => refuse_decode "present requires a reference operand" []
  end.
Section predicate.
Variable decode : RawMessage → dresult Predicate.
Definition decode_argument (args : list Predicate) (index : nat) (raw : RawMessage) : dresult (list Predicate) :=
  let? predicate := within "args.%d" [AInt (Z.of_nat index)] (decode raw) in Ok (args ++ [predicate]).
Definition decode_logical (data : RawMessage) : dresult Predicate :=
  let? wire := strictDecode args_wire data in
  let raws := go_raws (field_value "args" wire) in
  if decide (raws = []) then refuse_decode "logical predicate requires at least one argument" []
  else
    let? args := foldM_i decode_argument [] raws in
    Ok (LogicalPredicate (field_string wire "op") args).
Definition decode_not (data : RawMessage) : dresult Predicate :=
  let? wire := strictDecode arg_wire data in
  let? arg := within "arg" [] (decode (field_raw wire "arg")) in
  Ok (NotPredicate arg).
Definition predicate_tag : GoType := GoStruct [("const", GoPtr GoBool); ("op", GoString)].
Definition decode_tagged (data : RawMessage) : dresult Predicate :=
  let? discriminator := of_json (UnmarshalInto predicate_tag data) in
  let op := field_string discriminator "op" in
  if decide (field_pointer discriminator "const" ≠ None) then
    let? wire := strictDecode (GoStruct [("const", GoBool)]) data in
    Ok (ConstantPredicate (go_bool (field_value "const" wire)))
  else if decide (op ∈ comparisons) then decode_comparison data
  else if decide (op = "present") then decode_present data
  else if decide (op ∈ [LogicalAll; LogicalAny]) then decode_logical data
  else if decide (op = "not") then decode_not data
  else refuse_decode "unsupported predicate operator %q" [AStr op].
End predicate.
Fixpoint decode_predicate (fuel : nat) (data : RawMessage) : dresult Predicate :=
  match fuel with
  | O => Err OutOfFuel
  | S fuel => decode_tagged (decode_predicate fuel) data
  end.
Definition decodePredicate (data : RawMessage) : dresult Predicate :=
  decode_predicate (S (str_length data)) data.
