(* ===== verification/NodeDecode.v ===== *)
(** Strict JSON decoding of the nodes of a workflow document: resources, declarations, bindings,
    policies and executors ([runtime/src/core/workflow/json.go], [resources.go], [workspace.go],
    [extension.go]). *)
From S2P Require Import Prelude GoStrings GoJson GoEncode GoCompact GoDecode GoClosed Schema Identity Deliverable WireDecode.
From stdpp Require Import options.

(** * Resources: [Resource.UnmarshalJSON] *)
Definition reference_wire : GoType := GoStruct [("id", GoString); ("version", GoString); ("digest", GoString)].
Definition content_reference (wire : GoValue) : ContentReference :=
  {| cr_ID := field_string wire "id"; cr_Version := field_string wire "version"; cr_Digest := field_string wire "digest" |}.
Definition validate_reference (ref : ContentReference) : dresult unit :=
  if valid_content_reference ref then Ok tt
  else refuse_decode "an exact content id, version and SHA-256 digest are required" [].
Definition decode_empty (source : ResourceSource) (body : RawMessage) : dresult ResourceSource :=
  let? _ := strictDecode (GoStruct []) body in Ok source.
Definition decode_artifact_resource (body : RawMessage) : dresult ResourceSource :=
  let? value := strictDecode (GoStruct [("filename", GoString); ("content", GoString)]) body in
  let filename := field_string value "filename" in
  if is_ok (ValidateArtifact {| ac_Filename := filename; ac_TemplateInput := "" |} "placeholder" None)
  then Ok (ArtifactResource filename (field_string value "content"))
  else refuse_decode "artifact filename must be a single filename" [].
Definition decode_template (body : RawMessage) : dresult ResourceSource :=
  let? value := strictDecode (GoStruct [("content", GoString); ("version", GoString);
                                        ("requiredHeadings", GoSlice GoString)]) body in
  if blank (field_string value "content") || negb (semanticVersionPattern (field_string value "version"))
  then refuse_decode "template content and semantic version are required" []
  else Ok (TemplateResource (field_string value "content") (field_string value "version")
             (field_strings value "requiredHeadings")).
Definition decode_template_reference (body : RawMessage) : dresult ResourceSource :=
  let? value := strictDecode (GoStruct [("reference", reference_wire)]) body in
  let reference := content_reference (default (zero_value reference_wire) (field_value "reference" value)) in
  let? _ := validate_reference reference in Ok (TemplateReferenceResource reference).
Definition decode_constant (body : RawMessage) : dresult ResourceSource :=
  let? value := strictDecode (GoStruct [("value", GoRaw)]) body in
  if absent (field_raw value "value") then refuse_decode "constant value is required" []
  else Ok (ConstantResource (field_raw value "value")).
Definition decode_config (body : RawMessage) : dresult ResourceSource :=
  let? value := strictDecode (GoStruct [("key", GoString)]) body in
  if blank (field_string value "key") then refuse_decode "config key is required" []
  else Ok (ConfigResource (field_string value "key")).

Definition resource_kinds : list (string * (RawMessage → dresult ResourceSource)) := [
  ("artifact", decode_artifact_resource); ("task", decode_empty TaskResource);
  ("repository", decode_empty RepositoryResource); ("template", decode_template);
  ("template_reference", decode_template_reference); ("constant", decode_constant);
  ("config", decode_config); ("open_items", decode_empty OpenItemsResource);
  ("decision_log", decode_empty DecisionLogResource)].
(** [json.Marshal] of the members that are left. *)
Definition resource_body (fields : gmap string RawMessage) : RawMessage :=
  encode_map (compact_text false <$> delete "kind" fields).
Definition raw_map (v : GoValue) : option (gmap string RawMessage) :=
  (λ m : gmap string GoValue, (λ v, go_raw (Some v)) <$> m) <$> go_map (Some v).
Definition decodeResource (b : RawMessage) : dresult ResourceSource :=
  let? fields := strictDecode (GoMap GoRaw) b in
  let fields := default ∅ (raw_map fields) in
  match UnmarshalInto GoString (default "" (fields !! "kind")) with
  | None => refuse_decode "resource kind is required" []
  | Some kind =>
      let kind := go_string (Some kind) in
      match List.find (λ entry, bool_decide (entry.1 = kind)) resource_kinds with
      | Some (_, decode) => decode (resource_body fields)
      | None => refuse_decode "unknown resource kind %q" [AStr kind]
      end
  end.
(** A [*Resource]: the text the last [UnmarshalJSON] was given. *)
Definition resource_pointer : GoType := GoPtr (GoCustom (λ raw, is_ok (decodeResource raw))).
Definition resource_of (v : option GoValue) : option ResourceSource :=
  raw ← v; match decodeResource (go_raw (Some raw)) with Ok source => Some source | Err _ => None end.

(** * Maps of declarations *)
Section maps.
Context `{!GoRange}.

(** [range raw] over the decoded members, each stored under its identifier. *)
Definition decode_entry {A} (decode : string → RawMessage → dresult A) (result : gmap Identifier A)
    (entry : string * RawMessage) : dresult (gmap Identifier A) :=
  let? _ := check_identifier entry.1 in
  let? value := decode entry.1 entry.2 in
  Ok (<[entry.1 := value]> result).
Definition decode_entries {A} (site : string) (decode : string → RawMessage → dresult A) (data : RawMessage)
  : dresult (gmap Identifier A) :=
  let? raw := strictDecode (GoMap GoRaw) data in
  match raw_map raw with
  | None => refuse_decode "must be an object" []
  | Some raw => foldM (decode_entry decode) ∅ (range_map site raw)
  end.
(** [fmt.Errorf("%s: %w", name, prependDecodePath(name, err))]. *)
Definition named {A} (name : string) (r : dresult A) : dresult A :=
  within "%s" [AStr name] (on_error (prependDecodePath name) r).
Definition named_field {A} (name field : string) (r : dresult A) : dresult A :=
  within ("%s." +:+ field) [AStr name] (on_error (λ e, atDecodePath name (atDecodePath field e)) r).

Definition declaration_wire (rest : list (string * GoType)) : GoType :=
  GoStruct ([("type", GoString); ("schemaDefinition", GoRaw); ("schema", GoRaw); ("description", GoString)] ++ rest).
Definition decode_declaration_fields (rest : list (string * GoType)) (name : string) (value : RawMessage)
  : dresult (GoValue * string) :=
  let? wire := named name (strictDecode (declaration_wire rest) value) in
  let? _ := named_field name "type" (validateValueType (field_string wire "type")) in
  let? schema := named_field name "schema" (decodeOptionalNonEmptyString (field_raw wire "schema")) in
  Ok (wire, schema).
Definition decode_value_declaration (name : string) (value : RawMessage) : dresult ValueDeclaration :=
  let? decoded := decode_declaration_fields [("resource", resource_pointer)] name value in
  let '(wire, schema) := decoded in
  Ok {| vd_Resource := resource_of (field_pointer wire "resource");
        vd_SchemaDefinition := field_raw wire "schemaDefinition"; vd_Type := field_string wire "type";
        vd_Schema := schema; vd_Description := field_string wire "description" |}.
Definition decodeValueDeclarations (data : RawMessage) : dresult (gmap Identifier ValueDeclaration) :=
  decode_entries "decodeValueDeclarations" decode_value_declaration data.

Definition artifact_pointer : GoType := GoPtr (GoStruct [("filename", GoString); ("templateInput", GoString)]).
Definition artifact_of (v : GoValue) : ArtifactContract :=
  {| ac_Filename := field_string v "filename"; ac_TemplateInput := field_string v "templateInput" |}.
Definition bool_of (v : GoValue) : bool := go_bool (Some v).
Definition decode_output_declaration (name : string) (value : RawMessage) : dresult OutputDeclaration :=
  let? decoded := decode_declaration_fields [("required", GoPtr GoBool); ("artifact", artifact_pointer)] name value in
  let '(wire, schema) := decoded in
  Ok {| od_Artifact := artifact_of <$> field_pointer wire "artifact";
        od_SchemaDefinition := field_raw wire "schemaDefinition"; od_Type := field_string wire "type";
        od_Schema := schema; od_Description := field_string wire "description";
        od_Required := bool_of <$> field_pointer wire "required" |}.
Definition decodeOutputDeclarations (data : RawMessage) : dresult (gmap Identifier OutputDeclaration) :=
  decode_entries "decodeOutputDeclarations" decode_output_declaration data.

(** * Bindings *)
Definition binding_wire : GoType :=
  GoStruct [("from", GoString); ("pointer", GoString); ("type", GoString); ("required", GoPtr GoBool);
            ("default", GoRaw); ("description", GoString)].
Definition decodeBinding (data : RawMessage) : dresult Binding :=
  let? wire := strictDecode binding_wire data in
  let from := field_string wire "from" in
  let pointer := field_string wire "pointer" in
  let type := field_string wire "type" in
  let default := field_raw wire "default" in
  let description := field_string wire "description" in
  if negb (bindingSourcePattern from) then
    on_error (atDecodePath "from") (refuse_decode "invalid source %q" [AStr from])
  else
    let? _ := on_error (atDecodePath "type") (validateValueType type) in
    if negb (validJSONPointer pointer) then
      on_error (atDecodePath "pointer") (refuse_decode "invalid JSON pointer %q" [AStr pointer])
    else if match field_pointer wire "required" with None => true | Some b => bool_of b end then
      if negb (absent default) then on_error (atDecodePath "default") (refuse_decode "default requires required=false" [])
      else Ok (RequiredBinding from pointer type description)
    else Ok (OptionalBinding from pointer type (if absent default then None else Some (cloneRaw default)) description).
Definition decodeBindings (data : RawMessage) : dresult (gmap Identifier Binding) :=
  decode_entries "decodeBindings" (λ name value, named name (decodeBinding value)) data.
End maps.

(** * Transitions and joins *)
Definition transition_wire : GoType :=
  GoStruct [("id", GoString); ("to", GoString); ("when", GoRaw); ("kind", GoString);
            ("maxTraversals", GoPtr (GoUint 16)); ("enabledByDefault", GoPtr GoBool)].
Definition uint_of (v : GoValue) : Z := go_uint (Some v).
Definition decodeTransition (data : RawMessage) : dresult Transition :=
  let? wire := strictDecode transition_wire data in
  let? _ := within "id" [] (check_identifier (field_string wire "id")) in
  let? _ := within "to" [] (check_identifier (field_string wire "to")) in
  let? when := if absent (field_raw wire "when") then Ok NilPredicate
               else within "when" [] (decodePredicate (field_raw wire "when")) in
  let common := {| tf_TransitionID := field_string wire "id"; tf_To := field_string wire "to"; tf_When := when;
                   tf_EnabledByDefault := bool_of <$> field_pointer wire "enabledByDefault" |} in
  let kind := field_string wire "kind" in
  let maxTraversals := uint_of <$> field_pointer wire "maxTraversals" in
  if decide (kind ∈ [""; "normal"]) then
    if decide (maxTraversals ≠ None) then refuse_decode "maxTraversals is valid only for a bounded transition" []
    else Ok (NormalTransition common)
  else if decide (kind = "bounded") then
    match maxTraversals with
    | Some n => if decide (n = 0 ∨ 10000 < n)%Z
                then refuse_decode "bounded transition requires maxTraversals in 1..10000" []
                else Ok (BoundedTransition common n)
    | None => refuse_decode "bounded transition requires maxTraversals in 1..10000" []
    end
  else refuse_decode "unsupported kind %q" [AStr kind].
Definition indexed {A} (decode : RawMessage → dresult A) (result : list A) (index : nat) (data : RawMessage)
  : dresult (list A) :=
  let? value := within "%d" [AInt (Z.of_nat index)] (decode data) in Ok (result ++ [value]).
Definition decodeTransitions (raw : list RawMessage) : dresult (list Transition) :=
  foldM_i (indexed decodeTransition) [] raw.

Definition join_wire : GoType := GoStruct [("mode", GoString); ("from", GoSlice GoString)].
Definition decodeJoin (data : RawMessage) : dresult (option Schema.Join) :=
  if absent data then Ok None
  else
    let? join := strictDecode join_wire data in
    let mode := field_string join "mode" in
    let from := field_strings join "from" in
    if decide (mode ≠ JoinOne ∧ mode ≠ JoinAll) then refuse_decode "unsupported mode %q" [AStr mode]
    else if (length from <? 2)%nat then refuse_decode "from must contain at least two nodes" []
    else let? _ := of_message (validateIdentifierList from true) in
         Ok (Some {| join_Mode := mode; join_From := from |}).

(** * Checkpoints and retries *)
Definition mode_wire (rest : list (string * GoType)) : GoType := GoStruct (("mode", GoString) :: rest).
Definition revisions_pointer : string * GoType := ("maxRevisions", GoPtr (GoUint 8)).
Definition revisions_of (wire : GoValue) : dresult (option Z) :=
  let maxRevisions := uint_of <$> field_pointer wire "maxRevisions" in
  match maxRevisions with
  | Some n => if decide (100 < n)%Z then refuse_decode "maxRevisions must be 0..100" [] else Ok (Some n)
  | None => Ok None
  end.
Definition checkpoint_shorthand (data : RawMessage) : dresult Checkpoint :=
  let? mode := strictDecode GoString data in
  let mode := go_string (Some mode) in
  if decide (mode = "none") then Ok NoCheckpoint
  else if decide (mode = "acknowledge") then Ok AcknowledgeCheckpoint
  else if decide (mode = "approve") then Ok (ApproveCheckpoint None)
  else refuse_decode "checkpoint shorthand does not support %q" [AStr mode].
Definition checkpoint_object (data : RawMessage) : dresult Checkpoint :=
  let? discriminator := of_json (UnmarshalInto (mode_wire []) data) in
  let mode := field_string discriminator "mode" in
  if decide (mode ∈ ["none"; "acknowledge"]) then
    let? wire := strictDecode (mode_wire []) data in
    Ok (if decide (field_string wire "mode" = "none") then NoCheckpoint else AcknowledgeCheckpoint)
  else if decide (mode = "approve") then
    let? wire := strictDecode (mode_wire [revisions_pointer]) data in
    let? maxRevisions := revisions_of wire in
    Ok (ApproveCheckpoint maxRevisions)
  else if decide (mode = "approve_on_change") then
    let? wire := strictDecode (mode_wire [("when", GoRaw); revisions_pointer]) data in
    if absent (field_raw wire "when") then refuse_decode "approve_on_change requires when" []
    else
      let? maxRevisions := revisions_of wire in
      let? when := within "when" [] (decodePredicate (field_raw wire "when")) in
      Ok (ApproveOnChangeCheckpoint when maxRevisions)
  else if decide (mode = "external") then
    let? wire := strictDecode (mode_wire [("externalCondition", GoString)]) data in
    if blank (field_string wire "externalCondition") then refuse_decode "external checkpoint requires externalCondition" []
    else Ok (ExternalCheckpoint (field_string wire "externalCondition"))
  else refuse_decode "unsupported checkpoint mode %q" [AStr mode].
Definition decodeCheckpoint (data : RawMessage) : dresult (option Checkpoint) :=
  if absent data then Ok None
  else let? checkpoint := if HasPrefix data quote_mark then checkpoint_shorthand data else checkpoint_object data in
       Ok (Some checkpoint).

Definition retry_wire : GoType := GoStruct [("maxAttempts", GoUint 8); ("on", GoSlice GoString)].
Definition retry_step (seen : gset string) (failure : string) : dresult (gset string) :=
  if negb (validRetryFailure failure) then refuse_decode "unsupported failure %q" [AStr failure]
  else unique_step "duplicate failure %q" seen failure.
Definition decodeRetry (data : RawMessage) : dresult (option RetryPolicy) :=
  if absent data then Ok None
  else
    let? retry := strictDecode retry_wire data in
    let maxAttempts := go_uint (field_value "maxAttempts" retry) in
    let on := field_strings retry "on" in
    if bool_decide (maxAttempts = 0 ∨ 100 < maxAttempts)%Z || negb (go_made (field_value "on" retry))
    then refuse_decode "maxAttempts must be 1..100 and on is required" []
    else let? _ := foldM retry_step ∅ on in
         Ok (Some {| rp_MaxAttempts := maxAttempts; rp_On := on |}).

(** * Extensions and validators *)
Definition extension_wire : GoType := GoStruct [("ref", reference_wire); ("configuration", GoRaw)].
Definition extension_executor (wire : GoValue) : ExtensionExecutor :=
  let ref := default (zero_value reference_wire) (field_value "ref" wire) in
  {| xe_Ref := {| xr_ID := field_string ref "id"; xr_Version := field_string ref "version";
                  xr_Digest := field_string ref "digest" |};
     xe_Configuration := field_raw wire "configuration" |}.
(** [ExtensionExecutor.Validate]. *)
Definition validate_extension (executor : ExtensionExecutor) : dresult unit :=
  if negb (valid_extension_ref (xe_Ref executor)) then
    refuse_decode "EXTENSION_INVALID_REF: expected namespaced ID, exact version, and SHA-256 digest" []
  else match UnmarshalInto (GoMap GoRaw) (xe_Configuration executor) with
       | Some (MapValue (Some _)) => Ok tt
       | _ => refuse_decode "extension configuration must be an object" []
       end.
Definition validator_wire : GoType :=
  GoStruct [("extension", GoPtr extension_wire); ("output", GoString); ("schema", GoString); ("command", GoSlice GoString)].
Definition decode_validator (result : list Validator) (index : nat) (data : RawMessage) : dresult (list Validator) :=
  let refuse message := refuse_decode message [AInt (Z.of_nat index)] in
  let? wire := within "%d" [AInt (Z.of_nat index)] (strictDecode validator_wire data) in
  let output := field_string wire "output" in
  let schema := field_string wire "schema" in
  let command := field_strings wire "command" in
  let hasCommand := go_made (field_value "command" wire) in
  let hasSchema := bool_decide (output ≠ "" ∨ schema ≠ "") in
  match field_pointer wire "extension" with
  | Some extension =>
      if hasSchema || hasCommand then refuse "%d: extension validator cannot contain schema or command settings"
      else let? _ := validate_extension (extension_executor extension) in
           Ok (result ++ [ExtensionValidator (extension_executor extension)])
  | None =>
      if Bool.eqb hasSchema hasCommand then refuse "%d: exactly one schema or command validator is required"
      else if hasSchema then
        let? _ := within "%d.output" [AInt (Z.of_nat index)] (check_identifier output) in
        if blank schema then refuse "%d.schema is required"
        else Ok (result ++ [SchemaValidator output schema])
      else if decide (command = []) then refuse "%d.command must contain at least one argument"
      else Ok (result ++ [CommandValidator command])
  end.
Definition decodeValidators (raw : list RawMessage) : dresult (list Validator) := foldM_i decode_validator [] raw.
