(* ===== verification/DocumentDecode.v ===== *)
(** Strict JSON decoding of a workflow document: [Decode], [Document.UnmarshalJSON] and the decode
    functions of metadata, specification, nodes and executors ([core/workflow/json.go],
    [core/workflow/workspace.go]).

    [DecodeError.Location] is read off the path of an error that has one; for the others the code
    searches the text of the message, which is not modelled. *)
From S2P Require Import Prelude GoStrings GoJson GoEncode GoCompact GoDecode GoClosed Schema Identity Deliverable WireDecode NodeDecode.
From stdpp Require Import options.

Definition APIVersionV1Alpha1 : string := "darkstar.local/v1alpha1".
Definition APIVersionV1Alpha2 : string := "darkstar.local/v1alpha2".
Definition APIVersionV1Alpha3 : string := "darkstar.local/v1alpha3".
Definition KindWorkflow : string := "Workflow".

(** * Readiness *)
Definition elements_of (wire : GoValue) (name : string) : list GoValue := go_elements (field_value name wire).
Definition strings_wire (names : list string) : GoType := GoStruct ((λ name, (name, GoString)) <$> names).
Definition readiness_wire : GoType :=
  GoStruct [("recommendedEvidence", GoSlice (strings_wire ["role"; "description"]));
            ("policyGates", GoSlice (strings_wire ["policy"; "enforcement"; "description"]));
            ("invariants", GoSlice GoString);
            ("remedies", GoSlice (strings_wire ["code"; "target"; "action"; "description"]))].
Definition readiness_of (wire : GoValue) : ReadinessContract := {|
  rc_RecommendedEvidence := (λ v, {| er_Role := field_string v "role"; er_Description := field_string v "description" |})
                              <$> elements_of wire "recommendedEvidence";
  rc_PolicyGates := (λ v, {| rpg_Policy := field_string v "policy"; rpg_Enforcement := field_string v "enforcement";
                             rpg_Description := field_string v "description" |}) <$> elements_of wire "policyGates";
  rc_Invariants := field_strings wire "invariants";
  rc_Remedies := (λ v, {| rr_Code := field_string v "code"; rr_Target := field_string v "target";
                          rr_Action := field_string v "action"; rr_Description := field_string v "description" |})
                   <$> elements_of wire "remedies" |}.
Definition evidence_step (seen : gset string) (index : nat) (evidence : EvidenceRequirement) : dresult (gset string) :=
  if negb (identifierPattern (er_Role evidence)) || blank (er_Description evidence)
  then refuse_decode "recommendedEvidence[%d] requires a valid role and description" [AInt (Z.of_nat index)]
  else unique_step "recommendedEvidence role %q is duplicated" seen (er_Role evidence).
Definition policy_step (seen : gset string) (index : nat) (gate : ReadinessPolicyGate) : dresult (gset string) :=
  if negb (identifierPattern (rpg_Policy gate)) || blank (rpg_Description gate)
  then refuse_decode "policyGates[%d] requires a valid policy and description" [AInt (Z.of_nat index)]
  else if decide (rpg_Enforcement gate ∉ ["advisory"; "blocking"; "external"])
  then refuse_decode "policyGates[%d] has unsupported enforcement %q" [AInt (Z.of_nat index); AStr (rpg_Enforcement gate)]
  else unique_step "policy gate %q is duplicated" seen (rpg_Policy gate).
Definition remedy_actions : list string :=
  ["supply_input"; "revise_artifact"; "clarify_decision"; "install_capability"; "rerun_validation"].
Definition remedy_step (seen : gset string) (index : nat) (remedy : ReadinessRemedy) : dresult (gset string) :=
  let? _ := within "remedies[%d].code" [AInt (Z.of_nat index)] (check_identifier (rr_Code remedy)) in
  let? _ := within "remedies[%d].target" [AInt (Z.of_nat index)] (check_identifier (rr_Target remedy)) in
  if decide (rr_Action remedy ∉ remedy_actions)
  then refuse_decode "remedies[%d] has unsupported action %q" [AInt (Z.of_nat index); AStr (rr_Action remedy)]
  else if blank (rr_Description remedy) then refuse_decode "remedies[%d].description is required" [AInt (Z.of_nat index)]
  else unique_step "remedy code %q is duplicated" seen (rr_Code remedy).
Definition decodeReadiness (data : RawMessage) : dresult (option ReadinessContract) :=
  if absent data then Ok None
  else
    let? wire := strictDecode readiness_wire data in
    let contract := readiness_of wire in
    if negb (forallb (λ name, go_made (field_value name wire))
               ["recommendedEvidence"; "policyGates"; "invariants"; "remedies"])
    then refuse_decode "recommendedEvidence, policyGates, invariants, and remedies are required arrays" []
    else
      let? _ := foldM_i evidence_step ∅ (rc_RecommendedEvidence contract) in
      let? _ := foldM_i policy_step ∅ (rc_PolicyGates contract) in
      let? _ := within "invariants" [] (validateUniqueStrings (rc_Invariants contract)) in
      let? _ := foldM_i remedy_step ∅ (rc_Remedies contract) in
      Ok (Some contract).

(** * Definitions of nodes *)
Definition definition_wire : GoType := strings_wire ["scope"; "owner"; "name"; "version"; "digest"].
Definition decodeResolvedNodeDefinitionRef (data : RawMessage) : dresult (option ResolvedNodeDefinitionRef) :=
  if absent data then Ok None
  else
    let? wire := strictDecode definition_wire data in
    let scope := field_string wire "scope" in
    let owner := field_string wire "owner" in
    let name := field_string wire "name" in
    let version := field_string wire "version" in
    let digest := field_string wire "digest" in
    if negb (workflowNamePattern name) || negb (semanticVersionPattern version) || negb (digestPattern digest)
    then refuse_decode "name, semantic version, and lowercase SHA-256 digest are required" []
    else
      let? ref :=
        if decide (scope = "built_in") then
          if decide (owner ≠ "") then refuse_decode "built-in definition cannot have an owner" []
          else Ok (BuiltInNodeDefinitionRef name version)
        else if decide (scope = "project") then
          if blank owner then refuse_decode "project definition requires an owner" []
          else Ok (ProjectNodeDefinitionRef owner name version)
        else if decide (scope = "user") then
          if blank owner then refuse_decode "user definition requires an owner" []
          else Ok (UserNodeDefinitionRef owner name version)
        else refuse_decode "unsupported node-definition scope %q" [AStr scope] in
      Ok (Some {| rnd_Ref := Some ref; rnd_Digest := digest |}).

(** * Executors *)
Definition reasoning_wire : GoType :=
  GoStruct [("instructions", GoString); ("agent", GoString); ("skills", GoSlice GoString); ("tools", GoSlice GoString)].
Definition decodeReasoning (data : RawMessage) : dresult ReasoningExecutor :=
  let? wire := strictDecode reasoning_wire data in
  let executor := {| rx_Instructions := field_string wire "instructions"; rx_Agent := field_string wire "agent";
                     rx_Skills := field_strings wire "skills"; rx_Tools := field_strings wire "tools" |} in
  if blank (rx_Agent executor) then refuse_decode "agent is required" []
  else
    let? _ := within "skills" [] (validateUniqueStrings (rx_Skills executor)) in
    let? _ := within "tools" [] (validateUniqueStrings (rx_Tools executor)) in
    Ok executor.
Definition decodeGate (data : RawMessage) : dresult GateExecutor :=
  let? wire := strictDecode (GoStruct [("policy", GoString); ("condition", GoRaw)]) data in
  if blank (field_string wire "policy") || absent (field_raw wire "condition")
  then refuse_decode "policy and condition are required" []
  else
    let? condition := within "condition" [] (decodePredicate (field_raw wire "condition")) in
    Ok {| ge_Policy := field_string wire "policy"; ge_Condition := condition |}.
Definition command_wire : GoType :=
  GoStruct [("argv", GoSlice GoString); ("cwd", GoString); ("timeoutSeconds", GoPtr (GoUint 64))].
Definition decodeCommand (data : RawMessage) : dresult CommandExecutor :=
  let? wire := strictDecode command_wire data in
  let executor := {| ce_Argv := field_strings wire "argv"; ce_CWD := field_string wire "cwd";
                     ce_TimeoutSeconds := uint_of <$> field_pointer wire "timeoutSeconds" |} in
  if decide (ce_Argv executor = []) then refuse_decode "argv must contain at least one argument" []
  else if decide (ce_TimeoutSeconds executor = Some 0%Z) then refuse_decode "timeoutSeconds must be positive" []
  else Ok executor.
Definition point_wire : GoType :=
  GoStruct [("planInput", GoString); ("approval", GoString); ("riskTags", GoSlice GoString); ("validation", GoString);
            ("publishing", GoString)].
Definition decodePointExecution (data : RawMessage) : dresult PointExecutionExecutor :=
  let? wire := strictDecode point_wire data in
  let executor := {| pe_PlanInput := field_string wire "planInput"; pe_Approval := field_string wire "approval";
                     pe_RiskTags := field_strings wire "riskTags"; pe_Validation := field_string wire "validation";
                     pe_Publishing := field_string wire "publishing" |} in
  let? _ := within "planInput" [] (check_identifier (pe_PlanInput executor)) in
  let? _ :=
    if decide (pe_Approval executor ∈ ["none"; "every"; "combined"]) then
      if decide (pe_RiskTags executor ≠ []) then refuse_decode "riskTags are valid only for risk approval" [] else Ok tt
    else if decide (pe_Approval executor = "risk") then
      if decide (pe_RiskTags executor = []) then refuse_decode "risk approval requires riskTags" [] else Ok tt
    else refuse_decode "unsupported approval mode %q" [AStr (pe_Approval executor)] in
  if negb (forallb (λ tag, negb (blank tag) && bool_decide (TrimSpace tag = tag)) (pe_RiskTags executor))
  then refuse_decode "riskTags must contain trimmed non-empty values" []
  else
    let? _ := within "riskTags" [] (validateUniqueStrings (pe_RiskTags executor)) in
    if decide (pe_Validation executor ∉ ["each"; "combined"; "each_and_combined"])
    then refuse_decode "unsupported validation mode %q" [AStr (pe_Validation executor)]
    else if decide (pe_Publishing executor ∉ ["after_story_validation"; "after_each_point"])
    then refuse_decode "unsupported publishing mode %q" [AStr (pe_Publishing executor)]
    else Ok executor.
Definition decodeApproval (data : RawMessage) (apiVersion : string) : dresult ApprovalExecutor :=
  let? wire := strictDecode (strings_wire ["actor"; "externalCondition"; "evidenceOutput"]) data in
  let actor := field_string wire "actor" in
  let externalCondition := field_string wire "externalCondition" in
  let evidenceOutput := field_string wire "evidenceOutput" in
  if blank actor then refuse_decode "actor is required" []
  else if decide (actor = "external") then
    if blank externalCondition then refuse_decode "external actor requires externalCondition" []
    else
      let? _ :=
        if decide (apiVersion ∈ [APIVersionV1Alpha2; APIVersionV1Alpha3]) then
          within "external actor requires evidenceOutput" [] (check_identifier evidenceOutput)
        else if decide (evidenceOutput ≠ "") then
          refuse_decode "evidenceOutput requires apiVersion darkstar.local/v1alpha2" []
        else Ok tt in
      Ok (ExternalApproval externalCondition evidenceOutput)
  else if decide (externalCondition ≠ "" ∨ evidenceOutput ≠ "") then
    refuse_decode "externalCondition and evidenceOutput are valid only for the external actor" []
  else Ok (NamedApproval actor).
Definition routing_outputs (e : RoutingExecutor) : list (string * Identifier) :=
  [("routeOutput", re_RouteOutput e); ("rationaleOutput", re_RationaleOutput e); ("adviceOutput", re_AdviceOutput e);
   ("missingInformationOutput", re_MissingInformationOutput e); ("assumptionsOutput", re_AssumptionsOutput e);
   ("confirmationOutput", re_ConfirmationOutput e)].
Definition routing_wire : GoType :=
  GoStruct [("agent", GoString); ("branches", GoSlice (strings_wire ["name"; "transition"])); ("routeOutput", GoString);
            ("rationaleOutput", GoString); ("adviceOutput", GoString); ("missingInformationOutput", GoString);
            ("assumptionsOutput", GoString); ("confirmationOutput", GoString)].
Definition branch_step (seen : gset string * gset string) (i : nat) (branch : RoutingBranch)
  : dresult (gset string * gset string) :=
  if negb (identifierPattern (rb_Name branch)) || negb (identifierPattern (rb_Transition branch))
  then refuse_decode "branches[%d] requires valid name and transition identifiers" [AInt (Z.of_nat i)]
  else if decide (rb_Name branch ∈ seen.1 ∨ rb_Transition branch ∈ seen.2)
  then refuse_decode "branch names and transition references must be unique" []
  else Ok ({[rb_Name branch]} ∪ seen.1, {[rb_Transition branch]} ∪ seen.2).

Section document.
Context `{!GoRange}.

Definition check_output (entry : string * Identifier) : dresult unit :=
  if negb (identifierPattern entry.2) then refuse_decode "%s requires a valid output identifier" [AStr entry.1] else Ok tt.
Definition decodeRouting (data : RawMessage) : dresult RoutingExecutor :=
  let? wire := strictDecode routing_wire data in
  let executor := {|
    re_Agent := field_string wire "agent";
    re_Branches := (λ v, {| rb_Name := field_string v "name"; rb_Transition := field_string v "transition" |})
                     <$> elements_of wire "branches";
    re_RouteOutput := field_string wire "routeOutput"; re_RationaleOutput := field_string wire "rationaleOutput";
    re_AdviceOutput := field_string wire "adviceOutput";
    re_MissingInformationOutput := field_string wire "missingInformationOutput";
    re_AssumptionsOutput := field_string wire "assumptionsOutput";
    re_ConfirmationOutput := field_string wire "confirmationOutput" |} in
  if blank (re_Agent executor) || bool_decide (re_Branches executor = [])
  then refuse_decode "agent and at least one declared branch are required" []
  else
    let? _ := foldM_i branch_step (∅, ∅) (re_Branches executor) in
    let? _ := forM_ check_output (range "decodeRouting" (routing_outputs executor)) in
    Ok executor.

Definition call_wire : GoType :=
  GoStruct [("workflow", strings_wire ["name"; "version"; "digest"; "path"]); ("entry", GoString);
            ("terminals", GoSlice GoString); ("inputs", GoMap GoString); ("outputs", GoMap GoString)].
Definition string_map (v : option GoValue) : option (gmap string string) :=
  (λ m : gmap string GoValue, (λ v, go_string (Some v)) <$> m) <$> go_map v.
Definition call_input (entry : Identifier * Identifier) : dresult unit :=
  let? _ := within "inputs" [] (check_identifier entry.1) in
  within "inputs.%s" [AStr entry.1] (check_identifier entry.2).
Definition call_output (entry : Identifier * string) : dresult unit :=
  let? _ := within "outputs" [] (check_identifier entry.1) in
  if negb (outputSourcePattern entry.2) then refuse_decode "outputs.%s has invalid source %q" [AStr entry.1; AStr entry.2]
  else Ok tt.
Definition decodeSubworkflowCall (data : RawMessage) : dresult SubworkflowCall :=
  let? wire := strictDecode call_wire data in
  let workflow := default (zero_value (strings_wire ["name"; "version"; "digest"; "path"])) (field_value "workflow" wire) in
  let reference := {| wr_Name := field_string workflow "name"; wr_Version := field_string workflow "version";
                      wr_Digest := field_string workflow "digest"; wr_Path := field_string workflow "path" |} in
  let entry := field_string wire "entry" in
  let terminals := field_strings wire "terminals" in
  if blank (wr_Name reference) || blank (wr_Version reference)
  then refuse_decode "workflow name and version are required" []
  else if bool_decide (wr_Digest reference ≠ "") && negb (digestPattern (wr_Digest reference))
  then refuse_decode "workflow digest must be a lowercase SHA-256" []
  else
    let? _ := within "entry" [] (check_identifier entry) in
    if decide (terminals = []) then refuse_decode "terminals must contain at least one node" []
    else
      let? _ := within "terminals" [] (of_message (validateIdentifierList terminals true)) in
      match string_map (field_value "inputs" wire), string_map (field_value "outputs" wire) with
      | Some inputs, Some outputs =>
          let? _ := forM_ call_input (range_map "decodeSubworkflowCall inputs" inputs) in
          let? _ := forM_ call_output (range_map "decodeSubworkflowCall outputs" outputs) in
          Ok {| sc_Workflow := reference; sc_Entry := entry; sc_Terminals := terminals; sc_Inputs := inputs;
                sc_Outputs := outputs |}
      | _, _ => refuse_decode "inputs and outputs are required" []
      end.

(** [WorkspacePrepareExecutor.UnmarshalJSON]. *)
Definition decodeWorkspacePrepare (raw : RawMessage) : dresult WorkspacePrepareExecutor :=
  let? wire := strictDecode (GoStruct [("repositoryInput", GoString); ("checkout", GoRaw)]) raw in
  let checkout := field_raw wire "checkout" in
  let? mode := of_json (UnmarshalInto (mode_wire []) checkout) in
  let? plan :=
    if decide (field_string mode "mode" = "current_checkout") then
      let? _ := strictDecode (mode_wire []) checkout in Ok CurrentCheckout
    else if decide (field_string mode "mode" = "new_worktree") then
      let? c := strictDecode (strings_wire ["mode"; "baseRef"; "branch"]) checkout in
      if blank (field_string c "baseRef") || blank (field_string c "branch")
      then refuse_decode "new_worktree requires baseRef and branch" []
      else Ok (NewWorktree (field_string c "baseRef") (field_string c "branch"))
    else refuse_decode "checkout.mode must be current_checkout or new_worktree" [] in
  Ok {| wp_RepositoryInput := field_string wire "repositoryInput"; wp_Checkout := Some plan |}.

(** * Nodes *)
Definition executor_fields : list (NodeType * string) :=
  [("git_commit", "gitCommit"); ("git_push", "gitPush"); ("create_pr", "createPR"); ("extension", "extension");
   ("reasoning", "reasoning"); ("gate", "gate"); ("command", "command"); ("approval", "approval");
   ("subworkflow", "call"); ("point_execution", "points"); ("routing", "routing");
   ("implementation", "implementation"); ("workspace_prepare", "workspacePrepare");
   ("workspace_validate", "workspaceValidate")].
Definition node_wire : GoType :=
  GoStruct ([("prompt", GoPtr reference_wire); ("displayName", GoRaw); ("type", GoString); ("entry", GoPtr GoBool);
             ("terminal", GoPtr GoBool); ("inputs", GoRaw); ("outputs", GoRaw); ("readiness", GoRaw);
             ("definition", GoRaw); ("validators", GoSlice GoRaw); ("retry", GoRaw); ("checkpoint", GoRaw);
             ("transitionMode", GoString); ("join", GoRaw); ("permissions", GoSlice GoString);
             ("transitions", GoSlice GoRaw)] ++ ((λ field, (field.2, GoRaw)) <$> executor_fields)).
(** Some of the members is there. *)
Definition any_present (wire : GoValue) (names : list string) : bool :=
  existsb (λ name, negb (absent (field_raw wire name))) names.
(** What the version of the document allows a node to be. *)
Definition check_node_version (wire : GoValue) (apiVersion : string) : dresult unit :=
  let type := field_string wire "type" in
  let v1alpha3 := bool_decide (apiVersion = APIVersionV1Alpha3) in
  if bool_decide (apiVersion = APIVersionV1Alpha1) &&
     (any_present wire ["readiness"; "points"] || bool_decide (type = "point_execution"))
  then refuse_decode "readiness and point execution require apiVersion darkstar.local/v1alpha2" []
  else if negb v1alpha3 &&
     (bool_decide (type ∈ ["git_commit"; "git_push"; "create_pr"; "implementation"; "workspace_prepare"; "workspace_validate"]) ||
      any_present wire ["gitCommit"; "gitPush"; "createPR"; "implementation"; "workspacePrepare"; "workspaceValidate"])
  then refuse_decode "implementation requires apiVersion darkstar.local/v1alpha3" []
  else if negb v1alpha3 && (any_present wire ["routing"; "definition"] || bool_decide (type = "routing"))
  then refuse_decode "reusable definitions and routing require apiVersion darkstar.local/v1alpha3" []
  else Ok tt.
Definition is_extension_validator (validator : Validator) : bool :=
  match validator with ExtensionValidator _ => true | _ => false end.

(** The part of a node that all types share. *)
Definition decode_common (wire : GoValue) (apiVersion : string) : dresult NodeFields :=
  let? displayName := within "displayName" [] (decodeOptionalNonEmptyString (field_raw wire "displayName")) in
  let type := field_string wire "type" in
  if decide (type = "extension" ∧ apiVersion ≠ APIVersionV1Alpha3)
  then refuse_decode "extensions require apiVersion darkstar.local/v1alpha3" []
  else if negb (validNodeType type) then refuse_decode "unsupported node type %q" [AStr type]
  else
    let? inputs := within "inputs" [] (on_error (prependDecodePath "inputs") (decodeBindings (field_raw wire "inputs"))) in
    let? outputs :=
      within "outputs" [] (on_error (prependDecodePath "outputs") (decodeOutputDeclarations (field_raw wire "outputs"))) in
    let? readiness := within "readiness" [] (decodeReadiness (field_raw wire "readiness")) in
    let? validators := within "validators" [] (decodeValidators (go_raws (field_value "validators" wire))) in
    let? _ := if bool_decide (apiVersion ≠ APIVersionV1Alpha3) && existsb is_extension_validator validators
              then refuse_decode "extension validators require apiVersion darkstar.local/v1alpha3" [] else Ok tt in
    let? retry := within "retry" [] (decodeRetry (field_raw wire "retry")) in
    let? checkpoint := within "checkpoint" [] (decodeCheckpoint (field_raw wire "checkpoint")) in
    let transitionMode := if decide (field_string wire "transitionMode" = "") then TransitionExclusive
                          else field_string wire "transitionMode" in
    if decide (transitionMode ≠ TransitionExclusive ∧ transitionMode ≠ TransitionFanout)
    then refuse_decode "unsupported transitionMode %q" [AStr transitionMode]
    else
      let? join := within "join" [] (decodeJoin (field_raw wire "join")) in
      let permissions := field_strings wire "permissions" in
      let? _ := within "permissions" [] (validateUniqueStrings permissions) in
      let? transitions := within "transitions" [] (decodeTransitions (go_raws (field_value "transitions" wire))) in
      let? definition := within "definition" [] (decodeResolvedNodeDefinitionRef (field_raw wire "definition")) in
      let prompt := content_reference <$> field_pointer wire "prompt" in
      let? _ := match prompt with
                | None => Ok tt
                | Some reference =>
                    if decide (apiVersion ≠ APIVersionV1Alpha3)
                    then refuse_decode "linked prompts require apiVersion darkstar.local/v1alpha3" []
                    else
                      let? _ := within "prompt" [] (validate_reference reference) in
                      if decide (type ∉ ["reasoning"; "implementation"])
                      then refuse_decode "linked prompts require a reasoning or implementation executor" []
                      else Ok tt
                end in
      Ok {| nf_Prompt := prompt; nf_DisplayName := displayName; nf_Definition := definition;
            nf_Entry := default false (bool_of <$> field_pointer wire "entry");
            nf_Terminal := default false (bool_of <$> field_pointer wire "terminal");
            nf_Inputs := inputs; nf_Outputs := outputs; nf_Readiness := readiness; nf_Validators := validators;
            nf_Retry := retry; nf_Checkpoint := checkpoint; nf_TransitionMode := transitionMode; nf_Join := join;
            nf_Permissions := permissions; nf_Transitions := transitions |}.

(** Exactly the settings of the node's own type are there. *)
Definition check_executor (wire : GoValue) (type : NodeType) : dresult unit :=
  let? _ := forM_ (λ executor : NodeType * string,
      if bool_decide (executor.1 ≠ type) && negb (absent (field_raw wire executor.2))
      then refuse_decode "%s settings are invalid for node type %q" [AStr executor.1; AStr type] else Ok tt)
    executor_fields in
  if existsb (λ executor : NodeType * string,
       bool_decide (executor.1 = type) && negb (absent (field_raw wire executor.2))) executor_fields
  then Ok tt else refuse_decode "%s settings are required" [AStr type].

Definition executor_cases (common : NodeFields) (apiVersion : string) (wire : GoValue)
  : list (NodeType * (unit → dresult Node)) := [
  ("extension", λ _,
    let? e := strictDecode extension_wire (field_raw wire "extension") in
    let? _ := validate_extension (extension_executor e) in Ok (ExtensionNode common (extension_executor e)));
  ("reasoning", λ _,
    let? e := within "reasoning" [] (decodeReasoning (field_raw wire "reasoning")) in Ok (ReasoningNode common e));
  ("gate", λ _, let? e := within "gate" [] (decodeGate (field_raw wire "gate")) in Ok (GateNode common e));
  ("command", λ _, let? e := within "command" [] (decodeCommand (field_raw wire "command")) in Ok (CommandNode common e));
  ("approval", λ _,
    let? e := within "approval" [] (decodeApproval (field_raw wire "approval") apiVersion) in Ok (ApprovalNode common e));
  ("subworkflow", λ _,
    let? call := within "call" [] (decodeSubworkflowCall (field_raw wire "call")) in Ok (SubworkflowNode common call));
  ("point_execution", λ _,
    let? e := within "points" [] (decodePointExecution (field_raw wire "points")) in Ok (PointExecutionNode common e));
  ("workspace_prepare", λ _,
    let? e := decodeWorkspacePrepare (field_raw wire "workspacePrepare") in Ok (WorkspacePrepareNode common e));
  ("workspace_validate", λ _,
    let? e := strictDecode (GoStruct [("workspaceInput", GoString); ("checks", GoSlice (GoSlice GoString))])
                (field_raw wire "workspaceValidate") in
    Ok (WorkspaceValidateNode common
      {| wv_WorkspaceInput := field_string e "workspaceInput";
         wv_Checks := (λ v, go_strings (Some v)) <$> elements_of e "checks" |}));
  ("git_commit", λ _,
    let? e := strictDecode (strings_wire ["workspaceInput"; "changesetInput"; "textInput"]) (field_raw wire "gitCommit") in
    Ok (GitCommitNode common {| gc_WorkspaceInput := field_string e "workspaceInput";
      gc_ChangesetInput := field_string e "changesetInput"; gc_TextInput := field_string e "textInput" |}));
  ("git_push", λ _,
    let? e := strictDecode (strings_wire ["workspaceInput"; "commitInput"; "remote"]) (field_raw wire "gitPush") in
    Ok (GitPushNode common {| gp_WorkspaceInput := field_string e "workspaceInput";
      gp_CommitInput := field_string e "commitInput"; gp_Remote := field_string e "remote" |}));
  ("create_pr", λ _,
    let? e := strictDecode (GoStruct [("workspaceInput", GoString); ("branchInput", GoString); ("textInput", GoString);
                                      ("base", GoString); ("draft", GoBool)]) (field_raw wire "createPR") in
    Ok (CreatePRNode common {| pr_WorkspaceInput := field_string e "workspaceInput";
      pr_BranchInput := field_string e "branchInput"; pr_TextInput := field_string e "textInput";
      pr_Base := field_string e "base"; pr_Draft := go_bool (field_value "draft" e) |}));
  ("implementation", λ _,
    let? e := within "implementation" []
      (strictDecode (strings_wire ["taskInput"; "workspaceInput"; "instructions"]) (field_raw wire "implementation")) in
    if negb (identifierPattern (field_string e "taskInput"))
    then refuse_decode "implementation.taskInput must name an input" []
    else Ok (ImplementationNode common {| ie_TaskInput := field_string e "taskInput";
      ie_WorkspaceInput := field_string e "workspaceInput"; ie_Instructions := field_string e "instructions" |}));
  ("routing", λ _,
    let? e := within "routing" [] (decodeRouting (field_raw wire "routing")) in Ok (RoutingNode common e))].

Definition decodeNode (data : RawMessage) (apiVersion : string) : dresult Node :=
  let? wire := strictDecode node_wire data in
  let type := field_string wire "type" in
  if bool_decide (field_pointer wire "entry" = None) || bool_decide (field_pointer wire "terminal" = None) ||
     absent (field_raw wire "inputs") || absent (field_raw wire "outputs")
  then refuse_decode "type, entry, terminal, inputs, and outputs are required" []
  else
    let? _ := check_node_version wire apiVersion in
    let? common := decode_common wire apiVersion in
    let? _ := check_executor wire type in
    switch type (executor_cases common apiVersion wire) (refuse_decode "unsupported node type %q" [AStr type]).

Definition node_step (apiVersion : string) (raw : gmap string RawMessage) (result : gmap Identifier Node) (name : string)
  : dresult (gmap Identifier Node) :=
  let? _ := check_identifier name in
  let? node := named name (decodeNode (default "" (raw !! name)) apiVersion) in
  Ok (<[name := node]> result).
Definition decodeNodes (data : RawMessage) (apiVersion : string) : dresult (gmap Identifier Node) :=
  let? raw := strictDecode (GoMap GoRaw) data in
  match raw_map raw with
  | None => refuse_decode "must be an object" []
  | Some raw =>
      if decide (raw = ∅) then refuse_decode "at least one node is required" []
      else foldM (node_step apiVersion raw) ∅ (sort_strings (map_to_list raw).*1)
  end.

(** * Specification and document *)
Definition profile_wire : GoType :=
  GoStruct [("description", GoString); ("entry", GoString); ("terminals", GoSlice GoString);
            ("inputDefaults", GoMap GoRaw)].
Definition profile_default (name : string) (input : Identifier * RawMessage) : dresult unit :=
  if negb (identifierPattern input.1) || absent input.2 || negb (Valid input.2)
  then refuse_decode "%s.inputDefaults contains invalid input %q" [AStr name; AStr input.1] else Ok tt.
Definition profile_step (result : gmap Identifier RouteProfile) (entry : string * RawMessage)
  : dresult (gmap Identifier RouteProfile) :=
  let '(name, value) := entry in
  let? _ := check_identifier name in
  let? wire := within "%s" [AStr name] (strictDecode profile_wire value) in
  let description := field_string wire "description" in
  let entry := field_string wire "entry" in
  let terminals := field_strings wire "terminals" in
  if blank description then refuse_decode "%s.description is required" [AStr name]
  else
    let? _ := within "%s.entry" [AStr name] (check_identifier entry) in
    if decide (terminals = []) then refuse_decode "%s.terminals must contain at least one node" [AStr name]
    else
      let? _ := within "%s.terminals" [AStr name] (of_message (validateIdentifierList terminals true)) in
      match field_value "inputDefaults" wire ≫= raw_map with
      | None => refuse_decode "%s.inputDefaults is required" [AStr name]
      | Some inputDefaults =>
          let? _ := forM_ (profile_default name) (range_map "decodeProfiles inputDefaults" inputDefaults) in
          Ok (<[name := {| rpf_Description := description; rpf_Entry := entry; rpf_Terminals := terminals;
                           rpf_InputDefaults := inputDefaults |}]> result)
      end.
Definition decodeProfiles (data : RawMessage) : dresult (gmap Identifier RouteProfile) :=
  if absent data then Ok ∅
  else
    let? raw := strictDecode (GoMap GoRaw) data in
    foldM profile_step ∅ (range_map "decodeProfiles" (default ∅ (raw_map raw))).

Definition at_default {A} (field : string) : dresult A → dresult A :=
  on_error (λ e, atDecodePath "routeDefaults" (atDecodePath field e)).
Definition decode_defaults (data : RawMessage) : dresult RouteDefaults :=
  let? wire := within "routeDefaults" []
    (strictDecode (GoStruct [("entry", GoString); ("terminals", GoSlice GoString)]) data) in
  let entry := field_string wire "entry" in
  let terminals := field_strings wire "terminals" in
  let? _ := within "routeDefaults.entry" [] (at_default "entry" (check_identifier entry)) in
  if decide (terminals = []) then
    at_default "terminals" (refuse_decode "routeDefaults.terminals must contain at least one node" [])
  else
    let? _ := within "routeDefaults.terminals" [] (at_default "terminals" (of_message (validateIdentifierList terminals true))) in
    Ok {| rd_Entry := entry; rd_Terminals := terminals |}.

Definition spec_wire : GoType :=
  GoStruct [("inputs", GoRaw); ("routeDefaults", GoRaw); ("profiles", GoRaw); ("nodes", GoRaw)].
Definition decodeSpec (data : RawMessage) (apiVersion : string) : dresult Spec :=
  let? wire := strictDecode spec_wire data in
  let profiles := field_raw wire "profiles" in
  if absent (field_raw wire "routeDefaults") || absent (field_raw wire "nodes")
  then refuse_decode "routeDefaults and nodes are required" []
  else if bool_decide (apiVersion = APIVersionV1Alpha1) && negb (absent profiles)
  then refuse_decode "profiles require apiVersion darkstar.local/v1alpha2" []
  else
    let? inputs := if absent (field_raw wire "inputs") then Ok ∅
      else within "inputs" [] (on_error (prependDecodePath "inputs") (decodeValueDeclarations (field_raw wire "inputs"))) in
    let? defaults := decode_defaults (field_raw wire "routeDefaults") in
    let? nodes := within "nodes" [] (on_error (prependDecodePath "nodes") (decodeNodes (field_raw wire "nodes") apiVersion)) in
    let? profiles := within "profiles" [] (on_error (prependDecodePath "profiles") (decodeProfiles profiles)) in
    Ok {| spec_Inputs := inputs; spec_RouteDefaults := defaults; spec_Profiles := profiles; spec_Nodes := nodes |}.

Definition metadata_wire : GoType :=
  GoStruct [("name", GoString); ("version", GoString); ("displayName", GoRaw); ("description", GoString)].
Definition decodeMetadata (data : RawMessage) : dresult Metadata :=
  let? wire := strictDecode metadata_wire data in
  let name := field_string wire "name" in
  let version := field_string wire "version" in
  if negb (workflowNamePattern name) then refuse_decode "name %q is invalid" [AStr name]
  else if negb (semanticVersionPattern version) then refuse_decode "version %q is not a supported semantic version" [AStr version]
  else
    let? displayName := within "displayName" [] (decodeOptionalNonEmptyString (field_raw wire "displayName")) in
    Ok {| md_Name := name; md_Version := version; md_DisplayName := displayName;
          md_Description := field_string wire "description" |}.

Definition apiVersions : list string := [APIVersionV1Alpha1; APIVersionV1Alpha2; APIVersionV1Alpha3].
Definition validateDocument (document : Document) : dresult unit :=
  if decide (doc_APIVersion document ∉ apiVersions ∨ doc_Kind document ≠ KindWorkflow)
  then refuse_decode "document has an unsupported apiVersion or kind" []
  else if negb (workflowNamePattern (md_Name (doc_Metadata document))) ||
          negb (semanticVersionPattern (md_Version (doc_Metadata document)))
  then refuse_decode "document metadata is invalid" []
  else if decide (nodes_of document = ∅ ∨ rd_Terminals (spec_RouteDefaults (doc_Spec document)) = [])
  then refuse_decode "document requires nodes and route terminals" []
  else Ok tt.
(** [Document.UnmarshalJSON]. *)
Definition decodeDocument (data : RawMessage) : dresult Document :=
  let? wire := strictDecode (GoStruct [("apiVersion", GoString); ("kind", GoString); ("metadata", GoRaw); ("spec", GoRaw)])
                 data in
  let apiVersion := field_string wire "apiVersion" in
  let kind := field_string wire "kind" in
  if decide (apiVersion ∉ apiVersions)
  then refuse_decode "apiVersion must be %q, %q, or %q" (AStr <$> apiVersions)
  else if decide (kind ≠ KindWorkflow) then refuse_decode "kind must be %q" [AStr KindWorkflow]
  else if absent (field_raw wire "metadata") || absent (field_raw wire "spec")
  then refuse_decode "metadata and spec are required" []
  else
    let? metadata :=
      within "metadata" [] (on_error (prependDecodePath "metadata") (decodeMetadata (field_raw wire "metadata"))) in
    let? spec := within "spec" [] (on_error (prependDecodePath "spec") (decodeSpec (field_raw wire "spec") apiVersion)) in
    let document := {| doc_APIVersion := apiVersion; doc_Kind := kind; doc_Metadata := metadata; doc_Spec := spec |} in
    let? _ := validateDocument document in
    Ok document.

(** [Decode]: [json.Unmarshal] checks the whole text and hands the value to the document. *)
Definition Decode (data : RawMessage) : dresult Document :=
  if negb (Valid data) then Err JsonFailed else decodeDocument (trim_json data).
(** The location of a [DecodeError] that has a path. *)
Definition decode_location (e : decode_error) : option string :=
  (λ segments, "/" +:+ GoStrings.Join segments "/") <$> located e.
End document.
