(* ===== verification/DocumentTypes.v ===== *)
(** Well-formed workflow documents: what the types of [core/workflow/schema.go] do not say of the
    documents the program works with, and every document it decodes satisfies. *)
From S2P Require Import Prelude GoStrings GoJson GoEncode JsonText JsonCut GoDecode GoClosed RawTexts ClosedFacts Schema Identity Deliverable WireDecode NodeDecode DocumentDecode.
From stdpp Require Import options.

(** * Values and predicates *)
Definition identifier (s : Identifier) : Prop := identifierPattern s = true.
Definition value_type (s : ValueType) : Prop :=
  s ∈ valueTypes ∨ ∃ name, s = "schema:" +:+ name ∧ identifier name.
(** Text that has something in it. *)
Definition worded (s : string) : Prop := utf8 s ∧ blank s = false.

Inductive operand_ok : Operand → Prop :=
| reference_ok ref : operandReferencePattern ref = true → operand_ok (ReferenceOperand ref)
| literal_ok raw : is_text raw → operand_ok (LiteralOperand raw).
Inductive predicate_ok : Predicate → Prop :=
| constant_ok b : predicate_ok (ConstantPredicate b)
| comparison_ok op l r : op ∈ comparisons → operand_ok l → operand_ok r → predicate_ok (ComparisonPredicate op l r)
| present_ok ref : operandReferencePattern ref = true → predicate_ok (PresentPredicate ref)
| logical_ok op args : op ∈ [LogicalAll; LogicalAny] → args ≠ [] → Forall predicate_ok args →
    predicate_ok (LogicalPredicate op args)
| not_ok arg : predicate_ok arg → predicate_ok (NotPredicate arg).

(** * Declarations and bindings *)
Definition resource_ok (source : ResourceSource) : Prop :=
  match source with
  | ArtifactResource filename content =>
      is_ok (ValidateArtifact {| ac_Filename := filename; ac_TemplateInput := "" |} "placeholder" None) = true ∧
      utf8 filename ∧ utf8 content
  | TemplateResource content version headings =>
      worded content ∧ semanticVersionPattern version = true ∧ Forall utf8 headings
  | TemplateReferenceResource reference => valid_content_reference reference = true
  | ConstantResource value => is_text value
  | ConfigResource key => worded key
  | TaskResource | RepositoryResource | OpenItemsResource | DecisionLogResource => True
  end.
Record value_declaration_ok (d : ValueDeclaration) : Prop := {
  vd_type_ok : value_type (vd_Type d);
  vd_resource_ok : ∀ source, vd_Resource d = Some source → resource_ok source;
  vd_schema_ok : raw_ok (vd_SchemaDefinition d);
  vd_texts_ok : utf8 (vd_Schema d) ∧ utf8 (vd_Description d);
}.
Definition artifact_ok (a : ArtifactContract) : Prop := utf8 (ac_Filename a) ∧ utf8 (ac_TemplateInput a).
Record output_declaration_ok (d : OutputDeclaration) : Prop := {
  od_type_ok : value_type (od_Type d);
  od_artifact_ok : ∀ artifact, od_Artifact d = Some artifact → artifact_ok artifact;
  od_schema_ok : raw_ok (od_SchemaDefinition d);
  od_texts_ok : utf8 (od_Schema d) ∧ utf8 (od_Description d);
}.
Definition binding_description (b : Binding) : string :=
  match b with RequiredBinding _ _ _ description | OptionalBinding _ _ _ _ description => description end.
Definition binding_default (b : Binding) : option RawMessage :=
  match b with RequiredBinding _ _ _ _ => None | OptionalBinding _ _ _ default _ => default end.
Record binding_ok (b : Binding) : Prop := {
  b_source_ok : bindingSourcePattern (Source b) = true;
  b_type_ok : value_type (BindingValueType b);
  b_pointer_ok : validJSONPointer (bindingPointer b) = true ∧ utf8 (bindingPointer b);
  b_default_ok : ∀ raw, binding_default b = Some raw → is_text raw;
  b_description_ok : utf8 (binding_description b);
}.

(** * Policies *)
Record transition_ok (t : Transition) : Prop := {
  t_ids_ok : identifier (ID t) ∧ identifier (Target t);
  t_when_ok : tf_When (transitionFields t) = NilPredicate ∨ predicate_ok (tf_When (transitionFields t));
  t_limit_ok : ∀ common limit, t = BoundedTransition common limit → (1 ≤ limit ≤ 10000)%Z;
}.
Record join_ok (j : Schema.Join) : Prop := {
  j_mode_ok : join_Mode j ∈ [JoinOne; JoinAll];
  j_from_ok : 2 ≤ length (join_From j) ∧ NoDup (join_From j) ∧ Forall identifier (join_From j);
}.
Definition revisions_ok (n : option Z) : Prop := ∀ limit, n = Some limit → (0 ≤ limit ≤ 100)%Z.
Definition checkpoint_ok (c : Checkpoint) : Prop :=
  match c with
  | NoCheckpoint | AcknowledgeCheckpoint => True
  | ApproveCheckpoint revisions => revisions_ok revisions
  | ApproveOnChangeCheckpoint when revisions => predicate_ok when ∧ revisions_ok revisions
  | ExternalCheckpoint condition => worded condition
  end.
Record retry_ok (r : RetryPolicy) : Prop := {
  r_attempts_ok : (1 ≤ rp_MaxAttempts r ≤ 100)%Z;
  r_failures_ok : NoDup (rp_On r) ∧ Forall (λ failure, failure ∈ retryFailures) (rp_On r);
}.
Record extension_ok (e : ExtensionExecutor) : Prop := {
  x_ref_ok : valid_extension_ref (xe_Ref e) = true;
  x_configuration_ok : ∃ members, raw_text (xe_Configuration e) (JObject members);
}.
Definition validator_ok (v : Validator) : Prop :=
  match v with
  | SchemaValidator output schema => identifier output ∧ worded schema
  | CommandValidator command => command ≠ [] ∧ Forall utf8 command
  | ExtensionValidator extension => extension_ok extension
  end.
Record readiness_ok (c : ReadinessContract) : Prop := {
  rc_evidence_ok : NoDup (er_Role <$> rc_RecommendedEvidence c) ∧
    Forall (λ e, identifier (er_Role e) ∧ worded (er_Description e)) (rc_RecommendedEvidence c);
  rc_gates_ok : NoDup (rpg_Policy <$> rc_PolicyGates c) ∧
    Forall (λ g, identifier (rpg_Policy g) ∧ rpg_Enforcement g ∈ ["advisory"; "blocking"; "external"] ∧
                 worded (rpg_Description g)) (rc_PolicyGates c);
  rc_invariants_ok : NoDup (rc_Invariants c) ∧ Forall utf8 (rc_Invariants c);
  rc_remedies_ok : NoDup (rr_Code <$> rc_Remedies c) ∧
    Forall (λ r, identifier (rr_Code r) ∧ identifier (rr_Target r) ∧ rr_Action r ∈ remedy_actions ∧
                 worded (rr_Description r)) (rc_Remedies c);
}.
Definition definition_ref_ok (r : NodeDefinitionRef) : Prop :=
  match r with
  | BuiltInNodeDefinitionRef name version => workflowNamePattern name = true ∧ semanticVersionPattern version = true
  | ProjectNodeDefinitionRef owner name version | UserNodeDefinitionRef owner name version =>
      worded owner ∧ workflowNamePattern name = true ∧ semanticVersionPattern version = true
  end.
Record definition_ok (d : ResolvedNodeDefinitionRef) : Prop := {
  d_ref_ok : ∃ ref, rnd_Ref d = Some ref ∧ definition_ref_ok ref;
  d_digest_ok : digestPattern (rnd_Digest d) = true;
}.

(** * Executors *)
Record routing_ok (e : RoutingExecutor) : Prop := {
  re_agent_ok : worded (re_Agent e);
  re_branches_ok : re_Branches e ≠ [] ∧ NoDup (rb_Name <$> re_Branches e) ∧ NoDup (rb_Transition <$> re_Branches e) ∧
    Forall (λ b, identifier (rb_Name b) ∧ identifier (rb_Transition b)) (re_Branches e);
  re_outputs_ok : Forall (λ output, identifier output.2) (routing_outputs e);
}.
Record call_ok (c : SubworkflowCall) : Prop := {
  sc_workflow_ok : worded (wr_Name (sc_Workflow c)) ∧ worded (wr_Version (sc_Workflow c)) ∧
    utf8 (wr_Path (sc_Workflow c)) ∧ (wr_Digest (sc_Workflow c) = "" ∨ digestPattern (wr_Digest (sc_Workflow c)) = true);
  sc_entry_ok : identifier (sc_Entry c);
  sc_terminals_ok : sc_Terminals c ≠ [] ∧ NoDup (sc_Terminals c) ∧ Forall identifier (sc_Terminals c);
  sc_inputs_ok : ∀ name source, sc_Inputs c !! name = Some source → identifier name ∧ identifier source;
  sc_outputs_ok : ∀ name source, sc_Outputs c !! name = Some source → identifier name ∧ outputSourcePattern source = true;
}.
Definition point_approvals : list string := ["none"; "every"; "combined"; "risk"].
Record points_ok (e : PointExecutionExecutor) : Prop := {
  pe_input_ok : identifier (pe_PlanInput e);
  pe_approval_ok : pe_Approval e ∈ point_approvals ∧ (pe_RiskTags e ≠ [] ↔ pe_Approval e = "risk");
  pe_tags_ok : NoDup (pe_RiskTags e) ∧ Forall (λ tag, worded tag ∧ TrimSpace tag = tag) (pe_RiskTags e);
  pe_modes_ok : pe_Validation e ∈ ["each"; "combined"; "each_and_combined"] ∧
    pe_Publishing e ∈ ["after_story_validation"; "after_each_point"];
}.
Definition approval_ok (apiVersion : string) (e : ApprovalExecutor) : Prop :=
  match e with
  | NamedApproval name => worded name ∧ name ≠ "external"
  | ExternalApproval condition evidence =>
      worded condition ∧ (if decide (apiVersion = APIVersionV1Alpha1) then evidence = "" else identifier evidence)
  end.
Definition checkout_ok (plan : CheckoutPlan) : Prop :=
  match plan with CurrentCheckout => True | NewWorktree base branch => worded base ∧ worded branch end.
Definition executor_ok (apiVersion : string) (n : Node) : Prop :=
  match n with
  | ReasoningNode _ e =>
      worded (rx_Agent e) ∧ utf8 (rx_Instructions e) ∧ NoDup (rx_Skills e) ∧ Forall utf8 (rx_Skills e) ∧
      NoDup (rx_Tools e) ∧ Forall utf8 (rx_Tools e)
  | GateNode _ e => worded (ge_Policy e) ∧ predicate_ok (ge_Condition e)
  | CommandNode _ e =>
      ce_Argv e ≠ [] ∧ Forall utf8 (ce_Argv e) ∧ utf8 (ce_CWD e) ∧
      ∀ seconds, ce_TimeoutSeconds e = Some seconds → (1 ≤ seconds < 2 ^ 64)%Z
  | ApprovalNode _ e => approval_ok apiVersion e
  | SubworkflowNode _ call => call_ok call
  | PointExecutionNode _ e => points_ok e
  | RoutingNode _ e => routing_ok e
  | WorkspacePrepareNode _ e =>
      utf8 (wp_RepositoryInput e) ∧ ∃ plan, wp_Checkout e = Some plan ∧ checkout_ok plan
  | WorkspaceValidateNode _ e => utf8 (wv_WorkspaceInput e) ∧ Forall (Forall utf8) (wv_Checks e)
  | GitCommitNode _ e => utf8 (gc_WorkspaceInput e) ∧ utf8 (gc_ChangesetInput e) ∧ utf8 (gc_TextInput e)
  | GitPushNode _ e => utf8 (gp_WorkspaceInput e) ∧ utf8 (gp_CommitInput e) ∧ utf8 (gp_Remote e)
  | CreatePRNode _ e =>
      utf8 (pr_WorkspaceInput e) ∧ utf8 (pr_BranchInput e) ∧ utf8 (pr_TextInput e) ∧ utf8 (pr_Base e)
  | ImplementationNode _ e => identifier (ie_TaskInput e) ∧ utf8 (ie_WorkspaceInput e) ∧ utf8 (ie_Instructions e)
  | ExtensionNode _ e => extension_ok e
  end.

(** * Nodes *)
(** The types only the latest version has, and those the first one lacks. *)
Definition v1alpha3_types : list NodeType :=
  ["git_commit"; "git_push"; "create_pr"; "implementation"; "workspace_prepare"; "workspace_validate"; "routing"; "extension"].
Record fields_ok (apiVersion : string) (type : NodeType) (f : NodeFields) : Prop := {
  nf_name_ok : utf8 (nf_DisplayName f);
  nf_prompt_ok : ∀ prompt, nf_Prompt f = Some prompt →
    apiVersion = APIVersionV1Alpha3 ∧ valid_content_reference prompt = true ∧ type ∈ ["reasoning"; "implementation"];
  nf_definition_ok : ∀ definition, nf_Definition f = Some definition →
    apiVersion = APIVersionV1Alpha3 ∧ definition_ok definition;
  nf_readiness_ok : ∀ readiness, nf_Readiness f = Some readiness →
    apiVersion ≠ APIVersionV1Alpha1 ∧ readiness_ok readiness;
  nf_inputs_ok : ∀ name binding, nf_Inputs f !! name = Some binding → identifier name ∧ binding_ok binding;
  nf_outputs_ok : ∀ name output, nf_Outputs f !! name = Some output → identifier name ∧ output_declaration_ok output;
  nf_validators_ok : Forall validator_ok (nf_Validators f) ∧
    (existsb is_extension_validator (nf_Validators f) = true → apiVersion = APIVersionV1Alpha3);
  nf_retry_ok : ∀ retry, nf_Retry f = Some retry → retry_ok retry;
  nf_checkpoint_ok : ∀ checkpoint, nf_Checkpoint f = Some checkpoint → checkpoint_ok checkpoint;
  nf_mode_ok : nf_TransitionMode f ∈ [TransitionExclusive; TransitionFanout];
  nf_join_ok : ∀ join, nf_Join f = Some join → join_ok join;
  nf_permissions_ok : NoDup (nf_Permissions f) ∧ Forall utf8 (nf_Permissions f);
  nf_transitions_ok : Forall transition_ok (nf_Transitions f);
}.
Record node_ok (apiVersion : string) (n : Node) : Prop := {
  n_version_ok : (NodeTypeOf n ∈ v1alpha3_types → apiVersion = APIVersionV1Alpha3) ∧
                 (NodeTypeOf n = "point_execution" → apiVersion ≠ APIVersionV1Alpha1);
  n_fields_ok : fields_ok apiVersion (NodeTypeOf n) (Fields n);
  n_executor_ok : executor_ok apiVersion n;
}.

(** * Documents *)
Record profile_ok (p : RouteProfile) : Prop := {
  rpf_description_ok : worded (rpf_Description p);
  rpf_entry_ok : identifier (rpf_Entry p);
  rpf_terminals_ok : rpf_Terminals p ≠ [] ∧ NoDup (rpf_Terminals p) ∧ Forall identifier (rpf_Terminals p);
  rpf_defaults_ok : ∀ name raw, rpf_InputDefaults p !! name = Some raw → identifier name ∧ is_text raw;
}.
Record document_ok (d : Document) : Prop := {
  doc_version_ok : doc_APIVersion d ∈ apiVersions ∧ doc_Kind d = KindWorkflow;
  doc_metadata_ok : workflowNamePattern (md_Name (doc_Metadata d)) = true ∧
    semanticVersionPattern (md_Version (doc_Metadata d)) = true ∧
    utf8 (md_DisplayName (doc_Metadata d)) ∧ utf8 (md_Description (doc_Metadata d));
  doc_inputs_ok : ∀ name input, spec_Inputs (doc_Spec d) !! name = Some input →
    identifier name ∧ value_declaration_ok input;
  doc_defaults_ok : identifier (rd_Entry (spec_RouteDefaults (doc_Spec d))) ∧
    rd_Terminals (spec_RouteDefaults (doc_Spec d)) ≠ [] ∧ NoDup (rd_Terminals (spec_RouteDefaults (doc_Spec d))) ∧
    Forall identifier (rd_Terminals (spec_RouteDefaults (doc_Spec d)));
  doc_profiles_ok : (spec_Profiles (doc_Spec d) ≠ ∅ → doc_APIVersion d ≠ APIVersionV1Alpha1) ∧
    ∀ name profile, spec_Profiles (doc_Spec d) !! name = Some profile → identifier name ∧ profile_ok profile;
  doc_nodes_ok : nodes_of d ≠ ∅ ∧
    ∀ name node, nodes_of d !! name = Some node → identifier name ∧ node_ok (doc_APIVersion d) node;
}.
