(* ===== verification/DecodeSafety.v ===== *)
(** Whatever [Decode] accepts is a well-formed document: each decode function is shown to answer
    only values of [DocumentTypes]. *)
From S2P Require Import Prelude GoStrings GoJson GoEncode JsonText JsonRoundTrip JsonCut GoCompact GoDecode GoClosed RawTexts ClosedFacts Schema Identity Deliverable WireDecode NodeDecode DocumentDecode DocumentTypes.
From stdpp Require Import options.

Create HintDb decode.
Create Rewrite HintDb decode.

(** * Results *)
Lemma within_Ok {A} format args (r : dresult A) a : within format args r = Ok a ↔ r = Ok a.
Proof. destruct r; simpl; split; congruence. Qed.
Lemma on_error_Ok {A} f (r : dresult A) a : on_error f r = Ok a ↔ r = Ok a.
Proof. destruct r; simpl; split; congruence. Qed.
Lemma of_message_Ok {A} (r : result msg A) a : of_message r = Ok a ↔ r = Ok a.
Proof. destruct r; simpl; split; congruence. Qed.
Lemma of_json_Ok {A} (v : option A) a : of_json v = Ok a ↔ v = Some a.
Proof. destruct v; simpl; split; congruence. Qed.
Lemma named_Ok {A} name (r : dresult A) a : named name r = Ok a ↔ r = Ok a.
Proof. unfold named. by rewrite within_Ok, on_error_Ok. Qed.
Lemma named_field_Ok {A} name field (r : dresult A) a : named_field name field r = Ok a ↔ r = Ok a.
Proof. unfold named_field. by rewrite within_Ok, on_error_Ok. Qed.
#[export] Hint Rewrite @within_Ok @on_error_Ok @of_message_Ok @of_json_Ok @named_Ok @named_field_Ok : decode.

Lemma strictDecode_typed t raw w : type_ok t = true → strictDecode t raw = Ok w → has_type (str_length raw) t w.
Proof. intros Ht Hw%of_json_Ok. eapply decodeClosedJSON_typed; [done| |done]. destruct t; simpl; lia. Qed.
Lemma Unmarshal_typed t raw w : type_ok t = true → UnmarshalInto t raw = Some w → has_type (str_length raw) t w.
Proof. intros Ht Hw. eapply UnmarshalInto_typed; [done| |done]. destruct t; simpl; lia. Qed.

(** Split a successful decoding into its successful steps. *)
Ltac decoded :=
  repeat match goal with
  | H : result_bind ?r ?f = Ok _ |- _ =>
      let a := fresh "a" in let Ha := fresh "Ha" in
      apply result_bind_Ok in H; destruct H as (a & Ha & H); cbn beta zeta in H
  | H : (if ?b then refuse_decode _ _ else _) = Ok _ |- _ =>
      let Hb := fresh "Hb" in destruct b eqn:Hb; [discriminate H|];
      try match type of Hb with decide _ = _ => clear Hb end
  | H : (if ?b then _ else refuse_decode _ _) = Ok _ |- _ =>
      let Hb := fresh "Hb" in destruct b eqn:Hb; [|discriminate H];
      try match type of Hb with decide _ = _ => clear Hb end
  | H : within _ _ _ = Ok _ |- _ => rewrite within_Ok in H
  | H : on_error _ _ = Ok _ |- _ => rewrite on_error_Ok in H
  | H : of_message _ = Ok _ |- _ => rewrite of_message_Ok in H
  | H : of_json _ = Ok _ |- _ => rewrite of_json_Ok in H
  | H : named _ _ = Ok _ |- _ => rewrite named_Ok in H
  | H : named_field _ _ _ = Ok _ |- _ => rewrite named_field_Ok in H
  | H : strictDecode ?t ?raw = Ok ?w |- _ =>
      let Hw := fresh "Htyped" in
      assert (has_type (str_length raw) t w) as Hw by (refine (strictDecode_typed t raw w _ H); vm_compute; reflexivity); clear H
  | H : UnmarshalInto ?t ?raw = Some ?w |- _ =>
      let Hw := fresh "Htyped" in
      assert (has_type (str_length raw) t w) as Hw by (refine (Unmarshal_typed t raw w _ H); vm_compute; reflexivity); clear H
  | H : Ok _ = Ok _ |- _ => injection H as H; subst
  | H : Err _ = Ok _ |- _ => discriminate H
  | H : refuse_decode _ _ = Ok _ |- _ => discriminate H
  | x : unit |- _ => destruct x
  end.

(** * What is read off a typed wire struct *)
Section wire.
Context (bound : nat) (fields : list (string * GoType)) (w : GoValue).
Hypothesis Hw : has_type bound (GoStruct fields) w.

Lemma wire_string name : utf8 (field_string w name).
Proof using Hw.
  unfold field_string. destruct (field_value name w) as [v|] eqn:Hv; [|constructor].
  destruct (field_value_some _ _ _ _ _ Hw Hv) as (t & _ & Ht). by eapply string_utf8.
Qed.
Lemma wire_raw name : raw_ok (field_raw w name).
Proof using Hw.
  unfold field_raw. destruct (field_value name w) as [v|] eqn:Hv; [|by left].
  destruct (field_value_some _ _ _ _ _ Hw Hv) as (t & _ & Ht). by eapply read_raw_ok.
Qed.
Lemma wire_text name : absent (field_raw w name) = false → is_text (field_raw w name).
Proof using Hw. intros Hname%bool_decide_eq_false_1. by destruct (wire_raw name). Qed.
Lemma wire_uint name : (0 ≤ go_uint (field_value name w))%Z.
Proof using Hw.
  destruct (field_value name w) as [v|] eqn:Hv; [|done].
  destruct (field_value_some _ _ _ _ _ Hw Hv) as (t & _ & Ht). by eapply uint_nonneg.
Qed.
Lemma wire_slice name t : field_type fields name = Some (GoSlice t) →
  Forall (has_type bound t) (go_elements (field_value name w)).
Proof using Hw.
  intros Ht. destruct (field_value_typed _ _ _ _ _ Hw Ht) as (v & -> & Hv). by apply elements_typed.
Qed.
Lemma wire_strings name : field_type fields name = Some (GoSlice GoString) → Forall utf8 (field_strings w name).
Proof using Hw.
  intros Hall%wire_slice. unfold field_strings, go_strings. apply Forall_fmap. eapply Forall_impl; [exact Hall|].
  intros v Hv. by eapply string_utf8.
Qed.
Lemma wire_raws name : field_type fields name = Some (GoSlice GoRaw) → Forall raw_ok (go_raws (field_value name w)).
Proof using Hw.
  intros Hall%wire_slice. unfold go_raws. apply Forall_fmap. eapply Forall_impl; [exact Hall|].
  intros v Hv. by eapply read_raw_ok.
Qed.
Lemma wire_pointer name t v : field_type fields name = Some (GoPtr t) → field_pointer w name = Some v → has_type bound t v.
Proof using Hw.
  intros Ht. unfold field_pointer. destruct (field_value_typed _ _ _ _ _ Hw Ht) as (x & -> & Hx).
  by apply pointer_typed.
Qed.
Lemma wire_field name t : field_type fields name = Some t → has_type bound t (default (zero_value t) (field_value name w)).
Proof using Hw. intros Ht. by destruct (field_value_typed _ _ _ _ _ Hw Ht) as (x & -> & Hx). Qed.
End wire.
#[export] Hint Resolve wire_string wire_raw wire_text wire_uint wire_strings wire_raws : decode.

(** A loop that appends what it decodes. *)
Lemma foldM_i_collect {A B} (step : list B → nat → A → dresult (list B)) (f : nat → A → dresult B) :
  (∀ acc i a, step acc i a = (let? b := f i a in Ok (acc ++ [b]))) →
  ∀ l i acc r, foldM_i_from i step acc l = Ok r →
  ∃ bs, r = acc ++ bs ∧ Forall2 (λ a b, ∃ i, f i a = Ok b) l bs.
Proof.
  intros Hstep. induction l as [|x l IH]; intros i acc r; simpl.
  { intros [= <-]. exists []. by rewrite app_nil_r. }
  rewrite Hstep. intros (acc' & (b & Hb & [= <-])%result_bind_Ok & Hr)%result_bind_Ok.
  apply IH in Hr as (bs & -> & Hbs). exists (b :: bs). rewrite <-app_assoc. split; [done|].
  constructor; [by exists i|done].
Qed.
Lemma collect_Forall {A B} (step : list B → nat → A → dresult (list B)) (f : nat → A → dresult B) (P : A → Prop) (Q : B → Prop) l r :
  (∀ acc i a, step acc i a = (let? b := f i a in Ok (acc ++ [b]))) →
  (∀ i a b, P a → f i a = Ok b → Q b) → Forall P l →
  foldM_i step [] l = Ok r → length r = length l ∧ Forall Q r.
Proof.
  intros Hstep Hf Hl Hr. apply (foldM_i_collect step f Hstep) in Hr as (bs & -> & Hbs). simpl.
  split; [symmetry; by eapply Forall2_length|]. clear Hstep. induction Hbs as [|a b l bs [i Hb] _ IH]; [constructor|].
  inversion Hl; subst. constructor; [by eapply Hf|by apply IH].
Qed.

(** * Predicates *)
Lemma decodeOperand_ok data o : decodeOperand data = Ok o → operand_ok o.
Proof.
  unfold decodeOperand. intros H. decoded. destruct (field_pointer a "ref") as [ref|] eqn:Href; decoded.
  - bool_to_prop. by constructor.
  - constructor. apply (wire_text _ _ _ Htyped). by destruct (absent (field_raw a "literal")).
Qed.
Lemma operator_agrees data w d : decodeClosedJSON args_wire data = Some w → UnmarshalInto predicate_tag data = Some d →
  field_string w "op" = field_string d "op".
Proof.
  apply string_field_agrees; [by apply (bool_decide_unpack _); vm_compute|by left|
                              by apply (bool_decide_unpack _); vm_compute|by right; left].
Qed.
Lemma decode_tagged_ok decode data p :
  (∀ raw q, decode raw = Ok q → predicate_ok q) → decode_tagged decode data = Ok p → predicate_ok p.
Proof.
  intros Hdecode H. unfold decode_tagged in H. apply result_bind_Ok in H as (d & Hd%of_json_Ok & H). cbv zeta in H.
  case_decide; [decoded; constructor|].
  destruct (decide (field_string d "op" ∈ comparisons)) as [Hop|_]; [|case_decide; [|case_decide as Hop; [|case_decide]]].
  - unfold decode_comparison in H. apply result_bind_Ok in H as (w & Hw%of_json_Ok & H).
    pose proof (operator_agrees _ _ _ Hw Hd) as Hsame.
    destruct (go_raws _) as [|arg0 [|arg1 [|]]]; try done. decoded.
    constructor; [by rewrite Hsame|by eapply decodeOperand_ok..].
  - unfold decode_present in H. decoded. apply decodeOperand_ok in Ha0.
    destruct a0; decoded. inversion Ha0; subst. by constructor.
  - unfold decode_logical in H. apply result_bind_Ok in H as (w & Hw%of_json_Ok & H).
    pose proof (operator_agrees _ _ _ Hw Hd) as Hsame.
    cbv zeta in H. case_decide as Hne; [done|]. decoded.
    apply (collect_Forall _ (λ i raw, within "args.%d" [AInt (Z.of_nat i)] (decode raw)) (λ _, True) predicate_ok)
      in Ha as [Hlen Hall]; [|done| |by apply Forall_true].
    + constructor; [by rewrite Hsame| |done]. intros ->. by destruct (go_raws _).
    + intros i raw q _ Hq%within_Ok. by eapply Hdecode.
  - unfold decode_not in H. decoded. constructor. by eapply Hdecode.
  - done.
Qed.
Lemma decode_predicate_ok fuel data p : decode_predicate fuel data = Ok p → predicate_ok p.
Proof. revert data p. induction fuel as [|fuel IH]; intros data p; [done|]. apply decode_tagged_ok, IH. Qed.
Lemma decodePredicate_ok data p : decodePredicate data = Ok p → predicate_ok p.
Proof. apply decode_predicate_ok. Qed.

(** Nested predicates are shorter than the text they stand in, so that the length of the text is
    enough fuel. *)
Lemma args_shorter data w raw : strictDecode args_wire data = Ok w → raw ∈ go_raws (field_value "args" w) →
  str_length raw < str_length data.
Proof.
  intros Hw%of_json_Ok Hraw. assert (0 < str_length data) by (destruct data; [done|simpl; lia]).
  cut (str_length raw ≤ pred (str_length data)); [lia|]. apply (decodeClosedJSON_typed (pred (str_length data))) in Hw; [|done|simpl; lia].
  pose proof (wire_slice _ _ _ Hw "args" _ eq_refl) as Hall. rewrite Forall_forall in Hall.
  apply list_elem_of_fmap in Hraw as (v & -> & Hv). by eapply read_raw_length, Hall.
Qed.
Lemma arg_shorter data w : strictDecode arg_wire data = Ok w → str_length (field_raw w "arg") < str_length data.
Proof.
  intros Hw%of_json_Ok. assert (0 < str_length data) by (destruct data; [done|simpl; lia]).
  cut (str_length (field_raw w "arg") ≤ pred (str_length data)); [lia|]. apply (decodeClosedJSON_typed (pred (str_length data))) in Hw; [|done|simpl; lia].
  destruct (field_value_typed _ _ _ "arg" GoRaw Hw) as (v & Hv & Ht); [reflexivity|].
  unfold field_raw. rewrite Hv. by eapply read_raw_length.
Qed.
Lemma decode_tagged_ext decode decode' data :
  (∀ raw, str_length raw < str_length data → decode raw = decode' raw) →
  decode_tagged decode data = decode_tagged decode' data.
Proof.
  intros Hext. unfold decode_tagged. destruct (of_json _) as [d|]; [|done]. cbn [result_bind].
  do 3 (case_decide; [done|]). case_decide; [|case_decide; [|done]].
  - unfold decode_logical. destruct (strictDecode args_wire data) as [w|] eqn:Hw; [|done]. cbn [result_bind].
    case_decide; [done|]. erewrite foldM_i_ext; [reflexivity|]. intros acc i raw Hraw. unfold decode_argument.
    rewrite Hext; [done|]. by eapply args_shorter.
  - unfold decode_not. destruct (strictDecode arg_wire data) as [w|] eqn:Hw; [|done]. cbn [result_bind].
    rewrite Hext; [done|]. by apply arg_shorter.
Qed.
Lemma decode_predicate_enough fuel data : str_length data < fuel → decode_predicate fuel data = decodePredicate data.
Proof.
  assert (∀ f f' raw, str_length raw < f → str_length raw < f' → decode_predicate f raw = decode_predicate f' raw) as Hgen.
  { induction f as [|f IH]; intros [|f'] raw Hf Hf'; try lia; cbn [decode_predicate].
    apply decode_tagged_ext. intros raw' Hr. apply IH; lia. }
  intros Hf. apply Hgen; lia.
Qed.

(** * Checks *)
Lemma check_identifier_ok s : check_identifier s = Ok tt → identifier s.
Proof. intros H%of_message_Ok. by apply validateIdentifier_Ok. Qed.
Lemma validateValueType_ok s : validateValueType s = Ok tt → value_type s.
Proof.
  unfold validateValueType, HasPrefix, TrimPrefix. destruct (strip_prefix "schema:" s) as [name|] eqn:Hs; simpl.
  - apply strip_prefix_Some in Hs as ->. intros Hn%check_identifier_ok. right. by exists name.
  - case_decide; [by left|done].
Qed.
Lemma unique_step_ok message seen s seen' : unique_step message seen s = Ok seen' → s ∉ seen ∧ seen' = {[s]} ∪ seen.
Proof. unfold unique_step. case_decide; [done|]. by intros [= <-]. Qed.
(** A loop that remembers one text of each item. *)
Lemma unique_loop {A} (step : gset string → nat → A → dresult (gset string)) (key : A → string) (P : A → Prop) l :
  (∀ seen i a seen', step seen i a = Ok seen' → P a ∧ key a ∉ seen ∧ seen' = {[key a]} ∪ seen) →
  ∀ i seen seen', foldM_i_from i step seen l = Ok seen' →
  Forall P l ∧ NoDup (key <$> l) ∧ ∀ a, a ∈ l → key a ∉ seen.
Proof.
  intros Hstep. induction l as [|a l IH]; intros i seen seen'; simpl.
  { intros _. split_and!; [constructor..|]. by intros a ?%elem_of_nil. }
  intros (seen1 & Ha & Hl)%result_bind_Ok. apply Hstep in Ha as (HP & Hnew & ->).
  apply IH in Hl as (Hall & Hnd & Hseen). split_and!; [by constructor|..].
  - constructor; [|done]. intros (b & Heq & Hb)%list_elem_of_fmap. apply (Hseen b Hb). rewrite <-Heq. set_solver.
  - intros b [->|Hb]%elem_of_cons; [done|]. specialize (Hseen b Hb). set_solver.
Qed.
Lemma unique_strings_ok values seen seen' message : foldM (unique_step message) seen values = Ok seen' →
  NoDup values ∧ ∀ s, s ∈ values → s ∉ seen.
Proof.
  revert seen. induction values as [|s values IH]; intros seen; simpl.
  { intros _. split; [constructor|]. by intros s ?%elem_of_nil. }
  intros (seen1 & Hs & Hl)%result_bind_Ok. apply unique_step_ok in Hs as (Hnew & ->).
  apply IH in Hl as (Hnd & Hseen). split.
  - constructor; [|done]. intros Hs. apply Hseen in Hs. set_solver.
  - intros s' [->|Hs]%elem_of_cons; [done|]. apply Hseen in Hs. set_solver.
Qed.
Lemma validateUniqueStrings_ok values : validateUniqueStrings values = Ok tt → NoDup values.
Proof. unfold validateUniqueStrings. intros Hu. decoded. by apply unique_strings_ok in Ha as [? _]. Qed.
Lemma identifier_list_ok values : validateIdentifierList values true = Ok tt →
  NoDup values ∧ Forall identifier values.
Proof. intros [Hall Hnd]%validateIdentifierList_Ok. split; [by apply Hnd|done]. Qed.
Lemma worded_string bound fields w name : has_type bound (GoStruct fields) w → blank (field_string w name) = false →
  worded (field_string w name).
Proof. intros Hw Hb. split; [by eapply wire_string|done]. Qed.
Lemma optional_string_ok data s : decodeOptionalNonEmptyString data = Ok s → utf8 s.
Proof.
  unfold decodeOptionalNonEmptyString. case_match; [intros [= <-]; constructor|]. case_decide; [done|].
  intros Hs. decoded. by eapply string_utf8.
Qed.
#[export] Hint Resolve check_identifier_ok validateValueType_ok validateUniqueStrings_ok worded_string optional_string_ok
  decodePredicate_ok : decode.

(** * Resources *)
Lemma decode_kind_ok kind decode body source :
  (kind, decode) ∈ resource_kinds → decode body = Ok source → resource_ok source.
Proof.
  intros Hkind Hd. unfold resource_kinds in Hkind.
  repeat (apply elem_of_cons in Hkind as [[= -> ->]|Hkind]); [..|by apply elem_of_nil in Hkind].
  - unfold decode_artifact_resource in Hd. decoded. split_and!; [done|by eapply wire_string..].
  - unfold decode_empty in Hd. by decoded.
  - unfold decode_empty in Hd. by decoded.
  - unfold decode_template in Hd. decoded. bool_to_prop. split_and!; [by eapply worded_string|done|].
    by eapply wire_strings.
  - unfold decode_template_reference, validate_reference in Hd. decoded. by simpl.
  - unfold decode_constant in Hd. decoded. by eapply wire_text.
  - unfold decode_config in Hd. decoded. by eapply worded_string.
  - unfold decode_empty in Hd. by decoded.
  - unfold decode_empty in Hd. by decoded.
Qed.
Lemma decodeResource_ok data source : decodeResource data = Ok source → resource_ok source.
Proof.
  unfold decodeResource. intros Hd. apply result_bind_Ok in Hd as (fields & _ & Hd). cbv zeta in Hd.
  destruct (UnmarshalInto GoString _) as [kind|]; [|done].
  destruct (List.find _ resource_kinds) as [[k decode]|] eqn:Hk; [|done].
  apply List.find_some in Hk as [Hk%list_elem_of_In _]. by eapply decode_kind_ok.
Qed.

(** * Declarations *)
Section maps.
Context `{!GoRange}.

Lemma raw_map_lookup bound v m name raw : has_type bound (GoMap GoRaw) v → raw_map v = Some m → m !! name = Some raw →
  raw_ok raw.
Proof.
  intros Hv. unfold raw_map. destruct (go_map (Some v)) as [g|] eqn:Hg; [|done]. intros [= <-].
  rewrite lookup_fmap. intros (x & Hx & ->)%fmap_Some. destruct (map_entries_lookup _ _ _ _ _ _ Hv Hg Hx) as [_ Ht].
  by eapply read_raw_ok.
Qed.
Lemma decode_entry_step {A} (decode : string → RawMessage → dresult A) result k raw :
  decode_entry decode result (k, raw) =
  (let? value := (let? _ := check_identifier k in decode k raw) in Ok (<[k := value]> result)).
Proof. unfold decode_entry. simpl. by destruct (check_identifier k), (decode k raw). Qed.
Lemma decode_entries_ok {A} site (decode : string → RawMessage → dresult A) data m :
  decode_entries site decode data = Ok m →
  ∀ name a, m !! name = Some a → identifier name ∧ ∃ raw, raw_ok raw ∧ decode name raw = Ok a.
Proof.
  unfold decode_entries. intros Hd name a Ha. decoded. destruct (raw_map a0) as [raw|] eqn:Hraw; [|done].
  rewrite (foldM_map_Ok _ _ (decode_entry_step decode)) in Hd.
  specialize (Hd name). destruct (raw !! name) as [text|] eqn:Htext; [|congruence].
  destruct Hd as (b & Hb & Hm). decoded. simplify_eq. split; [by apply check_identifier_ok|].
  exists text. split; [by eapply raw_map_lookup|done].
Qed.
Lemma decode_declaration_fields_ok rest name value w schema :
  type_ok (declaration_wire rest) = true → decode_declaration_fields rest name value = Ok (w, schema) →
  has_type (str_length value) (declaration_wire rest) w ∧ value_type (field_string w "type") ∧ utf8 schema.
Proof.
  intros Hrest. unfold decode_declaration_fields. intros Hd.
  apply result_bind_Ok in Hd as (w' & Hw%named_Ok & Hd). apply (strictDecode_typed _ _ _ Hrest) in Hw. decoded.
  split_and!; [done|by apply validateValueType_ok|by eapply optional_string_ok].
Qed.
Lemma decode_value_declaration_ok name value d : decode_value_declaration name value = Ok d → value_declaration_ok d.
Proof.
  unfold decode_value_declaration. intros Hd. apply result_bind_Ok in Hd as ([w schema] & Hw & Hd).
  apply decode_declaration_fields_ok in Hw as (Hw & Htype & Hschema); [|vm_compute; reflexivity].
  injection Hd as <-. split; simpl; [done| |by eapply wire_raw|by split; [|eapply wire_string]].
  intros source. unfold resource_of. destruct (field_pointer w "resource") as [v|]; [|done]. cbn.
  destruct (decodeResource _) as [s|] eqn:Hs; [|done]. intros [= <-]. by eapply decodeResource_ok.
Qed.
Lemma decode_output_declaration_ok name value d : decode_output_declaration name value = Ok d → output_declaration_ok d.
Proof.
  unfold decode_output_declaration. intros Hd. apply result_bind_Ok in Hd as ([w schema] & Hw & Hd).
  apply decode_declaration_fields_ok in Hw as (Hw & Htype & Hschema); [|vm_compute; reflexivity].
  injection Hd as <-. split; simpl; [done| |by eapply wire_raw|by split; [|eapply wire_string]].
  intros artifact (v & Hv & ->)%fmap_Some. eapply (wire_pointer _ _ _ Hw "artifact") in Hv; [|reflexivity].
  split; by eapply wire_string.
Qed.
Lemma decodeBinding_ok data b : decodeBinding data = Ok b → binding_ok b.
Proof.
  unfold decodeBinding. intros Hd. apply result_bind_Ok in Hd as (w & Hw & Hd). cbv zeta in Hd. decoded.
  case_match eqn:Hfrom; [decoded|]. decoded. bool_to_prop. case_match eqn:Hp; [decoded|]. bool_to_prop.
  pose proof (validateValueType_ok _ Ha).
  case_match; [case_match; decoded|decoded]; (split; simpl; [done|done|split; [done|]; by eapply wire_string|..]);
    try (by eapply wire_string); intros raw; [done|].
  destruct (absent (field_raw w "default")) eqn:Hdef; [done|]. intros [= <-]. by eapply wire_text.
Qed.
Lemma decodeBindings_ok data m : decodeBindings data = Ok m →
  ∀ name b, m !! name = Some b → identifier name ∧ binding_ok b.
Proof.
  intros Hd name b Hb. eapply decode_entries_ok in Hd as (? & raw & _ & Hraw); [|done].
  split; [done|]. apply named_Ok in Hraw. by eapply decodeBinding_ok.
Qed.
End maps.

(** * Policies *)
Lemma decodeTransition_ok data t : decodeTransition data = Ok t → transition_ok t.
Proof.
  unfold decodeTransition. intros Hd. apply result_bind_Ok in Hd as (w & Hw & Hd). decoded.
  apply check_identifier_ok in Ha, Ha0.
  assert (a1 = NilPredicate ∨ predicate_ok a1) as Hwhen.
  { destruct (absent (field_raw w "when")); [left; congruence|right]. rewrite within_Ok in Ha1. by eapply decodePredicate_ok. }
  case_decide; [decoded; by split|]. case_decide; [|done]. destruct (uint_of <$> _) as [n|] eqn:Hn; [|done]. decoded.
  split; [done..|]. intros common limit [= <- <-]. apply fmap_Some in Hn as (v & Hv & ->).
  eapply (wire_pointer _ _ _ Htyped "maxTraversals") in Hv; [|reflexivity]. pose proof (uint_nonneg _ _ _ Hv).
  unfold uint_of in *. lia.
Qed.
Lemma decodeTransitions_ok raws l : decodeTransitions raws = Ok l → Forall transition_ok l.
Proof.
  intros Hd. apply (collect_Forall _ (λ i raw, within "%d" [AInt (Z.of_nat i)] (decodeTransition raw)) (λ _, True) transition_ok)
    in Hd as [_ Hall]; [done|done| |by apply Forall_true].
  intros i raw t _ Ht. apply within_Ok in Ht. by eapply decodeTransition_ok.
Qed.
Lemma decodeJoin_ok data j : decodeJoin data = Ok (Some j) → join_ok j.
Proof.
  unfold decodeJoin. intros Hd. case_match; [done|]. decoded. apply identifier_list_ok in Ha0 as [Hnd Hall].
  match goal with H : (_ <? 2)%nat = false |- _ => apply Nat.ltb_ge in H end.
  split; simpl; [|done]. destruct (decide (field_string a "mode" = JoinOne)) as [->|]; [by left|].
  destruct (decide (field_string a "mode" = JoinAll)) as [->|]; [by right; left|].
  match goal with H : ¬ (_ ∧ _) |- _ => by destruct H end.
Qed.
Lemma revisions_of_ok bound fields w n : has_type bound (GoStruct fields) w →
  field_type fields "maxRevisions" = Some (GoPtr (GoUint 8)) → revisions_of w = Ok n → revisions_ok n.
Proof.
  intros Hw Hf. unfold revisions_of. destruct (uint_of <$> _) as [m|] eqn:Hm; [|by intros [= <-] ? [=]].
  case_decide; [done|]. intros [= <-] limit [= <-]. apply fmap_Some in Hm as (v & Hv & ->).
  eapply (wire_pointer _ _ _ Hw "maxRevisions") in Hv; [|done]. pose proof (uint_nonneg _ _ _ Hv).
  unfold uint_of in *. lia.
Qed.
Lemma checkpoint_shorthand_ok data c : checkpoint_shorthand data = Ok c → checkpoint_ok c.
Proof.
  unfold checkpoint_shorthand. intros Hd. decoded. repeat (case_decide; [decoded; done|]). done.
Qed.
Lemma checkpoint_object_ok data c : checkpoint_object data = Ok c → checkpoint_ok c.
Proof.
  unfold checkpoint_object. intros Hd. apply result_bind_Ok in Hd as (d & _ & Hd). cbv zeta in Hd.
  case_decide; [decoded; by case_decide|]. case_decide; [|case_decide; [|case_decide; [|done]]]; decoded.
  - simpl. eapply revisions_of_ok in Ha0; [done..|reflexivity].
  - split; [by eapply decodePredicate_ok|]. eapply revisions_of_ok in Ha0; [done..|reflexivity].
  - by eapply worded_string.
Qed.
Lemma decodeCheckpoint_ok data c : decodeCheckpoint data = Ok (Some c) → checkpoint_ok c.
Proof.
  unfold decodeCheckpoint. case_match; [done|]. intros (x & Hx & [= ->])%result_bind_Ok.
  case_match; [by eapply checkpoint_shorthand_ok|by eapply checkpoint_object_ok].
Qed.
Lemma decodeRetry_ok data r : decodeRetry data = Ok (Some r) → retry_ok r.
Proof.
  unfold decodeRetry. case_match; [done|]. intros Hd. decoded. bool_to_prop.
  pose proof (wire_uint _ _ _ Htyped "maxAttempts"). split; simpl; [lia|].
  assert (∀ l seen seen', foldM retry_step seen l = Ok seen' →
    foldM (unique_step "duplicate failure %q") seen l = Ok seen' ∧ Forall (λ failure, failure ∈ retryFailures) l) as Hgen.
  { induction l as [|s l IH]; intros seen seen'; simpl; [by split; [|constructor]|].
    intros (seen1 & Hs & Hl)%result_bind_Ok. unfold retry_step in Hs.
    destruct (validRetryFailure s) eqn:Hf; [|done]. apply bool_decide_eq_true_1 in Hf. cbn [negb] in Hs.
    rewrite Hs. simpl. apply IH in Hl as [Hl Hall]. split; [done|by constructor]. }
  apply Hgen in Ha0 as [Hu Hall]. split; [|done]. by apply unique_strings_ok in Hu as [? _].
Qed.

(** * Extensions and validators *)
Lemma extension_executor_ok bound w : has_type bound extension_wire w → validate_extension (extension_executor w) = Ok tt →
  extension_ok (extension_executor w).
Proof.
  intros Hw. unfold validate_extension. intros Hd. case_match eqn:Href; [done|]. bool_to_prop.
  destruct (UnmarshalInto (GoMap GoRaw) _) as [v|] eqn:Hu; [|done].
  split; [done|]. unfold UnmarshalInto in Hu. cbn [type_depth decode_into] in Hu.
  destruct (wire_raw _ _ _ Hw "configuration") as [Hnone|[j Hj]]; simpl in Hu |- *; [by rewrite Hnone in Hu|].
  pose proof (raw_text_Unmarshal _ _ Hj) as [Hparse _]. rewrite Hparse in Hu.
  destruct j; try done; [by injection Hu as <-|]. by eexists.
Qed.
Lemma decode_validator_ok result i data l : Forall validator_ok result →
  decode_validator result i data = Ok l → Forall validator_ok l.
Proof.
  intros Hresult. unfold decode_validator. intros Hd. apply result_bind_Ok in Hd as (w & Hw & Hd). cbv zeta in Hd.
  decoded. destruct (field_pointer w "extension") as [x|] eqn:Hx.
  - decoded. eapply (wire_pointer _ _ _ Htyped "extension") in Hx; [|reflexivity].
    apply Forall_app. split; [done|]. constructor; [|constructor]. by eapply extension_executor_ok.
  - case_match; [done|]. case_match.
    + decoded. apply Forall_app. split; [done|]. constructor; [|constructor].
      split; [by apply check_identifier_ok|by eapply worded_string].
    + decoded. apply Forall_app. split; [done|]. constructor; [|constructor]. split; [done|by eapply wire_strings].
Qed.
Lemma decodeValidators_ok raws l : decodeValidators raws = Ok l → Forall validator_ok l.
Proof.
  unfold decodeValidators. assert (∀ i acc, Forall validator_ok acc → foldM_i_from i decode_validator acc raws = Ok l →
    Forall validator_ok l) as Hgen; [|by apply Hgen].
  induction raws as [|raw raws IH]; intros i acc Hacc; simpl; [by intros [= <-]|].
  intros (acc' & Hstep & Hl)%result_bind_Ok. eapply IH; [|done]. by eapply decode_validator_ok.
Qed.
