(* ===== verification/NodeChecks.v ===== *)
(** Static validation, the checks on nodes, profiles and resources: [validateNodes] and what it
    calls, and [validateProfiles], of [runtime/src/core/workflow/validate.go]; [validateWorkspace]
    of [workspace.go] with [component_requirements.json]; [validateResources] of [resources.go]. *)
From S2P Require Import Prelude GoStrings GoUnicode GoJson GoNumber GoFloat GoGraph Schema Issues NodeJson Route GraphChecks Deliverable.
From stdpp Require Import options.

(** * Types of values *)
Definition typesCompatible (source target : ValueType) : bool :=
  bool_decide (source = target) || bool_decide (source = ValueInteger ∧ target = ValueNumber).

Definition rawValueType (raw : RawMessage) : option ValueType :=
  match Decode raw with
  | Some JNull => Some ValueNull
  | Some (JBool _) => Some ValueBoolean
  | Some (JString _) => Some ValueString
  | Some (JArray _) => Some ValueArray
  | Some (JObject _) => Some ValueObject
  | Some (JNumber lit) =>
      match Number_Int64 lit with
      | Some _ => Some ValueInteger
      | None => match ParseFloat lit with Some _ => Some ValueNumber | None => None end
      end
  | None => None
  end.

Definition validComparison (operator : string) (left_ right_ : ValueType) : bool :=
  let compatible := typesCompatible left_ right_ || typesCompatible right_ left_ in
  if decide (operator = CompareEqual ∨ operator = CompareNotEqual) then compatible
  else if decide (left_ = ValueString ∧ right_ = ValueString) then true
  else bool_decide ((left_ = ValueInteger ∨ left_ = ValueNumber) ∧
                    (right_ = ValueInteger ∨ right_ = ValueNumber)).

Fixpoint predicateHasPrefix (predicate : Predicate) (prefix : string) : bool :=
  match predicate with
  | ComparisonPredicate _ l r =>
      existsb (λ operand, match operand with
                          | ReferenceOperand ref => HasPrefix ref prefix
                          | _ => false
                          end) [l; r]
  | PresentPredicate ref => HasPrefix ref prefix
  | LogicalPredicate _ args => existsb (λ arg, predicateHasPrefix arg prefix) args
  | NotPredicate arg => predicateHasPrefix arg prefix
  | ConstantPredicate _ | NilPredicate => false
  end.

(** A value without a type is named by the empty type in messages. *)
Definition type_name (type : option ValueType) : string := default "" type.

Definition is_required (binding : Binding) : bool :=
  match binding with RequiredBinding _ _ _ _ => true | _ => false end.

(** * Capabilities *)
Definition CapabilitySkill : string := "skill".
Definition CapabilityTool : string := "tool".
Record CapabilityReference := { cap_Kind : string; cap_Name : string }.
#[global] Instance CapabilityReference_eq_dec : EqDecision CapabilityReference.
Proof. solve_decision. Defined.
#[global] Program Instance CapabilityReference_countable : Countable CapabilityReference := {|
  encode r := encode (cap_Kind r, cap_Name r);
  decode n := (λ p, {| cap_Kind := p.1; cap_Name := p.2 |}) <$> decode n;
|}.
Next Obligation. intros [k n]. by rewrite decode_encode. Qed.
Abbreviation CapabilitySnapshot := (gset CapabilityReference).
Definition NewCapabilitySnapshot (references : list CapabilityReference) : CapabilitySnapshot :=
  list_to_set references.
(** A validator without a snapshot does not check capabilities. *)
Definition HasCapability (snapshot : CapabilitySnapshot) (kind name : string) : bool :=
  bool_decide ({| cap_Kind := kind; cap_Name := name |} ∈ snapshot).

(** * Component requirements *)
Record ComponentConnection := {
  cc_Direction : string; cc_Field : string; cc_ID : Identifier; cc_Type : ValueType;
  cc_LegacyOptional : bool;
}.

(** [component_requirements.json]. *)
Definition componentRequirementsJSON : string := quoted "{
  'workspace_prepare': {
    'instructions': 'Connect the run repository. Choose current_checkout or new_worktree. A new worktree uses baseRef=project_default unless explicitly overridden, and requires a branch; {runId} may appear in the branch name. Never assume main or master exists. Connect workspace output to Implementation and Validate workspace, and connect execution order separately.',
    'connections': [
      {
        'direction': 'input',
        'field': 'repositoryInput',
        'type': 'repository'
      },
      {
        'direction': 'output',
        'id': 'workspace',
        'type': 'workspace'
      }
    ]
  },
  'implementation': {
    'instructions': 'Connect task and the prepared workspace. Optional Markdown inputs provide supporting instructions, not a mandatory plan. Declare changeset and process.run/workspace.write permissions. Existing workflows without workspaceInput retain legacy project-checkout execution; all newly authored flows must explicitly connect workspaceInput.',
    'connections': [
      {
        'direction': 'input',
        'field': 'workspaceInput',
        'type': 'workspace',
        'legacyOptional': true
      },
      {
        'direction': 'output',
        'id': 'changeset',
        'type': 'schema:changeset_v1'
      }
    ]
  },
  'workspace_validate': {
    'instructions': 'Connect the same prepared workspace used by Implementation. Place this component after Implementation in execution order. Configure required checks as executable/argument arrays, not shell command strings. At least one check is required. Nonzero exit or timeout fails the run, preventing Done. Use this component as the terminal when checks must pass before completion.',
    'connections': [
      {
        'direction': 'input',
        'field': 'workspaceInput',
        'type': 'workspace'
      },
      {
        'direction': 'output',
        'id': 'validation',
        'type': 'schema:validation_v1'
      }
    ]
  },
  'git_commit': {
    'instructions': 'Commit the connected sealed Changeset using connected DeliveryText in the connected Workspace. Requires no validation or approval node. Does not push. The changeset snapshot and text must match.',
    'connections': [
      {
        'direction': 'input',
        'field': 'workspaceInput',
        'type': 'workspace'
      },
      {
        'direction': 'input',
        'field': 'changesetInput',
        'type': 'schema:changeset_v1'
      },
      {
        'direction': 'input',
        'field': 'textInput',
        'type': 'schema:delivery_text_v1'
      },
      {
        'direction': 'output',
        'id': 'commit',
        'type': 'schema:commit_v1'
      }
    ]
  },
  'git_push': {
    'instructions': 'Push the exact connected Commit to the configured GitHub remote. Connect its Workspace. No implicit validation or approval prerequisite; does not create a PR.',
    'connections': [
      {
        'direction': 'input',
        'field': 'workspaceInput',
        'type': 'workspace'
      },
      {
        'direction': 'input',
        'field': 'commitInput',
        'type': 'schema:commit_v1'
      },
      {
        'direction': 'output',
        'id': 'branch',
        'type': 'schema:published_branch_v1'
      }
    ]
  },
  'create_pr': {
    'instructions': 'Create or reconcile a PR from the connected PublishedBranch and DeliveryText in the connected Workspace. Set base to remote_default or an explicit target branch and choose draft true/false. No implicit approval or validation prerequisite.',
    'connections': [
      {
        'direction': 'input',
        'field': 'workspaceInput',
        'type': 'workspace'
      },
      {
        'direction': 'input',
        'field': 'branchInput',
        'type': 'schema:published_branch_v1'
      },
      {
        'direction': 'input',
        'field': 'textInput',
        'type': 'schema:delivery_text_v1'
      },
      {
        'direction': 'output',
        'id': 'pull_request',
        'type': 'schema:pull_request_v1'
      }
    ]
  }
}
".

Definition connection_text (connection : Json) (name : string) : string :=
  json_text (json_member name (Some connection)).
Definition decode_connection (connection : Json) : ComponentConnection := {|
  cc_Direction := connection_text connection "direction"; cc_Field := connection_text connection "field";
  cc_ID := connection_text connection "id"; cc_Type := connection_text connection "type";
  cc_LegacyOptional :=
    match json_member "legacyOptional" (Some connection) with Some (JBool b) => b | _ => false end;
|}.
Definition ComponentRequirements (nodeType : NodeType) : list ComponentConnection :=
  match json_member "connections" (json_member nodeType (Unmarshal componentRequirementsJSON)) with
  | Some (JArray connections) => decode_connection <$> connections
  | _ => []
  end.

Example commit_connections :
  (λ c, (cc_Direction c, cc_Field c, cc_ID c, cc_Type c)) <$> ComponentRequirements "git_commit" =
  [("input", "workspaceInput", "", "workspace"); ("input", "changesetInput", "", "schema:changeset_v1");
   ("input", "textInput", "", "schema:delivery_text_v1"); ("output", "", "commit", "schema:commit_v1")] ∧
  ComponentRequirements "reasoning" = [].
Proof. vm_compute. split; reflexivity. Qed.

(** * The checks of one node *)
Section node_checks.
Context `{!GoRange}.
Variables (document : Document) (state : indexes).
Abbreviation nodes := (nodes_of document).
Abbreviation run_inputs := (spec_Inputs (doc_Spec document)).

(** ** Bindings *)
Definition bindingSourceType (source : string) : option ValueType :=
  match Split source "."%char with
  | [p0; p1; p2] =>
      if decide (p0 = "run" ∧ p1 = "input") then vd_Type <$> run_inputs !! p2 else None
  | [p0; p1; p2; p3] =>
      if decide (p0 = "node" ∧ p2 = "output") then
        nodes !! p1 ≫= λ node, od_Type <$> nf_Outputs (Fields node) !! p3
      else None
  | _ => None
  end.

Definition binding_location (nodeID inputID : Identifier) : string :=
  node_location nodeID +:+ "/inputs/" +:+ inputID.
Definition source_errors (nodeID inputID : Identifier) (binding : Binding) : ValidationErrors :=
  let location := binding_location nodeID inputID in
  match bindingSourceType (Source binding) with
  | None =>
      [add ValidationReferenceMissing (Msg "unknown binding source %q" [AStr (Source binding)])
         (location +:+ "/from") ∅]
  | Some sourceType =>
      if bool_decide (bindingPointer binding = "") &&
         negb (typesCompatible sourceType (BindingValueType binding))
      then [add ValidationBindingIncompatible
              (Msg "binding %q expects %s from %s"
                 [AStr inputID; AStr (BindingValueType binding); AStr sourceType]) location ∅]
      else []
  end.
(** A default that is not of the declared type. *)
Definition default_mismatch (raw : RawMessage) (kind : ValueType) : bool :=
  match rawValueType raw with
  | Some actual => negb (typesCompatible actual (StorageType kind))
  | None => true
  end.
Definition default_errors (nodeID inputID : Identifier) (binding : Binding) : ValidationErrors :=
  match binding with
  | OptionalBinding _ _ type (Some default) _ =>
      if default_mismatch default type
      then [add ValidationBindingIncompatible
              (Msg "default for %q has type %s, want %s"
                 [AStr inputID; AStr (type_name (rawValueType default)); AStr type])
              (binding_location nodeID inputID +:+ "/default") ∅]
      else []
  | _ => []
  end.
Definition binding_errors (nodeID : Identifier) (fields : NodeFields) (inputID : Identifier)
  : ValidationErrors :=
  match nf_Inputs fields !! inputID with
  | Some binding => source_errors nodeID inputID binding ++ default_errors nodeID inputID binding
  | None => []
  end.
Definition validateBindings (nodeID : Identifier) (fields : NodeFields) : ValidationErrors :=
  flat_map (binding_errors nodeID fields) (sortedBindingIDs (nf_Inputs fields)).

(** ** Readiness *)
Definition remedy_errors (nodeID : Identifier) (index : nat) (remedy : ReadinessRemedy)
  : ValidationErrors :=
  let location := node_location nodeID +:+ "/readiness/remedies/" +:+ itoa index +:+ "/target" in
  let target := rr_Target remedy in
  match nodes !! target with
  | None =>
      [add ValidationReferenceMissing
         (Msg "readiness remedy targets unknown node %q" [AStr target]) location ∅]
  | Some _ =>
      if bool_decide (target ≠ nodeID) && negb (nodeReaches document state target nodeID)
      then [add ValidationReadinessInvalid
              (Msg "readiness remedy target %q is not upstream of node %q" [AStr target; AStr nodeID])
              location ∅]
      else []
  end.
Definition concat_i {A} (f : nat → A → ValidationErrors) (l : list A) : ValidationErrors :=
  concat (imap f l).
Definition validateReadiness (nodeID : Identifier) (fields : NodeFields) : ValidationErrors :=
  match nf_Readiness fields with
  | None => []
  | Some readiness => concat_i (remedy_errors nodeID) (rc_Remedies readiness)
  end.

(** ** Executors *)
Definition validateApproval (nodeID : Identifier) (node : Node) (fields : NodeFields)
  : ValidationErrors :=
  match node with
  | ApprovalNode _ (ExternalApproval _ evidenceOutput) =>
      let location := node_location nodeID +:+ "/approval/evidenceOutput" in
      match nf_Outputs fields !! evidenceOutput with
      | None =>
          [add ValidationReferenceMissing
             (Msg "external evidence references unknown output %q" [AStr evidenceOutput]) location ∅]
      | Some declaration =>
          if decide (StorageType (od_Type declaration) ≠ ValueObject ∨ od_Schema declaration = "")
          then [add ValidationBindingIncompatible
                  (Msg "external evidence output %q must be an object with a schema"
                     [AStr evidenceOutput]) location ∅]
          else []
      end
  | _ => []
  end.

Definition validatePointExecution (nodeID : Identifier) (node : Node) (fields : NodeFields)
  : ValidationErrors :=
  match node with
  | PointExecutionNode _ executor =>
      let location := node_location nodeID +:+ "/points/planInput" in
      let input := pe_PlanInput executor in
      match nf_Inputs fields !! input with
      | None =>
          [add ValidationReferenceMissing
             (Msg "point executor references unknown input %q" [AStr input]) location ∅]
      | Some binding =>
          if decide (BindingValueType binding ≠ ValueMarkdown ∧
                     StorageType (BindingValueType binding) ≠ ValueObject)
          then [add ValidationBindingIncompatible
                  (Msg "point execution plan input %q must be a Markdown plan" [AStr input])
                  location ∅]
          else []
      end
  | _ => []
  end.

Definition optional_output (declaration : OutputDeclaration) : bool :=
  bool_decide (od_Required declaration = Some false).
Definition task_errors (location : string) (binding : option Binding) : ValidationErrors :=
  match binding with
  | None =>
      [add ValidationReferenceMissing (text "Implementation requires its connected task input")
         (location +:+ "/implementation/taskInput") ∅]
  | Some binding =>
      let kind := BindingValueType binding in
      if negb (is_required binding) ||
         bool_decide (kind ≠ ValueTask ∧ StorageType kind ≠ ValueString ∧ StorageType kind ≠ ValueObject)
      then [add ValidationBindingIncompatible
              (text "Implementation task must be a required task, Markdown, string, or object input")
              (location +:+ "/inputs") ∅]
      else []
  end.
Definition changeset_missing (output : option OutputDeclaration) : bool :=
  match output with
  | None => true
  | Some output =>
      bool_decide (od_Type output ≠ ValueObject ∧ od_Type output ≠ "schema:changeset_v1") ||
      optional_output output
  end.
Definition validateImplementation (nodeID : Identifier) (node : Node) (fields : NodeFields)
  : ValidationErrors :=
  match node with
  | ImplementationNode _ executor =>
      let location := node_location nodeID in
      task_errors location (nf_Inputs fields !! ie_TaskInput executor) ++
      (if changeset_missing (nf_Outputs fields !! "changeset")
       then [add ValidationSchemaInvalid (text "Implementation requires an object changeset output")
               (location +:+ "/outputs/changeset") ∅]
       else []) ++
      (if decide (sort_strings (nf_Permissions fields) ≠ ["process.run"; "workspace.write"])
       then [add ValidationSchemaInvalid
               (text "Implementation requires exactly process.run and workspace.write permissions")
               (location +:+ "/permissions") ∅]
       else [])
  | _ => []
  end.

(** ** Workspace components *)
Definition required_input (location : string) (fields : NodeFields) (name : Identifier)
    (kind : ValueType) : ValidationErrors :=
  let connected :=
    match nf_Inputs fields !! name with
    | Some (RequiredBinding _ _ type _) => bool_decide (type = kind)
    | _ => false
    end in
  if connected then []
  else [add ValidationBindingIncompatible
          (Msg "Connect required %s input %q" [AStr kind; AStr name])
          (location +:+ "/inputs/" +:+ name) ∅].
Definition required_output (location : string) (node : Node) (fields : NodeFields)
    (name : Identifier) (kind : ValueType) : ValidationErrors :=
  let legacy := bool_decide (NodeTypeOf node = "implementation" ∨ NodeTypeOf node = "workspace_validate") in
  let declared :=
    match nf_Outputs fields !! name with
    | Some v =>
        (bool_decide (od_Type v = kind) || legacy && bool_decide (od_Type v = StorageType kind)) &&
        negb (optional_output v)
    | None => false
    end in
  if declared then []
  else [add ValidationSchemaInvalid (Msg "Declare required %s output %q" [AStr kind; AStr name])
          (location +:+ "/outputs/" +:+ name) ∅].

(** The executor of the node in its encoding. *)
Definition workspace_executors : list string :=
  ["workspacePrepare"; "workspaceValidate"; "implementation"; "gitCommit"; "gitPush"; "createPR"].
Definition executor_member (node : Node) : option Json :=
  head (omap (λ key, json_member key (node_json node)) workspace_executors).

Definition connection_errors (location : string) (node : Node) (fields : NodeFields)
    (executor : option Json) (connection : ComponentConnection) : ValidationErrors :=
  let id :=
    if decide (cc_Field connection = "") then cc_ID connection
    else json_text (json_member (cc_Field connection) executor) in
  if bool_decide (cc_Field connection ≠ "") && bool_decide (id = "") && cc_LegacyOptional connection
  then []
  else if decide (cc_Direction connection = "input")
  then required_input location fields id (cc_Type connection)
  else required_output location node fields id (cc_Type connection).

Definition invalid_argument (argument : string) : bool := blank argument || HasPrefix argument "-".
Definition check_errors (location : string) (argv : list string) : ValidationErrors :=
  match argv with
  | command :: _ =>
      if blank command then
        [add ValidationSchemaInvalid (text "Each check requires an executable and optional arguments")
           (location +:+ "/workspaceValidate/checks") ∅]
      else []
  | [] =>
      [add ValidationSchemaInvalid (text "Each check requires an executable and optional arguments")
         (location +:+ "/workspaceValidate/checks") ∅]
  end.
Definition settings_errors (location : string) (node : Node) : ValidationErrors :=
  match node with
  | GitPushNode _ executor =>
      if invalid_argument (gp_Remote executor)
      then [add ValidationSchemaInvalid (text "Choose a Git remote") (location +:+ "/gitPush/remote") ∅]
      else []
  | CreatePRNode _ executor =>
      if invalid_argument (pr_Base executor)
      then [add ValidationSchemaInvalid (text "Choose a target branch or remote_default")
              (location +:+ "/createPR/base") ∅]
      else []
  | WorkspacePrepareNode _ executor =>
      match wp_Checkout executor with
      | Some _ => []
      | None =>
          [add ValidationSchemaInvalid (text "Choose current checkout or new worktree")
             (location +:+ "/workspacePrepare/checkout") ∅]
      end
  | WorkspaceValidateNode _ executor =>
      (if decide (length (wv_Checks executor) = 0)
       then [add ValidationSchemaInvalid (text "Add at least one validation command")
               (location +:+ "/workspaceValidate/checks") ∅]
       else []) ++ flat_map (check_errors location) (wv_Checks executor)
  | _ => []
  end.
Definition validateWorkspace (nodeID : Identifier) (node : Node) (fields : NodeFields)
  : ValidationErrors :=
  let location := node_location nodeID in
  flat_map (connection_errors location node fields (executor_member node))
    (ComponentRequirements (NodeTypeOf node)) ++
  settings_errors location node.

(** ** Routing *)
Definition routing_expected (executor : RoutingExecutor) : gmap Identifier ValueType :=
  foldl (λ expected entry, <[entry.1 := entry.2]> expected) ∅
    [(re_RouteOutput executor, ValueString); (re_RationaleOutput executor, ValueString);
     (re_AdviceOutput executor, ValueString); (re_MissingInformationOutput executor, ValueArray);
     (re_AssumptionsOutput executor, ValueArray); (re_ConfirmationOutput executor, ValueBoolean)].
Definition routing_output_errors (nodeID : Identifier) (fields : NodeFields)
    (entry : Identifier * ValueType) : ValidationErrors :=
  let declared :=
    match nf_Outputs fields !! entry.1 with
    | Some declaration => bool_decide (od_Type declaration = entry.2)
    | None => false
    end in
  if declared then []
  else [add ValidationRoutingInvalid
          (Msg "routing output %q must be declared as %s" [AStr entry.1; AStr entry.2])
          (node_location nodeID +:+ "/outputs/" +:+ entry.1) ∅].
Definition routing_branch_errors (nodeID : Identifier) (fields : NodeFields) (index : nat)
    (branch : RoutingBranch) : ValidationErrors :=
  if decide (rb_Transition branch ∈ ID <$> nf_Transitions fields) then []
  else [add ValidationRoutingInvalid
          (Msg "routing branch %q references undeclared transition %q"
             [AStr (rb_Name branch); AStr (rb_Transition branch)])
          (node_location nodeID +:+ "/routing/branches/" +:+ itoa index +:+ "/transition") ∅].
Definition validateRouting (nodeID : Identifier) (node : Node) (fields : NodeFields)
  : ValidationErrors :=
  match node with
  | RoutingNode _ executor =>
      concat_i (routing_branch_errors nodeID fields) (re_Branches executor) ++
      flat_map (routing_output_errors nodeID fields)
        (range_map "validateRouting" (routing_expected executor))
  | _ => []
  end.

(** ** Definitions, validators, sub-workflows, capabilities *)
Definition validateNodeDefinition (nodeID : Identifier) (fields : NodeFields) : ValidationErrors :=
  match nf_Definition fields with
  | None => []
  | Some resolved =>
      if bool_decide (rnd_Ref resolved = None) || negb (digestPattern (rnd_Digest resolved))
      then [add ValidationDefinitionInvalid
              (text "reusable node reference must resolve to an exact version digest")
              (node_location nodeID +:+ "/definition") ∅]
      else []
  end.

Definition validator_errors (nodeID : Identifier) (fields : NodeFields) (index : nat)
    (validator : Validator) : ValidationErrors :=
  match validator with
  | SchemaValidator output _ =>
      match nf_Outputs fields !! output with
      | Some _ => []
      | None =>
          [add ValidationReferenceMissing (Msg "validator references unknown output %q" [AStr output])
             (node_location nodeID +:+ "/validators/" +:+ itoa index +:+ "/output") ∅]
      end
  | _ => []
  end.
Definition validateValidators (nodeID : Identifier) (fields : NodeFields) : ValidationErrors :=
  concat_i (validator_errors nodeID fields) (nf_Validators fields).

Definition call_input_errors (nodeID : Identifier) (fields : NodeFields)
    (entry : Identifier * Identifier) : ValidationErrors :=
  match nf_Inputs fields !! entry.2 with
  | Some _ => []
  | None =>
      [add ValidationReferenceMissing
         (Msg "sub-workflow input %q maps unknown parent input %q" [AStr entry.1; AStr entry.2])
         (node_location nodeID +:+ "/call/inputs/" +:+ entry.1) ∅]
  end.
Definition call_output_errors (nodeID : Identifier) (fields : NodeFields)
    (entry : Identifier * string) : ValidationErrors :=
  match nf_Outputs fields !! entry.1 with
  | Some _ => []
  | None =>
      [add ValidationReferenceMissing
         (Msg "sub-workflow maps unknown parent output %q" [AStr entry.1])
         (node_location nodeID +:+ "/call/outputs/" +:+ entry.1) ∅]
  end.
Definition validateSubworkflow (nodeID : Identifier) (node : Node) (fields : NodeFields)
  : ValidationErrors :=
  match node with
  | SubworkflowNode _ call =>
      flat_map (call_input_errors nodeID fields) (range_map "validateSubworkflow.inputs" (sc_Inputs call)) ++
      flat_map (call_output_errors nodeID fields) (range_map "validateSubworkflow.outputs" (sc_Outputs call))
  | _ => []
  end.

Definition capability_errors (snapshot : CapabilitySnapshot) (kind : string) (location : string)
    (index : nat) (name : string) : ValidationErrors :=
  if HasCapability snapshot kind name then []
  else [add ValidationCapabilityMissing
          (Msg ("required " +:+ kind +:+ " %q is unavailable") [AStr name])
          (location +:+ itoa index) {[ "capabilities" := [name] ]}].
Definition validateCapabilities (capabilities : option CapabilitySnapshot) (nodeID : Identifier)
    (node : Node) : ValidationErrors :=
  match capabilities, node with
  | Some snapshot, ReasoningNode _ executor =>
      concat_i (capability_errors snapshot CapabilitySkill (node_location nodeID +:+ "/reasoning/skills/"))
        (rx_Skills executor) ++
      concat_i (capability_errors snapshot CapabilityTool (node_location nodeID +:+ "/reasoning/tools/"))
        (rx_Tools executor)
  | _, _ => []
  end.

(** ** Predicates *)
Section predicates.
Variables (fields : NodeFields) (allowOutput : bool).

(** The declared type of the root of a reference, and the number of its segments. *)
Definition reference_root (parts : list string) : option (ValueType * nat) :=
  match parts with
  | p0 :: p1 :: rest =>
      if decide (p0 = "output") then
        if allowOutput then (λ d, (od_Type d, 2)) <$> nf_Outputs fields !! p1 else None
      else if decide (p0 = "input") then (λ b, (BindingValueType b, 2)) <$> nf_Inputs fields !! p1
      else
        match rest with
        | p2 :: _ =>
            if decide (p0 = "run" ∧ p1 = "input") then (λ d, (vd_Type d, 3)) <$> run_inputs !! p2 else None
        | [] => None
        end
  | _ => None
  end.

(** The type of a reference when it is known: not that of a part of a value. *)
Definition checkReference (reference location : string) : option ValueType * ValidationErrors :=
  let parts := Split reference "."%char in
  match reference_root parts with
  | None =>
      (None, [add ValidationReferenceMissing (Msg "unknown predicate reference %q" [AStr reference])
                location ∅])
  | Some (type, rootLength) => (if decide (rootLength < length parts) then None else Some type, [])
  end.
Definition checkOperand (operand : Operand) (location : string)
  : option ValueType * ValidationErrors :=
  match operand with
  | ReferenceOperand ref => checkReference ref (location +:+ "/ref")
  | LiteralOperand literal => (rawValueType literal, [])
  | NilOperand => (None, [])
  end.
Definition comparison_mismatch (operator : string) (left_ right_ : option ValueType)
    (location : string) : ValidationErrors :=
  match left_, right_ with
  | Some left_, Some right_ =>
      if validComparison operator left_ right_ then []
      else [add ValidationBindingIncompatible
              (Msg "operator %q cannot compare %s and %s" [AStr operator; AStr left_; AStr right_])
              location ∅]
  | _, _ => []
  end.
Fixpoint checkPredicate (predicate : Predicate) (location : string) : ValidationErrors :=
  match predicate with
  | ConstantPredicate _ | NilPredicate => []
  | ComparisonPredicate operator l r =>
      let '(leftType, leftErrors) := checkOperand l (location +:+ "/args/0") in
      let '(rightType, rightErrors) := checkOperand r (location +:+ "/args/1") in
      leftErrors ++ rightErrors ++ comparison_mismatch operator leftType rightType location
  | PresentPredicate ref => (checkReference ref (location +:+ "/arg/ref")).2
  | LogicalPredicate _ args =>
      (fix check_args (index : nat) (args : list Predicate) : ValidationErrors :=
         match args with
         | [] => []
         | arg :: args =>
             checkPredicate arg (location +:+ "/args/" +:+ itoa index) ++ check_args (S index) args
         end) 0 args
  | NotPredicate arg => checkPredicate arg (location +:+ "/arg")
  end.
End predicates.

Definition is_reasoning (node : Node) : bool :=
  match node with ReasoningNode _ _ => true | _ => false end.
Definition reasoning_branch (nodeID : Identifier) (node : Node) (when : Predicate)
    (format location : string) : ValidationErrors :=
  if is_reasoning node && predicateHasPrefix when "output."
  then [add ValidationReasoningEdgeInvalid (Msg format [AStr nodeID]) location ∅]
  else [].
Definition transition_predicate_errors (nodeID : Identifier) (node : Node) (fields : NodeFields)
    (index : nat) (transition : Transition) : ValidationErrors :=
  let when := tf_When (transitionFields transition) in
  if is_nil_predicate when then []
  else
    let location := transitionLocation nodeID index +:+ "/when" in
    checkPredicate fields true when location ++
    reasoning_branch nodeID node when "reasoning node %q cannot branch on its own output" location.
Definition gate_outputs_declared (fields : NodeFields) : bool :=
  match nf_Outputs fields !! "passed", nf_Outputs fields !! "gate_evidence" with
  | Some passed, Some evidence =>
      bool_decide (od_Type passed = ValueBoolean ∧ StorageType (od_Type evidence) = ValueObject)
  | _, _ => false
  end.
Definition gate_errors (nodeID : Identifier) (node : Node) (fields : NodeFields) : ValidationErrors :=
  match node with
  | GateNode _ executor =>
      let location := node_location nodeID +:+ "/gate/condition" in
      (if gate_outputs_declared fields then []
       else [add ValidationGateInvalid
               (Msg "gate %q must declare passed:boolean and gate_evidence:object outputs" [AStr nodeID])
               (node_location nodeID +:+ "/outputs") ∅]) ++
      checkPredicate fields false (ge_Condition executor) location ++
      (if predicateHasPrefix (ge_Condition executor) "output."
       then [add ValidationGateInvalid (Msg "gate %q condition cannot reference output" [AStr nodeID])
               location ∅]
       else [])
  | _ => []
  end.
Definition checkpoint_errors (nodeID : Identifier) (node : Node) (fields : NodeFields)
  : ValidationErrors :=
  match nf_Checkpoint fields with
  | Some (ApproveOnChangeCheckpoint when _) =>
      let location := node_location nodeID +:+ "/checkpoint/when" in
      checkPredicate fields true when location ++
      reasoning_branch nodeID node when
        "reasoning node %q cannot gate a checkpoint directly on its own output" location
  | _ => []
  end.
Definition validatePredicates (nodeID : Identifier) (node : Node) (fields : NodeFields)
  : ValidationErrors :=
  concat_i (transition_predicate_errors nodeID node fields) (nf_Transitions fields) ++
  gate_errors nodeID node fields ++
  checkpoint_errors nodeID node fields.

(** ** All checks of the nodes *)
Definition node_errors (capabilities : option CapabilitySnapshot) (nodeID : Identifier) (node : Node)
  : ValidationErrors :=
  let fields := Fields node in
  validateBindings nodeID fields ++ validateReadiness nodeID fields ++
  validateApproval nodeID node fields ++ validatePointExecution nodeID node fields ++
  validateImplementation nodeID node fields ++ validateWorkspace nodeID node fields ++
  validateRouting nodeID node fields ++ validateNodeDefinition nodeID fields ++
  validateValidators nodeID fields ++ validatePredicates nodeID node fields ++
  validateSubworkflow nodeID node fields ++ validateCapabilities capabilities nodeID node.
Definition validateNodes (capabilities : option CapabilitySnapshot) (nodeIDs : list Identifier)
  : ValidationErrors :=
  flat_map (for_node document (node_errors capabilities)) nodeIDs.

(** * Profiles *)
Definition profile_location (profileID : Identifier) : string := "/spec/profiles/" +:+ profileID.
Definition profile_terminal_errors (profileID : Identifier) (index : nat) (terminal : Identifier)
  : ValidationErrors :=
  if node_flag nf_Terminal document terminal then []
  else [add ValidationDefaultRouteInvalid (text "profile terminal is absent or not terminal-capable")
          (profile_location profileID +:+ "/terminals/" +:+ itoa index) ∅].
Definition profile_default_errors (profileID : Identifier) (entry : Identifier * RawMessage)
  : ValidationErrors :=
  let location := profile_location profileID +:+ "/inputDefaults/" +:+ entry.1 in
  match run_inputs !! entry.1 with
  | None =>
      [add ValidationReferenceMissing
         (Msg "profile default references unknown run input %q" [AStr entry.1]) location ∅]
  | Some declaration =>
      if default_mismatch entry.2 (vd_Type declaration)
      then [add ValidationBindingIncompatible
              (Msg "profile default for %q has type %s, want %s"
                 [AStr entry.1; AStr (type_name (rawValueType entry.2)); AStr (vd_Type declaration)])
              location ∅]
      else []
  end.
Definition profile_errors (entry : Identifier * RouteProfile) : ValidationErrors :=
  let '(profileID, profile) := entry in
  (if node_flag nf_Entry document (rpf_Entry profile) then []
   else [add ValidationDefaultRouteInvalid (text "profile entry is absent or not entry-capable")
           (profile_location profileID +:+ "/entry") ∅]) ++
  concat_i (profile_terminal_errors profileID) (rpf_Terminals profile) ++
  flat_map (profile_default_errors profileID)
    (range_map ("validateProfiles." +:+ profileID) (rpf_InputDefaults profile)).
Definition validateProfiles : ValidationErrors :=
  flat_map profile_errors (range_map "validateProfiles" (spec_Profiles (doc_Spec document))).

(** * Resources *)
Context `{!GoInt64, !UnicodeLower}.

(** The text of an error; that of the JSON decoder is not modelled. *)
Definition error_text (e : value_error) : msg :=
  match e with
  | Message m => m
  | JsonFailure => text "invalid JSON"
  | SchemaFailure _ m => m
  | PredicateFailure f => fe_Message f
  end.
Definition reported_error {A} (outcome : vresult A) (location : string) : ValidationErrors :=
  match outcome with
  | Ok _ => []
  | Err e => [add ValidationSchemaInvalid (error_text e) location ∅]
  end.

Definition input_location (id : Identifier) : string := "/spec/inputs/" +:+ id.
Definition resource_type (source : ResourceSource) (declared : ValueType) : ValueType :=
  match source with
  | TaskResource => ValueTask
  | RepositoryResource => ValueRepository
  | TemplateResource _ _ _ | TemplateReferenceResource _ => ValueTemplate
  | OpenItemsResource => ValueOpenItems
  | DecisionLogResource => ValueDecisionLog
  | ArtifactResource _ _ => ValueMarkdown
  | ConstantResource _ | ConfigResource _ => declared
  end.
Definition constant_errors (source : ResourceSource) (declaration : ValueDeclaration)
    (location : string) : ValidationErrors :=
  match source with
  | ConstantResource value =>
      (if literalMatchesType value (vd_Type declaration) then []
       else [add ValidationBindingIncompatible (text "constant does not match declared type") location ∅]) ++
      reported_error (ValidateSchemaValue (vd_SchemaDefinition declaration) value) location
  | _ => []
  end.
Definition input_resource_errors (entry : Identifier * ValueDeclaration) : ValidationErrors :=
  let '(id, declaration) := entry in
  let location := input_location id in
  reported_error (ValidateSchemaValue (vd_SchemaDefinition declaration) "")
    (location +:+ "/schemaDefinition") ++
  match vd_Resource declaration with
  | None => []
  | Some source =>
      let want := resource_type source (vd_Type declaration) in
      constant_errors source declaration location ++
      (if decide (vd_Type declaration ≠ want ∧ vd_Type declaration ≠ StorageType want)
       then [add ValidationBindingIncompatible (Msg "resource requires %s" [AStr want]) location ∅]
       else [])
  end.

Definition output_location (nodeID outputID : Identifier) : string :=
  node_location nodeID +:+ "/outputs/" +:+ outputID.
Definition output_shape_errors (location : string) (output : OutputDeclaration) : ValidationErrors :=
  reported_error (ValidateSchemaValue (od_SchemaDefinition output) "") (location +:+ "/schemaDefinition") ++
  (if bool_decide (od_Type output = ValueMarkdown ∧ od_Artifact output = None)
   then [add ValidationSchemaInvalid (text "Markdown output requires a filename") location ∅] else []) ++
  (if HasPrefix (od_Type output) "schema:" &&
      bool_decide (ValueSchema (od_Type output) (od_SchemaDefinition output) = "" ∧ od_Schema output = "")
   then [add ValidationSchemaInvalid (text "named schema output requires its schema") location ∅] else []).

Definition is_template (source : ResourceSource) : bool :=
  match source with TemplateResource _ _ _ | TemplateReferenceResource _ => true | _ => false end.
(** A template input binds a run input that is a template resource. *)
Definition template_bound (binding : Binding) : bool :=
  match Split (Source binding) "."%char with
  | [p0; _; p2] =>
      bool_decide (p0 = "run") &&
      match run_inputs !! p2 ≫= vd_Resource with Some source => is_template source | None => false end
  | _ => false
  end.
Definition template_errors (location : string) (fields : NodeFields) (id : Identifier)
  : ValidationErrors :=
  if decide (id = "") then []
  else
    match nf_Inputs fields !! id with
    | None => [add ValidationReferenceMissing (text "template input is missing") location ∅]
    | Some binding =>
        if template_bound binding then []
        else [add ValidationBindingIncompatible (text "template input must bind a template resource")
                location ∅]
    end.

(** The loop over the outputs of a node keeps the filenames it has seen. *)
Definition output_errors (nodeID : Identifier) (fields : NodeFields)
    (seen : gset string * ValidationErrors) (entry : Identifier * OutputDeclaration)
  : gset string * ValidationErrors :=
  let '(files, errors) := seen in
  let '(outputID, output) := entry in
  let location := output_location nodeID outputID in
  let errors := errors ++ output_shape_errors location output in
  match od_Artifact output with
  | None => (files, errors)
  | Some artifact =>
      let filename := ToLower (ac_Filename artifact) in
      ({[filename]} ∪ files,
       errors ++
       (if decide (od_Type output ≠ ValueString ∧ od_Type output ≠ ValueMarkdown)
        then [add ValidationBindingIncompatible
                (text "Markdown artifact output must have type markdown") location ∅] else []) ++
       reported_error (ValidateArtifact artifact "placeholder" None) (location +:+ "/artifact") ++
       (if decide (filename ∈ files)
        then [add ValidationSchemaInvalid
                (text "artifact filenames must be distinct within a node") location ∅] else []) ++
       template_errors location fields (ac_TemplateInput artifact))
  end.
Definition node_output_errors (entry : Identifier * Node) : ValidationErrors :=
  let '(nodeID, node) := entry in
  (foldl (output_errors nodeID (Fields node)) (∅, [])
     (range_map ("validateResources." +:+ nodeID) (nf_Outputs (Fields node)))).2.
Definition validateResources : ValidationErrors :=
  flat_map input_resource_errors (range_map "validateResources.inputs" run_inputs) ++
  flat_map node_output_errors (range_map "validateResources.nodes" nodes).
End node_checks.
