(* ===== verification/Validator.v ===== *)
(** The static validator: [Validate] of [runtime/src/core/workflow/validate.go], what its graph
    checks decide, and what an accepted document guarantees. *)
From S2P Require Import Prelude GoStrings GoUnicode GoJson GoFloat GoGraph GoSort Schema Issues Cycle NodeJson Route GraphChecks Deliverable NodeChecks.
From stdpp Require Import options.

(** * The validator *)
Section validate.
Context `{!GoRange, !GoInt64, !UnicodeLower}.

(** [validationState.validate]: the errors of all checks, in order. *)
Definition validate (capabilities : option CapabilitySnapshot) (document : Document)
  : ValidationErrors :=
  let nodeIDs := sortedNodeIDs (nodes_of document) in
  let state := indexTransitions (nodes_of document) nodeIDs in
  ix_errors state ++
  validateNodes document state capabilities nodeIDs ++
  validateJoins document state nodeIDs ++
  validateReachability document state nodeIDs ++
  validateCycles state nodeIDs ++
  validateDefaultRoute document ++
  validateProfiles document ++
  validateResources document.

(** [StaticValidator.Validate]; [None] when it panics. *)
Definition Validate (capabilities : option CapabilitySnapshot) (document : Document)
  : option ValidationErrors :=
  if existsb (λ entry, definition_panics entry.2) (map_to_list (nodes_of document)) then None
  else Some (sortValidationErrors (validate capabilities document)).
End validate.

(** * The transition graph of a document *)
Section graph.
Variable document : Document.
Abbreviation nodes := (nodes_of document).

Definition document_edge : relation Identifier := λ x y,
  (∃ t, t ∈ transitions_of document x ∧ Target t = y) ∧ is_Some (nodes !! y).
Definition normal_edge : relation Identifier := λ x y,
  (∃ t, t ∈ transitions_of document x ∧ bounded_transition t = false ∧ Target t = y) ∧ is_Some (nodes !! y).

(** ** What indexing computes *)
Definition known (record : transitionRecord) : bool := bool_decide (is_Some (nodes !! tr_target record)).

Section observed.
Context {A : Type}.
Variables (field : indexes → gmap Identifier (list A)) (key : transitionRecord → Identifier)
  (value : transitionRecord → A) (counted : transitionRecord → bool).
Hypothesis Hstep : ∀ state record x,
  sources_of (field (index_transition nodes state record)) x =
  sources_of (field state) x ++ (if decide (counted record = true ∧ key record = x) then [value record] else []).

Lemma observed_fold l state x :
  sources_of (field (foldl (index_transition nodes) state l)) x =
  sources_of (field state) x ++ (value <$> filter (λ r, counted r = true ∧ key r = x) l).
Proof using Hstep.
  revert state. induction l as [|r l IH]; intros state; simpl; [by rewrite (right_id_L [] (++))|].
  rewrite IH, Hstep, filter_cons, <-(assoc_L (++)). by case_decide.
Qed.
End observed.

Lemma index_id_fields record state :
  ix_incoming (index_id record state) = ix_incoming state ∧
  ix_adjacency (index_id record state) = ix_adjacency state ∧
  ix_normalGraph (index_id record state) = ix_normalGraph state.
Proof. unfold index_id. by destruct (ix_transitions state !! _). Qed.

#[local] Ltac observe record state :=
  unfold index_transition, index_edge, known;
  destruct (index_id_fields record state) as (Hi & Ha & Hn);
  destruct (nodes !! tr_target record) as [node|]; cbn [ix_incoming ix_adjacency ix_normalGraph];
  rewrite ?Hi, ?Ha, ?Hn; destruct (bounded_transition (tr_transition record)); rewrite ?sources_of_append_at;
  repeat case_decide; rewrite ?(right_id_L [] (++)); try done; naive_solver.

Lemma adjacency_step state record x :
  sources_of (ix_adjacency (index_transition nodes state record)) x =
  sources_of (ix_adjacency state) x ++
  (if decide (known record = true ∧ tr_source record = x) then [tr_target record] else []).
Proof. observe record state. Qed.
Lemma incoming_step state record x :
  sources_of (ix_incoming (index_transition nodes state record)) x =
  sources_of (ix_incoming state) x ++
  (if decide (known record = true ∧ tr_target record = x) then [record] else []).
Proof. observe record state. Qed.
Lemma normal_step state record x :
  sources_of (ix_normalGraph (index_transition nodes state record)) x =
  sources_of (ix_normalGraph state) x ++
  (if decide (known record && negb (bounded_transition (tr_transition record)) = true ∧ tr_source record = x)
   then [tr_target record] else []).
Proof. observe record state. Qed.

(** ** The indexes of a document *)
Context `{!GoRange}.
Abbreviation state := (indexTransitions nodes (sortedNodeIDs nodes)).

Lemma elem_of_records r :
  r ∈ flat_map (node_records nodes) (sortedNodeIDs nodes) ↔
  ∃ node, nodes !! tr_source r = Some node ∧
    nf_Transitions (Fields node) !! tr_index r = Some (tr_transition r) ∧
    tr_target r = Target (tr_transition r).
Proof.
  rewrite list_elem_of_In, in_flat_map. unfold node_records. split.
  - intros (x & _ & Hr%list_elem_of_In). destruct (nodes !! x) as [node|] eqn:Hx; [|by apply not_elem_of_nil in Hr].
    apply elem_of_lookup_imap in Hr as (i & t & -> & Ht). by exists node.
  - intros (node & Hn & Ht & Htarget). exists (tr_source r). split.
    + apply list_elem_of_In, elem_of_sortedIDs. by exists node.
    + rewrite Hn. apply list_elem_of_In, elem_of_lookup_imap. exists (tr_index r), (tr_transition r).
      split; [|done]. destruct r; simpl in *. by subst.
Qed.

Lemma elem_of_adjacent x y : y ∈ adjacent state x ↔ document_edge x y.
Proof.
  unfold adjacent, indexTransitions. rewrite (observed_fold ix_adjacency tr_source tr_target known adjacency_step).
  unfold document_edge, known, transitions_of, sources_of. cbn [no_indexes ix_adjacency ix_normalGraph].
  rewrite lookup_empty. simpl. rewrite list_elem_of_fmap.
  setoid_rewrite list_elem_of_filter. setoid_rewrite elem_of_records. setoid_rewrite bool_decide_eq_true.
  split.
  - intros (r & -> & [Hk <-] & node & Hn & Ht & Htarget). split; [|done].
    exists (tr_transition r). rewrite Hn. split; [by eapply list_elem_of_lookup_2|done].
  - intros [(t & Ht & <-) Hk]. destruct (nodes !! x) as [node|] eqn:Hn; [|by apply not_elem_of_nil in Ht].
    apply list_elem_of_lookup_1 in Ht as [i Hi].
    exists {| tr_source := x; tr_target := Target t; tr_transition := t; tr_index := i |}. naive_solver.
Qed.
Lemma elem_of_normal_targets x y : y ∈ normal_targets state x ↔ normal_edge x y.
Proof.
  unfold normal_targets, indexTransitions.
  rewrite (observed_fold ix_normalGraph tr_source tr_target
    (λ r, known r && negb (bounded_transition (tr_transition r))) normal_step).
  unfold normal_edge, known, transitions_of, sources_of. cbn [no_indexes ix_adjacency ix_normalGraph].
  rewrite lookup_empty. simpl. rewrite list_elem_of_fmap.
  setoid_rewrite list_elem_of_filter. setoid_rewrite elem_of_records.
  setoid_rewrite andb_true_iff. setoid_rewrite bool_decide_eq_true. setoid_rewrite negb_true_iff.
  split.
  - intros (r & -> & [[Hk Hb] <-] & node & Hn & Ht & Htarget). split; [|done].
    exists (tr_transition r). rewrite Hn. split; [by eapply list_elem_of_lookup_2|done].
  - intros [(t & Ht & Hb & <-) Hk]. destruct (nodes !! x) as [node|] eqn:Hn; [|by apply not_elem_of_nil in Ht].
    apply list_elem_of_lookup_1 in Ht as [i Hi].
    exists {| tr_source := x; tr_target := Target t; tr_transition := t; tr_index := i |}. naive_solver.
Qed.
End graph.

(** * What the graph checks decide *)
Section decided.
Context `{!GoRange}.
Variable document : Document.
Abbreviation nodes := (nodes_of document).
Abbreviation nodeIDs := (sortedNodeIDs nodes).
Abbreviation state := (indexTransitions nodes nodeIDs).

Lemma adjacent_reaches x y : reaches (adjacent state) x y ↔ rtc (document_edge document) x y.
Proof. split; apply rtc_subrel; intros a b; apply elem_of_adjacent. Qed.

Lemma document_edge_source x y : document_edge document x y → is_Some (nodes !! x).
Proof.
  intros [(t & Ht & _) _]. unfold transitions_of in Ht.
  destruct (nodes !! x) as [node|]; [by eexists|]. by apply not_elem_of_nil in Ht.
Qed.
Lemma adjacent_absent x : x ∉ dom nodes → adjacent state x = [].
Proof.
  intros Hx%not_elem_of_dom. apply elem_of_nil_inv. intros y Hy%elem_of_adjacent.
  apply document_edge_source in Hy as [? Hs]. congruence.
Qed.

(** ** Reachability *)
Definition entry_reaches (id : Identifier) : Prop :=
  ∃ entry, node_flag nf_Entry document entry = true ∧ rtc (document_edge document) entry id.
Lemma elem_of_validateReachability e :
  e ∈ validateReachability document state nodeIDs ↔
  ∃ id, is_Some (nodes !! id) ∧ ¬ entry_reaches id ∧ e = unreachable_node id.
Proof.
  unfold validateReachability. rewrite list_elem_of_fmap. setoid_rewrite list_elem_of_filter.
  unfold sortedNodeIDs at 1. setoid_rewrite elem_of_sortedIDs.
  assert (∀ id, id ∈ pop_reachable (adjacent state) (dom nodes)
    (reverse (filter (λ id, node_flag nf_Entry document id = true) nodeIDs)) ↔ entry_reaches id) as Hr.
  { intros id. rewrite elem_of_pop_reachable by apply adjacent_absent.
    unfold reachable_from, entry_reaches. apply exist_proper. intros x.
    rewrite elem_of_reverse, list_elem_of_filter, adjacent_reaches. unfold sortedNodeIDs.
    rewrite elem_of_sortedIDs. split; [naive_solver|]. intros [Hf Hx].
    split; [|done]. split; [done|]. by eapply node_flag_exists. }
  setoid_rewrite Hr. naive_solver.
Qed.

Lemma nodeReaches_spec start target :
  nodeReaches document state start target = true ↔ rtc (document_edge document) start target.
Proof.
  unfold nodeReaches. rewrite found_by_spec by apply adjacent_absent.
  setoid_rewrite bool_decide_eq_true. unfold reachable_from. setoid_rewrite list_elem_of_singleton.
  assert (∀ x y, reaches (cut (λ _, false) (adjacent state)) x y ↔ rtc (document_edge document) x y) as Hr.
  { intros x y. rewrite <-adjacent_reaches. done. }
  setoid_rewrite Hr. naive_solver.
Qed.

(** ** Cycles *)
Lemma normal_nodes x y : edge (normal_targets state) x y → x ∈ nodeIDs ∧ y ∈ nodeIDs.
Proof.
  intros [(t & Ht & _) Hy]%elem_of_normal_targets. unfold sortedNodeIDs. rewrite !elem_of_sortedIDs.
  split; [|done]. unfold transitions_of in Ht. destruct (nodes !! x) as [node|]; [by eexists|].
  by apply not_elem_of_nil in Ht.
Qed.
Lemma has_cycle_normal :
  has_cycle (normal_targets state) nodeIDs = true ↔ ∃ x, tc (normal_edge document) x x.
Proof.
  rewrite has_cycle_spec; [|apply sortedIDs_NoDup|apply normal_nodes].
  apply exist_proper. intros x. split; apply (tc_congruence id); intros a b; apply elem_of_normal_targets.
Qed.

(** ** The default route *)
Abbreviation entry := (rd_Entry (route_defaults document)).
Abbreviation terminals := (rd_Terminals (route_defaults document)).
Abbreviation step := (forward_step document terminals ∅).

Lemma default_enabled_eq x : default_enabled document x = enabled_transitions document ∅ x.
Proof.
  unfold default_enabled, enabled_transitions. apply list_filter_iff. intros t.
  unfold routeTransitionEnabled. by rewrite lookup_empty.
Qed.
Lemma default_targets_eq T x : default_targets document T x = forward_targets document T ∅ x.
Proof. unfold default_targets, forward_targets. by rewrite default_enabled_eq. Qed.

Lemma elem_of_default_reachable x :
  x ∈ default_reachable document (identifierSet terminals) ↔ rtc step entry x.
Proof.
  rewrite <-elem_of_forwardRouteNodes. unfold default_reachable, forwardRouteNodes.
  assert (∀ x, x ∉ dom nodes → forward_targets document (identifierSet terminals) ∅ x = []) as Habs.
  { intros y Hy. unfold forward_targets. case_decide; [done|]. by rewrite enabled_transitions_absent. }
  rewrite !elem_of_pop_reachable; [|done|by intros y ?; rewrite default_targets_eq; apply Habs].
  apply reachable_from_proper; [|done]. intros y. by rewrite default_targets_eq.
Qed.

Lemma elem_of_default_can_reach x :
  rtc step entry x → is_Some (nodes !! entry) →
  x ∈ default_can_reach document (identifierSet terminals)
        (default_reachable document (identifierSet terminals)) ↔
  ∃ t, t ∈ terminals ∧ rtc step x t.
Proof.
  intros Hx Hentry. set (R := default_reachable document (identifierSet terminals)).
  assert (∀ y, y ∈ R ↔ rtc step entry y) as HR by (intros; apply elem_of_default_reachable).
  unfold default_can_reach. set (edges := flat_map _ _).
  assert (∀ a b, (a, b) ∈ edges ↔ a ∈ R ∧ step a b) as Hedges.
  { intros a b. unfold edges. rewrite list_elem_of_In, in_flat_map. setoid_rewrite <-list_elem_of_In.
    setoid_rewrite elem_of_range_set. unfold default_edges. split.
    - intros (s & Hs & Hin). case_decide as Ht; [by apply elem_of_nil in Hin|].
      apply list_elem_of_fmap in Hin as (t & [= -> ->] & [Ht' Hen]%list_elem_of_filter).
      split; [done|]. unfold identifierSet in Ht. rewrite elem_of_list_to_set in Ht.
      rewrite default_enabled_eq in Hen. split; [done|]. split; [|by exists t].
      apply HR, rtc_inv_r in Ht' as [Heq|(z & _ & _ & Hz & _)]; [by rewrite <-Heq|done].
    - intros [Ha (Hna & Hb & t & Ht & <-)]. exists a. split; [done|].
      unfold identifierSet. rewrite decide_False by (by rewrite elem_of_list_to_set).
      apply list_elem_of_fmap. exists t. split; [done|]. apply list_elem_of_filter.
      rewrite default_enabled_eq. split; [|done]. apply HR. eapply rtc_r; [by apply HR|].
      split; [done|]. split; [done|]. by exists t. }
  rewrite elem_of_push_reachable; last first.
  { intros y Hy. apply elem_of_union_r. apply elem_of_reverse, elem_of_range_set in Hy. done. }
  { intros a b Hab. apply elem_of_union_l, elem_of_list_to_set, list_elem_of_fmap.
    exists (b, a). split; [done|]. by apply elem_of_sources_of. }
  unfold reachable_from. apply exist_proper. intros t.
  rewrite elem_of_reverse, elem_of_range_set. unfold identifierSet. rewrite elem_of_list_to_set.
  apply and_iff_compat_l. split.
  - clear Hx. induction 1 as [|a b c Hab _ IH]; [apply rtc_refl|].
    apply elem_of_sources_of, Hedges in Hab as [_ Hab]. by eapply rtc_r.
  - intros Hr. revert Hx. induction Hr as [|a b c Hab Hbc IH]; intros Ha; [apply rtc_refl|].
    eapply rtc_r; [apply IH; by eapply rtc_r|]. apply elem_of_sources_of, Hedges. by rewrite HR.
Qed.

Lemma validateDefaultRoute_nil :
  terminals ≠ [] →
  validateDefaultRoute document = [] ↔ admissible document entry terminals ∅ [].
Proof.
  intros Hne. unfold validateDefaultRoute.
  destruct (node_flag nf_Entry document entry) eqn:He; simpl; last first.
  { split; [done|]. intros [Ha _ _ _ _ _]. congruence. }
  assert (is_Some (nodes !! entry)) as Hentry by by eapply node_flag_exists.
  rewrite app_nil, fmap_nil. setoid_rewrite filter_nil_iff. setoid_rewrite not_false_iff_true.
  split.
  - intros [Hts Hcl].
    assert (filter (λ id, node_flag nf_Terminal document id = true) terminals = terminals) as Hall.
    { by apply filter_all. }
    rewrite Hall in Hcl.
    rewrite decide_False in Hcl; last first.
    { destruct terminals as [|t0 ts]; [done|]. unfold identifierSet. simpl. set_solver. }
    unfold default_closure_errors in Hcl. cbv zeta in Hcl. case_decide as Hmiss; [done|].
    case_decide as Hstr; [done|]. apply nil_length_inv in Hmiss, Hstr.
    rewrite filter_nil_iff in Hmiss, Hstr. setoid_rewrite elem_of_range_set in Hmiss.
    setoid_rewrite elem_of_range_set in Hstr.
    assert (∀ x, rtc step entry x → ∃ t, t ∈ terminals ∧ rtc step x t) as Hclosed.
    { intros x Hx. apply elem_of_default_can_reach; [done..|].
      apply dec_stable. apply Hstr. by apply elem_of_default_reachable. }
    split; [done..| |done|by intros x ?%elem_of_nil].
    intros t Ht. apply elem_of_default_reachable. apply dec_stable. apply Hmiss.
    by apply elem_of_list_to_set.
  - intros [_ _ Hts Hr Hcl _]. split; [done|].
    assert (filter (λ id, node_flag nf_Terminal document id = true) terminals = terminals) as ->.
    { by apply filter_all. }
    case_decide; [done|]. unfold default_closure_errors. cbv zeta.
    rewrite length_nil_decide; [apply length_nil_decide|]; apply filter_nil_iff.
    + intros x Hx%elem_of_range_set%elem_of_default_reachable Hno. destruct Hno.
      apply elem_of_default_can_reach; [done..|]. by apply Hcl.
    + intros x Hx%elem_of_range_set Hno. destruct Hno. apply elem_of_default_reachable, Hr.
      by apply elem_of_list_to_set in Hx.
Qed.
End decided.

(** * Which checks report graph errors *)

(** The errors of the other checks carry other codes. *)
Definition ordinary (errors : ValidationErrors) : Prop :=
  Forall (λ e, ve_Code e ≠ ValidationUnboundedCycle ∧ ve_Code e ≠ ValidationUnreachableNode) errors.

Lemma ordinary_nil : ordinary [].
Proof. constructor. Qed.
Lemma ordinary_cons e errors :
  ve_Code e ≠ ValidationUnboundedCycle → ve_Code e ≠ ValidationUnreachableNode →
  ordinary errors → ordinary (e :: errors).
Proof. intros ???. by constructor. Qed.
Lemma ordinary_app l k : ordinary l → ordinary k → ordinary (l ++ k).
Proof. intros ??. by apply Forall_app. Qed.
Lemma ordinary_flat_map {A} (f : A → ValidationErrors) l :
  (∀ x, ordinary (f x)) → ordinary (flat_map f l).
Proof. intros Hf. induction l as [|x l IH]; [constructor|]. by apply ordinary_app. Qed.
Lemma ordinary_concat_i {A} (f : nat → A → ValidationErrors) l :
  (∀ i x, ordinary (f i x)) → ordinary (concat_i f l).
Proof.
  unfold concat_i. intros Hf. revert f Hf. induction l as [|x l IH]; intros f Hf; [constructor|].
  simpl. apply ordinary_app; [done|]. apply IH. intros i y. apply Hf.
Qed.
Lemma ordinary_fmap {A} (f : A → ValidationError) l : (∀ x, ordinary [f x]) → ordinary (f <$> l).
Proof.
  intros Hf. induction l as [|x l IH]; [constructor|]. apply (ordinary_app [f x]); auto.
Qed.
Create HintDb ordinary.

(** Follow the branches of a check down to its errors. *)
#[local] Ltac ordinary :=
  repeat (cbv beta zeta;
    match goal with
    | |- ordinary [] => apply ordinary_nil
    | |- ordinary (_ :: _) => apply ordinary_cons; [discriminate|discriminate|]
    | |- ordinary (_ ++ _) => apply ordinary_app
    | |- ordinary (concat_i _ _) => apply ordinary_concat_i; intros ? ?
    | |- ordinary (flat_map _ _) => apply ordinary_flat_map; intros ?
    | |- ordinary (_ <$> _) => apply ordinary_fmap; intros ?
    | |- _ => solve [eauto with ordinary nocore]
    | |- _ => case_match
    end).

Section ordinary_checks.
Context `{!GoRange, !GoInt64, !UnicodeLower}.
Variables (document : Document) (state : indexes).

Lemma ordinary_bindings nodeID fields : ordinary (validateBindings document nodeID fields).
Proof. unfold validateBindings, binding_errors, source_errors, default_errors. ordinary. Qed.
Lemma ordinary_readiness nodeID fields : ordinary (validateReadiness document state nodeID fields).
Proof. unfold validateReadiness, remedy_errors. ordinary. Qed.
Lemma ordinary_approval nodeID node fields : ordinary (validateApproval nodeID node fields).
Proof. unfold validateApproval. ordinary. Qed.
Lemma ordinary_points nodeID node fields : ordinary (validatePointExecution nodeID node fields).
Proof. unfold validatePointExecution. ordinary. Qed.
Lemma ordinary_implementation nodeID node fields : ordinary (validateImplementation nodeID node fields).
Proof. unfold validateImplementation, task_errors. ordinary. Qed.
Lemma ordinary_workspace nodeID node fields : ordinary (validateWorkspace nodeID node fields).
Proof.
  unfold validateWorkspace, connection_errors, settings_errors, check_errors, required_input, required_output.
  ordinary.
Qed.
Lemma ordinary_routing nodeID node fields : ordinary (validateRouting nodeID node fields).
Proof. unfold validateRouting, routing_branch_errors, routing_output_errors. ordinary. Qed.
Lemma ordinary_definition nodeID fields : ordinary (validateNodeDefinition nodeID fields).
Proof. unfold validateNodeDefinition. ordinary. Qed.
Lemma ordinary_validators nodeID fields : ordinary (validateValidators nodeID fields).
Proof. unfold validateValidators, validator_errors. ordinary. Qed.
Lemma ordinary_subworkflow nodeID node fields : ordinary (validateSubworkflow nodeID node fields).
Proof. unfold validateSubworkflow, call_input_errors, call_output_errors. ordinary. Qed.
Lemma ordinary_capabilities capabilities nodeID node : ordinary (validateCapabilities capabilities nodeID node).
Proof. unfold validateCapabilities, capability_errors. ordinary. Qed.
Lemma ordinary_reference fields allowOutput reference location :
  ordinary (checkReference document fields allowOutput reference location).2.
Proof. unfold checkReference. destruct (reference_root _ _ _ _) as [[type len]|]; simpl; ordinary. Qed.
Lemma ordinary_operand fields allowOutput operand location :
  ordinary (checkOperand document fields allowOutput operand location).2.
Proof. destruct operand; simpl; [apply ordinary_reference|ordinary..]. Qed.
Fixpoint ordinary_predicate fields allowOutput predicate location {struct predicate} :
  ordinary (checkPredicate document fields allowOutput predicate location).
Proof.
  destruct predicate as [value|op l r|ref|op args|arg|]; simpl; [ordinary| | | |by apply ordinary_predicate|ordinary].
  - pose proof (ordinary_operand fields allowOutput l (location +:+ "/args/0")) as Hl.
    pose proof (ordinary_operand fields allowOutput r (location +:+ "/args/1")) as Hr.
    destruct (checkOperand _ _ _ l _) as [lt le]. destruct (checkOperand _ _ _ r _) as [rt re].
    unfold comparison_mismatch. repeat apply ordinary_app; [done|done|]. ordinary.
  - apply ordinary_reference.
  - generalize 0. induction args as [|arg args IH]; intros i; [ordinary|].
    apply ordinary_app; [by apply ordinary_predicate|apply IH].
Qed.
#[local] Hint Resolve ordinary_bindings ordinary_readiness ordinary_approval ordinary_points
  ordinary_implementation ordinary_workspace ordinary_routing ordinary_definition ordinary_validators
  ordinary_subworkflow ordinary_capabilities ordinary_predicate : ordinary.

Lemma ordinary_predicates nodeID node fields : ordinary (validatePredicates document nodeID node fields).
Proof.
  unfold validatePredicates, transition_predicate_errors, gate_errors, checkpoint_errors, reasoning_branch.
  ordinary.
Qed.
#[local] Hint Resolve ordinary_predicates : ordinary.
Lemma ordinary_nodes capabilities nodeIDs : ordinary (validateNodes document state capabilities nodeIDs).
Proof. unfold validateNodes, for_node, node_errors. ordinary. Qed.
Lemma ordinary_joins nodeIDs : ordinary (validateJoins document state nodeIDs).
Proof.
  unfold validateJoins, for_node, join_errors, validateJoinSatisfiability. ordinary.
  apply Forall_take. apply ordinary_flat_map. intros forkID. unfold fork_conflicts. ordinary.
  apply Forall_forall. intros e Hin%list_elem_of_omap. destruct Hin as ([b1 b2] & _ & Hc).
  unfold branch_conflict in Hc. by repeat case_match; simplify_eq.
Qed.
Lemma ordinary_default_route : ordinary (validateDefaultRoute document).
Proof. unfold validateDefaultRoute, default_closure_errors. ordinary. Qed.
Lemma ordinary_profiles : ordinary (validateProfiles document).
Proof.
  unfold validateProfiles, profile_errors, profile_terminal_errors, profile_default_errors.
  apply ordinary_flat_map. intros [profileID profile]. ordinary.
Qed.
Lemma ordinary_reported {A} (outcome : vresult A) location : ordinary (reported_error outcome location).
Proof. unfold reported_error. ordinary. Qed.
#[local] Hint Resolve @ordinary_reported : ordinary.
Lemma ordinary_resources : ordinary (validateResources document).
Proof.
  unfold validateResources. apply ordinary_app; apply ordinary_flat_map.
  - intros [id declaration]. unfold input_resource_errors, constant_errors. ordinary.
  - intros [nodeID node]. unfold node_output_errors.
    assert (∀ l seen, ordinary seen.2 →
      ordinary (foldl (output_errors document nodeID (Fields node)) seen l).2) as Hloop; [|by apply Hloop, ordinary_nil].
    induction l as [|[outputID output] l IH]; intros [files errors] He; [done|]. cbn [foldl]. apply IH.
    unfold output_errors, output_shape_errors, template_errors. cbn [snd] in *.
    destruct (od_Artifact output); cbn [snd]; ordinary.
Qed.
Lemma ordinary_index nodes nodeIDs : ordinary (ix_errors (indexTransitions nodes nodeIDs)).
Proof.
  unfold indexTransitions. assert (∀ l s, ordinary (ix_errors s) →
    ordinary (ix_errors (foldl (index_transition nodes) s l))) as Hloop; [|by apply Hloop, ordinary_nil].
  induction l as [|r l IH]; intros s Hs; [done|]. apply IH. unfold index_transition, index_edge, index_id.
  ordinary; simpl; ordinary.
Qed.
End ordinary_checks.

(** * Claims *)

Lemma Validate_Some `{!GoRange, !GoInt64, !UnicodeLower} capabilities document errors e :
  Validate capabilities document = Some errors → e ∈ errors ↔ e ∈ validate capabilities document.
Proof.
  unfold Validate. destruct (existsb _ _); [done|]. intros [= <-].
  by rewrite (proj1 (sortValidationErrors_spec _)).
Qed.
Lemma Validate_accepts `{!GoRange, !GoInt64, !UnicodeLower} capabilities document :
  Validate capabilities document = Some [] → validate capabilities document = [].
Proof.
  unfold Validate. destruct (existsb _ _); [done|]. intros [= Hnil]. by rewrite sortValidationErrors_nil in Hnil.
Qed.

Lemma elem_of_validate `{!GoRange, !GoInt64, !UnicodeLower} capabilities document e :
  ve_Code e = ValidationUnboundedCycle ∨ ve_Code e = ValidationUnreachableNode →
  let state := indexTransitions (nodes_of document) (sortedNodeIDs (nodes_of document)) in
  e ∈ validate capabilities document ↔
  e ∈ validateReachability document state (sortedNodeIDs (nodes_of document)) ∨
  e ∈ validateCycles state (sortedNodeIDs (nodes_of document)).
Proof.
  intros Hcode. cbv zeta. unfold validate. rewrite !elem_of_app.
  assert (∀ errors, ordinary errors → e ∉ errors) as Hno.
  { intros errors Ho Hin. eapply Forall_forall in Ho as [??]; [|exact Hin]. naive_solver. }
  pose proof (Hno _ (ordinary_index (nodes_of document) (sortedNodeIDs (nodes_of document)))).
  pose proof (Hno _ (ordinary_default_route document)). pose proof (Hno _ (ordinary_profiles document)).
  pose proof (Hno _ (ordinary_resources document)).
  pose proof (Hno _ (ordinary_joins document (indexTransitions (nodes_of document)
    (sortedNodeIDs (nodes_of document))) (sortedNodeIDs (nodes_of document)))).
  pose proof (Hno _ (ordinary_nodes document (indexTransitions (nodes_of document)
    (sortedNodeIDs (nodes_of document))) capabilities (sortedNodeIDs (nodes_of document)))).
  naive_solver.
Qed.

Lemma Validate_binding `{!GoRange, !GoInt64, !UnicodeLower} capabilities document nodeID node inputID binding :
  Validate capabilities document = Some [] →
  nodes_of document !! nodeID = Some node → nf_Inputs (Fields node) !! inputID = Some binding →
  source_errors document nodeID inputID binding = [] ∧ default_errors nodeID inputID binding = [].
Proof.
  intros Hv%Validate_accepts Hnode Hbinding. unfold validate in Hv.
  apply app_nil in Hv as [_ Hv]. apply app_nil in Hv as [Hv _]. unfold validateNodes in Hv.
  eapply flat_map_nil in Hv; [|by apply elem_of_sortedIDs; eexists].
  unfold for_node in Hv. rewrite Hnode in Hv. unfold node_errors in Hv. apply app_nil in Hv as [Hv _].
  eapply flat_map_nil in Hv; [|by apply elem_of_sortedIDs; eexists].
  unfold binding_errors in Hv. rewrite Hbinding in Hv. by apply app_nil in Hv.
Qed.
Lemma Validate_acyclic `{!GoRange, !GoInt64, !UnicodeLower} capabilities document x :
  Validate capabilities document = Some [] → ¬ tc (normal_edge document) x x.
Proof.
  intros Hv%Validate_accepts Hx.
  assert (has_cycle (normal_targets (indexTransitions (nodes_of document) (sortedNodeIDs (nodes_of document))))
    (sortedNodeIDs (nodes_of document)) = true) as Hc by (apply has_cycle_normal; by exists x).
  assert (unbounded_cycle ∈ validate capabilities document) as Hin.
  { apply elem_of_validate; [by left|]. right. unfold validateCycles. rewrite Hc. by left. }
  rewrite Hv in Hin. by apply elem_of_nil in Hin.
Qed.

(** Only the members of the list of terminals matter. *)
Lemma admissible_terminals document entry ts ts' overrides required :
  (∀ x, x ∈ ts ↔ x ∈ ts') →
  admissible document entry ts overrides required → admissible document entry ts' overrides required.
Proof.
  intros Hts [He Hne Ht Hr Hc Hq].
  assert (∀ x y, rtc (forward_step document ts overrides) x y ↔
    rtc (forward_step document ts' overrides) x y) as Hstep.
  { intros x y. split; apply rtc_subrel; intros a b; unfold forward_step; by rewrite Hts. }
  split.
  - done.
  - destruct ts as [|t ts]; [done|]. intros ->. assert (t ∈ ([] : list Identifier)) as Hin by (apply Hts; by left).
    by apply elem_of_nil in Hin.
  - intros t Hin. by apply Ht, Hts.
  - intros t Hin. apply Hstep, Hr. by apply Hts.
  - intros x Hx. apply Hstep, Hc in Hx as (t & Hin & Hx). exists t. by rewrite <-Hts, <-Hstep.
  - intros x Hx. by apply Hstep, Hq.
Qed.

(** (C4) The graph errors of a document are exact: validation reports an unbounded cycle exactly
    when some node can be reached from itself by normal transitions, and a node as unreachable
    exactly when no entry-capable node leads to it, whatever the order in which Go visits its
    maps. *)
Theorem graph_errors_exact (R : GoRange) (I : GoInt64) (U : UnicodeLower) capabilities document errors
    (Hvalidate : Validate capabilities document = Some errors) :
  ((∃ e, e ∈ errors ∧ ve_Code e = ValidationUnboundedCycle) ↔
   ∃ x, tc (normal_edge document) x x) ∧
  ∀ e, e ∈ errors ∧ ve_Code e = ValidationUnreachableNode ↔
    ∃ id, is_Some (nodes_of document !! id) ∧ ¬ entry_reaches document id ∧ e = unreachable_node id.
Proof.
  split.
  - rewrite <-has_cycle_normal. unfold validateCycles. split.
    + intros (e & He & Hcode). rewrite (Validate_Some _ _ _ e Hvalidate), elem_of_validate in He by by left.
      destruct He as [(id & _ & _ & ->)%elem_of_validateReachability|He]; [done|].
      unfold validateCycles in He. destruct (has_cycle _ _); [done|]. by apply elem_of_nil in He.
    + intros Hc. exists unbounded_cycle. split; [|done].
      rewrite (Validate_Some _ _ _ _ Hvalidate), elem_of_validate by by left. right.
      unfold validateCycles. rewrite Hc. by left.
  - intros e. rewrite (Validate_Some _ _ _ e Hvalidate), <-elem_of_validateReachability. split.
    + intros [He Hcode]. rewrite elem_of_validate in He by by right. destruct He as [He|He]; [done|].
      unfold validateCycles in He. destruct (has_cycle _ _); [|by apply elem_of_nil in He].
      by apply list_elem_of_singleton in He as ->.
    + intros He. assert (ve_Code e = ValidationUnreachableNode) as Hcode.
      { by apply elem_of_validateReachability in He as (id & _ & _ & ->). }
      split; [|done]. rewrite elem_of_validate by by right. by left.
Qed.

(** (C5) The validator and route creation agree on the default route: for a document with a
    default terminal, validation finds no fault in the default route exactly when the route can
    be created from the defaults; so an accepted document always has its default route. *)
Theorem default_route_creatable (R : GoRange) (I : GoInt64) (U : UnicodeLower) document context
    (Hterminals : rd_Terminals (spec_RouteDefaults (doc_Spec document)) ≠ [])
    (Hrequired : rc_RequiredNodes context = []) :
  let request := {| rq_From := ""; rq_Until := [] |} in
  (validateDefaultRoute document = [] ↔ ∃ route, CreateRoute document request context = Ok route) ∧
  ∀ capabilities, Validate capabilities document = Some [] →
    ∃ route, CreateRoute document request context = Ok route.
Proof.
  cbv zeta. assert (validateDefaultRoute document = [] ↔
    ∃ route, CreateRoute document {| rq_From := ""; rq_Until := [] |} context = Ok route) as Hiff.
  { rewrite validateDefaultRoute_nil by done.
    assert ((∃ route, CreateRoute document {| rq_From := ""; rq_Until := [] |} context = Ok route) ↔
      is_ok (createRoute document {| rq_From := ""; rq_Until := [] |} context ∅) = true) as ->.
    { unfold CreateRoute. destruct (createRoute _ _ _ _); naive_solver. }
    rewrite createRoute_admissible, Hrequired. unfold route_entry, route_terminals. simpl.
    split; apply admissible_terminals; intros x; by rewrite elem_of_uniqueSortedIdentifiers. }
  split; [done|]. intros capabilities Hv%Validate_accepts. apply Hiff. unfold validate in Hv.
  do 5 apply app_nil in Hv as [_ Hv]. by apply app_nil in Hv as [Hv _].
Qed.

(** ** Examples *)
Definition ex_lower : UnicodeLower := {| lower_rune := λ s, s |}.
Definition ex_validate (document : Document) : option ValidationErrors :=
  @Validate range_canonical int64_amd64 ex_lower None document.

Definition ex_declared (type : ValueType) : OutputDeclaration := {|
  od_Artifact := None; od_SchemaDefinition := ""; od_Type := type; od_Schema := "";
  od_Description := ""; od_Required := None;
|}.
Definition ex_command (entry terminal : bool) (inputs : gmap Identifier Binding)
    (outputs : gmap Identifier OutputDeclaration) (join : option Join) (transitions : list Transition)
  : Node := CommandNode {|
  nf_Prompt := None; nf_DisplayName := ""; nf_Definition := None;
  nf_Entry := entry; nf_Terminal := terminal; nf_Inputs := inputs; nf_Outputs := outputs;
  nf_Readiness := None; nf_Validators := []; nf_Retry := None; nf_Checkpoint := None;
  nf_TransitionMode := ""; nf_Join := join; nf_Permissions := []; nf_Transitions := transitions;
|} {| ce_Argv := ["make"]; ce_CWD := ""; ce_TimeoutSeconds := None |}.
Definition ex_valid_when (done : string) : Predicate :=
  ComparisonPredicate "eq" (ReferenceOperand "output.done") (LiteralOperand done).
Definition ex_if (id to : Identifier) (done : string) : TransitionFields :=
  {| tf_TransitionID := id; tf_To := to; tf_When := ex_valid_when done; tf_EnabledByDefault := None |}.

(** A build that repeats at most twice until its output says that it is done. *)
Definition ex_valid_build : Node :=
  ex_command true false {[ "plan" := RequiredBinding "node.plan.output.text" "" "string" "" ]}
    {[ "done" := ex_declared "boolean" ]}
    (Some {| join_Mode := JoinOne; join_From := ["t_plan"; "t_again"] |})
    [NormalTransition (ex_if "t_build" "review" "true"); BoundedTransition (ex_if "t_again" "build" "false") 2].
Definition ex_valid : Document := {|
  doc_APIVersion := ""; doc_Kind := "";
  doc_Metadata := {| md_Name := "demo"; md_Version := "1"; md_DisplayName := ""; md_Description := "" |};
  doc_Spec := {|
    spec_Inputs := {[ "goal" := {| vd_Resource := None; vd_SchemaDefinition := ""; vd_Type := "string";
                                   vd_Schema := ""; vd_Description := "" |} ]};
    spec_RouteDefaults := {| rd_Entry := "plan"; rd_Terminals := ["review"] |};
    spec_Profiles := ∅;
    spec_Nodes := list_to_map [
      ("plan", ex_command true false {[ "goal" := RequiredBinding "run.input.goal" "" "string" "" ]}
                 {[ "text" := ex_declared "string" ]} None [ex_to "t_plan" "build"]);
      ("build", ex_valid_build);
      ("review", ex_command false true ∅ ∅ None [])];
  |};
|}.
Lemma ex_valid_accepted : ex_validate ex_valid = Some [].
Proof. vm_compute. reflexivity. Qed.

Lemma graph_errors_exact_witness :
  ∃ errors, ex_validate ex_document = Some errors ∧ unreachable_node "island" ∈ errors ∧
    ¬ entry_reaches ex_document "island" ∧ ¬ ∃ x, tc (normal_edge ex_document) x x.
Proof.
  destruct (ex_validate ex_document) as [errors|] eqn:Hv; [|by vm_compute in Hv].
  destruct (graph_errors_exact range_canonical int64_amd64 ex_lower None ex_document errors Hv) as [Hc Hu].
  assert (unreachable_node "island" ∈ errors ∧ ∀ e, e ∈ errors → ve_Code e ≠ ValidationUnboundedCycle) as [Hin Hno].
  { vm_compute in Hv. injection Hv as <-. split.
    - apply (list_elem_of_lookup_2 _ 4). reflexivity.
    - intros e He. repeat (apply elem_of_cons in He as [->|He]; [discriminate|]). by apply elem_of_nil in He. }
  exists errors. split_and!; [done|done| |].
  - destruct (proj1 (Hu _) (conj Hin eq_refl)) as (id & _ & Hr & Hid). by injection Hid as <-.
  - intros Hx. destruct (proj2 Hc Hx) as (e & He & Hcode). by apply (Hno e).
Defined.

Lemma default_route_creatable_witness :
  ∃ route, @CreateRoute range_canonical ex_valid {| rq_From := ""; rq_Until := [] |}
             {| rc_RunInputs := ∅; rc_AcceptedOutputs := ∅; rc_RequiredNodes := [] |} = Ok route.
Proof.
  refine (proj2 (default_route_creatable range_canonical int64_amd64 ex_lower ex_valid
    {| rc_RunInputs := ∅; rc_AcceptedOutputs := ∅; rc_RequiredNodes := [] |} _ eq_refl) None
    ex_valid_accepted). discriminate.
Defined.

(** A reusable node reference without its target stops the validator: encoding the node
    dereferences it before [validateNodeDefinition] can report it. *)
Lemma definition_without_ref_panics `{!GoRange, !GoInt64, !UnicodeLower} capabilities document id node resolved :
  nodes_of document !! id = Some node → nf_Definition (Fields node) = Some resolved →
  rnd_Ref resolved = None → Validate capabilities document = None.
Proof.
  intros Hid Hd Hr. unfold Validate. replace (existsb _ _) with true; [done|]. symmetry.
  apply existsb_exists. exists (id, node). split; [by apply list_elem_of_In, elem_of_map_to_list|].
  unfold definition_panics. simpl. rewrite Hd. by apply bool_decide_eq_true.
Qed.

(** Two outputs whose artifacts have one file name: the error is located at the output that Go's
    map iteration visits second, so the same document gets different errors. *)
Definition ex_duplicate_files : Document := {|
  doc_APIVersion := ""; doc_Kind := ""; doc_Metadata := doc_Metadata ex_valid;
  doc_Spec := {|
    spec_Inputs := ∅; spec_RouteDefaults := {| rd_Entry := "write"; rd_Terminals := ["write"] |};
    spec_Profiles := ∅;
    spec_Nodes := {[ "write" := ex_command true true ∅
      (list_to_map ((λ id, (id, {| od_Artifact := Some {| ac_Filename := "report.md"; ac_TemplateInput := "" |};
         od_SchemaDefinition := ""; od_Type := "markdown"; od_Schema := ""; od_Description := "";
         od_Required := None |})) <$> ["draft"; "final"])) None [] ]};
  |};
|}.
Lemma duplicate_filename_order_dependent :
  ∃ (R1 R2 : GoRange) e1 e2,
    @Validate R1 int64_amd64 ex_lower None ex_duplicate_files = Some [e1] ∧
    @Validate R2 int64_amd64 ex_lower None ex_duplicate_files = Some [e2] ∧
    ve_Location e1 ≠ ve_Location e2.
Proof.
  exists range_canonical, range_reversed. eexists _, _. split_and!; [vm_compute; reflexivity..|]. discriminate.
Qed.
