(* ===== verification/Scheduler.v ===== *)
(** The workflow scheduler: binding resolution, output decoding, transition choice and the
    advance of a run past a completed node
    ([runtime/src/core/runexecution/workflow_scheduler.go] and the end of
    [workflowAttemptContext] in [service.go]).

    The durable execution context holds the frame snapshot as a value: its JSON wire form is
    not modelled. *)
From S2P Require Import Prelude GoStrings GoJson GoEncode GoFloat Schema Predicate Route Frame StateStore RunContext Deliverable.
From stdpp Require Import options.

(** * Errors *)
Inductive schedule_error :=
| ScheduleFailure (message : msg)
| ValueFailure (error : value_error)
| WhenFailure (error : FrameError)
| FrameFailure (error : frame_error)
| InputFailure (input : Identifier) (error : schedule_error).
Abbreviation sresult := (result schedule_error).
Definition schedule_failure {A} (format : string) (args : list msg_arg) : sresult A :=
  Err (ScheduleFailure (Msg format args)).
Definition lift_error {E F A} (f : E → F) (r : result E A) : result F A :=
  match r with Ok a => Ok a | Err e => Err (f e) end.

#[global] Instance frame_error_eq_dec : EqDecision frame_error.
Proof. solve_decision. Defined.
#[global] Instance schedule_error_eq_dec : EqDecision schedule_error.
Proof. solve_decision. Defined.

(** * Bindings *)

(** [strings.ReplaceAll] of a two-byte pattern by one byte. *)
Fixpoint ReplaceAll2 (s : string) (a b c : ascii) : string :=
  match s with
  | String x ((String y rest) as tail) =>
      if decide (x = a ∧ y = b) then String c (ReplaceAll2 rest a b c)
      else String x (ReplaceAll2 tail a b c)
  | _ => s
  end.
Definition pointer_member (encoded : string) : string :=
  ReplaceAll2 (ReplaceAll2 encoded "~" "1" "/") "~" "0" "~".

Fixpoint walk_pointer (value : Json) (members : list string) : option Json :=
  match members with
  | [] => Some value
  | encoded :: members =>
      match value with
      | JObject object =>
          match lookup_member (pointer_member encoded) object with
          | Some value => walk_pointer value members
          | None => None
          end
      | _ => None
      end
  end.

(** [None] is the result [found = false]. *)
Definition selectJSONPointer (raw : RawMessage) (pointer : string) : sresult (option RawMessage) :=
  match pointer with
  | EmptyString => Ok (Some raw)
  | String c tokens =>
      if decide (c ≠ "/"%char) then schedule_failure "JSON Pointer must begin with '/'" []
      else
        match Decode raw with
        | None => schedule_failure "binding source is invalid JSON" []
        | Some value => Ok (Marshal <$> walk_pointer value (Split tokens "/"%char))
        end
  end.

Section inputs.
Variables (runInputs : gmap Identifier RawMessage)
  (outputs : gmap Identifier (gmap Identifier RawMessage)).

Definition binding_source (source : string) : sresult (option RawMessage) :=
  match Split source "."%char with
  | [p0; p1; name] =>
      if decide (p0 = "run" ∧ p1 = "input") then Ok (runInputs !! name)
      else schedule_failure "unsupported binding source %q" [AStr source]
  | [p0; node; p2; output] =>
      if decide (p0 = "node" ∧ p2 = "output") then Ok (outputs !! node ≫= lookup output)
      else schedule_failure "unsupported binding source %q" [AStr source]
  | _ => schedule_failure "unsupported binding source %q" [AStr source]
  end.

Definition resolveBinding (binding : Binding) : sresult (option RawMessage) :=
  let? raw := binding_source (Source binding) in
  match raw with
  | None => Ok None
  | Some raw =>
      if decide (bindingPointer binding = "") then Ok (Some raw)
      else selectJSONPointer raw (bindingPointer binding)
  end.

(** The value an input resolves to; [None] leaves the input absent. *)
Definition resolve_input (inputID : Identifier) (binding : Binding) : sresult (option RawMessage) :=
  let? raw := lift_error (InputFailure inputID) (resolveBinding binding) in
  match raw with
  | None =>
      match binding with
      | OptionalBinding _ _ _ default_ _ =>
          Ok (default_ ≫= λ value, if decide (value = "") then None else Some value)
      | RequiredBinding _ _ _ _ =>
          schedule_failure "required source %q is unavailable" [AStr (Source binding)]
      end
  | Some raw =>
      if negb (preparationInputType raw (BindingValueType binding)) then
        schedule_failure "source %q has type %q, want %q"
          [AStr (Source binding); AStr (valueType raw); AStr (BindingValueType binding)]
      else Ok (Some raw)
  end.

Definition resolve_step (resolved : gmap Identifier RawMessage) (entry : Identifier * Binding)
  : sresult (gmap Identifier RawMessage) :=
  let? value := resolve_input entry.1 entry.2 in
  Ok (match value with Some raw => <[entry.1 := raw]> resolved | None => resolved end).

Definition resolveNodeInputs `{!GoRange} (node : Node) : sresult (gmap Identifier RawMessage) :=
  foldM resolve_step ∅ (range_map "resolveNodeInputs" (nf_Inputs (Fields node))).
End inputs.

(** * Outputs *)
Definition output_required (declaration : OutputDeclaration) : bool :=
  match od_Required declaration with None => true | Some required => required end.

Definition declared_output (declarations : gmap Identifier OutputDeclaration)
    (entry : string * RawMessage) : sresult unit :=
  match declarations !! entry.1 with
  | None => schedule_failure "workflow node returned undeclared output %q" [AStr entry.1]
  | Some _ => Ok tt
  end.

Definition decode_output (object : gmap string RawMessage) (id : Identifier)
    (declaration : OutputDeclaration) : sresult (option RawMessage) :=
  match object !! id with
  | None =>
      if output_required declaration
      then schedule_failure "workflow node omitted required output %q" [AStr id]
      else Ok None
  | Some value =>
      if negb (preparationInputType value (od_Type declaration)) then
        schedule_failure "workflow output %q has type %q, want %q"
          [AStr id; AStr (valueType value); AStr (od_Type declaration)]
      else Ok (Some value)
  end.

Definition decode_step (object result : gmap string RawMessage)
    (entry : Identifier * OutputDeclaration) : sresult (gmap Identifier RawMessage) :=
  let? value := decode_output object entry.1 entry.2 in
  Ok (match value with Some raw => <[entry.1 := raw]> result | None => result end).

Definition decodeNodeOutputs `{!GoRange} (node : Node) (raw : RawMessage)
  : sresult (gmap Identifier RawMessage) :=
  match Decode_raw_map raw with
  | Some (Some object) =>
      let declarations := nf_Outputs (Fields node) in
      let? _ := forM_ (declared_output declarations) (range_map "decodeNodeOutputs.object" object) in
      foldM (decode_step object) ∅ (range_map "decodeNodeOutputs" declarations)
  | _ => schedule_failure "workflow node output must be one JSON object" []
  end.

(** * Choosing a transition *)
Definition transitionWhen (transition : Transition) : Predicate := tf_When (transitionFields transition).

Definition transitionInRoute (route : Route) (id : Identifier) : bool :=
  existsb (λ transition, bool_decide (rt_ID transition = id)) (route_Transitions route).

Definition when_location (nodeID : Identifier) (index : nat) : string :=
  "/nodes/" +:+ nodeID +:+ "/transitions/" +:+ itoa index +:+ "/when".

Section choose.
Context `{!GoRange}.
Variables (nodeID : Identifier) (route : Route)
  (inputs outputs runInputs : gmap Identifier RawMessage).

Definition transition_matches (index : nat) (transition : Transition) : sresult bool :=
  if is_nil_predicate (transitionWhen transition) then Ok true
  else
    lift_error WhenFailure
      (EvaluatePredicate (transitionWhen transition)
         {| pv_Outputs := outputs; pv_Inputs := inputs; pv_RunInputs := runInputs |}
         (when_location nodeID index)).

Definition choose_step (selected : option Transition) (index : nat) (transition : Transition)
  : sresult (option Transition) :=
  if negb (transitionInRoute route (ID transition)) then Ok selected
  else
    let? matched := transition_matches index transition in
    if (matched : bool) then
      match selected with
      | Some _ =>
          schedule_failure
            "bounded scheduler does not support multiple matching successor transitions" []
      | None => Ok (Some transition)
      end
    else Ok selected.

Definition chooseTransition (node : Node) : sresult Transition :=
  let? selected := foldM_i choose_step None (nf_Transitions (Fields node)) in
  match selected with
  | Some transition => Ok transition
  | None => schedule_failure "workflow node has no matching successor transition" []
  end.
End choose.

(** * Dispatch *)

(** [AttemptRequestContext], its fields that scheduling reads. *)
Record AttemptRequestContext := {
  ac_Attempt : AttemptProjection;
  ac_Node : Node;
  ac_FrozenRoute : Route;
  ac_RunInputs : gmap Identifier RawMessage;
  ac_AcceptedOutputs : gmap Identifier (gmap Identifier RawMessage);
  ac_NodeInputs : gmap Identifier RawMessage;
  ac_ExecutionContext : RunExecutionContext;
  ac_FrameSnapshot : FrameSnapshot;
}.

(** The end of [workflowAttemptContext], once the route, the node and the execution context
    have been read. *)
Definition attemptContext `{!GoRange} (attempt : AttemptProjection) (route : Route) (node : Node)
    (context : RunExecutionContext) : sresult AttemptRequestContext :=
  let? _ := lift_error FrameFailure (RestoreFrame (xc_FrameSnapshot (xc_content context))) in
  let? nodeInputs := resolveNodeInputs (xc_RunInputs (xc_content context))
                       (xc_AcceptedOutputs (xc_content context)) node in
  Ok {| ac_Attempt := attempt; ac_Node := node; ac_FrozenRoute := route;
        ac_RunInputs := xc_RunInputs (xc_content context);
        ac_AcceptedOutputs := xc_AcceptedOutputs (xc_content context);
        ac_NodeInputs := nodeInputs; ac_ExecutionContext := context;
        ac_FrameSnapshot := xc_FrameSnapshot (xc_content context) |}.

(** * Advancing *)
Record workflowAdvance := {
  adv_context : RunExecutionContext;
  adv_successor : Identifier;
  adv_terminal : bool;
  adv_persist : bool;
}.

Definition rawMapsEqual `{!GoRange} (left right : gmap Identifier RawMessage) : bool :=
  bool_decide (size left = size right) &&
  forallb (λ entry,
    match right !! entry.1 with
    | Some rightValue => bool_decide (TrimSpace entry.2 = TrimSpace rightValue)
    | None => false
    end) (range_map "rawMapsEqual" left).

(** The context with other outputs and another frame; saving it checks its revision. *)
Definition context_with (context : RunExecutionContext)
    (outputs : gmap string (gmap string RawMessage)) (frame : FrameSnapshot) : RunExecutionContext := {|
  xc_content := content_with (xc_content context) outputs frame (xc_RunInputs (xc_content context));
  xc_Revision := xc_Revision context; xc_Digest := xc_Digest context;
|}.

Section advance.
Context `{!GoRange, !GoInt64}.
Variables (dispatch : AttemptRequestContext) (output : gmap Identifier RawMessage)
  (validator : option SchemaValidation).
Definition current_node : Identifier := att_NodeID (ac_Attempt dispatch).
Definition current_visit : string := att_VisitID (ac_Attempt dispatch).

Definition at_terminal : bool :=
  bool_decide (current_node ∈ route_Terminals (ac_FrozenRoute dispatch)).

(** The loop over the tokens of the snapshot. *)
Definition replayed_successor : option Identifier :=
  tok_Target <$>
    List.find (λ token, bool_decide (tk_SourceVisitID (tok_Key token) = current_visit))
      (fs_Tokens (ac_FrameSnapshot dispatch)).

(** The outputs are already stored: the advance they led to, if there is one. *)
Definition replayed_advance : option workflowAdvance :=
  match ac_AcceptedOutputs dispatch !! current_node with
  | Some stored =>
      if rawMapsEqual stored output then
        if at_terminal then
          Some {| adv_context := ac_ExecutionContext dispatch; adv_successor := "";
                  adv_terminal := true; adv_persist := false |}
        else
          (λ target, {| adv_context := ac_ExecutionContext dispatch; adv_successor := target;
                        adv_terminal := false; adv_persist := false |}) <$> replayed_successor
      else None
  | None => None
  end.

Definition stored_outputs : gmap Identifier (gmap Identifier RawMessage) :=
  <[current_node := output]> (ac_AcceptedOutputs dispatch).

Definition fire_successor (transition : Transition) : sresult workflowAdvance :=
  let context := ac_ExecutionContext dispatch in
  let? frame := lift_error FrameFailure (RestoreFrame (ac_FrameSnapshot dispatch)) in
  let '(frame, outcome) :=
    fire_transition frame current_visit current_node (uint64 (xc_Revision context + 1)) transition in
  let? _ := lift_error FrameFailure outcome in
  Ok {| adv_context := context_with context stored_outputs (Snapshot frame);
        adv_successor := Target transition; adv_terminal := false; adv_persist := true |}.

Definition new_advance : sresult workflowAdvance :=
  if at_terminal then
    let context := ac_ExecutionContext dispatch in
    Ok {| adv_context := context_with context stored_outputs (xc_FrameSnapshot (xc_content context));
          adv_successor := ""; adv_terminal := true; adv_persist := true |}
  else
    let? transition :=
      chooseTransition current_node (ac_FrozenRoute dispatch) (ac_NodeInputs dispatch) output
        (ac_RunInputs dispatch) (ac_Node dispatch) in
    fire_successor transition.

Definition validate_output (entry : Identifier * RawMessage) : sresult unit :=
  lift_error ValueFailure
    (ValidateDeliverable (ac_Node dispatch) (ac_NodeInputs dispatch) validator entry.1 entry.2).

Definition prepareWorkflowAdvance : sresult workflowAdvance :=
  let? _ := forM_ validate_output (range_map "prepareWorkflowAdvance" output) in
  match replayed_advance with
  | Some advance => Ok advance
  | None => new_advance
  end.
End advance.

(** * Lemmas *)
Lemma lift_error_Ok {E F A} (f : E → F) (r : result E A) a : lift_error f r = Ok a ↔ r = Ok a.
Proof. destruct r; naive_solver. Qed.

(** ** A loop that stores the values found under their keys *)
Section found_loop.
Context `{!GoRange} {A B : Type}.
Variables (step : gmap Identifier B → Identifier * A → sresult (gmap Identifier B))
  (find : Identifier → A → sresult (option B)).
Hypothesis Hstep : ∀ m entry, step m entry =
  (let? value := find entry.1 entry.2 in
   Ok (match value with Some b => <[entry.1 := b]> m | None => m end)).

Lemma found_fold l r0 r :
  NoDup l.*1 →
  foldM step r0 l = Ok r ↔
  (∀ k a, (k, a) ∈ l → ∃ v, find k a = Ok v ∧ r !! k = (match v with Some b => Some b | None => r0 !! k end)) ∧
  (∀ k, k ∉ l.*1 → r !! k = r0 !! k).
Proof using Hstep.
  revert r0. induction l as [|[k a] l IH]; intros r0 Hnd.
  { simpl. split.
    - intros [= ->]. split; [|done]. by intros k a ?%elem_of_nil.
    - intros [_ Hr]. f_equal. symmetry. apply map_eq. intros k. apply Hr, not_elem_of_nil. }
  inversion Hnd as [|? ? Hk Hnd']; subst. cbn [foldM]. rewrite Hstep. cbn [fst snd].
  destruct (find k a) as [v|e] eqn:Hf; simpl; last first.
  { split; [done|]. intros [Hall _]. destruct (Hall k a) as (v & ? & _); [by left|congruence]. }
  rewrite IH by done. set (r1 := match v with Some b => _ | None => _ end).
  assert (∀ k', k' ≠ k → r1 !! k' = r0 !! k') as Hne.
  { intros k' ?. subst r1. destruct v; [by apply lookup_insert_ne|done]. }
  assert (r1 !! k = match v with Some b => Some b | None => r0 !! k end) as Heq.
  { subst r1. destruct v; [apply lookup_insert_eq|done]. }
  assert (∀ k' a', (k', a') ∈ l → k' ≠ k) as Hdiff.
  { intros k' a' Hin ->. destruct Hk. apply list_elem_of_fmap. by exists (k, a'). }
  split; intros [Hin Hout]; split.
  - intros k' a' [[= -> ->]|Hl]%elem_of_cons.
    + exists v. split; [done|]. by rewrite Hout.
    + destruct (Hin k' a' Hl) as (v' & ? & Hr). exists v'. split; [done|]. by rewrite Hr, Hne by eauto.
  - intros k' [??]%not_elem_of_cons. rewrite Hout by done. by apply Hne.
  - intros k' a' Hl. destruct (Hin k' a') as (v' & ? & Hr); [by right|]. exists v'. split; [done|].
    by rewrite Hr, Hne by eauto.
  - intros k' Hk'. destruct (decide (k' = k)) as [->|].
    + rewrite Heq. destruct (Hin k a) as (v' & Hv' & Hr); [by left|].
      rewrite Hf in Hv'. by injection Hv' as <-.
    + rewrite Hne by done. apply Hout. by apply not_elem_of_cons.
Qed.

Lemma found_map site m r :
  foldM step ∅ (range_map site m) = Ok r ↔
  ∀ k, match m !! k with
       | None => r !! k = None
       | Some a => find k a = Ok (r !! k)
       end.
Proof using Hstep.
  rewrite found_fold; last first.
  { unfold range_map. rewrite range_perm. apply NoDup_fst_map_to_list. }
  setoid_rewrite elem_of_range_map. split.
  - intros [Hin Hout] k. destruct (m !! k) as [a|] eqn:Hk.
    + destruct (Hin k a Hk) as (v & -> & ->). by destruct v.
    + rewrite <-(lookup_empty (M:=gmap Identifier) (A:=B) k). apply Hout.
      intros ([k' a] & -> & Hka%elem_of_range_map)%list_elem_of_fmap. simpl in *. congruence.
  - intros Hall. split.
    + intros k a Hk. specialize (Hall k). rewrite Hk in Hall. exists (r !! k).
      split; [done|]. by destruct (r !! k).
    + intros k Hk. specialize (Hall k). rewrite lookup_empty.
      destruct (m !! k) as [a|] eqn:Hma; [|done]. destruct Hk.
      apply list_elem_of_fmap. exists (k, a). by rewrite elem_of_range_map.
Qed.
End found_loop.

(** ** What a binding denotes *)
Inductive pointer_selects : Json → list string → Json → Prop :=
| selects_here v : pointer_selects v [] v
| selects_member object member members v w :
    lookup_member (pointer_member member) object = Some v → pointer_selects v members w →
    pointer_selects (JObject object) (member :: members) w.

Lemma walk_pointer_Some v members w : walk_pointer v members = Some w ↔ pointer_selects v members w.
Proof.
  revert v. induction members as [|m ms IH]; intros v; simpl.
  - split; [intros [= ->]; constructor|by inversion 1].
  - destruct v as [| | | | |o]; try (split; [done|by inversion 1]).
    destruct (lookup_member (pointer_member m) o) as [v|] eqn:Hm.
    + rewrite IH. split; [by econstructor|]. inversion 1; subst. by simplify_eq.
    + split; [done|]. inversion 1; subst. by simplify_eq.
Qed.

Section binding.
Variables (runInputs : gmap Identifier RawMessage)
  (outputs : gmap Identifier (gmap Identifier RawMessage)).

(** A reference names a run input or an output of a node. *)
Inductive source_names : string → option RawMessage → Prop :=
| names_run source name :
    Split source "."%char = ["run"; "input"; name] → source_names source (runInputs !! name)
| names_node source node output :
    Split source "."%char = ["node"; node; "output"; output] →
    source_names source (outputs !! node ≫= lookup output).

Lemma binding_source_Ok source value : binding_source runInputs outputs source = Ok value ↔ source_names source value.
Proof.
  unfold binding_source. split.
  - intros Hs. destruct (Split source _) as [|p0 [|p1 [|p2 [|p3 [|]]]]] eqn:Hsplit; try done;
      case_decide as Hp; try done; injection Hs as <-; destruct Hp as [-> ->]; by constructor.
  - destruct 1 as [source name Hs|source node output Hs]; rewrite Hs; by rewrite decide_True.
Qed.

(** The value a binding selects; [None] when there is none. *)
Inductive binding_selects (binding : Binding) : option RawMessage → Prop :=
| binds_absent : source_names (Source binding) None → binding_selects binding None
| binds_whole raw :
    source_names (Source binding) (Some raw) → bindingPointer binding = "" →
    binding_selects binding (Some raw)
| binds_part raw tokens v w :
    source_names (Source binding) (Some raw) → bindingPointer binding = String "/" tokens →
    Decode raw = Some v → pointer_selects v (Split tokens "/"%char) w →
    binding_selects binding (Some (Marshal w))
| binds_no_part raw tokens v :
    source_names (Source binding) (Some raw) → bindingPointer binding = String "/" tokens →
    Decode raw = Some v → ¬ (∃ w, pointer_selects v (Split tokens "/"%char) w) →
    binding_selects binding None.

Lemma source_names_inj source v1 v2 : source_names source v1 → source_names source v2 → v1 = v2.
Proof. intros H1%binding_source_Ok H2%binding_source_Ok. congruence. Qed.

Lemma resolveBinding_Ok binding value :
  resolveBinding runInputs outputs binding = Ok value ↔ binding_selects binding value.
Proof.
  unfold resolveBinding. rewrite result_bind_Ok. setoid_rewrite binding_source_Ok. split.
  - intros ([raw|] & Hsrc & Hv); [|injection Hv as <-; by apply binds_absent].
    case_decide as Hp; [injection Hv as <-; by apply binds_whole|].
    unfold selectJSONPointer in Hv. destruct (bindingPointer binding) as [|c tokens] eqn:Hptr; [done|].
    case_decide as Hc; [done|subst c].
    destruct (Decode raw) as [v|] eqn:Hd; [|done]. injection Hv as <-.
    destruct (walk_pointer v _) as [w|] eqn:Hw.
    + apply (binds_part _ raw tokens v); try done. by apply walk_pointer_Some.
    + apply (binds_no_part _ raw tokens v); try done. intros [w Hw'%walk_pointer_Some]. congruence.
  - destruct 1 as [Hs|raw Hs Hp|raw tokens v w Hs Hp Hd Hw|raw tokens v Hs Hp Hd Hno].
    + by exists None.
    + exists (Some raw). split; [done|]. by rewrite decide_True.
    + exists (Some raw). split; [done|]. rewrite Hp, decide_False by done. simpl.
      rewrite Hd. by apply walk_pointer_Some in Hw as ->.
    + exists (Some raw). split; [done|]. rewrite Hp, decide_False by done. simpl. rewrite Hd.
      destruct (walk_pointer v _) as [w|] eqn:Hw; [|done]. destruct Hno. exists w. by apply walk_pointer_Some.
Qed.

(** The value of a node input: the selected value when it has the declared type; for an
    optional binding without a value its default, unless that is empty. *)
Definition input_value (binding : Binding) (value : option RawMessage) : Prop :=
  (∃ raw, binding_selects binding (Some raw) ∧
     preparationInputType raw (BindingValueType binding) = true ∧ value = Some raw) ∨
  (∃ from pointer type default_ description,
     binding = OptionalBinding from pointer type default_ description ∧
     binding_selects binding None ∧
     value = (default_ ≫= λ raw, if decide (raw = "") then None else Some raw)).

Lemma resolve_input_Ok id binding value :
  resolve_input runInputs outputs id binding = Ok value ↔ input_value binding value.
Proof.
  unfold resolve_input. rewrite result_bind_Ok. setoid_rewrite lift_error_Ok.
  setoid_rewrite resolveBinding_Ok. unfold input_value. split.
  - intros ([raw|] & Hb & Hv).
    + destruct (preparationInputType raw _) eqn:Ht; [|done]. injection Hv as <-. left. by exists raw.
    + destruct binding as [|from pointer type default_ description]; [done|]. injection Hv as <-.
      right. by exists from, pointer, type, default_, description.
  - intros [(raw & Hb & Ht & ->)|(from & pointer & type & default_ & description & -> & Hb & ->)].
    + exists (Some raw). by rewrite Ht.
    + by exists None.
Qed.
End binding.

Lemma resolveNodeInputs_Ok `{!GoRange} runInputs outputs node r :
  resolveNodeInputs runInputs outputs node = Ok r ↔
  ∀ id, match nf_Inputs (Fields node) !! id with
        | None => r !! id = None
        | Some binding => resolve_input runInputs outputs id binding = Ok (r !! id)
        end.
Proof. apply found_map. done. Qed.

Lemma decodeNodeOutputs_Ok `{!GoRange} node raw r :
  decodeNodeOutputs node raw = Ok r ↔
  ∃ object, Decode_raw_map raw = Some (Some object) ∧
    (∀ id, is_Some (object !! id) → is_Some (nf_Outputs (Fields node) !! id)) ∧
    ∀ id, match nf_Outputs (Fields node) !! id with
          | None => r !! id = None
          | Some declaration => decode_output object id declaration = Ok (r !! id)
          end.
Proof.
  unfold decodeNodeOutputs. destruct (Decode_raw_map raw) as [[object|]|]; [|naive_solver..].
  cbv zeta. rewrite result_bind_Ok. split.
  - intros ([] & Hdecl & Hr). pose proof (proj1 (found_map (decode_step object) (decode_output object) (λ _ _, eq_refl) _ _ _) Hr) as Hr'.
    exists object. split_and!; [done| |done]. intros id [v Hv]. apply forM_Ok in Hdecl.
    assert ((id, v) ∈ range_map "decodeNodeOutputs.object" object) as Hin by by apply elem_of_range_map.
    pose proof (proj1 (Forall_forall _ _) Hdecl _ Hin) as Hd. unfold declared_output in Hd.
    simpl in Hd. by destruct (nf_Outputs _ !! id).
  - intros (object' & [= <-] & Hdecl & Hr). exists tt. split; [|by apply (found_map (decode_step object) (decode_output object))].
    apply forM_Ok, Forall_forall. intros [id v] Hin%elem_of_range_map. unfold declared_output. simpl.
    destruct (Hdecl id) as [d ->]; [by eexists|done].
Qed.

(** ** The choice *)
Section choice.
Context `{!GoRange}.
Variables (nodeID : Identifier) (route : Route)
  (inputs outputs runInputs : gmap Identifier RawMessage).
Abbreviation matches := (transition_matches nodeID inputs outputs runInputs).
Abbreviation step := (choose_step nodeID route inputs outputs runInputs).

(** No transition of [l], at indices from [i], matches; or exactly one does. *)
Definition none_matches (i : nat) (l : list Transition) : Prop :=
  ∀ j t, l !! j = Some t → transitionInRoute route (ID t) = true → matches (i + j) t = Ok false.
Definition one_matches (i : nat) (l : list Transition) (t : Transition) : Prop :=
  ∃ k, l !! k = Some t ∧ transitionInRoute route (ID t) = true ∧ matches (i + k) t = Ok true ∧
    ∀ j t', l !! j = Some t' → j ≠ k → transitionInRoute route (ID t') = true →
      matches (i + j) t' = Ok false.

Lemma none_matches_cons i t l :
  none_matches i (t :: l) ↔
  (transitionInRoute route (ID t) = true → matches i t = Ok false) ∧ none_matches (S i) l.
Proof.
  unfold none_matches. split.
  - intros Hall. split; [intros Hr; specialize (Hall 0 t eq_refl Hr); by rewrite Nat.add_0_r in Hall|].
    intros j t' Hj. specialize (Hall (S j) t' Hj). by rewrite Nat.add_succ_r in Hall.
  - intros [Ht Hl] [|j] t'; simpl.
    + intros [= <-] Hr. rewrite Nat.add_0_r. auto.
    + intros Hj. rewrite Nat.add_succ_r. by apply (Hl j).
Qed.

Lemma one_matches_cons i t l t0 :
  one_matches i (t :: l) t0 ↔
  (t0 = t ∧ transitionInRoute route (ID t) = true ∧ matches i t = Ok true ∧ none_matches (S i) l) ∨
  ((transitionInRoute route (ID t) = true → matches i t = Ok false) ∧ one_matches (S i) l t0).
Proof.
  split.
  - intros ([|k] & Hk & Hr & Hm & Hother); simpl in Hk.
    + injection Hk as ->. left. rewrite Nat.add_0_r in Hm. split_and!; try done.
      intros j t' Hj Hr'. rewrite Nat.add_succ_comm. by apply (Hother (S j) t').
    + right. split.
      * intros Hr'. specialize (Hother 0 t eq_refl). rewrite Nat.add_0_r in Hother. by apply Hother.
      * exists k. rewrite Nat.add_succ_r in Hm. split_and!; try done. intros j t' Hj Hne Hr'.
        specialize (Hother (S j) t' Hj). rewrite Nat.add_succ_r in Hother. apply Hother; [lia|done].
  - intros [(-> & Hr & Hm & Hnone)|(Ht & k & Hk & Hr & Hm & Hother)].
    + exists 0. rewrite Nat.add_0_r. split_and!; try done. intros [|j] t' Hj Hne Hr'; [done|].
      rewrite Nat.add_succ_r. by apply (Hnone j).
    + exists (S k). rewrite Nat.add_succ_r. split_and!; try done. intros [|j] t' Hj Hne Hr'.
      * injection Hj as ->. rewrite Nat.add_0_r. auto.
      * rewrite Nat.add_succ_r. apply (Hother j); [done|lia|done].
Qed.

Lemma choose_loop i l selected r :
  foldM_i_from i step selected l = Ok r ↔
  match selected with
  | Some t => r = Some t ∧ none_matches i l
  | None => match r with None => none_matches i l | Some t => one_matches i l t end
  end.
Proof.
  revert i selected. induction l as [|t l IH]; intros i selected; simpl.
  { destruct selected as [t|]; [split; [intros [= <-]; split; [done|]|naive_solver]; by intros ??|].
    destruct r as [t|]; [|split; [intros _ ??|]; done]. split; [done|]. by intros (k & ? & _). }
  rewrite result_bind_Ok. unfold choose_step at 1.
  destruct (transitionInRoute route (ID t)) eqn:Hr; simpl; last first.
  { setoid_rewrite IH. transitivity (match selected with
      | Some t => r = Some t ∧ none_matches (S i) l
      | None => match r with None => none_matches (S i) l | Some t => one_matches (S i) l t end end).
    { split; [by intros (? & [= <-] & ?)|intros ?; by eexists]. }
    destruct selected as [t'|].
    - rewrite none_matches_cons, Hr. naive_solver.
    - destruct r as [t'|]; [rewrite one_matches_cons, Hr|rewrite none_matches_cons, Hr]; naive_solver. }
  destruct (matches i t) as [[]|e] eqn:Hm; simpl.
  - destruct selected as [t'|].
    + split; [by intros (? & [=] & _)|]. intros [_ [Hn _]%none_matches_cons]. rewrite Hm in Hn.
      by specialize (Hn Hr).
    + setoid_rewrite IH. transitivity (r = Some t ∧ none_matches (S i) l).
      { split; [by intros (? & [= <-] & ?)|intros ?; by eexists]. }
      destruct r as [t'|]; [rewrite one_matches_cons|rewrite none_matches_cons]; rewrite Hm, Hr; naive_solver.
  - setoid_rewrite IH. transitivity (match selected with
      | Some t => r = Some t ∧ none_matches (S i) l
      | None => match r with None => none_matches (S i) l | Some t => one_matches (S i) l t end end).
    { split; [by intros (? & [= <-] & ?)|intros ?; by eexists]. }
    destruct selected as [t'|].
    + rewrite none_matches_cons, Hm. naive_solver.
    + destruct r as [t'|]; [rewrite one_matches_cons|rewrite none_matches_cons]; rewrite Hm, Hr; naive_solver.
  - split; [by intros (? & [=] & _)|]. intros Hall. exfalso.
    destruct selected as [t'|]; [|destruct r as [t'|]].
    + destruct Hall as [_ [Hn _]%none_matches_cons]. rewrite Hm in Hn. by specialize (Hn Hr).
    + apply one_matches_cons in Hall as [(_ & _ & Hm' & _)|[Hn _]]; [congruence|].
      rewrite Hm in Hn. by specialize (Hn Hr).
    + apply none_matches_cons in Hall as [Hn _]. rewrite Hm in Hn. by specialize (Hn Hr).
Qed.

Lemma chooseTransition_Ok node t :
  chooseTransition nodeID route inputs outputs runInputs node = Ok t ↔
  one_matches 0 (nf_Transitions (Fields node)) t.
Proof.
  unfold chooseTransition. rewrite result_bind_Ok. setoid_rewrite choose_loop. split.
  - by intros ([t'|] & ? & [= <-]).
  - intros ?. by exists (Some t).
Qed.
End choice.

(** ** The advance *)
Lemma rawMapsEqual_true `{!GoRange} left right :
  rawMapsEqual left right = true →
  dom left = dom right ∧
  ∀ k l r, left !! k = Some l → right !! k = Some r → TrimSpace l = TrimSpace r.
Proof.
  unfold rawMapsEqual. intros [Hsize%bool_decide_eq_true Hall]%andb_prop.
  rewrite forallb_forall in Hall.
  assert (∀ k l, left !! k = Some l → ∃ r, right !! k = Some r ∧ TrimSpace l = TrimSpace r) as Hin.
  { intros k l Hk. apply elem_of_range_map with (site := "rawMapsEqual") in Hk.
    apply list_elem_of_In, Hall in Hk. simpl in Hk. destruct (right !! k) as [r|]; [|done].
    exists r. by apply bool_decide_eq_true in Hk. }
  split.
  - apply set_subseteq_size_eq.
    + intros k [l Hl]%elem_of_dom. destruct (Hin k l Hl) as (r & Hr & _). apply elem_of_dom. by exists r.
    + rewrite !size_dom. lia.
  - intros k l r Hl Hr. destruct (Hin k l Hl) as (r' & Hr' & ?). congruence.
Qed.

Lemma rawMapsEqual_refl `{!GoRange} m : rawMapsEqual m m = true.
Proof.
  unfold rawMapsEqual. rewrite bool_decide_true by done. simpl. apply forallb_forall.
  intros [k v] Hin%list_elem_of_In%elem_of_range_map. simpl. rewrite Hin. by apply bool_decide_true.
Qed.

Lemma tokens_of_Snapshot `{!GoRange} f t :
  t ∈ fs_Tokens (Snapshot f) ↔ ∃ k, fr_tokens f !! k = Some t.
Proof.
  rewrite Snapshot_tokens, list_elem_of_fmap. split.
  - intros ([k t'] & -> & Hk%elem_of_map_to_list). by exists k.
  - intros [k Hk]. exists (k, t). by rewrite elem_of_map_to_list.
Qed.

Section advancing.
Context `{!GoRange, !GoInt64}.
Variables (dispatch : AttemptRequestContext) (output : gmap Identifier RawMessage)
  (validator : option SchemaValidation).
Abbreviation visit := (current_visit dispatch).
Abbreviation node := (current_node dispatch).
Abbreviation context := (ac_ExecutionContext dispatch).

(** The token of an advance. *)
Definition advance_key (transition : Transition) : TransitionTokenKey :=
  fire_key visit (uint64 (xc_Revision context + 1)) transition.
Definition chosen (transition : Transition) : Prop :=
  one_matches node (ac_FrozenRoute dispatch) (ac_NodeInputs dispatch) output
    (ac_RunInputs dispatch) 0 (nf_Transitions (Fields (ac_Node dispatch))) transition.

(** The frame of the context after the advance: one more token at most. *)
Definition token_added (transition : Transition) (before after : FrameSnapshot) : Prop :=
  ∃ token, tok_Key token = advance_key transition ∧ tok_Source token = node ∧
    tok_Target token = Target transition ∧
    ∀ t, t ∈ fs_Tokens after ↔ t = token ∨ t ∈ fs_Tokens before.

Lemma fire_successor_Ok transition adv :
  snapshot_typed (ac_FrameSnapshot dispatch) →
  fire_successor dispatch output transition = Ok adv →
  adv_successor adv = Target transition ∧ adv_terminal adv = false ∧ adv_persist adv = true ∧
  adv_context adv = context_with context (stored_outputs dispatch output)
    (xc_FrameSnapshot (xc_content (adv_context adv))) ∧
  (∃ rt, rt ∈ route_Transitions (fs_Route (ac_FrameSnapshot dispatch)) ∧
     rt_ID rt = ID transition ∧ rt_From rt = node ∧ rt_To rt = Target transition) ∧
  token_added transition (ac_FrameSnapshot dispatch) (xc_FrameSnapshot (xc_content (adv_context adv))).
Proof.
  intros Htyped. unfold fire_successor.
  intros (f & Hf%lift_error_Ok & Hadv)%result_bind_Ok.
  destruct (RestoreFrame_wf _ f Htyped Hf) as [Hwf Htokens].
  pose proof (RestoreFrame_inv _ f Htyped Hf) as (st & _ & _ & _ & _ & _ & _ & _ & _ & _ & Hdef).
  assert (fr_route f = cloneRoute (fs_Route (ac_FrameSnapshot dispatch))) as Hroute by by rewrite Hdef.
  clear Hdef. set (epoch := uint64 (xc_Revision context + 1)) in *.
  pose proof (fire_transition_outcome f visit node epoch transition) as Ho.
  destruct (fire_transition f visit node epoch transition) as [f' outcome].
  apply result_bind_Ok in Hadv as ([token replayed] & ->%lift_error_Ok & [= <-]).
  simpl. split_and!; try done.
  - assert (in_route f node transition) as (rt & Hrt & ? & ?) by by inversion Ho.
    rewrite Hroute in Hrt. apply findRouteTransition_Some in Hrt as [? ?]. by exists rt.
  - assert (∀ t, (∃ k, fr_tokens f !! k = Some t) ↔ t ∈ fs_Tokens (ac_FrameSnapshot dispatch)) as Hold.
    { intros t. rewrite <-Htokens. split; [|intros ?; by eexists].
      intros [k Hk]. by rewrite <-(wf_keys f Hwf k t Hk) in Hk. }
    remember (f', Ok (token, replayed)) as fired eqn:Hfired.
    destruct Ho as [token' _ _ Hk Hs Ht Hm|_ _ Hnew _ |]; [injection Hfired as <- <- <-..|done].
    + exists token'. split_and!; [by apply (wf_keys f Hwf)|done|done|]. intros t.
      rewrite tokens_of_Snapshot, Hold. split; [by right|]. intros [->|?]; [|done].
      apply Hold. by exists (fire_key visit epoch transition).
    + exists (fired_token f visit node epoch transition). rewrite fired_key.
      split_and!; [done|by destruct transition..|]. intros t.
      change (Snapshot _) with (Snapshot (commit_token f (fired_token f visit node epoch transition)
        (fired_traversals f transition))).
      rewrite tokens_of_Snapshot. cbn [commit_token fr_tokens]. rewrite fired_key, <-Hold. split.
      * intros [k [[_ <-]|[_ Hk]]%lookup_insert_Some]; [by left|]. right. by exists k.
      * intros [->|[k Hk]]; [exists (fire_key visit epoch transition); by apply lookup_insert_eq|].
        exists k. rewrite lookup_insert_ne; [done|]. congruence.
Qed.
Lemma persisted_advance adv :
  prepareWorkflowAdvance dispatch output validator = Ok adv → adv_persist adv = true →
  new_advance dispatch output = Ok adv.
Proof.
  unfold prepareWorkflowAdvance. intros ([] & _ & Hadv)%result_bind_Ok Hpersist.
  destruct (replayed_advance dispatch output) as [adv'|] eqn:Hrep; [|done].
  exfalso. injection Hadv as <-. unfold replayed_advance in Hrep.
  destruct (ac_AcceptedOutputs dispatch !! _); [|done]. destruct (rawMapsEqual _ _); [|done].
  destruct (at_terminal dispatch); [by injection Hrep as <-|].
  destruct (replayed_successor dispatch); [|done]. by injection Hrep as <-.
Qed.
End advancing.

(** ** An example: the loop of the example workflow, taken while the report is not done *)
Definition ex_when (done : string) : Predicate :=
  ComparisonPredicate "eq" (ReferenceOperand "output.report.done") (LiteralOperand done).
Definition ex_conditional (id to : Identifier) (done : string) : TransitionFields :=
  {| tf_TransitionID := id; tf_To := to; tf_When := ex_when done; tf_EnabledByDefault := None |}.
Definition ex_report : OutputDeclaration := {|
  od_Artifact := None; od_SchemaDefinition := ""; od_Type := "object"; od_Schema := "";
  od_Description := ""; od_Required := None;
|}.
Definition ex_build : Node := GateNode {|
  nf_Prompt := None; nf_DisplayName := ""; nf_Definition := None;
  nf_Entry := true; nf_Terminal := false;
  nf_Inputs := {[ "plan" := RequiredBinding "node.plan.output.text" "/goal~1s" "string" "";
                  "hint" := OptionalBinding "run.input.hint" "" "string" (Some (quoted "'none'")) "" ]};
  nf_Outputs := {[ "report" := ex_report ]};
  nf_Readiness := None; nf_Validators := []; nf_Retry := None; nf_Checkpoint := None;
  nf_TransitionMode := ""; nf_Join := None; nf_Permissions := [];
  nf_Transitions := [NormalTransition (ex_conditional "t_build" "review" "true");
                     BoundedTransition (ex_conditional "t_again" "build" "false") 2];
|} {| ge_Policy := "gate"; ge_Condition := ConstantPredicate true |}.
Definition ex_attempt : AttemptProjection := {|
  att_AttemptID := "attempt_1"; att_RunID := "run_1"; att_VisitID := "visit_1"; att_NodeID := "build";
  att_PointID := ""; att_PointRevision := 0; att_Priority := 0; att_Scenario := "workflow";
  att_Provider := "codex"; att_Status := AttemptRunning; att_ProviderThreadID := "t";
  att_ProviderTurnID := "u"; att_ProcessOwnerID := "p"; att_LastSequence := 0; att_LogReference := "";
  att_ResourceVersion := 3; att_LastGlobalPosition := 9; att_CreatedAt := 0; att_UpdatedAt := 0;
|}.
Definition ex_stored : RunExecutionContext := {|
  xc_content := content_with ex_content
    {[ "plan" := {[ "text" := quoted "{'goal/s':'ship it'}" ]} ]}
    (@Snapshot range_canonical ex_frame) {[ "task" := quoted "{'a':[true],'b':1}" ]};
  xc_Revision := 3; xc_Digest := "digest of run_1";
|}.
Definition ex_dispatch (context : RunExecutionContext) : sresult AttemptRequestContext :=
  @attemptContext range_canonical ex_attempt ex_route ex_build context.
Definition ex_output (report : string) : gmap Identifier RawMessage := {[ "report" := quoted report ]}.
Definition ex_advance (context : RunExecutionContext) (report : string) : sresult workflowAdvance :=
  let? dispatch := ex_dispatch context in
  @prepareWorkflowAdvance range_canonical int64_amd64 dispatch (ex_output report) None.

Example ex_inputs :
  (λ d, (ac_NodeInputs d !! "plan", ac_NodeInputs d !! "hint")) <$>
    (match ex_dispatch ex_stored with Ok d => Some d | Err _ => None end) =
  Some (Some (quoted "'ship it'"), Some (quoted "'none'")).
Proof. vm_compute. reflexivity. Qed.

(** ** Claims *)

(** A node's inputs resolve exactly when every binding has a value, and each resolved
    input is that value: the selected part of the referenced run input or output when it has
    the declared type, and for an optional binding without a value its default. *)
Theorem resolve_node_inputs (R : GoRange) runInputs outputs node r :
  resolveNodeInputs runInputs outputs node = Ok r ↔
  ∀ id, match nf_Inputs (Fields node) !! id with
        | None => r !! id = None
        | Some binding => input_value runInputs outputs binding (r !! id)
        end.
Proof.
  rewrite resolveNodeInputs_Ok. apply forall_proper. intros id.
  destruct (nf_Inputs (Fields node) !! id) as [b|]; [|done]. apply resolve_input_Ok.
Qed.

(** Exactly one transition of the node that is in the frozen route must match: then it is
    chosen.  With none matching the choice fails, and so it does with a predicate that cannot
    be evaluated or with a second match; the order of the transitions never decides. *)
Theorem choose_transition (R : GoRange) nodeID route inputs outputs runInputs node :
  (∀ t, chooseTransition nodeID route inputs outputs runInputs node = Ok t ↔
     ∃ k, nf_Transitions (Fields node) !! k = Some t ∧ transitionInRoute route (ID t) = true ∧
       transition_matches nodeID inputs outputs runInputs k t = Ok true ∧
       ∀ j t', nf_Transitions (Fields node) !! j = Some t' → j ≠ k →
         transitionInRoute route (ID t') = true →
         transition_matches nodeID inputs outputs runInputs j t' = Ok false) ∧
  (chooseTransition nodeID route inputs outputs runInputs node =
     schedule_failure "workflow node has no matching successor transition" [] ↔
   ∀ j t, nf_Transitions (Fields node) !! j = Some t → transitionInRoute route (ID t) = true →
     transition_matches nodeID inputs outputs runInputs j t = Ok false).
Proof.
  split; [intros t; apply chooseTransition_Ok|].
  assert (∀ r, foldM_i (choose_step nodeID route inputs outputs runInputs) None
      (nf_Transitions (Fields node)) = Ok r ↔ match r with
      | None => none_matches nodeID route inputs outputs runInputs 0 (nf_Transitions (Fields node))
      | Some t => one_matches nodeID route inputs outputs runInputs 0 (nf_Transitions (Fields node)) t
      end) as Hloop by (intros r; exact (choose_loop _ _ _ _ _ 0 (nf_Transitions (Fields node)) None r)).
  unfold chooseTransition. split.
  - intros Hc. destruct (foldM_i _ None _) as [[t|]|e] eqn:Hf; simpl in Hc; [done| |].
    + by apply (Hloop None).
    + exfalso. injection Hc as ->. clear Hloop. revert Hf.
      generalize (None : option Transition) 0. generalize (nf_Transitions (Fields node)).
      induction l as [|t l IH]; intros sel i; simpl; [done|].
      intros [Hs|(a & _ & Ha)]%result_bind_Err; [|by eapply IH].
      unfold choose_step in Hs. destruct (transitionInRoute route (ID t)); [|done]. simpl in Hs.
      apply result_bind_Err in Hs as [Hm|([] & _ & Hm)]; [|by destruct sel|done].
      unfold transition_matches in Hm. destruct (is_nil_predicate _); [done|].
      by destruct (EvaluatePredicate _ _ _).
  - intros Hnone. apply (Hloop None) in Hnone. by rewrite Hnone.
Qed.

(** (C36) An advance that is to be persisted and does not end the run fires one transition: the
    only matching one of the node in the frozen route.  The new frame has one token for it,
    keyed by this visit and the next revision, besides the tokens it had; the outputs of the
    node are stored; the successor is the target of that transition in the frame's route. *)
Theorem advance_fires (R : GoRange) (I : GoInt64) dispatch output validator adv
    (Hadv : prepareWorkflowAdvance dispatch output validator = Ok adv)
    (Hpersist : adv_persist adv = true) (Hrun : adv_terminal adv = false)
    (Htyped : snapshot_typed (ac_FrameSnapshot dispatch)) :
  ∃ transition,
    chosen dispatch output transition ∧ Target transition = adv_successor adv ∧
    (∃ rt, rt ∈ route_Transitions (fs_Route (ac_FrameSnapshot dispatch)) ∧
       rt_ID rt = ID transition ∧ rt_From rt = current_node dispatch ∧ rt_To rt = adv_successor adv) ∧
    token_added dispatch transition (ac_FrameSnapshot dispatch)
      (xc_FrameSnapshot (xc_content (adv_context adv))) ∧
    adv_context adv = context_with (ac_ExecutionContext dispatch)
      (<[current_node dispatch := output]> (ac_AcceptedOutputs dispatch))
      (xc_FrameSnapshot (xc_content (adv_context adv))).
Proof.
  apply persisted_advance in Hadv; [|done]. unfold new_advance in Hadv. destruct (at_terminal dispatch).
  { injection Hadv as <-. done. }
  apply result_bind_Ok in Hadv as (transition & Hchoose & Hfire).
  apply chooseTransition_Ok in Hchoose.
  apply fire_successor_Ok in Hfire as (Hs & _ & _ & Hctx & Hrt & Htok); [|done].
  exists transition. rewrite Hs. by split_and!.
Qed.

(** (C37) Advancing is idempotent across an interruption: when the process stops after the
    advance was saved and the attempt completes again with outputs the store holds, the second
    advance has the same successor or end and persists nothing. *)
Theorem advance_resumes (R : GoRange) (I : GoInt64) dispatch output validator adv dispatch' stored
    (Hadv : prepareWorkflowAdvance dispatch output validator = Ok adv)
    (Hpersist : adv_persist adv = true)
    (Htyped : snapshot_typed (ac_FrameSnapshot dispatch))
    (Hfresh : ∀ t, t ∈ fs_Tokens (ac_FrameSnapshot dispatch) →
       tk_SourceVisitID (tok_Key t) ≠ current_visit dispatch)
    (Hattempt : ac_Attempt dispatch' = ac_Attempt dispatch)
    (Hroute : ac_FrozenRoute dispatch' = ac_FrozenRoute dispatch)
    (Hframe : ac_FrameSnapshot dispatch' = xc_FrameSnapshot (xc_content (adv_context adv)))
    (Hstored : ac_AcceptedOutputs dispatch' !! current_node dispatch = Some stored)
    (Hequal : rawMapsEqual stored output = true)
    (Hvalid : ∀ id value, output !! id = Some value →
       ValidateDeliverable (ac_Node dispatch') (ac_NodeInputs dispatch') validator id value = Ok tt) :
  prepareWorkflowAdvance dispatch' output validator =
  Ok {| adv_context := ac_ExecutionContext dispatch'; adv_successor := adv_successor adv;
        adv_terminal := adv_terminal adv; adv_persist := false |}.
Proof.
  assert (forM_ (validate_output dispatch' validator) (range_map "prepareWorkflowAdvance" output) = Ok tt)
    as Hall.
  { apply forM_Ok, Forall_forall. intros [id value] Hin%elem_of_range_map. unfold validate_output.
    apply lift_error_Ok. by apply Hvalid. }
  assert (current_node dispatch' = current_node dispatch) as Hn by (unfold current_node; by rewrite Hattempt).
  assert (current_visit dispatch' = current_visit dispatch) as Hv by (unfold current_visit; by rewrite Hattempt).
  assert (at_terminal dispatch' = at_terminal dispatch) as Ht by (unfold at_terminal; by rewrite Hn, Hroute).
  unfold prepareWorkflowAdvance at 1. rewrite Hall. simpl.
  unfold replayed_advance. rewrite Hn, Hstored, Hequal, Ht.
  apply persisted_advance in Hadv; [|done]. unfold new_advance in Hadv. destruct (at_terminal dispatch); [by injection Hadv as <-|].
  apply result_bind_Ok in Hadv as (transition & _ & Hfire).
  apply fire_successor_Ok in Hfire as (Hs & Hterm & _ & _ & _ & (token & Hkey & _ & Htarget & Htokens)); [|done].
  unfold replayed_successor. rewrite Hv, Hframe.
  set (p := λ t, bool_decide (tk_SourceVisitID (tok_Key t) = current_visit dispatch)).
  destruct (List.find p _) as [t|] eqn:Hfind.
  - apply find_some in Hfind as [Hin%list_elem_of_In Hp%bool_decide_eq_true].
    apply Htokens in Hin as [->|Hin]; [|by destruct (Hfresh t Hin)].
    simpl. by rewrite Htarget, <-Hs, Hterm.
  - exfalso. pose proof (find_none p _ Hfind token) as Hno.
    assert (p token = false) as Hp.
    { apply Hno, list_elem_of_In, Htokens. by left. }
    apply bool_decide_eq_false in Hp. by rewrite Hkey in Hp.
Qed.

Definition ex_context_ac : AttemptRequestContext := {|
  ac_Attempt := ex_attempt; ac_Node := ex_build; ac_FrozenRoute := ex_route;
  ac_RunInputs := xc_RunInputs (xc_content ex_stored);
  ac_AcceptedOutputs := xc_AcceptedOutputs (xc_content ex_stored);
  ac_NodeInputs := {[ "plan" := quoted "'ship it'"; "hint" := quoted "'none'" ]};
  ac_ExecutionContext := ex_stored; ac_FrameSnapshot := xc_FrameSnapshot (xc_content ex_stored);
|}.
Definition ex_first (report : string) : sresult workflowAdvance :=
  @prepareWorkflowAdvance range_canonical int64_amd64 ex_context_ac (ex_output report) None.

Lemma advance_fires_witness :
  ∃ adv, ex_first "{'done':false}" = Ok adv ∧ adv_successor adv = "build" ∧
    ∃ transition, Target transition = "build" ∧
      @token_added ex_context_ac transition (xc_FrameSnapshot (xc_content ex_stored))
        (xc_FrameSnapshot (xc_content (adv_context adv))).
Proof.
  destruct (ex_first "{'done':false}") as [adv|] eqn:Hadv; [|by vm_compute in Hadv].
  exists adv. split; [done|].
  assert (adv_persist adv = true ∧ adv_terminal adv = false ∧ adv_successor adv = "build") as (Hp & Ht & Hs).
  { vm_compute in Hadv. by injection Hadv as <-. }
  split; [done|].
  destruct (advance_fires range_canonical int64_amd64 ex_context_ac (ex_output "{'done':false}") None adv
    Hadv Hp Ht) as (transition & _ & Htarget & _ & Htok & _).
  - by apply Forall_nil.
  - exists transition. split; [by rewrite Htarget, Hs|exact Htok].
Defined.

Definition ex_again (adv : workflowAdvance) : AttemptRequestContext := {|
  ac_Attempt := ex_attempt; ac_Node := ex_build; ac_FrozenRoute := ex_route;
  ac_RunInputs := xc_RunInputs (xc_content ex_stored);
  ac_AcceptedOutputs := xc_AcceptedOutputs (xc_content (adv_context adv));
  ac_NodeInputs := ac_NodeInputs ex_context_ac;
  ac_ExecutionContext := adv_context adv; ac_FrameSnapshot := xc_FrameSnapshot (xc_content (adv_context adv));
|}.

Lemma advance_resumes_witness :
  ∃ adv, ex_first "{'done':true}" = Ok adv ∧ adv_successor adv = "review" ∧
    @prepareWorkflowAdvance range_canonical int64_amd64 (ex_again adv) (ex_output "{'done':true}") None =
    Ok {| adv_context := adv_context adv; adv_successor := adv_successor adv;
          adv_terminal := adv_terminal adv; adv_persist := false |}.
Proof.
  destruct (ex_first "{'done':true}") as [adv|] eqn:Hadv; [|by vm_compute in Hadv].
  exists adv. split; [done|].
  assert (adv_persist adv = true ∧ adv_terminal adv = false ∧ adv_successor adv = "review" ∧
    xc_AcceptedOutputs (xc_content (adv_context adv)) !! "build" = Some (ex_output "{'done':true}"))
    as (Hp & Ht & Hs & Hout).
  { vm_compute in Hadv. injection Hadv as <-. by vm_compute. }
  split; [done|].
  refine (advance_resumes range_canonical int64_amd64 ex_context_ac (ex_output "{'done':true}") None adv
    (ex_again adv) (ex_output "{'done':true}") Hadv Hp _ _ eq_refl eq_refl eq_refl Hout _ _).
  - by apply Forall_nil.
  - intros t Hin. vm_compute in Hin. inversion Hin.
  - vm_compute. reflexivity.
  - intros id value Hid. unfold ex_output in Hid. apply lookup_singleton_Some in Hid as [<- <-]. vm_compute. reflexivity.
Defined.

(** The tokens in the frame after the first advance, whether completing the attempt again with
    the same outputs advances again, and the tokens then. *)
Definition ex_interrupted (report : string) : option (nat * bool * nat) :=
  match ex_advance ex_stored report with
  | Err _ => None
  | Ok first =>
      match @SaveRunExecutionContext range_canonical ex_library ex_context_digest
              ({[ "run_1" ]} : gset string) ({[ "run_1" := ex_stored ]} : gmap _ _)
              (xc_content (adv_context first)) (xc_Revision (adv_context first)) with
      | (_, Err _) => None
      | (_, Ok saved) =>
          match ex_advance saved report with
          | Err _ => None
          | Ok second =>
              Some (length (fs_Tokens (xc_FrameSnapshot (xc_content (adv_context first)))),
                    adv_persist second,
                    length (fs_Tokens (xc_FrameSnapshot (xc_content (adv_context second)))))
          end
      end
  end.

(** The comparison of stored with repeated outputs is on their bytes, and the store keeps
    canonical JSON: an output that is not written canonically is not recognised, and the
    visit fires its transition a second time. *)
Theorem noncanonical_output_fires_again :
  ex_interrupted "{'done':false}" = Some (1, false, 1) ∧
  ex_interrupted "{'retry': true, 'done': false}" = Some (1, true, 2).
Proof. vm_compute. split; reflexivity. Qed.
