(* ===== verification/Execution.v ===== *)
(** Runs of accepted documents: the scheduler ([workflow_scheduler.go]), the frames ([frame.go]) and
    the validator ([validate.go]) composed.

    A run is a sequence of dispatches, each prepared from the execution context the previous
    advance saved.  An accepted document has no cycle of normal transitions, and a bounded
    transition fires at most its limit, so every run ends; and the inputs of its nodes resolve
    when the outputs stored so far have the declared types. *)
From S2P Require Import Prelude GoStrings GoUnicode GoJson GoFloat GoGraph Schema Issues Cycle Route GraphChecks Frame StateStore RunContext Deliverable NodeChecks Validator Scheduler.
From stdpp Require Import options.

(** * Heights in an acyclic graph *)
Section height.
Context `{!GoRange}.
Variable document : Document.
Abbreviation nodes := (nodes_of document).
Abbreviation state := (indexTransitions nodes (sortedNodeIDs nodes)).
Hypothesis Hacyclic : ∀ x, ¬ tc (normal_edge document) x x.
#[local] Set Default Proof Using "All".

(** The nodes after [x], and their number. *)
Definition after (x : Identifier) : gset Identifier :=
  pop_reachable (normal_targets state) (dom nodes) (normal_targets state x).
Definition height (x : Identifier) : nat := size (after x).

Lemma elem_of_after x y : y ∈ after x ↔ tc (normal_edge document) x y.
Proof using document.
  unfold after. rewrite elem_of_pop_reachable; last first.
  { intros z Hz%not_elem_of_dom. apply elem_of_nil_inv. intros w [(t & Ht & _) _]%elem_of_normal_targets.
    unfold transitions_of in Ht. rewrite Hz in Ht. by apply not_elem_of_nil in Ht. }
  assert (∀ a b, reaches (normal_targets state) a b ↔ rtc (normal_edge document) a b) as Hr.
  { intros a b. split; apply rtc_subrel; intros ??; apply elem_of_normal_targets. }
  unfold reachable_from. setoid_rewrite Hr. setoid_rewrite elem_of_normal_targets. split.
  - intros (z & Hxz & Hzy). eapply tc_rtc_r; [by apply tc_once|done].
  - inversion 1 as [? ? Hxy|? z ? Hxz Hzy]; subst.
    + exists y. split; [done|apply rtc_refl].
    + exists z. split; [done|by apply tc_rtc].
Qed.

Lemma height_step x y : normal_edge document x y → height y < height x.
Proof.
  intros Hxy. unfold height. apply subset_size. split.
  - intros z. rewrite !elem_of_after. intros Hyz. by eapply tc_l.
  - intros Hsub. apply (Hacyclic y), elem_of_after, Hsub, elem_of_after. by apply tc_once.
Qed.

Lemma height_bound x : is_Some (nodes !! x) → height x < size nodes.
Proof.
  intros Hx. unfold height. rewrite <-size_dom. apply subset_size. split.
  - intros y (z & _ & _ & Hy)%elem_of_after%tc_last. by apply elem_of_dom.
  - intros Hsub. apply (Hacyclic x), elem_of_after, Hsub, elem_of_dom, Hx.
Qed.
End height.

(** * Traversals across snapshots *)
Section traversals.
Context `{!GoRange, !GoInt64}.

Lemma wf_traversals_nonneg f id : frame_wf f → (0 ≤ traversals_of f id)%Z.
Proof.
  intros Hwf. unfold traversals_of. destruct (fr_traversals f !! id) as [n|] eqn:Hn; simpl; [|done].
  apply (wf_traversals f Hwf) in Hn. lia.
Qed.

(** Well-formed frames with the same bounded tokens of a transition count them the same. *)
Lemma traversals_determined f g id n :
  frame_wf f → frame_wf g → (0 ≤ n)%Z →
  (∀ m, (∃ t, token_in g t ∧ is_bounded t ∧ token_id t = id ∧ tok_Traversal t = m) ↔
        (∃ t, token_in f t ∧ is_bounded t ∧ token_id t = id ∧ tok_Traversal t = m) ∨
        m = (traversals_of f id + 1)%Z ∧ n = (traversals_of f id + 1)%Z) →
  n = traversals_of f id ∨ n = (traversals_of f id + 1)%Z →
  traversals_of g id = n.
Proof.
  intros Hf Hg Hn Hiff Hcase. setoid_rewrite <-(wf_ordinals f Hf) in Hiff. setoid_rewrite <-(wf_ordinals g Hg) in Hiff.
  pose proof (wf_traversals_nonneg f id Hf). pose proof (wf_traversals_nonneg g id Hg).
  destruct Hcase as [->| ->].
  - pose proof (Hiff (traversals_of f id)). pose proof (Hiff (traversals_of g id)). lia.
  - pose proof (Hiff (traversals_of f id + 1)%Z). pose proof (Hiff (traversals_of g id)). lia.
Qed.

Variables (f : Frame) (visit : string) (node : Identifier) (epoch : Z) (tr : Transition) (f' : Frame)
  (outcome : TransitionToken * bool) (before : FrameSnapshot).
Hypothesis Hf : frame_wf f.
Hypothesis Htokens : ∀ t, token_in f t ↔ t ∈ fs_Tokens before.
Hypothesis Hfresh : ∀ t, t ∈ fs_Tokens before → tk_SourceVisitID (tok_Key t) ≠ visit.
Hypothesis Hfire : fire_transition f visit node epoch tr = (f', Ok outcome).
Hypothesis Hepoch : (0 ≤ epoch < 2 ^ 64)%Z.
Hypothesis Hlimit : ∀ c m, tr = BoundedTransition c m → (0 ≤ m < 2 ^ 16)%Z.
#[local] Set Default Proof Using "All".

(** A fresh visit commits a new token within the budget. *)
Lemma fresh_commit :
  within_budget f tr ∧ ∀ t, t ∈ fs_Tokens (Snapshot f') ↔ t = fired_token f visit node epoch tr ∨ t ∈ fs_Tokens before.
Proof using Hf Htokens Hfresh Hfire.
  pose proof (fire_transition_outcome f visit node epoch tr) as Ho.
  rewrite Hfire in Ho. remember (f', Ok outcome) as fired eqn:Heq.
  destruct Ho as [token _ _ Hk _ _ _|_ _ Hnew Hbudget|]; [| |done].
  - exfalso. injection Heq as <- _. pose proof (wf_keys f Hf _ _ Hk) as Hkey.
    destruct (Hfresh token); [|by rewrite Hkey].
    apply Htokens. unfold token_in. by rewrite Hkey.
  - injection Heq as <- _. split; [done|]. intros t. rewrite tokens_of_Snapshot. cbn [commit_token fr_tokens].
    rewrite fired_key, <-Htokens. unfold token_in. split.
    + intros [k [[_ <-]|[Hne Hk]]%lookup_insert_Some]; [by left|]. right.
      by rewrite (wf_keys f Hf k t Hk).
    + intros [->|Ht]; [exists (fire_key visit epoch tr); by apply lookup_insert_eq|].
      exists (tok_Key t). rewrite lookup_insert_ne; [done|]. intros Hk. rewrite <-Hk in Ht. congruence.
Qed.

Lemma fired_token_typed : token_typed (fired_token f visit node epoch tr).
Proof.
  unfold token_typed. rewrite fired_key. simpl. destruct tr as [c|c m]; simpl; [lia|].
  pose proof (Hlimit c m eq_refl). unfold wrap. split_and!; try lia; apply Z.mod_pos_bound; lia.
Qed.
Lemma fresh_typed : snapshot_typed before → snapshot_typed (Snapshot f').
Proof.
  intros Hb. destruct fresh_commit as [_ Hin]. apply Forall_forall. intros t [->|Ht]%Hin.
  - apply fired_token_typed.
  - by apply (proj1 (Forall_forall _ _) Hb).
Qed.

(** The frame restored from the new snapshot counts the firing of a bounded transition. *)
Definition counts (id : Identifier) : Z := if bounded_transition tr && bool_decide (ID tr = id) then 1 else 0.
Variable g : Frame.
Hypothesis Hg : frame_wf g.
Hypothesis Hg_tokens : ∀ t, token_in g t ↔ t ∈ fs_Tokens (Snapshot f').

Lemma fresh_counts id : traversals_of g id = (traversals_of f id + counts id)%Z.
Proof.
  destruct fresh_commit as [Hbudget Hin]. unfold counts.
  assert (∀ t, token_in g t ↔ t = fired_token f visit node epoch tr ∨ token_in f t) as Hgf.
  { intros t. by rewrite Hg_tokens, Hin, Htokens. }
  pose proof (wf_traversals_nonneg f id Hf) as Hnn.
  destruct tr as [c|c m] eqn:Htr; simpl in *.
  - rewrite Z.add_0_r. apply (traversals_determined f g); [done|done|done| |by left]. intros n.
    setoid_rewrite Hgf. split; [|naive_solver lia].
    intros (t & [->|?] & Hb & ?); [done|]. left. naive_solver.
  - case_bool_decide as Hid; simpl.
    + subst id. pose proof (Hlimit c m eq_refl) as Hm.
      assert (uint16 (traversals_of f (tf_TransitionID c) + 1) = traversals_of f (tf_TransitionID c) + 1)%Z as Hw.
      { apply wrap_small. unfold ID in *. simpl in *. lia. }
      apply (traversals_determined f g); [done|done|lia| |by right]. intros n. setoid_rewrite Hgf.
      split.
      * intros (t & [->|?] & ? & ? & <-); [|left; naive_solver]. right. simpl. unfold ID in *. simpl in *. by rewrite Hw.
      * intros [(t & ? & ? & ? & ?)|[-> _]]; [naive_solver|]. eexists. split; [by left|]. done.
    + rewrite Z.add_0_r. apply (traversals_determined f g); [done|done|done| |by left]. intros n. setoid_rewrite Hgf.
      split; [|naive_solver lia]. intros (t & [->|?] & ? & Htid & ?); [done|]. left. naive_solver.
Qed.
End traversals.

(** * Runs *)
Section runs.
Context `{!GoRange, !GoInt64, !ContentLibrary, !ContentDigest}.
Variable document : Document.
Abbreviation nodes := (nodes_of document).

(** A visit that has not fired yet; every attempt has its own visit. *)
Definition fresh_visit (dispatch : AttemptRequestContext) : Prop :=
  ∀ t, t ∈ fs_Tokens (ac_FrameSnapshot dispatch) → tk_SourceVisitID (tok_Key t) ≠ current_visit dispatch.

(** An attempt at a node of the document, prepared from a stored execution context. *)
Definition dispatched (dispatch : AttemptRequestContext) : Prop :=
  ∃ attempt route node context,
    nodes !! att_NodeID attempt = Some node ∧ attemptContext attempt route node context = Ok dispatch.

(** One advance of a run: the completed attempt fires a transition, the context is saved at the
    revision it was read at, and the next attempt is prepared at the successor from what the
    table then holds. *)
Inductive run_step : context_table * AttemptRequestContext → context_table * AttemptRequestContext → Prop :=
| run_advance runs rows dispatch output validator adv rows' saved dispatch' :
    prepareWorkflowAdvance dispatch output validator = Ok adv →
    adv_persist adv = true → adv_terminal adv = false → fresh_visit dispatch →
    SaveRunExecutionContext runs rows (xc_content (adv_context adv)) (xc_Revision (ac_ExecutionContext dispatch)) =
      (rows', Ok saved) →
    dispatched dispatch' → current_node dispatch' = adv_successor adv → ac_ExecutionContext dispatch' = saved →
    run_step (rows, dispatch) (rows', dispatch').

(** The bounded transitions and their limits. *)
Definition transition_limit (t : Transition) : option (Identifier * Z) :=
  match t with NormalTransition _ => None | BoundedTransition c m => Some (tf_TransitionID c, m) end.
Definition limits : list (Identifier * Z) :=
  map_to_list nodes ≫= λ entry, omap transition_limit (nf_Transitions (Fields entry.2)).
Definition budget : nat := sum_list_with (λ limit, Z.to_nat limit.2) limits.
(** The limits are unsigned 16-bit integers in Go. *)
Definition limits_typed : Prop := Forall (λ limit, (0 ≤ limit.2 < 2 ^ 16)%Z) limits.

Definition remaining (f : Frame) : nat :=
  sum_list_with (λ limit, Z.to_nat (limit.2 - traversals_of f limit.1)) limits.

Lemma remaining_le_budget f : frame_wf f → remaining f ≤ budget.
Proof.
  intros Hf. unfold remaining, budget. induction limits as [|[id m] l IH]; [done|]. cbn [sum_list_with fst snd].
  pose proof (wf_traversals_nonneg f id Hf). lia.
Qed.

Lemma elem_of_limits x c m :
  BoundedTransition c m ∈ transitions_of document x → (tf_TransitionID c, m) ∈ limits.
Proof.
  unfold transitions_of, limits. destruct (nodes !! x) as [node|] eqn:Hx; [|by intros ?%elem_of_nil].
  intros Ht. apply list_elem_of_bind. exists (x, node). split; [|by apply elem_of_map_to_list].
  apply list_elem_of_omap. by exists (BoundedTransition c m).
Qed.

Lemma remaining_counts f g tr :
  frame_wf f → within_budget f tr → (∀ c m, tr = BoundedTransition c m → (tf_TransitionID c, m) ∈ limits) →
  (∀ id, traversals_of g id = traversals_of f id + counts tr id)%Z →
  remaining g + (if bounded_transition tr then 1 else 0) ≤ remaining f.
Proof.
  intros Hf Hbudget Hin Hcounts. unfold remaining.
  assert (∀ l, sum_list_with (λ limit, Z.to_nat (limit.2 - traversals_of g limit.1)) l ≤
    sum_list_with (λ limit, Z.to_nat (limit.2 - traversals_of f limit.1)) l) as Hle.
  { induction l as [|[id m] l IH]; simpl; [done|]. rewrite Hcounts. unfold counts. case_match; lia. }
  destruct tr as [c|c m]; simpl; [specialize (Hle limits); lia|].
  specialize (Hin c m eq_refl). apply list_elem_of_split in Hin as (l1 & l2 & ->).
  rewrite !sum_list_with_app. simpl. rewrite Hcounts. unfold counts. simpl.
  rewrite bool_decide_true by done. pose proof (Hle l1). pose proof (Hle l2).
  simpl in Hbudget. unfold ID in Hbudget. simpl in Hbudget. lia.
Qed.

Lemma attemptContext_inv attempt route node context dispatch :
  attemptContext attempt route node context = Ok dispatch →
  ac_Attempt dispatch = attempt ∧ ac_Node dispatch = node ∧ ac_ExecutionContext dispatch = context ∧
  ac_FrameSnapshot dispatch = xc_FrameSnapshot (xc_content context) ∧
  ac_RunInputs dispatch = xc_RunInputs (xc_content context) ∧
  ac_AcceptedOutputs dispatch = xc_AcceptedOutputs (xc_content context) ∧
  resolveNodeInputs (ac_RunInputs dispatch) (ac_AcceptedOutputs dispatch) node = Ok (ac_NodeInputs dispatch) ∧
  ∃ f, RestoreFrame (ac_FrameSnapshot dispatch) = Ok f.
Proof.
  unfold attemptContext. intros (f & Hf%lift_error_Ok & Hd)%result_bind_Ok.
  apply result_bind_Ok in Hd as (inputs & Hin & [= <-]). simpl. split_and!; try done. by exists f.
Qed.

Lemma Save_frame runs rows value expected rows' saved :
  SaveRunExecutionContext runs rows value expected = (rows', Ok saved) →
  xc_FrameSnapshot (xc_content saved) = xc_FrameSnapshot value.
Proof. intros (n & Hn & _ & -> & _)%Save_Ok. apply normalize_Ok in Hn as (_ & _ & _ & _ & _ & _ & ->). done. Qed.

(** An advance within a frame: the transition is one of the node's, and the next dispatch's
    frame counts it. *)
Lemma run_step_fires rows dispatch rows' dispatch' f :
  dispatched dispatch → snapshot_typed (ac_FrameSnapshot dispatch) → limits_typed →
  run_step (rows, dispatch) (rows', dispatch') → RestoreFrame (ac_FrameSnapshot dispatch) = Ok f →
  ∃ t g, t ∈ transitions_of document (current_node dispatch) ∧ Target t = current_node dispatch' ∧
    is_Some (nodes !! current_node dispatch') ∧ frame_wf f ∧ within_budget f t ∧
    snapshot_typed (ac_FrameSnapshot dispatch') ∧ RestoreFrame (ac_FrameSnapshot dispatch') = Ok g ∧
    ∀ id, (traversals_of g id = traversals_of f id + counts t id)%Z.
Proof.
  intros (attempt & route & node & context & Hnode & Hd) Htyped Hlimits Hstep Hf.
  inversion Hstep as [runs ? ? output validator adv ? saved ? Hadv Hpersist Hterm Hfresh Hsave
    (attempt' & route' & node' & context' & Hnode' & Hd') Hnext Hctx]; subst.
  apply attemptContext_inv in Hd as (<- & <- & _ & _ & _).
  apply attemptContext_inv in Hd' as (<- & _ & <- & Hframe' & _ & _ & _ & g & Hg).
  rewrite (Save_frame _ _ _ _ _ _ Hsave) in Hframe'.
  apply persisted_advance in Hadv; [|done]. unfold new_advance in Hadv.
  destruct (at_terminal dispatch); [by injection Hadv as <-|].
  apply result_bind_Ok in Hadv as (t & Hchoose & Hfire).
  apply chooseTransition_Ok in Hchoose as (k & Hk & _).
  unfold fire_successor in Hfire. rewrite Hf in Hfire. simpl in Hfire.
  destruct (fire_transition f _ _ _ t) as [f' outcome] eqn:Hft.
  apply result_bind_Ok in Hfire as (out & ->%lift_error_Ok & [= <-]). simpl in Hframe', Hnext.
  destruct (RestoreFrame_wf _ f Htyped Hf) as [Hwf Htokens].
  assert (t ∈ transitions_of document (current_node dispatch)) as Ht.
  { unfold transitions_of, current_node. rewrite Hnode. by eapply list_elem_of_lookup_2. }
  assert (∀ c m, t = BoundedTransition c m → (0 ≤ m < 2 ^ 16)%Z) as Hlimit.
  { intros c m ->. apply elem_of_limits in Ht. by apply (proj1 (Forall_forall _ _) Hlimits) in Ht. }
  assert (0 ≤ uint64 (xc_Revision (ac_ExecutionContext dispatch) + 1) < 2 ^ 64)%Z as Hepoch.
  { apply Z.mod_pos_bound. done. }
  destruct (fresh_commit f _ _ _ t f' out _ Hwf Htokens Hfresh Hft) as [Hbudget _].
  assert (snapshot_typed (ac_FrameSnapshot dispatch')) as Htyped'.
  { rewrite Hframe'. exact (fresh_typed f _ _ _ t f' out _ Hwf Htokens Hfresh Hft Hepoch Hlimit Htyped). }
  destruct (RestoreFrame_wf _ g Htyped' Hg) as [Hwf' Htokens']. rewrite Hframe' in Htokens'.
  exists t, g. split_and!; try done.
  exact (fresh_counts f _ _ _ t f' out _ Hwf Htokens Hfresh Hft Hepoch Hlimit g Hwf' Htokens').
Qed.

(** What is left of a run: the budget of its bounded transitions, then the height. *)
Definition potential (dispatch : AttemptRequestContext) (n : nat) : Prop :=
  ∃ f, RestoreFrame (ac_FrameSnapshot dispatch) = Ok f ∧
    n = remaining f * size nodes + height document (current_node dispatch).

Lemma run_step_decreases rows dispatch rows' dispatch' n :
  (∀ x, ¬ tc (normal_edge document) x x) → limits_typed →
  dispatched dispatch → snapshot_typed (ac_FrameSnapshot dispatch) → potential dispatch n →
  run_step (rows, dispatch) (rows', dispatch') →
  snapshot_typed (ac_FrameSnapshot dispatch') ∧ ∃ n', potential dispatch' n' ∧ n' < n.
Proof.
  intros Hacyclic Hlimits Hd Htyped (f & Hf & ->) Hstep.
  destruct (run_step_fires _ _ _ _ _ Hd Htyped Hlimits Hstep Hf)
    as (t & g & Ht & Htarget & Hsome & Hwf & Hbudget & Htyped' & Hg & Hcounts).
  split; [done|]. eexists. split; [by exists g|].
  assert (∀ c m, t = BoundedTransition c m → (tf_TransitionID c, m) ∈ limits) as Hin.
  { intros c m ->. by eapply elem_of_limits. }
  pose proof (remaining_counts f g t Hwf Hbudget Hin Hcounts) as Hrem.
  destruct (bounded_transition t) eqn:Hb.
  - pose proof (height_bound document Hacyclic _ Hsome). nia.
  - assert (height document (current_node dispatch') < height document (current_node dispatch)); [|nia].
    apply height_step; [done|]. split; [by exists t|done].
Qed.

Lemma run_step_dispatched s s' : run_step s s' → dispatched s'.2.
Proof. by inversion 1. Qed.

Lemma run_steps_bounded k s s' n :
  (∀ x, ¬ tc (normal_edge document) x x) → limits_typed →
  dispatched s.2 → snapshot_typed (ac_FrameSnapshot s.2) → potential s.2 n →
  nsteps run_step k s s' → k ≤ n.
Proof.
  intros Hacyclic Hlimits Hd Htyped Hpot Hsteps. revert n Hd Htyped Hpot.
  induction Hsteps as [s|k [rows d] [rows' d'] s' Hstep _ IH]; intros n Hd Htyped Hpot; simpl in *; [lia|].
  destruct (run_step_decreases _ _ _ _ _ Hacyclic Hlimits Hd Htyped Hpot Hstep) as (Htyped' & n' & Hpot' & Hlt).
  specialize (IH n' (run_step_dispatched _ _ Hstep) Htyped' Hpot'). lia.
Qed.

Lemma dispatched_potential dispatch :
  (∀ x, ¬ tc (normal_edge document) x x) → snapshot_typed (ac_FrameSnapshot dispatch) → dispatched dispatch →
  ∃ n, potential dispatch n ∧ n < (budget + 1) * size nodes.
Proof.
  intros Hacyclic Htyped (attempt & route & node & context & Hnode & Hd).
  apply attemptContext_inv in Hd as (<- & _ & _ & _ & _ & _ & _ & f & Hf). eexists. split; [by exists f|].
  pose proof (height_bound document Hacyclic (current_node dispatch)) as Hh.
  pose proof (remaining_le_budget f (proj1 (RestoreFrame_wf _ f Htyped Hf))).
  specialize (Hh ltac:(eexists; exact Hnode)). nia.
Qed.
End runs.

Lemma accepted_runs_end (R : GoRange) (I : GoInt64) (L : ContentLibrary) (D : ContentDigest) (U : UnicodeLower)
    capabilities document rows dispatch n last :
  Validate capabilities document = Some [] → limits_typed document → dispatched document dispatch →
  snapshot_typed (ac_FrameSnapshot dispatch) → nsteps (run_step document) n (rows, dispatch) last →
  n < (budget document + 1) * size (nodes_of document).
Proof.
  intros Hvalid Hlimits Hdispatch Htyped Hrun.
  assert (∀ x, ¬ tc (normal_edge document) x x) as Hacyclic.
  { intros x. exact (Validate_acyclic capabilities document x Hvalid). }
  destruct (dispatched_potential document dispatch Hacyclic Htyped Hdispatch) as (m & Hm & Hbound).
  pose proof (run_steps_bounded document n (rows, dispatch) last m Hacyclic Hlimits Hdispatch Htyped Hm Hrun). lia.
Qed.

(** (C3) Every run of an accepted document ends.  From any dispatch, however its outputs turn
    out, fewer advances can follow than the number of nodes times one more than the sum of the
    limits of the bounded transitions: firing a normal transition descends in an acyclic graph,
    and each bounded one fires at most its limit, across saving and restoring the frame. *)
Theorem run_bounded (R : GoRange) (I : GoInt64) (L : ContentLibrary) (D : ContentDigest) (U : UnicodeLower)
    capabilities document rows dispatch n last
    (Hvalid : Validate capabilities document = Some [])
    (Hlimits : limits_typed document)
    (Hdispatch : dispatched document dispatch)
    (Htyped : snapshot_typed (ac_FrameSnapshot dispatch))
    (Hrun : nsteps (run_step document) n (rows, dispatch) last) :
  n < (budget document + 1) * size (nodes_of document).
Proof. by eapply accepted_runs_end. Qed.

(** ** An example: the first advance of the accepted workflow *)
Definition ex_run_route : Route :=
  match @CreateRoute range_canonical ex_valid {| rq_From := ""; rq_Until := [] |}
    {| rc_RunInputs := ∅; rc_AcceptedOutputs := ∅; rc_RequiredNodes := [] |} with
  | Ok route => route | Err _ => ex_route
  end.
Definition ex_run_frame : FrameSnapshot :=
  match @NewRootFrame range_canonical "frame" "run_1" ex_definition ex_run_route {[ "goal" := quoted "'ship'" ]} with
  | Ok frame => @Snapshot range_canonical frame | Err _ => @Snapshot range_canonical ex_frame
  end.
Definition ex_attempt_at (node : Identifier) (visit : string) : AttemptProjection := {|
  att_AttemptID := "attempt_" +:+ node; att_RunID := "run_1"; att_VisitID := visit; att_NodeID := node;
  att_PointID := ""; att_PointRevision := 0; att_Priority := 0; att_Scenario := "workflow";
  att_Provider := "codex"; att_Status := AttemptRunning; att_ProviderThreadID := "t";
  att_ProviderTurnID := "u"; att_ProcessOwnerID := "p"; att_LastSequence := 0; att_LogReference := "";
  att_ResourceVersion := 3; att_LastGlobalPosition := 9; att_CreatedAt := 0; att_UpdatedAt := 0;
|}.
Definition ex_run_stored : RunExecutionContext := {|
  xc_content := content_with ex_content ∅ ex_run_frame {[ "goal" := quoted "'ship'" ]};
  xc_Revision := 1; xc_Digest := "digest of run_1";
|}.
Definition ex_start : sresult AttemptRequestContext :=
  match nodes_of ex_valid !! "plan" with
  | Some node => @attemptContext range_canonical (ex_attempt_at "plan" "visit_1") ex_run_route node ex_run_stored
  | None => schedule_failure "" []
  end.
Definition ex_save_advance (adv : workflowAdvance) : context_table * cresult RunExecutionContext :=
  @SaveRunExecutionContext range_canonical ex_library ex_context_digest {["run_1"]}
    {[ "run_1" := ex_run_stored ]} (xc_content (adv_context adv)) 1.
(** The dispatch after the first advance, at the build. *)
Definition ex_next : option (workflowAdvance * context_table * RunExecutionContext * AttemptRequestContext) :=
  match ex_start with
  | Ok dispatch =>
      match @prepareWorkflowAdvance range_canonical int64_amd64 dispatch {[ "text" := quoted "'a plan'" ]} None with
      | Ok adv =>
          match ex_save_advance adv with
          | (rows, Ok saved) =>
              match @attemptContext range_canonical (ex_attempt_at "build" "visit_2") ex_run_route ex_valid_build saved with
              | Ok next => Some (adv, rows, saved, next)
              | Err _ => None
              end
          | _ => None
          end
      | Err _ => None
      end
  | Err _ => None
  end.
Example ex_next_build :
  (λ '(adv, _, _, next), (adv_successor adv, current_node next, ac_NodeInputs next !! "plan")) <$> ex_next =
  Some ("build", "build", Some (quoted "'a plan'")).
Proof. vm_compute. reflexivity. Qed.

(** The conditions of a dispatch that is about to advance, as a computation. *)
Lemma ex_run_step : ∃ dispatch last,
  ex_start = Ok dispatch ∧
  @run_step range_canonical int64_amd64 ex_library ex_context_digest ex_valid
    ({[ "run_1" := ex_run_stored ]}, dispatch) last ∧ current_node last.2 = "build".
Proof.
  destruct ex_start as [dispatch|] eqn:Hstart; [|by vm_compute in Hstart].
  destruct ex_next as [[[[adv rows] saved] next]|] eqn:Hnext; [|by vm_compute in Hnext].
  exists dispatch, (rows, next). split; [done|]. unfold ex_next in Hnext. rewrite Hstart in Hnext.
  destruct (prepareWorkflowAdvance dispatch _ _) as [adv'|] eqn:Hadv; [|done].
  destruct (ex_save_advance adv') as [rows' [saved'|]] eqn:Hsave; [|done].
  destruct (attemptContext _ _ _ saved') as [next'|] eqn:Hd; [|done]. injection Hnext as -> -> -> ->.
  pose proof (attemptContext_inv _ _ _ _ _ Hd) as (Hatt & _ & Hctx & _).
  assert (current_node next = "build") as Hcur by by (unfold current_node; rewrite Hatt).
  split; [|exact Hcur].
  vm_compute in Hstart. injection Hstart as <-.
  assert (adv_persist adv = true ∧ adv_terminal adv = false ∧ adv_successor adv = "build") as (Hp & Ht & Hs).
  { clear -Hadv. vm_compute in Hadv. injection Hadv as <-. split_and!; reflexivity. }
  refine (run_advance ex_valid _ _ _ _ _ adv rows saved next Hadv Hp Ht _ Hsave _ _ Hctx).
  - intros t Hin. vm_compute in Hin. inversion Hin.
  - eexists _, _, _, _. split; [|exact Hd]. vm_compute. reflexivity.
  - by rewrite Hcur, Hs.
Qed.

Lemma run_bounded_witness : ∃ rows dispatch last,
  nsteps (@run_step range_canonical int64_amd64 ex_library ex_context_digest ex_valid) 1 (rows, dispatch) last ∧
  1 < (budget ex_valid + 1) * size (nodes_of ex_valid) ∧ (budget ex_valid + 1) * size (nodes_of ex_valid) = 9.
Proof.
  destruct ex_run_step as (dispatch & last & Hstart & Hstep & _).
  exists {[ "run_1" := ex_run_stored ]}, dispatch, last.
  assert (nsteps (@run_step range_canonical int64_amd64 ex_library ex_context_digest ex_valid) 1
    ({[ "run_1" := ex_run_stored ]}, dispatch) last) as Hrun by by apply nsteps_once.
  split_and!; [exact Hrun| |vm_compute; reflexivity].
  refine (run_bounded range_canonical int64_amd64 ex_library ex_context_digest ex_lower None ex_valid
    _ dispatch 1 last ex_valid_accepted _ _ _ Hrun).
  - unfold limits_typed. replace (limits ex_valid) with [("t_again", 2%Z)] by (vm_compute; reflexivity).
    repeat constructor; done.
  - unfold ex_start in Hstart. destruct (nodes_of ex_valid !! "plan") as [node|] eqn:Hnode; [|done].
    exists (ex_attempt_at "plan" "visit_1"), ex_run_route, node, ex_run_stored. split; [exact Hnode|exact Hstart].
  - vm_compute in Hstart. injection Hstart as <-. apply Forall_nil. exact I.
Defined.

(** * Typed data flow *)

(** The values stored under the names of declarations have the declared types. *)
Definition values_typed (types : Identifier → option ValueType) (values : gmap Identifier RawMessage) : Prop :=
  ∀ id raw, values !! id = Some raw → ∃ type, types id = Some type ∧ preparationInputType raw type = true.
Definition output_type (document : Document) (node id : Identifier) : option ValueType :=
  nodes_of document !! node ≫= λ n, od_Type <$> nf_Outputs (Fields n) !! id.
Definition outputs_typed (document : Document) (outputs : gmap Identifier (gmap Identifier RawMessage)) : Prop :=
  ∀ node values, outputs !! node = Some values → values_typed (output_type document node) values.
Definition input_type (document : Document) (id : Identifier) : option ValueType :=
  vd_Type <$> spec_Inputs (doc_Spec document) !! id.

Lemma compatible_value raw source target :
  typesCompatible source target = true → preparationInputType raw source = true →
  preparationInputType raw target = true.
Proof.
  unfold typesCompatible. intros [->%bool_decide_eq_true|[-> ->]%bool_decide_eq_true]%orb_prop; [done|].
  unfold preparationInputType. destruct (Unmarshal_any raw) as [v|]; [|done].
  cbv [json_value_type]. cbn. by destruct v.
Qed.

Section dataflow.
Context `{!GoRange}.
Variables (document : Document) (runInputs : gmap Identifier RawMessage)
  (accepted : gmap Identifier (gmap Identifier RawMessage)).
Hypothesis Hrun : values_typed (input_type document) runInputs.
Hypothesis Haccepted : outputs_typed document accepted.

(** A value that a source names has the type that the validator finds for the source. *)
Lemma source_typed source raw :
  source_names runInputs accepted source (Some raw) →
  ∃ type, bindingSourceType document source = Some type ∧ preparationInputType raw type = true.
Proof using Hrun Haccepted.
  intros Hs. unfold bindingSourceType. remember (Some raw) as value eqn:Hvalue.
  destruct Hs as [source name Hs|source node output Hs]; rewrite Hs; rewrite decide_True by done.
  - by apply Hrun.
  - destruct (accepted !! node) as [values|] eqn:Hnode; [|done]. by eapply Haccepted.
Qed.

Lemma resolve_whole id binding :
  (∀ type, bindingSourceType document (Source binding) = Some type →
     typesCompatible type (BindingValueType binding) = true) →
  is_Some (bindingSourceType document (Source binding)) → bindingPointer binding = "" →
  (∀ from pointer type description, binding = RequiredBinding from pointer type description →
     ∃ raw, source_names runInputs accepted from (Some raw)) →
  ∃ value, resolve_input runInputs accepted id binding = Ok value.
Proof using Hrun Haccepted.
  intros Hcompat [known Hknown] Hwhole Hpresent. setoid_rewrite resolve_input_Ok.
  assert (∃ value, source_names runInputs accepted (Source binding) value) as [value Hvalue].
  { unfold bindingSourceType in Hknown.
    destruct (Split (Source binding) _) as [|p0 [|p1 [|p2 [|p3 [|]]]]] eqn:Hs; try done;
      case_decide as Hp; try done; destruct Hp as [-> ->]; eexists; by constructor. }
  destruct value as [raw|].
  - destruct (source_typed _ _ Hvalue) as (type & Htype & Hraw).
    exists (Some raw). left. exists raw. split_and!; [by apply binds_whole| |done].
    by eapply compatible_value; [apply Hcompat|].
  - destruct binding as [from pointer type description|from pointer type default_ description].
    + destruct (Hpresent _ _ _ _ eq_refl) as [raw Hraw]. by pose proof (source_names_inj _ _ _ _ _ Hraw Hvalue).
    + eexists. right. exists from, pointer, type, default_, description. split_and!; [done|by apply binds_absent|done].
Qed.

Lemma resolve_bindings node :
  (∀ id binding, nf_Inputs (Fields node) !! id = Some binding →
     (∃ type, bindingSourceType document (Source binding) = Some type ∧
        typesCompatible type (BindingValueType binding) = true) ∧
     bindingPointer binding = "" ∧
     ∀ from pointer type description, binding = RequiredBinding from pointer type description →
       ∃ raw, source_names runInputs accepted from (Some raw)) →
  ∃ inputs, resolveNodeInputs runInputs accepted node = Ok inputs.
Proof using Hrun Haccepted.
  intros Hall.
  exists (map_imap (λ id binding, match resolve_input runInputs accepted id binding with
                                  | Ok value => value | Err _ => None end) (nf_Inputs (Fields node))).
  apply resolveNodeInputs_Ok. intros id. rewrite map_lookup_imap.
  destruct (nf_Inputs (Fields node) !! id) as [binding|] eqn:Hb; [|done]. simpl.
  destruct (Hall id binding Hb) as ((type & Htype & Hcompat) & Hwhole & Hpresent).
  destruct (resolve_whole id binding) as [value Hvalue]; [|by eexists|done|done|by rewrite Hvalue].
  intros type'. rewrite Htype. by intros [= <-].
Qed.
End dataflow.

Lemma source_errors_nil document nodeID inputID binding :
  source_errors document nodeID inputID binding = [] → bindingPointer binding = "" →
  ∃ type, bindingSourceType document (Source binding) = Some type ∧
    typesCompatible type (BindingValueType binding) = true.
Proof.
  unfold source_errors. intros Hs Hwhole. destruct (bindingSourceType document (Source binding)) as [type|]; [|done].
  exists type. split; [done|]. rewrite bool_decide_true in Hs by done. by destruct (typesCompatible type _).
Qed.

(** (C6) Data flow in an accepted document is typed.  Stored outputs have their declared types,
    and storing what [decodeNodeOutputs] accepts keeps it so; then the inputs of every node whose
    bindings take whole values resolve as soon as its required sources are present, and each
    value taken from a source has the declared type of the input. *)
Theorem typed_dataflow (R : GoRange) (I : GoInt64) (U : UnicodeLower) capabilities document nodeID node
    runInputs accepted
    (Hvalid : Validate capabilities document = Some [])
    (Hnode : nodes_of document !! nodeID = Some node)
    (Hrun : values_typed (input_type document) runInputs)
    (Haccepted : outputs_typed document accepted) :
  (∀ raw outputs, decodeNodeOutputs node raw = Ok outputs →
     outputs_typed document (<[nodeID := outputs]> accepted)) ∧
  ((∀ id binding, nf_Inputs (Fields node) !! id = Some binding →
      bindingPointer binding = "" ∧
      ∀ from pointer type description, binding = RequiredBinding from pointer type description →
        ∃ raw, source_names runInputs accepted from (Some raw)) →
   ∃ inputs, resolveNodeInputs runInputs accepted node = Ok inputs ∧
     ∀ id binding raw, nf_Inputs (Fields node) !! id = Some binding →
       source_names runInputs accepted (Source binding) (Some raw) →
       inputs !! id = Some raw ∧ preparationInputType raw (BindingValueType binding) = true).
Proof.
  split.
  - intros raw outputs Hdecode other values [[<- <-]|[_ Hother]]%lookup_insert_Some; [|by apply Haccepted].
    intros id value Hvalue. apply decodeNodeOutputs_Ok in Hdecode as (object & _ & _ & Hall).
    specialize (Hall id). unfold output_type. rewrite Hnode. simpl.
    destruct (nf_Outputs (Fields node) !! id) as [declaration|]; [|congruence].
    exists (od_Type declaration). split; [done|]. rewrite Hvalue in Hall. unfold decode_output in Hall.
    destruct (object !! id) as [found|]; [|by destruct (output_required declaration)].
    destruct (preparationInputType found _) eqn:Ht; [|done]. by injection Hall as <-.
  - intros Hbindings.
    destruct (resolve_bindings document runInputs accepted Hrun Haccepted node) as [inputs Hinputs].
    { intros id binding Hb. destruct (Validate_binding _ _ _ _ _ _ Hvalid Hnode Hb) as [Hs _].
      destruct (Hbindings id binding Hb) as [Hwhole ?]. split_and!; [by eapply source_errors_nil|done|done]. }
    exists inputs. split; [done|]. intros id binding raw Hb Hraw.
    rewrite resolveNodeInputs_Ok in Hinputs. specialize (Hinputs id). rewrite Hb in Hinputs.
    apply resolve_input_Ok in Hinputs as [(raw' & Hsel & Ht & Heq)|(? & ? & ? & ? & ? & -> & Hsel & _)].
    + destruct (Hbindings id binding Hb) as [Hwhole _]. inversion Hsel; subst; [|congruence].
      by pose proof (source_names_inj _ _ _ _ _ Hraw ltac:(eassumption)) as [= ->].
    + destruct (Hbindings id _ Hb) as [Hwhole _]. inversion Hsel; subst; [|congruence].
      by pose proof (source_names_inj _ _ _ _ _ Hraw ltac:(eassumption)).
Qed.

Lemma typed_dataflow_witness :
  ∃ inputs, @resolveNodeInputs {[ "goal" := quoted "'ship'" ]}
              {[ "plan" := {[ "text" := quoted "'a plan'" ]} ]} range_canonical ex_valid_build = Ok inputs ∧
    inputs !! "plan" = Some (quoted "'a plan'").
Proof.
  destruct (typed_dataflow range_canonical int64_amd64 ex_lower None ex_valid "build" ex_valid_build
    {[ "goal" := quoted "'ship'" ]} {[ "plan" := {[ "text" := quoted "'a plan'" ]} ]} ex_valid_accepted)
    as [_ Hresolve].
  - vm_compute. reflexivity.
  - intros id raw Hraw. apply lookup_singleton_Some in Hraw as [<- <-]. exists "string". vm_compute. split; reflexivity.
  - intros node values Hvalues id raw Hraw. apply lookup_singleton_Some in Hvalues as [<- <-].
    apply lookup_singleton_Some in Hraw as [<- <-]. exists "string". vm_compute. split; reflexivity.
  - destruct Hresolve as (inputs & Hinputs & Hall).
    + intros id binding Hb.
      change (({[ "plan" := RequiredBinding "node.plan.output.text" "" "string" "" ]} : gmap Identifier Binding) !! id = Some binding) in Hb.
      apply lookup_singleton_Some in Hb as [<- <-]. split; [reflexivity|].
      intros ? ? ? ? [= <- _ _ _]. exists (quoted "'a plan'").
      refine (names_node _ _ _ "plan" "text" _). vm_compute. reflexivity.
    + exists inputs. split; [exact Hinputs|].
      refine (proj1 (Hall "plan" (RequiredBinding "node.plan.output.text" "" "string" "") _ _ _)).
      * vm_compute. reflexivity.
      * refine (names_node _ _ _ "plan" "text" _). vm_compute. reflexivity.
Defined.
