(* ===== verification/RoutePatch.v ===== *)
(** Route patches: [runtime/src/core/workflow/patch.go].  A patch switches authored transitions
    on and off and moves the terminal boundary of the route of a run; it is proposed against a
    revision of the route, authorized by a policy or by an approval, and applied to the revision
    it was proposed against.

    The digests of a proposal are SHA-256, a parameter, of the texts [json.Marshal] gives, which
    are written out field by field. *)
From S2P Require Import Prelude GoStrings GoJson OpaqueID GoEncode GoDecode GoClosed Schema Issues Route Frame StateStore Deliverable WireDecode DocumentDecode.
From stdpp Require Import options.

Definition KindRoutePatch : string := "RoutePatch".
Definition RoutePatchConflict : string := "ROUTE_PATCH_CONFLICT".
Definition RoutePatchInvalid : string := "ROUTE_PATCH_INVALID".
Definition RoutePatchOperationInvalid : string := "ROUTE_PATCH_OPERATION_INVALID".
Definition RoutePatchAuthorizationRequired : string := "ROUTE_PATCH_AUTHORIZATION_REQUIRED".
Definition RoutePatchAuthorizationInvalid : string := "ROUTE_PATCH_AUTHORIZATION_INVALID".
Definition RoutePatchAttemptRunning : string := "ROUTE_PATCH_ATTEMPT_RUNNING".
Definition RoutePatchTransitionConsumed : string := "ROUTE_PATCH_TRANSITION_CONSUMED".
Definition RoutePatchHistoryConflict : string := "ROUTE_PATCH_HISTORY_CONFLICT".
Definition RoutePatchValidationStale : string := "ROUTE_PATCH_VALIDATION_STALE".

(** * Data *)
(** The closed union of operations; [NilOperation] is the nil interface. *)
Inductive RoutePatchOperation :=
| EnableTransitionOperation (TransitionID : Identifier)
| DisableTransitionOperation (TransitionID : Identifier)
| SetTerminalsOperation (Nodes : list Identifier)
| NilOperation.
Record RoutePatchSpec := {
  ps_RunID : string; ps_ExpectedRouteRevision : Z; ps_Reason : string; ps_ApprovalID : string;
  ps_Operations : list RoutePatchOperation;
}.
Record RoutePatch := {
  rp_APIVersion : string; rp_Kind : string; rp_ID : string; rp_Spec : RoutePatchSpec;
}.
Record TransitionOverride := { to_TransitionID : Identifier; to_Enabled : bool }.
Record RouteStateSnapshot := {
  rss_RunID : string; rss_Revision : Z; rss_Route : Route; rss_Overrides : list TransitionOverride;
}.
Record RouteState := {
  rst_runID : string; rst_revision : Z; rst_route : Route; rst_overrides : gmap Identifier bool;
}.
Abbreviation RoutePatchAuthorizationMode := string (only parsing).
Definition RoutePatchAutomatic : RoutePatchAuthorizationMode := "automatic".
Definition RoutePatchRequireApproval : RoutePatchAuthorizationMode := "require_approval".
Record RoutePatchPolicy := { rpp_Mode : RoutePatchAuthorizationMode; rpp_PolicyDigest : string }.
Record RoutePatchImpact := {
  im_AddedNodes : list Identifier; im_RemovedNodes : list Identifier;
  im_AddedTransitions : list Identifier; im_RemovedTransitions : list Identifier;
  im_PreviousTerminals : list Identifier; im_ProposedTerminals : list Identifier;
}.
Record RoutePatchProposal := {
  pp_patch : RoutePatch; pp_candidate : RouteState; pp_impact : RoutePatchImpact;
  pp_affectedNodes : list Identifier; pp_mode : RoutePatchAuthorizationMode; pp_policyDigest : string;
  pp_scopeDigest : string; pp_validationDigest : string; pp_baseTopologyDigest : string;
}.
(** [NilAuthorization] is the nil interface. *)
Inductive RoutePatchAuthorization :=
| AutomaticRoutePatchAuthorization (actor : Actor) (ScopeDigest PolicyDigest : string)
| ApprovedRoutePatchAuthorization (Approval : ApprovalProjection) (actor : Actor)
| NilAuthorization.
Record AuthorizedRoutePatch := {
  arp_proposal : RoutePatchProposal; arp_actor : Actor; arp_approvalID : string;
}.
Record RoutePatchExecutionState := {
  xs_RunningAttempts : list Identifier; xs_ActivatedNodes : list Identifier;
  xs_SucceededNodes : list Identifier; xs_ReachedTerminals : list Identifier;
  xs_EmittedTransitions : list Identifier;
}.
Record AppliedRoutePatch := {
  ap_PatchID : string; ap_RunID : string; ap_OldRevision : Z; ap_NewRevision : Z; ap_Reason : string;
  ap_Operations : list RoutePatchOperation; ap_Impact : RoutePatchImpact; ap_Actor : Actor;
  ap_ApprovalID : string; ap_ScopeDigest : string; ap_ValidationDigest : string;
}.

(** * Errors *)
Record RoutePatchError := {
  rpe_Code : string; rpe_Message : msg; rpe_Location : string;
  rpe_NodeIDs : list Identifier; rpe_TransitionIDs : list Identifier;
}.
Inductive patch_failure :=
| PatchRefused (error : RoutePatchError)
| PatchRouteInvalid (errors : ValidationErrors)  (* RoutePatchRouteValidationError *)
| PatchUndecodable (error : decode_error).
Abbreviation presult := (result patch_failure).
Definition patch_error (code : string) (message : msg) (location : string)
    (nodes transitions : list Identifier) : patch_failure :=
  PatchRefused {| rpe_Code := code; rpe_Message := message; rpe_Location := location;
                  rpe_NodeIDs := nodes; rpe_TransitionIDs := transitions |}.
Definition patchError {A} (code message location : string) : presult A :=
  Err (patch_error code (text message) location [] []).
Definition patchErrorWithNodes {A} (code message location : string) (nodes : list Identifier) : presult A :=
  Err (patch_error code (text message) location nodes []).
Definition patchErrorWithTransitions {A} (code message location : string) (transitions : list Identifier)
  : presult A :=
  Err (patch_error code (text message) location [] transitions).

(** * The document *)
Definition padded (value : string) : bool := bool_decide (TrimSpace value ≠ value).
Definition operation_location (index : nat) : string := "/spec/operations/" +:+ itoa index.
Definition invalid_patch (message : msg) (location : string) : patch_failure :=
  patch_error RoutePatchInvalid message location [] [].
Definition refusing {A} (location : string) (r : result msg A) : presult A :=
  match r with Ok a => Ok a | Err m => Err (invalid_patch m location) end.
Definition validate_operation (_ : unit) (index : nat) (operation : RoutePatchOperation) : presult unit :=
  let location := operation_location index in
  match operation with
  | EnableTransitionOperation id | DisableTransitionOperation id =>
      refusing (location +:+ "/transitionId") (validateIdentifier id)
  | SetTerminalsOperation nodes =>
      if decide (length nodes = 0)
      then Err (invalid_patch (text "setTerminals requires at least one node") (location +:+ "/nodes"))
      else refusing (location +:+ "/nodes") (validateIdentifierList nodes true)
  | NilOperation => Err (invalid_patch (Msg "unsupported route patch operation %T" [AStr "<nil>"]) location)
  end.
Definition validateRoutePatchDocument (patch : RoutePatch) : presult unit :=
  let spec := rp_Spec patch in
  if decide (rp_APIVersion patch ≠ APIVersionV1Alpha1 ∨ rp_Kind patch ≠ KindRoutePatch)
  then patchError RoutePatchInvalid "route patch has an unsupported apiVersion or kind" "/"
  else if blank (rp_ID patch) || padded (rp_ID patch)
  then patchError RoutePatchInvalid "route patch metadata requires an ID without surrounding whitespace" "/metadata/id"
  else if blank (ps_RunID spec) || padded (ps_RunID spec)
  then patchError RoutePatchInvalid "route patch requires a run ID without surrounding whitespace" "/spec/runId"
  else if blank (ps_Reason spec) || padded (ps_Reason spec)
  then patchError RoutePatchInvalid "route patch requires a reason without surrounding whitespace" "/spec/reason"
  else if bool_decide (ps_ApprovalID spec ≠ "") && (blank (ps_ApprovalID spec) || padded (ps_ApprovalID spec))
  then patchError RoutePatchInvalid "approval ID cannot contain surrounding whitespace" "/spec/approvalId"
  else if decide (length (ps_Operations spec) = 0)
  then patchError RoutePatchInvalid "route patch requires at least one operation" "/spec/operations"
  else foldM_i validate_operation tt (ps_Operations spec).

(** [UnmarshalJSON]. *)
Definition patch_wire : GoType := GoStruct [
  ("apiVersion", GoString); ("kind", GoString); ("metadata", GoStruct [("id", GoString)]);
  ("spec", GoStruct [("runId", GoString); ("expectedRouteRevision", GoUint 64); ("reason", GoString);
                     ("approvalId", GoString); ("operations", GoSlice GoRaw)])].
Definition operation_tag : GoType := GoStruct [("op", GoString)].
Definition transition_operation_wire : GoType := GoStruct [("op", GoString); ("transitionId", GoString)].
Definition terminals_operation_wire : GoType := GoStruct [("op", GoString); ("nodes", GoSlice GoString)].
Definition decode_operation (index : nat) (raw : RawMessage) : dresult RoutePatchOperation :=
  let at_index {A} (r : dresult A) := within "operations[%d]" [AInt (Z.of_nat index)] r in
  let? tag := at_index (of_json (UnmarshalInto operation_tag raw)) in
  let op := field_string tag "op" in
  if decide (op = "enableTransition") then
    let? value := at_index (strictDecode transition_operation_wire raw) in
    Ok (EnableTransitionOperation (field_string value "transitionId"))
  else if decide (op = "disableTransition") then
    let? value := at_index (strictDecode transition_operation_wire raw) in
    Ok (DisableTransitionOperation (field_string value "transitionId"))
  else if decide (op = "setTerminals") then
    let? value := at_index (strictDecode terminals_operation_wire raw) in
    Ok (SetTerminalsOperation (field_strings value "nodes"))
  else refuse_decode "operations[%d]: unsupported route patch operation %q" [AInt (Z.of_nat index); AStr op].
Definition undecodable {A} (r : dresult A) : presult A :=
  match r with Ok a => Ok a | Err e => Err (PatchUndecodable e) end.
Definition UnmarshalRoutePatch (data : RawMessage) : presult RoutePatch :=
  let? wire := undecodable (strictDecode patch_wire data) in
  let metadata := default (StructValue []) (field_value "metadata" wire) in
  let spec := default (StructValue []) (field_value "spec" wire) in
  let? operations := undecodable (foldM_i (λ operations index raw,
      let? operation := decode_operation index raw in Ok (operations ++ [operation]))
    [] (go_raws (field_value "operations" spec))) in
  let patch := {|
    rp_APIVersion := field_string wire "apiVersion"; rp_Kind := field_string wire "kind";
    rp_ID := field_string metadata "id";
    rp_Spec := {| ps_RunID := field_string spec "runId";
                  ps_ExpectedRouteRevision := go_uint (field_value "expectedRouteRevision" spec);
                  ps_Reason := field_string spec "reason"; ps_ApprovalID := field_string spec "approvalId";
                  ps_Operations := operations |} |} in
  let? _ := validateRoutePatchDocument patch in
  Ok patch.

(** * Sets of identifiers *)
Section patches.
Context `{!GoRange, !Sha256}.

Definition sortedIdentifierSet (values : gset Identifier) : list Identifier :=
  sort_strings (range_set "sortedIdentifierSet" values).
Definition setDifference (left right : gset Identifier) : list Identifier :=
  sort_strings (filter (λ id, id ∉ right) (range_set "setDifference" left)).
Definition intersection_of (values : list Identifier) (set : gset Identifier) : list Identifier :=
  sortedIdentifierSet (list_to_set (filter (λ value, value ∈ set) values)).
Definition missingFromSet (values : list Identifier) (set : gset Identifier) : list Identifier :=
  sortedIdentifierSet (list_to_set (filter (λ value, value ∉ set) values)).
Definition routeNodeSet (route : Route) : gset Identifier := list_to_set (rn_ID <$> route_Nodes route).
Definition routeTransitionSet (route : Route) : gset Identifier :=
  list_to_set (rt_ID <$> route_Transitions route).
Definition sortedTransitionOverrides (overrides : gmap Identifier bool) : list TransitionOverride :=
  (λ id, {| to_TransitionID := id; to_Enabled := default false (overrides !! id) |}) <$>
    sortedIDs "sortedTransitionOverrides" overrides.

(** * Route states *)
Definition restore_override (overrides : gmap Identifier bool) (override : TransitionOverride)
  : fresult (gmap Identifier bool) :=
  let id := to_TransitionID override in
  let? _ := match validateIdentifier id with Ok _ => Ok tt | Err m => Err (Plain m) end in
  if decide (is_Some (overrides !! id))
  then Err (Plain (Msg "route state repeats transition override %q" [AStr id]))
  else Ok (<[id := to_Enabled override]> overrides).
Definition restoreRouteState (snapshot : RouteStateSnapshot) : fresult RouteState :=
  if blank (rss_RunID snapshot) || padded (rss_RunID snapshot)
  then plain "route state requires a run ID without surrounding whitespace"
  else
    let? _ := validateFrozenRoute (rss_Route snapshot) in
    let? overrides := foldM restore_override ∅ (rss_Overrides snapshot) in
    Ok {| rst_runID := rss_RunID snapshot; rst_revision := rss_Revision snapshot;
          rst_route := cloneRoute (rss_Route snapshot); rst_overrides := overrides |}.
Definition NewRouteState (runID : string) (route : Route) : fresult RouteState :=
  restoreRouteState {| rss_RunID := runID; rss_Revision := 0; rss_Route := route; rss_Overrides := [] |}.
Definition RestoreRouteState (snapshot : RouteStateSnapshot) : fresult RouteState :=
  restoreRouteState snapshot.
Definition SnapshotRouteState (state : RouteState) : RouteStateSnapshot := {|
  rss_RunID := rst_runID state; rss_Revision := rst_revision state;
  rss_Route := cloneRoute (rst_route state);
  rss_Overrides := sortedTransitionOverrides (rst_overrides state) |}.

(** * Digests *)
Definition encode_strings (l : list string) : string := encode_slice (encode_string <$> l).
Definition omit_empty (l : list string) (encoded : string) : option string :=
  if decide (l = []) then None else Some encoded.
Definition join_text (join : Join) : string :=
  encode_struct [("mode", Some (encode_string (join_Mode join))); ("from", Some (encode_strings (join_From join)))].
Definition route_node_text (node : RouteNode) : string :=
  encode_struct [("id", Some (encode_string (rn_ID node))); ("join", join_text <$> rn_Join node)].
Definition route_transition_text (transition : RouteTransition) : string :=
  encode_struct [("id", Some (encode_string (rt_ID transition))); ("from", Some (encode_string (rt_From transition)));
                 ("to", Some (encode_string (rt_To transition)))].
Definition excluded_text (node : ExcludedNode) : string :=
  encode_struct [("id", Some (encode_string (en_ID node))); ("reason", Some (encode_string (en_Reason node)))].
Definition requirement_text (requirement : InputRequirement) : string :=
  encode_struct [("code", Some (encode_string (ir_Code requirement))); ("node", Some (encode_string (ir_Node requirement)));
                 ("input", Some (encode_string (ir_Input requirement)));
                 ("source", Some (encode_string (ir_Source requirement)))].
(** A route that [cloneRoute] made: it has no assessment, and its empty slices are nil but for
    the nodes. *)
Definition route_text (route : Route) : string :=
  encode_struct [("entry", Some (encode_string (route_Entry route)));
    ("terminals", Some (encode_strings (route_Terminals route)));
    ("nodes", Some (encode_list (route_node_text <$> route_Nodes route)));
    ("transitions", Some (encode_slice (route_transition_text <$> route_Transitions route)));
    ("excludedNodes", Some (encode_slice (excluded_text <$> route_ExcludedNodes route)));
    ("inputRequirements", Some (encode_slice (requirement_text <$> route_InputRequirements route)))].
Definition override_text (override : TransitionOverride) : string :=
  encode_struct [("transitionId", Some (encode_string (to_TransitionID override)));
                 ("enabled", Some (encode_bool (to_Enabled override)))].
Definition snapshot_text (snapshot : RouteStateSnapshot) : string :=
  let overrides := override_text <$> rss_Overrides snapshot in
  encode_struct [("runId", Some (encode_string (rss_RunID snapshot)));
    ("revision", Some (encode_uint (rss_Revision snapshot))); ("route", Some (route_text (rss_Route snapshot)));
    ("overrides", omit_empty overrides (encode_list overrides))].
Definition impact_text (impact : RoutePatchImpact) : string :=
  let added l := omit_empty l (encode_strings l) in
  encode_struct [("addedNodes", added (im_AddedNodes impact)); ("removedNodes", added (im_RemovedNodes impact));
    ("addedTransitions", added (im_AddedTransitions impact));
    ("removedTransitions", added (im_RemovedTransitions impact));
    ("previousTerminals", Some (encode_strings (im_PreviousTerminals impact)));
    ("proposedTerminals", Some (encode_strings (im_ProposedTerminals impact)))].
Definition operation_text (operation : RoutePatchOperation) : string :=
  match operation with
  | EnableTransitionOperation id =>
      encode_struct [("op", Some (encode_string "enableTransition")); ("transitionId", Some (encode_string id))]
  | DisableTransitionOperation id =>
      encode_struct [("op", Some (encode_string "disableTransition")); ("transitionId", Some (encode_string id))]
  | SetTerminalsOperation nodes =>
      encode_struct [("op", Some (encode_string "setTerminals")); ("nodes", Some (encode_strings nodes))]
  | NilOperation => "null"
  end.
Definition validation_text (candidate : RouteStateSnapshot) (impact : RoutePatchImpact) : string :=
  encode_struct [("candidate", Some (snapshot_text candidate)); ("impact", Some (impact_text impact))].
Definition scope_text (patch : RoutePatch) (mode : RoutePatchAuthorizationMode) (validationDigest : string) : string :=
  let spec := rp_Spec patch in
  encode_struct [("runId", Some (encode_string (ps_RunID spec))); ("patchId", Some (encode_string (rp_ID patch)));
    ("expectedRouteRevision", Some (encode_uint (ps_ExpectedRouteRevision spec)));
    ("reason", Some (encode_string (ps_Reason spec)));
    ("operations", Some (encode_slice (operation_text <$> ps_Operations spec)));
    ("authorizationMode", Some (encode_string mode));
    ("validationDigest", Some (encode_string validationDigest))].
Definition topology (route : Route) : Route :=
  let copy := cloneRoute route in
  {| route_Assessment := route_Assessment copy; route_Entry := route_Entry copy;
     route_Terminals := route_Terminals copy; route_Nodes := route_Nodes copy;
     route_Transitions := route_Transitions copy; route_ExcludedNodes := route_ExcludedNodes copy;
     route_InputRequirements := [] |}.
Definition routeTopologyDigest (route : Route) : string := sha256_hex (route_text (topology route)).

(** * Operations on the transitions *)
Definition authored_node (result : gmap Identifier (Identifier * Transition)) (entry : Identifier * Node)
  : gmap Identifier (Identifier * Transition) :=
  let '(source, node) := entry in
  foldl (λ result transition, <[ID transition := (source, transition)]> result) result
    (nf_Transitions (Fields node)).
Definition authoredTransitions (document : Document) : gmap Identifier (Identifier * Transition) :=
  foldl authored_node ∅ (range_map "authoredTransitions" (nodes_of document)).

Record patching := {
  pt_overrides : gmap Identifier bool; pt_seen : gset Identifier;
  pt_terminals : list Identifier; pt_terminals_set : bool;
}.
Definition applyTransitionOverride (id : Identifier) (enabled : bool)
    (authored : gmap Identifier (Identifier * Transition)) (overrides : gmap Identifier bool)
    (seen : gset Identifier) (location : string) : presult (gmap Identifier bool * gset Identifier) :=
  let at_transition := location +:+ "/transitionId" in
  match authored !! id with
  | None => patchErrorWithTransitions WorkflowReferenceError "route patch references an unknown transition"
              at_transition [id]
  | Some (_, transition) =>
      if decide (id ∈ seen)
      then patchErrorWithTransitions RoutePatchOperationInvalid "a patch may change each transition only once"
             at_transition [id]
      else if decide (routeTransitionEnabled overrides transition = enabled)
      then patchErrorWithTransitions RoutePatchOperationInvalid
             "transition operation does not change its current state" at_transition [id]
      else Ok (if decide (enabled = transitionEnabled transition) then delete id overrides
               else <[id := enabled]> overrides, {[id]} ∪ seen)
  end.
Definition switch_transition (state : patching) (id : Identifier) (enabled : bool)
    (authored : gmap Identifier (Identifier * Transition)) (location : string) : presult patching :=
  let? (overrides, seen) :=
    applyTransitionOverride id enabled authored (pt_overrides state) (pt_seen state) location in
  Ok {| pt_overrides := overrides; pt_seen := seen;
        pt_terminals := pt_terminals state; pt_terminals_set := pt_terminals_set state |}.
Definition patch_step (authored : gmap Identifier (Identifier * Transition)) (state : patching) (index : nat)
    (operation : RoutePatchOperation) : presult patching :=
  let location := operation_location index in
  match operation with
  | EnableTransitionOperation id => switch_transition state id true authored location
  | DisableTransitionOperation id => switch_transition state id false authored location
  | SetTerminalsOperation nodes =>
      if pt_terminals_set state
      then patchError RoutePatchOperationInvalid "a patch may set terminals only once" location
      else Ok {| pt_overrides := pt_overrides state; pt_seen := pt_seen state;
                 pt_terminals := uniqueSortedIdentifiers nodes; pt_terminals_set := true |}
  | NilOperation =>
      Err (patch_error RoutePatchOperationInvalid (Msg "unsupported route patch operation %T" [AStr "<nil>"])
             location [] [])
  end.

(** * Impact *)
Definition routePatchImpact (current candidate : Route) : RoutePatchImpact :=
  let currentNodes := routeNodeSet current in
  let candidateNodes := routeNodeSet candidate in
  let currentTransitions := routeTransitionSet current in
  let candidateTransitions := routeTransitionSet candidate in
  {| im_AddedNodes := setDifference candidateNodes currentNodes;
     im_RemovedNodes := setDifference currentNodes candidateNodes;
     im_AddedTransitions := setDifference candidateTransitions currentTransitions;
     im_RemovedTransitions := setDifference currentTransitions candidateTransitions;
     im_PreviousTerminals := route_Terminals current;
     im_ProposedTerminals := route_Terminals candidate |}.
Definition ExpandsTerminalBoundary (impact : RoutePatchImpact) : bool :=
  if decide (length (im_AddedNodes impact) = 0) then false
  else existsb (λ terminal, bool_decide (terminal ∉ identifierSet (im_PreviousTerminals impact)))
         (im_ProposedTerminals impact).
Definition routePatchImpactEmpty (impact : RoutePatchImpact) : bool :=
  bool_decide (length (im_AddedNodes impact) = 0) && bool_decide (length (im_RemovedNodes impact) = 0) &&
  bool_decide (length (im_AddedTransitions impact) = 0) &&
  bool_decide (length (im_RemovedTransitions impact) = 0) &&
  sameIdentifierSet (im_PreviousTerminals impact) (im_ProposedTerminals impact).

Definition always_taken (included : gset Identifier) (overrides : gmap Identifier bool) (node : Node)
  : list Identifier :=
  ID <$> filter (λ transition, ID transition ∈ included ∧ routeTransitionEnabled overrides transition = true ∧
                               transitionAlwaysFires transition = true) (nf_Transitions (Fields node)).
Definition exclusive_outcomes (document : Document) (included : gset Identifier)
    (overrides : gmap Identifier bool) (_ : unit) (nodeID : Identifier) : presult unit :=
  match nodes_of document !! nodeID with
  | None => Ok tt
  | Some node =>
      if decide (nf_TransitionMode (Fields node) ≠ TransitionExclusive) then Ok tt
      else
        let always := always_taken included overrides node in
        if decide (1 < length always)
        then patchErrorWithTransitions RoutePatchOperationInvalid
               "patch enables multiple unconditional outcomes on an exclusive node" "/spec/operations" always
        else Ok tt
  end.
Definition validatePatchedExclusiveOutcomes (document : Document) (route : Route)
    (overrides : gmap Identifier bool) : presult unit :=
  foldM (exclusive_outcomes document (routeTransitionSet route) overrides) tt
    (sortedNodeIDs (nodes_of document)).

Definition operation_nodes (authored : gmap Identifier (Identifier * Transition)) (current candidate : Route)
    (operation : RoutePatchOperation) : list Identifier :=
  let '(id, terminals) :=
    match operation with
    | EnableTransitionOperation id | DisableTransitionOperation id => (id, [])
    | SetTerminalsOperation _ => ("", route_Terminals current ++ route_Terminals candidate)
    | NilOperation => ("", [])
    end in
  terminals ++ match authored !! id with
               | Some (source, transition) => [source; Target transition]
               | None => []
               end.
Definition affectedPatchNodes (document : Document) (current candidate : Route)
    (operations : list RoutePatchOperation) : list Identifier :=
  let impact := routePatchImpact current candidate in
  sortedIdentifierSet (list_to_set (im_AddedNodes impact ++ im_RemovedNodes impact ++
    flat_map (operation_nodes (authoredTransitions document) current candidate) operations)).
Definition disabledTransitionIDs (operations : list RoutePatchOperation) : gset Identifier :=
  list_to_set (omap (λ operation, match operation with DisableTransitionOperation id => Some id | _ => None end)
                 operations).

(** * Proposals *)
Definition ProposeRoutePatch (document : Document) (current : RouteState) (patch : RoutePatch)
    (context : RouteContext) (policy : RoutePatchPolicy) : presult RoutePatchProposal :=
  let spec := rp_Spec patch in
  let? _ := validateRoutePatchDocument patch in
  if decide (rst_runID current = "" ∨ ps_RunID spec ≠ rst_runID current ∨
             ps_ExpectedRouteRevision spec ≠ rst_revision current)
  then patchError RoutePatchConflict "patch run or expected route revision does not match current state"
         "/spec/expectedRouteRevision"
  else if decide (rpp_Mode policy ≠ RoutePatchAutomatic ∧ rpp_Mode policy ≠ RoutePatchRequireApproval)
  then patchError RoutePatchInvalid "route patch policy has an invalid authorization mode" "/policy/mode"
  else if negb (digestPattern (rpp_PolicyDigest policy))
  then patchError RoutePatchInvalid "route patch policy digest must be 64 lowercase hexadecimal characters"
         "/policy/policyDigest"
  else
    let? state := foldM_i (patch_step (authoredTransitions document))
      {| pt_overrides := rst_overrides current; pt_seen := ∅;
         pt_terminals := route_Terminals (rst_route current); pt_terminals_set := false |}
      (ps_Operations spec) in
    let overrides := pt_overrides state in
    match createRoute document {| rq_From := route_Entry (rst_route current); rq_Until := pt_terminals state |}
            context overrides with
    | Err errors => Err (PatchRouteInvalid errors)
    | Ok candidateRoute =>
        let? _ := validatePatchedExclusiveOutcomes document candidateRoute overrides in
        let impact := routePatchImpact (rst_route current) candidateRoute in
        if routePatchImpactEmpty impact
        then patchError RoutePatchOperationInvalid "patch has no effect on the future route" "/spec/operations"
        else
          let mode := if ExpandsTerminalBoundary impact || bool_decide (ps_ApprovalID spec ≠ "")
                      then RoutePatchRequireApproval else rpp_Mode policy in
          let candidate := {| rst_runID := rst_runID current; rst_revision := uint64 (rst_revision current + 1);
                              rst_route := candidateRoute; rst_overrides := overrides |} in
          let validationDigest := sha256_hex (validation_text (SnapshotRouteState candidate) impact) in
          Ok {| pp_patch := patch; pp_candidate := candidate; pp_impact := impact;
                pp_affectedNodes := affectedPatchNodes document (rst_route current) candidateRoute (ps_Operations spec);
                pp_mode := mode; pp_policyDigest := rpp_PolicyDigest policy;
                pp_scopeDigest := sha256_hex (scope_text patch mode validationDigest);
                pp_validationDigest := validationDigest;
                pp_baseTopologyDigest := routeTopologyDigest (rst_route current) |}
    end.

(** * Authorization *)
Definition unauthorized {A} (message location : string) : presult A :=
  patchError RoutePatchAuthorizationInvalid message location.
Definition AuthorizeRoutePatch (proposal : RoutePatchProposal) (authorization : RoutePatchAuthorization)
  : presult AuthorizedRoutePatch :=
  let spec := rp_Spec (pp_patch proposal) in
  if decide (pp_scopeDigest proposal = "" ∨ pp_validationDigest proposal = "")
  then unauthorized "route patch proposal is incomplete" "/authorization"
  else
    match authorization with
    | AutomaticRoutePatchAuthorization actor ScopeDigest PolicyDigest =>
        if decide (pp_mode proposal ≠ RoutePatchAutomatic)
        then patchError RoutePatchAuthorizationRequired
               "this route patch requires an attributable workflow-control approval" "/authorization"
        else if bool_decide (actor_Type actor ≠ ActorSystem) || blank (actor_ID actor) ||
                bool_decide (ScopeDigest ≠ pp_scopeDigest proposal ∨ PolicyDigest ≠ pp_policyDigest proposal)
        then unauthorized "automatic authorization does not match proposal scope, policy, or actor" "/authorization"
        else Ok {| arp_proposal := proposal; arp_actor := actor; arp_approvalID := "" |}
    | ApprovedRoutePatchAuthorization approval actor =>
        let actorValid := bool_decide (actor_Type actor = ActorUser ∨ actor_Type actor = ActorExternal) &&
                          negb (blank (actor_ID actor)) in
        if bool_decide (app_ApprovalID approval = "" ∨ app_RunID approval ≠ ps_RunID spec ∨
             app_Class approval ≠ ApprovalWorkflowControl ∨ app_Status approval ≠ ApprovalApproved ∨
             app_ScopeDigest approval ≠ pp_scopeDigest proposal ∨
             app_PolicyDigest approval ≠ pp_policyDigest proposal) || negb actorValid
        then unauthorized "approval does not match proposal run, class, status, scope, policy, or actor" "/authorization"
        else if decide (ps_ApprovalID spec ≠ "" ∧ app_ApprovalID approval ≠ ps_ApprovalID spec)
        then unauthorized "approval ID does not match the route patch" "/spec/approvalId"
        else Ok {| arp_proposal := proposal; arp_actor := actor; arp_approvalID := app_ApprovalID approval |}
    | NilAuthorization =>
        Err (patch_error RoutePatchAuthorizationInvalid
               (Msg "unsupported route patch authorization %T" [AStr "<nil>"]) "/authorization" [] [])
    end.

(** * Application *)
Definition history_check (candidateNodes : gset Identifier) (_ : unit) (entry : string * list Identifier)
  : presult unit :=
  let '(location, nodes) := entry in
  let conflicts := missingFromSet nodes candidateNodes in
  if decide (length conflicts ≠ 0)
  then patchErrorWithNodes RoutePatchHistoryConflict
         "patch would remove an activated or completed node from the route projection" location conflicts
  else Ok tt.
(** The map literal the code ranges over. *)
Definition history (execution : RoutePatchExecutionState) : list (string * list Identifier) :=
  [("/execution/activatedNodes", xs_ActivatedNodes execution);
   ("/execution/succeededNodes", xs_SucceededNodes execution);
   ("/execution/reachedTerminals", xs_ReachedTerminals execution)].
Definition ApplyAuthorizedRoutePatch (document : Document) (current : RouteState)
    (authorized : AuthorizedRoutePatch) (context : RouteContext) (execution : RoutePatchExecutionState)
  : presult (RouteState * AppliedRoutePatch) :=
  let proposal := arp_proposal authorized in
  let patch := pp_patch proposal in
  let spec := rp_Spec patch in
  if decide (pp_scopeDigest proposal = "" ∨ actor_ID (arp_actor authorized) = "")
  then patchError RoutePatchAuthorizationRequired "an authorized route patch is required" "/authorization"
  else if decide (rst_runID current ≠ ps_RunID spec ∨ rst_revision current ≠ ps_ExpectedRouteRevision spec ∨
                  routeTopologyDigest (rst_route current) ≠ pp_baseTopologyDigest proposal)
  then patchError RoutePatchConflict "route changed after the patch was proposed" "/spec/expectedRouteRevision"
  else
    let? revalidated := ProposeRoutePatch document current patch context
      {| rpp_Mode := pp_mode proposal; rpp_PolicyDigest := pp_policyDigest proposal |} in
    if decide (pp_scopeDigest revalidated ≠ pp_scopeDigest proposal ∨
               pp_validationDigest revalidated ≠ pp_validationDigest proposal)
    then patchError RoutePatchValidationStale "route patch validation changed after authorization"
           "/authorization/scopeDigest"
    else
      let running := intersection_of (xs_RunningAttempts execution) (list_to_set (pp_affectedNodes proposal)) in
      if decide (length running ≠ 0)
      then patchErrorWithNodes RoutePatchAttemptRunning "an affected node has a running attempt"
             "/execution/runningAttempts" running
      else
        let consumed := intersection_of (xs_EmittedTransitions execution)
                          (disabledTransitionIDs (ps_Operations spec)) in
        if decide (length consumed ≠ 0)
        then patchErrorWithTransitions RoutePatchTransitionConsumed "a disabled transition already emitted a token"
               "/execution/emittedTransitions" consumed
        else
          let next := pp_candidate revalidated in
          let? _ := foldM (history_check (routeNodeSet (rst_route next))) tt
                      (range "ApplyAuthorizedRoutePatch" (history execution)) in
          Ok (next, {| ap_PatchID := rp_ID patch; ap_RunID := rst_runID current;
                       ap_OldRevision := rst_revision current; ap_NewRevision := rst_revision next;
                       ap_Reason := ps_Reason spec; ap_Operations := ps_Operations spec;
                       ap_Impact := pp_impact proposal; ap_Actor := arp_actor authorized;
                       ap_ApprovalID := arp_approvalID authorized; ap_ScopeDigest := pp_scopeDigest proposal;
                       ap_ValidationDigest := pp_validationDigest proposal |}).
End patches.
