(* ===== verification/RoutePatchSafety.v ===== *)
(** What route patches promise: a route is always the one its workflow, its boundary and its
    overrides give; applying a patch keeps the work that is under way; a patch that moves the
    terminal boundary outwards has an approval. *)
From S2P Require Import Prelude GoStrings GoJson OpaqueID GoEncode Schema Issues Route Frame StateStore RoutePatch.
From stdpp Require Import options.

(** * Authored transitions *)
(** Every transition of the document has an identifier of its own. *)
Definition transition_ids_unique (document : Document) : Prop :=
  ∀ src src' t t', t ∈ transitions_of document src → t' ∈ transitions_of document src' → ID t = ID t' →
    src = src' ∧ t = t'.

Section inserts.
Context {V : Type}.
Implicit Types (m : gmap Identifier V) (l : list (Identifier * V)).
Definition insert_all m l : gmap Identifier V := foldl (λ m kv, <[kv.1 := kv.2]> m) m l.

Lemma insert_all_Some m l k v : insert_all m l !! k = Some v → (k, v) ∈ l ∨ m !! k = Some v.
Proof.
  revert m. induction l as [|[k' v'] l IH]; intros m; [by right|]. simpl. intros [Hin|Hm]%IH; [left; by right|].
  apply lookup_insert_Some in Hm as [[-> ->]|[_ Hm]]; [left; by left|by right].
Qed.
Lemma insert_all_last m l k v : (∀ v', (k, v') ∈ l → v' = v) → m !! k = Some v ∨ (k, v) ∈ l →
  insert_all m l !! k = Some v.
Proof.
  revert m. induction l as [|[k' v'] l IH]; intros m Hv Hor; simpl.
  { destruct Hor as [|[]%elem_of_nil]; done. }
  apply IH; [intros v1 Hv1; apply Hv; by right|]. destruct (decide (k' = k)) as [->|Hne].
  - left. rewrite lookup_insert_eq. f_equal. apply Hv. by left.
  - destruct Hor as [Hm|[[= -> ->]|Hin]%elem_of_cons]; [left; by rewrite lookup_insert_ne|done|by right].
Qed.
End inserts.

Definition authored_entries (entry : Identifier * Node) : list (Identifier * (Identifier * Transition)) :=
  (λ t, (ID t, (entry.1, t))) <$> nf_Transitions (Fields entry.2).
Lemma authored_inserts `{!GoRange} document :
  authoredTransitions document =
  insert_all ∅ (flat_map authored_entries (range_map "authoredTransitions" (nodes_of document))).
Proof.
  unfold authoredTransitions. generalize (∅ : gmap Identifier (Identifier * Transition)).
  induction (range_map _ _) as [|[src node] l IH]; intros m; [done|]. simpl. rewrite IH. unfold insert_all.
  rewrite foldl_app. f_equal. unfold authored_entries. simpl. revert m.
  induction (nf_Transitions (Fields node)) as [|t ts IHt]; intros m; [done|]. simpl. by rewrite IHt.
Qed.
Lemma elem_of_authored `{!GoRange} document id src t :
  (id, (src, t)) ∈ flat_map authored_entries (range_map "authoredTransitions" (nodes_of document)) ↔
  ID t = id ∧ t ∈ transitions_of document src.
Proof.
  rewrite list_elem_of_In, in_flat_map. setoid_rewrite <-list_elem_of_In. unfold authored_entries, transitions_of.
  setoid_rewrite list_elem_of_fmap. split.
  - intros ([src' node] & Hn & t' & [= -> -> ->] & Ht). apply elem_of_range_map in Hn. simpl in *. by rewrite Hn.
  - intros [<- Ht]. destruct (nodes_of document !! src) as [node|] eqn:Hn; [|by apply elem_of_nil in Ht].
    exists (src, node). rewrite elem_of_range_map. split; [done|]. by exists t.
Qed.
Lemma authored_Some `{!GoRange} document id src t :
  authoredTransitions document !! id = Some (src, t) → ID t = id ∧ t ∈ transitions_of document src.
Proof. rewrite authored_inserts. intros [Hin|Hm]%insert_all_Some; [by apply elem_of_authored|by rewrite lookup_empty in Hm]. Qed.
Lemma authored_lookup `{!GoRange} document src t :
  transition_ids_unique document → t ∈ transitions_of document src →
  authoredTransitions document !! ID t = Some (src, t).
Proof.
  intros Huniq Ht. rewrite authored_inserts. apply insert_all_last; [|right; by apply elem_of_authored].
  intros [src' t'] [Hid Ht']%elem_of_authored. by destruct (Huniq src' src t' t Ht' Ht Hid) as [-> ->].
Qed.
Lemma authored_det (R1 R2 : GoRange) document : transition_ids_unique document →
  @authoredTransitions R1 document = @authoredTransitions R2 document.
Proof.
  intros Huniq. apply map_eq. intros id.
  destruct (@authoredTransitions R1 document !! id) as [[src t]|] eqn:H1.
  - apply authored_Some in H1 as [<- Ht]. symmetry. by apply authored_lookup.
  - destruct (@authoredTransitions R2 document !! id) as [[src t]|] eqn:H2; [|done].
    apply authored_Some in H2 as [<- Ht]. by rewrite (@authored_lookup R1 document src t Huniq Ht) in H1.
Qed.

(** * The operations of a patch *)
(** What a patch switches a transition to. *)
Fixpoint switched (operations : list RoutePatchOperation) (id : Identifier) : option bool :=
  match operations with
  | [] => None
  | EnableTransitionOperation id' :: operations => if decide (id' = id) then Some true else switched operations id
  | DisableTransitionOperation id' :: operations => if decide (id' = id) then Some false else switched operations id
  | _ :: operations => switched operations id
  end.
Lemma switched_operation operations id b : switched operations id = Some b →
  (if b then EnableTransitionOperation id else DisableTransitionOperation id) ∈ operations.
Proof.
  induction operations as [|[id'|id'|nodes|] ops IH]; simpl; [done| | |intros H; right; by apply IH..];
    (case_decide as Heq; [intros [= <-]; subst; by left|intros H; right; by apply IH]).
Qed.
Lemma switched_disabled operations id : switched operations id = Some false → id ∈ disabledTransitionIDs operations.
Proof.
  intros H%switched_operation. apply elem_of_list_to_set, list_elem_of_omap. by exists (DisableTransitionOperation id).
Qed.

Lemma override_other (o : gmap Identifier bool) t id b enabled (Hne : ID t ≠ id) :
  routeTransitionEnabled (if decide (enabled = b) then delete id o else <[id := enabled]> o) t =
  routeTransitionEnabled o t.
Proof. unfold routeTransitionEnabled. case_decide; [by rewrite lookup_delete_ne|by rewrite lookup_insert_ne]. Qed.
Lemma override_same (o : gmap Identifier bool) t enabled :
  routeTransitionEnabled (if decide (enabled = transitionEnabled t) then delete (ID t) o else <[ID t := enabled]> o) t =
  enabled.
Proof. unfold routeTransitionEnabled. case_decide; [by rewrite lookup_delete_eq|by rewrite lookup_insert_eq]. Qed.

Section operations.
#[local] Set Default Proof Using "All".
Variable authored : gmap Identifier (Identifier * Transition).
Hypothesis Hauthored : ∀ id src t, authored !! id = Some (src, t) → ID t = id.
Context {GR : GoRange}.

Lemma switch_transition_Ok st id b location st' : switch_transition st id b authored location = Ok st' →
  ∃ src t, authored !! id = Some (src, t) ∧ id ∉ pt_seen st ∧ routeTransitionEnabled (pt_overrides st) t ≠ b ∧
    st' = {| pt_overrides := if decide (b = transitionEnabled t) then delete id (pt_overrides st)
                             else <[id := b]> (pt_overrides st);
             pt_seen := {[id]} ∪ pt_seen st; pt_terminals := pt_terminals st;
             pt_terminals_set := pt_terminals_set st |}.
Proof.
  unfold switch_transition, applyTransitionOverride. intros ([o seen] & Hov & [= <-])%result_bind_Ok.
  destruct (authored !! id) as [[src t]|]; [|done]. do 2 (case_decide; [done|]). injection Hov as <- <-.
  exists src, t. split_and!; done.
Qed.

(** What one run of the loop does to one transition. *)
Lemma steps_enabled ops : ∀ i st st', foldM_i_from i (patch_step authored) st ops = Ok st' →
  ∀ id src t, authored !! id = Some (src, t) →
  routeTransitionEnabled (pt_overrides st') t =
    default (routeTransitionEnabled (pt_overrides st) t) (switched ops id) ∧
  (id ∈ pt_seen st → switched ops id = None).
Proof.
  assert (∀ ops i st id' b location st1 st',
    (∀ st1, foldM_i_from (S i) (patch_step authored) st1 ops = Ok st' → ∀ id src t, authored !! id = Some (src, t) →
       routeTransitionEnabled (pt_overrides st') t =
         default (routeTransitionEnabled (pt_overrides st1) t) (switched ops id) ∧
       (id ∈ pt_seen st1 → switched ops id = None)) →
    switch_transition st id' b authored location = Ok st1 →
    foldM_i_from (S i) (patch_step authored) st1 ops = Ok st' →
    ∀ id src t, authored !! id = Some (src, t) →
      routeTransitionEnabled (pt_overrides st') t =
        default (routeTransitionEnabled (pt_overrides st) t) (if decide (id' = id) then Some b else switched ops id) ∧
      (id ∈ pt_seen st → (if decide (id' = id) then Some b else switched ops id) = None)) as Hswitch.
  { intros ops' i st id' b location st1 st' IH (src' & t' & Ht' & Hseen & _ & ->)%switch_transition_Ok Hrest id src t Ht.
    destruct (IH _ Hrest id src t Ht) as [-> Hs]. simpl in *. pose proof (Hauthored _ _ _ Ht) as <-.
    destruct (decide (id' = ID t)) as [Heq|Hne].
    - subst id'. assert (t' = t) as -> by congruence. rewrite override_same, Hs by set_solver. done.
    - split; [|intros ?; apply Hs; set_solver]. by rewrite override_other by done. }
  induction ops as [|op ops IH]; intros i st st'; cbn [foldM_i_from].
  { intros [= <-] id src t _. done. }
  intros (st1 & H1 & Hrest)%result_bind_Ok id src t Ht. destruct op as [id'|id'|nodes|]; cbn [patch_step switched] in *.
  - eapply Hswitch; try done. intros. by eapply IH.
  - eapply Hswitch; try done. intros. by eapply IH.
  - destruct (pt_terminals_set st); [done|]. injection H1 as <-. by apply (IH _ _ _ Hrest id src t).
  - done.
Qed.

(** The loop ends with the boundary it started with, or a patch set it. *)
Lemma steps_terminals ops : ∀ i st st', foldM_i_from i (patch_step authored) st ops = Ok st' →
  pt_terminals st' = pt_terminals st ∨ ∃ nodes, SetTerminalsOperation nodes ∈ ops.
Proof.
  induction ops as [|op ops IH]; intros i st st'; cbn [foldM_i_from]; [intros [= <-]; by left|].
  intros (st1 & H1 & Hrest)%result_bind_Ok. destruct (IH _ _ _ Hrest) as [->|[nodes Hn]]; [|right; exists nodes; by right].
  destruct op as [id'|id'|nodes|]; cbn [patch_step] in H1; [| |right; exists nodes; by left|done];
    apply switch_transition_Ok in H1 as (? & ? & _ & _ & _ & ->); by left.
Qed.

(** The overrides a patch leaves differ from what the workflow says. *)
Lemma steps_deviate (P : Identifier → bool → Prop) ops :
  (∀ id src t b, authored !! id = Some (src, t) → b ≠ transitionEnabled t → P id b) →
  ∀ i st st', foldM_i_from i (patch_step authored) st ops = Ok st' →
  map_Forall P (pt_overrides st) → map_Forall P (pt_overrides st').
Proof.
  intros HP. induction ops as [|op ops IH]; intros i st st'; cbn [foldM_i_from]; [by intros [= <-]|].
  intros (st1 & H1 & Hrest)%result_bind_Ok Hst. apply (IH _ _ _ Hrest).
  destruct op as [id'|id'|nodes|]; cbn [patch_step] in H1;
    [| |destruct (pt_terminals_set st); [done|]; by injection H1 as <-|done];
    apply switch_transition_Ok in H1 as (src & t & Ht & _ & _ & ->); simpl; (case_decide as Hd;
      [by apply map_Forall_delete|apply map_Forall_insert_2; [by eapply HP|done]]).
Qed.
End operations.

(** * What success means *)
Section success.
Context {GR : GoRange} {SHA : Sha256}.

Definition patch_start (current : RouteState) : patching :=
  {| pt_overrides := rst_overrides current; pt_seen := ∅;
     pt_terminals := route_Terminals (rst_route current); pt_terminals_set := false |}.
(** The outcome of a proposal that succeeds. *)
Record proposed (document : Document) (current : RouteState) (patch : RoutePatch) (context : RouteContext)
    (policy : RoutePatchPolicy) (proposal : RoutePatchProposal) (state : patching) (route : Route) : Prop := {
  pd_steps : foldM_i (patch_step (authoredTransitions document)) (patch_start current) (ps_Operations (rp_Spec patch)) =
    Ok state;
  pd_route : createRoute document {| rq_From := route_Entry (rst_route current); rq_Until := pt_terminals state |}
    context (pt_overrides state) = Ok route;
  pd_revision : ps_ExpectedRouteRevision (rp_Spec patch) = rst_revision current;
  pd_run : ps_RunID (rp_Spec patch) = rst_runID current;
  pd_policy : rpp_Mode policy = RoutePatchAutomatic ∨ rpp_Mode policy = RoutePatchRequireApproval;
  pd_patch : pp_patch proposal = patch;
  pd_candidate : pp_candidate proposal = {| rst_runID := rst_runID current;
    rst_revision := uint64 (rst_revision current + 1); rst_route := route; rst_overrides := pt_overrides state |};
  pd_affected : pp_affectedNodes proposal =
    affectedPatchNodes document (rst_route current) route (ps_Operations (rp_Spec patch));
  pd_mode : pp_mode proposal =
    if ExpandsTerminalBoundary (routePatchImpact (rst_route current) route) ||
       bool_decide (ps_ApprovalID (rp_Spec patch) ≠ "") then RoutePatchRequireApproval else rpp_Mode policy;
  pd_scope : pp_scopeDigest proposal = sha256_hex (scope_text patch (pp_mode proposal) (pp_validationDigest proposal));
}.
Lemma Propose_Ok document current patch context policy proposal :
  ProposeRoutePatch document current patch context policy = Ok proposal →
  ∃ state route, proposed document current patch context policy proposal state route.
Proof.
  unfold ProposeRoutePatch. intros ([] & _ & H)%result_bind_Ok. case_decide as Hconflict; [done|].
  case_decide as Hpolicy; [done|]. destruct (negb _); [done|]. apply result_bind_Ok in H as (state & Hsteps & H).
  destruct (createRoute _ _ _ _) as [route|errors] eqn:Hroute; [|done]. apply result_bind_Ok in H as ([] & _ & H).
  destruct (routePatchImpactEmpty _); [done|]. injection H as <-. exists state, route.
  assert (ps_ExpectedRouteRevision (rp_Spec patch) = rst_revision current) by (apply dec_stable; naive_solver).
  assert (ps_RunID (rp_Spec patch) = rst_runID current) by (apply dec_stable; naive_solver).
  constructor; try done. destruct (decide (rpp_Mode policy = RoutePatchAutomatic)) as [|Ha]; [by left|right].
  destruct (decide (rpp_Mode policy = RoutePatchRequireApproval)); [done|naive_solver].
Qed.
Lemma proposed_mode document current patch context policy proposal state route :
  proposed document current patch context policy proposal state route →
  pp_mode proposal = RoutePatchAutomatic ∨ pp_mode proposal = RoutePatchRequireApproval.
Proof. intros []. rewrite pd_mode0. destruct (_ || _); [by right|done]. Qed.

(** The outcome of an application that succeeds. *)
Record applied (document : Document) (current : RouteState) (authorized : AuthorizedRoutePatch)
    (context : RouteContext) (execution : RoutePatchExecutionState) (next : RouteState)
    (record : AppliedRoutePatch) (revalidated : RoutePatchProposal) : Prop := {
  ad_propose : ProposeRoutePatch document current (pp_patch (arp_proposal authorized)) context
    {| rpp_Mode := pp_mode (arp_proposal authorized); rpp_PolicyDigest := pp_policyDigest (arp_proposal authorized) |} =
    Ok revalidated;
  ad_scope : pp_scopeDigest revalidated = pp_scopeDigest (arp_proposal authorized);
  ad_validation : pp_validationDigest revalidated = pp_validationDigest (arp_proposal authorized);
  ad_running : ∀ n, n ∈ xs_RunningAttempts execution → n ∉ pp_affectedNodes (arp_proposal authorized);
  ad_emitted : ∀ id, id ∈ xs_EmittedTransitions execution →
    id ∉ disabledTransitionIDs (ps_Operations (rp_Spec (pp_patch (arp_proposal authorized))));
  ad_history : ∀ n, n ∈ xs_ActivatedNodes execution ++ xs_SucceededNodes execution ++ xs_ReachedTerminals execution →
    n ∈ routeNodeSet (rst_route next);
  ad_next : next = pp_candidate revalidated;
  ad_approval : ap_ApprovalID record = arp_approvalID authorized;
  ad_actor : ap_Actor record = arp_actor authorized;
}.
Lemma elem_of_sortedIdentifierSet x X : x ∈ sortedIdentifierSet X ↔ x ∈ X.
Proof. unfold sortedIdentifierSet. by rewrite elem_of_sort_strings, elem_of_range_set. Qed.
Lemma filtered_empty (P : Identifier → Prop) `{∀ x, Decision (P x)} values :
  length (sortedIdentifierSet (list_to_set (filter P values))) = 0 → ∀ n, n ∈ values → ¬ P n.
Proof.
  intros Hnil%nil_length_inv n Hn HP. apply (not_elem_of_nil n). rewrite <-Hnil.
  by apply elem_of_sortedIdentifierSet, elem_of_list_to_set, list_elem_of_filter.
Qed.
Lemma history_Ok X l : foldM (history_check X) tt l = Ok tt → ∀ entry n, entry ∈ l → n ∈ entry.2 → n ∈ X.
Proof.
  induction l as [|[location nodes] l IH]; cbn [foldM]; [by intros _ ? ? ?%elem_of_nil|].
  intros ([] & H1 & Hl)%result_bind_Ok entry n [->|Hin]%elem_of_cons Hn; [|by eapply IH].
  unfold history_check in H1. case_decide as Hc; [done|]. simpl in Hn.
  apply dec_stable. by eapply (filtered_empty (λ value, value ∉ X)).
Qed.
Lemma Apply_Ok document current authorized context execution next record :
  ApplyAuthorizedRoutePatch document current authorized context execution = Ok (next, record) →
  ∃ revalidated, applied document current authorized context execution next record revalidated.
Proof.
  unfold ApplyAuthorizedRoutePatch. case_decide; [done|]. case_decide; [done|].
  intros (revalidated & Hpropose & Hrest)%result_bind_Ok. case_decide as Hstale; [done|].
  case_decide as Hrunning; [done|]. case_decide as Hemitted; [done|].
  apply result_bind_Ok in Hrest as ([] & Hhistory & [= <- <-]). exists revalidated. constructor; try done.
  - apply dec_stable. naive_solver.
  - apply dec_stable. naive_solver.
  - intros n Hn Ha. apply (filtered_empty _ _ Hrunning n Hn). by apply elem_of_list_to_set.
  - by apply (filtered_empty _ _ Hemitted).
  - intros n Hn. rewrite !elem_of_app in Hn.
    assert (∀ location nodes, (location, nodes) ∈ history execution → n ∈ nodes → n ∈ routeNodeSet (rst_route (pp_candidate revalidated))) as Hh.
    { intros location nodes Hin Hnodes. eapply (history_Ok _ _ Hhistory (location, nodes)); [by rewrite range_perm|done]. }
    unfold history in Hh. destruct Hn as [Hn|[Hn|Hn]]; (eapply Hh; [|exact Hn]); repeat (apply elem_of_cons; (left; reflexivity) || right).
Qed.
End success.

(** * Routes of a document *)
(** A route state is the route its workflow gives for its entry, its terminals and its overrides,
    and the overrides are where it departs from the workflow. *)
Record derived (document : Document) (s : RouteState) : Prop := {
  dv_route : ∃ (R : GoRange) request context,
    createRoute document request context (rst_overrides s) = Ok (rst_route s);
  dv_entry : route_Entry (rst_route s) ≠ "";
  dv_overrides : map_Forall (λ id b, ∃ src t, t ∈ transitions_of document src ∧ ID t = id ∧ b ≠ transitionEnabled t)
    (rst_overrides s);
}.

Section routes.
Variable document : Document.

Lemma elem_of_routeNodeSet (R : GoRange) request context overrides route x :
  createRoute document request context overrides = Ok route →
  x ∈ routeNodeSet route ↔ rtc (forward_step document (route_Terminals route) overrides) (route_Entry route) x.
Proof.
  intros Hroute. unfold routeNodeSet. rewrite elem_of_list_to_set. by eapply elem_of_route_nodes.
Qed.
Lemma node_included (R : GoRange) request context overrides route x :
  createRoute document request context overrides = Ok route →
  x ∈ routeNodeSet route ↔
  x ∈ forwardRouteNodes document (route_Entry route) (identifierSet (route_Terminals route)) overrides.
Proof. intros Hroute. by rewrite elem_of_forwardRouteNodes, (elem_of_routeNodeSet _ _ _ _ _ _ Hroute). Qed.
Lemma elem_of_route_transitions (R : GoRange) request context overrides route rt :
  createRoute document request context overrides = Ok route →
  rt ∈ route_Transitions route ↔
  rt_From rt ∈ routeNodeSet route ∧ rt_To rt ∈ routeNodeSet route ∧ rt_From rt ∉ route_Terminals route ∧
  ∃ t, t ∈ transitions_of document (rt_From rt) ∧ routeTransitionEnabled overrides t = true ∧
       ID t = rt_ID rt ∧ Target t = rt_To rt.
Proof.
  intros Hroute. pose proof (route_fields _ _ _ _ _ Hroute) as (_ & _ & _ & Ht & _). rewrite Ht.
  rewrite elem_of_includedRouteTransitions. rewrite !(node_included _ _ _ _ _ _ Hroute).
  unfold enabled_transitions. setoid_rewrite list_elem_of_filter. naive_solver.
Qed.
Lemma route_node_exists (R : GoRange) request context overrides route x :
  createRoute document request context overrides = Ok route → x ∈ routeNodeSet route →
  is_Some (nodes_of document !! x).
Proof.
  intros Hroute Hx. eapply included_subset; [|by eapply node_included]. by eapply route_fields.
Qed.

(** A transition that stays enabled stays in the route while its source does and is not made a
    terminal. *)
Lemma transition_stays (R R' : GoRange) request request' context context' o o' route route' rt :
  @createRoute R document request context o = Ok route → @createRoute R' document request' context' o' = Ok route' →
  rt ∈ route_Transitions route → rt_From rt ∈ routeNodeSet route' → rt_From rt ∉ route_Terminals route' →
  (∀ t, t ∈ transitions_of document (rt_From rt) → ID t = rt_ID rt → routeTransitionEnabled o t = true →
        routeTransitionEnabled o' t = true) →
  rt ∈ route_Transitions route'.
Proof.
  intros Hr Hr' Hin Hfrom Hterminal Henabled.
  apply (elem_of_route_transitions _ _ _ _ _ _ Hr) in Hin as (_ & Hto & _ & t & Ht & Ho & Hid & Htarget).
  apply (elem_of_route_transitions _ _ _ _ _ _ Hr'). split_and!; [done| |done|exists t; by eauto].
  apply (elem_of_routeNodeSet _ _ _ _ _ _ Hr'). eapply rtc_r; [by eapply elem_of_routeNodeSet|].
  split_and!; [done|by eapply (route_node_exists R)|]. exists t. unfold enabled_transitions.
  rewrite list_elem_of_filter. eauto.
Qed.
End routes.

(** * Proposals made again *)
(** The nodes a patch does not affect keep their place, and none of their transitions is
    switched. *)
Lemma unaffected (R : GoRange) document current candidate ops x : transition_ids_unique document →
  x ∉ affectedPatchNodes document current candidate ops →
  (x ∈ routeNodeSet current ↔ x ∈ routeNodeSet candidate) ∧
  ((∃ nodes, SetTerminalsOperation nodes ∈ ops) → x ∉ route_Terminals current ∧ x ∉ route_Terminals candidate) ∧
  (∀ t, t ∈ transitions_of document x → switched ops (ID t) = None).
Proof.
  intros Huniq Hx. unfold affectedPatchNodes in Hx. rewrite elem_of_sortedIdentifierSet, elem_of_list_to_set in Hx.
  rewrite !elem_of_app in Hx. unfold routePatchImpact, setDifference in Hx. cbn [im_AddedNodes im_RemovedNodes] in Hx.
  rewrite !elem_of_sort_strings, !list_elem_of_filter, !elem_of_range_set in Hx.
  assert (∀ op, op ∈ ops → x ∉ operation_nodes (authoredTransitions document) current candidate op) as Hops.
  { intros op Hop Hin. apply Hx. right. right. apply list_elem_of_In, in_flat_map. exists op.
    split; by apply list_elem_of_In. }
  split_and!.
  - destruct (decide (x ∈ routeNodeSet current)), (decide (x ∈ routeNodeSet candidate)); naive_solver.
  - intros [nodes Hn]. specialize (Hops _ Hn). unfold operation_nodes in Hops. rewrite !elem_of_app in Hops. naive_solver.
  - intros t Ht. destruct (switched ops (ID t)) as [b|] eqn:Hs; [exfalso|done]. apply switched_operation in Hs.
    specialize (Hops _ Hs). apply Hops. pose proof (authored_lookup _ _ _ Huniq Ht) as Hl.
    destruct b; unfold operation_nodes; rewrite Hl; by left.
Qed.
(** Whatever the order of maps and the facts at hand, a patch proposed again leads to the same
    nodes and terminals. *)
Lemma proposed_again (R R' : GoRange) (SHA SHA' : Sha256) document current patch context context' policy policy'
    p p' st st' route route' : transition_ids_unique document →
  @proposed R SHA document current patch context policy p st route →
  @proposed R' SHA' document current patch context' policy' p' st' route' →
  st = st' ∧ route_Terminals route = route_Terminals route' ∧ ∀ x, x ∈ routeNodeSet route ↔ x ∈ routeNodeSet route'.
Proof.
  intros Huniq Hp Hp'. pose proof (pd_steps _ _ _ _ _ _ _ _ Hp) as Hs. pose proof (pd_steps _ _ _ _ _ _ _ _ Hp') as Hs'.
  rewrite (authored_det R' R document Huniq) in Hs'.
  rewrite (foldM_i_ext _ (@patch_step R (@authoredTransitions R document))) in Hs'; last first.
  { intros s i op _. destruct op; try done. simpl. by rewrite !uniqueSortedIdentifiers_canonical. }
  assert (st = st') as <- by (rewrite Hs in Hs'; by injection Hs').
  pose proof (pd_route _ _ _ _ _ _ _ _ Hp) as Hr. pose proof (pd_route _ _ _ _ _ _ _ _ Hp') as Hr'.
  pose proof (route_fields _ _ _ _ _ Hr) as (_ & He & Ht & _). pose proof (route_fields _ _ _ _ _ Hr') as (_ & He' & Ht' & _).
  rewrite (route_terminals_det R' R) in Ht'.
  assert (route_Terminals route = route_Terminals route') as Hterminals by (by rewrite Ht, Ht').
  split_and!; [done|done|]. intros x.
  rewrite (elem_of_routeNodeSet _ _ _ _ _ _ x Hr), (elem_of_routeNodeSet _ _ _ _ _ _ x Hr'), Hterminals, He, He'. done.
Qed.

(** What a proposal does to a route that the workflow gives. *)
Lemma proposed_entry (R : GoRange) (SHA : Sha256) document current patch context policy p st route :
  proposed document current patch context policy p st route → route_Entry (rst_route current) ≠ "" →
  route_Entry route = route_Entry (rst_route current).
Proof.
  intros Hp He. pose proof (route_fields _ _ _ _ _ (pd_route _ _ _ _ _ _ _ _ Hp)) as (_ & -> & _).
  unfold route_entry. simpl. by rewrite decide_False.
Qed.
Lemma proposed_terminals (R : GoRange) (SHA : Sha256) document current patch context policy p st route :
  proposed document current patch context policy p st route → route_Terminals (rst_route current) ≠ [] →
  (∀ nodes, SetTerminalsOperation nodes ∉ ps_Operations (rp_Spec patch)) →
  ∀ x, x ∈ route_Terminals route ↔ x ∈ route_Terminals (rst_route current).
Proof.
  intros Hp Hne Hnone x. pose proof (route_fields _ _ _ _ _ (pd_route _ _ _ _ _ _ _ _ Hp)) as (_ & _ & -> & _).
  unfold route_terminals. rewrite elem_of_uniqueSortedIdentifiers. cbn [rq_Until].
  destruct (steps_terminals _ (fun id src t H => proj1 (authored_Some document id src t H)) _ _ _ _
    (pd_steps _ _ _ _ _ _ _ _ Hp)) as [->|[nodes Hn]]; [|by destruct (Hnone nodes)].
  cbn [patch_start pt_terminals]. rewrite decide_False; [done|]. by intros ?%nil_length_inv.
Qed.
Lemma proposed_enabled (R : GoRange) (SHA : Sha256) document current patch context policy p st route src t :
  transition_ids_unique document → proposed document current patch context policy p st route →
  t ∈ transitions_of document src →
  routeTransitionEnabled (pt_overrides st) t =
    default (routeTransitionEnabled (rst_overrides current) t) (switched (ps_Operations (rp_Spec patch)) (ID t)).
Proof.
  intros Huniq Hp Ht.
  apply (steps_enabled _ (fun id src t H => proj1 (authored_Some document id src t H)) _ _ _ _
    (pd_steps _ _ _ _ _ _ _ _ Hp) (ID t) src t (authored_lookup _ _ _ Huniq Ht)).
Qed.
Lemma derived_terminals document s : derived document s → route_Terminals (rst_route s) ≠ [].
Proof. intros [(R & request & context & Hr) _ _]. by apply route_admissible in Hr as []. Qed.
Lemma proposed_derived (R : GoRange) (SHA : Sha256) document current patch context policy p st route :
  derived document current → proposed document current patch context policy p st route →
  derived document (pp_candidate p).
Proof.
  intros [Hroute Hentry Hov] Hp. rewrite (pd_candidate _ _ _ _ _ _ _ _ Hp). split; cbn [rst_route rst_overrides].
  - exists R. eexists _, _. by eapply pd_route.
  - by rewrite (proposed_entry _ _ _ _ _ _ _ _ _ _ Hp).
  - refine (steps_deviate _ (fun id src t H => proj1 (authored_Some document id src t H)) _ _ _ _ _ _
      (pd_steps _ _ _ _ _ _ _ _ Hp) _); [|done].
    intros id src t b [Hid Ht]%authored_Some Hb. by exists src, t.
Qed.

(** * The states of a run's route *)
Definition patched (SHA : Sha256) (document : Document) (s next : RouteState) : Prop :=
  ∃ (R : GoRange) authorized context execution record,
    ApplyAuthorizedRoutePatch document s authorized context execution = Ok (next, record).
(** The states that come of freezing a route and applying patches to it one after the other, saved
    and restored in between; the number counts the patches. *)
Inductive route_history (SHA : Sha256) (document : Document) (runID : string) (request : RouteRequest)
  : nat → RouteState → Prop :=
| history_frozen (R : GoRange) context route s :
    CreateRoute document request context = Ok route → NewRouteState runID route = Ok s →
    route_history SHA document runID request 0 s
| history_restored (R : GoRange) n s s' :
    route_history SHA document runID request n s → RestoreRouteState (SnapshotRouteState s) = Ok s' →
    route_history SHA document runID request n s'
| history_patched n s next :
    route_history SHA document runID request n s → patched SHA document s next →
    route_history SHA document runID request (S n) next.

Lemma restored_overrides l : ∀ m m', foldM restore_override m l = Ok m' →
  m' = insert_all m ((λ o, (to_TransitionID o, to_Enabled o)) <$> l).
Proof.
  induction l as [|o l IH]; intros m m'; cbn [foldM]; [by intros [= <-]|].
  intros (m1 & H1 & Hl)%result_bind_Ok. rewrite (IH _ _ Hl). unfold restore_override in H1.
  apply result_bind_Ok in H1 as ([] & _ & H1). case_decide; [done|]. by injection H1 as <-.
Qed.
Lemma restored_snapshot (R : GoRange) s s' : route_Assessment (rst_route s) = "" →
  RestoreRouteState (SnapshotRouteState s) = Ok s' → s' = s.
Proof.
  intros Ha. unfold RestoreRouteState, restoreRouteState. destruct (_ || _); [done|].
  intros ([] & _ & (m & Hm & [= <-])%result_bind_Ok)%result_bind_Ok. apply restored_overrides in Hm as ->.
  destruct s as [runID revision route overrides]; cbn in *. f_equal; [by rewrite cloneRoute_idemp, cloneRoute_id|].
  unfold sortedTransitionOverrides. rewrite <-list_fmap_compose. apply map_eq. intros id.
  assert (∀ v, (id, v) ∈ (λ id, (id, default false (overrides !! id))) <$> sortedIDs "sortedTransitionOverrides" overrides ↔
    overrides !! id = Some v) as Hin.
  { intros v. rewrite list_elem_of_fmap. setoid_rewrite elem_of_sortedIDs. split.
    - by intros (id' & [= -> ->] & [b ->]).
    - intros Hv. exists id. rewrite Hv. by eauto. }
  destruct (overrides !! id) as [v|] eqn:Hv.
  - apply insert_all_last; [|right; by apply Hin]. intros v' Hv'%Hin. by injection Hv'.
  - apply eq_None_not_Some. intros [v Hl].
    apply insert_all_Some in Hl as [Hl%Hin|Hl]; [done|by rewrite lookup_empty in Hl].
Qed.
Lemma route_assessment (R : GoRange) document request context overrides route :
  createRoute document request context overrides = Ok route → route_Assessment route = "".
Proof. intros (_ & _ & _ & _ & ->)%createRoute_Ok. done. Qed.
Lemma derived_restored (R : GoRange) document s s' : derived document s →
  RestoreRouteState (SnapshotRouteState s) = Ok s' → s' = s.
Proof. intros [(R' & request & context & Hr) _ _]. apply restored_snapshot. by eapply route_assessment. Qed.

Lemma patched_keeps (SHA : Sha256) document s next : patched SHA document s next → derived document s →
  derived document next ∧ rst_runID next = rst_runID s ∧ rst_revision next = uint64 (rst_revision s + 1) ∧
  route_Entry (rst_route next) = route_Entry (rst_route s).
Proof.
  intros (R & authorized & context & execution & record & (p & Ha)%Apply_Ok) Hs.
  destruct (Propose_Ok _ _ _ _ _ _ (ad_propose _ _ _ _ _ _ _ _ Ha)) as (st & route & Hp).
  rewrite (ad_next _ _ _ _ _ _ _ _ Ha). split; [by eapply proposed_derived|].
  rewrite (pd_candidate _ _ _ _ _ _ _ _ Hp). split_and!; [done..|]. by eapply proposed_entry, Hs.
Qed.
Lemma frozen_state runID route s : NewRouteState runID route = Ok s →
  validateFrozenRoute route = Ok tt ∧
  s = {| rst_runID := runID; rst_revision := 0; rst_route := cloneRoute route; rst_overrides := ∅ |}.
Proof.
  unfold NewRouteState, restoreRouteState. destruct (_ || _); [done|]. cbn [rss_Route rss_Overrides rss_RunID rss_Revision].
  by intros ([] & Hv & [= <-])%result_bind_Ok.
Qed.
Lemma next_revision n : uint64 (uint64 (Z.of_nat n) + 1) = uint64 (Z.of_nat (S n)).
Proof. unfold wrap. rewrite Zplus_mod_idemp_l. f_equal. lia. Qed.
Lemma history_derived (SHA : Sha256) document runID request n s : route_history SHA document runID request n s →
  derived document s ∧ rst_runID s = runID ∧ rst_revision s = uint64 (Z.of_nat n) ∧
  route_Entry (rst_route s) = route_entry document request.
Proof.
  induction 1 as [R context route s Hroute Hnew|R n s s' _ IH Hrestore|n s next _ IH Hpatch].
  - apply frozen_state in Hnew as [(He & _)%validateFrozenRoute_Ok ->]. unfold CreateRoute in Hroute.
    rewrite cloneRoute_id by by eapply route_assessment. split_and!; [|done|done|]; cbn [rst_route].
    + split; [by exists R, request, context|done|]. apply map_Forall_empty.
    + by apply (route_fields _ _ _ _ _ Hroute).
  - destruct IH as (Hs & IH). by rewrite (derived_restored _ _ _ _ Hs Hrestore).
  - destruct IH as (Hs & <- & Hrevision & <-). destruct (patched_keeps _ _ _ _ Hpatch Hs) as (Hn & -> & -> & ->).
    rewrite Hrevision, next_revision. done.
Qed.

(** (C25) However often the route of a run is patched, saved and restored, its nodes are those that
    the enabled transitions of the workflow reach from the frozen entry without passing a terminal,
    and each of them still reaches a terminal.  The overrides kept are exactly departures from what
    the workflow says, and the revision counts the patches. *)
Theorem route_history_closed (SHA : Sha256) document runID request n s
    (Hhistory : route_history SHA document runID request n s) :
  rst_runID s = runID ∧ rst_revision s = uint64 (Z.of_nat n) ∧
  route_Entry (rst_route s) = route_entry document request ∧
  map_Forall (λ id b, ∃ src t, t ∈ transitions_of document src ∧ ID t = id ∧ b ≠ transitionEnabled t)
    (rst_overrides s) ∧
  (∀ x, x ∈ routeNodeSet (rst_route s) ↔
     rtc (forward_step document (route_Terminals (rst_route s)) (rst_overrides s)) (route_Entry (rst_route s)) x) ∧
  (∀ x, x ∈ routeNodeSet (rst_route s) → ∃ t, t ∈ route_Terminals (rst_route s) ∧
     rtc (forward_step document (route_Terminals (rst_route s)) (rst_overrides s)) x t) ∧
  (∀ rt, rt ∈ route_Transitions (rst_route s) ↔
     rt_From rt ∈ routeNodeSet (rst_route s) ∧ rt_To rt ∈ routeNodeSet (rst_route s) ∧
     rt_From rt ∉ route_Terminals (rst_route s) ∧
     ∃ t, t ∈ transitions_of document (rt_From rt) ∧ routeTransitionEnabled (rst_overrides s) t = true ∧
          ID t = rt_ID rt ∧ Target t = rt_To rt).
Proof.
  destruct (history_derived _ _ _ _ _ _ Hhistory) as ([(R & request' & context & Hr) _ Hov] & Hrun & Hrev & Hentry).
  split_and!; [done..| | |].
  - intros x. by eapply elem_of_routeNodeSet.
  - intros x Hx%(elem_of_routeNodeSet _ _ _ _ _ _ _ Hr). by apply route_admissible in Hr as [_ _ _ _ Hclosed _]; apply Hclosed.
  - intros rt. by eapply elem_of_route_transitions.
Qed.

Lemma sets_terminals (ops : list RoutePatchOperation) : (∃ nodes, SetTerminalsOperation nodes ∈ ops) ∨ ∀ nodes, SetTerminalsOperation nodes ∉ ops.
Proof.
  induction ops as [|op ops IH]; [right; intros nodes; apply not_elem_of_nil|].
  destruct IH as [[nodes Hn]|Hnone]; [left; exists nodes; by right|].
  destruct op as [id|id|nodes|]; [| |left; exists nodes; by left|]; right; intros nodes [[=]|Hin]%elem_of_cons;
    by apply (Hnone nodes).
Qed.
(** Who may authorize a proposal. *)
Lemma Authorize_Ok proposal authorization authorized : AuthorizeRoutePatch proposal authorization = Ok authorized →
  arp_proposal authorized = proposal ∧ pp_scopeDigest proposal ≠ "" ∧ actor_ID (arp_actor authorized) ≠ "" ∧
  match authorization with
  | AutomaticRoutePatchAuthorization actor scope policy =>
      pp_mode proposal = RoutePatchAutomatic ∧ actor_Type actor = ActorSystem
  | ApprovedRoutePatchAuthorization approval actor =>
      app_Status approval = ApprovalApproved ∧ app_Class approval = ApprovalWorkflowControl ∧
      app_RunID approval = ps_RunID (rp_Spec (pp_patch proposal)) ∧ app_ScopeDigest approval = pp_scopeDigest proposal ∧
      actor_Type actor ∈ [ActorUser; ActorExternal] ∧ arp_actor authorized = actor ∧
      arp_approvalID authorized = app_ApprovalID approval
  | NilAuthorization => False
  end.
Proof.
  assert (∀ id, blank id = false → id ≠ "") as Hblank by (by intros id Hb ->).
  unfold AuthorizeRoutePatch. case_decide as Hdigest; [done|].
  destruct authorization as [actor scope policy|approval actor|]; [| |done].
  - case_decide; [done|]. destruct (bool_decide _ || _ || _) eqn:Hrefuse; [done|]. intros [= <-]. bool_to_prop.
    cbn [arp_proposal arp_actor]. split_and!; [done|tauto|by apply Hblank|done|by apply dec_stable].
  - destruct (_ || negb _) eqn:Hrefuse; [done|]. destruct (decide _); [done|]. intros [= <-]. bool_to_prop.
    cbn [arp_proposal arp_actor arp_approvalID].
    repeat match goal with H : ¬ (_ ∨ _) |- _ => apply Decidable.not_or in H as [? ?] end.
    split_and!; try done; try (by apply dec_stable); [by apply Hblank|].
    match goal with H : actor_Type _ = _ ∨ _ |- _ => destruct H as [->| ->] end; [left|right; left].
Qed.

(** (C23) An applied patch keeps the work that is under way.  Every activated, succeeded or reached
    node is still in the route; a node with a running attempt stays, stays a terminal or not, and
    keeps exactly its outgoing transitions; and a transition that emitted a token stays unless its
    source was made a terminal. *)
Theorem patch_keeps_work (R R' : GoRange) (SHA : Sha256) document runID request n current patch context policy proposal
    authorization authorized context' execution next record
    (Huniq : transition_ids_unique document)
    (Hcurrent : route_history SHA document runID request n current)
    (Hpropose : @ProposeRoutePatch R SHA document current patch context policy = Ok proposal)
    (Hauthorize : AuthorizeRoutePatch proposal authorization = Ok authorized)
    (Happly : @ApplyAuthorizedRoutePatch R' SHA document current authorized context' execution = Ok (next, record)) :
  (∀ x, x ∈ xs_ActivatedNodes execution ++ xs_SucceededNodes execution ++ xs_ReachedTerminals execution →
     x ∈ routeNodeSet (rst_route next)) ∧
  (∀ x, x ∈ xs_RunningAttempts execution → x ∈ routeNodeSet (rst_route current) →
     x ∈ routeNodeSet (rst_route next) ∧
     (x ∈ route_Terminals (rst_route next) ↔ x ∈ route_Terminals (rst_route current)) ∧
     ∀ rt, rt_From rt = x → rt ∈ route_Transitions (rst_route next) ↔ rt ∈ route_Transitions (rst_route current)) ∧
  (∀ rt, rt ∈ route_Transitions (rst_route current) → rt_ID rt ∈ xs_EmittedTransitions execution →
     rt_From rt ∈ routeNodeSet (rst_route next) → rt_From rt ∉ route_Terminals (rst_route next) →
     rt ∈ route_Transitions (rst_route next)).
Proof.
  destruct (history_derived _ _ _ _ _ _ Hcurrent) as [Hderived _].
  pose proof Hderived as [(R0 & request0 & context0 & Hr0) _ _].
  destruct (Authorize_Ok _ _ _ Hauthorize) as [Heq _]. destruct (Apply_Ok _ _ _ _ _ _ _ Happly) as [p' Ha].
  destruct (Propose_Ok _ _ _ _ _ _ Hpropose) as (st & route & Hp).
  destruct (Propose_Ok _ _ _ _ _ _ (ad_propose _ _ _ _ _ _ _ _ Ha)) as (st' & route' & Hp').
  pose proof (ad_running _ _ _ _ _ _ _ _ Ha) as Hrunning. pose proof (ad_emitted _ _ _ _ _ _ _ _ Ha) as Hemitted.
  rewrite Heq, (pd_patch _ _ _ _ _ _ _ _ Hp) in *.
  destruct (proposed_again _ _ _ _ _ _ _ _ _ _ _ _ _ _ _ _ _ Huniq Hp Hp') as (<- & Hterminals & Hnodes).
  assert (rst_route next = route' ∧ rst_overrides next = pt_overrides st) as [Hnext _].
  { by rewrite (ad_next _ _ _ _ _ _ _ _ Ha), (pd_candidate _ _ _ _ _ _ _ _ Hp'). }
  pose proof (pd_route _ _ _ _ _ _ _ _ Hp') as Hr'.
  pose proof (λ src t, proposed_enabled _ _ _ _ _ _ _ _ _ _ src t Huniq Hp') as Henabled.
  split_and!; [by apply (ad_history _ _ _ _ _ _ _ _ Ha)| |]; rewrite Hnext.
  - intros x Hx Hin. specialize (Hrunning x Hx). rewrite (pd_affected _ _ _ _ _ _ _ _ Hp) in Hrunning.
    apply unaffected in Hrunning as (Hkept & Hset & Hswitched); [|done].
    assert (x ∈ routeNodeSet route') as Hin' by (by apply Hnodes, Hkept).
    assert (x ∈ route_Terminals route' ↔ x ∈ route_Terminals (rst_route current)) as Hterminal.
    { destruct (sets_terminals (ps_Operations (rp_Spec patch))) as [[nodes Hn]|Hnone].
      - rewrite <-Hterminals. destruct Hset as [? ?]; [by exists nodes|]. naive_solver.
      - eapply (proposed_terminals R'); [exact Hp'|by eapply derived_terminals|exact Hnone]. }
    split_and!; [done|done|]. intros rt Hfrom.
    assert (∀ t, t ∈ transitions_of document (rt_From rt) →
      routeTransitionEnabled (pt_overrides st) t = routeTransitionEnabled (rst_overrides current) t) as Hsame.
    { intros t Ht. rewrite (Henabled _ _ Ht). rewrite Hfrom in Ht. by rewrite (Hswitched t Ht). }
    split; intros Hrt.
    + pose proof (proj1 (elem_of_route_transitions _ _ _ _ _ _ _ Hr') Hrt) as (_ & _ & Hnt & _).
      eapply (transition_stays document R' R0); [exact Hr'|exact Hr0|done|by rewrite Hfrom|rewrite Hfrom in *; by rewrite <-Hterminal|].
      intros t Ht _. by rewrite Hsame.
    + pose proof (proj1 (elem_of_route_transitions _ _ _ _ _ _ _ Hr0) Hrt) as (_ & _ & Hnt & _).
      eapply (transition_stays document R0 R'); [exact Hr0|exact Hr'|done|by rewrite Hfrom|rewrite Hfrom in *; by rewrite Hterminal|].
      intros t Ht _. by rewrite Hsame.
  - intros rt Hrt Hid Hfrom Hnt. eapply (transition_stays document R0 R'); try done. intros t Ht Htid Ho.
    rewrite (Henabled _ _ Ht). destruct (switched _ _) as [[|]|] eqn:Hs; [done| |done].
    apply switched_disabled in Hs. rewrite Htid in Hs. by destruct (Hemitted _ Hid).
Qed.

(** * Approval of what goes further *)
(** No two different ones of these texts have the same digest. *)
Definition collision_free `{!Sha256} (texts : list string) : Prop :=
  ∀ a b, a ∈ texts → b ∈ texts → sha256_hex a = sha256_hex b → a = b.
Lemma scope_text_modes patch digest :
  scope_text patch RoutePatchAutomatic digest ≠ scope_text patch RoutePatchRequireApproval digest.
Proof.
  assert (encode_string RoutePatchAutomatic = quote_mark +:+ "automatic" +:+ quote_mark) as Ha by reflexivity.
  assert (encode_string RoutePatchRequireApproval = quote_mark +:+ "require_approval" +:+ quote_mark) as Hr by reflexivity.
  intros H. unfold scope_text, encode_struct in H. apply (inj (String.append "{")) in H.
  cbn [omap list_omap fmap option_fmap option_map GoStrings.Join] in H. rewrite !str_app_assoc, Ha, Hr in H.
  repeat apply (inj (String.append _)) in H. discriminate H.
Qed.
Lemma elem_of_setDifference (R : GoRange) left right x : x ∈ setDifference left right ↔ x ∈ left ∧ x ∉ right.
Proof. unfold setDifference. rewrite elem_of_sort_strings, list_elem_of_filter, elem_of_range_set. tauto. Qed.
Lemma expands (R : GoRange) current candidate x t :
  x ∈ routeNodeSet candidate → x ∉ routeNodeSet current →
  t ∈ route_Terminals candidate → t ∉ route_Terminals current →
  ExpandsTerminalBoundary (routePatchImpact current candidate) = true.
Proof.
  intros Hx Hx' Ht Ht'. unfold ExpandsTerminalBoundary, routePatchImpact. cbn [im_AddedNodes im_ProposedTerminals im_PreviousTerminals].
  case_decide as Hnil.
  - apply nil_length_inv in Hnil. exfalso. apply (not_elem_of_nil x). rewrite <-Hnil. by apply elem_of_setDifference.
  - apply existsb_exists. exists t. rewrite <-list_elem_of_In. split; [done|]. apply bool_decide_eq_true.
    unfold identifierSet. by rewrite elem_of_list_to_set.
Qed.

(** (C24) A patch that takes a run past its terminals is applied only with an approval: when the new
    route has a node and a terminal the current one has not, the patch was authorized by a user or
    an external system with a granted workflow-control approval of this run for exactly this scope,
    and the record names both. *)
Theorem expansion_needs_approval (R R' : GoRange) (SHA : Sha256) document document' state patch context policy proposal
    authorization authorized current context' execution next record x t
    (Hcollision : collision_free [scope_text patch RoutePatchAutomatic (pp_validationDigest proposal);
                                  scope_text patch RoutePatchRequireApproval (pp_validationDigest proposal)])
    (Hpropose : @ProposeRoutePatch R SHA document state patch context policy = Ok proposal)
    (Hauthorize : AuthorizeRoutePatch proposal authorization = Ok authorized)
    (Happly : @ApplyAuthorizedRoutePatch R' SHA document' current authorized context' execution = Ok (next, record))
    (Hnode : x ∈ routeNodeSet (rst_route next) ∧ x ∉ routeNodeSet (rst_route current))
    (Hterminal : t ∈ route_Terminals (rst_route next) ∧ t ∉ route_Terminals (rst_route current)) :
  ∃ approval actor, authorization = ApprovedRoutePatchAuthorization approval actor ∧
    app_Status approval = ApprovalApproved ∧ app_Class approval = ApprovalWorkflowControl ∧
    app_RunID approval = rst_runID current ∧
    app_ScopeDigest approval =
      sha256_hex (scope_text patch RoutePatchRequireApproval (pp_validationDigest proposal)) ∧
    actor_Type actor ∈ [ActorUser; ActorExternal] ∧
    ap_Actor record = actor ∧ ap_ApprovalID record = app_ApprovalID approval.
Proof.
  destruct (Authorize_Ok _ _ _ Hauthorize) as (Heq & _ & _ & Hwho). destruct (Apply_Ok _ _ _ _ _ _ _ Happly) as [p' Ha].
  destruct (Propose_Ok _ _ _ _ _ _ Hpropose) as (st & route & Hp).
  destruct (Propose_Ok _ _ _ _ _ _ (ad_propose _ _ _ _ _ _ _ _ Ha)) as (st' & route' & Hp').
  pose proof (ad_scope _ _ _ _ _ _ _ _ Ha) as Hscope. pose proof (ad_validation _ _ _ _ _ _ _ _ Ha) as Hvalidation.
  rewrite Heq, (pd_patch _ _ _ _ _ _ _ _ Hp) in *.
  rewrite (pd_scope _ _ _ _ _ _ _ _ Hp), (pd_scope _ _ _ _ _ _ _ _ Hp'), Hvalidation in Hscope.
  assert (pp_mode p' = RoutePatchRequireApproval) as Hmode'.
  { rewrite (ad_next _ _ _ _ _ _ _ _ Ha), (pd_candidate _ _ _ _ _ _ _ _ Hp') in Hnode, Hterminal.
    rewrite (pd_mode _ _ _ _ _ _ _ _ Hp'), (expands R' _ _ x t); [done|apply Hnode|apply Hnode|apply Hterminal..]. }
  assert (pp_mode proposal = RoutePatchRequireApproval) as Hmode.
  { destruct (proposed_mode _ _ _ _ _ _ _ _ Hp) as [Hm|]; [exfalso|done]. rewrite Hm, Hmode' in Hscope.
    apply (scope_text_modes patch (pp_validationDigest proposal)). symmetry. apply Hcollision; [right; left|left|done]. }
  destruct authorization as [actor scope policy'|approval actor|]; [destruct Hwho as [Hm _]; rewrite Hmode in Hm; discriminate Hm| |done].
  destruct Hwho as (Hstatus & Hclass & Hrun & Happroved & Htype & Hactor & Hid). exists approval, actor.
  rewrite (pd_run _ _ _ _ _ _ _ _ Hp') in Hrun.
  rewrite (ad_actor _ _ _ _ _ _ _ _ Ha), (ad_approval _ _ _ _ _ _ _ _ Ha).
  rewrite (pd_scope _ _ _ _ _ _ _ _ Hp), Hmode in Happroved. split_and!; done.
Qed.

Lemma history_steps (SHA : Sha256) document runID request k n s later : route_history SHA document runID request n s →
  nsteps (patched SHA document) k s later → route_history SHA document runID request (n + k) later.
Proof.
  intros Hs Hk. revert n Hs. induction Hk as [s|k s s' later Hstep _ IH]; intros n Hs; [by rewrite Nat.add_0_r|].
  rewrite Nat.add_succ_r. apply (IH (S n)). by eapply history_patched.
Qed.
Lemma revisions_differ n k : (Z.of_nat k + 1 < 2 ^ 64)%Z → uint64 (Z.of_nat (S (n + k))) ≠ uint64 (Z.of_nat n).
Proof.
  unfold wrap. intros Hk Heq. pose proof (Z.div_mod (Z.of_nat n) (2 ^ 64) ltac:(lia)).
  pose proof (Z.div_mod (Z.of_nat (S (n + k))) (2 ^ 64) ltac:(lia)) as Hd. rewrite Heq in Hd. nia.
Qed.

(** (C26) An applied patch is used up: whatever patches follow, fewer than 2^64, applying it again is
    a conflict. *)
Theorem patch_applies_once (R R' : GoRange) (SHA : Sha256) document runID request n s authorized context context'
    execution execution' next record k later
    (Hhistory : route_history SHA document runID request n s)
    (Happly : @ApplyAuthorizedRoutePatch R SHA document s authorized context execution = Ok (next, record))
    (Hlater : nsteps (patched SHA document) k next later) (Hfew : (Z.of_nat k + 1 < 2 ^ 64)%Z) :
  @ApplyAuthorizedRoutePatch R' SHA document later authorized context' execution' =
  patchError RoutePatchConflict "route changed after the patch was proposed" "/spec/expectedRouteRevision".
Proof.
  assert (route_history SHA document runID request (S (n + k)) later) as Hl.
  { replace (S (n + k)) with (S n + k) by lia. eapply history_steps; [|exact Hlater]. eapply history_patched; [exact Hhistory|].
    by exists R, authorized, context, execution, record. }
  apply history_derived in Hl as (_ & _ & Hl & _). apply history_derived in Hhistory as (_ & _ & Hs & _).
  destruct (Apply_Ok _ _ _ _ _ _ _ Happly) as [p Ha].
  destruct (Propose_Ok _ _ _ _ _ _ (ad_propose _ _ _ _ _ _ _ _ Ha)) as (st & route & Hp).
  pose proof (pd_revision _ _ _ _ _ _ _ _ Hp) as Hrevision. unfold ApplyAuthorizedRoutePatch in *.
  destruct (decide (_ ∨ actor_ID _ = "")); [done|]. apply decide_True. right. left.
  rewrite Hl, Hrevision, Hs. by apply revisions_differ.
Qed.

(** * Examples *)
Definition ex_patchable : Document := {|
  doc_APIVersion := ""; doc_Kind := ""; doc_Metadata := doc_Metadata ex_document;
  doc_Spec := {|
    spec_Inputs := ∅; spec_Profiles := ∅;
    spec_RouteDefaults := {| rd_Entry := "begin"; rd_Terminals := ["end"] |};
    spec_Nodes := list_to_map [
      ("begin", ex_node (ex_fields true false ∅ None [ex_to "t_begin" "start"]));
      ("start", ex_node (ex_fields false true ∅ None [ex_to "direct" "end"; ex_off "to_review" "review"]));
      ("review", ex_node (ex_fields false false ∅ None [ex_to "review_to_end" "end"]));
      ("end", ex_node (ex_fields false true ∅ None [ex_to "t_ship" "ship"]));
      ("ship", ex_node (ex_fields false true ∅ None []))] |} |}.
Lemma ex_patchable_unique : transition_ids_unique ex_patchable.
Proof.
  assert (∀ src t, t ∈ transitions_of ex_patchable src →
    (src, t) ∈ [("begin", ex_to "t_begin" "start"); ("start", ex_to "direct" "end"); ("start", ex_off "to_review" "review");
                ("review", ex_to "review_to_end" "end"); ("end", ex_to "t_ship" "ship")]) as Hall.
  { intros src t. unfold transitions_of. destruct (nodes_of ex_patchable !! src) as [node|] eqn:Hn; [|by intros ?%elem_of_nil].
    apply elem_of_list_to_map_2 in Hn. unfold nodes_of in Hn. cbn in Hn.
    rewrite !elem_of_cons in Hn. destruct Hn as [[= -> ->]|[[= -> ->]|[[= -> ->]|[[= -> ->]|[[= -> ->]|Hn]]]]];
      [..|by apply elem_of_nil in Hn]; cbn; rewrite ?elem_of_cons, ?elem_of_nil; naive_solver. }
  intros src src' t t' Ht%Hall Ht'%Hall Hid. rewrite !elem_of_cons, elem_of_nil in Ht, Ht'.
  repeat match goal with H : _ ∨ _ |- _ => destruct H as [H|H] | H : False |- _ => destruct H | H : (_, _) = _ |- _ => injection H as -> -> end;
    first [done|discriminate Hid].
Qed.
Definition ex_sha : Sha256 := {| sha256_hex := λ s, s |}.
Definition ex_no_context : RouteContext := {| rc_RunInputs := ∅; rc_AcceptedOutputs := ∅; rc_RequiredNodes := [] |}.
Definition ex_patch_text : string := quoted "{'apiVersion':'darkstar.local/v1alpha1','kind':'RoutePatch',
  'metadata':{'id':'patch_1'},'spec':{'runId':'run_1','expectedRouteRevision':0,'reason':'Review the interface.',
  'operations':[{'op':'disableTransition','transitionId':'direct'},{'op':'enableTransition','transitionId':'to_review'},
                {'op':'setTerminals','nodes':['ship']}]}}".
Definition ex_user : Actor := {| actor_Type := ActorUser; actor_ID := "operator_1" |}.
Definition ex_granted (proposal : RoutePatchProposal) : RoutePatchAuthorization :=
  ApprovedRoutePatchAuthorization {|
    app_ApprovalID := "approval_1"; app_RunID := "run_1"; app_Class := ApprovalWorkflowControl;
    app_Status := ApprovalApproved; app_CheckpointID := ""; app_VisitID := ""; app_NodeID := ""; app_AttemptID := "";
    app_CheckpointRevision := 0; app_CandidateArtifactID := ""; app_CandidateArtifactVersion := 0;
    app_CandidateDigest := ""; app_CheckpointMode := ""; app_MaxRevisions := None;
    app_ScopeDigest := pp_scopeDigest proposal; app_PolicyDigest := pp_policyDigest proposal; app_Decision := None;
    app_ResourceVersion := 1; app_LastGlobalPosition := 1; app_CreatedAt := 0; app_UpdatedAt := 0 |} ex_user.
Definition ex_policy : RoutePatchPolicy := {| rpp_Mode := RoutePatchAutomatic; rpp_PolicyDigest := ex_digest |}.
Definition ex_execution (running emitted activated : list Identifier) : RoutePatchExecutionState :=
  {| xs_RunningAttempts := running; xs_ActivatedNodes := activated; xs_SucceededNodes := []; xs_ReachedTerminals := [];
     xs_EmittedTransitions := emitted |}.
(** Freezing the default route, and one patch from its text to its application. *)
Definition ex_frozen : fresult RouteState :=
  match @CreateRoute range_canonical ex_patchable ex_request ex_no_context with
  | Ok route => NewRouteState "run_1" route
  | Err _ => plain ""
  end.
Definition ok_or {E A} (other : A) (r : result E A) : A := match r with Ok a => a | Err _ => other end.
Definition ex_current : RouteState :=
  ok_or {| rst_runID := ""; rst_revision := 0; rst_route := ex_route; rst_overrides := ∅ |} ex_frozen.
Definition ex_patch_of (operations : list RoutePatchOperation) : RoutePatch := {|
  rp_APIVersion := "darkstar.local/v1alpha1"; rp_Kind := "RoutePatch"; rp_ID := "patch_1";
  rp_Spec := {| ps_RunID := "run_1"; ps_ExpectedRouteRevision := 0; ps_Reason := "Review the interface.";
                ps_ApprovalID := ""; ps_Operations := operations |} |}.
Definition ex_patch : RoutePatch :=
  ex_patch_of [DisableTransitionOperation "direct"; EnableTransitionOperation "to_review"; SetTerminalsOperation ["ship"]].
Example ex_patch_decoded : UnmarshalRoutePatch ex_patch_text = Ok ex_patch.
Proof. vm_compute. reflexivity. Qed.
Definition ex_propose (patch : RoutePatch) : presult RoutePatchProposal :=
  @ProposeRoutePatch range_reversed ex_sha ex_patchable ex_current patch ex_no_context ex_policy.
Definition ex_proposal (patch : RoutePatch) : RoutePatchProposal :=
  ok_or {| pp_patch := patch; pp_candidate := ex_current;
           pp_impact := @routePatchImpact range_canonical ex_route ex_route; pp_affectedNodes := [];
           pp_mode := ""; pp_policyDigest := ""; pp_scopeDigest := ""; pp_validationDigest := "";
           pp_baseTopologyDigest := "" |} (ex_propose patch).
Definition ex_authorized (patch : RoutePatch) : AuthorizedRoutePatch :=
  ok_or {| arp_proposal := ex_proposal patch; arp_actor := ex_user; arp_approvalID := "" |}
    (AuthorizeRoutePatch (ex_proposal patch) (ex_granted (ex_proposal patch))).
Definition ex_apply (patch : RoutePatch) (execution : RoutePatchExecutionState) : presult (RouteState * AppliedRoutePatch) :=
  @ApplyAuthorizedRoutePatch range_canonical ex_sha ex_patchable ex_current (ex_authorized patch) ex_no_context execution.
Lemma ex_history : route_history ex_sha ex_patchable "run_1" ex_request 0 ex_current.
Proof.
  destruct (@CreateRoute range_canonical ex_patchable ex_request ex_no_context) as [route|e] eqn:Hroute.
  - eapply (history_frozen _ _ _ _ range_canonical); [exact Hroute|]. transitivity ex_frozen; [|vm_compute; reflexivity].
    unfold ex_frozen. by rewrite Hroute.
  - exfalso. assert (is_ok (@CreateRoute range_canonical ex_patchable ex_request ex_no_context) = true) as Hok by (vm_compute; reflexivity).
    by rewrite Hroute in Hok.
Qed.
Lemma ex_proposed : ex_propose ex_patch = Ok (ex_proposal ex_patch).
Proof. vm_compute. reflexivity. Qed.
Lemma ex_allowed : AuthorizeRoutePatch (ex_proposal ex_patch) (ex_granted (ex_proposal ex_patch)) = Ok (ex_authorized ex_patch).
Proof. vm_compute. reflexivity. Qed.
Definition ex_under_way : RoutePatchExecutionState := ex_execution ["begin"] ["t_begin"] ["begin"; "start"].
Lemma ex_applied : ∃ next record, ex_apply ex_patch ex_under_way = Ok (next, record) ∧
  rn_ID <$> route_Nodes (rst_route next) = ["begin"; "end"; "review"; "ship"; "start"] ∧
  rt_ID <$> route_Transitions (rst_route next) = ["t_begin"; "t_ship"; "review_to_end"; "to_review"] ∧
  route_Terminals (rst_route next) = ["ship"].
Proof.
  assert (match ex_apply ex_patch ex_under_way with
          | Ok (next, _) => Some (rn_ID <$> route_Nodes (rst_route next), rt_ID <$> route_Transitions (rst_route next),
                                  route_Terminals (rst_route next))
          | Err _ => None
          end =
    Some (["begin"; "end"; "review"; "ship"; "start"], ["t_begin"; "t_ship"; "review_to_end"; "to_review"], ["ship"])) as Happly
    by (vm_compute; reflexivity).
  destruct (ex_apply ex_patch ex_under_way) as [[next record]|e]; [|discriminate Happly].
  injection Happly as H1 H2 H3. by exists next, record.
Qed.

Lemma route_history_closed_witness : ∃ next, route_history ex_sha ex_patchable "run_1" ex_request 1 next ∧
  rst_revision next = 1%Z ∧ "review" ∈ routeNodeSet (rst_route next).
Proof.
  destruct ex_applied as (next & record & Happly & Hnodes & _). exists next.
  assert (route_history ex_sha ex_patchable "run_1" ex_request 1 next) as Hhistory.
  { eapply history_patched; [exact ex_history|]. by exists range_canonical, (ex_authorized ex_patch), ex_no_context, ex_under_way, record. }
  split; [exact Hhistory|]. destruct (route_history_closed _ _ _ _ _ _ Hhistory) as (_ & Hrevision & _).
  split; [by rewrite Hrevision|]. unfold routeNodeSet. rewrite Hnodes. by apply (bool_decide_eq_true_1 _).
Defined.
Lemma patch_keeps_work_witness : ∃ next record, ex_apply ex_patch ex_under_way = Ok (next, record) ∧
  "start" ∈ routeNodeSet (rst_route next).
Proof.
  destruct ex_applied as (next & record & Happly & _). exists next, record. split; [exact Happly|].
  destruct (patch_keeps_work range_reversed range_canonical ex_sha ex_patchable "run_1" ex_request 0 ex_current ex_patch
    ex_no_context ex_policy (ex_proposal ex_patch) (ex_granted (ex_proposal ex_patch)) (ex_authorized ex_patch)
    ex_no_context ex_under_way next record ex_patchable_unique ex_history ex_proposed ex_allowed Happly) as [Hactive _].
  apply Hactive. right. left.
Defined.
Lemma ex_collision_free texts : @collision_free ex_sha texts.
Proof. by intros a b _ _. Qed.
Lemma expansion_needs_approval_witness : ∃ approval actor,
  ex_granted (ex_proposal ex_patch) = ApprovedRoutePatchAuthorization approval actor ∧
  app_Status approval = ApprovalApproved.
Proof.
  destruct ex_applied as (next & record & Happly & Hnodes & _ & Hterminals).
  destruct (expansion_needs_approval range_reversed range_canonical ex_sha ex_patchable ex_patchable ex_current ex_patch
    ex_no_context ex_policy (ex_proposal ex_patch) (ex_granted (ex_proposal ex_patch)) (ex_authorized ex_patch)
    ex_current ex_no_context ex_under_way next record "ship" "ship"
    (ex_collision_free _) ex_proposed ex_allowed Happly) as (approval & actor & Hwho & Hstatus & _).
  - unfold routeNodeSet. rewrite Hnodes. split; apply (bool_decide_eq_true_1 _); vm_compute; reflexivity.
  - rewrite Hterminals. split; apply (bool_decide_eq_true_1 _); vm_compute; reflexivity.
  - exists approval, actor. split; [exact Hwho|exact Hstatus].
Defined.
Lemma patch_applies_once_witness : ∃ next record, ex_apply ex_patch ex_under_way = Ok (next, record) ∧
  @ApplyAuthorizedRoutePatch range_reversed ex_sha ex_patchable next (ex_authorized ex_patch) ex_no_context ex_under_way =
  patchError RoutePatchConflict "route changed after the patch was proposed" "/spec/expectedRouteRevision".
Proof.
  destruct ex_applied as (next & record & Happly & _). exists next, record. split; [exact Happly|].
  refine (patch_applies_once range_canonical range_reversed ex_sha ex_patchable "run_1" ex_request 0 ex_current
    (ex_authorized ex_patch) ex_no_context ex_no_context ex_under_way ex_under_way next record 0 next ex_history Happly _ _);
    [apply nsteps_O|lia].
Defined.

(** Only switching a transition off asks whether it emitted a token.  Making its source a terminal
    takes it out of the route as well, and then the frame that holds the token cannot be restored
    over the new route. *)
Definition ex_cut : RoutePatch := ex_patch_of [SetTerminalsOperation ["start"]].
Definition ex_token_snapshot (route : Route) : FrameSnapshot := {|
  fs_ID := "frame"; fs_Workflow := workflowIdentity ex_definition; fs_Origin := RootFrameOrigin "run_1";
  fs_Route := route; fs_Inputs := ∅; fs_Ancestry := [];
  fs_Tokens := [{| tok_Key := {| tk_SourceVisitID := "visit_2"; tk_TransitionID := "direct"; tk_JoinEpoch := 1 |};
                   tok_Source := "start"; tok_Target := "end"; tok_Kind := TransitionTokenNormal;
                   tok_Traversal := 0; tok_MaxTraversals := 0 |}] |}.
Example emitted_transition_dropped :
  match ex_apply ex_cut (ex_execution [] ["t_begin"; "direct"] ["begin"; "start"]) with
  | Ok (next, _) =>
      (rt_ID <$> route_Transitions (rst_route ex_current)) = ["t_begin"; "direct"] ∧
      (rt_ID <$> route_Transitions (rst_route next)) = ["t_begin"] ∧
      is_ok (@RestoreFrame range_canonical (ex_token_snapshot (rst_route ex_current))) = true ∧
      @RestoreFrame range_canonical (ex_token_snapshot (rst_route next)) =
        plain "execution frame snapshot token is outside its frozen route"
  | Err _ => False
  end.
Proof. vm_compute. split_and!; reflexivity. Qed.
