(* ===== verification/DocumentSafety.v ===== *)
(** Whatever [Decode] accepts is a well-formed document of the version it declares, one that the
    validator handles without a panic and whose runs are bounded. *)
From S2P Require Import Prelude GoStrings GoUnicode GoJson JsonFacts GoFloat GoEncode JsonText JsonRoundTrip JsonCut GoCompact GoDecode GoClosed RawTexts ClosedFacts Schema Identity NodeJson Route Deliverable WireDecode NodeDecode DocumentDecode DocumentTypes DecodeSafety NodeChecks Validator Frame StateStore RunContext Scheduler Execution.
From stdpp Require Import options.

Ltac checked :=
  repeat match goal with
  | H : check_identifier _ = Ok _ |- _ => apply check_identifier_ok in H
  | H : validateUniqueStrings _ = Ok _ |- _ => apply validateUniqueStrings_ok in H
  | H : validateIdentifierList _ true = Ok _ |- _ => apply identifier_list_ok in H; destruct H
  end.

(** * Readiness and definitions *)
Section read.
Context (bound : nat) (fields : list (string * GoType)) (w : GoValue).
Hypothesis Hw : has_type bound (GoStruct fields) w.
(** The elements of a slice of structs. *)
Lemma read_elements {A} (read : GoValue → A) (P : A → Prop) name rest :
  field_type fields name = Some (GoSlice (GoStruct rest)) → (∀ v, has_type bound (GoStruct rest) v → P (read v)) →
  Forall P (read <$> elements_of w name).
Proof using Hw.
  intros Hf Hread. apply Forall_fmap. eapply Forall_impl; [by eapply wire_slice|]. exact Hread.
Qed.
End read.
Lemma Forall_both {A} (P Q R : A → Prop) l : Forall P l → Forall Q l → (∀ x, P x → Q x → R x) → Forall R l.
Proof. intros HP HQ HR. rewrite Forall_forall in *. eauto. Qed.

Definition described (description : string) : Prop := blank description = false.
Lemma evidence_step_ok seen i e seen' : evidence_step seen i e = Ok seen' →
  (identifier (er_Role e) ∧ described (er_Description e)) ∧ er_Role e ∉ seen ∧ seen' = {[er_Role e]} ∪ seen.
Proof. unfold evidence_step. intros Hs. decoded. bool_to_prop. apply unique_step_ok in Hs. by split. Qed.
Lemma policy_step_ok seen i g seen' : policy_step seen i g = Ok seen' →
  (identifier (rpg_Policy g) ∧ rpg_Enforcement g ∈ ["advisory"; "blocking"; "external"] ∧ described (rpg_Description g)) ∧
  rpg_Policy g ∉ seen ∧ seen' = {[rpg_Policy g]} ∪ seen.
Proof.
  unfold policy_step. intros Hs. case_match; [done|]. case_decide as He; [done|]. bool_to_prop.
  apply unique_step_ok in Hs. split; [|done]. by split_and!.
Qed.
Lemma remedy_step_ok seen i r seen' : remedy_step seen i r = Ok seen' →
  (identifier (rr_Code r) ∧ identifier (rr_Target r) ∧ rr_Action r ∈ remedy_actions ∧ described (rr_Description r)) ∧
  rr_Code r ∉ seen ∧ seen' = {[rr_Code r]} ∪ seen.
Proof.
  unfold remedy_step. intros Hs. apply result_bind_Ok in Hs as ([] & Hc & Hs). apply result_bind_Ok in Hs as ([] & Ht & Hs).
  rewrite within_Ok in Hc, Ht. apply check_identifier_ok in Hc, Ht. case_decide as Ha; [done|]. case_match; [done|].
  apply unique_step_ok in Hs. split; [|done]. by split_and!.
Qed.
Lemma decodeReadiness_ok data c : decodeReadiness data = Ok (Some c) → readiness_ok c.
Proof.
  unfold decodeReadiness. case_match; [done|]. intros Hd. apply result_bind_Ok in Hd as (w & Hw & Hd). cbv zeta in Hd.
  decoded. apply (unique_loop _ _ _ _ evidence_step_ok) in Ha as (He & Hend & _).
  apply (unique_loop _ _ _ _ policy_step_ok) in Ha0 as (Hg & Hgnd & _).
  apply (unique_loop _ _ _ _ remedy_step_ok) in Ha2 as (Hr & Hrnd & _).
  apply validateUniqueStrings_ok in Ha1. split.
  - split; [done|]. eapply Forall_both; [exact He|eapply (read_elements _ _ _ Htyped _ (λ e, utf8 (er_Description e)));
      [reflexivity|intros v Hv; by eapply wire_string]|]. intros e [??] ?. by repeat split.
  - split; [done|]. eapply Forall_both; [exact Hg|eapply (read_elements _ _ _ Htyped _ (λ e, utf8 (rpg_Description e)));
      [reflexivity|intros v Hv; by eapply wire_string]|]. intros e (?&?&?) ?. by repeat split.
  - split; [done|]. by eapply wire_strings.
  - split; [done|]. eapply Forall_both; [exact Hr|eapply (read_elements _ _ _ Htyped _ (λ e, utf8 (rr_Description e)));
      [reflexivity|intros v Hv; by eapply wire_string]|]. intros e (?&?&?&?) ?. by repeat split.
Qed.

Lemma decode_definition_ok data d : decodeResolvedNodeDefinitionRef data = Ok (Some d) → definition_ok d.
Proof.
  unfold decodeResolvedNodeDefinitionRef. case_match; [done|]. intros Hd. decoded. bool_to_prop.
  split; simpl; [|done]. eexists. split; [done|]. case_decide; [by decoded|].
  case_decide; [decoded; split; [by eapply worded_string|done]|].
  case_decide; [decoded; split; [by eapply worded_string|done]|done].
Qed.

(** * Executors *)
Lemma decodeReasoning_ok data common apiVersion e : decodeReasoning data = Ok e → executor_ok apiVersion (ReasoningNode common e).
Proof.
  unfold decodeReasoning. intros Hd. decoded. simpl in *. checked.
  split_and!; try done; [by eapply worded_string|by eapply wire_string|by eapply wire_strings..].
Qed.
Lemma decodeGate_ok data common apiVersion e : decodeGate data = Ok e → executor_ok apiVersion (GateNode common e).
Proof.
  unfold decodeGate. intros Hd. decoded. bool_to_prop. split; [by eapply worded_string|by eapply decodePredicate_ok].
Qed.
Lemma decodeCommand_ok data common apiVersion e : decodeCommand data = Ok e → executor_ok apiVersion (CommandNode common e).
Proof.
  unfold decodeCommand. intros Hd. decoded. simpl in *. split_and!; [done|by eapply wire_strings|by eapply wire_string|].
  intros seconds Hs. pose proof Hs as (v & Hv & ->)%fmap_Some.
  eapply (wire_pointer _ _ _ Htyped "timeoutSeconds") in Hv; [|reflexivity]. inversion Hv as [| |? seconds Hn| | | | | | | | |]; subst.
  change (uint_of (UintValue seconds)) with seconds in Hs |- *. split; [|lia].
  destruct (decide (seconds = 0%Z)) as [->|]; [done|lia].
Qed.
Lemma decodePointExecution_ok data common apiVersion e : decodePointExecution data = Ok e →
  executor_ok apiVersion (PointExecutionNode common e).
Proof.
  unfold decodePointExecution. intros Hd. decoded. simpl in *.
  checked. bool_to_prop.
  match goal with H : forallb _ _ = true |- _ => rewrite forallb_Forall in H; rename H into Htags end.
  split; simpl; [done| | |].
  - unfold point_approvals. destruct (decide (field_string a "approval" ∈ ["none"; "every"; "combined"])) as [Hmode|_].
    + split; [set_solver|]. decoded. split; [done|]. simpl. intros Hrisk. rewrite Hrisk in Hmode.
      repeat (apply elem_of_cons in Hmode as [?|Hmode]; [done|]). by apply elem_of_nil in Hmode.
    + case_decide as Hrisk; [|done]. decoded. rewrite Hrisk. split; [set_solver|done].
  - split; [done|]. eapply Forall_both; [exact Htags|by eapply wire_strings|].
    intros tag Htag Hutf. cbn beta in Htag. bool_to_prop. by repeat split.
  - split; apply dec_stable; assumption.
Qed.
Lemma decodeApproval_ok data common apiVersion e : apiVersion ∈ apiVersions → decodeApproval data apiVersion = Ok e →
  executor_ok apiVersion (ApprovalNode common e).
Proof.
  intros Hversion. unfold decodeApproval. intros Hd. decoded. case_decide as Hactor.
  - decoded. split; [by eapply worded_string|]. case_decide as Hv.
    + rewrite decide_False; [by decoded; checked|]. intros ->.
      repeat (apply elem_of_cons in Hv as [?|Hv]; [done|]). by apply elem_of_nil in Hv.
    + rewrite decide_True; [decoded; by apply dec_stable|]. unfold apiVersions in Hversion.
      apply elem_of_cons in Hversion as [?|Hversion]; [done|by destruct Hv].
  - decoded. split; [by eapply worded_string|done].
Qed.
Lemma decodeWorkspacePrepare_ok data common apiVersion e : decodeWorkspacePrepare data = Ok e →
  executor_ok apiVersion (WorkspacePrepareNode common e).
Proof.
  unfold decodeWorkspacePrepare. intros Hd. apply result_bind_Ok in Hd as (w & Hw & Hd). cbv zeta in Hd.
  apply result_bind_Ok in Hd as (mode & _ & Hd). apply result_bind_Ok in Hd as (plan & Hplan & Hd). decoded.
  split; [by eapply wire_string|]. exists plan. split; [done|].
  case_decide; [decoded; done|]. case_decide; [|done]. decoded. bool_to_prop. split; by eapply worded_string.
Qed.
Lemma branch_loop l : ∀ i seen seen', foldM_i_from i branch_step seen l = Ok seen' →
  Forall (λ b, identifier (rb_Name b) ∧ identifier (rb_Transition b)) l ∧
  NoDup (rb_Name <$> l) ∧ NoDup (rb_Transition <$> l) ∧
  ∀ b, b ∈ l → rb_Name b ∉ seen.1 ∧ rb_Transition b ∉ seen.2.
Proof.
  induction l as [|b l IH]; intros i seen seen'; simpl.
  { intros _. split_and!; [constructor..|]. by intros b ?%elem_of_nil. }
  intros (seen1 & Hb & Hl)%result_bind_Ok. unfold branch_step in Hb. case_match eqn:Hids; [done|].
  case_decide as Hseen; [done|]. injection Hb as <-. bool_to_prop. apply IH in Hl as (Hall & Hn & Ht & Hnew). simpl in Hnew.
  split_and!; [by constructor|..].
  - constructor; [|done]. intros (c & Heq & Hc)%list_elem_of_fmap. destruct (Hnew c Hc) as [Hno _]. set_solver.
  - constructor; [|done]. intros (c & Heq & Hc)%list_elem_of_fmap. destruct (Hnew c Hc) as [_ Hno]. set_solver.
  - intros c [->|Hc]%elem_of_cons; [by split; [intros ?|intros ?]; apply Hseen; [left|right]|].
    destruct (Hnew c Hc). set_solver.
Qed.

Section document.
Context `{!GoRange}.

Lemma decodeRouting_ok data common apiVersion e : decodeRouting data = Ok e → executor_ok apiVersion (RoutingNode common e).
Proof.
  unfold decodeRouting. intros Hd. apply result_bind_Ok in Hd as (w & Hw & Hd). cbv zeta in Hd.
  case_match eqn:Hreq; [done|]. bool_to_prop. apply result_bind_Ok in Hd as (seen & Hb & Hd).
  apply result_bind_Ok in Hd as ([] & Ho & [= <-]). simpl in *. apply branch_loop in Hb as (Hall & Hn & Ht & _).
  apply strictDecode_typed in Hw; [|vm_compute; reflexivity].
  split; simpl; [by eapply worded_string|done|]. apply forM_Ok in Ho. rewrite range_perm in Ho.
  eapply Forall_impl; [exact Ho|]. intros x Hx. unfold check_output, identifier in *. by destruct (identifierPattern x.2).
Qed.
Lemma string_map_lookup bound v m name s : has_type bound (GoMap GoString) v → string_map (Some v) = Some m →
  m !! name = Some s → utf8 s.
Proof.
  intros Hv. unfold string_map. destruct (go_map (Some v)) as [g|] eqn:Hg; [|done]. intros [= <-].
  rewrite lookup_fmap. intros (x & Hx & ->)%fmap_Some. destruct (map_entries_lookup _ _ _ _ _ _ Hv Hg Hx) as [_ Ht].
  by eapply string_utf8.
Qed.
Lemma decodeSubworkflowCall_ok data common apiVersion call : decodeSubworkflowCall data = Ok call →
  executor_ok apiVersion (SubworkflowNode common call).
Proof.
  unfold decodeSubworkflowCall. intros Hd. apply result_bind_Ok in Hd as (w & Hw & Hd).
  apply strictDecode_typed in Hw; [|vm_compute; reflexivity].
  pose proof (wire_field _ _ _ Hw "workflow" _ eq_refl) as Hworkflow. cbv zeta in Hd.
  set (workflow := default _ _) in *. decoded. checked.
  destruct (string_map (field_value "inputs" w)) as [inputs|] eqn:Hin; [|done].
  destruct (string_map (field_value "outputs" w)) as [outputs|] eqn:Hout; [|done]. decoded. bool_to_prop. simpl in *.
  match goal with H : forM_ call_input _ = _ |- _ => apply forM_Ok in H; rename H into Hinputs end.
  match goal with H : forM_ call_output _ = _ |- _ => apply forM_Ok in H; rename H into Houtputs end.
  rewrite Forall_forall in Hinputs, Houtputs. split; simpl; try done.
  - split_and!; [by eapply worded_string..|by eapply wire_string|].
    destruct (decide (field_string workflow "digest" = "")) as [->|Hne]; [by left|right].
    match goal with H : _ && _ = false |- _ => apply andb_false_iff in H; destruct H as [H|H]; bool_to_prop; done end.
  - intros name source Hl. specialize (Hinputs (name, source)). rewrite elem_of_range_map in Hinputs.
    specialize (Hinputs Hl). unfold call_input in Hinputs. decoded. by checked.
  - intros name source Hl. specialize (Houtputs (name, source)). rewrite elem_of_range_map in Houtputs.
    specialize (Houtputs Hl). unfold call_output in Houtputs. decoded. checked. by bool_to_prop.
Qed.

(** * Nodes *)
Lemma check_node_version_ok w apiVersion : check_node_version w apiVersion = Ok tt →
  (apiVersion = APIVersionV1Alpha1 → absent (field_raw w "readiness") = true ∧ field_string w "type" ≠ "point_execution") ∧
  (apiVersion ≠ APIVersionV1Alpha3 → absent (field_raw w "definition") = true ∧
     (field_string w "type" ∈ v1alpha3_types → field_string w "type" = "extension")).
Proof.
  unfold check_node_version, any_present. cbn [existsb]. intros Hd. cbv zeta in Hd.
  case_match eqn:H1; [done|]. case_match eqn:H2; [done|]. case_match eqn:H3; [done|]. clear Hd. split.
  - intros ->. rewrite bool_decide_true in H1 by done. cbn [andb] in H1. bool_to_prop. done.
  - intros Hv. rewrite bool_decide_false in H2, H3 by done. cbn [andb negb] in H2, H3. bool_to_prop.
    split; [done|]. intros Hin. unfold v1alpha3_types in Hin. set_solver.
Qed.
Lemma decode_common_ok bound w apiVersion f :
  has_type bound node_wire w → check_node_version w apiVersion = Ok tt → decode_common w apiVersion = Ok f →
  fields_ok apiVersion (field_string w "type") f ∧
  (field_string w "type" = "extension" → apiVersion = APIVersionV1Alpha3).
Proof.
  intros Hw [Hv1 Hv3]%check_node_version_ok. unfold decode_common. intros Hd.
  apply result_bind_Ok in Hd as (displayName & Hname%within_Ok & Hd). cbv zeta in Hd.
  case_decide as Hx; [done|]. case_match; [done|].
  apply result_bind_Ok in Hd as (inputs & Hin & Hd). rewrite within_Ok, on_error_Ok in Hin.
  apply result_bind_Ok in Hd as (outputs & Hout & Hd). rewrite within_Ok, on_error_Ok in Hout.
  apply result_bind_Ok in Hd as (readiness & Hread & Hd). rewrite within_Ok in Hread.
  apply result_bind_Ok in Hd as (validators & Hval & Hd). rewrite within_Ok in Hval.
  apply result_bind_Ok in Hd as ([] & Hext & Hd). apply result_bind_Ok in Hd as (retry & Hretry & Hd). rewrite within_Ok in Hretry.
  apply result_bind_Ok in Hd as (checkpoint & Hcheck & Hd). rewrite within_Ok in Hcheck.
  case_decide as Hmode; [done|]. apply result_bind_Ok in Hd as (join & Hjoin & Hd). rewrite within_Ok in Hjoin.
  apply result_bind_Ok in Hd as ([] & Hperm & Hd). rewrite within_Ok in Hperm. checked.
  apply result_bind_Ok in Hd as (transitions & Htrans & Hd). rewrite within_Ok in Htrans.
  apply result_bind_Ok in Hd as (definition & Hdef & Hd). rewrite within_Ok in Hdef.
  apply result_bind_Ok in Hd as ([] & Hprompt & [= <-]). split; [split; cbn|].
  - by eapply optional_string_ok.
  - intros prompt Hp. rewrite Hp in Hprompt. case_decide as Hv; [done|].
    apply result_bind_Ok in Hprompt as ([] & Href & Htype). rewrite within_Ok in Href.
    unfold validate_reference in Href. destruct (valid_content_reference prompt); [|done].
    destruct (decide (field_string w "type" ∉ ["reasoning"; "implementation"])) as [|Htyp]; [done|].
    apply dec_stable in Htyp. by split_and!.
  - intros d ->. split; [|by eapply decode_definition_ok]. apply dec_stable. intros Hv.
    destruct (Hv3 Hv) as [Habsent _]. unfold decodeResolvedNodeDefinitionRef in Hdef. by rewrite Habsent in Hdef.
  - intros r ->. split; [|by eapply decodeReadiness_ok]. intros Hv. destruct (Hv1 Hv) as [Habsent _].
    unfold decodeReadiness in Hread. by rewrite Habsent in Hread.
  - intros name b Hb. by eapply decodeBindings_ok.
  - intros name o Ho. eapply decode_entries_ok in Hout as (? & raw & _ & Ho'); [|done].
    split; [done|by eapply decode_output_declaration_ok].
  - split; [by eapply decodeValidators_ok|]. intros He. rewrite He, andb_true_r in Hext.
    apply dec_stable. intros Hv. by rewrite bool_decide_true in Hext.
  - intros r ->. by eapply decodeRetry_ok.
  - intros c ->. by eapply decodeCheckpoint_ok.
  - destruct (decide (field_string w "transitionMode" = "")); [by left|].
    destruct (decide (field_string w "transitionMode" = TransitionExclusive)) as [->|]; [by left|].
    destruct (decide (field_string w "transitionMode" = TransitionFanout)) as [->|]; [by right; left|]. by destruct Hmode.
  - intros j ->. by eapply decodeJoin_ok.
  - split; [done|]. by eapply wire_strings.
  - by eapply decodeTransitions_ok.
  - intros He. apply dec_stable. intros Hv. by destruct Hx.
Qed.

Lemma switch_Ok {A} value (cases : list (string * (unit → dresult A))) other r :
  switch value cases other = Ok r → other = Ok r ∨ ∃ handler, (value, handler) ∈ cases ∧ handler tt = Ok r.
Proof.
  induction cases as [|[case handler] cases IH]; simpl; [by left|]. case_decide as Hv.
  - subst. intros Hr. right. exists handler. split; [by left|done].
  - intros [Ho|(h & Hin & Hr)]%IH; [by left|right]. exists h. split; [by right|done].
Qed.
Lemma executor_cases_ok bound common apiVersion w type handler node :
  apiVersion ∈ apiVersions → has_type bound node_wire w → (type, handler) ∈ executor_cases common apiVersion w →
  handler tt = Ok node → NodeTypeOf node = type ∧ Fields node = common ∧ executor_ok apiVersion node.
Proof.
  intros Hversion Hw Hin Hd. unfold executor_cases in Hin.
  repeat (apply elem_of_cons in Hin as [[= -> ->]|Hin]); [..|by apply elem_of_nil in Hin];
    apply result_bind_Ok in Hd as (e & He & Hd); try rewrite within_Ok in He.
  - apply strictDecode_typed in He; [|vm_compute; reflexivity].
    apply result_bind_Ok in Hd as ([] & Hx & [= <-]). split_and!; [done..|]. by eapply extension_executor_ok.
  - injection Hd as <-. split_and!; [done..|]. by eapply decodeReasoning_ok.
  - injection Hd as <-. split_and!; [done..|]. by eapply decodeGate_ok.
  - injection Hd as <-. split_and!; [done..|]. by eapply decodeCommand_ok.
  - injection Hd as <-. split_and!; [done..|]. by eapply decodeApproval_ok.
  - injection Hd as <-. split_and!; [done..|]. by eapply decodeSubworkflowCall_ok.
  - injection Hd as <-. split_and!; [done..|]. by eapply decodePointExecution_ok.
  - injection Hd as <-. split_and!; [done..|]. by eapply decodeWorkspacePrepare_ok.
  - apply strictDecode_typed in He; [|vm_compute; reflexivity]. injection Hd as <-. split_and!; [done..|]. simpl.
    split; [by eapply wire_string|]. apply Forall_fmap. eapply Forall_impl; [by eapply (wire_slice _ _ _ He "checks")|].
    intros v Hv%elements_typed. unfold go_strings. simpl. apply Forall_fmap. eapply Forall_impl; [exact Hv|].
    intros x Hx. by eapply string_utf8.
  - apply strictDecode_typed in He; [|vm_compute; reflexivity]. injection Hd as <-.
    split_and!; [done..|]. simpl. split_and!; first [done|by eapply wire_string].
  - apply strictDecode_typed in He; [|vm_compute; reflexivity]. injection Hd as <-.
    split_and!; [done..|]. simpl. split_and!; first [done|by eapply wire_string].
  - apply strictDecode_typed in He; [|vm_compute; reflexivity]. injection Hd as <-.
    split_and!; [done..|]. simpl. split_and!; first [done|by eapply wire_string].
  - apply strictDecode_typed in He; [|vm_compute; reflexivity]. case_match eqn:Htask; [done|]. injection Hd as <-.
    bool_to_prop. split_and!; [done..|]. simpl. split_and!; first [done|by eapply wire_string].
  - injection Hd as <-. split_and!; [done..|]. by eapply decodeRouting_ok.
Qed.
Lemma decodeNode_ok data apiVersion node : apiVersion ∈ apiVersions → decodeNode data apiVersion = Ok node →
  node_ok apiVersion node.
Proof.
  intros Hversion. unfold decodeNode. intros Hd. apply result_bind_Ok in Hd as (w & Hw & Hd). cbv zeta in Hd.
  apply strictDecode_typed in Hw; [|vm_compute; reflexivity]. case_match; [done|].
  apply result_bind_Ok in Hd as ([] & Hcheck & Hd). apply result_bind_Ok in Hd as (common & Hcommon & Hd).
  apply result_bind_Ok in Hd as ([] & _ & Hd). pose proof (check_node_version_ok _ _ Hcheck) as [Hv1 Hv3].
  eapply decode_common_ok in Hcommon as [Hfields Hext]; [|done..].
  apply switch_Ok in Hd as [Hd|(handler & Hin & Hd)]; [done|].
  eapply executor_cases_ok in Hd as (Htype & Hcommon & Hexec); [|done..]. split; [|by rewrite Htype, Hcommon|done].
  rewrite Htype. split.
  - intros Ht. apply dec_stable. intros Hv. destruct (Hv3 Hv) as [_ Hx]. by apply Hv, Hext, Hx.
  - intros Ht ->. by destruct (Hv1 eq_refl) as [_ []].
Qed.
Lemma decodeNodes_ok data apiVersion m : apiVersion ∈ apiVersions → decodeNodes data apiVersion = Ok m →
  m ≠ ∅ ∧ ∀ name node, m !! name = Some node → identifier name ∧ node_ok apiVersion node.
Proof.
  intros Hversion. unfold decodeNodes. intros Hd. apply result_bind_Ok in Hd as (w & Hw & Hd).
  destruct (raw_map w) as [raw|]; [|done]. case_decide as Hempty; [done|].
  assert (∀ l r0 r, foldM (node_step apiVersion raw) r0 l = Ok r →
    (∀ name node, r0 !! name = Some node → identifier name ∧ node_ok apiVersion node) →
    (r0 ≠ ∅ ∨ l ≠ [] → r ≠ ∅) ∧ ∀ name node, r !! name = Some node → identifier name ∧ node_ok apiVersion node) as Hgen.
  { induction l as [|k l IH]; intros r0 r; simpl; [intros [= <-] Hr; split; [by intros [?|?]|done]|].
    intros (r1 & Hk & Hl)%result_bind_Ok Hr. unfold node_step in Hk.
    apply result_bind_Ok in Hk as ([] & Hid & Hk). apply result_bind_Ok in Hk as (node & Hnode & [= <-]).
    rewrite named_Ok in Hnode. apply check_identifier_ok in Hid. apply IH in Hl as [Hne Hall].
    - split; [|done]. intros _. apply Hne. left. apply insert_non_empty.
    - intros name n [[<- <-]|[_ Hn]]%lookup_insert_Some; [|by apply Hr]. split; [done|by eapply decodeNode_ok]. }
  apply Hgen in Hd as [Hne Hall]; [|by intros name n Hn; rewrite lookup_empty in Hn]. split; [|done].
  apply Hne. right. intros Hl. apply Hempty. apply map_empty. intros k. destruct (raw !! k) as [t|] eqn:Ht; [|done].
  exfalso. apply (not_elem_of_nil k). rewrite <-Hl. apply elem_of_sort_strings, list_elem_of_fmap. exists (k, t).
  split; [done|]. by apply elem_of_map_to_list.
Qed.

(** * Profiles, specification and document *)
Lemma profile_default_ok name input : profile_default name input = Ok tt →
  identifier input.1 ∧ absent input.2 = false ∧ Valid input.2 = true.
Proof. unfold profile_default. intros Hd. decoded. bool_to_prop. by split_and!. Qed.
Lemma profile_step_ok result name value result' : profile_step result (name, value) = Ok result' →
  ∃ profile, identifier name ∧ profile_ok profile ∧ result' = <[name := profile]> result.
Proof.
  unfold profile_step. intros Hd. apply result_bind_Ok in Hd as ([] & Hid & Hd). apply check_identifier_ok in Hid.
  apply result_bind_Ok in Hd as (w & Hw & Hd). rewrite within_Ok in Hw. cbv zeta in Hd.
  apply strictDecode_typed in Hw; [|vm_compute; reflexivity].
  destruct (blank _) eqn:Hdesc; [done|]. apply result_bind_Ok in Hd as ([] & Hentry & Hd). rewrite within_Ok in Hentry.
  case_decide as Hterm; [done|]. apply result_bind_Ok in Hd as ([] & Hlist & Hd). rewrite within_Ok, of_message_Ok in Hlist.
  checked. destruct (field_value_typed _ _ _ "inputDefaults" (GoMap GoRaw) Hw) as (v & Hv & Ht); [reflexivity|].
  rewrite Hv in Hd. cbn [mbind option_bind] in Hd. destruct (raw_map v) as [defaults|] eqn:Hmap; [|done].
  apply result_bind_Ok in Hd as ([] & Hall & [= <-]). apply forM_Ok in Hall. rewrite Forall_forall in Hall.
  eexists. split_and!; [done| |done]. split; cbn; [by eapply worded_string|done|by split_and!|].
  intros input raw Hin. destruct (profile_default_ok name (input, raw)) as (Hi & Hne & _).
  { apply Hall. by apply elem_of_range_map. }
  split; [done|]. apply bool_decide_eq_false_1 in Hne. by destruct (raw_map_lookup _ _ _ _ _ Ht Hmap Hin).
Qed.
Lemma decodeProfiles_ok data m : decodeProfiles data = Ok m →
  ∀ name profile, m !! name = Some profile → identifier name ∧ profile_ok profile.
Proof.
  unfold decodeProfiles. case_match; [by intros [= <-] name p Hp; rewrite lookup_empty in Hp|].
  intros (w & _ & Hd)%result_bind_Ok.
  refine (foldM_ind (λ m : gmap Identifier RouteProfile, ∀ name profile, m !! name = Some profile →
    identifier name ∧ profile_ok profile) _ _ _ _ _ _ Hd); [by intros name p Hp; rewrite lookup_empty in Hp|].
  intros r [name value] r' _ Hr (p & Hid & Hp & ->)%profile_step_ok.
  intros n q [[<- <-]|[_ Hn]]%lookup_insert_Some; [done|by apply Hr].
Qed.
Lemma decode_defaults_ok data d : decode_defaults data = Ok d →
  identifier (rd_Entry d) ∧ rd_Terminals d ≠ [] ∧ NoDup (rd_Terminals d) ∧ Forall identifier (rd_Terminals d).
Proof.
  unfold decode_defaults, at_default. intros Hd. apply result_bind_Ok in Hd as (w & _ & Hd). cbv zeta in Hd.
  apply result_bind_Ok in Hd as ([] & Hentry & Hd). rewrite within_Ok, on_error_Ok in Hentry.
  case_decide; [done|]. apply result_bind_Ok in Hd as ([] & Hlist & [= <-]).
  rewrite within_Ok, on_error_Ok, of_message_Ok in Hlist. checked. by split_and!.
Qed.
Lemma decodeMetadata_ok data m : decodeMetadata data = Ok m →
  workflowNamePattern (md_Name m) = true ∧ semanticVersionPattern (md_Version m) = true ∧
  utf8 (md_DisplayName m) ∧ utf8 (md_Description m).
Proof.
  unfold decodeMetadata. intros Hd. decoded. bool_to_prop. cbn.
  split_and!; [done|done|by eapply optional_string_ok|by eapply wire_string].
Qed.

Lemma decodeDocument_ok data document : decodeDocument data = Ok document → document_ok document.
Proof.
  unfold decodeDocument. intros Hd. apply result_bind_Ok in Hd as (w & Hw & Hd). cbv zeta in Hd.
  case_decide as Hversion; [done|]. case_decide as Hkind; [done|]. case_match; [done|].
  apply result_bind_Ok in Hd as (metadata & Hm & Hd). rewrite within_Ok, on_error_Ok in Hm.
  apply result_bind_Ok in Hd as (spec & Hs & Hd). rewrite within_Ok, on_error_Ok in Hs.
  apply result_bind_Ok in Hd as ([] & _ & [= <-]).
  unfold decodeSpec in Hs. apply result_bind_Ok in Hs as (sw & Hsw & Hs). cbv zeta in Hs.
  destruct (_ || _) eqn:Hreq in Hs; [done|]. destruct (_ && _) eqn:Hprofiles in Hs; [done|].
  apply result_bind_Ok in Hs as (inputs & Hin & Hs). apply result_bind_Ok in Hs as (defaults & Hdef & Hs).
  apply result_bind_Ok in Hs as (nodes & Hn & Hs). rewrite within_Ok, on_error_Ok in Hn.
  apply result_bind_Ok in Hs as (profiles & Hp & [= <-]). rewrite within_Ok, on_error_Ok in Hp.
  split; cbn; [done|by eapply decodeMetadata_ok| |by eapply decode_defaults_ok| |by eapply decodeNodes_ok].
  - intros name input Hl. destruct (absent (field_raw sw "inputs")).
    + injection Hin as <-. by rewrite lookup_empty in Hl.
    + rewrite within_Ok, on_error_Ok in Hin. eapply decode_entries_ok in Hin as (Hid & raw & _ & Hraw); [|done].
      split; [done|by eapply decode_value_declaration_ok].
  - split; [|by eapply decodeProfiles_ok]. intros Hne Hv. rewrite bool_decide_true in Hprofiles by done.
    cbn [andb] in Hprofiles. apply negb_false_iff in Hprofiles. unfold decodeProfiles in Hp.
    rewrite Hprofiles in Hp. by injection Hp as <-.
Qed.

(** * What decoding guarantees *)
Lemma document_ok_limits document : document_ok document → limits_typed document.
Proof.
  intros Hok. unfold limits_typed, limits. apply Forall_forall. intros limit Hl.
  apply list_elem_of_bind in Hl as ([name node] & Hl & Hnode). apply list_elem_of_omap in Hl as (t & Ht & Hlimit).
  apply elem_of_map_to_list in Hnode. destruct (doc_nodes_ok _ Hok) as [_ Hnodes].
  destruct (Hnodes _ _ Hnode) as [_ [_ Hfields _]]. pose proof (nf_transitions_ok _ _ _ Hfields) as Htrans.
  rewrite Forall_forall in Htrans. specialize (Htrans t Ht). destruct t as [common|common n]; [done|].
  injection Hlimit as <-. destruct Htrans as [_ _ Hn]. specialize (Hn common n eq_refl). simpl. lia.
Qed.
Lemma document_ok_definitions document name node : document_ok document → nodes_of document !! name = Some node →
  definition_panics node = false.
Proof.
  intros Hok Hnode. destruct (doc_nodes_ok _ Hok) as [_ Hnodes]. destruct (Hnodes _ _ Hnode) as [_ [_ Hfields _]].
  unfold definition_panics. destruct (nf_Definition (Fields node)) as [d|] eqn:Hd; [|done].
  destruct (nf_definition_ok _ _ _ Hfields d Hd) as [_ [(ref & Href & _) _]].
  apply bool_decide_eq_false. by rewrite Href.
Qed.
End document.

(** (C7) A document [Decode] accepts is well formed: the identifiers, types, references, limits and
    texts of every part are the ones the version of the document allows.  The validator never panics
    on it, and when the validator accepts it too, every run of it ends within the bound its limits
    give. *)
Theorem decoded_document_safe (R : GoRange) data document (Hdecode : DocumentDecode.Decode data = Ok document) :
  document_ok document ∧
  (∀ (I : GoInt64) (U : UnicodeLower) capabilities, ∃ errors, Validate capabilities document = Some errors) ∧
  (∀ (I : GoInt64) (L : ContentLibrary) (D : ContentDigest) (U : UnicodeLower) capabilities rows dispatch n last,
    Validate capabilities document = Some [] → dispatched document dispatch →
    snapshot_typed (ac_FrameSnapshot dispatch) → nsteps (run_step document) n (rows, dispatch) last →
    n < (budget document + 1) * size (nodes_of document)).
Proof.
  assert (document_ok document) as Hok.
  { unfold DocumentDecode.Decode in Hdecode. case_match; [done|]. by eapply decodeDocument_ok. }
  split_and!; [done| |intros; eapply accepted_runs_end; eauto using document_ok_limits]. intros I U capabilities. unfold Validate.
  destruct (existsb _ _) eqn:Hpanic; [|by eexists]. exfalso. apply existsb_exists in Hpanic as ([name node] & Hin & Hp).
  apply list_elem_of_In, elem_of_map_to_list in Hin. simpl in Hp.
  by rewrite (document_ok_definitions document name node) in Hp.
Qed.

Definition ex_document_text : string := quoted "{'apiVersion':'darkstar.local/v1alpha3','kind':'Workflow',
  'metadata':{'name':'build','version':'1.0.0'},
  'spec':{'inputs':{'n':{'type':'integer','resource':{'kind':'constant','value': 3 }}},
    'routeDefaults':{'entry':'a','terminals':['b']},
    'nodes':{
      'a':{'type':'command','entry':true,'terminal':false,'inputs':{},'outputs':{'out':{'type':'string'}},
        'command':{'argv':['make']},
        'transitions':[{'id':'t','to':'b','kind':'bounded','maxTraversals':3,
          'when':{'op':'all','args':[{'op':'eq','args':[{'ref':'output.out'},{'literal':'done'}]},{'const':true}]}}]},
      'b':{'type':'approval','entry':false,'terminal':true,'inputs':{},'outputs':{},
        'approval':{'actor':'lead'},'checkpoint':'approve'}}}}".
Theorem decoded_document_safe_witness :
  ∃ document, @DocumentDecode.Decode range_reversed ex_document_text = Ok document ∧ document_ok document.
Proof.
  destruct (@DocumentDecode.Decode range_reversed ex_document_text) as [document|e] eqn:Hd.
  - exists document. split; [done|]. exact (proj1 (decoded_document_safe range_reversed _ _ Hd)).
  - exfalso. assert (is_ok (@DocumentDecode.Decode range_reversed ex_document_text) = true) as Hok by (vm_compute; reflexivity).
    rewrite Hd in Hok. discriminate Hok.
Defined.
