(* ===== verification/DecodeOrder.v ===== *)
(** The order in which Go visits a map decides which of several errors of a document is reported,
    and nothing else: a text that decodes under one order decodes to the same document under every
    order. *)
From S2P Require Import Prelude GoStrings GoJson GoDecode GoClosed Schema Identity WireDecode NodeDecode DocumentDecode DecodeSafety DocumentSafety.
From stdpp Require Import options.

(** * Results that agree when they succeed *)
Definition agree {A} (r r' : dresult A) : Prop := ∀ a, r = Ok a ↔ r' = Ok a.
#[export] Instance agree_equivalence {A} : Equivalence (@agree A).
Proof.
  split; [by intros r a|intros r r' Hr a; by rewrite (Hr a)|intros r1 r2 r3 H12 H23 a; by rewrite (H12 a), (H23 a)].
Qed.
Lemma agree_bind {A B} (r r' : dresult A) (k k' : A → dresult B) :
  agree r r' → (∀ a, agree (k a) (k' a)) → agree (let? a := r in k a) (let? a := r' in k' a).
Proof.
  intros Hr Hk b. rewrite !result_bind_Ok. split; intros (a & Ha & Hb); exists a; split; first [by apply Hr|by apply Hk].
Qed.
#[export] Instance within_proper {A} format args : Proper (agree ==> agree) (@within A format args).
Proof. intros r r' Hr a. rewrite !within_Ok. apply Hr. Qed.
#[export] Instance on_error_proper {A} f : Proper (agree ==> agree) (@on_error A f).
Proof. intros r r' Hr a. rewrite !on_error_Ok. apply Hr. Qed.
#[export] Instance named_proper {A} name : Proper (agree ==> agree) (@named A name).
Proof. intros r r' Hr. unfold named. by rewrite Hr. Qed.
Lemma agree_foldM {A S} (f f' : S → A → dresult S) l : (∀ s a, agree (f s a) (f' s a)) →
  ∀ s, agree (foldM f s l) (foldM f' s l).
Proof. intros Hf. induction l as [|a l IH]; intros s; simpl; [done|]. by apply agree_bind. Qed.

(** * Loops over maps *)
Section orders.
Context (R R' : GoRange).

Lemma forM_agree {K A} (f : K * A → dresult unit) site (l : list (K * A)) :
  agree (forM_ f (@range R K A site l)) (forM_ f (@range R' K A site l)).
Proof. intros []. rewrite !forM_Ok. by rewrite !range_perm. Qed.
Lemma forM_map_agree {K A} `{Countable K} (f : K * A → dresult unit) site (m : gmap K A) :
  agree (forM_ f (@range_map R K _ _ A site m)) (forM_ f (@range_map R' K _ _ A site m)).
Proof. apply forM_agree. Qed.
Lemma fold_map_agree {K A B} `{Countable K} (step : gmap K B → K * A → dresult (gmap K B)) (f : K → A → dresult B) site (m : gmap K A) :
  (∀ m k a, step m (k, a) = (let? b := f k a in Ok (<[k := b]> m))) →
  agree (foldM step ∅ (@range_map R K _ _ A site m)) (foldM step ∅ (@range_map R' K _ _ A site m)).
Proof. intros Hstep r. by rewrite !(foldM_map_Ok step f Hstep). Qed.
Lemma decode_entries_agree {A} site (decode decode' : string → RawMessage → dresult A) data :
  (∀ name raw, agree (decode name raw) (decode' name raw)) →
  agree (@decode_entries R A site decode data) (@decode_entries R' A site decode' data).
Proof.
  intros Hdecode. unfold decode_entries. apply agree_bind; [done|]. intros raw.
  destruct (raw_map raw) as [m|]; [|done]. etransitivity.
  - apply (fold_map_agree _ _ _ _ (decode_entry_step decode)).
  - apply agree_foldM. intros s [k v]. unfold decode_entry. simpl. apply agree_bind; [done|]. intros _.
    by apply agree_bind.
Qed.

(** * The decode functions *)
Lemma decodeRouting_agree data : agree (@decodeRouting R data) (@decodeRouting R' data).
Proof.
  unfold decodeRouting. apply agree_bind; [done|]. intros w. cbv zeta. destruct (_ || _); [done|].
  apply agree_bind; [done|]. intros seen. apply agree_bind; [apply forM_agree|done].
Qed.
Lemma decodeSubworkflowCall_agree data : agree (@decodeSubworkflowCall R data) (@decodeSubworkflowCall R' data).
Proof.
  unfold decodeSubworkflowCall. apply agree_bind; [done|]. intros w. cbv zeta.
  do 2 (case_match; [done|]). apply agree_bind; [done|]. intros _.
  destruct (decide (field_strings w "terminals" = [])); [done|].
  apply agree_bind; [done|]. intros _. do 2 (case_match; [|done]).
  apply agree_bind; [apply forM_map_agree|]. intros _. by apply agree_bind; [apply forM_map_agree|].
Qed.
Lemma decode_common_agree w apiVersion : agree (@decode_common R w apiVersion) (@decode_common R' w apiVersion).
Proof.
  unfold decode_common. apply agree_bind; [done|]. intros name. cbv zeta. do 2 (case_match; [done|]).
  apply agree_bind; [by apply within_proper, on_error_proper, decode_entries_agree|]. intros inputs.
  by apply agree_bind; [by apply within_proper, on_error_proper, decode_entries_agree|].
Qed.
Lemma switch_agree {A} value (cases cases' : list (string * (unit → dresult A))) other :
  Forall2 (λ c c', c.1 = c'.1 ∧ agree (c.2 tt) (c'.2 tt)) cases cases' →
  agree (switch value cases other) (switch value cases' other).
Proof.
  induction 1 as [|[k h] [k' h'] cases cases' [Hk Hh] _ IH]; [done|]. simpl in *. subst k'. by case_decide.
Qed.
Lemma executor_cases_agree common apiVersion w value other :
  agree (switch value (@executor_cases R common apiVersion w) other) (switch value (@executor_cases R' common apiVersion w) other).
Proof.
  apply switch_agree. unfold executor_cases.
  repeat (constructor; [split; [done|]; first [reflexivity|apply agree_bind; [|done]]|]);
    [apply within_proper, decodeSubworkflowCall_agree|apply within_proper, decodeRouting_agree|constructor].
Qed.
Lemma decodeNode_agree data apiVersion : agree (@decodeNode R data apiVersion) (@decodeNode R' data apiVersion).
Proof.
  unfold decodeNode. apply agree_bind; [done|]. intros w. cbv zeta. case_match; [done|].
  apply agree_bind; [done|]. intros _. apply agree_bind; [apply decode_common_agree|]. intros common.
  apply agree_bind; [done|]. intros _. apply executor_cases_agree.
Qed.
Lemma decodeNodes_agree data apiVersion : agree (@decodeNodes R data apiVersion) (@decodeNodes R' data apiVersion).
Proof.
  unfold decodeNodes. apply agree_bind; [done|]. intros raw. destruct (raw_map raw) as [m|]; [|done].
  case_decide; [done|]. apply agree_foldM. intros s name. unfold node_step. apply agree_bind; [done|]. intros _.
  by apply agree_bind; [apply named_proper, decodeNode_agree|].
Qed.
(** A step of the profiles decodes the entry and stores it. *)
Definition decode_profile (name : string) (value : RawMessage) : dresult RouteProfile :=
  let? result := @profile_step R ∅ (name, value) in of_json (result !! name).
Lemma profile_step_agree result entry : agree (@profile_step R result entry) (@profile_step R' result entry).
Proof.
  destruct entry as [name value]. unfold profile_step. apply agree_bind; [done|]. intros _.
  apply agree_bind; [done|]. intros w. cbv zeta. destruct (blank _); [done|].
  apply agree_bind; [done|]. intros _. destruct (decide (field_strings w "terminals" = [])); [done|].
  apply agree_bind; [done|]. intros _. destruct (_ ≫= _); [|done]. by apply agree_bind; [apply forM_map_agree|].
Qed.
Lemma profile_step_entry m name value :
  agree (@profile_step R m (name, value)) (let? p := decode_profile name value in Ok (<[name := p]> m)).
Proof.
  unfold decode_profile, profile_step. intros r.
  destruct (check_identifier name); [|done]. destruct (within _ _ _) as [w|]; [|done]. cbn [result_bind].
  destruct (blank _); [done|]. destruct (within _ _ _); [|done]. cbn [result_bind].
  destruct (decide (field_strings w "terminals" = [])); [done|]. destruct (within _ _ _); [|done]. cbn [result_bind].
  destruct (_ ≫= _); [|done]. destruct (forM_ _ _); [|done]. cbn [result_bind]. by rewrite lookup_insert_eq.
Qed.
Lemma decodeProfiles_agree data : agree (@decodeProfiles R data) (@decodeProfiles R' data).
Proof.
  unfold decodeProfiles. destruct (absent data); [done|]. apply agree_bind; [done|]. intros raw.
  set (step (m : gmap Identifier RouteProfile) (entry : string * RawMessage) :=
    let? p := decode_profile entry.1 entry.2 in Ok (<[entry.1 := p]> m)).
  etransitivity; [apply (agree_foldM _ step); intros m [k v]; apply profile_step_entry|].
  etransitivity; [by apply (fold_map_agree step decode_profile)|].
  apply agree_foldM. intros m [k v]. etransitivity; [symmetry; apply profile_step_entry|apply profile_step_agree].
Qed.
Lemma decodeSpec_agree data apiVersion : agree (@decodeSpec R data apiVersion) (@decodeSpec R' data apiVersion).
Proof.
  unfold decodeSpec. apply agree_bind; [done|]. intros w. cbv zeta.
  destruct (absent _ || absent _); [done|]. destruct (bool_decide _ && _); [done|]. apply agree_bind.
  { destruct (absent _); [done|]. by apply within_proper, on_error_proper, decode_entries_agree. }
  intros inputs. apply agree_bind; [done|]. intros defaults.
  apply agree_bind; [by apply within_proper, on_error_proper, decodeNodes_agree|]. intros nodes.
  by apply agree_bind; [apply within_proper, on_error_proper, decodeProfiles_agree|].
Qed.
Lemma decodeDocument_agree data : agree (@decodeDocument R data) (@decodeDocument R' data).
Proof.
  unfold decodeDocument. apply agree_bind; [done|]. intros w. cbv zeta. do 2 (case_decide; [done|]).
  destruct (absent _ || absent _); [done|]. apply agree_bind; [done|]. intros metadata.
  by apply agree_bind; [apply within_proper, on_error_proper, decodeSpec_agree|].
Qed.
End orders.

(** (C8) The order in which Go visits the maps of a document does not decide whether the document
    is accepted, nor what it decodes to: it only chooses which of several errors is reported. *)
Theorem decode_order_independent (R R' : GoRange) data document :
  @DocumentDecode.Decode R data = Ok document ↔ @DocumentDecode.Decode R' data = Ok document.
Proof. unfold DocumentDecode.Decode. destruct (negb _); [done|]. apply decodeDocument_agree. Qed.
Example error_depends_on_order :
  let text := quoted "{'A':{},'B':{}}" in
  ¬ is_ok (@decodeBindings range_canonical text) ∧
  @decodeBindings range_canonical text ≠ @decodeBindings range_reversed text.
Proof. vm_compute. split; [by intros []|discriminate]. Qed.
