(* ===== verification/Reducer.v ===== *)
(** The projection reducers of runs, node visits, attempts and approvals:
    [runtime/src/core/projection/reducer.go]. *)
From S2P Require Import Prelude GoStrings GoJson GoDecode Schema StateStore.
From stdpp Require Import options.

(** * Outcomes *)
Inductive reduce_error :=
| UnsupportedSchemaVersion (EventID : string) (Version : Z)
| InvalidTransition (Machine ID From Event : string)
| DecodeFailed (Kind : string)
| Refused (message : msg).
Abbreviation reduce_result := (result reduce_error).

(** The reducers return the next projection, whether the event belongs to them, and an
    error. *)
Inductive reduction (P : Type) :=
| Ignored
| Reduced (next : P)
| Failed (belongs : bool) (error : reduce_error).
Arguments Ignored {P}.
Arguments Reduced {P} next.
Arguments Failed {P} belongs error.

Definition refuse {A} (message : string) : reduce_result A := Err (Refused (text message)).

(** The guards every reducer starts with. *)
Definition reduce {P} (aggregate : AggregateType) (event : Event) (body : reduce_result P)
  : reduction P :=
  if decide (ev_SchemaVersion event ≠ 1%Z) then
    Failed false (UnsupportedSchemaVersion (ev_ID event) (ev_SchemaVersion event))
  else if decide (ev_AggregateType event ≠ aggregate) then Ignored
  else match body with Ok next => Reduced next | Err e => Failed true e end.

Definition invalidTransition {A} (machine id from event : string) : reduce_result A :=
  Err (InvalidTransition machine id from event).

Definition decodeData (event : Event) (fields : list (string * FieldKind)) : reduce_result StructFields :=
  match Unmarshal_struct fields (ev_Data event) with
  | Some data => Ok data
  | None => Err (DecodeFailed (ev_Kind event))
  end.

(** The first event of a stream must be the one that creates it. *)
Definition require_created (label created : string) (event : Event) : reduce_result unit :=
  if decide (ev_Kind event ≠ created) then
    Err (Refused (Msg "%s %s first event is %s, want %s"
           [AStr label; AStr (ev_AggregateID event); AStr (ev_Kind event); AStr created]))
  else Ok tt.

(** The event is the next one of the projection's own stream. *)
Definition check_current (owner label id : string) (revision : Z) (event : Event)
  : reduce_result unit :=
  if decide (id ≠ ev_AggregateID event) then
    Err (Refused (Msg "%s projection %s cannot apply event for %s"
           [AStr owner; AStr id; AStr (ev_AggregateID event)]))
  else if decide (ev_AggregateRevision event ≠ uint64 (revision + 1)) then
    Err (Refused (Msg "%s %s projection revision %d cannot apply revision %d"
           [AStr label; AStr id; AInt revision; AInt (ev_AggregateRevision event)]))
  else Ok tt.

Definition require_state (machine id status kind : string) (allowed : list string)
  : reduce_result unit :=
  if decide (status ∈ allowed) then Ok tt else invalidTransition machine id status kind.

Definition issue_fields : list (string * FieldKind) := [string_field "code"; string_field "message"].

Definition requireIssueData (event : Event) : reduce_result unit :=
  let? data := decodeData event issue_fields in
  if blank (get_string data "code") || blank (get_string data "message") then
    Err (Refused (Msg "%s requires code and message" [AStr (ev_Kind event)]))
  else Ok tt.

Definition validateOptionalIssueData (event : Event) : reduce_result unit :=
  let? data := decodeData event issue_fields in
  if negb (Bool.eqb (negb (blank (get_string data "code"))) (negb (blank (get_string data "message"))))
  then Err (Refused (Msg "%s issue evidence must contain both code and message"
                       [AStr (ev_Kind event)]))
  else Ok tt.

(** [validSourceHash] of [work.go]. *)
Definition validSourceHash (value : string) : bool := digestPattern value.

(** * Runs *)
Section run.
Variables (current : RunProjection) (event : Event).

Definition requireRunState (allowed : list RunStatus) : reduce_result unit :=
  require_state "run" (run_RunID current) (run_Status current) (ev_Kind event) allowed.

Definition run_with_status (status : RunStatus) : RunProjection := {|
  run_RunID := run_RunID current; run_WorkItemID := run_WorkItemID current;
  run_WorkflowID := run_WorkflowID current; run_WorkflowVersion := run_WorkflowVersion current;
  run_WorkflowDigest := run_WorkflowDigest current; run_RouteDigest := run_RouteDigest current;
  run_RouteSnapshot := run_RouteSnapshot current; run_Priority := run_Priority current;
  run_Status := status; run_ResourceVersion := run_ResourceVersion current;
  run_LastGlobalPosition := run_LastGlobalPosition current;
  run_CreatedAt := run_CreatedAt current; run_UpdatedAt := run_UpdatedAt current;
|}.
Definition run_with_route (data : StructFields) (status : RunStatus) : RunProjection := {|
  run_RunID := run_RunID current; run_WorkItemID := run_WorkItemID current;
  run_WorkflowID := run_WorkflowID current; run_WorkflowVersion := run_WorkflowVersion current;
  run_WorkflowDigest := get_string data "workflowDigest";
  run_RouteDigest := get_string data "routeDigest";
  run_RouteSnapshot := get_raw data "routeSnapshot"; run_Priority := run_Priority current;
  run_Status := status; run_ResourceVersion := run_ResourceVersion current;
  run_LastGlobalPosition := run_LastGlobalPosition current;
  run_CreatedAt := run_CreatedAt current; run_UpdatedAt := run_UpdatedAt current;
|}.
(** [case kind: require a state; next.Status = status] *)
Definition run_move (allowed : list RunStatus) (status : RunStatus) : reduce_result RunProjection :=
  let? _ := requireRunState allowed in Ok (run_with_status status).

Definition route_fields : list (string * FieldKind) :=
  [string_field "workflowDigest"; string_field "routeDigest"; raw_field "routeSnapshot"].
Definition boundary_fields : list (string * FieldKind) :=
  [string_field "entry"; strings_field "terminals"].

(** The snapshot decodes to an entry and at least one terminal. *)
Definition has_boundaries (snapshot : RawMessage) : bool :=
  match Unmarshal_struct boundary_fields snapshot with
  | None => false
  | Some boundaries =>
      bool_decide (get_string boundaries "entry" ≠ "") &&
      bool_decide (length (get_strings boundaries "terminals") ≠ 0)
  end.

Definition run_route_frozen : reduce_result RunProjection :=
  let? _ := requireRunState [RunDraft] in
  let? data := decodeData event route_fields in
  let workflowDigest := get_string data "workflowDigest" in
  let routeDigest := get_string data "routeDigest" in
  let routeSnapshot := get_raw data "routeSnapshot" in
  let completeSnapshot := bool_decide (workflowDigest ≠ "" ∧ routeDigest ≠ "" ∧ routeSnapshot ≠ "") in
  let emptySnapshot := bool_decide (workflowDigest = "" ∧ routeDigest = "" ∧ routeSnapshot = "") in
  if negb completeSnapshot && negb emptySnapshot then
    refuse "run.route_frozen requires workflowDigest, routeDigest, and routeSnapshot together"
  else if completeSnapshot && (negb (validSourceHash workflowDigest) || negb (validSourceHash routeDigest))
  then refuse "run.route_frozen digests must be SHA-256 hashes"
  else if completeSnapshot && negb (has_boundaries routeSnapshot) then
    refuse "run.route_frozen routeSnapshot requires an entry and at least one terminal boundary"
  else Ok (run_with_route data RunReady).

Definition run_started : reduce_result RunProjection :=
  let? _ := requireRunState [RunDraft; RunReady] in
  Ok (run_with_status (if decide (run_Status current = RunDraft) then RunRunning else RunQueued)).

Definition run_continued : reduce_result RunProjection :=
  let? _ := requireRunState [RunCompleted] in
  let? data := decodeData event (route_fields ++ [string_field "until"]) in
  if negb (validSourceHash (get_string data "workflowDigest")) ||
     negb (validSourceHash (get_string data "routeDigest")) ||
     bool_decide (get_raw data "routeSnapshot" = "") || bool_decide (get_string data "until" = "")
  then refuse "run.continued requires workflow and route digests, a route snapshot, and an until boundary"
  else if negb (has_boundaries (get_raw data "routeSnapshot")) then
    refuse "run.continued routeSnapshot requires an entry and at least one terminal boundary"
  else Ok (run_with_route data RunQueued).

Definition run_guidance_requested : reduce_result RunProjection :=
  let? _ := requireRunState [RunRunning] in
  let? data := decodeData event [string_field "id"; string_field "message"; string_field "attemptId"] in
  if bool_decide (get_string data "id" = "") || bool_decide (get_string data "message" = "") ||
     bool_decide (get_string data "attemptId" = "")
  then refuse "guidance requires a message and attempt"
  else Ok current.

Definition run_guidance_delivery : reduce_result RunProjection :=
  let? data := decodeData event [string_field "id"; string_field "status"] in
  if bool_decide (get_string data "id" = "") ||
     bool_decide (get_string data "status" ≠ "accepted" ∧ get_string data "status" ≠ "unconfirmed")
  then refuse "guidance delivery requires an explicit outcome"
  else Ok current.

Definition run_invalid : reduce_result RunProjection :=
  invalidTransition "run" (run_RunID current) (run_Status current) (ev_Kind event).

Definition run_cases : list (string * (unit → reduce_result RunProjection)) := [
  ("context.frozen", λ _, let? _ := requireRunState [RunDraft] in Ok current);
  ("run.route_frozen", λ _, run_route_frozen);
  ("run.started", λ _, run_started);
  ("run.visit_ready", λ _, run_move [RunQueued] RunRunning);
  ("run.waiting", λ _, run_move [RunRunning] RunWaiting);
  ("run.input_required", λ _,
    let? _ := requireRunState [RunQueued] in
    let? _ := requireIssueData event in Ok (run_with_status RunWaiting));
  ("run.paused", λ _, run_move [RunQueued; RunRunning] RunWaiting);
  ("run.blocked", λ _, run_move [RunRunning] RunBlocked);
  ("run.resumed", λ _, run_move [RunWaiting; RunBlocked; RunFailed] RunQueued);
  ("run.retried", λ _, run_move [RunFailed] RunQueued);
  ("run.continued", λ _, run_continued);
  ("run.guidance_requested", λ _, run_guidance_requested);
  ("run.guidance_delivery", λ _, run_guidance_delivery);
  ("run.completed", λ _, run_move [RunRunning] RunCompleted);
  ("run.failed", λ _,
    let? _ := requireRunState [RunRunning] in
    let? _ := validateOptionalIssueData event in Ok (run_with_status RunFailed));
  ("run.admission_failed", λ _,
    let? _ := requireRunState [RunQueued] in
    let? _ := requireIssueData event in Ok (run_with_status RunFailed));
  ("run.cancelled", λ _,
    if RunTerminal (run_Status current) && bool_decide (run_Status current ≠ RunReconcileRequired)
    then run_invalid else Ok (run_with_status RunCancelled));
  ("run.reconcile_required", λ _,
    if RunTerminal (run_Status current) then run_invalid
    else let? _ := validateOptionalIssueData event in Ok (run_with_status RunReconcileRequired))].

Definition run_advanced (next : RunProjection) : RunProjection := {|
  run_RunID := run_RunID next; run_WorkItemID := run_WorkItemID next;
  run_WorkflowID := run_WorkflowID next; run_WorkflowVersion := run_WorkflowVersion next;
  run_WorkflowDigest := run_WorkflowDigest next; run_RouteDigest := run_RouteDigest next;
  run_RouteSnapshot := run_RouteSnapshot next; run_Priority := run_Priority next;
  run_Status := run_Status next; run_ResourceVersion := ev_AggregateRevision event;
  run_LastGlobalPosition := ev_GlobalPosition event;
  run_CreatedAt := run_CreatedAt next; run_UpdatedAt := ev_RecordedAt event;
|}.

Definition run_applied : reduce_result RunProjection :=
  let? _ := check_current "run" "run" (run_RunID current) (run_ResourceVersion current) event in
  let? next := switch (ev_Kind event) run_cases run_invalid in
  Ok (run_advanced next).
End run.

Definition run_created (event : Event) : reduce_result RunProjection :=
  let? _ := require_created "run" "run.created" event in
  let? data := decodeData event [string_field "workItemId"; string_field "workflowId";
                                 string_field "workflowVersion"; int_field "priority"] in
  if bool_decide (get_string data "workItemId" = "") || bool_decide (get_string data "workflowId" = "") ||
     bool_decide (get_string data "workflowVersion" = "")
  then refuse "run.created requires workItemId, workflowId, and workflowVersion"
  else Ok {|
    run_RunID := ev_AggregateID event; run_WorkItemID := get_string data "workItemId";
    run_WorkflowID := get_string data "workflowId";
    run_WorkflowVersion := get_string data "workflowVersion";
    run_WorkflowDigest := ""; run_RouteDigest := ""; run_RouteSnapshot := "";
    run_Priority := get_int data "priority"; run_Status := RunDraft;
    run_ResourceVersion := ev_AggregateRevision event;
    run_LastGlobalPosition := ev_GlobalPosition event;
    run_CreatedAt := ev_RecordedAt event; run_UpdatedAt := ev_RecordedAt event;
  |}.

Definition ReduceRun (current : option RunProjection) (event : Event) : reduction RunProjection :=
  reduce AggregateRun event
    match current with
    | None => run_created event
    | Some current => run_applied current event
    end.

(** * Node visits *)
Section node.
Variables (current : NodeProjection) (event : Event).

Definition requireNodeState (allowed : list NodeStatus) : reduce_result unit :=
  require_state "node visit" (node_VisitID current) (node_Status current) (ev_Kind event) allowed.

Definition node_with_status (status : NodeStatus) : NodeProjection := {|
  node_VisitID := node_VisitID current; node_RunID := node_RunID current;
  node_NodeID := node_NodeID current; node_Status := status;
  node_ResourceVersion := node_ResourceVersion current;
  node_LastGlobalPosition := node_LastGlobalPosition current;
  node_CreatedAt := node_CreatedAt current; node_UpdatedAt := node_UpdatedAt current;
|}.
Definition node_move (allowed : list NodeStatus) (status : NodeStatus)
  : reduce_result NodeProjection :=
  let? _ := requireNodeState allowed in Ok (node_with_status status).
Definition node_invalid : reduce_result NodeProjection :=
  invalidTransition "node visit" (node_VisitID current) (node_Status current) (ev_Kind event).

Definition node_cases : list (string * (unit → reduce_result NodeProjection)) := [
  ("visit.ready", λ _, node_move [NodePending] NodeReady);
  ("visit.started", λ _, node_move [NodeReady] NodeRunning);
  ("visit.result_received", λ _, node_move [NodeRunning] NodeValidating);
  ("visit.succeeded", λ _, node_move [NodeValidating; NodeWaitingCheckpoint] NodeSucceeded);
  ("visit.waiting_checkpoint", λ _, node_move [NodeValidating] NodeWaitingCheckpoint);
  ("visit.changes_requested", λ _, node_move [NodeWaitingCheckpoint] NodeRunning);
  ("visit.rejected", λ _, node_move [NodeWaitingCheckpoint] NodeRejected);
  ("visit.retrying", λ _, node_move [NodeRunning; NodeValidating; NodeFailed] NodeReady);
  ("visit.failed", λ _, node_move [NodeRunning; NodeValidating] NodeFailed);
  ("visit.admission_failed", λ _,
    let? _ := requireNodeState [NodePending; NodeReady] in
    let? _ := requireIssueData event in Ok (node_with_status NodeFailed));
  ("visit.cancelled", λ _,
    if NodeTerminal (node_Status current) then node_invalid
    else Ok (node_with_status NodeCancelled))].

Definition node_advanced (next : NodeProjection) : NodeProjection := {|
  node_VisitID := node_VisitID next; node_RunID := node_RunID next;
  node_NodeID := node_NodeID next; node_Status := node_Status next;
  node_ResourceVersion := ev_AggregateRevision event;
  node_LastGlobalPosition := ev_GlobalPosition event;
  node_CreatedAt := node_CreatedAt next; node_UpdatedAt := ev_RecordedAt event;
|}.

Definition node_applied : reduce_result NodeProjection :=
  let? _ := check_current "node" "node visit" (node_VisitID current)
              (node_ResourceVersion current) event in
  let? next := switch (ev_Kind event) node_cases node_invalid in
  Ok (node_advanced next).
End node.

Definition node_created (event : Event) : reduce_result NodeProjection :=
  let? _ := require_created "node visit" "visit.created" event in
  let? data := decodeData event [string_field "runId"; string_field "nodeId"] in
  if bool_decide (get_string data "runId" = "") || bool_decide (get_string data "nodeId" = "")
  then refuse "visit.created requires runId and nodeId"
  else Ok {|
    node_VisitID := ev_AggregateID event; node_RunID := get_string data "runId";
    node_NodeID := get_string data "nodeId"; node_Status := NodePending;
    node_ResourceVersion := ev_AggregateRevision event;
    node_LastGlobalPosition := ev_GlobalPosition event;
    node_CreatedAt := ev_RecordedAt event; node_UpdatedAt := ev_RecordedAt event;
  |}.

Definition ReduceNode (current : option NodeProjection) (event : Event) : reduction NodeProjection :=
  reduce AggregateVisit event
    match current with
    | None => node_created event
    | Some current => node_applied current event
    end.

(** * Attempts *)
Section attempt.
Variables (current : AttemptProjection) (event : Event).

Definition requireAttemptState (allowed : list AttemptStatus) : reduce_result unit :=
  require_state "attempt" (att_AttemptID current) (att_Status current) (ev_Kind event) allowed.

(** The fields events change: status, provider identity, owner and sequence. *)
Definition attempt_with (status : AttemptStatus) (thread turn owner : string) (sequence : Z)
  : AttemptProjection := {|
  att_AttemptID := att_AttemptID current; att_RunID := att_RunID current;
  att_VisitID := att_VisitID current; att_NodeID := att_NodeID current;
  att_PointID := att_PointID current; att_PointRevision := att_PointRevision current;
  att_Priority := att_Priority current; att_Scenario := att_Scenario current;
  att_Provider := att_Provider current; att_Status := status;
  att_ProviderThreadID := thread; att_ProviderTurnID := turn; att_ProcessOwnerID := owner;
  att_LastSequence := sequence; att_LogReference := att_LogReference current;
  att_ResourceVersion := att_ResourceVersion current;
  att_LastGlobalPosition := att_LastGlobalPosition current;
  att_CreatedAt := att_CreatedAt current; att_UpdatedAt := att_UpdatedAt current;
|}.
Definition attempt_with_status (status : AttemptStatus) : AttemptProjection :=
  attempt_with status (att_ProviderThreadID current) (att_ProviderTurnID current)
    (att_ProcessOwnerID current) (att_LastSequence current).
Definition attempt_move (allowed : list AttemptStatus) (status : AttemptStatus)
  : reduce_result AttemptProjection :=
  let? _ := requireAttemptState allowed in Ok (attempt_with_status status).
Definition attempt_invalid : reduce_result AttemptProjection :=
  invalidTransition "attempt" (att_AttemptID current) (att_Status current) (ev_Kind event).

Definition recovery_fields : list (string * FieldKind) :=
  [string_field "providerThreadId"; string_field "providerTurnId"; string_field "processOwnerId"].

Definition attempt_started : reduce_result AttemptProjection :=
  let? _ := requireAttemptState [AttemptCreated; AttemptStarting] in
  let? data := decodeData event recovery_fields in
  let thread := get_string data "providerThreadId" in
  let turn := get_string data "providerTurnId" in
  let owner := get_string data "processOwnerId" in
  if bool_decide (thread = "") || bool_decide (turn = "") || bool_decide (owner = "") then
    Err (Refused (Msg "%s requires complete provider recovery identity" [AStr (ev_Kind event)]))
  else Ok (attempt_with AttemptRunning thread turn owner (att_LastSequence current)).

Definition attempt_resumed : reduce_result AttemptProjection :=
  let? _ := requireAttemptState [AttemptRunning] in
  let? data := decodeData event recovery_fields in
  if bool_decide (get_string data "providerThreadId" ≠ att_ProviderThreadID current) ||
     bool_decide (get_string data "providerTurnId" ≠ att_ProviderTurnID current) ||
     bool_decide (get_string data "processOwnerId" = "")
  then refuse "attempt.resumed recovery identity does not match the running attempt"
  else Ok (attempt_with (att_Status current) (att_ProviderThreadID current)
             (att_ProviderTurnID current) (get_string data "processOwnerId")
             (att_LastSequence current)).

Definition attempt_provider_event : reduce_result AttemptProjection :=
  let? data := decodeData event [uint64_field "sequence"] in
  let sequence := get_int data "sequence" in
  if bool_decide (att_Status current ≠ AttemptRunning) || (sequence <=? att_LastSequence current)%Z
  then Err (Refused (Msg "attempt %s provider sequence %d does not advance %d while running"
              [AStr (att_AttemptID current); AInt sequence; AInt (att_LastSequence current)]))
  else Ok (attempt_with (att_Status current) (att_ProviderThreadID current)
             (att_ProviderTurnID current) (att_ProcessOwnerID current) sequence).

Definition attempt_cancellation_reconciled : reduce_result AttemptProjection :=
  if decide (att_Status current ≠ AttemptReconcileRequired) then attempt_invalid
  else
    let? data := decodeData event [string_field "disposition"] in
    if decide (get_string data "disposition" ∉ ["graceful"; "forced"; "already_terminal"])
    then refuse "cancellation reconciliation requires confirmed provider evidence"
    else Ok (attempt_with_status AttemptCancelled).

Definition attempt_cases : list (string * (unit → reduce_result AttemptProjection)) := [
  ("attempt.resources_acquired", λ _, attempt_move [AttemptCreated] AttemptStarting);
  ("attempt.started", λ _, attempt_started);
  ("attempt.resumed", λ _, attempt_resumed);
  ("attempt.provider_event", λ _, attempt_provider_event);
  ("attempt.result_received", λ _, attempt_move [AttemptRunning] AttemptValidating);
  ("attempt.succeeded", λ _, attempt_move [AttemptValidating] AttemptSucceeded);
  ("attempt.completed", λ _, attempt_move [AttemptRunning; AttemptValidating] AttemptSucceeded);
  ("attempt.failed", λ _,
    attempt_move [AttemptCreated; AttemptStarting; AttemptRunning; AttemptValidating] AttemptFailed);
  ("attempt.cancellation_reconciled", λ _, attempt_cancellation_reconciled);
  ("attempt.cancelled", λ _,
    if AttemptTerminal (att_Status current) then attempt_invalid
    else Ok (attempt_with_status AttemptCancelled));
  ("attempt.interrupted", λ _,
    if AttemptTerminal (att_Status current) then attempt_invalid
    else Ok (attempt_with_status AttemptInterrupted));
  ("attempt.reconcile_required", λ _,
    if AttemptTerminal (att_Status current) then attempt_invalid
    else let? _ := validateOptionalIssueData event in
         Ok (attempt_with_status AttemptReconcileRequired))].

Definition attempt_advanced (next : AttemptProjection) : AttemptProjection := {|
  att_AttemptID := att_AttemptID next; att_RunID := att_RunID next;
  att_VisitID := att_VisitID next; att_NodeID := att_NodeID next;
  att_PointID := att_PointID next; att_PointRevision := att_PointRevision next;
  att_Priority := att_Priority next; att_Scenario := att_Scenario next;
  att_Provider := att_Provider next; att_Status := att_Status next;
  att_ProviderThreadID := att_ProviderThreadID next;
  att_ProviderTurnID := att_ProviderTurnID next; att_ProcessOwnerID := att_ProcessOwnerID next;
  att_LastSequence := att_LastSequence next; att_LogReference := att_LogReference next;
  att_ResourceVersion := ev_AggregateRevision event;
  att_LastGlobalPosition := ev_GlobalPosition event;
  att_CreatedAt := att_CreatedAt next; att_UpdatedAt := ev_RecordedAt event;
|}.

Definition attempt_applied : reduce_result AttemptProjection :=
  let? _ := check_current "attempt" "attempt" (att_AttemptID current)
              (att_ResourceVersion current) event in
  let? next := switch (ev_Kind event) attempt_cases attempt_invalid in
  Ok (attempt_advanced next).
End attempt.

Definition attempt_created (event : Event) : reduce_result AttemptProjection :=
  let? _ := require_created "attempt" "attempt.created" event in
  let? data := decodeData event [
    string_field "runId"; string_field "visitId"; string_field "nodeId"; string_field "scenario";
    string_field "provider"; string_field "logReference"; string_field "pointId";
    uint64_field "pointRevision"; int_field "priority"] in
  let runID := get_string data "runId" in
  let visitID := get_string data "visitId" in
  let nodeID := get_string data "nodeId" in
  let scenario := get_string data "scenario" in
  let provider := get_string data "provider" in
  let logRef := get_string data "logReference" in
  let pointID := get_string data "pointId" in
  let pointRevision := get_int data "pointRevision" in
  let priority := get_int data "priority" in
  let visitOwned := bool_decide (nodeID ≠ "" ∧ pointID = "" ∧ pointRevision = 0%Z) in
  let pointOwned := bool_decide (nodeID = "" ∧ visitID = "" ∧ pointID ≠ "" ∧ (0 < pointRevision)%Z) in
  if bool_decide (runID = "") || bool_decide (scenario = "") || bool_decide (provider = "") ||
     bool_decide (logRef = "") || (priority <? 0)%Z || (negb visitOwned && negb pointOwned)
  then refuse "attempt.created requires runId, provider data, non-negative priority, and exactly one visit or point-revision owner"
  else Ok {|
    att_AttemptID := ev_AggregateID event; att_RunID := runID; att_VisitID := visitID;
    att_NodeID := nodeID; att_PointID := pointID; att_PointRevision := pointRevision;
    att_Priority := priority; att_Scenario := scenario; att_Provider := provider;
    att_Status := AttemptCreated; att_ProviderThreadID := ""; att_ProviderTurnID := "";
    att_ProcessOwnerID := ""; att_LastSequence := 0; att_LogReference := logRef;
    att_ResourceVersion := ev_AggregateRevision event;
    att_LastGlobalPosition := ev_GlobalPosition event;
    att_CreatedAt := ev_RecordedAt event; att_UpdatedAt := ev_RecordedAt event;
  |}.

Definition ReduceAttempt (current : option AttemptProjection) (event : Event)
  : reduction AttemptProjection :=
  reduce AggregateAttempt event
    match current with
    | None => attempt_created event
    | Some current => attempt_applied current event
    end.

(** * Approvals *)
Definition validApprovalClass (class : ApprovalClass) : bool :=
  bool_decide (class ∈ [ApprovalWorkflowCheckpoint; ApprovalWorkflowControl;
                        ApprovalProviderPermission; ApprovalExternalDelivery]).

Definition requested_fields : list (string * FieldKind) := [
  string_field "runId"; string_field "class"; string_field "checkpointId"; string_field "visitId";
  string_field "nodeId"; string_field "attemptId"; uint64_field "checkpointRevision";
  string_field "candidateArtifactId"; uint64_field "candidateArtifactVersion";
  string_field "candidateDigest"; string_field "checkpointMode";
  ("maxRevisions", Simple KUint64Ptr); string_field "scopeDigest"; string_field "policyDigest"].

(** The subject an artifact checkpoint or a workflow control names. *)
Section subject.
Variable data : StructFields.
Abbreviation str := (get_string data).
Abbreviation num := (get_int data).

Definition checkpointFields : bool :=
  bool_decide (str "checkpointId" ≠ "" ∨ str "visitId" ≠ "" ∨ str "nodeId" ≠ "" ∨
    str "attemptId" ≠ "" ∨ num "checkpointRevision" ≠ 0%Z ∨ str "candidateArtifactId" ≠ "" ∨
    num "candidateArtifactVersion" ≠ 0%Z ∨ str "candidateDigest" ≠ "" ∨
    str "checkpointMode" ≠ "" ∨ get_uint64_ptr data "maxRevisions" ≠ None).
Definition controlSubject : bool :=
  bool_decide (str "class" = ApprovalWorkflowControl ∧ str "visitId" ≠ "" ∧ str "nodeId" ≠ "" ∧
    str "attemptId" ≠ "" ∧ str "checkpointId" = "" ∧ num "checkpointRevision" = 0%Z ∧
    str "candidateArtifactId" = "" ∧ num "candidateArtifactVersion" = 0%Z ∧
    str "candidateDigest" = "" ∧ str "checkpointMode" = "" ∧
    get_uint64_ptr data "maxRevisions" = None).
Definition completeSubject : bool :=
  bool_decide (str "class" = ApprovalWorkflowCheckpoint ∧ str "checkpointId" ≠ "" ∧
    str "visitId" ≠ "" ∧ str "nodeId" ≠ "" ∧ str "attemptId" ≠ "" ∧
    (0 < num "checkpointRevision")%Z ∧ str "candidateArtifactId" ≠ "" ∧
    (0 < num "candidateArtifactVersion")%Z ∧ str "candidateDigest" ≠ "" ∧
    (str "checkpointMode" = "approve" ∨ str "checkpointMode" = "approve_on_change")) &&
  match get_uint64_ptr data "maxRevisions" with None => true | Some n => (0 <? n)%Z end.
End subject.

Definition approval_requested (event : Event) : reduce_result ApprovalProjection :=
  let? _ := require_created "approval" "approval.requested" event in
  let? data := decodeData event requested_fields in
  if bool_decide (get_string data "runId" = "") || bool_decide (get_string data "scopeDigest" = "") ||
     bool_decide (get_string data "policyDigest" = "") || negb (validApprovalClass (get_string data "class"))
  then refuse "approval.requested requires runId, a valid class, scopeDigest, and policyDigest"
  else if checkpointFields data && negb (completeSubject data) && negb (controlSubject data)
  then refuse "artifact checkpoint approval.requested requires one complete checkpoint subject"
  else Ok {|
    app_ApprovalID := ev_AggregateID event; app_RunID := get_string data "runId";
    app_Class := get_string data "class"; app_Status := ApprovalPending;
    app_CheckpointID := get_string data "checkpointId"; app_VisitID := get_string data "visitId";
    app_NodeID := get_string data "nodeId"; app_AttemptID := get_string data "attemptId";
    app_CheckpointRevision := get_int data "checkpointRevision";
    app_CandidateArtifactID := get_string data "candidateArtifactId";
    app_CandidateArtifactVersion := get_int data "candidateArtifactVersion";
    app_CandidateDigest := get_string data "candidateDigest";
    app_CheckpointMode := get_string data "checkpointMode";
    app_MaxRevisions := get_uint64_ptr data "maxRevisions";
    app_ScopeDigest := get_string data "scopeDigest";
    app_PolicyDigest := get_string data "policyDigest"; app_Decision := None;
    app_ResourceVersion := ev_AggregateRevision event;
    app_LastGlobalPosition := ev_GlobalPosition event;
    app_CreatedAt := ev_RecordedAt event; app_UpdatedAt := ev_RecordedAt event;
  |}.

Section approval.
Variables (current : ApprovalProjection) (event : Event).

Definition approval_with (status : ApprovalStatus) (decision : option ApprovalDecisionProjection)
  : ApprovalProjection := {|
  app_ApprovalID := app_ApprovalID current; app_RunID := app_RunID current;
  app_Class := app_Class current; app_Status := status;
  app_CheckpointID := app_CheckpointID current; app_VisitID := app_VisitID current;
  app_NodeID := app_NodeID current; app_AttemptID := app_AttemptID current;
  app_CheckpointRevision := app_CheckpointRevision current;
  app_CandidateArtifactID := app_CandidateArtifactID current;
  app_CandidateArtifactVersion := app_CandidateArtifactVersion current;
  app_CandidateDigest := app_CandidateDigest current;
  app_CheckpointMode := app_CheckpointMode current; app_MaxRevisions := app_MaxRevisions current;
  app_ScopeDigest := app_ScopeDigest current; app_PolicyDigest := app_PolicyDigest current;
  app_Decision := decision; app_ResourceVersion := app_ResourceVersion current;
  app_LastGlobalPosition := app_LastGlobalPosition current;
  app_CreatedAt := app_CreatedAt current; app_UpdatedAt := app_UpdatedAt current;
|}.
Definition approval_with_status (status : ApprovalStatus) : ApprovalProjection :=
  approval_with status (app_Decision current).
Definition approval_invalid {A} : reduce_result A :=
  invalidTransition "approval" (app_ApprovalID current) (app_Status current) (ev_Kind event).

(** [current.Class != workflow_checkpoint || current.Status != pending] *)
Definition require_pending_checkpoint : reduce_result unit :=
  if decide (app_Class current = ApprovalWorkflowCheckpoint ∧ app_Status current = ApprovalPending)
  then Ok tt else approval_invalid.
Definition require_pending : reduce_result unit :=
  if decide (app_Status current = ApprovalPending) then Ok tt else approval_invalid.

(** The candidate and scope the data must repeat. *)
Definition other_candidate (data : StructFields) : bool :=
  bool_decide (get_string data "candidateDigest" ≠ app_CandidateDigest current ∨
               get_string data "scopeDigest" ≠ app_ScopeDigest current).

Definition approval_feedback_submitted : reduce_result ApprovalProjection :=
  let? _ := require_pending_checkpoint in
  let? data := decodeData event [
    string_field "feedbackSetId"; string_field "candidateDigest"; string_field "scopeDigest";
    string_field "policyDigest"; string_field "message"; string_field "overallInstruction"] in
  let legacy := bool_decide (get_string data "feedbackSetId" = "" ∧ get_string data "message" ≠ "") in
  let anchored := bool_decide (get_string data "feedbackSetId" ≠ "" ∧
    get_string data "overallInstruction" ≠ "" ∧
    get_string data "policyDigest" = app_PolicyDigest current) in
  if other_candidate data || (negb legacy && negb anchored)
  then refuse "approval.feedback_submitted must match the current candidate and contain feedback"
  else Ok current.

Definition approval_revision_resumed : reduce_result ApprovalProjection :=
  let? _ := require_pending_checkpoint in
  let? data := decodeData event [
    string_field "candidateDigest"; string_field "scopeDigest"; string_field "attemptId"] in
  if other_candidate data || bool_decide (get_string data "attemptId" = "")
  then refuse "approval.revision_resumed must match the current candidate and name an attempt"
  else Ok current.

Definition candidate_fields : list (string * SimpleKind) :=
  [("artifactId", KString); ("version", KUint64)].

(** The resulting candidate is the next version of the current artifact. *)
Definition next_candidate (data : StructFields) : bool :=
  match get_struct data "resultingCandidate" with
  | None => false
  | Some candidate =>
      bool_decide (simple_string (candidate !! "artifactId") = app_CandidateArtifactID current) &&
      bool_decide (simple_int (candidate !! "version") = uint64 (app_CandidateArtifactVersion current + 1)) &&
      bool_decide (get_string data "resultingDigest" ≠ "")
  end.

Definition approval_agent_responded : reduce_result ApprovalProjection :=
  let? _ := require_pending_checkpoint in
  let? data := decodeData event [
    string_field "candidateDigest"; string_field "scopeDigest"; string_field "attemptId";
    string_field "outcome"; ("resultingCandidate", StructPtr candidate_fields);
    string_field "resultingDigest"] in
  if other_candidate data || bool_decide (get_string data "attemptId" = "")
  then refuse "approval.agent_responded must match the current candidate and attempt"
  else if decide (get_string data "outcome" = "revised") then
    if negb (next_candidate data)
    then refuse "revised agent response requires the next exact candidate"
    else Ok (approval_with_status ApprovalChangesRequested)
  else if decide (get_string data "outcome" ∈ ["failed"; "cancelled"]) then
    if decide (get_struct data "resultingCandidate" ≠ None ∨ get_string data "resultingDigest" ≠ "")
    then refuse "failed or cancelled agent response cannot replace the candidate"
    else Ok current
  else refuse "approval.agent_responded has invalid outcome".

Definition decided_status (action : string) : option ApprovalStatus :=
  if decide (action = "approve") then Some ApprovalApproved
  else if decide (action ∈ ["acknowledge"; "satisfy_external"; "allow_once"; "allow_for_session"])
  then Some ApprovalApproved
  else if decide (action = "request_changes") then Some ApprovalChangesRequested
  else if decide (action = "reject") then Some ApprovalRejected
  else if decide (action = "deny") then Some ApprovalDenied
  else None.

Definition approval_decided : reduce_result ApprovalProjection :=
  let? _ := require_pending in
  let? data := decodeData event [
    string_field "action"; string_field "scopeDigest"; string_field "policyDigest";
    string_field "comment"] in
  if bool_decide (app_CheckpointID current ≠ "") &&
     bool_decide (get_string data "scopeDigest" ≠ app_ScopeDigest current ∨
                  get_string data "policyDigest" ≠ app_PolicyDigest current)
  then refuse "approval.decided scope or policy digest does not match the pending request"
  else
    match decided_status (get_string data "action") with
    | None => Err (Refused (Msg "approval.decided has invalid action %q"
                              [AStr (get_string data "action")]))
    | Some status =>
        Ok (approval_with status (Some {|
          dec_Action := get_string data "action"; dec_ActionKey := ev_CommandID event;
          dec_Comment := get_string data "comment"; dec_Actor := ev_Actor event;
          dec_DecidedAt := ev_RecordedAt event |}))
    end.

Definition approval_cases : list (string * (unit → reduce_result ApprovalProjection)) := [
  ("approval.feedback_submitted", λ _, approval_feedback_submitted);
  ("approval.revision_resumed", λ _, approval_revision_resumed);
  ("approval.agent_responded", λ _, approval_agent_responded);
  ("approval.decided", λ _, approval_decided);
  ("approval.cancelled", λ _, let? _ := require_pending in Ok (approval_with_status ApprovalCancelled));
  ("approval.expired", λ _, let? _ := require_pending in Ok (approval_with_status ApprovalExpired))].

Definition approval_advanced (next : ApprovalProjection) : ApprovalProjection := {|
  app_ApprovalID := app_ApprovalID next; app_RunID := app_RunID next;
  app_Class := app_Class next; app_Status := app_Status next;
  app_CheckpointID := app_CheckpointID next; app_VisitID := app_VisitID next;
  app_NodeID := app_NodeID next; app_AttemptID := app_AttemptID next;
  app_CheckpointRevision := app_CheckpointRevision next;
  app_CandidateArtifactID := app_CandidateArtifactID next;
  app_CandidateArtifactVersion := app_CandidateArtifactVersion next;
  app_CandidateDigest := app_CandidateDigest next;
  app_CheckpointMode := app_CheckpointMode next; app_MaxRevisions := app_MaxRevisions next;
  app_ScopeDigest := app_ScopeDigest next; app_PolicyDigest := app_PolicyDigest next;
  app_Decision := app_Decision next; app_ResourceVersion := ev_AggregateRevision event;
  app_LastGlobalPosition := ev_GlobalPosition event;
  app_CreatedAt := app_CreatedAt next; app_UpdatedAt := ev_RecordedAt event;
|}.

Definition approval_applied : reduce_result ApprovalProjection :=
  let? _ := check_current "approval" "approval" (app_ApprovalID current)
              (app_ResourceVersion current) event in
  let? next := switch (ev_Kind event) approval_cases approval_invalid in
  Ok (approval_advanced next).
End approval.

Definition ReduceApproval (current : option ApprovalProjection) (event : Event)
  : reduction ApprovalProjection :=
  reduce AggregateApproval event
    match current with
    | None => approval_requested event
    | Some current => approval_applied current event
    end.
