(* ===== verification/WorkReducer.v ===== *)
(** The projection reducers of projects, work items, stories and points:
    [runtime/src/core/projection/work.go]. *)
From S2P Require Import Prelude GoStrings GoJson GoDecode StateStore Reducer.
From stdpp Require Import options.

(** [value == strings.TrimSpace(value)] *)
Definition trimmed (value : string) : bool := bool_decide (value = TrimSpace value).

Definition validateCurrent (kind id : string) (revision : Z) (event : Event) : reduce_result unit :=
  check_current kind kind id revision event.

(** One identifier of a list of distinct ones. *)
Definition distinct_step (valid : string → bool) (message : string) (seen : gset string)
    (value : string) : reduce_result (gset string) :=
  if negb (valid value) || bool_decide (value ∈ seen) then refuse message
  else Ok ({[value]} ∪ seen).
Definition require_distinct (valid : string → bool) (message : string) (values : list string)
  : reduce_result unit :=
  let? _ := foldM (distinct_step valid message) ∅ values in Ok tt.

(** * Projects *)
Definition project_created (event : Event) : reduce_result ProjectProjection :=
  let? _ := require_created "project" "project.created" event in
  let? data := decodeData event [string_field "Name"; string_field "SourceHash"] in
  if bool_decide (get_string data "Name" = "") || negb (validSourceHash (get_string data "SourceHash"))
  then refuse "project.created requires name and a SHA-256 sourceHash"
  else Ok {|
    prj_ProjectID := ev_AggregateID event; prj_Name := get_string data "Name";
    prj_SourceHash := get_string data "SourceHash"; prj_Status := ProjectActive;
    prj_ResourceVersion := ev_AggregateRevision event;
    prj_LastGlobalPosition := ev_GlobalPosition event;
    prj_CreatedAt := ev_RecordedAt event; prj_UpdatedAt := ev_RecordedAt event |}.

Section project.
Variables (current : ProjectProjection) (event : Event).
Definition project_invalid : reduce_result ProjectStatus :=
  invalidTransition "project" (prj_ProjectID current) (prj_Status current) (ev_Kind event).
Definition project_cases : list (string * (unit → reduce_result ProjectStatus)) := [
  ("project.archived", λ _,
    if decide (prj_Status current ≠ ProjectActive) then project_invalid else Ok ProjectArchived)].
Definition project_applied : reduce_result ProjectProjection :=
  let? _ := validateCurrent "project" (prj_ProjectID current) (prj_ResourceVersion current) event in
  let? status := switch (ev_Kind event) project_cases project_invalid in
  Ok {| prj_ProjectID := prj_ProjectID current; prj_Name := prj_Name current;
        prj_SourceHash := prj_SourceHash current; prj_Status := status;
        prj_ResourceVersion := ev_AggregateRevision event;
        prj_LastGlobalPosition := ev_GlobalPosition event;
        prj_CreatedAt := prj_CreatedAt current; prj_UpdatedAt := ev_RecordedAt event |}.
End project.

Definition ReduceProject (current : option ProjectProjection) (event : Event)
  : reduction ProjectProjection :=
  reduce AggregateProject event
    match current with
    | None => project_created event
    | Some current => project_applied current event
    end.

(** * Work items *)
Definition intent_fields : list (string * SimpleKind) :=
  [("mode", KString); ("workflowId", KString); ("workflowVersion", KString);
   ("entryNodeId", KString); ("terminalNodeIds", KStrings)].
Definition decoded_intent (data : StructFields) : WorkRoutingIntent :=
  let intent := default ∅ (get_struct data "routingIntent") in {|
    wri_Mode := simple_string (intent !! "mode");
    wri_WorkflowID := simple_string (intent !! "workflowId");
    wri_WorkflowVersion := simple_string (intent !! "workflowVersion");
    wri_EntryNodeID := simple_string (intent !! "entryNodeId");
    wri_TerminalNodeIDs := simple_strings (intent !! "terminalNodeIds") |}.

(** Any field of an override. *)
Definition has_override (intent : WorkRoutingIntent) : bool :=
  bool_decide (wri_WorkflowID intent ≠ "" ∨ wri_WorkflowVersion intent ≠ "" ∨
               wri_EntryNodeID intent ≠ "" ∨ length (wri_TerminalNodeIDs intent) ≠ 0).

Definition validateWorkRoutingIntent (intent : WorkRoutingIntent) : reduce_result unit :=
  if negb (trimmed (wri_WorkflowID intent)) || negb (trimmed (wri_WorkflowVersion intent)) ||
     negb (trimmed (wri_EntryNodeID intent))
  then refuse "work.created routingIntent fields must be trimmed"
  else
    let? _ := require_distinct (λ nodeID, bool_decide (nodeID ≠ "") && trimmed nodeID)
      "work.created terminalNodeIds must be distinct trimmed non-empty identifiers"
      (wri_TerminalNodeIDs intent) in
    if decide (wri_Mode intent = WorkRoutingAutomatic) then
      if has_override intent
      then refuse "work.created automatic routingIntent cannot contain override fields" else Ok tt
    else if decide (wri_Mode intent = WorkRoutingOverride) then
      if decide (wri_WorkflowID intent = "")
      then refuse "work.created override routingIntent requires workflowId" else Ok tt
    else refuse "work.created routingIntent mode must be automatic or override".

(** An intent without a mode is automatic, and then carries no override. *)
Definition default_mode (intent : WorkRoutingIntent) : reduce_result WorkRoutingIntent :=
  if decide (wri_Mode intent = "") then
    if has_override intent
    then refuse "work.created routingIntent without a mode cannot contain override fields"
    else Ok {| wri_Mode := WorkRoutingAutomatic; wri_WorkflowID := wri_WorkflowID intent;
               wri_WorkflowVersion := wri_WorkflowVersion intent;
               wri_EntryNodeID := wri_EntryNodeID intent;
               wri_TerminalNodeIDs := wri_TerminalNodeIDs intent |}
  else Ok intent.

Definition work_created (event : Event) : reduce_result WorkItemProjection :=
  let? _ := require_created "work item" "work.created" event in
  let? data := decodeData event [
    string_field "projectId"; string_field "title"; string_field "details";
    strings_field "evidence"; ("routingIntent", Struct intent_fields);
    string_field "sourceHash"; int_field "priority"] in
  if bool_decide (get_string data "projectId" = "") || bool_decide (get_string data "title" = "") ||
     negb (validSourceHash (get_string data "sourceHash")) || (get_int data "priority" <? 0)%Z
  then refuse "work.created requires projectId, title, SHA-256 sourceHash, and non-negative priority"
  else
    let? intent := default_mode (decoded_intent data) in
    let? _ := validateWorkRoutingIntent intent in
    let? _ := require_distinct (λ value, bool_decide (value ≠ "") && trimmed value)
      "work.created evidence must contain distinct trimmed non-empty references"
      (get_strings data "evidence") in
    Ok {|
      wit_WorkItemID := ev_AggregateID event; wit_ProjectID := get_string data "projectId";
      wit_Title := get_string data "title"; wit_Deletion := WorkRetained;
      wit_Details := get_string data "details"; wit_Evidence := get_strings data "evidence";
      wit_RoutingIntent := intent; wit_SourceHash := get_string data "sourceHash";
      wit_Priority := get_int data "priority"; wit_Status := WorkItemOpen;
      wit_ResourceVersion := ev_AggregateRevision event;
      wit_LastGlobalPosition := ev_GlobalPosition event;
      wit_CreatedAt := ev_RecordedAt event; wit_UpdatedAt := ev_RecordedAt event |}.

Section work.
Variables (current : WorkItemProjection) (event : Event).
Abbreviation deletion := (wit_Deletion current).
Abbreviation status := (wit_Status current).
Definition work_invalid : reduce_result (WorkItemStatus * WorkDeletionState) :=
  invalidTransition "work item" (wit_WorkItemID current) status (ev_Kind event).
(** The next status and deletion state. *)
Definition work_cases
  : list (string * (unit → reduce_result (WorkItemStatus * WorkDeletionState))) := [
  ("work.deletion_requested", λ _,
    if decide (deletion ≠ WorkRetained) then refuse "work deletion already requested"
    else Ok (status, WorkDeleting));
  ("work.deleted", λ _,
    if decide (deletion ≠ WorkDeleting) then refuse "work deletion was not requested"
    else Ok (status, WorkDeleted));
  ("work.started", λ _,
    if decide (deletion ≠ WorkRetained) then refuse "work is being deleted"
    else if decide (status ≠ WorkItemOpen) then work_invalid else Ok (WorkItemActive, deletion));
  ("work.completed", λ _,
    if decide (status ≠ WorkItemOpen ∧ status ≠ WorkItemActive) then work_invalid
    else Ok (WorkItemCompleted, deletion));
  ("work.cancelled", λ _,
    if WorkItemTerminal status then work_invalid else Ok (WorkItemCancelled, deletion))].
Definition work_applied : reduce_result WorkItemProjection :=
  let? _ := validateCurrent "work item" (wit_WorkItemID current) (wit_ResourceVersion current) event in
  let? (next_status, next_deletion) := switch (ev_Kind event) work_cases work_invalid in
  Ok {|
    wit_WorkItemID := wit_WorkItemID current; wit_ProjectID := wit_ProjectID current;
    wit_Title := wit_Title current; wit_Deletion := next_deletion;
    wit_Details := wit_Details current; wit_Evidence := wit_Evidence current;
    wit_RoutingIntent := wit_RoutingIntent current; wit_SourceHash := wit_SourceHash current;
    wit_Priority := wit_Priority current; wit_Status := next_status;
    wit_ResourceVersion := ev_AggregateRevision event;
    wit_LastGlobalPosition := ev_GlobalPosition event;
    wit_CreatedAt := wit_CreatedAt current; wit_UpdatedAt := ev_RecordedAt event |}.
End work.

Definition ReduceWorkItem (current : option WorkItemProjection) (event : Event)
  : reduction WorkItemProjection :=
  reduce AggregateWork event
    match current with
    | None => work_created event
    | Some current => work_applied current event
    end.

(** * Stories *)
Definition story_created (event : Event) : reduce_result StoryProjection :=
  let? _ := require_created "story" "story.created" event in
  let? data := decodeData event [
    string_field "workItemId"; string_field "title"; string_field "sourceHash";
    int_field "priority"; int_field "position"] in
  if bool_decide (get_string data "workItemId" = "") || bool_decide (get_string data "title" = "") ||
     negb (validSourceHash (get_string data "sourceHash")) || (get_int data "priority" <? 0)%Z ||
     (get_int data "position" <? 0)%Z
  then refuse "story.created requires workItemId, title, SHA-256 sourceHash, non-negative priority, and non-negative position"
  else Ok {|
    sty_StoryID := ev_AggregateID event; sty_WorkItemID := get_string data "workItemId";
    sty_Title := get_string data "title"; sty_SourceHash := get_string data "sourceHash";
    sty_Priority := get_int data "priority"; sty_Position := get_int data "position";
    sty_Status := StoryPlanned; sty_ResourceVersion := ev_AggregateRevision event;
    sty_LastGlobalPosition := ev_GlobalPosition event;
    sty_CreatedAt := ev_RecordedAt event; sty_UpdatedAt := ev_RecordedAt event |}.

Section story.
Variables (current : StoryProjection) (event : Event).
Definition story_invalid : reduce_result StoryStatus :=
  invalidTransition "story" (sty_StoryID current) (sty_Status current) (ev_Kind event).
Definition story_move (allowed : list StoryStatus) (status : StoryStatus)
  : reduce_result StoryStatus :=
  if decide (sty_Status current ∈ allowed) then Ok status else story_invalid.
Definition story_cases : list (string * (unit → reduce_result StoryStatus)) := [
  ("story.ready", λ _, story_move [StoryPlanned] StoryReady);
  ("story.started", λ _, story_move [StoryReady] StoryRunning);
  ("story.completed", λ _, story_move [StoryRunning] StoryCompleted);
  ("story.cancelled", λ _,
    if StoryTerminal (sty_Status current) then story_invalid else Ok StoryCancelled);
  ("story.retired", λ _,
    if bool_decide (sty_Status current = StoryRunning) || StoryTerminal (sty_Status current)
    then story_invalid else Ok StoryRetired)].
Definition story_applied : reduce_result StoryProjection :=
  let? _ := validateCurrent "story" (sty_StoryID current) (sty_ResourceVersion current) event in
  let? status := switch (ev_Kind event) story_cases story_invalid in
  Ok {|
    sty_StoryID := sty_StoryID current; sty_WorkItemID := sty_WorkItemID current;
    sty_Title := sty_Title current; sty_SourceHash := sty_SourceHash current;
    sty_Priority := sty_Priority current; sty_Position := sty_Position current;
    sty_Status := status; sty_ResourceVersion := ev_AggregateRevision event;
    sty_LastGlobalPosition := ev_GlobalPosition event;
    sty_CreatedAt := sty_CreatedAt current; sty_UpdatedAt := ev_RecordedAt event |}.
End story.

Definition ReduceStory (current : option StoryProjection) (event : Event)
  : reduction StoryProjection :=
  reduce AggregateStory event
    match current with
    | None => story_created event
    | Some current => story_applied current event
    end.

(** * Points *)

(** The contract of one revision, before its identity and status are set. *)
Definition decodePointContract (event : Event) (pointID : string) (wantRevision : Z)
  : reduce_result PointProjection :=
  let? data := decodeData event [
    string_field "storyId"; uint64_field "revision"; string_field "title";
    string_field "sourceHash"; int_field "priority"; int_field "position";
    strings_field "dependencies"] in
  if bool_decide (get_string data "storyId" = "") ||
     bool_decide (get_int data "revision" ≠ wantRevision) ||
     bool_decide (get_string data "title" = "") ||
     negb (validSourceHash (get_string data "sourceHash")) || (get_int data "priority" <? 0)%Z ||
     (get_int data "position" <? 0)%Z
  then refuse "point contract requires storyId, the next revision, title, SHA-256 sourceHash, non-negative priority, and non-negative position"
  else
    let dependencies := sort_strings (get_strings data "dependencies") in
    let? _ := require_distinct (λ dependency, bool_decide (dependency ≠ "" ∧ dependency ≠ pointID))
      "point dependencies must be distinct non-empty point IDs and cannot include self"
      dependencies in
    Ok {|
      pt_PointID := ""; pt_StoryID := get_string data "storyId";
      pt_Revision := get_int data "revision"; pt_Title := get_string data "title";
      pt_SourceHash := get_string data "sourceHash"; pt_Priority := get_int data "priority";
      pt_Position := get_int data "position"; pt_Dependencies := dependencies;
      pt_Status := ""; pt_ResourceVersion := 0; pt_LastGlobalPosition := 0;
      pt_CreatedAt := 0%Z; pt_UpdatedAt := 0%Z |}.

(** The contract with its identity, status, version and times. *)
Definition point_with (contract : PointProjection) (pointID : string) (status : PointStatus)
    (createdAt : Time) (event : Event) : PointProjection := {|
  pt_PointID := pointID; pt_StoryID := pt_StoryID contract; pt_Revision := pt_Revision contract;
  pt_Title := pt_Title contract; pt_SourceHash := pt_SourceHash contract;
  pt_Priority := pt_Priority contract; pt_Position := pt_Position contract;
  pt_Dependencies := pt_Dependencies contract; pt_Status := status;
  pt_ResourceVersion := ev_AggregateRevision event;
  pt_LastGlobalPosition := ev_GlobalPosition event;
  pt_CreatedAt := createdAt; pt_UpdatedAt := ev_RecordedAt event |}.

Definition point_created (event : Event) : reduce_result PointProjection :=
  let? _ := require_created "point" "point.created" event in
  let? contract := decodePointContract event (ev_AggregateID event) 1 in
  Ok (point_with contract (ev_AggregateID event) PointPlanned (ev_RecordedAt event) event).

Section point.
Variables (current : PointProjection) (event : Event).
Definition point_invalid {A} : reduce_result A :=
  invalidTransition "point" (pt_PointID current) (pt_Status current) (ev_Kind event).
(** The next contract and status. *)
Definition point_move (allowed : list PointStatus) (status : PointStatus)
  : reduce_result (PointProjection * PointStatus) :=
  if decide (pt_Status current ∈ allowed) then Ok (current, status) else point_invalid.
Definition point_revised : reduce_result (PointProjection * PointStatus) :=
  if decide (pt_Status current ∈ [PointFailed; PointRejected; PointSuperseded]) then
    let? contract := decodePointContract event (ev_AggregateID event)
                       (uint64 (pt_Revision current + 1)) in
    Ok (contract, PointPlanned)
  else point_invalid.
Definition point_cases : list (string * (unit → reduce_result (PointProjection * PointStatus))) := [
  ("point.ready", λ _, point_move [PointPlanned] PointReady);
  ("point.started", λ _, point_move [PointReady] PointRunning);
  ("point.candidate_produced", λ _, point_move [PointRunning] PointValidating);
  ("point.validation_failed", λ _, point_move [PointValidating] PointFailed);
  ("point.awaiting_approval", λ _, point_move [PointValidating] PointAwaitingApproval);
  ("point.changes_requested", λ _, point_move [PointAwaitingApproval] PointRunning);
  ("point.accepted", λ _, point_move [PointValidating; PointAwaitingApproval] PointAccepted);
  ("point.rejected", λ _, point_move [PointAwaitingApproval] PointRejected);
  ("point.committed", λ _, point_move [PointAccepted] PointCommitted);
  ("point.published", λ _, point_move [PointCommitted] PointPublished);
  ("point.superseded", λ _, point_move [PointCommitted; PointPublished] PointSuperseded);
  ("point.revised", λ _, point_revised);
  ("point.reconcile_required", λ _,
    if PointTerminal (pt_Status current) then point_invalid
    else Ok (current, PointReconcileRequired))].
Definition point_applied : reduce_result PointProjection :=
  let? _ := validateCurrent "point" (pt_PointID current) (pt_ResourceVersion current) event in
  let? next := switch (ev_Kind event) point_cases point_invalid in
  Ok (point_with next.1 (pt_PointID current) next.2 (pt_CreatedAt current) event).
End point.

Definition ReducePoint (current : option PointProjection) (event : Event)
  : reduction PointProjection :=
  reduce AggregatePoint event
    match current with
    | None => point_created event
    | Some current => point_applied current event
    end.
