(* ===== verification/Interaction.v ===== *)
(** Provider interactions: what [runtime/src/ports/provider/events.go] lets a provider ask for
    and shows to a person. *)
From S2P Require Import Prelude GoStrings GoUnicode GoJson GoDecode GoClosed.
From stdpp Require Import options.

Abbreviation InteractionKind := string (only parsing).

(** * Patterns *)
Definition is_letter (c : ascii) : bool := is_lower c || in_range 65 90 c.
Definition is_alnum (c : ascii) : bool := is_letter c || is_digit c.
Definition one_of (chars : string) (c : ascii) : bool := str_exists (λ d, bool_decide (c = d)) chars.

(** [^first rest{0,max}$]. *)
Definition head_tail (first rest : ascii → bool) (maximum : nat) (s : string) : bool :=
  match s with
  | EmptyString => false
  | String c s => first c && str_forall rest s && (str_length s <=? maximum)%nat
  end.
Definition safeInteractionSubjectPattern : string → bool :=
  head_tail is_alnum (λ c, is_alnum c || one_of "._:-" c) 127.
Definition safeCommandPattern : string → bool :=
  head_tail is_alnum (λ c, is_alnum c || one_of " ./_@:+,=-" c) 255.
Definition safeRelativePathPattern : string → bool :=
  head_tail (λ c, is_alnum c || one_of "._-" c) (λ c, is_alnum c || one_of " ./_-" c) 255.
Definition safeCapabilityListPattern (s : string) : bool :=
  forallb (λ part, match part with
                   | EmptyString => false
                   | String c rest => is_letter c && str_forall is_alnum rest
                   end) (Split s ",").
(** A drive letter, a colon and a slash, anywhere. *)
Fixpoint windowsAbsolutePathPattern (s : string) : bool :=
  match s with
  | EmptyString => false
  | String c rest =>
      match rest with
      | String ":" (String d _) => (is_letter c && one_of "\/" d) || windowsAbsolutePathPattern rest
      | _ => windowsAbsolutePathPattern rest
      end
  end.

(** * Texts *)
Definition containsSensitiveDisplayText (lower : string) : bool :=
  existsb (Contains lower)
    ["password"; "passwd"; "secret"; "credential"; "bearer "; "access token"; "api key"; "api_key";
     "api-key"; "apikey"; "--token"; "token="; "token:"; "token-"].

Section interaction.
Context `{!UnicodeLower}.

Definition safeDisplayTarget (value : string) : bool :=
  let lower := ToLower value in
  negb (Contains lower "://") && negb (containsSensitiveDisplayText lower) &&
  negb (windowsAbsolutePathPattern value) && negb (HasPrefix value "\\").

Definition safeDisplayText (value : string) (maximum : nat) : bool :=
  let value := TrimSpace value in
  let lower := ToLower value in
  if bool_decide (value = "") || (maximum <? str_length value)%nat || Contains lower "://" ||
     containsSensitiveDisplayText lower || HasPrefix value "/" || HasPrefix value "\\"
  then false
  else if has_control value then false
  else negb (windowsAbsolutePathPattern value).

(** * Scopes *)
Definition scope_type : GoType :=
  GoStruct [("target", GoString); ("operation", GoString); ("subject", GoString)].
Definition ValidInteractionScope (kind : InteractionKind) (scope : GoValue) : bool :=
  let subject := go_string (field_value "subject" scope) in
  let pair := kind +:+ ":" +:+ go_string (field_value "target" scope) +:+ ":" +:+
              go_string (field_value "operation" scope) in
  if decide (pair = "command:command:execute") then safeCommandPattern subject && safeDisplayTarget subject
  else if decide (pair = "file:file:modify") then
    safeRelativePathPattern subject && safeDisplayTarget subject && negb (Contains subject "..") &&
    negb (HasPrefix subject "/")
  else if decide (pair = "network:network_host:connect") then
    safeInteractionSubjectPattern subject && negb (Contains subject "://")
  else if decide (pair = "permission:provider_capabilities:elevate") then safeCapabilityListPattern subject
  else if decide (pair ∈ ["tool:provider_tool:invoke"; "user:user_input:answer"])
  then safeInteractionSubjectPattern subject
  else false.

(** * Questions *)
Definition question_type : GoType :=
  GoStruct [("id", GoString); ("prompt", GoString); ("options", GoSlice GoString);
            ("schema", GoStruct [("type", GoString); ("allowedValues", GoSlice GoString)])].
Definition request_type : GoType := GoStruct [("questions", GoSlice question_type)].

(** One of distinct texts that are safe to show. *)
Definition option_step (allowed : gset string) (option : string) : result unit (gset string) :=
  if negb (safeDisplayText option 128) || bool_decide (option ∈ allowed) then Err tt
  else Ok ({[option]} ∪ allowed).
Definition question_step (seen : gset string) (question : GoValue) : result unit (gset string) :=
  let id := go_string (field_value "id" question) in
  let options := go_strings (field_value "options" question) in
  let schema := field_value "schema" question in
  if negb (safeInteractionSubjectPattern id) || bool_decide (id ∈ seen) ||
     negb (safeDisplayText (go_string (field_value "prompt" question)) 512) ||
     (32 <? length options)%nat ||
     bool_decide (go_string (schema ≫= field_value "type") ≠ "string")
  then Err tt
  else
    let? _ := foldM option_step ∅ options in
    if decide (go_strings (schema ≫= field_value "allowedValues") = options)
    then Ok ({[id]} ∪ seen) else Err tt.
Definition ValidUserInputRequest (input : GoValue) : bool :=
  let questions := go_elements (field_value "questions" input) in
  if bool_decide (questions = []) || (16 <? length questions)%nat then false
  else match foldM question_step ∅ questions with Ok _ => true | Err _ => false end.
End interaction.

Definition ascii_lower : UnicodeLower := {| lower_rune := λ s, s |}.
Example valid_request_ex :
  (@ValidUserInputRequest ascii_lower <$> decodeClosedJSON request_type (quoted
    "{'questions':[{'id':'q1','prompt':'Ship it?','options':['yes','no'],
      'schema':{'type':'string','allowedValues':['yes','no']}}]}")) = Some true ∧
  (@ValidUserInputRequest ascii_lower <$> decodeClosedJSON request_type (quoted
    "{'questions':[{'id':'q1','prompt':'Your API key?','options':[],'schema':{'type':'string'}}]}")) = Some false.
Proof. vm_compute. split; reflexivity. Qed.
Example valid_scope_ex :
  (@ValidInteractionScope ascii_lower "file" <$> decodeClosedJSON scope_type
    (quoted "{'target':'file','operation':'modify','subject':'src/main.go'}")) = Some true ∧
  (@ValidInteractionScope ascii_lower "file" <$> decodeClosedJSON scope_type
    (quoted "{'target':'file','operation':'modify','subject':'src/../x'}")) = Some false.
Proof. vm_compute. split; reflexivity. Qed.
