(* ===== verification/InteractionReducer.v ===== *)
(** The projection reducers of readiness assessments, input requests and provider permissions:
    [readiness.go], [input_request.go] and [provider_permission.go] of
    [runtime/src/core/projection]. *)
From S2P Require Import Prelude GoStrings GoUnicode GoJson GoDecode GoClosed StateStore Interaction Reducer WorkReducer.
From stdpp Require Import options.

(** [event.Actor.Type] is one of two. *)
Definition actor_is (event : Event) (types : list ActorType) : bool :=
  bool_decide (actor_Type (ev_Actor event) ∈ types).
(** A person or a system acting for one. *)
Definition attributable (event : Event) : bool := actor_is event [ActorUser; ActorExternal].
Definition from_provider (event : Event) : bool := actor_is event [ActorProvider; ActorSystem].

(** * Readiness assessments *)
Definition validReadinessDisposition (value : string) : bool :=
  bool_decide (value ∈ ["ready"; "choice_required"; "policy_blocked"; "invariant_blocked"]).
Definition validReadinessChoice (value : string) : bool :=
  bool_decide (value ∈ ["continue"; "accept_route_change"; "supply_input"; "cancel"]).
Definition jsonObjectValue (value : RawMessage) : bool :=
  if decide (value = "") then false
  else match Unmarshal value with Some (JObject _) => true | _ => false end.

Definition assessment_recorded (event : Event) : reduce_result ReadinessAssessmentProjection :=
  let? _ := require_created "readiness assessment" "readiness.assessment_recorded" event in
  let? data := decodeData event [
    string_field "runId"; string_field "nodeId"; string_field "disposition";
    string_field "assessmentDigest"; string_field "policyDigest"; raw_field "submission";
    raw_field "routeContext"] in
  let runID := get_string data "runId" in
  if bool_decide (runID = "") || bool_decide (get_string data "nodeId" = "") ||
     bool_decide (ev_CorrelationID event ≠ runID) ||
     negb (validReadinessDisposition (get_string data "disposition")) ||
     negb (validSourceHash (get_string data "assessmentDigest")) ||
     negb (validSourceHash (get_string data "policyDigest")) ||
     negb (jsonObjectValue (get_raw data "submission")) || negb (jsonObjectValue (get_raw data "routeContext"))
  then refuse "readiness.assessment_recorded requires correlated run/node identity, valid disposition and digests, and object snapshots"
  else Ok {|
    ras_AssessmentID := ev_AggregateID event; ras_RunID := runID; ras_NodeID := get_string data "nodeId";
    ras_Disposition := get_string data "disposition";
    ras_AssessmentDigest := get_string data "assessmentDigest";
    ras_PolicyDigest := get_string data "policyDigest"; ras_Submission := get_raw data "submission";
    ras_RouteContext := get_raw data "routeContext"; ras_Status := ReadinessAssessmentPending;
    ras_Decision := None; ras_ResourceVersion := ev_AggregateRevision event;
    ras_LastGlobalPosition := ev_GlobalPosition event; ras_CreatedAt := ev_RecordedAt event;
    ras_UpdatedAt := ev_RecordedAt event |}.

Section assessment.
Variables (current : ReadinessAssessmentProjection) (event : Event).
Definition assessment_invalid {A} : reduce_result A :=
  invalidTransition "readiness assessment" (ras_AssessmentID current) (ras_Status current) (ev_Kind event).
(** The decision the event records. *)
Definition readiness_decision : reduce_result ReadinessDecisionProjection :=
  if decide (ras_Status current ≠ ReadinessAssessmentPending) then assessment_invalid
  else
    let? data := decodeData event [
      string_field "decisionId"; string_field "assessmentDigest"; string_field "choice";
      string_field "remedyCode"; string_field "reason"; string_field "effectStatus"] in
    let choice := get_string data "choice" in
    let reason := get_string data "reason" in
    if bool_decide (ev_CorrelationID event ≠ ras_RunID current) ||
       bool_decide (get_string data "decisionId" = "") ||
       bool_decide (get_string data "assessmentDigest" ≠ ras_AssessmentDigest current) ||
       negb (validReadinessChoice choice) || blank reason || negb (trimmed reason) ||
       bool_decide (get_string data "effectStatus" ≠ ReadinessEffectPending) || negb (attributable event)
    then refuse "readiness.decision_recorded requires a correlated attributable pending decision bound to the assessment digest"
    else if negb (Bool.eqb (bool_decide (choice = "supply_input"))
                           (bool_decide (get_string data "remedyCode" ≠ "")))
    then refuse "readiness supply_input decisions require exactly one remedyCode"
    else Ok {| rdp_DecisionID := get_string data "decisionId"; rdp_Choice := choice;
               rdp_RemedyCode := get_string data "remedyCode"; rdp_Reason := reason;
               rdp_EffectStatus := get_string data "effectStatus"; rdp_Actor := ev_Actor event;
               rdp_DecidedAt := ev_RecordedAt event |}.
Definition assessment_cases : list (string * (unit → reduce_result ReadinessDecisionProjection)) :=
  [("readiness.decision_recorded", λ _, readiness_decision)].
Definition assessment_decided (decision : ReadinessDecisionProjection) : ReadinessAssessmentProjection := {|
  ras_AssessmentID := ras_AssessmentID current; ras_RunID := ras_RunID current;
  ras_NodeID := ras_NodeID current; ras_Disposition := ras_Disposition current;
  ras_AssessmentDigest := ras_AssessmentDigest current; ras_PolicyDigest := ras_PolicyDigest current;
  ras_Submission := ras_Submission current; ras_RouteContext := ras_RouteContext current;
  ras_Status := ReadinessAssessmentDecided; ras_Decision := Some decision;
  ras_ResourceVersion := ev_AggregateRevision event; ras_LastGlobalPosition := ev_GlobalPosition event;
  ras_CreatedAt := ras_CreatedAt current; ras_UpdatedAt := ev_RecordedAt event |}.
Definition assessment_applied : reduce_result ReadinessAssessmentProjection :=
  let? _ := check_current "readiness assessment" "readiness assessment" (ras_AssessmentID current)
              (ras_ResourceVersion current) event in
  let? decision := switch (ev_Kind event) assessment_cases assessment_invalid in
  Ok (assessment_decided decision).
End assessment.

Definition ReduceReadinessAssessment (current : option ReadinessAssessmentProjection) (event : Event)
  : reduction ReadinessAssessmentProjection :=
  reduce AggregateAssessment event
    match current with
    | None => assessment_recorded event
    | Some current => assessment_applied current event
    end.

(** * Input requests *)
Definition input_requested `{!UnicodeLower} (event : Event) : reduce_result InputRequestProjection :=
  let? _ := require_created "input request" "input.requested" event in
  let? data := decodeData event [
    string_field "runId"; string_field "attemptId"; string_field "nodeId";
    string_field "providerThreadId"; string_field "providerRequestId"; string_field "scopeDigest";
    raw_field "request"] in
  let request := decodeClosedJSON request_type (get_raw data "request") in
  if bool_decide (get_string data "runId" = "") || bool_decide (get_string data "attemptId" = "") ||
     bool_decide (get_string data "nodeId" = "") || bool_decide (get_string data "providerThreadId" = "") ||
     blank (get_string data "providerRequestId") || negb (trimmed (get_string data "providerRequestId")) ||
     bool_decide (ev_CorrelationID event ≠ get_string data "runId") ||
     negb (validSourceHash (get_string data "scopeDigest")) ||
     negb (match request with Some request => ValidUserInputRequest request | None => false end)
  then refuse "input.requested requires correlated run, attempt, node, provider identities, scope digest, and an object request"
  else Ok {|
    inp_InputRequestID := ev_AggregateID event; inp_RunID := get_string data "runId";
    inp_AttemptID := get_string data "attemptId"; inp_NodeID := get_string data "nodeId";
    inp_ProviderThreadID := get_string data "providerThreadId";
    inp_ProviderRequestID := get_string data "providerRequestId";
    inp_ScopeDigest := get_string data "scopeDigest"; inp_Request := get_raw data "request";
    inp_Status := InputRequestPending; inp_Answer := None; inp_Receipt := None;
    inp_ResourceVersion := ev_AggregateRevision event; inp_LastGlobalPosition := ev_GlobalPosition event;
    inp_CreatedAt := ev_RecordedAt event; inp_UpdatedAt := ev_RecordedAt event |}.

(** The next event of the projection's own stream, refused with one message. *)
Definition check_next (id : string) (revision : Z) (event : Event) (message : msg) : reduce_result unit :=
  if decide (id ≠ ev_AggregateID event ∨ ev_AggregateRevision event ≠ uint64 (revision + 1))
  then Err (Refused message) else Ok tt.

Section input.
Variables (current : InputRequestProjection) (event : Event).
Definition input_invalid {A} : reduce_result A :=
  invalidTransition "input request" (inp_InputRequestID current) (inp_Status current) (ev_Kind event).
Definition input_with (status : InputRequestStatus) (answer : option InputAnswerProjection)
    (receipt : option InputReceiptProjection) : InputRequestProjection := {|
  inp_InputRequestID := inp_InputRequestID current; inp_RunID := inp_RunID current;
  inp_AttemptID := inp_AttemptID current; inp_NodeID := inp_NodeID current;
  inp_ProviderThreadID := inp_ProviderThreadID current;
  inp_ProviderRequestID := inp_ProviderRequestID current; inp_ScopeDigest := inp_ScopeDigest current;
  inp_Request := inp_Request current; inp_Status := status; inp_Answer := answer; inp_Receipt := receipt;
  inp_ResourceVersion := ev_AggregateRevision event; inp_LastGlobalPosition := ev_GlobalPosition event;
  inp_CreatedAt := inp_CreatedAt current; inp_UpdatedAt := ev_RecordedAt event |}.
Definition input_answer_recorded : reduce_result InputRequestProjection :=
  if decide (inp_Status current ≠ InputRequestPending) then input_invalid
  else
    let? data := decodeData event [string_field "scopeDigest"; raw_field "answer"] in
    let answer := get_raw data "answer" in
    if bool_decide (get_string data "scopeDigest" ≠ inp_ScopeDigest current) ||
       bool_decide (answer = "") || negb (Valid answer) || negb (attributable event)
    then refuse "input.answer_recorded requires exact scope, valid JSON, and attributable actor"
    else Ok (input_with InputRequestAnswerRecorded
               (Some {| ian_Answer := answer; ian_ActionKey := ev_CommandID event;
                        ian_Actor := ev_Actor event; ian_RecordedAt := ev_RecordedAt event |})
               (inp_Receipt current)).
Definition input_answer_delivered : reduce_result InputRequestProjection :=
  match inp_Answer current with
  | Some _ =>
      if decide (inp_Status current ≠ InputRequestAnswerRecorded) then input_invalid
      else
        let? data := decodeData event [string_field "providerRequestId"] in
        if bool_decide (get_string data "providerRequestId" ≠ inp_ProviderRequestID current) ||
           negb (from_provider event)
        then refuse "input.answer_delivered requires matching provider request and provider/system actor"
        else Ok (input_with InputRequestAnswered (inp_Answer current)
                   (Some {| irc_ProviderRequestID := get_string data "providerRequestId";
                            irc_DeliveredAt := ev_RecordedAt event |}))
  | None => input_invalid
  end.
Definition input_cases : list (string * (unit → reduce_result InputRequestProjection)) := [
  ("input.answer_recorded", λ _, input_answer_recorded);
  ("input.answer_delivered", λ _, input_answer_delivered)].
Definition input_applied : reduce_result InputRequestProjection :=
  let? _ := check_next (inp_InputRequestID current) (inp_ResourceVersion current) event
              (Msg "input request %s cannot apply aggregate %s revision %d"
                 [AStr (inp_InputRequestID current); AStr (ev_AggregateID event);
                  AInt (ev_AggregateRevision event)]) in
  switch (ev_Kind event) input_cases input_invalid.
End input.

Definition ReduceInputRequest `{!UnicodeLower} (current : option InputRequestProjection) (event : Event)
  : reduction InputRequestProjection :=
  reduce AggregateInput event
    match current with
    | None => input_requested event
    | Some current => input_applied current event
    end.

(** * Provider permissions *)
Definition permissionKind (value : string) : bool :=
  bool_decide (value ∈ ["command"; "file"; "network"; "permission"; "tool"]).
Definition permissionDecision (value : string) : bool :=
  bool_decide (value ∈ ["allow_once"; "deny"; "cancel"]).

Definition evidence_type : GoType :=
  GoStruct [("kind", GoString); ("summary", GoString); ("payloadDigest", GoString);
            ("providerItemDigest", GoString)].
Definition validPermissionEvidence (raw : RawMessage) (kind : string) : bool :=
  match decodeClosedJSON evidence_type raw with
  | None => false
  | Some evidence =>
      let member name := go_string (field_value name evidence) in
      bool_decide (member "kind" = kind) &&
      bool_decide (member "summary" = "Provider requested a " +:+ kind +:+ " interaction") &&
      validSourceHash (member "payloadDigest") && validSourceHash (member "providerItemDigest")
  end.

(** Fields without a tag have their Go names. *)
Definition permission_fields : list (string * FieldKind) :=
  (string_field <$> ["RunID"; "AttemptID"; "NodeID"; "ProviderThreadID"; "ProviderTurnID";
     "ProviderRequestID"; "InteractionKind"; "ScopeDigest"; "PolicyDigest"]) ++
  [raw_field "Scope"; raw_field "Evidence"].
Definition permission_requested `{!UnicodeLower} (event : Event) : reduce_result ProviderPermissionProjection :=
  if decide (ev_Kind event ≠ "permission.requested") then
    Err (Refused (Msg "provider permission %s must begin with permission.requested" [AStr (ev_AggregateID event)]))
  else
    let? data := decodeData event permission_fields in
    let kind := get_string data "InteractionKind" in
    let missing name := bool_decide (get_string data name = "") in
    if missing "RunID" || missing "AttemptID" || missing "NodeID" || missing "ProviderThreadID" ||
       missing "ProviderTurnID" || missing "ProviderRequestID" ||
       bool_decide (ev_CorrelationID event ≠ get_string data "RunID") ||
       negb (validSourceHash (get_string data "ScopeDigest")) ||
       negb (validSourceHash (get_string data "PolicyDigest")) || negb (permissionKind kind) ||
       negb (match decodeClosedJSON scope_type (get_raw data "Scope") with
             | Some scope => ValidInteractionScope kind scope | None => false end) ||
       negb (validPermissionEvidence (get_raw data "Evidence") kind)
    then refuse "permission.requested requires complete subject, scope, and redacted evidence"
    else Ok {|
      per_PermissionRequestID := ev_AggregateID event; per_RunID := get_string data "RunID";
      per_AttemptID := get_string data "AttemptID"; per_NodeID := get_string data "NodeID";
      per_ProviderThreadID := get_string data "ProviderThreadID";
      per_ProviderTurnID := get_string data "ProviderTurnID";
      per_ProviderRequestID := get_string data "ProviderRequestID"; per_InteractionKind := kind;
      per_Scope := get_raw data "Scope"; per_ScopeDigest := get_string data "ScopeDigest";
      per_PolicyDigest := get_string data "PolicyDigest"; per_Evidence := get_raw data "Evidence";
      per_Status := ProviderPermissionPending; per_Decision := None; per_Receipt := None;
      per_ResourceVersion := ev_AggregateRevision event;
      per_LastGlobalPosition := ev_GlobalPosition event; per_CreatedAt := ev_RecordedAt event;
      per_UpdatedAt := ev_RecordedAt event |}.

Section permission.
Variables (current : ProviderPermissionProjection) (event : Event).
Definition permission_invalid {A} : reduce_result A :=
  invalidTransition "provider permission" (per_PermissionRequestID current) (per_Status current) (ev_Kind event).
Definition permission_with (status : ProviderPermissionStatus)
    (decision : option ProviderPermissionDecisionProjection)
    (receipt : option ProviderPermissionReceiptProjection) : ProviderPermissionProjection := {|
  per_PermissionRequestID := per_PermissionRequestID current; per_RunID := per_RunID current;
  per_AttemptID := per_AttemptID current; per_NodeID := per_NodeID current;
  per_ProviderThreadID := per_ProviderThreadID current; per_ProviderTurnID := per_ProviderTurnID current;
  per_ProviderRequestID := per_ProviderRequestID current;
  per_InteractionKind := per_InteractionKind current; per_Scope := per_Scope current;
  per_ScopeDigest := per_ScopeDigest current; per_PolicyDigest := per_PolicyDigest current;
  per_Evidence := per_Evidence current; per_Status := status; per_Decision := decision;
  per_Receipt := receipt; per_ResourceVersion := ev_AggregateRevision event;
  per_LastGlobalPosition := ev_GlobalPosition event; per_CreatedAt := per_CreatedAt current;
  per_UpdatedAt := ev_RecordedAt event |}.
Definition permission_decision_recorded : reduce_result ProviderPermissionProjection :=
  if decide (per_Status current ≠ ProviderPermissionPending) then permission_invalid
  else
    let? data := decodeData event [string_field "ScopeDigest"; string_field "Decision"] in
    if bool_decide (get_string data "ScopeDigest" ≠ per_ScopeDigest current) ||
       negb (permissionDecision (get_string data "Decision")) || negb (attributable event)
    then refuse "permission decision requires exact scope, legal action, and actor"
    else Ok (permission_with ProviderPermissionDecisionRecorded
               (Some {| ppd_Decision := get_string data "Decision"; ppd_ActionKey := ev_CommandID event;
                        ppd_Actor := ev_Actor event; ppd_RecordedAt := ev_RecordedAt event |})
               (per_Receipt current)).
Definition permission_response_delivered : reduce_result ProviderPermissionProjection :=
  match per_Decision current with
  | Some _ =>
      if decide (per_Status current ≠ ProviderPermissionDecisionRecorded) then permission_invalid
      else
        let? data := decodeData event [string_field "ProviderRequestID"] in
        if bool_decide (get_string data "ProviderRequestID" ≠ per_ProviderRequestID current) ||
           negb (from_provider event)
        then refuse "permission delivery requires matching provider identity"
        else Ok (permission_with ProviderPermissionResponded (per_Decision current)
                   (Some {| ppr_ProviderRequestID := get_string data "ProviderRequestID";
                            ppr_DeliveredAt := ev_RecordedAt event |}))
  | None => permission_invalid
  end.
Definition permission_cases : list (string * (unit → reduce_result ProviderPermissionProjection)) := [
  ("permission.decision_recorded", λ _, permission_decision_recorded);
  ("permission.response_delivered", λ _, permission_response_delivered)].
Definition permission_applied : reduce_result ProviderPermissionProjection :=
  let? _ := check_next (per_PermissionRequestID current) (per_ResourceVersion current) event
              (text "provider permission aggregate revision conflict") in
  switch (ev_Kind event) permission_cases permission_invalid.
End permission.

Definition ReduceProviderPermission `{!UnicodeLower} (current : option ProviderPermissionProjection)
    (event : Event) : reduction ProviderPermissionProjection :=
  reduce AggregatePermission event
    match current with
    | None => permission_requested event
    | Some current => permission_applied current event
    end.
