(* ===== verification/Lifecycle.v ===== *)
(** Event streams and the lifecycles they drive: what a projection reducer promises, and what
    every replay of a lawful reducer keeps.

    A projection is the state [RebuildProjections] reaches by applying the events of one
    aggregate in order; [replay] is that loop for one reducer, starting without a projection. *)
From S2P Require Import Prelude GoStrings GoJson GoDecode Schema StateStore Reducer.
From stdpp Require Import options.

(** * Replaying events *)

(** One step: the reducer's projection is stored, an event of another aggregate is skipped,
    an error ends the replay. *)
Definition apply_event {P} (reduce : option P → Event → reduction P) (current : option P)
    (event : Event) : result reduce_error (option P) :=
  match reduce current event with
  | Ignored => Ok current
  | Reduced next => Ok (Some next)
  | Failed _ e => Err e
  end.
Definition replay {P} (reduce : option P → Event → reduction P) (events : list Event)
  : result reduce_error (option P) :=
  foldM (apply_event reduce) None events.

(** The events of a log a reducer of the given aggregate type looks at. *)
Definition stream_of (aggregate : AggregateType) (events : list Event) : list Event :=
  filter (λ e, ev_AggregateType e = aggregate) events.

(** * Headers: the fields every projection has *)
Record Header := {
  hd_ID : string;
  hd_Status : string;
  hd_ResourceVersion : Z;
  hd_LastGlobalPosition : Z;
  hd_CreatedAt : Time;
  hd_UpdatedAt : Time;
}.
Definition created_header (event : Event) (status : string) : Header := {|
  hd_ID := ev_AggregateID event; hd_Status := status;
  hd_ResourceVersion := ev_AggregateRevision event;
  hd_LastGlobalPosition := ev_GlobalPosition event;
  hd_CreatedAt := ev_RecordedAt event; hd_UpdatedAt := ev_RecordedAt event |}.
Definition advanced_header (h : Header) (event : Event) (status : string) : Header := {|
  hd_ID := hd_ID h; hd_Status := status;
  hd_ResourceVersion := ev_AggregateRevision event;
  hd_LastGlobalPosition := ev_GlobalPosition event;
  hd_CreatedAt := hd_CreatedAt h; hd_UpdatedAt := ev_RecordedAt event |}.

(** * The interface *)

(** A lifecycle: the aggregate's first status and the moves an event kind allows. *)
Record Lifecycle := {
  lc_initial : string;
  lc_created : string;
  lc_step : string → string → string → Prop;
}.

(** What a reducer promises: it creates at the initial status, and otherwise applies only the
    next event of its own stream, along one move of its lifecycle. *)
Class LawfulReducer {P} (reduce : option P → Event → reduction P) (header : P → Header)
    (aggregate : AggregateType) (lc : Lifecycle) : Prop := {
  lawful_schema current event :
    ev_SchemaVersion event ≠ 1%Z →
    reduce current event =
      Failed false (UnsupportedSchemaVersion (ev_ID event) (ev_SchemaVersion event));
  lawful_foreign current event :
    ev_SchemaVersion event = 1%Z → ev_AggregateType event ≠ aggregate →
    reduce current event = Ignored;
  lawful_own current event :
    ev_SchemaVersion event = 1%Z → ev_AggregateType event = aggregate →
    reduce current event ≠ Ignored;
  lawful_created event next :
    reduce None event = Reduced next →
    ev_Kind event = lc_created lc ∧ header next = created_header event (lc_initial lc);
  lawful_applied current event next :
    reduce (Some current) event = Reduced next →
    ev_AggregateID event = hd_ID (header current) ∧
    ev_AggregateRevision event = uint64 (hd_ResourceVersion (header current) + 1) ∧
    lc_step lc (hd_Status (header current)) (ev_Kind event) (hd_Status (header next)) ∧
    header next = advanced_header (header current) event (hd_Status (header next));
}.

(** * Paths and streams *)

(** The statuses a list of event kinds leads through. *)
Fixpoint lifecycle_path (step : string → string → string → Prop) (from : string)
    (kinds : list string) (to : string) : Prop :=
  match kinds with
  | [] => from = to
  | kind :: kinds => ∃ mid, step from kind mid ∧ lifecycle_path step mid kinds to
  end.

Lemma lifecycle_path_snoc step from kinds mid kind to :
  lifecycle_path step from kinds mid → step mid kind to →
  lifecycle_path step from (kinds ++ [kind]) to.
Proof.
  revert from. induction kinds as [|k kinds IH]; simpl; intros from.
  - intros <- ?. by exists to.
  - intros (s & ? & ?) ?. exists s. split; [done|by apply IH].
Qed.

(** A set of statuses no move leaves. *)
Lemma lifecycle_path_closed step (S : string → Prop) from kinds to :
  (∀ s k s', S s → step s k s' → S s') → S from → lifecycle_path step from kinds to → S to.
Proof.
  intros Hstep. revert from. induction kinds as [|k kinds IH]; simpl; intros from Hfrom.
  - by intros <-.
  - intros (mid & ? & ?). apply (IH mid); [by eapply Hstep|done].
Qed.

(** The events of one aggregate, one revision after the other. *)
Definition consecutive (first : Event) (rest : list Event) : Prop :=
  ∀ i event, rest !! i = Some event →
    ev_AggregateID event = ev_AggregateID first ∧
    ev_AggregateRevision event = uint64 (ev_AggregateRevision first + Z.of_nat i + 1).
Definition latest (first : Event) (rest : list Event) : Event := default first (last rest).

(** The header such a stream leaves. *)
Definition stream_header (first : Event) (rest : list Event) (status : string) : Header := {|
  hd_ID := ev_AggregateID first; hd_Status := status;
  hd_ResourceVersion := ev_AggregateRevision (latest first rest);
  hd_LastGlobalPosition := ev_GlobalPosition (latest first rest);
  hd_CreatedAt := ev_RecordedAt first; hd_UpdatedAt := ev_RecordedAt (latest first rest) |}.

Lemma latest_snoc first rest event : latest first (rest ++ [event]) = event.
Proof. unfold latest. by rewrite last_snoc. Qed.

Lemma uint64_succ a b : uint64 (uint64 (a + b) + 1) = uint64 (a + (b + 1)).
Proof. unfold wrap. rewrite Zplus_mod_idemp_l. f_equal. lia. Qed.

(** The revision of the latest event, up to its width. *)
Lemma consecutive_latest first rest :
  consecutive first rest →
  uint64 (ev_AggregateRevision (latest first rest) + 1) =
  uint64 (ev_AggregateRevision first + Z.of_nat (length rest) + 1).
Proof.
  intros Hc. destruct rest as [|event rest _] using rev_ind.
  - unfold latest. cbn [last default length]. by rewrite Z.add_0_r.
  - rewrite latest_snoc, length_app. cbn [length].
    destruct (Hc (length rest) event) as [_ ->]; [by rewrite list_lookup_middle|].
    rewrite <-Z.add_assoc, uint64_succ. f_equal. lia.
Qed.

Lemma consecutive_snoc first rest event :
  consecutive first rest → ev_AggregateID event = ev_AggregateID first →
  ev_AggregateRevision event = uint64 (ev_AggregateRevision (latest first rest) + 1) →
  consecutive first (rest ++ [event]).
Proof.
  intros Hc Hid Hrev i e Hi. rewrite lookup_app in Hi.
  destruct (rest !! i) as [e'|] eqn:Hr; simplify_eq; [by apply Hc|].
  apply list_lookup_singleton_Some in Hi as [Hlen <-].
  apply lookup_ge_None in Hr. split; [done|].
  rewrite Hrev, consecutive_latest by done. do 2 f_equal. lia.
Qed.

(** * Histories *)
Section lawful.
#[local] Set Default Proof Using "All".
Context {P : Type} {reduce : option P → Event → reduction P} {header : P → Header}
  {aggregate : AggregateType} {lc : Lifecycle} `{!LawfulReducer reduce header aggregate lc}.

(** The projections a replay goes through, by the events that made them. *)
Inductive history : Event → list Event → P → Prop :=
| history_created first next :
    reduce None first = Reduced next → history first [] next
| history_applied first rest current event next :
    history first rest current → reduce (Some current) event = Reduced next →
    history first (rest ++ [event]) next.

Lemma apply_event_foreign current event :
  ev_AggregateType event ≠ aggregate →
  apply_event reduce current event =
    if decide (ev_SchemaVersion event = 1%Z) then Ok current
    else Err (UnsupportedSchemaVersion (ev_ID event) (ev_SchemaVersion event)).
Proof.
  intros Hne. unfold apply_event. case_decide.
  - by rewrite lawful_foreign.
  - by rewrite lawful_schema.
Qed.

(** A replay that ends with a projection has a history: the stream's own events. *)
Lemma replay_history events current :
  replay reduce events = Ok current →
  match current with
  | None => stream_of aggregate events = []
  | Some p => ∃ first rest, stream_of aggregate events = first :: rest ∧ history first rest p
  end.
Proof.
  unfold replay, stream_of. revert current.
  induction events as [|event events IH] using rev_ind; intros current.
  { by intros [= <-]. }
  rewrite foldM_app, filter_app. intros (before & Hbefore & Hstep)%result_bind_Ok.
  apply IH in Hbefore. cbn [foldM] in Hstep. apply result_bind_Ok in Hstep as (c & Hstep & [= <-]).
  destruct (decide (ev_AggregateType event = aggregate)) as [Htype|Htype].
  - rewrite filter_cons_True, filter_nil by done. unfold apply_event in Hstep.
    destruct (reduce before event) as [|next|] eqn:Hred; simplify_eq.
    + exfalso. destruct (decide (ev_SchemaVersion event = 1%Z)).
      * by eapply lawful_own.
      * by rewrite lawful_schema in Hred.
    + destruct before as [p|].
      * destruct Hbefore as (first & rest & -> & Hh). exists first, (rest ++ [event]).
        split; [done|]. by eapply history_applied.
      * rewrite Hbefore. exists event, []. split; [done|]. by apply history_created.
  - rewrite filter_cons_False, filter_nil, app_nil_r by done.
    rewrite apply_event_foreign in Hstep by done. case_decide; [by injection Hstep as ->|done].
Qed.

Lemma history_header first rest p :
  history first rest p →
  ev_Kind first = lc_created lc ∧ consecutive first rest ∧
  header p = stream_header first rest (hd_Status (header p)) ∧
  lifecycle_path (lc_step lc) (lc_initial lc) (ev_Kind <$> rest) (hd_Status (header p)).
Proof.
  induction 1 as [first p Hc|first rest p event p' Hh IH Ha].
  - apply lawful_created in Hc as [Hkind Hhd]. split_and!; [done| | |].
    + intros i e [=].
    + by rewrite Hhd.
    + by rewrite Hhd.
  - destruct IH as (Hkind & Hcons & Hhd & Hpath).
    apply lawful_applied in Ha as (Hid & Hrev & Hmove & Hnext).
    rewrite Hhd in Hid, Hrev. cbn in Hid, Hrev. split_and!; [done| | |].
    + by apply consecutive_snoc.
    + rewrite Hnext, Hhd. unfold advanced_header, stream_header. by rewrite latest_snoc.
    + rewrite fmap_app. by eapply lifecycle_path_snoc.
Qed.

(** The rule for invariants of histories. *)
Lemma history_ind_invariant (I : Event → list Event → P → Prop) first rest p :
  (∀ event next, reduce None event = Reduced next → I event [] next) →
  (∀ rest current event next, I first rest current → reduce (Some current) event = Reduced next →
    I first (rest ++ [event]) next) →
  history first rest p → I first rest p.
Proof. intros Hcreated Happlied. induction 1; [by apply Hcreated|by eapply Happlied; eauto]. Qed.

(** No event is applied to the projection it has produced: its revision is stale. *)
Lemma reduced_once current event next :
  reduce current event = Reduced next → ∀ again, reduce (Some next) event ≠ Reduced again.
Proof.
  intros Hred again Hagain. apply lawful_applied in Hagain as (_ & Hrev & _).
  assert (hd_ResourceVersion (header next) = ev_AggregateRevision event) as Hv.
  { destruct current as [current|].
    - apply lawful_applied in Hred as (_ & _ & _ & ->). done.
    - apply lawful_created in Hred as [_ ->]. done. }
  rewrite Hv in Hrev. unfold wrap in Hrev. pose proof (Z.mod_pos_bound (ev_AggregateRevision event + 1) (2 ^ 64)).
  set (r := ev_AggregateRevision event) in *.
  assert ((r + 1) `mod` 2 ^ 64 = r)%Z as Hr by done.
  destruct (decide (r + 1 = 2 ^ 64)%Z) as [He|].
  - rewrite He, Z_mod_same_full in Hr. lia.
  - rewrite Z.mod_small in Hr; lia.
Qed.
End lawful.
Arguments history {P} reduce first rest p.

(** * Reducers of the common shape *)
Lemma check_current_Ok owner label id revision event :
  check_current owner label id revision event = Ok tt ↔
  ev_AggregateID event = id ∧ ev_AggregateRevision event = uint64 (revision + 1).
Proof. unfold check_current. repeat case_decide; naive_solver. Qed.

Lemma require_state_Ok machine id status kind allowed :
  require_state machine id status kind allowed = Ok tt ↔ status ∈ allowed.
Proof. unfold require_state. case_decide; naive_solver. Qed.

Lemma require_created_Ok label created event :
  require_created label created event = Ok tt ↔ ev_Kind event = created.
Proof. unfold require_created. case_decide; naive_solver. Qed.

Lemma reduce_Reduced {P} aggregate event (body : reduce_result P) next :
  reduce aggregate event body = Reduced next ↔
  ev_SchemaVersion event = 1%Z ∧ ev_AggregateType event = aggregate ∧ body = Ok next.
Proof. unfold reduce. repeat case_decide; destruct body; naive_solver. Qed.

(** The laws follow from those of the two branches. *)
Lemma lawful_intro {P} (aggregate : AggregateType) (created : Event → reduce_result P)
    (applied : P → Event → reduce_result P) (header : P → Header) (lc : Lifecycle) :
  (∀ event next, created event = Ok next →
    ev_Kind event = lc_created lc ∧ header next = created_header event (lc_initial lc)) →
  (∀ current event next, applied current event = Ok next →
    ev_AggregateID event = hd_ID (header current) ∧
    ev_AggregateRevision event = uint64 (hd_ResourceVersion (header current) + 1) ∧
    lc_step lc (hd_Status (header current)) (ev_Kind event) (hd_Status (header next)) ∧
    header next = advanced_header (header current) event (hd_Status (header next))) →
  LawfulReducer (λ current event, reduce aggregate event
    match current with None => created event | Some current => applied current event end)
    header aggregate lc.
Proof.
  intros Hcreated Happlied. split.
  - intros c e Hs. unfold reduce. by rewrite decide_True.
  - intros c e Hs Ht. unfold reduce.
    rewrite decide_False by (intros Hn; by apply Hn). by rewrite decide_True.
  - intros c e Hs Ht. unfold reduce.
    rewrite decide_False by (intros Hn; by apply Hn).
    rewrite decide_False by (intros Hn; by apply Hn).
    destruct c as [p|]; [destruct (applied p e)|destruct (created e)]; done.
  - intros e n (_ & _ & ?)%reduce_Reduced. by apply Hcreated.
  - intros c e n (_ & _ & ?)%reduce_Reduced. by apply Happlied.
Qed.

(** A [switch] is one of its handlers or the default. *)
Lemma switch_inv {A} (Q : A → Prop) value cases other :
  (∀ handler, (value, handler) ∈ cases → Q (handler tt)) → Q other → Q (switch value cases other).
Proof.
  induction cases as [|[case handler] cases IH]; simpl; intros Hin Hother; [done|].
  case_decide; subst; [apply Hin; by left|].
  apply IH; [|done]. intros h Hh. apply Hin. by right.
Qed.

(** * Handlers and moves *)
Definition is_invalid (e : reduce_error) : bool :=
  match e with InvalidTransition _ _ _ _ => true | _ => false end.

Section handled.
Context (step : string → string → string → Prop) (status kind : string) (event : Event) {P : Type}.
Variable good : P → string → Prop.
Implicit Types (r : reduce_result P).

(** What one handler decides: the status moves along the lifecycle to a [good] result, and a
    refusal is an invalid transition exactly when there is no move at all. *)
Definition handled (r : reduce_result P) : Prop :=
  match r with
  | Ok next => ∃ s, step status kind s ∧ good next s
  | Err e => if is_invalid e then ∀ s, ¬ step status kind s else ∃ s, step status kind s
  end.

Lemma handled_require machine id allowed r :
  (∀ s, step status kind s → status ∈ allowed) → (status ∈ allowed → handled r) →
  handled (let? _ := require_state machine id status kind allowed in r).
Proof.
  intros Hno Hr. unfold require_state. case_decide; [by apply Hr|].
  intros s Hs. by apply Hno in Hs.
Qed.

Lemma handled_refuse m : (∃ s, step status kind s) → handled (Err (Refused m)).
Proof. done. Qed.

Lemma handled_invalid {machine id} :
  (∀ s, ¬ step status kind s) → handled (invalidTransition machine id status kind).
Proof. done. Qed.

Lemma handled_if (b : bool) r1 r2 :
  (b = true → handled r1) → (b = false → handled r2) → handled (if b then r1 else r2).
Proof. destruct b; auto. Qed.

Lemma handled_decide (Q : Prop) `{Decision Q} r1 r2 :
  (Q → handled r1) → (¬ Q → handled r2) → handled (if decide Q then r1 else r2).
Proof. destruct (decide Q); auto. Qed.

Lemma handled_decode fields (k : StructFields → reduce_result P) :
  (∃ s, step status kind s) → (∀ data, handled (k data)) →
  handled (let? data := decodeData event fields in k data).
Proof. intros Hs Hk. unfold decodeData. case_match; [apply Hk|done]. Qed.

Lemma handled_issue r :
  (∃ s, step status kind s) → handled r → handled (let? _ := requireIssueData event in r).
Proof.
  intros Hs Hr. unfold requireIssueData, decodeData. case_match; [|done]. cbn [result_bind].
  by case_match.
Qed.

Lemma handled_optional_issue r :
  (∃ s, step status kind s) → handled r → handled (let? _ := validateOptionalIssueData event in r).
Proof.
  intros Hs Hr. unfold validateOptionalIssueData, decodeData. case_match; [|done].
  cbn [result_bind]. by case_match.
Qed.

Lemma handled_Ok next s : step status kind s → good next s → handled (Ok next).
Proof. intros ??. by exists s. Qed.

(** From what handlers decide to the laws. *)
Lemma handled_step next : handled (Ok next) → ∃ s, step status kind s ∧ good next s.
Proof. done. Qed.
End handled.

(** Split a successful creation into its checks. *)
Ltac inv_created H :=
  repeat match type of H with
  | result_bind ?r ?f = Ok _ =>
      let a := fresh "data" in let Ha := fresh "Hdata" in
      apply result_bind_Ok in H; destruct H as (a & Ha & H); cbn beta in H
  | (if ?b then refuse _ else _) = Ok _ =>
      let Hb := fresh "Hcheck" in destruct b eqn:Hb; [discriminate H|]
  | Ok _ = Ok _ => injection H as H; subst
  end;
  repeat match goal with Hr : require_created _ _ _ = Ok ?x |- _ =>
    destruct x; apply require_created_Ok in Hr end.
(** One goal per kind of event, with the kind in place, and one for the others. *)
Ltac by_kind event :=
  cbn [switch];
  repeat (let Hne := fresh "Hne" in
    destruct (decide (ev_Kind event = _)) as [Hkind|Hne]; 
      [rewrite Hkind; repeat match goal with H : ev_Kind _ ≠ _ |- _ => clear H end|]).
Ltac split_status :=
  repeat match goal with
  | Hin : _ ∈ _ :: _ |- _ => apply elem_of_cons in Hin; destruct Hin as [Hin|Hin]
  | Hin : _ ∈ [] |- _ => by apply elem_of_nil in Hin
  end;
  repeat match goal with Heq : ?f _ = ?c |- context [?f _] => rewrite Heq end.
(** There is a move; there is none. *)
Ltac has_move := split_status; eexists; econstructor; eauto; set_solver.
Ltac move_inv :=
  intros ? Hmove; inversion Hmove; subst; try discriminate; try congruence; try set_solver.
Ltac handle_one :=
  match goal with
  | |- handled _ _ _ _ (result_bind (require_state _ _ _ _ _) _) =>
      apply handled_require; [move_inv|intros ?Hin]
  | |- handled _ _ _ _ (result_bind (decodeData _ _) _) =>
      apply handled_decode; [has_move|intros ?data]
  | |- handled _ _ _ _ (result_bind (requireIssueData _) _) => apply handled_issue; [has_move|]
  | |- handled _ _ _ _ (result_bind (validateOptionalIssueData _) _) =>
      apply handled_optional_issue; [has_move|]
  | |- handled _ _ _ _ (if decide _ then _ else _) => apply handled_decide; intros ?
  | |- handled _ _ _ _ (if _ then _ else _) => apply handled_if; intros ?
  | |- handled _ _ _ _ (refuse _) => apply handled_refuse; has_move
  | |- handled _ _ _ _ (Err (Refused _)) => apply handled_refuse; has_move
  end.

(** The reduction of one event for a current projection that it addresses. *)
Definition addressed (aggregate : AggregateType) (h : Header) (event : Event) : Prop :=
  ev_SchemaVersion event = 1%Z ∧ ev_AggregateType event = aggregate ∧
  ev_AggregateID event = hd_ID h ∧ ev_AggregateRevision event = uint64 (hd_ResourceVersion h + 1).

(** The outcome of such a reduction, read against the lifecycle: one determined move, or a
    refusal that is an invalid transition exactly when there is no move. *)
Definition follows (lc : Lifecycle) (status kind : string) {P} (header : P → Header)
    (r : reduction P) : Prop :=
  match r with
  | Ignored => False
  | Reduced next => ∀ s, lc_step lc status kind s ↔ s = hd_Status (header next)
  | Failed belongs e =>
      belongs = true ∧ (is_invalid e = true ↔ ∀ s, ¬ lc_step lc status kind s)
  end.

(** * What a replay records *)

(** The header is the one its stream leaves: created by the first event, advanced by one
    revision per event along the lifecycle; [I] holds of the creating event and the others. *)
Definition recorded (aggregate : AggregateType) (lc : Lifecycle) (events : list Event) (h : Header)
    (I : Event → list Event → Prop) : Prop :=
  ∃ first rest,
    stream_of aggregate events = first :: rest ∧ ev_Kind first = lc_created lc ∧
    consecutive first rest ∧ h = stream_header first rest (hd_Status h) ∧
    lifecycle_path (lc_step lc) (lc_initial lc) (ev_Kind <$> rest) (hd_Status h) ∧ I first rest.

Lemma replay_recorded {P} {reduce : option P → Event → reduction P} {header aggregate lc}
    `{!LawfulReducer reduce header aggregate lc} (I : Event → list Event → P → Prop) events p :
  (∀ event next, reduce None event = Reduced next → I event [] next) →
  (∀ first rest current event next, I first rest current →
    reduce (Some current) event = Reduced next → I first (rest ++ [event]) next) →
  replay reduce events = Ok (Some p) →
  recorded aggregate lc events (header p) (λ first rest, I first rest p).
Proof.
  intros Hcreated Happlied (first & rest & Hstream & Hh)%replay_history.
  exists first, rest. split; [done|].
  destruct (history_header _ _ _ Hh) as (? & ? & ? & ?). split_and!; [done..|].
  eapply history_ind_invariant; [by apply Hcreated| |done]. intros; by eapply Happlied.
Qed.

(** A replay of a longer log continues from the projection of the shorter one. *)
Lemma replay_app {P} (reduce : option P → Event → reduction P) events1 events2 :
  replay reduce (events1 ++ events2) =
  (let? current := replay reduce events1 in foldM (apply_event reduce) current events2).
Proof. apply foldM_app. Qed.

Lemma continued_invariant {P} (reduce : option P → Event → reduction P) (I : P → Prop) events p p' :
  (∀ current event next, I current → reduce (Some current) event = Reduced next → I next) →
  I p → foldM (apply_event reduce) (Some p) events = Ok p' →
  ∃ next, p' = Some next ∧ I next.
Proof.
  intros Hstep Hp. apply (foldM_ind (λ c, ∃ next, c = Some next ∧ I next)); [by eauto|].
  intros c event c' _ (current & -> & Hc). unfold apply_event.
  destruct (reduce (Some current) event) as [|next|] eqn:Hred; intros; simplify_eq; eauto.
Qed.

(** An event of a version-1 stream, for examples. *)
Definition ex_event (aggregate : AggregateType) (id kind : string) (revision : Z) (data : string)
  : Event := {|
  ev_SchemaVersion := 1; ev_ID := "event"; ev_GlobalPosition := 10 + revision;
  ev_AggregateType := aggregate; ev_AggregateID := id; ev_AggregateRevision := revision;
  ev_Kind := kind; ev_OccurredAt := 1000 + revision; ev_RecordedAt := 2000 + revision;
  ev_CorrelationID := "run_1"; ev_CausationID := None; ev_CommandID := "command";
  ev_Actor := {| actor_Type := "user"; actor_ID := "user_1" |};
  ev_Data := quoted data; ev_Metadata := "{}" |}.

(** The reducers apply an event by checking its stream, deciding its kind and advancing. *)
Lemma handled_follows {M P} (aggregate : AggregateType) (lc : Lifecycle) (header : P → Header)
    (good : M → string → Prop) owner label current event (body : reduce_result M)
    (advanced : M → P) :
  (∀ s k s1 s2, lc_step lc s k s1 → lc_step lc s k s2 → s1 = s2) →
  (∀ mid s, good mid s → hd_Status (header (advanced mid)) = s) →
  handled (lc_step lc) (hd_Status (header current)) (ev_Kind event) good body →
  addressed aggregate (header current) event →
  follows lc (hd_Status (header current)) (ev_Kind event) header
    (reduce aggregate event
      (let? _ := check_current owner label (hd_ID (header current))
                   (hd_ResourceVersion (header current)) event in
       let? next := body in Ok (advanced next))).
Proof.
  intros Hfun Hgood Hh (Hs & Ht & Hid & Hrev). unfold reduce.
  rewrite decide_False, decide_False by (intros Hn; by apply Hn).
  rewrite (proj2 (check_current_Ok _ _ _ _ _)) by done. cbn [result_bind].
  destruct body as [mid|e]; cbn [result_bind follows].
  - destruct Hh as (s & Hstep & Hmid). rewrite (Hgood _ _ Hmid).
    intros s'. split; [intros ?; by eapply Hfun|by intros ->].
  - split; [done|]. unfold handled in Hh. destruct (is_invalid e); [done|]. naive_solver.
Qed.

Lemma applied_inv {M P} owner label id revision event (body : reduce_result M) advanced next :
  (let? _ := check_current owner label id revision event in
   let? next := body in Ok (advanced next)) = Ok next →
  ev_AggregateID event = id ∧ ev_AggregateRevision event = uint64 (revision + 1) ∧
  ∃ mid : M, body = Ok mid ∧ next = advanced mid :> P.
Proof.
  intros ([] & [??]%check_current_Ok & (mid & Hmid & [= <-])%result_bind_Ok)%result_bind_Ok. eauto.
Qed.
