(* ===== verification/RunLifecycle.v ===== *)
(** Runs, node visits, attempts and approvals over their event streams: the lifecycles of
    [reducer.go] as step relations, and what every replay of each reducer keeps. *)
From S2P Require Import Prelude GoStrings GoJson GoDecode Schema StateStore Reducer Lifecycle.
From stdpp Require Import options.

(** * Runs *)
Inductive run_step : RunStatus → string → RunStatus → Prop :=
| run_step_context_frozen : run_step RunDraft "context.frozen" RunDraft
| run_step_route_frozen : run_step RunDraft "run.route_frozen" RunReady
| run_step_started_draft : run_step RunDraft "run.started" RunRunning
| run_step_started_ready : run_step RunReady "run.started" RunQueued
| run_step_visit_ready : run_step RunQueued "run.visit_ready" RunRunning
| run_step_waiting : run_step RunRunning "run.waiting" RunWaiting
| run_step_input_required : run_step RunQueued "run.input_required" RunWaiting
| run_step_paused s : s ∈ [RunQueued; RunRunning] → run_step s "run.paused" RunWaiting
| run_step_blocked : run_step RunRunning "run.blocked" RunBlocked
| run_step_resumed s :
    s ∈ [RunWaiting; RunBlocked; RunFailed] → run_step s "run.resumed" RunQueued
| run_step_retried : run_step RunFailed "run.retried" RunQueued
| run_step_continued : run_step RunCompleted "run.continued" RunQueued
| run_step_guidance_requested : run_step RunRunning "run.guidance_requested" RunRunning
| run_step_guidance_delivery s : run_step s "run.guidance_delivery" s
| run_step_completed : run_step RunRunning "run.completed" RunCompleted
| run_step_failed : run_step RunRunning "run.failed" RunFailed
| run_step_admission_failed : run_step RunQueued "run.admission_failed" RunFailed
| run_step_cancelled s :
    s ∉ [RunCompleted; RunCancelled] → run_step s "run.cancelled" RunCancelled
| run_step_reconcile_required s :
    RunTerminal s = false → run_step s "run.reconcile_required" RunReconcileRequired.
Definition run_lifecycle : Lifecycle :=
  {| lc_initial := RunDraft; lc_created := "run.created"; lc_step := run_step |}.
Definition run_header (run : RunProjection) : Header := {|
  hd_ID := run_RunID run; hd_Status := run_Status run;
  hd_ResourceVersion := run_ResourceVersion run;
  hd_LastGlobalPosition := run_LastGlobalPosition run;
  hd_CreatedAt := run_CreatedAt run; hd_UpdatedAt := run_UpdatedAt run |}.

(** The workflow pinned by a run: nothing yet, or two digests and a bounded route. *)
Definition route_pinned (workflowDigest routeDigest routeSnapshot : string) : Prop :=
  (workflowDigest = "" ∧ routeDigest = "" ∧ routeSnapshot = "") ∨
  (validSourceHash workflowDigest = true ∧ validSourceHash routeDigest = true ∧
   has_boundaries routeSnapshot = true).
Definition run_route_pinned (run : RunProjection) : Prop :=
  route_pinned (run_WorkflowDigest run) (run_RouteDigest run) (run_RouteSnapshot run).

(** A handler keeps everything but the status, or pins a route as well. *)
Definition run_good (current next : RunProjection) (s : RunStatus) : Prop :=
  next = run_with_status current s ∨
  ∃ data, next = run_with_route current data s ∧ s ∈ [RunReady; RunQueued] ∧
    route_pinned (get_string data "workflowDigest") (get_string data "routeDigest")
      (get_raw data "routeSnapshot").

Section run_handlers.
Variables (current : RunProjection) (event : Event).
Abbreviation handled_run kind :=
  (handled run_step (run_Status current) kind (run_good current)).

Lemma run_same : run_with_status current (run_Status current) = current.
Proof. by destruct current. Qed.

Lemma run_move_handled kind allowed s :
  ev_Kind event = kind →
  (∀ s', run_step (run_Status current) kind s' → run_Status current ∈ allowed) →
  (run_Status current ∈ allowed → run_step (run_Status current) kind s) →
  handled_run kind (run_move current event allowed s).
Proof.
  intros <- ??. apply handled_require; [done|]. intros ?. apply (handled_Ok _ _ _ _ _ s); [auto|by left].
Qed.

Lemma run_route_frozen_handled :
  ev_Kind event = "run.route_frozen" → handled_run "run.route_frozen" (run_route_frozen current event).
Proof.
  intros Hk. unfold run_route_frozen, requireRunState. rewrite Hk. repeat handle_one.
  apply (handled_Ok _ _ _ _ _ RunReady); [split_status; constructor|].
  right. exists data. split_and!; [done|set_solver|]. unfold route_pinned.
  destruct (bool_decide (_ ≠ _ ∧ _)) in *; simpl in *; bool_to_prop; auto.
Qed.

Lemma run_started_handled :
  ev_Kind event = "run.started" → handled_run "run.started" (run_started current event).
Proof.
  intros Hk. unfold run_started, requireRunState. rewrite Hk. handle_one.
  eapply handled_Ok; [|by left]. case_decide as Hs; [rewrite Hs; constructor|].
  split_status; [done|constructor].
Qed.

Lemma run_continued_handled :
  ev_Kind event = "run.continued" → handled_run "run.continued" (run_continued current event).
Proof.
  intros Hk. unfold run_continued, requireRunState. rewrite Hk. repeat handle_one.
  apply (handled_Ok _ _ _ _ _ RunQueued); [split_status; constructor|].
  right. exists data. split_and!; [done|set_solver|]. right. bool_to_prop. auto.
Qed.

Lemma run_cancel_guard s :
  RunTerminal s && bool_decide (s ≠ RunReconcileRequired) =
  bool_decide (s ∈ [RunCompleted; RunCancelled]).
Proof.
  apply eq_true_iff_eq. rewrite andb_true_iff. unfold RunTerminal. rewrite !bool_decide_eq_true.
  rewrite !elem_of_cons, elem_of_nil. unfold RunCompleted, RunCancelled, RunReconcileRequired.
  naive_solver.
Qed.

Lemma run_handled :
  handled_run (ev_Kind event)
    (switch (ev_Kind event) (run_cases current event) (run_invalid current event)).
Proof.
  unfold run_cases. rewrite run_cancel_guard. by_kind event.
  2: by apply run_route_frozen_handled. 2: by apply run_started_handled.
  9: by apply run_continued_handled.
  all: try (apply run_move_handled; [done|move_inv|intros ?; split_status; constructor; set_solver]).
  all: unfold run_guidance_requested, run_guidance_delivery, run_invalid, requireRunState.
  all: try rewrite Hkind; repeat handle_one; bool_to_prop.
  all: try (eapply handled_Ok; [|left; first [reflexivity | symmetry; apply run_same]];
            split_status; constructor; eauto).
  all: apply handled_invalid; intros ? Hmove; inversion Hmove; congruence.
Qed.
End run_handlers.

Lemma run_step_functional s k s1 s2 : run_step s k s1 → run_step s k s2 → s1 = s2.
Proof. intros H1 H2. inversion H1; subst; inversion H2; subst; congruence. Qed.

Lemma run_applied_inv current event next :
  run_applied current event = Ok next →
  ev_AggregateID event = run_RunID current ∧
  ev_AggregateRevision event = uint64 (run_ResourceVersion current + 1) ∧
  ∃ mid s, run_step (run_Status current) (ev_Kind event) s ∧ run_good current mid s ∧
    next = run_advanced event mid.
Proof.
  intros (? & ? & mid & Hmid & ->)%applied_inv.
  split_and!; [done..|]. pose proof (run_handled current event) as Hh. rewrite Hmid in Hh.
  destruct Hh as (s & ? & ?). by exists mid, s.
Qed.

Lemma run_good_header current mid s event :
  run_good current mid s →
  run_header (run_advanced event mid) = advanced_header (run_header current) event s.
Proof. intros [->|(data & -> & _)]; done. Qed.

Lemma run_created_inv event next :
  run_created event = Ok next →
  ev_Kind event = "run.created" ∧ run_header next = created_header event RunDraft ∧
  route_pinned (run_WorkflowDigest next) (run_RouteDigest next) (run_RouteSnapshot next).
Proof.
  intros Hok. unfold run_created in Hok. inv_created Hok. split_and!; [done..|]. by left.
Qed.

#[export] Instance run_lawful : LawfulReducer ReduceRun run_header AggregateRun run_lifecycle.
Proof.
  apply (lawful_intro AggregateRun run_created run_applied).
  - intros event next (? & ? & _)%run_created_inv. done.
  - intros current event next (? & ? & mid & s & ? & Hgood & ->)%run_applied_inv.
    rewrite (run_good_header _ _ _ event Hgood). done.
Qed.

(** (C33) A run moves exactly along its lifecycle: an event addressed to a run is never
    ignored; when it is applied the next status is the one status its kind allows from the
    current one, and it is refused as an invalid transition exactly when its kind allows
    none (any other refusal is about the event's data). *)
Theorem run_transitions current event :
  addressed AggregateRun (run_header current) event →
  follows run_lifecycle (run_Status current) (ev_Kind event) run_header
    (ReduceRun (Some current) event).
Proof.
  apply (handled_follows AggregateRun run_lifecycle run_header (run_good current)).
  - apply run_step_functional.
  - intros mid s Hgood. by rewrite (run_good_header _ _ _ event Hgood).
  - apply run_handled.
Qed.

Lemma ReduceRun_created event next :
  ReduceRun None event = Reduced next → run_created event = Ok next.
Proof. by intros (_ & _ & ?)%reduce_Reduced. Qed.
Lemma ReduceRun_applied current event next :
  ReduceRun (Some current) event = Reduced next →
  ∃ mid s, run_step (run_Status current) (ev_Kind event) s ∧ run_good current mid s ∧
    next = run_advanced event mid ∧ run_Status next = s.
Proof.
  intros (_ & _ & (_ & _ & mid & s & ? & Hgood & ->)%run_applied_inv)%reduce_Reduced.
  exists mid, s. split_and!; [done..|]. by destruct Hgood as [->|(? & -> & _)].
Qed.

(** The fields of a run no event changes. *)
Definition run_subject (run : RunProjection) : string * string * string * Z :=
  (run_WorkItemID run, run_WorkflowID run, run_WorkflowVersion run, run_Priority run).

(** (C34) Whatever run projection a log replays to: its stream starts with [run.created] and
    has one revision after the other, its identity, times, revision and position are those
    of that stream, its status is reached from draft along the run lifecycle by the kinds of
    the stream's events, its work item, workflow and priority are the ones it was created
    with, and the workflow it pins is either absent or two SHA-256 digests with a route that
    has an entry and a terminal. *)
Theorem run_history events run :
  replay ReduceRun events = Ok (Some run) →
  recorded AggregateRun run_lifecycle events (run_header run) (λ first _,
    (∃ created, ReduceRun None first = Reduced created ∧ run_subject run = run_subject created) ∧
    run_route_pinned run).
Proof.
  apply (replay_recorded (λ first _ run,
    (∃ created, ReduceRun None first = Reduced created ∧ run_subject run = run_subject created) ∧
    run_route_pinned run)).
  - intros event next Hred. split; [by exists next|].
    by apply ReduceRun_created, run_created_inv in Hred as (_ & _ & ?).
  - intros first rest current event next [(created & ? & Hsub) Hpin] (mid & s & _ & Hgood & -> & _)%ReduceRun_applied.
    destruct Hgood as [->|(data & -> & _ & ?)]; (split; [by exists created|done]).
Qed.

Definition ex_digest : string := "0123456789abcdef0123456789abcdef0123456789abcdef0123456789abcdef".
Definition ex_run_event := ex_event AggregateRun "run_1".
Definition ex_run_events : list Event := [
  ex_run_event "run.created" 1 "{'workItemId':'work_1','workflowId':'w','workflowVersion':'1.0.0','priority':2}";
  ex_event AggregateWork "work_1" "work.started" 2 "{}";
  ex_run_event "run.route_frozen" 2 ("{'workflowDigest':'" ++ ex_digest ++ "','routeDigest':'" ++ ex_digest ++
    "','routeSnapshot':{'entry':'a','terminals':['b']}}");
  ex_run_event "run.started" 3 "{}";
  ex_run_event "run.visit_ready" 4 "{}";
  ex_run_event "run.reconcile_required" 5 "{'code':'lost','message':'no contact'}";
  ex_run_event "run.cancelled" 6 "{}"].

Lemma run_transitions_witness :
  ∃ run, replay ReduceRun (take 3 ex_run_events) = Ok (Some run) ∧
  follows run_lifecycle (run_Status run) "run.started" run_header
    (ReduceRun (Some run) (ex_run_event "run.started" 3 "{}")).
Proof.
  eexists. split; [vm_compute; reflexivity|].
  apply (run_transitions _ (ex_run_event "run.started" 3 "{}")). repeat split; vm_compute; reflexivity.
Defined.
Lemma run_history_witness :
  ∃ run, run_Status run = RunCancelled ∧
  recorded AggregateRun run_lifecycle ex_run_events (run_header run) (λ first _,
    (∃ created, ReduceRun None first = Reduced created ∧ run_subject run = run_subject created) ∧
    run_route_pinned run).
Proof.
  eexists. split; [|apply run_history; vm_compute; reflexivity]. reflexivity.
Defined.

(** How a terminal run may still move. *)
Inductive run_exit : RunStatus → string → RunStatus → Prop :=
| run_exit_receipt s : run_exit s "run.guidance_delivery" s
| run_exit_continued : run_exit RunCompleted "run.continued" RunQueued
| run_exit_reconciled : run_exit RunReconcileRequired "run.cancelled" RunCancelled.

Lemma run_terminal_step s k s' : run_step s k s' → RunTerminal s = true → run_exit s k s'.
Proof.
  intros Hs Ht. assert (s ∈ [RunCompleted; RunCancelled; RunReconcileRequired]) as Hin.
  { by apply bool_decide_eq_true in Ht. }
  inversion Hs; subst; try discriminate; try constructor; split_status; subst; try discriminate; try constructor; set_solver.
Qed.

(** A terminal run stands still except for guidance receipts and two exits: a completed
    run can be continued (it is queued again) and one that needs reconciliation can be
    cancelled. A cancelled run stays cancelled, with the route it had, whatever events
    follow. *)
Theorem run_terminal current :
  RunTerminal (run_Status current) = true →
  (∀ event next, ReduceRun (Some current) event = Reduced next →
    run_exit (run_Status current) (ev_Kind event) (run_Status next)) ∧
  (run_Status current = RunCancelled → ∀ events after,
    foldM (apply_event ReduceRun) (Some current) events = Ok after →
    ∃ next, after = Some next ∧ run_Status next = RunCancelled ∧
      run_RouteSnapshot next = run_RouteSnapshot current).
Proof.
  intros Hterm. split.
  - intros event next (mid & s & Hstep & _ & _ & <-)%ReduceRun_applied. by apply run_terminal_step.
  - intros Hc events after.
    apply (continued_invariant _ (λ next, run_Status next = RunCancelled ∧
      run_RouteSnapshot next = run_RouteSnapshot current)); [|done].
    intros run event next [Hrun Hroute] (mid & s & Hstep & Hgood & -> & <-)%ReduceRun_applied.
    rewrite Hrun in Hstep. apply run_terminal_step in Hstep; [|done].
    assert (run_Status (run_advanced event mid) = RunCancelled) as Hs by (by inversion Hstep).
    split; [done|]. destruct Hgood as [->|(data & _ & Hin & _)]; [done|].
    rewrite Hs in Hin. by split_status.
Qed.

Definition ex_receipt : Event :=
  ex_run_event "run.guidance_delivery" 7 "{'id':'g','status':'accepted'}".
Lemma run_terminal_witness :
  ∃ run, replay ReduceRun ex_run_events = Ok (Some run) ∧
    ∃ next, foldM (apply_event ReduceRun) (Some run) [ex_receipt] = Ok (Some next) ∧
      run_Status next = RunCancelled.
Proof.
  eexists. split; [vm_compute; reflexivity|].
  lazymatch goal with |- ∃ _, foldM _ (Some ?run) _ = _ ∧ _ =>
    destruct (proj2 (run_terminal run eq_refl) eq_refl [ex_receipt] _ eq_refl)
      as (next & Hnext & Hs & _)
  end.
  exists next. split; [rewrite <-Hnext; vm_compute; reflexivity|exact Hs].
Defined.

(** * Node visits *)
Inductive node_step : NodeStatus → string → NodeStatus → Prop :=
| node_step_ready : node_step NodePending "visit.ready" NodeReady
| node_step_started : node_step NodeReady "visit.started" NodeRunning
| node_step_result_received : node_step NodeRunning "visit.result_received" NodeValidating
| node_step_succeeded s :
    s ∈ [NodeValidating; NodeWaitingCheckpoint] → node_step s "visit.succeeded" NodeSucceeded
| node_step_waiting_checkpoint :
    node_step NodeValidating "visit.waiting_checkpoint" NodeWaitingCheckpoint
| node_step_changes_requested :
    node_step NodeWaitingCheckpoint "visit.changes_requested" NodeRunning
| node_step_rejected : node_step NodeWaitingCheckpoint "visit.rejected" NodeRejected
| node_step_retrying s :
    s ∈ [NodeRunning; NodeValidating; NodeFailed] → node_step s "visit.retrying" NodeReady
| node_step_failed s : s ∈ [NodeRunning; NodeValidating] → node_step s "visit.failed" NodeFailed
| node_step_admission_failed s :
    s ∈ [NodePending; NodeReady] → node_step s "visit.admission_failed" NodeFailed
| node_step_cancelled s : NodeTerminal s = false → node_step s "visit.cancelled" NodeCancelled.
Definition node_lifecycle : Lifecycle :=
  {| lc_initial := NodePending; lc_created := "visit.created"; lc_step := node_step |}.
Definition node_header (node : NodeProjection) : Header := {|
  hd_ID := node_VisitID node; hd_Status := node_Status node;
  hd_ResourceVersion := node_ResourceVersion node;
  hd_LastGlobalPosition := node_LastGlobalPosition node;
  hd_CreatedAt := node_CreatedAt node; hd_UpdatedAt := node_UpdatedAt node |}.

Section node_handlers.
Variables (current : NodeProjection) (event : Event).
Definition node_good (next : NodeProjection) (s : NodeStatus) : Prop :=
  next = node_with_status current s.

Lemma node_handled :
  handled node_step (node_Status current) (ev_Kind event) node_good
    (switch (ev_Kind event) (node_cases current event) (node_invalid current event)).
Proof.
  unfold node_cases, node_move, node_invalid, requireNodeState. by_kind event.
  all: repeat handle_one.
  all: try (eapply handled_Ok; [|reflexivity]; split_status; constructor; eauto; set_solver).

  all: apply handled_invalid; intros ? Hmove; inversion Hmove; congruence.
Qed.
End node_handlers.

Lemma node_applied_inv current event next :
  node_applied current event = Ok next →
  ev_AggregateID event = node_VisitID current ∧
  ev_AggregateRevision event = uint64 (node_ResourceVersion current + 1) ∧
  ∃ s, node_step (node_Status current) (ev_Kind event) s ∧
    next = node_advanced event (node_with_status current s).
Proof.
  intros (? & ? & mid & Hmid & ->)%applied_inv.
  split_and!; [done..|]. pose proof (node_handled current event) as Hh. rewrite Hmid in Hh.
  destruct Hh as (s & ? & Hgood). red in Hgood. subst mid. by exists s.
Qed.

Lemma node_step_functional s k s1 s2 : node_step s k s1 → node_step s k s2 → s1 = s2.
Proof. intros H1 H2. inversion H1; subst; inversion H2; subst; congruence. Qed.

Lemma node_created_inv event next :
  node_created event = Ok next →
  ev_Kind event = "visit.created" ∧ node_header next = created_header event NodePending.
Proof. intros Hok. unfold node_created in Hok. inv_created Hok. done. Qed.

#[export] Instance node_lawful : LawfulReducer ReduceNode node_header AggregateVisit node_lifecycle.
Proof.
  apply (lawful_intro AggregateVisit node_created node_applied).
  - by intros event next ?%node_created_inv.
  - intros current event next (? & ? & s & ? & ->)%node_applied_inv. done.
Qed.

Lemma ReduceNode_applied current event next :
  ReduceNode (Some current) event = Reduced next →
  ∃ s, node_step (node_Status current) (ev_Kind event) s ∧
    next = node_advanced event (node_with_status current s).
Proof. by intros (_ & _ & (_ & _ & ?)%node_applied_inv)%reduce_Reduced. Qed.

(** A node visit moves exactly along its lifecycle, and whatever a log replays to has the
    header of its stream, a status reached from pending, and the run and node it was created
    for. *)
Theorem node_history :
  (∀ current event, addressed AggregateVisit (node_header current) event →
    follows node_lifecycle (node_Status current) (ev_Kind event) node_header
      (ReduceNode (Some current) event)) ∧
  (∀ events node, replay ReduceNode events = Ok (Some node) →
    recorded AggregateVisit node_lifecycle events (node_header node) (λ first _,
      ∃ created, ReduceNode None first = Reduced created ∧
        node_RunID node = node_RunID created ∧ node_NodeID node = node_NodeID created)).
Proof.
  split.
  - intros current event. apply (handled_follows _ node_lifecycle node_header (node_good current)).
    + apply node_step_functional.
    + by intros mid s ->.
    + apply node_handled.
  - intros events node. apply (replay_recorded (λ first _ node, ∃ created,
      ReduceNode None first = Reduced created ∧
      node_RunID node = node_RunID created ∧ node_NodeID node = node_NodeID created)).
    + intros event next ?. by exists next.
    + intros first rest current event next (created & ? & ? & ?) (s & _ & ->)%ReduceNode_applied.
      by exists created.
Qed.

Definition ex_visit_events : list Event := [
  ex_event AggregateVisit "visit_1" "visit.created" 1 "{'runId':'run_1','nodeId':'a'}";
  ex_event AggregateVisit "visit_1" "visit.ready" 2 "{}";
  ex_event AggregateVisit "visit_1" "visit.started" 3 "{}";
  ex_event AggregateVisit "visit_1" "visit.failed" 4 "{}";
  ex_event AggregateVisit "visit_1" "visit.retrying" 5 "{}"].
Lemma node_history_witness :
  ∃ node, node_Status node = NodeReady ∧
  recorded AggregateVisit node_lifecycle ex_visit_events (node_header node) (λ first _,
    ∃ created, ReduceNode None first = Reduced created ∧
      node_RunID node = node_RunID created ∧ node_NodeID node = node_NodeID created).
Proof.
  eexists. split; [|apply (proj2 node_history); vm_compute; reflexivity]. reflexivity.
Defined.

(** * Attempts *)
Inductive attempt_step : AttemptStatus → string → AttemptStatus → Prop :=
| attempt_step_resources_acquired :
    attempt_step AttemptCreated "attempt.resources_acquired" AttemptStarting
| attempt_step_started s :
    s ∈ [AttemptCreated; AttemptStarting] → attempt_step s "attempt.started" AttemptRunning
| attempt_step_resumed : attempt_step AttemptRunning "attempt.resumed" AttemptRunning
| attempt_step_provider_event : attempt_step AttemptRunning "attempt.provider_event" AttemptRunning
| attempt_step_result_received :
    attempt_step AttemptRunning "attempt.result_received" AttemptValidating
| attempt_step_succeeded : attempt_step AttemptValidating "attempt.succeeded" AttemptSucceeded
| attempt_step_completed s :
    s ∈ [AttemptRunning; AttemptValidating] → attempt_step s "attempt.completed" AttemptSucceeded
| attempt_step_failed s :
    s ∈ [AttemptCreated; AttemptStarting; AttemptRunning; AttemptValidating] →
    attempt_step s "attempt.failed" AttemptFailed
| attempt_step_cancellation_reconciled :
    attempt_step AttemptReconcileRequired "attempt.cancellation_reconciled" AttemptCancelled
| attempt_step_cancelled s :
    AttemptTerminal s = false → attempt_step s "attempt.cancelled" AttemptCancelled
| attempt_step_interrupted s :
    AttemptTerminal s = false → attempt_step s "attempt.interrupted" AttemptInterrupted
| attempt_step_reconcile_required s :
    AttemptTerminal s = false → attempt_step s "attempt.reconcile_required" AttemptReconcileRequired.
Definition attempt_lifecycle : Lifecycle :=
  {| lc_initial := AttemptCreated; lc_created := "attempt.created"; lc_step := attempt_step |}.
Definition attempt_header (attempt : AttemptProjection) : Header := {|
  hd_ID := att_AttemptID attempt; hd_Status := att_Status attempt;
  hd_ResourceVersion := att_ResourceVersion attempt;
  hd_LastGlobalPosition := att_LastGlobalPosition attempt;
  hd_CreatedAt := att_CreatedAt attempt; hd_UpdatedAt := att_UpdatedAt attempt |}.

(** The provider identity a restarted daemon needs to find the attempt's work again. *)
Definition identified (thread turn owner : string) : Prop := thread ≠ "" ∧ turn ≠ "" ∧ owner ≠ "".

Section attempt_handlers.
Variables (current : AttemptProjection) (event : Event).

(** What a handler may do besides the move: only starting sets the provider identity, only
    resuming changes its owner, only a provider event advances the sequence. *)
Definition attempt_good (next : AttemptProjection) (s : AttemptStatus) : Prop :=
  (ev_Kind event ≠ "attempt.started" ∧ ev_Kind event ≠ "attempt.provider_event" ∧
    next = attempt_with_status current s) ∨
  (∃ thread turn owner, ev_Kind event = "attempt.started" ∧ identified thread turn owner ∧
    next = attempt_with current s thread turn owner (att_LastSequence current)) ∨
  (∃ owner, ev_Kind event = "attempt.resumed" ∧ owner ≠ "" ∧
    next = attempt_with current s (att_ProviderThreadID current) (att_ProviderTurnID current)
      owner (att_LastSequence current)) ∨
  (∃ sequence, ev_Kind event = "attempt.provider_event" ∧ (att_LastSequence current < sequence)%Z ∧
    next = attempt_with current s (att_ProviderThreadID current) (att_ProviderTurnID current)
      (att_ProcessOwnerID current) sequence).

Lemma attempt_provider_event_Ok next :
  ev_Kind event = "attempt.provider_event" → attempt_provider_event current event = Ok next →
  attempt_step (att_Status current) "attempt.provider_event" AttemptRunning ∧
  attempt_good next AttemptRunning.
Proof.
  intros Hk (data & _ & Hok)%result_bind_Ok. cbv zeta beta in Hok.
  destruct (bool_decide _ || _) eqn:Hb in Hok; [done|]. injection Hok as <-. bool_to_prop.
  apply dec_stable in H. split; [rewrite H; constructor|].
  right; right; right. exists (get_int data "sequence"). rewrite H. split_and!; [done|lia|done].
Qed.

Lemma attempt_handled :
  ev_Kind event ≠ "attempt.provider_event" →
  handled attempt_step (att_Status current) (ev_Kind event) attempt_good
    (switch (ev_Kind event) (attempt_cases current event) (attempt_invalid current event)).
Proof.
  unfold attempt_cases, attempt_move, attempt_started, attempt_resumed,
    attempt_cancellation_reconciled, attempt_invalid, requireAttemptState.
  by_kind event; intros Hpe. 4: done.
  all: repeat handle_one; bool_to_prop.
  all: try match goal with H : ¬ (_ ≠ _) |- _ => apply dec_stable in H; rewrite H; repeat handle_one end.
  all: try (eapply handled_Ok; [|left; split_and!; [congruence..|reflexivity]];
            split_status; constructor; eauto; set_solver).
  { apply (handled_Ok _ _ _ _ _ AttemptRunning); [split_status; constructor; set_solver|].
    right; left. do 3 eexists. split; [done|]. split; [|reflexivity]. done. }
  { apply (handled_Ok _ _ _ _ _ AttemptRunning); [split_status; constructor|].
    right; right; left. eexists. split; [done|]. split; [|f_equal; by split_status]. done. }
  all: apply handled_invalid; intros ? Hmove; inversion Hmove; congruence.
Qed.

Lemma attempt_cases_Ok next :
  switch (ev_Kind event) (attempt_cases current event) (attempt_invalid current event) = Ok next →
  ∃ s, attempt_step (att_Status current) (ev_Kind event) s ∧ attempt_good next s.
Proof.
  intros Hok. destruct (decide (ev_Kind event = "attempt.provider_event")) as [Hk|Hk].
  - rewrite Hk in Hok |- *. exists AttemptRunning. by apply attempt_provider_event_Ok.
  - pose proof (attempt_handled Hk) as Hh. by rewrite Hok in Hh.
Qed.
End attempt_handlers.

(** The owner of an attempt: a node visit or a point revision, never both. *)
Definition exclusive_owner (attempt : AttemptProjection) : Prop :=
  (att_NodeID attempt ≠ "" ∧ att_PointID attempt = "" ∧ att_PointRevision attempt = 0%Z) ∨
  (att_NodeID attempt = "" ∧ att_VisitID attempt = "" ∧ att_PointID attempt ≠ "" ∧
   (0 < att_PointRevision attempt)%Z).

Lemma attempt_created_inv event next :
  attempt_created event = Ok next →
  ev_Kind event = "attempt.created" ∧ attempt_header next = created_header event AttemptCreated ∧
  exclusive_owner next ∧ att_LastSequence next = 0%Z.
Proof.
  intros Hok. unfold attempt_created in Hok. inv_created Hok.
  do 2 (split; [done|]). split; [|done]. unfold exclusive_owner; cbn.
  apply orb_false_elim in Hcheck as [_ Hcheck].
  apply andb_false_iff in Hcheck as [Ho|Ho]; bool_to_prop; auto.
Qed.

(** The fields of an attempt no event changes. *)
Definition attempt_subject (attempt : AttemptProjection)
  : string * string * string * string * Z * Z * string * string * string :=
  (att_RunID attempt, att_VisitID attempt, att_NodeID attempt, att_PointID attempt,
   att_PointRevision attempt, att_Priority attempt, att_Scenario attempt, att_Provider attempt,
   att_LogReference attempt).
(** The provider identity is complete once work has begun. *)
Definition attempt_identified (attempt : AttemptProjection) : Prop :=
  att_Status attempt ∈ [AttemptRunning; AttemptValidating; AttemptSucceeded] →
  identified (att_ProviderThreadID attempt) (att_ProviderTurnID attempt)
    (att_ProcessOwnerID attempt).

Lemma attempt_good_facts current event mid s :
  attempt_good current event mid s →
  attempt_header (attempt_advanced event mid) =
    advanced_header (attempt_header current) event s ∧
  attempt_subject (attempt_advanced event mid) = attempt_subject current ∧
  (exclusive_owner current → exclusive_owner (attempt_advanced event mid)).
Proof.
  intros [(_ & _ & ->)|[(t & u & o & _ & _ & ->)|[(o & _ & _ & ->)|(n & _ & _ & ->)]]]; done.
Qed.

Lemma attempt_good_identified current event mid s :
  attempt_step (att_Status current) (ev_Kind event) s → attempt_good current event mid s →
  attempt_identified current → attempt_identified (attempt_advanced event mid).
Proof.
  intros Hstep Hgood Hid Hin.
  destruct Hgood as [(Hk & _ & ->)|[(t & u & o & _ & ? & ->)|[(o & Hk & ? & ->)|(n & Hk & _ & ->)]]]; cbn in *.
  - split_status; subst; inversion Hstep as [| |Hs|Hs|Hs|Hs|? Hs|? Hs| | | |]; try congruence;
      apply Hid; try rewrite <-Hs; try set_solver.
  - done.
  - rewrite Hk in Hstep. inversion Hstep as [| |Hs|Hs| | | | | | | |]; subst.
    destruct Hid as (? & ? & ?); [rewrite <-Hs; set_solver|done].
  - rewrite Hk in Hstep. inversion Hstep as [| |Hs|Hs| | | | | | | |]; subst.
    apply Hid. rewrite <-Hs. set_solver.
Qed.

Lemma attempt_applied_inv current event next :
  attempt_applied current event = Ok next →
  ev_AggregateID event = att_AttemptID current ∧
  ev_AggregateRevision event = uint64 (att_ResourceVersion current + 1) ∧
  ∃ mid s, attempt_step (att_Status current) (ev_Kind event) s ∧
    attempt_good current event mid s ∧ next = attempt_advanced event mid.
Proof.
  intros (? & ? & mid & (s & ? & ?)%attempt_cases_Ok & ->)%applied_inv.
  split_and!; [done..|]. by exists mid, s.
Qed.

#[export] Instance attempt_lawful :
  LawfulReducer ReduceAttempt attempt_header AggregateAttempt attempt_lifecycle.
Proof.
  apply (lawful_intro AggregateAttempt attempt_created attempt_applied).
  - by intros event next (? & ? & _)%attempt_created_inv.
  - intros current event next (? & ? & mid & s & ? & Hgood & ->)%attempt_applied_inv.
    by rewrite (proj1 (attempt_good_facts _ _ _ _ Hgood)).
Qed.

Lemma ReduceAttempt_applied current event next :
  ReduceAttempt (Some current) event = Reduced next →
  ∃ mid s, attempt_step (att_Status current) (ev_Kind event) s ∧
    attempt_good current event mid s ∧ next = attempt_advanced event mid.
Proof. by intros (_ & _ & (_ & _ & ?)%attempt_applied_inv)%reduce_Reduced. Qed.

(** Whatever attempt a log replays to has the header of its stream, a status reached from
    created along the attempt lifecycle, the run, scenario, provider and priority it was
    created with, exactly one owner (a node visit or a point revision), and, once it runs, a
    complete provider identity to recover it by. *)
Theorem attempt_history events attempt :
  replay ReduceAttempt events = Ok (Some attempt) →
  recorded AggregateAttempt attempt_lifecycle events (attempt_header attempt) (λ first _,
    (∃ created, ReduceAttempt None first = Reduced created ∧
      attempt_subject attempt = attempt_subject created) ∧
    exclusive_owner attempt ∧ attempt_identified attempt).
Proof.
  apply (replay_recorded (λ first _ attempt,
    (∃ created, ReduceAttempt None first = Reduced created ∧
      attempt_subject attempt = attempt_subject created) ∧
    exclusive_owner attempt ∧ attempt_identified attempt)).
  - intros event next Hred. split; [by exists next|].
    apply reduce_Reduced in Hred as (_ & _ & (_ & Hh & Ho & _)%attempt_created_inv).
    split; [done|]. intros Hin. apply (f_equal hd_Status) in Hh. cbn in Hh. rewrite Hh in Hin.
    by split_status.
  - intros first rest current event next ((created & ? & Hsub) & Ho & Hid)
      (mid & s & Hstep & Hgood & ->)%ReduceAttempt_applied.
    destruct (attempt_good_facts _ _ _ _ Hgood) as (_ & Hsub' & Ho').
    split_and!; [exists created; by rewrite Hsub'|by apply Ho'|by eapply attempt_good_identified].
Qed.

Lemma attempt_terminal_step s k s' :
  attempt_step s k s' → AttemptTerminal s = true →
  s = AttemptReconcileRequired ∧ k = "attempt.cancellation_reconciled" ∧ s' = AttemptCancelled.
Proof.
  intros Hs Hin%bool_decide_eq_true. split_status; subst;
    inversion Hs; subst; try discriminate; try done; split_status; discriminate.
Qed.

(** (C35) Provider events are consumed once and in order: each strictly advances the sequence
    of a running attempt, no other event
    touches it, a restarted provider must present the
    thread and turn the attempt was started with, and a terminal attempt accepts nothing but
    the confirmation of a cancellation that needed reconciling. *)
Theorem attempt_progress current event next :
  ReduceAttempt (Some current) event = Reduced next →
  attempt_step (att_Status current) (ev_Kind event) (att_Status next) ∧
  (if decide (ev_Kind event = "attempt.provider_event")
   then att_Status current = AttemptRunning ∧ (att_LastSequence current < att_LastSequence next)%Z
   else att_LastSequence next = att_LastSequence current) ∧
  (ev_Kind event ≠ "attempt.started" →
    att_ProviderThreadID next = att_ProviderThreadID current ∧
    att_ProviderTurnID next = att_ProviderTurnID current) ∧
  (AttemptTerminal (att_Status current) = true →
    att_Status current = AttemptReconcileRequired ∧
    ev_Kind event = "attempt.cancellation_reconciled" ∧ att_Status next = AttemptCancelled).
Proof.
  intros (mid & s & Hstep & Hgood & ->)%ReduceAttempt_applied.
  assert (att_Status (attempt_advanced event mid) = s) as Hs.
  { exact (f_equal hd_Status (proj1 (attempt_good_facts _ _ _ _ Hgood))). }
  split_and!; [by rewrite Hs|..].
  - case_decide as Hk.
    + rewrite Hk in Hstep. inversion Hstep; subst. split; [done|].
      destruct Hgood as [(_ & ? & _)|[(? & ? & ? & ? & _)|[(? & ? & _)|(n & _ & ? & ->)]]]; congruence || done.
    + by destruct Hgood as [(_ & _ & ->)|[(? & ? & ? & _ & _ & ->)|[(? & _ & _ & ->)|(n & ? & _)]]].
  - intros Hk.
    by destruct Hgood as [(_ & _ & ->)|[(? & ? & ? & ? & _)|[(? & _ & _ & ->)|(n & _ & _ & ->)]]].
  - intros Ht. rewrite Hs. by apply attempt_terminal_step in Hstep.
Qed.

Definition ex_attempt_event := ex_event AggregateAttempt "attempt_1".
Definition ex_attempt_events : list Event := [
  ex_attempt_event "attempt.created" 1 "{'runId':'run_1','visitId':'visit_1','nodeId':'a','scenario':'s','provider':'p','logReference':'l'}";
  ex_attempt_event "attempt.resources_acquired" 2 "{}";
  ex_attempt_event "attempt.started" 3 "{'providerThreadId':'t','providerTurnId':'u','processOwnerId':'o'}";
  ex_attempt_event "attempt.provider_event" 4 "{'sequence':7}"].
Lemma attempt_history_witness :
  ∃ attempt, att_LastSequence attempt = 7%Z ∧
  recorded AggregateAttempt attempt_lifecycle ex_attempt_events (attempt_header attempt) (λ first _,
    (∃ created, ReduceAttempt None first = Reduced created ∧
      attempt_subject attempt = attempt_subject created) ∧
    exclusive_owner attempt ∧ attempt_identified attempt).
Proof.
  eexists. split; [|apply attempt_history; vm_compute; reflexivity]. reflexivity.
Defined.
Lemma attempt_progress_witness :
  ∃ current, replay ReduceAttempt ex_attempt_events = Ok (Some current) ∧
  ∃ next,
    ReduceAttempt (Some current) (ex_attempt_event "attempt.provider_event" 5 "{'sequence':9}") =
      Reduced next ∧
    att_Status current = AttemptRunning ∧ (att_LastSequence current < att_LastSequence next)%Z.
Proof.
  eexists. split; [vm_compute; reflexivity|]. eexists.
  refine ((λ H, conj H (proj1 (proj2 (attempt_progress _ _ _ H)))) _). vm_compute. reflexivity.
Defined.

(** * Approvals *)
Inductive approval_step : ApprovalStatus → string → ApprovalStatus → Prop :=
| approval_step_feedback : approval_step ApprovalPending "approval.feedback_submitted" ApprovalPending
| approval_step_resumed : approval_step ApprovalPending "approval.revision_resumed" ApprovalPending
| approval_step_responded s :
    s ∈ [ApprovalPending; ApprovalChangesRequested] →
    approval_step ApprovalPending "approval.agent_responded" s
| approval_step_decided action s :
    decided_status action = Some s → approval_step ApprovalPending "approval.decided" s
| approval_step_cancelled : approval_step ApprovalPending "approval.cancelled" ApprovalCancelled
| approval_step_expired : approval_step ApprovalPending "approval.expired" ApprovalExpired.
Definition approval_lifecycle : Lifecycle :=
  {| lc_initial := ApprovalPending; lc_created := "approval.requested"; lc_step := approval_step |}.
Definition approval_header (approval : ApprovalProjection) : Header := {|
  hd_ID := app_ApprovalID approval; hd_Status := app_Status approval;
  hd_ResourceVersion := app_ResourceVersion approval;
  hd_LastGlobalPosition := app_LastGlobalPosition approval;
  hd_CreatedAt := app_CreatedAt approval; hd_UpdatedAt := app_UpdatedAt approval |}.

Definition decided_fields : list (string * FieldKind) := [
  string_field "action"; string_field "scopeDigest"; string_field "policyDigest";
  string_field "comment"].

(** The decision an [approval.decided] event carries for a request. *)
Definition decision_of (current : ApprovalProjection) (event : Event)
    (decision : ApprovalDecisionProjection) (s : ApprovalStatus) : Prop :=
  ∃ data, decodeData event decided_fields = Ok data ∧
    decision = {| dec_Action := get_string data "action"; dec_ActionKey := ev_CommandID event;
      dec_Comment := get_string data "comment"; dec_Actor := ev_Actor event;
      dec_DecidedAt := ev_RecordedAt event |} ∧
    decided_status (get_string data "action") = Some s ∧
    (app_CheckpointID current ≠ "" →
      get_string data "scopeDigest" = app_ScopeDigest current ∧
      get_string data "policyDigest" = app_PolicyDigest current).

Definition approval_good (current : ApprovalProjection) (event : Event)
    (next : ApprovalProjection) (s : ApprovalStatus) : Prop :=
  (ev_Kind event ≠ "approval.decided" ∧ next = approval_with_status current s) ∨
  (ev_Kind event = "approval.decided" ∧
    ∃ decision, next = approval_with current s (Some decision) ∧ decision_of current event decision s).

Section approval_handlers.
Variables (current : ApprovalProjection) (event : Event).

Lemma approval_same : approval_with_status current (app_Status current) = current.
Proof. by destruct current. Qed.

Lemma require_pending_Ok : require_pending current event = Ok tt → app_Status current = ApprovalPending.
Proof. unfold require_pending. by case_decide. Qed.
Lemma require_pending_checkpoint_Ok :
  require_pending_checkpoint current event = Ok tt → app_Status current = ApprovalPending.
Proof. unfold require_pending_checkpoint. case_decide as H; [by destruct H|done]. Qed.

Lemma approval_responded_Ok next :
  approval_agent_responded current event = Ok next →
  app_Status current = ApprovalPending ∧
  ∃ s, s ∈ [ApprovalPending; ApprovalChangesRequested] ∧ next = approval_with_status current s.
Proof.
  intros ([] & Hp%require_pending_checkpoint_Ok & (data & _ & Hok)%result_bind_Ok)%result_bind_Ok.
  split; [done|]. cbn beta in Hok. destruct (other_candidate _ _ || _); [done|].
  repeat case_decide; try done.
  - destruct (next_candidate _ _); [|done]. injection Hok as <-. eexists. split; [|done]. set_solver.
  - injection Hok as <-. exists ApprovalPending. split; [set_solver|]. by rewrite <-Hp, approval_same.
Qed.

Lemma approval_decided_Ok next :
  approval_decided current event = Ok next →
  app_Status current = ApprovalPending ∧
  ∃ s decision, next = approval_with current s (Some decision) ∧ decision_of current event decision s.
Proof.
  intros ([] & Hp%require_pending_Ok & (data & Hdata & Hok)%result_bind_Ok)%result_bind_Ok.
  split; [done|]. cbn beta in Hok.
  destruct (bool_decide _ && _) eqn:Hb in Hok; [done|].
  destruct (decided_status _) as [s|] eqn:Hs in Hok; [|done]. injection Hok as <-.
  exists s. eexists. split; [done|]. exists data. split_and!; [done..|].
  intros Hck. apply andb_false_iff in Hb as [Hb|Hb]; bool_to_prop; [done|].
  split; apply dec_stable; naive_solver.
Qed.

Lemma approval_cases_Ok next :
  switch (ev_Kind event) (approval_cases current event) (approval_invalid current event) = Ok next →
  ∃ s, approval_step (app_Status current) (ev_Kind event) s ∧ approval_good current event next s.
Proof.
  unfold approval_cases, approval_feedback_submitted, approval_revision_resumed, approval_good.
  by_kind event.
  1,2: intros ([] & Hp%require_pending_checkpoint_Ok & (data & _ & Hok)%result_bind_Ok)%result_bind_Ok;
    cbn beta zeta in Hok; destruct (other_candidate _ _ || _); [done|]; injection Hok as <-;
    exists (app_Status current); rewrite approval_same;
    (split; [rewrite Hp; constructor|by left]).
  - intros (Hp & s & Hs & ->)%approval_responded_Ok. rewrite Hp. exists s.
    split; [by constructor|by left].
  - intros (Hp & s & decision & ? & Hd)%approval_decided_Ok. rewrite Hp. exists s.
    destruct Hd as (data & ? & -> & Hs & ?). split; [by econstructor|]. right. split; [done|].
    eexists. split; [done|]. by exists data.
  - intros ([] & Hp%require_pending_Ok & [= <-])%result_bind_Ok. rewrite Hp. eexists.
    split; [constructor|by left].
  - intros ([] & Hp%require_pending_Ok & [= <-])%result_bind_Ok. rewrite Hp. eexists.
    split; [constructor|by left].
  - done.
Qed.
End approval_handlers.

Lemma approval_applied_inv current event next :
  approval_applied current event = Ok next →
  ev_AggregateID event = app_ApprovalID current ∧
  ev_AggregateRevision event = uint64 (app_ResourceVersion current + 1) ∧
  ∃ mid s, approval_step (app_Status current) (ev_Kind event) s ∧
    approval_good current event mid s ∧ next = approval_advanced event mid.
Proof.
  intros (? & ? & mid & (s & ? & ?)%approval_cases_Ok & ->)%applied_inv.
  split_and!; [done..|]. by exists mid, s.
Qed.

(** The subject of an approval: none, one complete artifact checkpoint, or one workflow
    control. *)
Definition checkpoint_subject (a : ApprovalProjection) : Prop :=
  app_Class a = ApprovalWorkflowCheckpoint ∧ app_CheckpointID a ≠ "" ∧ app_VisitID a ≠ "" ∧
  app_NodeID a ≠ "" ∧ app_AttemptID a ≠ "" ∧ (0 < app_CheckpointRevision a)%Z ∧
  app_CandidateArtifactID a ≠ "" ∧ (0 < app_CandidateArtifactVersion a)%Z ∧
  app_CandidateDigest a ≠ "" ∧
  (app_CheckpointMode a = "approve" ∨ app_CheckpointMode a = "approve_on_change") ∧
  (∀ n, app_MaxRevisions a = Some n → 0 < n)%Z.
Definition no_candidate (a : ApprovalProjection) : Prop :=
  app_CheckpointID a = "" ∧ app_CheckpointRevision a = 0%Z ∧ app_CandidateArtifactID a = "" ∧
  app_CandidateArtifactVersion a = 0%Z ∧ app_CandidateDigest a = "" ∧ app_CheckpointMode a = "" ∧
  app_MaxRevisions a = None.
Definition control_subject (a : ApprovalProjection) : Prop :=
  app_Class a = ApprovalWorkflowControl ∧ app_VisitID a ≠ "" ∧ app_NodeID a ≠ "" ∧
  app_AttemptID a ≠ "" ∧ no_candidate a.
Definition no_subject (a : ApprovalProjection) : Prop :=
  app_VisitID a = "" ∧ app_NodeID a = "" ∧ app_AttemptID a = "" ∧ no_candidate a.
Definition one_subject (a : ApprovalProjection) : Prop :=
  no_subject a ∨ checkpoint_subject a ∨ control_subject a.

Lemma approval_requested_inv event next :
  approval_requested event = Ok next →
  ev_Kind event = "approval.requested" ∧
  approval_header next = created_header event ApprovalPending ∧
  one_subject next ∧ app_Decision next = None.
Proof.
  intros Hok. unfold approval_requested in Hok. inv_created Hok.
  do 2 (split; [done|]). split; [|done].
  apply andb_false_iff in Hcheck0 as [Hc|Hc]; [apply andb_false_iff in Hc as [Hc|Hc]|].
  - left. unfold checkpointFields in Hc. bool_to_prop.
    unfold no_subject, no_candidate; cbn.
    repeat match goal with H : ¬ (_ ∨ _) |- _ => apply Decidable.not_or in H; destruct H end.
    split_and!; by apply dec_stable.
  - right; left. unfold completeSubject in Hc. bool_to_prop. unfold checkpoint_subject; cbn.
    destruct_and!. split_and!; try done.
    intros n Hn. rewrite Hn in *. by apply Z.ltb_lt.
  - right; right. unfold controlSubject in Hc. bool_to_prop. unfold control_subject, no_candidate; cbn.
    by destruct_and!.
Qed.

#[export] Instance approval_lawful :
  LawfulReducer ReduceApproval approval_header AggregateApproval approval_lifecycle.
Proof.
  apply (lawful_intro AggregateApproval approval_requested approval_applied).
  - by intros event next (? & ? & _)%approval_requested_inv.
  - intros current event next (? & ? & mid & s & ? & Hgood & ->)%approval_applied_inv.
    by destruct Hgood as [[_ ->]|(_ & decision & -> & _)].
Qed.

Lemma ReduceApproval_applied current event next :
  ReduceApproval (Some current) event = Reduced next →
  ∃ mid s, approval_step (app_Status current) (ev_Kind event) s ∧
    approval_good current event mid s ∧ next = approval_advanced event mid.
Proof. by intros (_ & _ & (_ & _ & ?)%approval_applied_inv)%reduce_Reduced. Qed.

(** The fields of an approval no event changes. *)
Definition approval_subject (a : ApprovalProjection)
  : string * string * string * string * string * string * Z * string * Z * string * string *
    option Z * string * string :=
  (app_RunID a, app_Class a, app_CheckpointID a, app_VisitID a, app_NodeID a, app_AttemptID a,
   app_CheckpointRevision a, app_CandidateArtifactID a, app_CandidateArtifactVersion a,
   app_CandidateDigest a, app_CheckpointMode a, app_MaxRevisions a, app_ScopeDigest a,
   app_PolicyDigest a).
(** The decision on record explains the status; without one nothing was granted or refused. *)
Definition decision_explains (a : ApprovalProjection) : Prop :=
  match app_Decision a with
  | Some decision => decided_status (dec_Action decision) = Some (app_Status a)
  | None =>
      app_Status a ∈ [ApprovalPending; ApprovalChangesRequested; ApprovalCancelled; ApprovalExpired]
  end.

Lemma approval_step_pending s k s' : approval_step s k s' → s = ApprovalPending.
Proof. by inversion 1. Qed.
Lemma approval_step_undecided s k s' :
  approval_step s k s' → k ≠ "approval.decided" →
  s' ∈ [ApprovalPending; ApprovalChangesRequested; ApprovalCancelled; ApprovalExpired].
Proof. inversion 1; subst; try set_solver. Qed.

(** Whatever approval a log replays to has the header of its stream, asks about the subject
    it was requested for, unchanged (nothing, one complete artifact checkpoint or one workflow
    control), and its status is explained by its record: with a decision it is the status of
    that decision's action, without one it is not approved, rejected or denied. *)
Theorem approval_history events approval :
  replay ReduceApproval events = Ok (Some approval) →
  recorded AggregateApproval approval_lifecycle events (approval_header approval) (λ first _,
    (∃ created, ReduceApproval None first = Reduced created ∧
      approval_subject approval = approval_subject created ∧ one_subject created) ∧
    decision_explains approval).
Proof.
  apply (replay_recorded (λ first _ approval,
    (∃ created, ReduceApproval None first = Reduced created ∧
      approval_subject approval = approval_subject created ∧ one_subject created) ∧
    decision_explains approval)).
  - intros event next Hred. pose proof Hred as (_ & _ & (_ & Hh & Hone & Hd)%approval_requested_inv)%reduce_Reduced.
    split; [by exists next|]. unfold decision_explains. rewrite Hd.
    apply (f_equal hd_Status) in Hh. cbn in Hh. rewrite Hh. set_solver.
  - intros first rest current event next ((created & ? & Hsub & ?) & Hexp)
      (mid & s & Hstep & Hgood & ->)%ReduceApproval_applied.
    destruct Hgood as [[Hk ->]|(Hk & decision & -> & (data & _ & -> & Hs & _))].
    + split; [by exists created|]. apply approval_step_undecided in Hstep as Hs; [|done].
      apply approval_step_pending in Hstep. unfold decision_explains in *. cbn.
      destruct (app_Decision current) as [d|]; [|done].
      rewrite Hstep in Hexp. unfold decided_status in Hexp. repeat case_decide; done.
    + split; [by exists created|]. done.
Qed.

(** An approval is decided at most once, by a decision about it: only a pending approval
    accepts events, [approval.decided] records the action, command, comment, actor and time of
    the event and sets the action's status, and for an artifact checkpoint it must repeat the
    request's scope and policy digests. Once resolved, a log that touches the approval again
    does not replay. *)
Theorem approval_once current :
  (∀ event next, ReduceApproval (Some current) event = Reduced next →
    app_Status current = ApprovalPending ∧
    (ev_Kind event = "approval.decided" → ∃ decision,
      app_Decision next = Some decision ∧ decision_of current event decision (app_Status next))) ∧
  (app_Status current ≠ ApprovalPending → ∀ events after,
    foldM (apply_event ReduceApproval) (Some current) events = Ok after →
    after = Some current ∧ stream_of AggregateApproval events = []).
Proof.
  split.
  - intros event next (mid & s & Hstep & Hgood & ->)%ReduceApproval_applied.
    split; [by eapply approval_step_pending|]. intros Hk.
    destruct Hgood as [[? _]|(_ & decision & -> & Hd)]; [done|]. by exists decision.
  - intros Hres events. induction events as [|event events IH]; intros after; [by intros [= <-]|].
    cbn [foldM]. intros (c & Hc & Hafter)%result_bind_Ok. unfold stream_of. rewrite filter_cons.
    case_decide as Htype.
    + unfold apply_event in Hc. destruct (ReduceApproval _ _) as [|next|] eqn:Hred; [|exfalso|done].
      * exfalso. destruct (decide (ev_SchemaVersion event = 1%Z)).
        -- by eapply (lawful_own (Some current) event).
        -- by rewrite lawful_schema in Hred.
      * apply ReduceApproval_applied in Hred as (? & ? & ?%approval_step_pending & _). done.
    + rewrite apply_event_foreign in Hc by done. case_decide; [|done].
      injection Hc as <-. by apply IH.
Qed.

Definition ex_approval_event := ex_event AggregateApproval "approval_1".
Definition ex_approval_events : list Event := [
  ex_approval_event "approval.requested" 1
    "{'runId':'run_1','class':'workflow_checkpoint','checkpointId':'c','visitId':'v','nodeId':'n','attemptId':'a','checkpointRevision':1,'candidateArtifactId':'art','candidateArtifactVersion':2,'candidateDigest':'d','checkpointMode':'approve','maxRevisions':3,'scopeDigest':'s','policyDigest':'p'}";
  ex_approval_event "approval.feedback_submitted" 2
    "{'candidateDigest':'d','scopeDigest':'s','message':'shorter'}";
  ex_approval_event "approval.decided" 3
    "{'action':'request_changes','scopeDigest':'s','policyDigest':'p'}"].
Lemma approval_history_witness :
  ∃ approval, app_Status approval = ApprovalChangesRequested ∧
  recorded AggregateApproval approval_lifecycle ex_approval_events (approval_header approval)
    (λ first _,
      (∃ created, ReduceApproval None first = Reduced created ∧
        approval_subject approval = approval_subject created ∧ one_subject created) ∧
      decision_explains approval).
Proof.
  eexists. split; [|apply approval_history; vm_compute; reflexivity]. reflexivity.
Defined.
Lemma approval_once_witness :
  ∃ current, replay ReduceApproval (take 2 ex_approval_events) = Ok (Some current) ∧
  ∃ next,
    ReduceApproval (Some current)
      (ex_approval_event "approval.decided" 3 "{'action':'approve','scopeDigest':'s','policyDigest':'p'}") =
      Reduced next ∧
    app_Status current = ApprovalPending.
Proof.
  eexists. split; [vm_compute; reflexivity|]. eexists.
  refine ((λ H, conj H (proj1 (proj1 (approval_once _) _ _ H))) _). vm_compute. reflexivity.
Defined.
