(* ===== verification/WorkLifecycle.v ===== *)
(** Projects, work items, stories and points over their event streams: the lifecycles of
    [work.go] as step relations, and what every replay of each reducer keeps. *)
From S2P Require Import Prelude GoStrings GoJson GoDecode Schema StateStore Reducer Lifecycle RunLifecycle WorkReducer.
From stdpp Require Import options.

(** * Identifier lists *)
Lemma require_distinct_Ok valid message values :
  require_distinct valid message values = Ok tt ↔
  NoDup values ∧ Forall (λ value, valid value = true) values.
Proof.
  unfold require_distinct.
  assert (∀ l seen, is_ok (foldM (distinct_step valid message) seen l) = true ↔
    NoDup l ∧ Forall (λ value, valid value = true ∧ value ∉ seen) l) as Hgen.
  { induction l as [|x l IH]; intros seen; simpl.
    { split; [by repeat constructor|done]. }
    unfold distinct_step at 1.
    rewrite NoDup_cons, Forall_cons. destruct (negb (valid x) || _) eqn:Hb; simpl.
    - split; [done|]. intros (_ & [Hv Hx] & _). rewrite Hv in Hb. simpl in Hb. bool_to_prop. done.
    - bool_to_prop. rewrite IH. rewrite !Forall_forall. set_solver. }
  specialize (Hgen values ∅). split.
  - intros (seen & Hs & _)%result_bind_Ok. rewrite Hs in Hgen.
    destruct (proj1 Hgen eq_refl) as [? Hall]. split; [done|]. eapply Forall_impl; [done|]. naive_solver.
  - intros [Hnd Hall]. destruct (foldM _ _ _); [done|].
    assert (false = true) as [=]. apply Hgen. split; [done|].
    eapply Forall_impl; [done|]. set_solver.
Qed.

(** * Projects *)
Inductive project_step : ProjectStatus → string → ProjectStatus → Prop :=
| project_step_archived : project_step ProjectActive "project.archived" ProjectArchived.
Definition project_lifecycle : Lifecycle :=
  {| lc_initial := ProjectActive; lc_created := "project.created"; lc_step := project_step |}.
Definition project_header (project : ProjectProjection) : Header := {|
  hd_ID := prj_ProjectID project; hd_Status := prj_Status project;
  hd_ResourceVersion := prj_ResourceVersion project;
  hd_LastGlobalPosition := prj_LastGlobalPosition project;
  hd_CreatedAt := prj_CreatedAt project; hd_UpdatedAt := prj_UpdatedAt project |}.

Lemma project_cases_Ok current event s :
  switch (ev_Kind event) (project_cases current event) (project_invalid current event) = Ok s →
  project_step (prj_Status current) (ev_Kind event) s.
Proof.
  unfold project_cases. by_kind event; [|done]. case_decide as Hs; [done|]. intros [= <-].
  rewrite Hs. constructor.
Qed.

#[export] Instance project_lawful :
  LawfulReducer ReduceProject project_header AggregateProject project_lifecycle.
Proof.
  apply (lawful_intro AggregateProject project_created project_applied).
  - intros event next Hok. unfold project_created in Hok. by inv_created Hok.
  - by intros current event next (? & ? & s & Hs%project_cases_Ok & ->)%applied_inv.
Qed.

(** * Stories *)
Inductive story_step : StoryStatus → string → StoryStatus → Prop :=
| story_step_ready : story_step StoryPlanned "story.ready" StoryReady
| story_step_started : story_step StoryReady "story.started" StoryRunning
| story_step_completed : story_step StoryRunning "story.completed" StoryCompleted
| story_step_cancelled s : StoryTerminal s = false → story_step s "story.cancelled" StoryCancelled
| story_step_retired s :
    s ≠ StoryRunning → StoryTerminal s = false → story_step s "story.retired" StoryRetired.
Definition story_lifecycle : Lifecycle :=
  {| lc_initial := StoryPlanned; lc_created := "story.created"; lc_step := story_step |}.
Definition story_header (story : StoryProjection) : Header := {|
  hd_ID := sty_StoryID story; hd_Status := sty_Status story;
  hd_ResourceVersion := sty_ResourceVersion story;
  hd_LastGlobalPosition := sty_LastGlobalPosition story;
  hd_CreatedAt := sty_CreatedAt story; hd_UpdatedAt := sty_UpdatedAt story |}.

Lemma story_handled current event :
  handled story_step (sty_Status current) (ev_Kind event) (=)
    (switch (ev_Kind event) (story_cases current event) (story_invalid current event)).
Proof.
  unfold story_cases, story_move, story_invalid. by_kind event.
  all: repeat handle_one; bool_to_prop.
  all: try (eapply handled_Ok; [|reflexivity]; split_status; by constructor).
  all: apply handled_invalid; intros ? Hmove; inversion Hmove; subst; try congruence;
    match goal with
    | Hn : ?s ∉ _, Hs : _ = ?s |- _ => rewrite <-Hs in Hn; set_solver
    | Ho : _ || _ = true |- _ => apply orb_true_iff in Ho as [Ho|Ho]; bool_to_prop; congruence
    end.
Qed.
Lemma story_cases_Ok current event s :
  switch (ev_Kind event) (story_cases current event) (story_invalid current event) = Ok s →
  story_step (sty_Status current) (ev_Kind event) s.
Proof. intros Hok. pose proof (story_handled current event) as Hh. rewrite Hok in Hh. naive_solver. Qed.

#[export] Instance story_lawful :
  LawfulReducer ReduceStory story_header AggregateStory story_lifecycle.
Proof.
  apply (lawful_intro AggregateStory story_created story_applied).
  - intros event next Hok. unfold story_created in Hok. by inv_created Hok.
  - by intros current event next (? & ? & s & Hs%story_cases_Ok & ->)%applied_inv.
Qed.

(** A terminal story accepts nothing. *)
Lemma story_step_terminal s k s' : story_step s k s' → StoryTerminal s = false.
Proof. by inversion 1. Qed.

(** * Work items *)
Inductive work_step : WorkItemStatus → string → WorkItemStatus → Prop :=
| work_step_deletion_requested s : work_step s "work.deletion_requested" s
| work_step_deleted s : work_step s "work.deleted" s
| work_step_started : work_step WorkItemOpen "work.started" WorkItemActive
| work_step_completed s :
    s ∈ [WorkItemOpen; WorkItemActive] → work_step s "work.completed" WorkItemCompleted
| work_step_cancelled s : WorkItemTerminal s = false → work_step s "work.cancelled" WorkItemCancelled.
Definition work_lifecycle : Lifecycle :=
  {| lc_initial := WorkItemOpen; lc_created := "work.created"; lc_step := work_step |}.
Definition work_header (work : WorkItemProjection) : Header := {|
  hd_ID := wit_WorkItemID work; hd_Status := wit_Status work;
  hd_ResourceVersion := wit_ResourceVersion work;
  hd_LastGlobalPosition := wit_LastGlobalPosition work;
  hd_CreatedAt := wit_CreatedAt work; hd_UpdatedAt := wit_UpdatedAt work |}.

(** How one event moves the deletion of a work item. *)
Definition deletion_step (before : WorkDeletionState) (kind : string) (after : WorkDeletionState)
  : Prop :=
  (kind = "work.deletion_requested" → before = WorkRetained ∧ after = WorkDeleting) ∧
  (kind = "work.deleted" → before = WorkDeleting ∧ after = WorkDeleted) ∧
  (kind ≠ "work.deletion_requested" → kind ≠ "work.deleted" → after = before) ∧
  (kind = "work.started" → before = WorkRetained).

Lemma work_cases_Ok current event s d :
  switch (ev_Kind event) (work_cases current event) (work_invalid current event) = Ok (s, d) →
  work_step (wit_Status current) (ev_Kind event) s ∧
  deletion_step (wit_Deletion current) (ev_Kind event) d.
Proof.
  unfold work_cases, deletion_step. by_kind event.
  - case_decide as Hd; [done|]. intros [= <- <-]. split; [constructor|done].
  - case_decide as Hd; [done|]. intros [= <- <-]. split; [constructor|done].
  - case_decide as Hd; [done|]. case_decide as Hs; [done|]. intros [= <- <-].
    rewrite Hs. split; [constructor|done].
  - case_decide as Hs; [done|]. intros [= <- <-]. split; [|done]. constructor.
    destruct (decide (wit_Status current = WorkItemOpen)) as [->|?]; [set_solver|].
    destruct (decide (wit_Status current = WorkItemActive)) as [->|?]; [set_solver|]. by destruct Hs.
  - destruct (WorkItemTerminal _) eqn:Ht; [done|]. intros [= <- <-]. split; [by constructor|done].
  - done.
Qed.

Lemma work_applied_inv current event next :
  work_applied current event = Ok next →
  ev_AggregateID event = wit_WorkItemID current ∧
  ev_AggregateRevision event = uint64 (wit_ResourceVersion current + 1) ∧
  work_step (wit_Status current) (ev_Kind event) (wit_Status next) ∧
  deletion_step (wit_Deletion current) (ev_Kind event) (wit_Deletion next) ∧
  next = {|
    wit_WorkItemID := wit_WorkItemID current; wit_ProjectID := wit_ProjectID current;
    wit_Title := wit_Title current; wit_Deletion := wit_Deletion next;
    wit_Details := wit_Details current; wit_Evidence := wit_Evidence current;
    wit_RoutingIntent := wit_RoutingIntent current; wit_SourceHash := wit_SourceHash current;
    wit_Priority := wit_Priority current; wit_Status := wit_Status next;
    wit_ResourceVersion := ev_AggregateRevision event;
    wit_LastGlobalPosition := ev_GlobalPosition event;
    wit_CreatedAt := wit_CreatedAt current; wit_UpdatedAt := ev_RecordedAt event |}.
Proof.
  unfold work_applied. intros ([] & [??]%check_current_Ok & ([s d] & Hs & Hok)%result_bind_Ok)%result_bind_Ok.
  cbn in Hok. injection Hok as <-. apply work_cases_Ok in Hs as [??]. done.
Qed.

(** * Well-formed work items *)
Definition trimmed_ids (values : list string) : Prop :=
  NoDup values ∧ Forall (λ value, value ≠ "" ∧ value = TrimSpace value) values.

(** The routing a work item asks for: nothing but automatic, or an override of a workflow. *)
Definition intent_ok (intent : WorkRoutingIntent) : Prop :=
  trimmed_ids (wri_TerminalNodeIDs intent) ∧
  wri_WorkflowID intent = TrimSpace (wri_WorkflowID intent) ∧
  wri_WorkflowVersion intent = TrimSpace (wri_WorkflowVersion intent) ∧
  wri_EntryNodeID intent = TrimSpace (wri_EntryNodeID intent) ∧
  ((wri_Mode intent = WorkRoutingAutomatic ∧ wri_WorkflowID intent = "" ∧
    wri_WorkflowVersion intent = "" ∧ wri_EntryNodeID intent = "" ∧
    wri_TerminalNodeIDs intent = []) ∨
   (wri_Mode intent = WorkRoutingOverride ∧ wri_WorkflowID intent ≠ "")).
Definition work_ok (work : WorkItemProjection) : Prop :=
  wit_ProjectID work ≠ "" ∧ wit_Title work ≠ "" ∧ validSourceHash (wit_SourceHash work) = true ∧
  (0 ≤ wit_Priority work)%Z ∧ intent_ok (wit_RoutingIntent work) ∧ trimmed_ids (wit_Evidence work).

Lemma require_distinct_ids message values :
  require_distinct (λ value, bool_decide (value ≠ "") && trimmed value) message values = Ok tt ↔
  trimmed_ids values.
Proof.
  rewrite require_distinct_Ok. unfold trimmed_ids, trimmed.
  by setoid_rewrite andb_true_iff; setoid_rewrite bool_decide_eq_true.
Qed.

Lemma has_override_false intent :
  has_override intent = false ↔
  wri_WorkflowID intent = "" ∧ wri_WorkflowVersion intent = "" ∧ wri_EntryNodeID intent = "" ∧
  wri_TerminalNodeIDs intent = [].
Proof.
  unfold has_override. rewrite bool_decide_eq_false. split.
  - intros Hn. repeat apply Decidable.not_or in Hn as [?%dec_stable Hn]. apply dec_stable in Hn.
    by apply length_zero_iff_nil in Hn.
  - intros (-> & -> & -> & ->). naive_solver.
Qed.

Lemma validateWorkRoutingIntent_Ok intent :
  validateWorkRoutingIntent intent = Ok tt ↔ intent_ok intent.
Proof.
  unfold validateWorkRoutingIntent, intent_ok, trimmed.
  split.
  - destruct (_ || _) eqn:Htrim; [done|]. bool_to_prop.
    intros ([] & ?%require_distinct_ids & Hok)%result_bind_Ok. split_and!; [done..|].
    repeat case_decide; try done.
    + destruct (has_override intent) eqn:Ho; [done|]. left. by apply has_override_false in Ho.
    + by right.
  - intros (Hids & H1 & H2 & H3 & Hmode).
    rewrite !bool_decide_true by done. cbn [negb orb].
    rewrite (proj2 (require_distinct_ids _ _) Hids). cbn [result_bind].
    destruct Hmode as [[Hm Ho]|[Hm Ho]]; rewrite Hm.
    + rewrite decide_True by done. by rewrite (proj2 (has_override_false _) Ho).
    + rewrite decide_False, decide_True by done. by rewrite decide_False.
Qed.

Lemma work_created_inv event next :
  work_created event = Ok next →
  ev_Kind event = "work.created" ∧ work_header next = created_header event WorkItemOpen ∧
  wit_Deletion next = WorkRetained ∧ work_ok next.
Proof.
  unfold work_created. intros ([] & ?%require_created_Ok & (data & _ & Hok)%result_bind_Ok)%result_bind_Ok.
  cbn beta in Hok. destruct (_ || _) eqn:Hb in Hok; [done|]. bool_to_prop.
  apply result_bind_Ok in Hok as (intent & _ & Hok).
  apply result_bind_Ok in Hok as ([] & Hintent%validateWorkRoutingIntent_Ok & Hok).
  apply result_bind_Ok in Hok as ([] & Hids%require_distinct_ids & [= <-]).
  do 3 (split; [done|]). unfold work_ok; cbn. split_and!; try done. lia.
Qed.

#[export] Instance work_lawful : LawfulReducer ReduceWorkItem work_header AggregateWork work_lifecycle.
Proof.
  apply (lawful_intro AggregateWork work_created work_applied).
  - by intros event next (? & ? & _)%work_created_inv.
  - intros current event next (? & ? & ? & _ & Hnext)%work_applied_inv.
    split_and!; [done..|]. by rewrite Hnext.
Qed.

(** The fields of a work item no event changes. *)
Definition work_subject (work : WorkItemProjection)
  : string * string * string * list string * WorkRoutingIntent * string * Z :=
  (wit_ProjectID work, wit_Title work, wit_Details work, wit_Evidence work,
   wit_RoutingIntent work, wit_SourceHash work, wit_Priority work).

(** The deletion state a list of event kinds leads to. *)
Definition deletion_after (kinds : list string) : WorkDeletionState :=
  if decide ("work.deleted" ∈ kinds) then WorkDeleted
  else if decide ("work.deletion_requested" ∈ kinds) then WorkDeleting else WorkRetained.

Lemma deletion_after_step kinds kind after :
  deletion_step (deletion_after kinds) kind after → after = deletion_after (kinds ++ [kind]).
Proof.
  intros (Hreq & Hdel & Hother & _). unfold deletion_after in *.
  assert (∀ k, k ∈ kinds ++ [kind] ↔ k ∈ kinds ∨ k = kind) as Hin.
  { intros k. by rewrite elem_of_app, list_elem_of_singleton. }
  destruct (decide (kind = "work.deletion_requested")) as [->|Hr].
  { destruct (Hreq eq_refl) as [Hb ->]. repeat case_decide; try done; naive_solver. }
  destruct (decide (kind = "work.deleted")) as [->|Hd].
  { destruct (Hdel eq_refl) as [Hb ->]. rewrite decide_True; [done|]. naive_solver. }
  rewrite (Hother Hr Hd). repeat case_decide; try done; naive_solver.
Qed.

(** Deletion is requested once, before it is done, and nothing starts after the request. *)
Definition deletion_ordered (kinds : list string) : Prop :=
  (∀ i j k, kinds !! i = Some "work.deletion_requested" → kinds !! j = Some k →
    k ∈ ["work.started"; "work.deletion_requested"] → j ≤ i) ∧
  (∀ j, kinds !! j = Some "work.deleted" →
    ∃ i, i < j ∧ kinds !! i = Some "work.deletion_requested").

Lemma deletion_after_retained kinds :
  deletion_after kinds = WorkRetained → "work.deletion_requested" ∉ kinds.
Proof. unfold deletion_after. by repeat case_decide. Qed.
Lemma deletion_after_deleting kinds :
  deletion_after kinds = WorkDeleting → "work.deletion_requested" ∈ kinds.
Proof. unfold deletion_after. by repeat case_decide. Qed.

Lemma deletion_ordered_step kinds kind after :
  deletion_ordered kinds → deletion_step (deletion_after kinds) kind after →
  deletion_ordered (kinds ++ [kind]).
Proof.
  intros [Hreq Hdel] (Hr & Hd & _ & Hs). split.
  - intros i j k Hi Hj Hk.
    apply lookup_snoc_Some in Hi as [[? Hi]|[-> _]], Hj as [[? Hj]|[-> ->]]; [by eapply Hreq| |lia..].
    exfalso. assert ("work.deletion_requested" ∈ kinds) by (by apply list_elem_of_lookup_2 in Hi).
    assert (deletion_after kinds = WorkRetained) as ?%deletion_after_retained; [|done].
    split_status; subst; [by apply Hs|by apply Hr].
  - intros j Hj. apply lookup_snoc_Some in Hj as [[? Hj]|[-> ->]].
    + destruct (Hdel j Hj) as (i & ? & ?). exists i. split; [done|]. by apply lookup_app_l_Some.
    + destruct (Hd eq_refl) as [Hin%deletion_after_deleting _].
      apply list_elem_of_lookup_1 in Hin as [i Hi]. exists i.
      split; [by eapply lookup_lt_Some|by apply lookup_app_l_Some].
Qed.

(** Whatever work item a log replays to has the header of its stream, is well formed
    (titled, in a project, with a SHA-256 source, a non-negative priority, distinct trimmed
    evidence and a routing intent that is either plainly automatic or an override naming a
    workflow) and as it was created, and its deletion follows its stream: requested at most
    once, done only after the request, and no work starts once deletion was requested. *)
Theorem work_item_history events work :
  replay ReduceWorkItem events = Ok (Some work) →
  recorded AggregateWork work_lifecycle events (work_header work) (λ first rest,
    (∃ created, ReduceWorkItem None first = Reduced created ∧
      work_subject work = work_subject created) ∧
    work_ok work ∧ wit_Deletion work = deletion_after (ev_Kind <$> rest) ∧
    deletion_ordered (ev_Kind <$> rest)).
Proof.
  apply (replay_recorded (λ first rest work,
    (∃ created, ReduceWorkItem None first = Reduced created ∧
      work_subject work = work_subject created) ∧
    work_ok work ∧ wit_Deletion work = deletion_after (ev_Kind <$> rest) ∧
    deletion_ordered (ev_Kind <$> rest))).
  - intros event next Hred.
    pose proof Hred as (_ & _ & (_ & _ & Hd & Hok)%work_created_inv)%reduce_Reduced.
    split_and!; [by exists next|done..].
  - intros first rest current event next ((created & ? & Hsub) & Hok & Hd & Hord)
      (_ & _ & (_ & _ & _ & Hstep & Hnext)%work_applied_inv)%reduce_Reduced.
    assert (work_subject next = work_subject current ∧ work_ok next) as [Hsub' Hok'].
    { by rewrite Hnext. }
    rewrite fmap_app. rewrite Hd in Hstep. split_and!; [exists created; by rewrite Hsub'|done| |].
    + by apply deletion_after_step.
    + by eapply deletion_ordered_step.
Qed.

Definition ex_work_events : list Event := [
  ex_event AggregateWork "work_1" "work.created" 1
    ("{'projectId':'project_1','title':'t','sourceHash':'" ++
     "0123456789abcdef0123456789abcdef0123456789abcdef0123456789abcdef" ++
     "','evidence':['e1','e2'],'routingIntent':{'mode':'override','workflowId':'w','terminalNodeIds':['z']}}");
  ex_event AggregateWork "work_1" "work.started" 2 "{}";
  ex_event AggregateWork "work_1" "work.deletion_requested" 3 "{}";
  ex_event AggregateWork "work_1" "work.cancelled" 4 "{}"].
Lemma work_item_history_witness :
  ∃ work, wit_Deletion work = WorkDeleting ∧
  recorded AggregateWork work_lifecycle ex_work_events (work_header work) (λ first rest,
    (∃ created, ReduceWorkItem None first = Reduced created ∧
      work_subject work = work_subject created) ∧
    work_ok work ∧ wit_Deletion work = deletion_after (ev_Kind <$> rest) ∧
    deletion_ordered (ev_Kind <$> rest)).
Proof.
  eexists. split; [|apply work_item_history; vm_compute; reflexivity]. reflexivity.
Defined.

Lemma story_step_functional s k s1 s2 : story_step s k s1 → story_step s k s2 → s1 = s2.
Proof. intros H1 H2. inversion H1; subst; inversion H2; subst; congruence. Qed.

(** A story moves exactly along its lifecycle (a refusal is an invalid transition, and
    happens exactly when the kind allows no move), accepts nothing once completed, cancelled
    or retired, and whatever a log replays to has the header of its stream and the work item,
    title, priority and position it was created with. *)
Theorem story_history :
  (∀ current event, addressed AggregateStory (story_header current) event →
    follows story_lifecycle (sty_Status current) (ev_Kind event) story_header
      (ReduceStory (Some current) event) ∧
    (StoryTerminal (sty_Status current) = true →
      ∃ e, ReduceStory (Some current) event = Failed true e)) ∧
  (∀ events story, replay ReduceStory events = Ok (Some story) →
    recorded AggregateStory story_lifecycle events (story_header story) (λ first _,
      ∃ created, ReduceStory None first = Reduced created ∧
        sty_WorkItemID story = sty_WorkItemID created ∧ sty_Title story = sty_Title created ∧
        sty_Priority story = sty_Priority created ∧ sty_Position story = sty_Position created)).
Proof.
  split.
  - intros current event Haddr.
    assert (follows story_lifecycle (sty_Status current) (ev_Kind event) story_header
      (ReduceStory (Some current) event)) as Hf.
    { revert Haddr. apply (handled_follows _ story_lifecycle story_header (=));
        [apply story_step_functional|by intros mid s ->|apply story_handled]. }
    split; [done|]. intros Hterm. destruct (ReduceStory _ _) as [|next|belongs e]; cbn in Hf.
    + done.
    + specialize (Hf (sty_Status next)). apply proj2 in Hf.
      rewrite (story_step_terminal _ _ _ (Hf eq_refl)) in Hterm. done.
    + destruct Hf as [-> _]. by exists e.
  - intros events story. apply (replay_recorded (λ first _ story, ∃ created,
      ReduceStory None first = Reduced created ∧
      sty_WorkItemID story = sty_WorkItemID created ∧ sty_Title story = sty_Title created ∧
      sty_Priority story = sty_Priority created ∧ sty_Position story = sty_Position created)).
    + intros event next ?. by exists next.
    + intros first rest current event next (created & ? & ? & ? & ? & ?)
        (_ & _ & (_ & _ & s & _ & ->)%applied_inv)%reduce_Reduced.
      by exists created.
Qed.

Definition ex_story_events : list Event := [
  ex_event AggregateStory "story_1" "story.created" 1
    ("{'workItemId':'work_1','title':'t','sourceHash':'" ++
     "0123456789abcdef0123456789abcdef0123456789abcdef0123456789abcdef" ++ "','position':3}");
  ex_event AggregateStory "story_1" "story.ready" 2 "{}"].
Lemma story_history_witness :
  ∃ story, sty_Position story = 3%Z ∧
  recorded AggregateStory story_lifecycle ex_story_events (story_header story) (λ first _,
    ∃ created, ReduceStory None first = Reduced created ∧
      sty_WorkItemID story = sty_WorkItemID created ∧ sty_Title story = sty_Title created ∧
      sty_Priority story = sty_Priority created ∧ sty_Position story = sty_Position created).
Proof.
  eexists. split; [|apply (proj2 story_history); vm_compute; reflexivity]. reflexivity.
Defined.

(** * Points *)
Inductive point_step : PointStatus → string → PointStatus → Prop :=
| point_step_ready : point_step PointPlanned "point.ready" PointReady
| point_step_started : point_step PointReady "point.started" PointRunning
| point_step_candidate_produced : point_step PointRunning "point.candidate_produced" PointValidating
| point_step_validation_failed : point_step PointValidating "point.validation_failed" PointFailed
| point_step_awaiting_approval :
    point_step PointValidating "point.awaiting_approval" PointAwaitingApproval
| point_step_changes_requested :
    point_step PointAwaitingApproval "point.changes_requested" PointRunning
| point_step_accepted s :
    s ∈ [PointValidating; PointAwaitingApproval] → point_step s "point.accepted" PointAccepted
| point_step_rejected : point_step PointAwaitingApproval "point.rejected" PointRejected
| point_step_committed : point_step PointAccepted "point.committed" PointCommitted
| point_step_published : point_step PointCommitted "point.published" PointPublished
| point_step_superseded s :
    s ∈ [PointCommitted; PointPublished] → point_step s "point.superseded" PointSuperseded
| point_step_revised s :
    s ∈ [PointFailed; PointRejected; PointSuperseded] → point_step s "point.revised" PointPlanned
| point_step_reconcile_required s :
    PointTerminal s = false → point_step s "point.reconcile_required" PointReconcileRequired.
Definition point_lifecycle : Lifecycle :=
  {| lc_initial := PointPlanned; lc_created := "point.created"; lc_step := point_step |}.
Definition point_header (point : PointProjection) : Header := {|
  hd_ID := pt_PointID point; hd_Status := pt_Status point;
  hd_ResourceVersion := pt_ResourceVersion point;
  hd_LastGlobalPosition := pt_LastGlobalPosition point;
  hd_CreatedAt := pt_CreatedAt point; hd_UpdatedAt := pt_UpdatedAt point |}.

(** The contract of a point revision, and when it is well formed for the point [id]. *)
Definition point_contract (point : PointProjection)
  : string * Z * string * string * Z * Z * list string :=
  (pt_StoryID point, pt_Revision point, pt_Title point, pt_SourceHash point, pt_Priority point,
   pt_Position point, pt_Dependencies point).
Definition contract_ok (id : string) (point : PointProjection) : Prop :=
  pt_StoryID point ≠ "" ∧ pt_Title point ≠ "" ∧ validSourceHash (pt_SourceHash point) = true ∧
  (0 ≤ pt_Priority point)%Z ∧ (0 ≤ pt_Position point)%Z ∧
  StronglySorted String.le (pt_Dependencies point) ∧ NoDup (pt_Dependencies point) ∧
  id ∉ pt_Dependencies point ∧ "" ∉ pt_Dependencies point.

Lemma decodePointContract_Ok event id revision contract :
  decodePointContract event id revision = Ok contract →
  contract_ok id contract ∧ pt_Revision contract = revision.
Proof.
  intros (data & _ & Hok)%result_bind_Ok. cbn beta zeta in Hok.
  destruct (_ || _) eqn:Hb in Hok; [done|]. bool_to_prop.
  apply result_bind_Ok in Hok as ([] & [Hnd Hall]%require_distinct_Ok & [= <-]).
  unfold contract_ok; cbn. split; [|by apply dec_stable]. split_and!; try done; try lia.
  - apply sort_strings_sorted.
  - intros Hin. eapply Forall_forall in Hall; [|done]. cbn in Hall. bool_to_prop. naive_solver.
  - intros Hin. eapply Forall_forall in Hall; [|done]. cbn in Hall. bool_to_prop. naive_solver.
Qed.

(** What a point's handler decides: the status, and the contract, which only a revision
    replaces, by the next one. *)
Definition point_good (current : PointProjection) (event : Event)
    (r : PointProjection * PointStatus) (s : PointStatus) : Prop :=
  r.2 = s ∧
  ((ev_Kind event ≠ "point.revised" ∧ r.1 = current) ∨
   (ev_Kind event = "point.revised" ∧ contract_ok (ev_AggregateID event) r.1 ∧
    pt_Revision r.1 = uint64 (pt_Revision current + 1))).

Lemma handled_contract {M} (step : string → string → string → Prop) status kind event id revision
    (good : M → string → Prop) (k : PointProjection → reduce_result M) :
  (∃ s, step status kind s) →
  (∀ contract, contract_ok id contract → pt_Revision contract = revision →
    handled step status kind good (k contract)) →
  handled step status kind good
    (let? contract := decodePointContract event id revision in k contract).
Proof.
  intros Hs Hk. destruct (decodePointContract event id revision) as [contract|e] eqn:Hd.
  - apply decodePointContract_Ok in Hd as [??]. by apply Hk.
  - cbn. destruct (is_invalid e) eqn:He; [|done]. exfalso. clear Hs Hk.
    unfold decodePointContract, require_distinct, decodeData in Hd.
    destruct (Unmarshal_struct _ _); cbn in Hd; [|by injection Hd as <-].
    destruct (_ || _) in Hd; [by injection Hd as <-|].
    apply result_bind_Err in Hd as [Hd|(? & _ & [=])].
    apply result_bind_Err in Hd as [Hd|(? & _ & [=])].
    revert Hd. generalize (∅ : gset string). induction (sort_strings _) as [|x l IH]; [done|].
    cbn [foldM]. intros seen [Hd|(? & _ & Hd)]%result_bind_Err; [|by eapply IH].
    unfold distinct_step in Hd. destruct (_ || _) in Hd; [by injection Hd as <-|done].
Qed.

Section point_handlers.
Variables (current : PointProjection) (event : Event).

Lemma point_handled :
  handled point_step (pt_Status current) (ev_Kind event) (point_good current event)
    (switch (ev_Kind event) (point_cases current event) (point_invalid current event)).
Proof.
  unfold point_cases, point_move, point_revised, point_invalid. by_kind event.
  all: repeat handle_one; bool_to_prop.
  all: try (eapply handled_Ok; [|split; [reflexivity|left; split; [congruence|reflexivity]]];
            split_status; constructor; eauto; set_solver).
  all: try (apply handled_contract; [has_move|]; intros contract ? ?;
            eapply handled_Ok; [|split; [reflexivity|by right]]; by constructor).
  all: apply handled_invalid; intros ? Hmove; inversion Hmove; subst; try congruence;
    match goal with Hn : ?s ∉ _, Hs : _ = ?s |- _ => rewrite <-Hs in Hn; set_solver end.
Qed.
End point_handlers.

Lemma point_applied_inv current event next :
  point_applied current event = Ok next →
  ev_AggregateID event = pt_PointID current ∧
  ev_AggregateRevision event = uint64 (pt_ResourceVersion current + 1) ∧
  ∃ contract s, point_step (pt_Status current) (ev_Kind event) s ∧
    point_good current event (contract, s) s ∧
    next = point_with contract (pt_PointID current) s (pt_CreatedAt current) event.
Proof.
  intros ([] & [??]%check_current_Ok & ([c s] & Hs & Hok)%result_bind_Ok)%result_bind_Ok.
  cbn in Hok. injection Hok as <-. split_and!; [done..|].
  pose proof (point_handled current event) as Hh. rewrite Hs in Hh.
  destruct Hh as (s' & Hstep & Hgood). pose proof Hgood as [Heq _]. cbn in Heq. subst s'.
  by exists c, s.
Qed.

Lemma point_created_inv event next :
  point_created event = Ok next →
  ev_Kind event = "point.created" ∧ point_header next = created_header event PointPlanned ∧
  contract_ok (ev_AggregateID event) next ∧ pt_Revision next = 1%Z.
Proof.
  intros ([] & ?%require_created_Ok & (c & [Hc Hr]%decodePointContract_Ok & [= <-])%result_bind_Ok)%result_bind_Ok.
  done.
Qed.

#[export] Instance point_lawful : LawfulReducer ReducePoint point_header AggregatePoint point_lifecycle.
Proof.
  apply (lawful_intro AggregatePoint point_created point_applied).
  - by intros event next (? & ? & _)%point_created_inv.
  - by intros current event next (? & ? & c & s & ? & _ & ->)%point_applied_inv.
Qed.

Lemma ReducePoint_applied current event next :
  ReducePoint (Some current) event = Reduced next →
  ev_AggregateID event = pt_PointID current ∧
  ∃ contract s, point_good current event (contract, s) s ∧
    next = point_with contract (pt_PointID current) s (pt_CreatedAt current) event.
Proof.
  intros (_ & _ & (? & _ & c & s & _ & ? & ?)%point_applied_inv)%reduce_Reduced.
  split; [done|]. by exists c, s.
Qed.

Lemma point_step_functional s k s1 s2 : point_step s k s1 → point_step s k s2 → s1 = s2.
Proof. intros H1 H2. inversion H1; subst; inversion H2; subst; congruence. Qed.

(** A point moves exactly along its lifecycle (it is refused as an invalid transition
    exactly when the event's kind allows no move), and its contract is frozen: only
    [point.revised], from a failed, rejected or superseded revision, replaces it, by the
    next revision. *)
Theorem point_transitions current event :
  addressed AggregatePoint (point_header current) event →
  follows point_lifecycle (pt_Status current) (ev_Kind event) point_header
    (ReducePoint (Some current) event) ∧
  ∀ next, ReducePoint (Some current) event = Reduced next →
    if decide (ev_Kind event = "point.revised")
    then pt_Revision next = uint64 (pt_Revision current + 1) ∧ pt_Status next = PointPlanned ∧
      pt_Status current ∈ [PointFailed; PointRejected; PointSuperseded]
    else point_contract next = point_contract current.
Proof.
  intros Haddr. split.
  - revert Haddr. apply (handled_follows AggregatePoint point_lifecycle point_header
      (point_good current event) "point" "point" current event
      (switch (ev_Kind event) (point_cases current event) (point_invalid current event))
      (λ next, point_with next.1 (pt_PointID current) next.2 (pt_CreatedAt current) event)).
    + apply point_step_functional.
    + by intros [c s'] s [<- _].
    + apply point_handled.
  - intros next (_ & _ & (_ & _ & c & s & Hstep & Hgood & ->)%point_applied_inv)%reduce_Reduced.
    destruct Hgood as [_ [[Hk Hc]|(Hk & _ & Hr)]]; cbn in *.
    + rewrite decide_False by done. by subst c.
    + rewrite decide_True by done. rewrite Hk in Hstep. by inversion Hstep.
Qed.

(** The number of revisions after the first. *)
Definition revisions (events : list Event) : nat :=
  length (filter (λ e, ev_Kind e = "point.revised") events).

Lemma revisions_snoc events event :
  revisions (events ++ [event]) =
  revisions events + (if decide (ev_Kind event = "point.revised") then 1 else 0).
Proof.
  unfold revisions. rewrite filter_app, length_app, filter_cons, filter_nil. by case_decide.
Qed.

(** Whatever point a log replays to has the header of its stream, the contract of its
    latest revision — one more than the revisions made, at the width of the counter — with a
    story, a title, a SHA-256 source and non-negative priority and position, and sorted
    distinct dependencies that are neither empty nor the point itself. *)
Theorem point_history events point :
  replay ReducePoint events = Ok (Some point) →
  recorded AggregatePoint point_lifecycle events (point_header point) (λ first rest,
    contract_ok (pt_PointID point) point ∧
    pt_Revision point = uint64 (1 + Z.of_nat (revisions rest))).
Proof.
  apply (replay_recorded (λ first rest point,
    contract_ok (pt_PointID point) point ∧
    pt_Revision point = uint64 (1 + Z.of_nat (revisions rest)))).
  - intros event next (_ & _ & (_ & Hh & Hc & Hr)%point_created_inv)%reduce_Reduced.
    apply (f_equal hd_ID) in Hh. cbn in Hh. rewrite Hh. by rewrite Hr.
  - intros first rest current event next [Hc Hr] (Hid & c & s & [_ Hgood] & ->)%ReducePoint_applied.
    rewrite revisions_snoc. destruct Hgood as [[Hk Heq]|(Hk & Hok & Hrev)]; cbn in *.
    + rewrite decide_False by done. subst c. by rewrite Nat.add_0_r.
    + rewrite decide_True by done. rewrite Hid in Hok. split; [done|].
      rewrite Hrev, Hr, uint64_succ. f_equal. lia.
Qed.

Definition ex_point_event := ex_event AggregatePoint "point_1".
Definition ex_contract (revision dependencies : string) : string :=
  "{'storyId':'story_1','revision':" ++ revision ++ ",'title':'t','sourceHash':'" ++
  "0123456789abcdef0123456789abcdef0123456789abcdef0123456789abcdef" ++
  "','dependencies':" ++ dependencies ++ "}".
Definition ex_point_events : list Event := [
  ex_point_event "point.created" 1 (ex_contract "1" "['p3','p2']");
  ex_point_event "point.ready" 2 "{}";
  ex_point_event "point.started" 3 "{}";
  ex_point_event "point.candidate_produced" 4 "{}";
  ex_point_event "point.validation_failed" 5 "{}"].
Lemma point_transitions_witness :
  ∃ current, replay ReducePoint ex_point_events = Ok (Some current) ∧
    addressed AggregatePoint (point_header current)
      (ex_point_event "point.revised" 6 (ex_contract "2" "[]")) ∧
    follows point_lifecycle (pt_Status current) "point.revised" point_header
      (ReducePoint (Some current) (ex_point_event "point.revised" 6 (ex_contract "2" "[]"))).
Proof.
  eexists. split; [vm_compute; reflexivity|].
  refine ((λ H, conj H (proj1 (point_transitions _ _ H))) _). repeat split; vm_compute; reflexivity.
Defined.
Lemma point_history_witness :
  ∃ point, pt_Dependencies point = ["p2"; "p3"] ∧
  recorded AggregatePoint point_lifecycle ex_point_events (point_header point) (λ first rest,
    contract_ok (pt_PointID point) point ∧
    pt_Revision point = uint64 (1 + Z.of_nat (revisions rest))).
Proof.
  eexists. split; [|apply point_history; vm_compute; reflexivity]. reflexivity.
Defined.

(** * Every reducer *)
Definition applied_once {P} (reduce : option P → Event → reduction P) : Prop :=
  ∀ current event next, reduce current event = Reduced next →
    ∀ again, reduce (Some next) event ≠ Reduced again.
(** A reducer looks only at version-1 events of its own aggregate type, and skips the others
    without looking at its projection. *)
Definition selective {P} (aggregate : AggregateType) (reduce : option P → Event → reduction P) : Prop :=
  ∀ current event,
    (ev_SchemaVersion event ≠ 1%Z ↔ ∃ e, reduce current event = Failed false e) ∧
    (reduce current event = Ignored ↔
      ev_SchemaVersion event = 1%Z ∧ ev_AggregateType event ≠ aggregate).

Lemma lawful_selective {P} (reduce : option P → Event → reduction P) header aggregate lc
    `{!LawfulReducer reduce header aggregate lc} :
  (∀ current event e, reduce current event = Failed false e → ev_SchemaVersion event ≠ 1%Z) →
  selective aggregate reduce.
Proof.
  intros Hfailed current event. split; split.
  - intros Hs. rewrite lawful_schema by done. eauto.
  - intros [e He]. by eapply Hfailed.
  - intros Hi. destruct (decide (ev_SchemaVersion event = 1%Z)) as [Hs|Hs].
    + split; [done|]. intros Ht. by eapply lawful_own.
    + by rewrite lawful_schema in Hi.
  - intros [??]. by apply lawful_foreign.
Qed.

Lemma reduce_failed {P} aggregate event (body : reduce_result P) e :
  reduce aggregate event body = Failed false e → ev_SchemaVersion event ≠ 1%Z.
Proof. unfold reduce. repeat case_decide; [done..|]. by destruct body. Qed.

(** Every reducer reads only the version-1 events of its own aggregate type: another
    version is refused as unsupported, another aggregate is skipped, and an event that has
    been applied is never applied to its own result again, even at the counter's limit. *)
Theorem reducers_selective :
  (selective AggregateRun ReduceRun ∧ applied_once ReduceRun) ∧
  (selective AggregateVisit ReduceNode ∧ applied_once ReduceNode) ∧
  (selective AggregateAttempt ReduceAttempt ∧ applied_once ReduceAttempt) ∧
  (selective AggregateApproval ReduceApproval ∧ applied_once ReduceApproval) ∧
  (selective AggregateProject ReduceProject ∧ applied_once ReduceProject) ∧
  (selective AggregateWork ReduceWorkItem ∧ applied_once ReduceWorkItem) ∧
  (selective AggregateStory ReduceStory ∧ applied_once ReduceStory) ∧
  (selective AggregatePoint ReducePoint ∧ applied_once ReducePoint).
Proof.
  split_and!.
  all: first
    [ intros current event next Hred; eapply reduced_once; exact Hred
    | eapply lawful_selective; [apply _|]; intros ???; apply reduce_failed ].
Qed.
