(* ===== verification/InteractionLifecycle.v ===== *)
(** Readiness assessments, input requests and provider permissions over their event streams:
    each is settled at most once, by somebody the event names, and delivered to the provider
    request it was asked for. *)
From S2P Require Import Prelude GoStrings GoUnicode GoJson GoDecode GoClosed Schema StateStore Interaction Reducer WorkReducer Lifecycle RunLifecycle InteractionReducer.
From stdpp Require Import options.

(** * Told once *)

(** What a projection shows of one kind of event: nothing while the stream has none, and
    otherwise what its only one says. *)
Definition told_once {A} (kind : string) (rest : list Event) (shown : option A)
    (says : Event → A → Prop) : Prop :=
  match shown with
  | None => filter (λ e, ev_Kind e = kind) rest = []
  | Some a => ∃ event, filter (λ e, ev_Kind e = kind) rest = [event] ∧ says event a
  end.

Section told_once.
Context {A : Type} (kind : string) (says : Event → A → Prop).
Implicit Types (rest : list Event) (event : Event).

Lemma told_once_other rest shown event :
  ev_Kind event ≠ kind → told_once kind rest shown says → told_once kind (rest ++ [event]) shown says.
Proof.
  intros Hne. unfold told_once. rewrite filter_app, filter_cons_False, filter_nil, app_nil_r by done. done.
Qed.
Lemma told_once_now rest event a :
  ev_Kind event = kind → told_once kind rest None says → says event a →
  told_once kind (rest ++ [event]) (Some a) says.
Proof.
  intros Hk Hnone Hsays. exists event. split; [|done].
  unfold told_once in Hnone. by rewrite filter_app, Hnone, filter_cons_True, filter_nil.
Qed.
End told_once.

(** A request is open, settled, or settled and delivered. *)
Definition stage {A B} (open settled delivered : string) (status : string) (answer : option A)
    (receipt : option B) : Prop :=
  (status = open ∧ answer = None ∧ receipt = None) ∨
  (status = settled ∧ is_Some answer ∧ receipt = None) ∨
  (status = delivered ∧ is_Some answer ∧ is_Some receipt).

(** The next event of a projection's stream. *)
Lemma check_next_Ok id revision event message :
  check_next id revision event message = Ok tt ↔
  ev_AggregateID event = id ∧ ev_AggregateRevision event = uint64 (revision + 1).
Proof.
  unfold check_next. case_decide as Hd; [|apply Decidable.not_or in Hd as [Hid Hrev]].
  - split; [done|]. intros [Hid Hrev]. by destruct Hd as [[]|[]].
  - split; [|done]. intros _. split; [by destruct (decide (id = ev_AggregateID event))|].
    by destruct (decide (ev_AggregateRevision event = uint64 (revision + 1))).
Qed.
Lemma next_applied_inv {P} id revision event message (body : reduce_result P) next :
  (let? _ := check_next id revision event message in body) = Ok next →
  ev_AggregateID event = id ∧ ev_AggregateRevision event = uint64 (revision + 1) ∧ body = Ok next.
Proof. by intros ([] & [??]%check_next_Ok & ?)%result_bind_Ok. Qed.

Lemma attributable_true event :
  attributable event = true ↔ actor_Type (ev_Actor event) ∈ [ActorUser; ActorExternal].
Proof. apply bool_decide_eq_true. Qed.
Lemma from_provider_true event :
  from_provider event = true ↔ actor_Type (ev_Actor event) ∈ [ActorProvider; ActorSystem].
Proof. apply bool_decide_eq_true. Qed.

(** Guards as propositions, with [==] for an unequal that does not hold. *)
Ltac bool_to_eq :=
  bool_to_prop; repeat match goal with Hne : ¬ (_ ≠ _) |- _ => apply dec_stable in Hne end.

(** * Readiness assessments *)
Inductive assessment_step : ReadinessAssessmentStatus → string → ReadinessAssessmentStatus → Prop :=
| assessment_step_decided :
    assessment_step ReadinessAssessmentPending "readiness.decision_recorded" ReadinessAssessmentDecided.
Definition assessment_lifecycle : Lifecycle :=
  {| lc_initial := ReadinessAssessmentPending; lc_created := "readiness.assessment_recorded";
     lc_step := assessment_step |}.
Definition assessment_header (a : ReadinessAssessmentProjection) : Header := {|
  hd_ID := ras_AssessmentID a; hd_Status := ras_Status a; hd_ResourceVersion := ras_ResourceVersion a;
  hd_LastGlobalPosition := ras_LastGlobalPosition a;
  hd_CreatedAt := ras_CreatedAt a; hd_UpdatedAt := ras_UpdatedAt a |}.
(** What was assessed. *)
Definition assessment_subject (a : ReadinessAssessmentProjection) : list string :=
  [ras_RunID a; ras_NodeID a; ras_Disposition a; ras_AssessmentDigest a; ras_PolicyDigest a;
   ras_Submission a; ras_RouteContext a].
Definition assessment_valid (a : ReadinessAssessmentProjection) : Prop :=
  ras_RunID a ≠ "" ∧ ras_NodeID a ≠ "" ∧ validReadinessDisposition (ras_Disposition a) = true ∧
  validSourceHash (ras_AssessmentDigest a) = true ∧ validSourceHash (ras_PolicyDigest a) = true ∧
  jsonObjectValue (ras_Submission a) = true ∧ jsonObjectValue (ras_RouteContext a) = true.
(** What a decision event says: a choice of an attributable actor about this assessment. *)
Definition decision_says (a : ReadinessAssessmentProjection) (event : Event)
    (decision : ReadinessDecisionProjection) : Prop :=
  (∃ data, decodeData event [
     string_field "decisionId"; string_field "assessmentDigest"; string_field "choice";
     string_field "remedyCode"; string_field "reason"; string_field "effectStatus"] = Ok data ∧
   get_string data "assessmentDigest" = ras_AssessmentDigest a ∧
   get_string data "decisionId" = rdp_DecisionID decision ∧
   get_string data "choice" = rdp_Choice decision ∧ get_string data "reason" = rdp_Reason decision ∧
   get_string data "remedyCode" = rdp_RemedyCode decision) ∧
  ev_CorrelationID event = ras_RunID a ∧ validReadinessChoice (rdp_Choice decision) = true ∧
  (rdp_RemedyCode decision ≠ "" ↔ rdp_Choice decision = "supply_input") ∧
  blank (rdp_Reason decision) = false ∧ rdp_EffectStatus decision = ReadinessEffectPending ∧
  rdp_Actor decision = ev_Actor event ∧ actor_Type (ev_Actor event) ∈ [ActorUser; ActorExternal] ∧
  rdp_DecidedAt decision = ev_RecordedAt event.

Lemma readiness_decision_inv current event decision :
  readiness_decision current event = Ok decision →
  ras_Status current = ReadinessAssessmentPending ∧ decision_says current event decision.
Proof.
  unfold readiness_decision. case_decide as Hs; [done|].
  intros (data & Hdata & Hok)%result_bind_Ok. cbv beta zeta in Hok.
  destruct (_ || _) eqn:Hc in Hok; [done|].
  destruct (negb (Bool.eqb _ _)) eqn:Hr in Hok; [done|]. injection Hok as <-.
  split; [by destruct (decide (ras_Status current = ReadinessAssessmentPending))|].
  apply negb_false_iff, eqb_prop in Hr. bool_to_eq. unfold decision_says. cbn.
  split; [by exists data|].
  split_and!; try done.
  - rewrite <-(bool_decide_eq_true (_ ≠ "")), <-Hr. apply bool_decide_eq_true.
  - by apply attributable_true.
Qed.
Lemma assessment_cases_Ok current event decision :
  switch (ev_Kind event) (assessment_cases current event) (assessment_invalid current event) = Ok decision →
  ev_Kind event = "readiness.decision_recorded" ∧ ras_Status current = ReadinessAssessmentPending ∧
  decision_says current event decision.
Proof. unfold assessment_cases. by_kind event; [|done]. intros []%readiness_decision_inv. done. Qed.

Lemma assessment_recorded_inv event next :
  assessment_recorded event = Ok next →
  ev_Kind event = "readiness.assessment_recorded" ∧
  assessment_header next = created_header event ReadinessAssessmentPending ∧
  assessment_valid next ∧ ras_Decision next = None.
Proof.
  intros Hok. unfold assessment_recorded in Hok. inv_created Hok. split_and!; [done..| |done].
  bool_to_prop. done.
Qed.

#[export] Instance assessment_lawful :
  LawfulReducer ReduceReadinessAssessment assessment_header AggregateAssessment assessment_lifecycle.
Proof.
  apply (lawful_intro AggregateAssessment assessment_recorded assessment_applied).
  - by intros event next (? & ? & _)%assessment_recorded_inv.
  - intros current event next (? & ? & d & (Hk & Hs & _)%assessment_cases_Ok & ->)%applied_inv.
    cbn. rewrite Hk, Hs. split_and!; [done..|constructor|done].
Qed.

Lemma assessment_reduced current event next :
  ReduceReadinessAssessment (Some current) event = Reduced next →
  ev_Kind event = "readiness.decision_recorded" ∧ ras_Status current = ReadinessAssessmentPending ∧
  ∃ d, decision_says current event d ∧ next = assessment_decided current event d.
Proof.
  intros (_ & _ & (_ & _ & d & (? & ? & ?)%assessment_cases_Ok & ->)%applied_inv)%reduce_Reduced. eauto.
Qed.

(** Whatever readiness assessment a log replays to is about the run, node, disposition,
    digests and snapshots it was recorded with, all well formed; and it is decided at most
    once: it shows no decision exactly while its stream has no [readiness.decision_recorded],
    and otherwise it shows the choice the only such event makes about this very assessment,
    with its reason, the user or external actor that made it, and a remedy exactly when the
    choice is to supply input. *)
Theorem assessment_decided_once events a :
  replay ReduceReadinessAssessment events = Ok (Some a) →
  recorded AggregateAssessment assessment_lifecycle events (assessment_header a) (λ first rest,
    (∃ created, ReduceReadinessAssessment None first = Reduced created ∧
      assessment_subject a = assessment_subject created) ∧
    assessment_valid a ∧
    (ras_Status a = ReadinessAssessmentDecided ↔ is_Some (ras_Decision a)) ∧
    told_once "readiness.decision_recorded" rest (ras_Decision a) (decision_says a)).
Proof.
  apply (replay_recorded (λ first rest a,
    (∃ created, ReduceReadinessAssessment None first = Reduced created ∧
      assessment_subject a = assessment_subject created) ∧
    assessment_valid a ∧
    (ras_Status a = ReadinessAssessmentDecided ↔ is_Some (ras_Decision a)) ∧
    told_once "readiness.decision_recorded" rest (ras_Decision a) (decision_says a))).
  - intros event next Hred. pose proof Hred as (_ & _ & (? & Hh & ? & Hd)%assessment_recorded_inv)%reduce_Reduced.
    split_and!; [by exists next|done| |by rewrite Hd].
    rewrite Hd. injection Hh as _ -> _ _ _ _. split; [done|by intros []].
  - intros first rest current event next ((created & ? & Hsub) & Hvalid & Hd & Honce) Hred.
    apply assessment_reduced in Hred as (Hk & Hs & d & Hsays & ->).
    split_and!; [by exists created|done|by split; eauto|].
    destruct (ras_Decision current) eqn:Hdec.
    { apply proj2 in Hd. rewrite Hs in Hd. discriminate Hd. done. }
    by apply told_once_now.
Qed.

Definition ex_digest_of (data : string) : string := data +:+ "'" +:+ ex_digest +:+ "'".
Definition ex_assessment := ex_event AggregateAssessment "assessment_1".
Definition ex_assessment_events : list Event := [
  ex_assessment "readiness.assessment_recorded" 1 (ex_digest_of (ex_digest_of
    "{'runId':'run_1','nodeId':'n','disposition':'choice_required','assessmentDigest':" +:+
    ",'policyDigest':") +:+ ",'submission':{},'routeContext':{}}");
  ex_assessment "readiness.decision_recorded" 2 (ex_digest_of
    "{'decisionId':'d','choice':'continue','reason':'known','effectStatus':'pending','assessmentDigest':" +:+ "}")].
Lemma assessment_decided_once_witness :
  ∃ a, ras_Status a = ReadinessAssessmentDecided ∧
  recorded AggregateAssessment assessment_lifecycle ex_assessment_events (assessment_header a) (λ first rest,
    (∃ created, ReduceReadinessAssessment None first = Reduced created ∧
      assessment_subject a = assessment_subject created) ∧
    assessment_valid a ∧
    (ras_Status a = ReadinessAssessmentDecided ↔ is_Some (ras_Decision a)) ∧
    told_once "readiness.decision_recorded" rest (ras_Decision a) (decision_says a)).
Proof.
  eexists. split; [|apply assessment_decided_once; vm_compute; reflexivity]. reflexivity.
Defined.

(** * Input requests *)
Inductive input_step : InputRequestStatus → string → InputRequestStatus → Prop :=
| input_step_recorded :
    input_step InputRequestPending "input.answer_recorded" InputRequestAnswerRecorded
| input_step_delivered :
    input_step InputRequestAnswerRecorded "input.answer_delivered" InputRequestAnswered.
Definition input_lifecycle : Lifecycle :=
  {| lc_initial := InputRequestPending; lc_created := "input.requested"; lc_step := input_step |}.
Definition input_header (p : InputRequestProjection) : Header := {|
  hd_ID := inp_InputRequestID p; hd_Status := inp_Status p; hd_ResourceVersion := inp_ResourceVersion p;
  hd_LastGlobalPosition := inp_LastGlobalPosition p;
  hd_CreatedAt := inp_CreatedAt p; hd_UpdatedAt := inp_UpdatedAt p |}.
(** Who asked what. *)
Definition input_subject (p : InputRequestProjection) : list string :=
  [inp_RunID p; inp_AttemptID p; inp_NodeID p; inp_ProviderThreadID p; inp_ProviderRequestID p;
   inp_ScopeDigest p; inp_Request p].
Definition input_valid `{!UnicodeLower} (p : InputRequestProjection) : Prop :=
  inp_RunID p ≠ "" ∧ inp_AttemptID p ≠ "" ∧ inp_NodeID p ≠ "" ∧ inp_ProviderThreadID p ≠ "" ∧
  blank (inp_ProviderRequestID p) = false ∧ validSourceHash (inp_ScopeDigest p) = true ∧
  ∃ request, decodeClosedJSON request_type (inp_Request p) = Some request ∧
    ValidUserInputRequest request = true.
(** What the event of an answer says: JSON an attributable actor answers in the scope of the
    request. *)
Definition answer_says (p : InputRequestProjection) (event : Event) (answer : InputAnswerProjection)
  : Prop :=
  (∃ data, decodeData event [string_field "scopeDigest"; raw_field "answer"] = Ok data ∧
    get_string data "scopeDigest" = inp_ScopeDigest p ∧ get_raw data "answer" = ian_Answer answer) ∧
  Valid (ian_Answer answer) = true ∧ ian_ActionKey answer = ev_CommandID event ∧
  ian_Actor answer = ev_Actor event ∧ actor_Type (ev_Actor event) ∈ [ActorUser; ActorExternal] ∧
  ian_RecordedAt answer = ev_RecordedAt event.
(** What the event of a delivery says: it reached the provider request that asked. *)
Definition receipt_says (p : InputRequestProjection) (event : Event) (receipt : InputReceiptProjection)
  : Prop :=
  irc_ProviderRequestID receipt = inp_ProviderRequestID p ∧
  actor_Type (ev_Actor event) ∈ [ActorProvider; ActorSystem] ∧
  irc_DeliveredAt receipt = ev_RecordedAt event.

Lemma input_requested_inv `{!UnicodeLower} event next :
  input_requested event = Ok next →
  ev_Kind event = "input.requested" ∧ input_header next = created_header event InputRequestPending ∧
  input_valid next ∧ inp_Answer next = None ∧ inp_Receipt next = None.
Proof.
  intros Hok. unfold input_requested in Hok. inv_created Hok. bool_to_prop.
  split_and!; [done..| | |]; [|done|done]. unfold input_valid. cbn -[decodeClosedJSON].
  destruct (decodeClosedJSON _ _) as [request|]; [|done]. split_and!; [done..|by exists request].
Qed.

(** The one move of a handler: what it adds, and where. *)
Definition input_moved (current : InputRequestProjection) (event : Event) (next : InputRequestProjection)
  : Prop :=
  (ev_Kind event = "input.answer_recorded" ∧ inp_Status current = InputRequestPending ∧
   ∃ answer, answer_says current event answer ∧
     next = input_with current event InputRequestAnswerRecorded (Some answer) (inp_Receipt current)) ∨
  (ev_Kind event = "input.answer_delivered" ∧ inp_Status current = InputRequestAnswerRecorded ∧
   ∃ receipt, receipt_says current event receipt ∧
     next = input_with current event InputRequestAnswered (inp_Answer current) (Some receipt)).

Lemma input_answer_recorded_inv current event next :
  input_answer_recorded current event = Ok next →
  inp_Status current = InputRequestPending ∧ ∃ answer, answer_says current event answer ∧
    next = input_with current event InputRequestAnswerRecorded (Some answer) (inp_Receipt current).
Proof.
  unfold input_answer_recorded. case_decide as Hs; [done|].
  intros (data & Hdata & Hok)%result_bind_Ok. cbv beta zeta in Hok.
  destruct (_ || _) eqn:Hc in Hok; [done|]. injection Hok as <-.
  split; [done|]. eexists. split; [|reflexivity]. bool_to_eq. unfold answer_says. cbn.
  split_and!; [by exists data|done..|by apply attributable_true|done].
Qed.
Lemma input_answer_delivered_inv current event next :
  input_answer_delivered current event = Ok next →
  inp_Status current = InputRequestAnswerRecorded ∧ ∃ receipt, receipt_says current event receipt ∧
    next = input_with current event InputRequestAnswered (inp_Answer current) (Some receipt).
Proof.
  unfold input_answer_delivered. destruct (inp_Answer current) as [a|] eqn:Ha; [|done]. case_decide as Hs; [done|].
  intros (data & Hdata & Hok)%result_bind_Ok. cbv beta zeta in Hok.
  destruct (_ || _) eqn:Hc in Hok; [done|]. injection Hok as <-.
  split; [done|]. eexists. split; [|reflexivity]. bool_to_eq. unfold receipt_says. cbn.
  split_and!; [done|by apply from_provider_true|done].
Qed.
Lemma input_applied_inv current event next :
  input_applied current event = Ok next →
  ev_AggregateID event = inp_InputRequestID current ∧
  ev_AggregateRevision event = uint64 (inp_ResourceVersion current + 1) ∧
  input_moved current event next.
Proof.
  intros (? & ? & Hok)%next_applied_inv. split_and!; [done..|]. revert Hok.
  unfold input_cases, input_moved. by_kind event.
  - intros []%input_answer_recorded_inv. by left.
  - intros []%input_answer_delivered_inv. by right.
  - done.
Qed.

#[export] Instance input_lawful `{!UnicodeLower} :
  LawfulReducer ReduceInputRequest input_header AggregateInput input_lifecycle.
Proof.
  apply (lawful_intro AggregateInput input_requested input_applied).
  - by intros event next (? & ? & _)%input_requested_inv.
  - intros current event next (? & ? & [(Hk & Hs & a & _ & ->)|(Hk & Hs & r & _ & ->)])%input_applied_inv;
      cbn; rewrite Hk, Hs; (split_and!; [done..|constructor|done]).
Qed.
Lemma input_reduced `{!UnicodeLower} current event next :
  ReduceInputRequest (Some current) event = Reduced next → input_moved current event next.
Proof. by intros (_ & _ & (_ & _ & ?)%input_applied_inv)%reduce_Reduced. Qed.

(** What a log says about an input request, besides its header. *)
Definition input_told `{!UnicodeLower} (first : Event) (rest : list Event) (p : InputRequestProjection)
  : Prop :=
  (∃ created, ReduceInputRequest None first = Reduced created ∧ input_subject p = input_subject created) ∧
  input_valid p ∧
  stage InputRequestPending InputRequestAnswerRecorded InputRequestAnswered
    (inp_Status p) (inp_Answer p) (inp_Receipt p) ∧
  told_once "input.answer_recorded" rest (inp_Answer p) (answer_says p) ∧
  told_once "input.answer_delivered" rest (inp_Receipt p) (receipt_says p).

Lemma input_told_created `{!UnicodeLower} event next :
  ReduceInputRequest None event = Reduced next → input_told event [] next.
Proof.
  intros Hred. pose proof Hred as (_ & _ & (? & Hh & Hv & Ha & Hr)%input_requested_inv)%reduce_Reduced.
  unfold input_told. rewrite Ha, Hr. split_and!; [by exists next|done| |done|done].
  left. by injection Hh.
Qed.

Lemma input_told_applied `{!UnicodeLower} first rest current event next :
  input_told first rest current → ReduceInputRequest (Some current) event = Reduced next →
  input_told first (rest ++ [event]) next.
Proof.
  intros ((created & ? & Hsub) & Hvalid & Hstage & Ha & Hr) Hred.
  apply input_reduced in Hred as [(Hk & Hs & a & Hsays & ->)|(Hk & Hs & r & Hsays & ->)];
    destruct Hstage as [(Hs' & Hna & Hnr)|[(Hs' & Hna & Hnr)|(Hs' & Hna & Hnr)]];
    rewrite Hs in Hs'; try discriminate Hs'.
  - rewrite Hna in Ha. split_and!; [by exists created|done| | |].
    + right; left. cbn. by split_and!; eauto.
    + by apply told_once_now.
    + apply told_once_other; [by rewrite Hk|done].
  - rewrite Hnr in Hr. split_and!; [by exists created|done| | |].
    + right; right. cbn. by split_and!; eauto.
    + apply told_once_other; [by rewrite Hk|done].
    + by apply told_once_now.
Qed.

(** Whatever input request a log replays to asks the valid questions of the provider
    request it was created for, and it is answered at most once: it is pending while its stream
    has no answer, shows the JSON of its only answer event with the user or external actor who
    gave it in the scope of the request, and is answered exactly when the only delivery event
    of its stream has taken that answer back to the same provider request. *)
Theorem input_answered_once `{!UnicodeLower} events p :
  replay ReduceInputRequest events = Ok (Some p) →
  recorded AggregateInput input_lifecycle events (input_header p) (λ first rest, input_told first rest p).
Proof.
  apply (replay_recorded input_told); [apply input_told_created|apply input_told_applied].
Qed.

Definition ex_input := ex_event AggregateInput "input_1".
Definition as_actor (type : ActorType) (event : Event) : Event := {|
  ev_SchemaVersion := ev_SchemaVersion event; ev_ID := ev_ID event;
  ev_GlobalPosition := ev_GlobalPosition event; ev_AggregateType := ev_AggregateType event;
  ev_AggregateID := ev_AggregateID event; ev_AggregateRevision := ev_AggregateRevision event;
  ev_Kind := ev_Kind event; ev_OccurredAt := ev_OccurredAt event; ev_RecordedAt := ev_RecordedAt event;
  ev_CorrelationID := ev_CorrelationID event; ev_CausationID := ev_CausationID event;
  ev_CommandID := ev_CommandID event; ev_Actor := {| actor_Type := type; actor_ID := "actor_1" |};
  ev_Data := ev_Data event; ev_Metadata := ev_Metadata event |}.
Definition ex_input_events : list Event := [
  ex_input "input.requested" 1 (ex_digest_of
    "{'runId':'run_1','attemptId':'a','nodeId':'n','providerThreadId':'t','providerRequestId':'7',
      'request':{'questions':[{'id':'q1','prompt':'Ship it?','options':['yes','no'],
        'schema':{'type':'string','allowedValues':['yes','no']}}]},'scopeDigest':" +:+ "}");
  ex_input "input.answer_recorded" 2 (ex_digest_of
    "{'answer':{'answers':{'q1':{'answers':'yes'}}},'scopeDigest':" +:+ "}");
  as_actor ActorProvider (ex_input "input.answer_delivered" 3 "{'providerRequestId':'7'}")].
Lemma input_answered_once_witness :
  ∃ p, inp_Status p = InputRequestAnswered ∧
  recorded AggregateInput input_lifecycle ex_input_events (input_header p)
    (λ first rest, @input_told ascii_lower first rest p).
Proof.
  eexists. split; [|apply (@input_answered_once ascii_lower); vm_compute; reflexivity]. reflexivity.
Defined.

(** * Provider permissions *)
Inductive permission_step : ProviderPermissionStatus → string → ProviderPermissionStatus → Prop :=
| permission_step_recorded :
    permission_step ProviderPermissionPending "permission.decision_recorded" ProviderPermissionDecisionRecorded
| permission_step_delivered :
    permission_step ProviderPermissionDecisionRecorded "permission.response_delivered" ProviderPermissionResponded.
Definition permission_lifecycle : Lifecycle :=
  {| lc_initial := ProviderPermissionPending; lc_created := "permission.requested";
     lc_step := permission_step |}.
Definition permission_header (p : ProviderPermissionProjection) : Header := {|
  hd_ID := per_PermissionRequestID p; hd_Status := per_Status p;
  hd_ResourceVersion := per_ResourceVersion p; hd_LastGlobalPosition := per_LastGlobalPosition p;
  hd_CreatedAt := per_CreatedAt p; hd_UpdatedAt := per_UpdatedAt p |}.
(** What a permission is about. *)
Definition permission_subject (p : ProviderPermissionProjection) : list string :=
  [per_RunID p; per_AttemptID p; per_NodeID p; per_ProviderThreadID p; per_ProviderTurnID p;
   per_ProviderRequestID p; per_InteractionKind p; per_Scope p; per_ScopeDigest p; per_PolicyDigest p;
   per_Evidence p].
Definition permission_valid `{!UnicodeLower} (p : ProviderPermissionProjection) : Prop :=
  Forall (λ id, id ≠ "") [per_RunID p; per_AttemptID p; per_NodeID p; per_ProviderThreadID p;
    per_ProviderTurnID p; per_ProviderRequestID p] ∧
  permissionKind (per_InteractionKind p) = true ∧
  validSourceHash (per_ScopeDigest p) = true ∧ validSourceHash (per_PolicyDigest p) = true ∧
  (∃ scope, decodeClosedJSON scope_type (per_Scope p) = Some scope ∧
    ValidInteractionScope (per_InteractionKind p) scope = true) ∧
  validPermissionEvidence (per_Evidence p) (per_InteractionKind p) = true.
(** A legal decision of an attributable actor in the scope of the request. *)
Definition permission_decision_says (p : ProviderPermissionProjection) (event : Event)
    (decision : ProviderPermissionDecisionProjection) : Prop :=
  (∃ data, decodeData event [string_field "ScopeDigest"; string_field "Decision"] = Ok data ∧
    get_string data "ScopeDigest" = per_ScopeDigest p ∧
    get_string data "Decision" = ppd_Decision decision) ∧
  permissionDecision (ppd_Decision decision) = true ∧ ppd_ActionKey decision = ev_CommandID event ∧
  ppd_Actor decision = ev_Actor event ∧ actor_Type (ev_Actor event) ∈ [ActorUser; ActorExternal] ∧
  ppd_RecordedAt decision = ev_RecordedAt event.
Definition permission_receipt_says (p : ProviderPermissionProjection) (event : Event)
    (receipt : ProviderPermissionReceiptProjection) : Prop :=
  ppr_ProviderRequestID receipt = per_ProviderRequestID p ∧
  actor_Type (ev_Actor event) ∈ [ActorProvider; ActorSystem] ∧
  ppr_DeliveredAt receipt = ev_RecordedAt event.

Lemma permission_requested_inv `{!UnicodeLower} event next :
  permission_requested event = Ok next →
  ev_Kind event = "permission.requested" ∧
  permission_header next = created_header event ProviderPermissionPending ∧
  permission_valid next ∧ per_Decision next = None ∧ per_Receipt next = None.
Proof.
  intros Hok. unfold permission_requested in Hok. case_decide as Hk; [done|].
  cbv zeta in Hok. inv_created Hok. bool_to_prop.
  split_and!; [done..| | |]; [|done|done]. unfold permission_valid.
  cbn -[decodeClosedJSON validPermissionEvidence].
  destruct (decodeClosedJSON _ _) as [scope|]; [|done].
  split_and!; [by repeat constructor|done..|by exists scope|done].
Qed.

Definition permission_moved (current : ProviderPermissionProjection) (event : Event)
    (next : ProviderPermissionProjection) : Prop :=
  (ev_Kind event = "permission.decision_recorded" ∧ per_Status current = ProviderPermissionPending ∧
   ∃ decision, permission_decision_says current event decision ∧
     next = permission_with current event ProviderPermissionDecisionRecorded (Some decision)
              (per_Receipt current)) ∨
  (ev_Kind event = "permission.response_delivered" ∧
   per_Status current = ProviderPermissionDecisionRecorded ∧
   ∃ receipt, permission_receipt_says current event receipt ∧
     next = permission_with current event ProviderPermissionResponded (per_Decision current)
              (Some receipt)).

Lemma permission_decision_recorded_inv current event next :
  permission_decision_recorded current event = Ok next →
  per_Status current = ProviderPermissionPending ∧
  ∃ decision, permission_decision_says current event decision ∧
    next = permission_with current event ProviderPermissionDecisionRecorded (Some decision)
             (per_Receipt current).
Proof.
  unfold permission_decision_recorded. case_decide as Hs; [done|].
  intros (data & Hdata & Hok)%result_bind_Ok. cbv beta zeta in Hok.
  destruct (_ || _) eqn:Hc in Hok; [done|]. injection Hok as <-.
  split; [done|]. eexists. split; [|reflexivity]. bool_to_eq. unfold permission_decision_says. cbn.
  split_and!; [by exists data|done..|by apply attributable_true|done].
Qed.
Lemma permission_response_delivered_inv current event next :
  permission_response_delivered current event = Ok next →
  per_Status current = ProviderPermissionDecisionRecorded ∧
  ∃ receipt, permission_receipt_says current event receipt ∧
    next = permission_with current event ProviderPermissionResponded (per_Decision current)
             (Some receipt).
Proof.
  unfold permission_response_delivered. destruct (per_Decision current) as [d|] eqn:Hd; [|done].
  case_decide as Hs; [done|]. intros (data & Hdata & Hok)%result_bind_Ok. cbv beta zeta in Hok.
  destruct (_ || _) eqn:Hc in Hok; [done|]. injection Hok as <-.
  split; [done|]. eexists. split; [|reflexivity]. bool_to_eq. unfold permission_receipt_says. cbn.
  split_and!; [done|by apply from_provider_true|done].
Qed.
Lemma permission_applied_inv current event next :
  permission_applied current event = Ok next →
  ev_AggregateID event = per_PermissionRequestID current ∧
  ev_AggregateRevision event = uint64 (per_ResourceVersion current + 1) ∧
  permission_moved current event next.
Proof.
  intros (? & ? & Hok)%next_applied_inv. split_and!; [done..|]. revert Hok.
  unfold permission_cases, permission_moved. by_kind event.
  - intros []%permission_decision_recorded_inv. by left.
  - intros []%permission_response_delivered_inv. by right.
  - done.
Qed.

#[export] Instance permission_lawful `{!UnicodeLower} :
  LawfulReducer ReduceProviderPermission permission_header AggregatePermission permission_lifecycle.
Proof.
  apply (lawful_intro AggregatePermission permission_requested permission_applied).
  - by intros event next (? & ? & _)%permission_requested_inv.
  - intros current event next (? & ? & [(Hk & Hs & a & _ & ->)|(Hk & Hs & r & _ & ->)])%permission_applied_inv;
      cbn; rewrite Hk, Hs; (split_and!; [done..|constructor|done]).
Qed.

Definition permission_told `{!UnicodeLower} (first : Event) (rest : list Event)
    (p : ProviderPermissionProjection) : Prop :=
  (∃ created, ReduceProviderPermission None first = Reduced created ∧
    permission_subject p = permission_subject created) ∧
  permission_valid p ∧
  stage ProviderPermissionPending ProviderPermissionDecisionRecorded ProviderPermissionResponded
    (per_Status p) (per_Decision p) (per_Receipt p) ∧
  told_once "permission.decision_recorded" rest (per_Decision p) (permission_decision_says p) ∧
  told_once "permission.response_delivered" rest (per_Receipt p) (permission_receipt_says p).

Lemma permission_told_created `{!UnicodeLower} event next :
  ReduceProviderPermission None event = Reduced next → permission_told event [] next.
Proof.
  intros Hred. pose proof Hred as (_ & _ & (? & Hh & Hv & Ha & Hr)%permission_requested_inv)%reduce_Reduced.
  unfold permission_told. rewrite Ha, Hr. split_and!; [by exists next|done| |done|done].
  left. by injection Hh.
Qed.
Lemma permission_told_applied `{!UnicodeLower} first rest current event next :
  permission_told first rest current → ReduceProviderPermission (Some current) event = Reduced next →
  permission_told first (rest ++ [event]) next.
Proof.
  intros ((created & ? & Hsub) & Hvalid & Hstage & Ha & Hr) (_ & _ & (_ & _ & Hm)%permission_applied_inv)%reduce_Reduced.
  destruct Hm as [(Hk & Hs & a & Hsays & ->)|(Hk & Hs & r & Hsays & ->)];
    destruct Hstage as [(Hs' & Hna & Hnr)|[(Hs' & Hna & Hnr)|(Hs' & Hna & Hnr)]];
    rewrite Hs in Hs'; try discriminate Hs'.
  - rewrite Hna in Ha. split_and!; [by exists created|done| | |].
    + right; left. cbn. by split_and!; eauto.
    + by apply told_once_now.
    + apply told_once_other; [by rewrite Hk|done].
  - rewrite Hnr in Hr. split_and!; [by exists created|done| | |].
    + right; right. cbn. by split_and!; eauto.
    + apply told_once_other; [by rewrite Hk|done].
    + by apply told_once_now.
Qed.

(** (C40) Whatever provider permission a log replays to has the complete subject, the valid
    scope and the redacted evidence it was requested with, and is decided at most once: no
    decision is shown while its stream has none, and otherwise the allow_once, deny or cancel
    of its only decision event, taken by a user or external actor for exactly that scope; it
    counts as responded exactly when the only delivery event of its stream has returned that
    decision to the provider request that asked. *)
Theorem permission_decided_once `{!UnicodeLower} events p :
  replay ReduceProviderPermission events = Ok (Some p) →
  recorded AggregatePermission permission_lifecycle events (permission_header p)
    (λ first rest, permission_told first rest p).
Proof.
  apply (replay_recorded permission_told); [apply permission_told_created|apply permission_told_applied].
Qed.

Definition ex_permission := ex_event AggregatePermission "permission_1".
Definition ex_permission_events : list Event := [
  ex_permission "permission.requested" 1 (ex_digest_of (ex_digest_of (ex_digest_of (ex_digest_of
    "{'RunID':'run_1','AttemptID':'a','NodeID':'n','ProviderThreadID':'t','ProviderTurnID':'u',
      'ProviderRequestID':'7','InteractionKind':'file',
      'Scope':{'target':'file','operation':'modify','subject':'src/main.go'},'ScopeDigest':" +:+
    ",'PolicyDigest':") +:+ ",'Evidence':{'kind':'file',
      'summary':'Provider requested a file interaction','payloadDigest':") +:+ ",'providerItemDigest':") +:+ "}}");
  ex_permission "permission.decision_recorded" 2 (ex_digest_of "{'Decision':'allow_once','ScopeDigest':" +:+ "}");
  as_actor ActorProvider (ex_permission "permission.response_delivered" 3 "{'ProviderRequestID':'7'}")].
Lemma permission_decided_once_witness :
  ∃ p, per_Status p = ProviderPermissionResponded ∧
  recorded AggregatePermission permission_lifecycle ex_permission_events (permission_header p)
    (λ first rest, @permission_told ascii_lower first rest p).
Proof.
  eexists. split; [|apply (@permission_decided_once ascii_lower); vm_compute; reflexivity]. reflexivity.
Defined.
