(* ===== verification/StoreTables.v ===== *)
(** The projection tables of the sqlite state store: their rows, the constraints of
    [adapters/statestore/sqlite/migrations], and the reads and writes of [events.go] and
    [work.go].

    A row is the projection that scanning it gives: a nullable column is an option, and the
    JSON columns of work items (evidence, routing intent) hold their values.  [formatTime]
    writes the instants; a row whose instants [parseTime] does not read cannot be scanned. *)
From S2P Require Import Prelude GoStrings GoJson StateStore GoTime Reducer.
From stdpp Require Import options.

(** * What sqlite says about a text *)
Class SqliteJson := {
  json_valid : string → bool;
  json_object : string → bool;  (* json_valid(x) AND json_type(x) = 'object' *)
}.

(** An [int64] column: [database/sql] refuses a [uint64] beyond it. *)
Definition storable (n : Z) : bool := (0 <=? n)%Z && (n <=? max_int64)%Z.
Definition positive (n : Z) : bool := (1 <=? n)%Z && (n <=? max_int64)%Z.
Lemma uint64_next n : (0 ≤ n ≤ max_int64)%Z → uint64 (n + 1) = (n + 1)%Z.
Proof. intros Hn. apply wrap_small. unfold max_int64 in Hn. lia. Qed.
Definition nonempty (s : string) : bool := bool_decide (s ≠ "").
Definition member (l : list string) (s : string) : bool := bool_decide (s ∈ l).

(** * Tables *)
Record Tables := {
  t_projects : gmap string ProjectProjection;
  t_works : gmap string WorkItemProjection;
  t_stories : gmap string StoryProjection;
  t_points : gmap string PointProjection;
  (* point, the point it depends on, source revision *)
  t_dependencies : gmap string (gmap string Z);
  t_runs : gmap string RunProjection;
  t_nodes : gmap string NodeProjection;
  t_attempts : gmap string AttemptProjection;
  t_approvals : gmap string ApprovalProjection;
  t_assessments : gmap string ReadinessAssessmentProjection;
  t_inputs : gmap string InputRequestProjection;
  t_permissions : gmap string ProviderPermissionProjection;
}.
Definition empty_tables : Tables := {|
  t_projects := ∅; t_works := ∅; t_stories := ∅; t_points := ∅; t_dependencies := ∅; t_runs := ∅;
  t_nodes := ∅; t_attempts := ∅; t_approvals := ∅; t_assessments := ∅; t_inputs := ∅;
  t_permissions := ∅ |}.

(** * Errors of the store *)
Inductive store_error :=
| StoreInvalid (message : msg)
| StoreConstraint (what : string)
| StoreUnreadable (what : string)
| NoRows (table id : string)
| ReduceError (error : reduce_error)
| StoreRefused (message : msg)
| RevisionConflict (AggregateID : string) (Expected Actual : Z)
| IdempotencyConflict (AggregateID CommandID : string)
| AggregateTypeMismatch (AggregateID : string) (got want : string)
| SourceRefused (reason : string).
Abbreviation store_result := (result store_error).

(** * One table *)

(** [INSERT ... ON CONFLICT(id) DO UPDATE SET ...]: what is written for a value, the columns
    the update sets, the constraints of one row and those that look at other rows. *)
Record Table (P : Type) := {
  tbl_name : string;
  tbl_rows : Tables → gmap string P;
  tbl_with : gmap string P → Tables → Tables;
  tbl_id : P → string;
  tbl_times : P → list Time;
  tbl_row : P → P;
  tbl_update : P → P → P;
  tbl_check : P → bool;
  tbl_admits : Tables → P → bool;
}.
Arguments tbl_name {P} _.
Arguments tbl_rows {P} _ _.
Arguments tbl_with {P} _ _ _.
Arguments tbl_id {P} _ _.
Arguments tbl_times {P} _ _.
Arguments tbl_row {P} _ _.
Arguments tbl_update {P} _ _ _.
Arguments tbl_check {P} _ _.
Arguments tbl_admits {P} _ _ _.

Section table.
Context {P : Type} (T : Table P).

(** [SELECT ... WHERE id = ?]; [None] is [sql.ErrNoRows]. *)
Definition read_row (t : Tables) (id : string) : store_result (option P) :=
  match tbl_rows T t !! id with
  | None => Ok None
  | Some row => if forallb parses_back (tbl_times T row) then Ok (Some row)
                else Err (StoreUnreadable (tbl_name T))
  end.
(** The row constraints are checked on the row to insert, and on the updated one. *)
Definition write_row (value : P) (t : Tables) : store_result Tables :=
  let row := tbl_row T value in
  let id := tbl_id T value in
  let store (r : P) := if tbl_check T r then Ok (tbl_with T (<[id := r]> (tbl_rows T t)) t)
                       else Err (StoreConstraint (tbl_name T)) in
  if negb (tbl_check T row) then Err (StoreConstraint (tbl_name T))
  else match tbl_rows T t !! id with
       | None => if tbl_admits T t row then store row else Err (StoreConstraint (tbl_name T))
       | Some old => store (tbl_update T old row)
       end.
End table.

(** * Projects, work items, stories *)
Definition project_row_ok (value : ProjectProjection) : bool :=
  nonempty (prj_Name value) && validSourceHash (prj_SourceHash value) &&
  member [ProjectActive; ProjectArchived] (prj_Status value) &&
  positive (prj_ResourceVersion value) && storable (prj_LastGlobalPosition value).
Definition projects : Table ProjectProjection := {|
  tbl_name := "project"; tbl_rows := t_projects;
  tbl_with m t := {| t_projects := m; t_works := t_works t; t_stories := t_stories t;
    t_points := t_points t; t_dependencies := t_dependencies t; t_runs := t_runs t;
    t_nodes := t_nodes t; t_attempts := t_attempts t; t_approvals := t_approvals t;
    t_assessments := t_assessments t; t_inputs := t_inputs t; t_permissions := t_permissions t |};
  tbl_id := prj_ProjectID; tbl_times value := [prj_CreatedAt value; prj_UpdatedAt value];
  tbl_row value := value;
  tbl_update old value := {|
    prj_ProjectID := prj_ProjectID old; prj_Name := prj_Name old; prj_SourceHash := prj_SourceHash old;
    prj_Status := prj_Status value; prj_ResourceVersion := prj_ResourceVersion value;
    prj_LastGlobalPosition := prj_LastGlobalPosition value; prj_CreatedAt := prj_CreatedAt old;
    prj_UpdatedAt := prj_UpdatedAt value |};
  tbl_check := project_row_ok;
  tbl_admits _ _ := true |}.

Definition work_row_ok (value : WorkItemProjection) : bool :=
  nonempty (wit_Title value) && validSourceHash (wit_SourceHash value) && storable (wit_Priority value) &&
  member [WorkItemOpen; WorkItemActive; WorkItemCompleted; WorkItemCancelled] (wit_Status value) &&
  member [WorkRetained; WorkDeleting; WorkDeleted] (wit_Deletion value) &&
  positive (wit_ResourceVersion value) && storable (wit_LastGlobalPosition value).
Definition works : Table WorkItemProjection := {|
  tbl_name := "work item"; tbl_rows := t_works;
  tbl_with m t := {| t_projects := t_projects t; t_works := m; t_stories := t_stories t;
    t_points := t_points t; t_dependencies := t_dependencies t; t_runs := t_runs t;
    t_nodes := t_nodes t; t_attempts := t_attempts t; t_approvals := t_approvals t;
    t_assessments := t_assessments t; t_inputs := t_inputs t; t_permissions := t_permissions t |};
  tbl_id := wit_WorkItemID; tbl_times value := [wit_CreatedAt value; wit_UpdatedAt value];
  tbl_row value := value;
  tbl_update old value := {|
    wit_WorkItemID := wit_WorkItemID old; wit_ProjectID := wit_ProjectID old; wit_Title := wit_Title old;
    wit_Deletion := wit_Deletion value; wit_Details := wit_Details old; wit_Evidence := wit_Evidence old;
    wit_RoutingIntent := wit_RoutingIntent old; wit_SourceHash := wit_SourceHash old;
    wit_Priority := wit_Priority old; wit_Status := wit_Status value;
    wit_ResourceVersion := wit_ResourceVersion value;
    wit_LastGlobalPosition := wit_LastGlobalPosition value; wit_CreatedAt := wit_CreatedAt old;
    wit_UpdatedAt := wit_UpdatedAt value |};
  tbl_check := work_row_ok;
  tbl_admits t value := bool_decide (is_Some (t_projects t !! wit_ProjectID value)) |}.

Definition story_row_ok (value : StoryProjection) : bool :=
  nonempty (sty_Title value) && validSourceHash (sty_SourceHash value) && storable (sty_Priority value) &&
  storable (sty_Position value) &&
  member [StoryPlanned; StoryReady; StoryRunning; StoryCompleted; StoryCancelled; StoryRetired]
    (sty_Status value) &&
  positive (sty_ResourceVersion value) && storable (sty_LastGlobalPosition value).
Definition stories : Table StoryProjection := {|
  tbl_name := "story"; tbl_rows := t_stories;
  tbl_with m t := {| t_projects := t_projects t; t_works := t_works t; t_stories := m;
    t_points := t_points t; t_dependencies := t_dependencies t; t_runs := t_runs t;
    t_nodes := t_nodes t; t_attempts := t_attempts t; t_approvals := t_approvals t;
    t_assessments := t_assessments t; t_inputs := t_inputs t; t_permissions := t_permissions t |};
  tbl_id := sty_StoryID; tbl_times value := [sty_CreatedAt value; sty_UpdatedAt value];
  tbl_row value := value;
  tbl_update old value := {|
    sty_StoryID := sty_StoryID old; sty_WorkItemID := sty_WorkItemID old; sty_Title := sty_Title old;
    sty_SourceHash := sty_SourceHash old; sty_Priority := sty_Priority old;
    sty_Position := sty_Position old; sty_Status := sty_Status value;
    sty_ResourceVersion := sty_ResourceVersion value;
    sty_LastGlobalPosition := sty_LastGlobalPosition value; sty_CreatedAt := sty_CreatedAt old;
    sty_UpdatedAt := sty_UpdatedAt value |};
  tbl_check := story_row_ok;
  tbl_admits t value := bool_decide (is_Some (t_works t !! sty_WorkItemID value)) |}.

(** * Points and their dependencies *)
Definition point_row_ok (value : PointProjection) : bool :=
  positive (pt_Revision value) && nonempty (pt_Title value) && validSourceHash (pt_SourceHash value) &&
  storable (pt_Priority value) && storable (pt_Position value) &&
  member [PointPlanned; PointReady; PointRunning; PointValidating; PointAwaitingApproval; PointAccepted;
          PointCommitted; PointPublished; PointFailed; PointRejected; PointSuperseded;
          PointReconcileRequired] (pt_Status value) &&
  positive (pt_ResourceVersion value) && storable (pt_LastGlobalPosition value).
Definition point_with_dependencies (value : PointProjection) (dependencies : list string)
  : PointProjection := {|
  pt_PointID := pt_PointID value; pt_StoryID := pt_StoryID value; pt_Revision := pt_Revision value;
  pt_Title := pt_Title value; pt_SourceHash := pt_SourceHash value; pt_Priority := pt_Priority value;
  pt_Position := pt_Position value; pt_Dependencies := dependencies; pt_Status := pt_Status value;
  pt_ResourceVersion := pt_ResourceVersion value;
  pt_LastGlobalPosition := pt_LastGlobalPosition value; pt_CreatedAt := pt_CreatedAt value;
  pt_UpdatedAt := pt_UpdatedAt value |}.
Definition points : Table PointProjection := {|
  tbl_name := "point"; tbl_rows := t_points;
  tbl_with m t := {| t_projects := t_projects t; t_works := t_works t; t_stories := t_stories t;
    t_points := m; t_dependencies := t_dependencies t; t_runs := t_runs t;
    t_nodes := t_nodes t; t_attempts := t_attempts t; t_approvals := t_approvals t;
    t_assessments := t_assessments t; t_inputs := t_inputs t; t_permissions := t_permissions t |};
  tbl_id := pt_PointID; tbl_times value := [pt_CreatedAt value; pt_UpdatedAt value];
  tbl_row value := point_with_dependencies value [];
  tbl_update old value := {|
    pt_PointID := pt_PointID old; pt_StoryID := pt_StoryID old; pt_Revision := pt_Revision value;
    pt_Title := pt_Title value; pt_SourceHash := pt_SourceHash value; pt_Priority := pt_Priority value;
    pt_Position := pt_Position value; pt_Dependencies := []; pt_Status := pt_Status value;
    pt_ResourceVersion := pt_ResourceVersion value;
    pt_LastGlobalPosition := pt_LastGlobalPosition value; pt_CreatedAt := pt_CreatedAt old;
    pt_UpdatedAt := pt_UpdatedAt value |};
  tbl_check := point_row_ok;
  tbl_admits t value := bool_decide (is_Some (t_stories t !! pt_StoryID value)) |}.

Definition with_dependencies (m : gmap string (gmap string Z)) (t : Tables) : Tables := {|
  t_projects := t_projects t; t_works := t_works t; t_stories := t_stories t; t_points := t_points t;
  t_dependencies := m; t_runs := t_runs t; t_nodes := t_nodes t; t_attempts := t_attempts t;
  t_approvals := t_approvals t; t_assessments := t_assessments t; t_inputs := t_inputs t;
  t_permissions := t_permissions t |}.
(** In the order of their identifiers. *)
Definition readPointDependencies (t : Tables) (pointID : string) : list string :=
  sort_strings (elements (dom (default ∅ (t_dependencies t !! pointID)))).
Definition readPointProjection (t : Tables) (id : string) : store_result (option PointProjection) :=
  let? row := read_row points t id in
  Ok ((λ value, point_with_dependencies value (readPointDependencies t id)) <$> row).

(** One row of [point_dependencies]: another point of the same story, once. *)
Definition add_dependency (value : PointProjection) (t : Tables) (dependency : string)
  : store_result Tables :=
  match t_points t !! dependency with
  | None => Err (NoRows "point" dependency)
  | Some other =>
      if decide (pt_StoryID other ≠ pt_StoryID value) then
        Err (StoreRefused (Msg "point %s dependency %s belongs to story %s, not %s"
          [AStr (pt_PointID value); AStr dependency; AStr (pt_StoryID other); AStr (pt_StoryID value)]))
      else
        let own := default ∅ (t_dependencies t !! pt_PointID value) in
        if negb (positive (pt_Revision value)) || bool_decide (pt_PointID value = dependency) ||
           bool_decide (is_Some (own !! dependency))
        then Err (StoreConstraint "point_dependencies")
        else Ok (with_dependencies
               (<[pt_PointID value := <[dependency := pt_Revision value]> own]> (t_dependencies t)) t)
  end.
Definition writePointProjection (value : PointProjection) (t : Tables) : store_result Tables :=
  let? t := write_row points value t in
  let t := with_dependencies (delete (pt_PointID value) (t_dependencies t)) t in
  foldM (add_dependency value) t (pt_Dependencies value).

(** * Runs, node visits, attempts *)
Definition run_row_ok `{!SqliteJson} (value : RunProjection) : bool :=
  json_object (run_RouteSnapshot value) && storable (run_Priority value) &&
  member [RunDraft; RunReady; RunQueued; RunRunning; RunWaiting; RunBlocked; RunCompleted; RunFailed;
          RunCancelled; RunReconcileRequired] (run_Status value) &&
  positive (run_ResourceVersion value) && storable (run_LastGlobalPosition value) &&
  (if bool_decide (run_WorkflowDigest value = "" ∧ run_RouteDigest value = "" ∧
                   run_RouteSnapshot value = "{}") then true
   else validSourceHash (run_WorkflowDigest value) && validSourceHash (run_RouteDigest value) &&
        bool_decide (run_RouteSnapshot value ≠ "{}")).
(** A run without a route has an empty object for one. *)
Definition run_row (value : RunProjection) : RunProjection := {|
  run_RunID := run_RunID value; run_WorkItemID := run_WorkItemID value;
  run_WorkflowID := run_WorkflowID value; run_WorkflowVersion := run_WorkflowVersion value;
  run_WorkflowDigest := run_WorkflowDigest value; run_RouteDigest := run_RouteDigest value;
  run_RouteSnapshot := if decide (run_RouteSnapshot value = "") then "{}" else run_RouteSnapshot value;
  run_Priority := run_Priority value; run_Status := run_Status value;
  run_ResourceVersion := run_ResourceVersion value;
  run_LastGlobalPosition := run_LastGlobalPosition value; run_CreatedAt := run_CreatedAt value;
  run_UpdatedAt := run_UpdatedAt value |}.
Definition runs `{!SqliteJson} : Table RunProjection := {|
  tbl_name := "run"; tbl_rows := t_runs;
  tbl_with m t := {| t_projects := t_projects t; t_works := t_works t; t_stories := t_stories t;
    t_points := t_points t; t_dependencies := t_dependencies t; t_runs := m;
    t_nodes := t_nodes t; t_attempts := t_attempts t; t_approvals := t_approvals t;
    t_assessments := t_assessments t; t_inputs := t_inputs t; t_permissions := t_permissions t |};
  tbl_id := run_RunID; tbl_times value := [run_CreatedAt value; run_UpdatedAt value];
  tbl_row := run_row;
  tbl_update old value := {|
    run_RunID := run_RunID old; run_WorkItemID := run_WorkItemID old;
    run_WorkflowID := run_WorkflowID old; run_WorkflowVersion := run_WorkflowVersion old;
    run_WorkflowDigest := run_WorkflowDigest value; run_RouteDigest := run_RouteDigest value;
    run_RouteSnapshot := run_RouteSnapshot value; run_Priority := run_Priority old;
    run_Status := run_Status value; run_ResourceVersion := run_ResourceVersion value;
    run_LastGlobalPosition := run_LastGlobalPosition value; run_CreatedAt := run_CreatedAt old;
    run_UpdatedAt := run_UpdatedAt value |};
  tbl_check := run_row_ok;
  tbl_admits _ _ := true |}.

Definition node_row_ok (value : NodeProjection) : bool :=
  member [NodePending; NodeReady; NodeRunning; NodeValidating; NodeWaitingCheckpoint; NodeSucceeded;
          NodeRejected; NodeFailed; NodeCancelled] (node_Status value) &&
  positive (node_ResourceVersion value) && storable (node_LastGlobalPosition value).
Definition nodes : Table NodeProjection := {|
  tbl_name := "node"; tbl_rows := t_nodes;
  tbl_with m t := {| t_projects := t_projects t; t_works := t_works t; t_stories := t_stories t;
    t_points := t_points t; t_dependencies := t_dependencies t; t_runs := t_runs t;
    t_nodes := m; t_attempts := t_attempts t; t_approvals := t_approvals t;
    t_assessments := t_assessments t; t_inputs := t_inputs t; t_permissions := t_permissions t |};
  tbl_id := node_VisitID; tbl_times value := [node_CreatedAt value; node_UpdatedAt value];
  tbl_row value := value;
  tbl_update old value := {|
    node_VisitID := node_VisitID old; node_RunID := node_RunID old; node_NodeID := node_NodeID old;
    node_Status := node_Status value; node_ResourceVersion := node_ResourceVersion value;
    node_LastGlobalPosition := node_LastGlobalPosition value; node_CreatedAt := node_CreatedAt old;
    node_UpdatedAt := node_UpdatedAt value |};
  tbl_check := node_row_ok;
  tbl_admits _ _ := true |}.

(** Attempts belong to a node or to one revision of a point: [point_id] is NULL without a point,
    and then so is [point_revision]. *)
Definition attempt_row (value : AttemptProjection) : AttemptProjection := {|
  att_AttemptID := att_AttemptID value; att_RunID := att_RunID value; att_VisitID := att_VisitID value;
  att_NodeID := att_NodeID value; att_PointID := att_PointID value;
  att_PointRevision := if decide (att_PointID value = "") then 0%Z else att_PointRevision value;
  att_Priority := att_Priority value; att_Scenario := att_Scenario value;
  att_Provider := att_Provider value; att_Status := att_Status value;
  att_ProviderThreadID := att_ProviderThreadID value; att_ProviderTurnID := att_ProviderTurnID value;
  att_ProcessOwnerID := att_ProcessOwnerID value; att_LastSequence := att_LastSequence value;
  att_LogReference := att_LogReference value; att_ResourceVersion := att_ResourceVersion value;
  att_LastGlobalPosition := att_LastGlobalPosition value; att_CreatedAt := att_CreatedAt value;
  att_UpdatedAt := att_UpdatedAt value |}.
Definition attempt_row_ok (value : AttemptProjection) : bool :=
  member [AttemptCreated; AttemptStarting; AttemptRunning; AttemptValidating; AttemptSucceeded;
          AttemptFailed; AttemptCancelled; AttemptInterrupted; AttemptReconcileRequired]
    (att_Status value) &&
  storable (att_Priority value) && storable (att_LastSequence value) &&
  storable (att_PointRevision value) && positive (att_ResourceVersion value) &&
  storable (att_LastGlobalPosition value) &&
  (bool_decide (att_ProviderThreadID value = "" ∧ att_ProviderTurnID value = "" ∧
                att_ProcessOwnerID value = "" ∧ att_LastSequence value = 0%Z) ||
   nonempty (att_ProviderThreadID value) && nonempty (att_ProviderTurnID value) &&
   nonempty (att_ProcessOwnerID value)) &&
  (negb (member [AttemptRunning; AttemptValidating; AttemptSucceeded] (att_Status value)) ||
   nonempty (att_ProviderThreadID value)) &&
  (if decide (att_PointID value = "") then nonempty (att_NodeID value)
   else positive (att_PointRevision value) && bool_decide (att_VisitID value = "" ∧ att_NodeID value = "")).
Definition attempts : Table AttemptProjection := {|
  tbl_name := "attempt"; tbl_rows := t_attempts;
  tbl_with m t := {| t_projects := t_projects t; t_works := t_works t; t_stories := t_stories t;
    t_points := t_points t; t_dependencies := t_dependencies t; t_runs := t_runs t;
    t_nodes := t_nodes t; t_attempts := m; t_approvals := t_approvals t;
    t_assessments := t_assessments t; t_inputs := t_inputs t; t_permissions := t_permissions t |};
  tbl_id := att_AttemptID; tbl_times value := [att_CreatedAt value; att_UpdatedAt value];
  tbl_row := attempt_row;
  tbl_update old value := {|
    att_AttemptID := att_AttemptID old; att_RunID := att_RunID old; att_VisitID := att_VisitID old;
    att_NodeID := att_NodeID old; att_PointID := att_PointID old;
    att_PointRevision := att_PointRevision old; att_Priority := att_Priority old;
    att_Scenario := att_Scenario old; att_Provider := att_Provider old; att_Status := att_Status value;
    att_ProviderThreadID := att_ProviderThreadID value; att_ProviderTurnID := att_ProviderTurnID value;
    att_ProcessOwnerID := att_ProcessOwnerID value; att_LastSequence := att_LastSequence value;
    att_LogReference := att_LogReference old; att_ResourceVersion := att_ResourceVersion value;
    att_LastGlobalPosition := att_LastGlobalPosition value; att_CreatedAt := att_CreatedAt old;
    att_UpdatedAt := att_UpdatedAt value |};
  tbl_check := attempt_row_ok;
  tbl_admits t value :=
    bool_decide (att_PointID value = "" ∨ is_Some (t_points t !! att_PointID value)) |}.

(** * Approvals *)
Definition checkpoint_columns (value : ApprovalProjection) : bool :=
  let unused := bool_decide (app_CheckpointRevision value = 0%Z ∧ app_CandidateArtifactID value = "" ∧
    app_CandidateArtifactVersion value = 0%Z ∧ app_CandidateDigest value = "" ∧
    app_CheckpointMode value = "" ∧ app_MaxRevisions value = None ∧ app_CheckpointID value = "") in
  bool_decide (app_VisitID value = "" ∧ app_NodeID value = "" ∧ app_AttemptID value = "") && unused ||
  bool_decide (app_Class value = ApprovalWorkflowControl) && unused &&
    HasPrefix (app_VisitID value) "visit_" && nonempty (app_NodeID value) &&
    HasPrefix (app_AttemptID value) "attempt_" ||
  bool_decide (app_Class value = ApprovalWorkflowCheckpoint) &&
    HasPrefix (app_CheckpointID value) "checkpoint_" && HasPrefix (app_VisitID value) "visit_" &&
    nonempty (app_NodeID value) && HasPrefix (app_AttemptID value) "attempt_" &&
    positive (app_CheckpointRevision value) && HasPrefix (app_CandidateArtifactID value) "artifact_" &&
    positive (app_CandidateArtifactVersion value) && validSourceHash (app_CandidateDigest value) &&
    member ["approve"; "approve_on_change"] (app_CheckpointMode value).
Definition approval_row_ok (value : ApprovalProjection) : bool :=
  member [ApprovalWorkflowCheckpoint; ApprovalWorkflowControl; ApprovalProviderPermission;
          ApprovalExternalDelivery] (app_Class value) &&
  member [ApprovalPending; ApprovalApproved; ApprovalChangesRequested; ApprovalRejected; ApprovalDenied;
          ApprovalCancelled; ApprovalExpired] (app_Status value) &&
  storable (app_CheckpointRevision value) && storable (app_CandidateArtifactVersion value) &&
  match app_MaxRevisions value with Some n => positive n | None => true end &&
  match app_Decision value with
  | Some decision =>
      member [ActorUser; ActorSystem; ActorProvider; ActorExternal] (actor_Type (dec_Actor decision)) &&
      bool_decide (app_Status value ≠ ApprovalPending)
  | None => true
  end &&
  positive (app_ResourceVersion value) && storable (app_LastGlobalPosition value) &&
  checkpoint_columns value.
Definition approvals : Table ApprovalProjection := {|
  tbl_name := "approval"; tbl_rows := t_approvals;
  tbl_with m t := {| t_projects := t_projects t; t_works := t_works t; t_stories := t_stories t;
    t_points := t_points t; t_dependencies := t_dependencies t; t_runs := t_runs t;
    t_nodes := t_nodes t; t_attempts := t_attempts t; t_approvals := m;
    t_assessments := t_assessments t; t_inputs := t_inputs t; t_permissions := t_permissions t |};
  tbl_id := app_ApprovalID;
  tbl_times value := [app_CreatedAt value; app_UpdatedAt value] ++
    match app_Decision value with Some decision => [dec_DecidedAt decision] | None => [] end;
  tbl_row value := value;
  tbl_update old value := {|
    app_ApprovalID := app_ApprovalID old; app_RunID := app_RunID old; app_Class := app_Class old;
    app_Status := app_Status value; app_CheckpointID := app_CheckpointID old;
    app_VisitID := app_VisitID old; app_NodeID := app_NodeID old; app_AttemptID := app_AttemptID old;
    app_CheckpointRevision := app_CheckpointRevision old;
    app_CandidateArtifactID := app_CandidateArtifactID old;
    app_CandidateArtifactVersion := app_CandidateArtifactVersion old;
    app_CandidateDigest := app_CandidateDigest old; app_CheckpointMode := app_CheckpointMode old;
    app_MaxRevisions := app_MaxRevisions old; app_ScopeDigest := app_ScopeDigest old;
    app_PolicyDigest := app_PolicyDigest old; app_Decision := app_Decision value;
    app_ResourceVersion := app_ResourceVersion value;
    app_LastGlobalPosition := app_LastGlobalPosition value; app_CreatedAt := app_CreatedAt old;
    app_UpdatedAt := app_UpdatedAt value |};
  tbl_check := approval_row_ok;
  (* UNIQUE (checkpoint_id, checkpoint_revision) WHERE checkpoint_id <> '' *)
  tbl_admits t value :=
    bool_decide (app_CheckpointID value = "") ||
    negb (existsb (λ kv, bool_decide (app_CheckpointID kv.2 = app_CheckpointID value ∧
                                      app_CheckpointRevision kv.2 = app_CheckpointRevision value))
            (map_to_list (t_approvals t))) |}.

(** * Readiness assessments, input requests, provider permissions *)
Definition person_or_external (actor : Actor) : bool :=
  member [ActorUser; ActorExternal] (actor_Type actor).
Definition assessment_row_ok `{!SqliteJson} (value : ReadinessAssessmentProjection) : bool :=
  HasPrefix (ras_AssessmentID value) "assessment_" && HasPrefix (ras_RunID value) "run_" &&
  nonempty (ras_NodeID value) &&
  member ["ready"; "choice_required"; "policy_blocked"; "invariant_blocked"] (ras_Disposition value) &&
  validSourceHash (ras_AssessmentDigest value) && validSourceHash (ras_PolicyDigest value) &&
  json_object (ras_Submission value) && json_object (ras_RouteContext value) &&
  positive (ras_ResourceVersion value) && storable (ras_LastGlobalPosition value) &&
  match ras_Decision value with
  | None => bool_decide (ras_Status value = ReadinessAssessmentPending)
  | Some decision =>
      bool_decide (ras_Status value = ReadinessAssessmentDecided) &&
      member ["continue"; "accept_route_change"; "supply_input"; "cancel"] (rdp_Choice decision) &&
      bool_decide (rdp_EffectStatus decision = ReadinessEffectPending) &&
      person_or_external (rdp_Actor decision) &&
      (* the remedy code is NULL when it is empty *)
      Bool.eqb (bool_decide (rdp_Choice decision = "supply_input")) (nonempty (rdp_RemedyCode decision))
  end.
Definition assessments `{!SqliteJson} : Table ReadinessAssessmentProjection := {|
  tbl_name := "readiness assessment"; tbl_rows := t_assessments;
  tbl_with m t := {| t_projects := t_projects t; t_works := t_works t; t_stories := t_stories t;
    t_points := t_points t; t_dependencies := t_dependencies t; t_runs := t_runs t;
    t_nodes := t_nodes t; t_attempts := t_attempts t; t_approvals := t_approvals t;
    t_assessments := m; t_inputs := t_inputs t; t_permissions := t_permissions t |};
  tbl_id := ras_AssessmentID;
  tbl_times value := [ras_CreatedAt value; ras_UpdatedAt value] ++
    match ras_Decision value with Some decision => [rdp_DecidedAt decision] | None => [] end;
  tbl_row value := value;
  tbl_update old value := {|
    ras_AssessmentID := ras_AssessmentID old; ras_RunID := ras_RunID old; ras_NodeID := ras_NodeID old;
    ras_Disposition := ras_Disposition old; ras_AssessmentDigest := ras_AssessmentDigest old;
    ras_PolicyDigest := ras_PolicyDigest old; ras_Submission := ras_Submission old;
    ras_RouteContext := ras_RouteContext old; ras_Status := ras_Status value;
    ras_Decision := ras_Decision value; ras_ResourceVersion := ras_ResourceVersion value;
    ras_LastGlobalPosition := ras_LastGlobalPosition value; ras_CreatedAt := ras_CreatedAt old;
    ras_UpdatedAt := ras_UpdatedAt value |};
  tbl_check := assessment_row_ok;
  tbl_admits _ _ := true |}.

(** The columns of the answer and of the receipt are NULL together, by status. *)
Definition settled_columns {A B} (statuses : string * string * string) (status : string)
    (answer : option A) (receipt : option B) : bool :=
  let '(open, settled, delivered) := statuses in
  match answer, receipt with
  | None, None => bool_decide (status = open)
  | Some _, None => bool_decide (status = settled)
  | Some _, Some _ => bool_decide (status = delivered)
  | None, Some _ => false
  end.
Definition input_row_ok `{!SqliteJson} (value : InputRequestProjection) : bool :=
  HasPrefix (inp_InputRequestID value) "input_" && HasPrefix (inp_RunID value) "run_" &&
  HasPrefix (inp_AttemptID value) "attempt_" && nonempty (inp_NodeID value) &&
  nonempty (inp_ProviderThreadID value) && nonempty (inp_ProviderRequestID value) &&
  validSourceHash (inp_ScopeDigest value) && json_object (inp_Request value) &&
  match inp_Answer value with
  | Some answer => json_valid (ian_Answer answer) && person_or_external (ian_Actor answer)
  | None => true
  end &&
  match inp_Receipt value with
  | Some receipt => bool_decide (irc_ProviderRequestID receipt = inp_ProviderRequestID value)
  | None => true
  end &&
  settled_columns (InputRequestPending, InputRequestAnswerRecorded, InputRequestAnswered)
    (inp_Status value) (inp_Answer value) (inp_Receipt value) &&
  positive (inp_ResourceVersion value) && storable (inp_LastGlobalPosition value).
Definition inputs `{!SqliteJson} : Table InputRequestProjection := {|
  tbl_name := "input request"; tbl_rows := t_inputs;
  tbl_with m t := {| t_projects := t_projects t; t_works := t_works t; t_stories := t_stories t;
    t_points := t_points t; t_dependencies := t_dependencies t; t_runs := t_runs t;
    t_nodes := t_nodes t; t_attempts := t_attempts t; t_approvals := t_approvals t;
    t_assessments := t_assessments t; t_inputs := m; t_permissions := t_permissions t |};
  tbl_id := inp_InputRequestID;
  tbl_times value := [inp_CreatedAt value; inp_UpdatedAt value] ++
    match inp_Answer value with Some answer => [ian_RecordedAt answer] | None => [] end ++
    match inp_Receipt value with Some receipt => [irc_DeliveredAt receipt] | None => [] end;
  tbl_row value := value;
  tbl_update old value := {|
    inp_InputRequestID := inp_InputRequestID old; inp_RunID := inp_RunID old;
    inp_AttemptID := inp_AttemptID old; inp_NodeID := inp_NodeID old;
    inp_ProviderThreadID := inp_ProviderThreadID old;
    inp_ProviderRequestID := inp_ProviderRequestID old; inp_ScopeDigest := inp_ScopeDigest old;
    inp_Request := inp_Request old; inp_Status := inp_Status value; inp_Answer := inp_Answer value;
    inp_Receipt := inp_Receipt value; inp_ResourceVersion := inp_ResourceVersion value;
    inp_LastGlobalPosition := inp_LastGlobalPosition value; inp_CreatedAt := inp_CreatedAt old;
    inp_UpdatedAt := inp_UpdatedAt value |};
  tbl_check := input_row_ok;
  (* UNIQUE (attempt_id, provider_request_id) *)
  tbl_admits t value :=
    negb (existsb (λ kv, bool_decide (inp_AttemptID kv.2 = inp_AttemptID value ∧
                                      inp_ProviderRequestID kv.2 = inp_ProviderRequestID value))
            (map_to_list (t_inputs t))) |}.

Definition permission_row_ok `{!SqliteJson} (value : ProviderPermissionProjection) : bool :=
  HasPrefix (per_PermissionRequestID value) "permission_" && HasPrefix (per_RunID value) "run_" &&
  HasPrefix (per_AttemptID value) "attempt_" && nonempty (per_NodeID value) &&
  nonempty (per_ProviderThreadID value) && nonempty (per_ProviderTurnID value) &&
  nonempty (per_ProviderRequestID value) &&
  member ["command"; "file"; "network"; "permission"; "tool"] (per_InteractionKind value) &&
  json_object (per_Scope value) && validSourceHash (per_ScopeDigest value) &&
  validSourceHash (per_PolicyDigest value) && json_object (per_Evidence value) &&
  match per_Decision value with
  | Some decision => member ["allow_once"; "deny"; "cancel"] (ppd_Decision decision) &&
                     person_or_external (ppd_Actor decision)
  | None => true
  end &&
  match per_Receipt value with
  | Some receipt => bool_decide (ppr_ProviderRequestID receipt = per_ProviderRequestID value)
  | None => true
  end &&
  settled_columns (ProviderPermissionPending, ProviderPermissionDecisionRecorded, ProviderPermissionResponded)
    (per_Status value) (per_Decision value) (per_Receipt value) &&
  positive (per_ResourceVersion value) && storable (per_LastGlobalPosition value).
Definition permissions `{!SqliteJson} : Table ProviderPermissionProjection := {|
  tbl_name := "provider permission"; tbl_rows := t_permissions;
  tbl_with m t := {| t_projects := t_projects t; t_works := t_works t; t_stories := t_stories t;
    t_points := t_points t; t_dependencies := t_dependencies t; t_runs := t_runs t;
    t_nodes := t_nodes t; t_attempts := t_attempts t; t_approvals := t_approvals t;
    t_assessments := t_assessments t; t_inputs := t_inputs t; t_permissions := m |};
  tbl_id := per_PermissionRequestID;
  tbl_times value := [per_CreatedAt value; per_UpdatedAt value] ++
    match per_Decision value with Some decision => [ppd_RecordedAt decision] | None => [] end ++
    match per_Receipt value with Some receipt => [ppr_DeliveredAt receipt] | None => [] end;
  tbl_row value := value;
  tbl_update old value := {|
    per_PermissionRequestID := per_PermissionRequestID old; per_RunID := per_RunID old;
    per_AttemptID := per_AttemptID old; per_NodeID := per_NodeID old;
    per_ProviderThreadID := per_ProviderThreadID old; per_ProviderTurnID := per_ProviderTurnID old;
    per_ProviderRequestID := per_ProviderRequestID old;
    per_InteractionKind := per_InteractionKind old; per_Scope := per_Scope old;
    per_ScopeDigest := per_ScopeDigest old; per_PolicyDigest := per_PolicyDigest old;
    per_Evidence := per_Evidence old; per_Status := per_Status value;
    per_Decision := per_Decision value; per_Receipt := per_Receipt value;
    per_ResourceVersion := per_ResourceVersion value;
    per_LastGlobalPosition := per_LastGlobalPosition value; per_CreatedAt := per_CreatedAt old;
    per_UpdatedAt := per_UpdatedAt value |};
  tbl_check := permission_row_ok;
  (* UNIQUE (attempt_id, provider_request_id) *)
  tbl_admits t value :=
    negb (existsb (λ kv, bool_decide (per_AttemptID kv.2 = per_AttemptID value ∧
                                      per_ProviderRequestID kv.2 = per_ProviderRequestID value))
            (map_to_list (t_permissions t))) |}.

(** * Stores: how [applyProjection] reads and writes one kind of projection *)
Record Store (P : Type) := {
  st_id : P → string;
  st_read : Tables → string → store_result (option P);
  st_write : P → Tables → store_result Tables;
}.
Arguments st_id {P} _ _.
Arguments st_read {P} _ _ _.
Arguments st_write {P} _ _ _.
Definition table_store {P} (T : Table P) : Store P := {|
  st_id := tbl_id T; st_read := read_row T; st_write := write_row T |}.
Definition point_store : Store PointProjection := {|
  st_id := pt_PointID; st_read := readPointProjection; st_write := writePointProjection |}.

(** * What a write leaves *)
Lemma write_row_inv {P} (T : Table P) value t t' :
  write_row T value t = Ok t' →
  ∃ r, t' = tbl_with T (<[tbl_id T value := r]> (tbl_rows T t)) t ∧ tbl_check T r = true ∧
    match tbl_rows T t !! tbl_id T value with
    | None => r = tbl_row T value ∧ tbl_admits T t r = true
    | Some old => r = tbl_update T old (tbl_row T value)
    end.
Proof.
  unfold write_row. destruct (negb _) eqn:Hc; [done|]. apply negb_false_iff in Hc.
  destruct (tbl_rows T t !! _) as [old|].
  - destruct (tbl_check T (tbl_update T old _)) eqn:Hu; [|done]. intros [= <-]. by eexists.
  - destruct (tbl_admits _ _ _) eqn:Ha; [|done]. rewrite Hc. intros [= <-]. by eexists.
Qed.
Lemma add_dependency_inv value t dependency t' :
  add_dependency value t dependency = Ok t' → ∃ m, t' = with_dependencies m t.
Proof.
  unfold add_dependency. destruct (t_points t !! dependency); [|done]. case_decide; [done|].
  destruct (_ || _); [done|]. intros [= <-]. by eexists.
Qed.
Lemma add_dependencies_inv value dependencies t t' :
  foldM (add_dependency value) t dependencies = Ok t' → ∃ m, t' = with_dependencies m t.
Proof.
  revert t. induction dependencies as [|d l IH]; intros t.
  - intros [= <-]. exists (t_dependencies t). by destruct t.
  - cbn [foldM]. intros (t1 & (m1 & ->)%add_dependency_inv & (m & ->)%IH)%result_bind_Ok. by exists m.
Qed.
Lemma write_point_inv value t t' :
  writePointProjection value t = Ok t' → ∃ t1 m, write_row points value t = Ok t1 ∧ t' = with_dependencies m t1.
Proof.
  unfold writePointProjection. intros (t1 & Hw & (m & ->)%add_dependencies_inv)%result_bind_Ok. by exists t1, m.
Qed.
