(* ===== verification/EventStore.v ===== *)
(** The event log of the sqlite state store: [Append], [RebuildProjections] and the event
    queries of [adapters/statestore/sqlite/events.go], with the ticket gate of
    [source_runs.go].

    A transaction is a function of the database that answers an error or the whole next
    database, so that an error leaves it as it was. *)
From S2P Require Import Prelude GoStrings GoUnicode GoJson GoDecode GoEncode StateStore GoTime Reducer WorkReducer Interaction InteractionReducer StoreTables.
From stdpp Require Import options.

Definition refuse_store {A} (message : string) : store_result A := Err (StoreRefused (text message)).

(** * Pending events *)
Definition aggregateTypes : list (AggregateType * string) :=
  (λ type, (type, type +:+ "_")) <$>
  [AggregateProject; AggregateWork; AggregateStory; AggregatePoint; AggregateRun; AggregateVisit;
   AggregateAttempt; AggregateArtifact; AggregateApproval; AggregateOperation; AggregateAssessment;
   AggregateInput; AggregatePermission].

(** [[0-9A-HJKMNP-TV-Z]], the letters of Crockford's base 32. *)
Definition crockford (c : ascii) : bool :=
  is_digit c || in_range 65 72 c || in_range 74 75 c || in_range 77 78 c || in_range 80 84 c || in_range 86 90 c.
Definition idPayloadPattern (s : string) : bool := (str_length s =? 26)%nat && str_forall crockford s.
Definition eventIDPattern (s : string) : bool :=
  HasPrefix s "event_" && idPayloadPattern (TrimPrefix s "event_").
(** Two or more parts between dots, each a lower-case letter and then lower-case letters, digits
    and underscores. *)
Definition kindPattern (s : string) : bool :=
  let parts := Split s "." in
  (2 <=? length parts)%nat &&
  forallb (λ part, match part with
                   | EmptyString => false
                   | String c rest =>
                       is_lower c && str_forall (λ d, is_lower d || is_digit d || bool_decide (d = "_"%char)) rest
                   end) parts.
Definition jsonObject (value : RawMessage) : bool :=
  match Unmarshal value with Some (JObject _) => true | _ => false end.

(** sqlite agreeing with Go about JSON, for the examples. *)
Definition ex_sqlite : SqliteJson := {| json_valid := Valid; json_object := jsonObject |}.

Definition invalid_event {A} (format : string) (args : list msg_arg) : store_result A :=
  Err (StoreInvalid (Msg format args)).
(** The [aggregateTypes] entry of a type. *)
Definition type_prefix (type : AggregateType) : option string :=
  snd <$> List.find (λ entry, bool_decide (entry.1 = type)) aggregateTypes.
Definition aggregate_id_ok (event : PendingEvent) : bool :=
  match type_prefix (pe_AggregateType event) with
  | Some prefix => HasPrefix (pe_AggregateID event) prefix &&
                   idPayloadPattern (TrimPrefix (pe_AggregateID event) prefix)
  | None => false
  end.
Definition too_long (s : string) : bool := (128 <? str_length s)%nat.
Definition validatePendingEvent (event : PendingEvent) : store_result unit :=
  if decide (pe_SchemaVersion event ≠ 1%Z) then
    invalid_event "unsupported schema version %d" [AInt (pe_SchemaVersion event)]
  else if negb (eventIDPattern (pe_ID event)) then invalid_event "invalid event ID %q" [AStr (pe_ID event)]
  else if negb (aggregate_id_ok event) then
    invalid_event "aggregate ID %q does not match type %q" [AStr (pe_AggregateID event); AStr (pe_AggregateType event)]
  else if negb (kindPattern (pe_Kind event)) then invalid_event "invalid event kind %q" [AStr (pe_Kind event)]
  else if decide (pe_OccurredAt event = zero_time) then invalid_event "occurred time is required" []
  else if decide (pe_CorrelationID event = "" ∨ pe_CommandID event = "" ∨ actor_ID (pe_Actor event) = "") then
    invalid_event "correlation ID, command ID, and actor ID are required" []
  else if too_long (pe_CorrelationID event) || too_long (pe_CommandID event) ||
          too_long (actor_ID (pe_Actor event)) ||
          match pe_CausationID event with Some id => too_long id | None => false end then
    invalid_event "correlation ID, causation ID, command ID, and actor ID must be at most 128 bytes" []
  else if negb (member [ActorUser; ActorSystem; ActorProvider; ActorExternal] (actor_Type (pe_Actor event))) then
    invalid_event "invalid actor type %q" [AStr (actor_Type (pe_Actor event))]
  else if negb (jsonObject (pe_Data event)) then invalid_event "event data must be a JSON object" []
  else if negb (jsonObject (pe_Metadata event)) then invalid_event "event metadata must be a JSON object" []
  else Ok tt.

(** * Rows of the log *)

(** [json.Marshal] and [json.Unmarshal] of an actor. *)
Definition encode_actor (actor : Actor) : RawMessage :=
  encode_struct [("type", Some (encode_string (actor_Type actor))); ("id", Some (encode_string (actor_ID actor)))].
Definition decode_actor (raw : RawMessage) : option Actor :=
  env ← Unmarshal_struct [string_field "type"; string_field "id"] raw;
  Some {| actor_Type := get_string env "type"; actor_ID := get_string env "id" |}.

(** A row of [events] has no aggregate type: it is the prefix of the aggregate's identifier.
    [actor_json] is the text of the actor. *)
Record EventRow := {
  er_GlobalPosition : Z; er_ID : string; er_SchemaVersion : Z; er_AggregateID : string;
  er_AggregateRevision : Z; er_Kind : string; er_OccurredAt : Time; er_RecordedAt : Time;
  er_CorrelationID : string; er_CausationID : option string; er_CommandID : string;
  er_ActorJSON : RawMessage; er_Data : RawMessage; er_Metadata : RawMessage;
}.
Definition event_row (event : Event) : EventRow := {|
  er_GlobalPosition := ev_GlobalPosition event; er_ID := ev_ID event;
  er_SchemaVersion := ev_SchemaVersion event; er_AggregateID := ev_AggregateID event;
  er_AggregateRevision := ev_AggregateRevision event; er_Kind := ev_Kind event;
  er_OccurredAt := ev_OccurredAt event; er_RecordedAt := ev_RecordedAt event;
  er_CorrelationID := ev_CorrelationID event; er_CausationID := ev_CausationID event;
  er_CommandID := ev_CommandID event; er_ActorJSON := encode_actor (ev_Actor event); er_Data := ev_Data event;
  er_Metadata := ev_Metadata event |}.
(** What stands before the first underscore. *)
Definition prefix_of (id : string) : option string :=
  match Split id "_" with
  | prefix :: _ :: _ => if decide (prefix = "") then None else Some prefix
  | _ => None
  end.
Definition scan_event (row : EventRow) : store_result Event :=
  match prefix_of (er_AggregateID row) with
  | None => invalid_event "event %s has invalid aggregate ID %q" [AStr (er_ID row); AStr (er_AggregateID row)]
  | Some type =>
      if negb (parses_back (er_OccurredAt row) && parses_back (er_RecordedAt row))
      then Err (StoreUnreadable "event")
      else match decode_actor (er_ActorJSON row) with
      | None => Err (StoreUnreadable "event actor")
      | Some actor => Ok {|
        ev_SchemaVersion := er_SchemaVersion row; ev_ID := er_ID row;
        ev_GlobalPosition := er_GlobalPosition row; ev_AggregateType := type;
        ev_AggregateID := er_AggregateID row; ev_AggregateRevision := er_AggregateRevision row;
        ev_Kind := er_Kind row; ev_OccurredAt := er_OccurredAt row; ev_RecordedAt := er_RecordedAt row;
        ev_CorrelationID := er_CorrelationID row; ev_CausationID := er_CausationID row;
        ev_CommandID := er_CommandID row; ev_Actor := actor; ev_Data := er_Data row;
        ev_Metadata := er_Metadata row |}
      end
  end.
Fixpoint scanEvents (rows : list EventRow) : store_result (list Event) :=
  match rows with
  | [] => Ok []
  | row :: rows =>
      let? event := scan_event row in
      let? events := scanEvents rows in
      Ok (event :: events)
  end.

(** * Applying an event to the projections *)
Section apply.
Context `{!SqliteJson, !UnicodeLower}.

(** The event kinds that resume or prolong work are refused while its work item is deleted. *)
Definition requireRetainedWork (t : Tables) (id : string) : store_result unit :=
  let? work := read_row works t id in
  match work with
  | None => Ok tt
  | Some work => if decide (wit_Deletion work ≠ WorkRetained) then refuse_store "work item is being deleted"
                 else Ok tt
  end.
(** The same for the work item of a run, if the run is known. *)
Definition requireRetainedRun (t : Tables) (runID : string) : store_result unit :=
  let? run := read_row runs t runID in
  match run with
  | None => Ok tt
  | Some run => requireRetainedWork t (run_WorkItemID run)
  end.
Definition require_row {P} (T : Table P) (t : Tables) (id : string) : store_result P :=
  let? row := read_row T t id in
  match row with Some row => Ok row | None => Err (NoRows (tbl_name T) id) end.

Definition interaction_run (t : Tables) (event : Event) : store_result string :=
  let id := ev_AggregateID event in
  if decide (ev_Kind event = "input.answer_recorded") then
    let? value := require_row inputs t id in Ok (inp_RunID value)
  else if decide (ev_Kind event = "permission.decision_recorded") then
    let? value := require_row permissions t id in Ok (per_RunID value)
  else if decide (ev_Kind event = "approval.decided") then
    let? value := require_row approvals t id in Ok (app_RunID value)
  else Ok "".
Definition check_interaction (t : Tables) (event : Event) : store_result unit :=
  let? run := interaction_run t event in
  if decide (run = "") then Ok tt else requireRetainedRun t run.

Definition attempt_run (t : Tables) (event : Event) : store_result string :=
  if decide (ev_Kind event = "attempt.created") then
    match Unmarshal_struct [string_field "runId"] (ev_Data event) with
    | Some data => Ok (get_string data "runId")
    | None => Err (StoreUnreadable "event data")
    end
  else
    let? attempt := require_row attempts t (ev_AggregateID event) in Ok (att_RunID attempt).
Definition attempt_guarded : list string :=
  ["attempt.created"; "attempt.resources_acquired"; "attempt.started"; "attempt.resumed"].
Definition check_attempt (t : Tables) (event : Event) : store_result unit :=
  if decide (ev_Kind event ∈ attempt_guarded) then
    let? run := attempt_run t event in requireRetainedRun t run
  else Ok tt.

(** The runs of a work item that are not over, and its attempts that are not settled. *)
Definition unfinished_runs (t : Tables) (work : string) : list (string * RunProjection) :=
  filter (λ kv, run_WorkItemID kv.2 = work ∧ run_Status kv.2 ∉ [RunCompleted; RunCancelled])
    (map_to_list (t_runs t)).
Definition active_attempt : list AttemptStatus :=
  [AttemptCreated; AttemptStarting; AttemptRunning; AttemptValidating; AttemptReconcileRequired].
Definition active_attempts (t : Tables) (work : string) : list (string * AttemptProjection) :=
  filter (λ kv, (run_WorkItemID <$> t_runs t !! att_RunID kv.2) = Some work ∧
                att_Status kv.2 ∈ active_attempt)
    (map_to_list (t_attempts t)).
Definition check_deleted (t : Tables) (event : Event) : store_result unit :=
  if decide (ev_Kind event = "work.deleted") then
    if decide (unfinished_runs t (ev_AggregateID event) ≠ [])
    then refuse_store "cannot delete work with unfinished runs"
    else if decide (active_attempts t (ev_AggregateID event) ≠ [])
    then refuse_store "cannot delete work with unreconciled attempts"
    else Ok tt
  else Ok tt.

(** Read the current projection, reduce, write the next one. *)
Definition project_event {P} (S : Store P) (reducer : option P → Event → reduction P)
    (allow : P → Tables → store_result unit) (t : Tables) (event : Event) : store_result Tables :=
  let? existing := st_read S t (ev_AggregateID event) in
  match reducer existing event with
  | Ignored => Ok t
  | Failed _ e => Err (ReduceError e)
  | Reduced next => let? _ := allow next t in st_write S next t
  end.
Definition admit_all {P} (_ : P) (_ : Tables) : store_result unit := Ok tt.
Definition run_guarded : list string :=
  ["run.created"; "run.route_frozen"; "run.started"; "run.resumed"; "run.retried"; "run.continued";
   "run.visit_ready"].
Definition admit_run (event : Event) (next : RunProjection) (t : Tables) : store_result unit :=
  if decide (ev_Kind event ∈ run_guarded) then requireRetainedWork t (run_WorkItemID next) else Ok tt.

Definition project_by_type (t : Tables) (event : Event) : store_result Tables :=
  switch (ev_AggregateType event) [
    (AggregateProject, λ _, project_event (table_store projects) ReduceProject admit_all t event);
    (AggregateWork, λ _, project_event (table_store works) ReduceWorkItem admit_all t event);
    (AggregateStory, λ _, project_event (table_store stories) ReduceStory admit_all t event);
    (AggregatePoint, λ _, project_event point_store ReducePoint admit_all t event);
    (AggregateRun, λ _, project_event (table_store runs) ReduceRun (admit_run event) t event);
    (AggregateVisit, λ _, project_event (table_store nodes) ReduceNode admit_all t event);
    (AggregateAttempt, λ _, project_event (table_store attempts) ReduceAttempt admit_all t event);
    (AggregateApproval, λ _, project_event (table_store approvals) ReduceApproval admit_all t event);
    (AggregateAssessment, λ _, project_event (table_store assessments) ReduceReadinessAssessment admit_all t event);
    (AggregateInput, λ _, project_event (table_store inputs) ReduceInputRequest admit_all t event);
    (AggregatePermission, λ _, project_event (table_store permissions) ReduceProviderPermission admit_all t event)]
    (Ok t).
Definition applyProjection (t : Tables) (event : Event) : store_result Tables :=
  let? _ := check_interaction t event in
  let? _ := check_attempt t event in
  let? _ := check_deleted t event in
  if decide (ev_SchemaVersion event ≠ 1%Z) then
    Err (ReduceError (UnsupportedSchemaVersion (ev_ID event) (ev_SchemaVersion event)))
  else project_by_type t event.

(** Case analysis on the aggregate type of an event. *)
Lemma project_by_type_ind (Q : store_result Tables → Prop) t event :
  (ev_AggregateType event = AggregateProject → Q (project_event (table_store projects) ReduceProject admit_all t event)) →
  (ev_AggregateType event = AggregateWork → Q (project_event (table_store works) ReduceWorkItem admit_all t event)) →
  (ev_AggregateType event = AggregateStory → Q (project_event (table_store stories) ReduceStory admit_all t event)) →
  (ev_AggregateType event = AggregatePoint → Q (project_event point_store ReducePoint admit_all t event)) →
  (ev_AggregateType event = AggregateRun → Q (project_event (table_store runs) ReduceRun (admit_run event) t event)) →
  (ev_AggregateType event = AggregateVisit → Q (project_event (table_store nodes) ReduceNode admit_all t event)) →
  (ev_AggregateType event = AggregateAttempt → Q (project_event (table_store attempts) ReduceAttempt admit_all t event)) →
  (ev_AggregateType event = AggregateApproval → Q (project_event (table_store approvals) ReduceApproval admit_all t event)) →
  (ev_AggregateType event = AggregateAssessment →
    Q (project_event (table_store assessments) ReduceReadinessAssessment admit_all t event)) →
  (ev_AggregateType event = AggregateInput → Q (project_event (table_store inputs) ReduceInputRequest admit_all t event)) →
  (ev_AggregateType event = AggregatePermission →
    Q (project_event (table_store permissions) ReduceProviderPermission admit_all t event)) →
  (ev_AggregateType event ∉ [AggregateProject; AggregateWork; AggregateStory; AggregatePoint; AggregateRun;
     AggregateVisit; AggregateAttempt; AggregateApproval; AggregateAssessment; AggregateInput;
     AggregatePermission] → Q (Ok t)) →
  Q (project_by_type t event).
Proof.
  intros. unfold project_by_type. cbn [switch]. repeat (case_decide; [by auto|]).
  match goal with Hq : _ ∉ _ → _ |- _ => apply Hq end. rewrite !elem_of_cons, elem_of_nil. tauto.
Qed.
End apply.

(** * The ticket gate *)
Record RunSourceSnapshot := {
  rss_RunID : string; rss_WorkID : string; rss_AdmissionID : string; rss_ObservationID : string;
  rss_LineageRevision : Z; rss_PinDigest : string; rss_CapturedAt : Time;
}.
Record WorkLineage := { wl_Revision : Z; wl_LegacyNative : bool }.
(** What the ticket source tables answer ([ticket_execution.go] and [backlog.go]): a work item's
    lineage, its admissions, unsettled operations of the outbox, the approved snapshot of an
    observation, and the insertion of a run's snapshot. *)
Class TicketSource := {
  source_state : Type;
  workLineage : source_state → string → store_result (option WorkLineage);
  admissions : source_state → string → Z → Z;
  outbox_settled : source_state → Tables → string → string → bool;
  approvedRunSource : source_state → string → string → Time → store_result RunSourceSnapshot;
  persistRunSourceSnapshot : source_state → RunSourceSnapshot → store_result source_state;
}.

Section source.
Context `{!SqliteJson, !TicketSource}.

Definition source_refuse {A} (reason : string) : store_result A := Err (SourceRefused reason).
(** Nothing of the work item but the named run is under way. *)
Definition sourceWorkSettled (s : source_state) (t : Tables) (work excludingRun : string)
  : store_result unit :=
  if decide (filter (λ kv, kv.1 ≠ excludingRun) (unfinished_runs t work) ≠ []) then
    source_refuse "another run retains source execution ownership; settle or cancel it explicitly"
  else if decide (filter (λ kv, (run_WorkItemID <$> t_runs t !! att_RunID kv.2) = Some work ∧
                    att_RunID kv.2 ≠ excludingRun ∧
                    att_Status kv.2 ∉ [AttemptSucceeded; AttemptFailed; AttemptCancelled])
                    (map_to_list (t_attempts t)) ≠ []) then
    source_refuse "a source execution attempt remains live or requires reconciliation"
  else if negb (outbox_settled s t work excludingRun) then
    source_refuse "old source operations require settlement or reconciliation"
  else Ok tt.

Definition source_work (t : Tables) (event : PendingEvent) : store_result string :=
  if decide (pe_Kind event = "run.created") then
    match Unmarshal_struct [string_field "workItemId"] (pe_Data event) with
    | Some data => Ok (get_string data "workItemId")
    | None => Err (StoreUnreadable "event data")
    end
  else match t_runs t !! pe_AggregateID event with
       | Some run => Ok (run_WorkItemID run)
       | None => Err (NoRows "run" (pe_AggregateID event))
       end.
(** The snapshot a new source-backed run is bound to. *)
Definition run_source (now : Time) (s : source_state) (event : PendingEvent) (work : string)
  : store_result RunSourceSnapshot :=
  let metadata := Unmarshal_struct [string_field "sourceObservationId"; string_field "sourceAdmissionId";
    uint64_field "sourceLineageRevision"; string_field "sourcePinDigest"] (pe_Metadata event) in
  match metadata with
  | Some metadata =>
      let observation := get_string metadata "sourceObservationId" in
      if decide (observation = "") then
        source_refuse "source-backed run requires an explicit approved source observation"
      else
        let? snapshot := approvedRunSource s work observation now in
        let admission := get_string metadata "sourceAdmissionId" in
        let revision := get_int metadata "sourceLineageRevision" in
        if decide ((admission ≠ "" ∧ admission ≠ rss_AdmissionID snapshot) ∨
                   (revision ≠ 0%Z ∧ revision ≠ rss_LineageRevision snapshot)) then
          source_refuse "source approval or lineage changed during run preparation"
        else if decide (get_string metadata "sourcePinDigest" ≠ rss_PinDigest snapshot) then
          source_refuse "source configuration changed during run preparation"
        else Ok {|
          rss_RunID := pe_AggregateID event; rss_WorkID := rss_WorkID snapshot;
          rss_AdmissionID := rss_AdmissionID snapshot; rss_ObservationID := rss_ObservationID snapshot;
          rss_LineageRevision := rss_LineageRevision snapshot; rss_PinDigest := rss_PinDigest snapshot;
          rss_CapturedAt := now |}
  | None => source_refuse "source-backed run requires an explicit approved source observation"
  end.
Definition source_kinds : list string :=
  ["run.created"; "run.started"; "run.retried"; "run.resumed"; "run.continued"].
Definition prepareTicketExecutionEvent (now : Time) (s : source_state) (t : Tables)
    (event : PendingEvent) : store_result (option RunSourceSnapshot) :=
  if decide (pe_Kind event ∉ source_kinds) then Ok None
  else
    let? work := source_work t event in
    let? lineage := workLineage s work in
    match lineage with
    | None => Ok None
    | Some lineage =>
        if wl_LegacyNative lineage && bool_decide (admissions s work (wl_Revision lineage) = 0%Z)
        then Ok None
        else
          let? _ := sourceWorkSettled s t work (pe_AggregateID event) in
          if decide (pe_Kind event ≠ "run.created") then Ok None
          else let? snapshot := run_source now s event work in Ok (Some snapshot)
    end.
End source.

(** * The database *)
Record Database `{!TicketSource} := {
  db_last_position : Z;
  db_aggregates : gmap string (AggregateType * Z);
  db_events : list EventRow;  (* in the order of insertion *)
  db_tables : Tables;
  db_checkpoint : option Z;   (* of [current_state] *)
  db_manifests : gset string; (* [context_manifests.attempt_id] *)
  db_source : source_state;
}.

Section log.
Context `{!SqliteJson, !UnicodeLower, !TicketSource}.
Implicit Types db : Database.

Definition with_log (position : Z) (aggregates : gmap string (AggregateType * Z)) (events : list EventRow)
    (t : Tables) db : Database := {|
  db_last_position := position; db_aggregates := aggregates; db_events := events; db_tables := t;
  db_checkpoint := db_checkpoint db; db_manifests := db_manifests db; db_source := db_source db |}.
Definition with_source (s : source_state) db : Database := {|
  db_last_position := db_last_position db; db_aggregates := db_aggregates db;
  db_events := db_events db; db_tables := db_tables db; db_checkpoint := db_checkpoint db;
  db_manifests := db_manifests db; db_source := s |}.
Definition with_checkpoint (position : Z) db : Database := {|
  db_last_position := db_last_position db; db_aggregates := db_aggregates db;
  db_events := db_events db; db_tables := db_tables db; db_checkpoint := Some position;
  db_manifests := db_manifests db; db_source := db_source db |}.

Definition readEventByCommand db (aggregateID commandID : string) : store_result (option Event) :=
  let? events := scanEvents (filter (λ row, er_AggregateID row = aggregateID ∧ er_CommandID row = commandID)
                               (db_events db)) in
  Ok (head events).
(** [sameOptionalString] is equality of options. *)
Definition sameTransitionCommand (committed : Event) (pending : PendingEvent) : bool :=
  bool_decide (ev_SchemaVersion committed = pe_SchemaVersion pending) &&
  bool_decide (ev_AggregateType committed = pe_AggregateType pending) &&
  bool_decide (ev_AggregateID committed = pe_AggregateID pending) &&
  bool_decide (ev_AggregateRevision committed = uint64 (pe_ExpectedRevision pending + 1)) &&
  bool_decide (ev_Kind committed = pe_Kind pending) &&
  bool_decide (ev_CorrelationID committed = pe_CorrelationID pending) &&
  bool_decide (ev_CausationID committed = pe_CausationID pending) &&
  bool_decide (ev_CommandID committed = pe_CommandID pending) &&
  bool_decide (ev_Actor committed = pe_Actor pending) &&
  bool_decide (ev_Data committed = pe_Data pending) &&
  bool_decide (ev_Metadata committed = pe_Metadata pending).

Definition readAggregateRevision db (id : string) (wantType : AggregateType) : store_result (Z * bool) :=
  match db_aggregates db !! id with
  | None => Ok (0%Z, false)
  | Some (gotType, revision) =>
      if decide (gotType ≠ wantType) then Err (AggregateTypeMismatch id gotType wantType)
      else Ok (revision, true)
  end.

(** The constraints of a new row of [events], beside its reference to [aggregates]: the position
    and the identifier are new, and so are the revision and the command in their aggregate. *)
Definition event_row_ok db (row : EventRow) : bool :=
  positive (er_GlobalPosition row) && positive (er_SchemaVersion row) &&
  positive (er_AggregateRevision row) && json_valid (er_ActorJSON row) && json_valid (er_Data row) && json_valid (er_Metadata row) &&
  forallb (λ old,
    bool_decide (er_GlobalPosition old ≠ er_GlobalPosition row ∧ er_ID old ≠ er_ID row ∧
                 ¬ (er_AggregateID old = er_AggregateID row ∧
                    (er_AggregateRevision old = er_AggregateRevision row ∨
                     er_CommandID old = er_CommandID row)))) (db_events db).
Definition insertEvent db (event : Event) : store_result (list EventRow) :=
  let row := event_row event in
  if event_row_ok db row then Ok (db_events db ++ [row]) else Err (StoreConstraint "events").

Definition new_event (now : Time) (position : Z) (item : PendingEvent) : Event := {|
  ev_SchemaVersion := pe_SchemaVersion item; ev_ID := pe_ID item; ev_GlobalPosition := position;
  ev_AggregateType := pe_AggregateType item; ev_AggregateID := pe_AggregateID item;
  ev_AggregateRevision := uint64 (pe_ExpectedRevision item + 1); ev_Kind := pe_Kind item;
  ev_OccurredAt := pe_OccurredAt item; ev_RecordedAt := now;
  ev_CorrelationID := pe_CorrelationID item; ev_CausationID := pe_CausationID item;
  ev_CommandID := pe_CommandID item; ev_Actor := pe_Actor item; ev_Data := pe_Data item;
  ev_Metadata := pe_Metadata item |}.

(** One new event: the next revision of its aggregate at the next position.  A new aggregate
    has revision 0, so that the expected revision of its first event is 0 as well. *)
Definition append_new (now : Time) (db : Database) (last : Z) (item : PendingEvent)
  : store_result (Database * Z * Event) :=
  let id := pe_AggregateID item in
  let? snapshot := prepareTicketExecutionEvent now (db_source db) (db_tables db) item in
  let? current := readAggregateRevision db id (pe_AggregateType item) in
  if decide (current.1 ≠ pe_ExpectedRevision item) then
    Err (RevisionConflict id (pe_ExpectedRevision item) current.1)
  else
    let last := uint64 (last + 1) in
    let event := new_event now last item in
    let? events := insertEvent db event in
    let? t := applyProjection (db_tables db) event in
    let db := with_log (db_last_position db)
      (<[id := (pe_AggregateType item, ev_AggregateRevision event)]> (db_aggregates db)) events t db in
    match snapshot with
    | None => Ok (db, last, event)
    | Some snapshot => let? s := persistRunSourceSnapshot (db_source db) snapshot in
                       Ok (with_source s db, last, event)
    end.

(** The loop of [appendInTransaction]: a command that was committed before returns its event. *)
Definition append_item (now : Time) (state : Database * Z * list Event) (item : PendingEvent)
  : store_result (Database * Z * list Event) :=
  let '(db, last, committed) := state in
  let? existing := readEventByCommand db (pe_AggregateID item) (pe_CommandID item) in
  match existing with
  | Some event =>
      if sameTransitionCommand event item then Ok (db, last, committed ++ [event])
      else Err (IdempotencyConflict (pe_AggregateID item) (pe_CommandID item))
  | None =>
      let? added := append_new now db last item in
      let '(db, last, event) := added in
      Ok (db, last, committed ++ [event])
  end.
Definition validate_each (pending : list PendingEvent) : store_result unit :=
  foldM (λ _ item, validatePendingEvent item) tt pending.
Definition appendInTransaction (now : Time) db (pending : list PendingEvent)
  : store_result (Database * list Event) :=
  let? _ := validate_each pending in
  let? state := foldM (append_item now) (db, db_last_position db, []) pending in
  let '(db, last, committed) := state in
  if negb (storable last) then Err (StoreConstraint "global_positions")
  else Ok (with_checkpoint last (with_log last (db_aggregates db) (db_events db) (db_tables db) db), committed).

(** A failed transaction is rolled back. *)
Definition Append (now : Time) db (pending : list PendingEvent) : Database * store_result (list Event) :=
  match pending with
  | [] => (db, invalid_event "append requires at least one event" [])
  | _ =>
      match (let? _ := validate_each pending in appendInTransaction now db pending) with
      | Ok (after, committed) => (after, Ok committed)
      | Err e => (db, Err e)
      end
  end.
End log.

(** * Rebuilding, manifests, queries *)
Section queries.
Context `{!SqliteJson, !UnicodeLower, !TicketSource}.
Implicit Types db : Database.

(** [DELETE FROM] every projection table, children first.  A row of [context_manifests] refers to
    its attempt (migration 0012), with foreign keys on and checked at once. *)
Definition clear_projections db : store_result Tables :=
  if decide (db_manifests db ∩ dom (t_attempts (db_tables db)) = ∅) then Ok empty_tables
  else Err (StoreConstraint "attempt_projection").
Definition rebuild db : store_result Database :=
  let? events := scanEvents (db_events db) in
  let? t := clear_projections db in
  let? t := foldM applyProjection t events in
  let position := match last events with Some event => ev_GlobalPosition event | None => 0%Z end in
  Ok (with_checkpoint position
        (with_log (db_last_position db) (db_aggregates db) (db_events db) t db)).
Definition RebuildProjections db : Database * store_result unit :=
  match rebuild db with Ok after => (after, Ok tt) | Err e => (db, Err e) end.

(** The insertion of [StoreManifest] (context_manifests.go): one manifest for an attempt of the run and node it
    names, never updated or deleted. *)
Definition insert_manifest db (runID nodeID attemptID : string) : store_result Database :=
  match t_attempts (db_tables db) !! attemptID with
  | Some attempt =>
      if decide (att_RunID attempt = runID ∧ att_NodeID attempt = nodeID ∧ attemptID ∉ db_manifests db ∧
                 runID ≠ "" ∧ nodeID ≠ "")
      then Ok {|
        db_last_position := db_last_position db; db_aggregates := db_aggregates db;
        db_events := db_events db; db_tables := db_tables db; db_checkpoint := db_checkpoint db;
        db_manifests := {[attemptID]} ∪ db_manifests db; db_source := db_source db |}
      else Err (StoreConstraint "context_manifests")
  | None => Err (StoreConstraint "context_manifests")
  end.

(** Pages of the log. *)
Definition limit_ok (limit : Z) : bool := (1 <=? limit)%Z && (limit <=? 1000)%Z.
Definition after_position (position : Z) (row : EventRow) : bool := (position <? er_GlobalPosition row)%Z.
Definition of_run (id : string) (row : EventRow) : bool :=
  bool_decide (er_CorrelationID row = id ∨ er_AggregateID row = id).
Definition EventsAfter db (position limit : Z) : store_result (list Event) :=
  if negb (limit_ok limit) then
    invalid_event "event limit must be between 1 and 1000: %d" [AInt limit]
  else scanEvents (take (Z.to_nat limit) (filter (λ row, after_position position row = true) (db_events db))).
Definition RunEventsAfter db (runID : string) (position limit : Z) : store_result (list Event) :=
  if negb (limit_ok limit) then invalid_event "event limit must be between 1 and 1000" []
  else scanEvents (take (Z.to_nat limit)
         (filter (λ row, of_run runID row = true ∧ after_position position row = true) (db_events db))).
Definition EventBounds db : Z * Z :=
  let positions := er_GlobalPosition <$> db_events db in
  match positions with
  | [] => (0%Z, 0%Z)
  | p :: ps => (foldr Z.min p ps, foldr Z.max p ps)
  end.
Definition EventByCommand db (aggregateID commandID : string) : store_result Event :=
  let? event := readEventByCommand db aggregateID commandID in
  match event with
  | Some event => Ok event
  | None => Err (NoRows "aggregate command" (aggregateID +:+ "/" +:+ commandID))
  end.
(** [ORDER BY aggregate_revision]. *)
Definition revision_le (a b : EventRow) : Prop := (er_AggregateRevision a ≤ er_AggregateRevision b)%Z.
#[global] Instance revision_le_dec a b : Decision (revision_le a b).
Proof. unfold revision_le. apply _. Defined.
Definition EventsForAggregate db (aggregateID : string) : store_result (list Event) :=
  let? events := scanEvents (merge_sort revision_le
    (filter (λ row, er_AggregateID row = aggregateID) (db_events db))) in
  match events with
  | [] => Err (NoRows "aggregate events" aggregateID)
  | _ => Ok events
  end.
End queries.
