(* ===== verification/EventLog.v ===== *)
(** What every sequence of transactions keeps of the event log: consecutive positions and
    revisions, unique commands, and projections that are the replay of the log. *)
From S2P Require Import Prelude GoStrings GoUnicode GoJson GoEncode GoDecode JsonText JsonCut RawTexts StructText StateStore GoTime Reducer Interaction StoreTables EventStore.
From stdpp Require Import options.

(** * Aggregate identifiers *)
Lemma split_from_app sep cur a s :
  str_forall (λ c, negb (bool_decide (c = sep))) a = true →
  split_from sep cur (a +:+ String sep s) = str_rev (str_rev_app a cur) :: split_from sep "" s.
Proof.
  revert cur. induction a as [|c a IH]; intros cur; simpl.
  - intros _. by rewrite decide_True.
  - intros [Hc Ha]%andb_prop. rewrite decide_False by (by apply negb_true_iff, bool_decide_eq_false_1 in Hc).
    by apply IH.
Qed.

Lemma strip_prefix_app p s rest : strip_prefix p s = Some rest → s = p +:+ rest.
Proof.
  revert s. induction p as [|c p IH]; intros s; simpl; [by intros [= ->]|].
  destruct s as [|d s]; [done|]. case_decide; [|done]. intros ->%IH. by subst.
Qed.
Lemma HasPrefix_app s p : HasPrefix s p = true → s = p +:+ TrimPrefix s p.
Proof.
  unfold HasPrefix, TrimPrefix. rewrite bool_decide_eq_true. intros [rest Hr].
  rewrite Hr. by apply strip_prefix_app.
Qed.

Lemma split_from_not_nil sep cur s : split_from sep cur s ≠ [].
Proof. revert cur. induction s; intros cur; simpl; [done|]. case_decide; [done|]. apply IHs. Qed.
Lemma prefix_of_app a s :
  str_forall (λ c, negb (bool_decide (c = "_"%char))) a = true → str_rev (str_rev_app a "") ≠ "" →
  prefix_of (a +:+ String "_" s) = Some (str_rev (str_rev_app a "")).
Proof.
  intros Ha Hne. unfold prefix_of, Split. rewrite split_from_app by done.
  destruct (split_from "_" "" s) eqn:Hs; [by apply split_from_not_nil in Hs|].
  by rewrite decide_False.
Qed.

(** The prefix of a valid identifier is its type. *)
Lemma aggregate_id_prefix item :
  aggregate_id_ok item = true → prefix_of (pe_AggregateID item) = Some (pe_AggregateType item).
Proof.
  unfold aggregate_id_ok, type_prefix. destruct (List.find _ _) as [entry|] eqn:Hf; [|done]. simpl.
  apply find_some in Hf as [Hin Ht]. apply bool_decide_eq_true in Ht.
  intros [->%HasPrefix_app _]%andb_prop. rewrite <-Ht. clear Ht. revert Hin.
  generalize (TrimPrefix (pe_AggregateID item) entry.2). intros s Hin.
  apply list_elem_of_In, list_elem_of_fmap in Hin as (type & -> & Htype). cbn [fst snd].
  replace ((type +:+ "_") +:+ s) with (type +:+ String "_" s)
    by (symmetry; apply (str_app_assoc type "_" s)).
  rewrite !elem_of_cons, elem_of_nil in Htype.
  repeat (destruct Htype as [->|Htype]; [by apply prefix_of_app|]). done.
Qed.

(** * Actors *)
(** An actor comes back from its text with the bytes replaced that are not UTF-8. *)
Definition reread_actor (actor : Actor) : Actor :=
  {| actor_Type := coerceUTF8 (actor_Type actor); actor_ID := coerceUTF8 (actor_ID actor) |}.
Definition actor_kept (actor : Actor) : bool := bool_decide (reread_actor actor = actor).
Definition reread (event : Event) : Event := {|
  ev_SchemaVersion := ev_SchemaVersion event; ev_ID := ev_ID event;
  ev_GlobalPosition := ev_GlobalPosition event; ev_AggregateType := ev_AggregateType event;
  ev_AggregateID := ev_AggregateID event; ev_AggregateRevision := ev_AggregateRevision event;
  ev_Kind := ev_Kind event; ev_OccurredAt := ev_OccurredAt event; ev_RecordedAt := ev_RecordedAt event;
  ev_CorrelationID := ev_CorrelationID event; ev_CausationID := ev_CausationID event;
  ev_CommandID := ev_CommandID event; ev_Actor := reread_actor (ev_Actor event);
  ev_Data := ev_Data event; ev_Metadata := ev_Metadata event |}.

Lemma decode_encode_actor actor : decode_actor (encode_actor actor) = Some (reread_actor actor).
Proof.
  set (ms := [(("type", encode_string (actor_Type actor)), JString (coerceUTF8 (actor_Type actor)));
              (("id", encode_string (actor_ID actor)), JString (coerceUTF8 (actor_ID actor)))] : list text_member).
  assert (Forall (member_ok 0) ms) as Hms.
  { repeat (apply Forall_cons; split); [..|constructor]; (split; [by apply plain_text|apply any_string_text]). }
  change (encode_actor actor) with (struct_text ms). unfold decode_actor, Unmarshal_struct.
  assert (Unmarshal (struct_text ms) = Some (JObject (to_map (member_value <$> ms)))) as ->.
  { apply raw_text_Unmarshal. eapply value_text_mono; [by apply struct_value_text|]. apply Nat.leb_le. vm_compute. reflexivity. }
  rewrite (struct_members 0) by (done || apply Nat.le_0_l). reflexivity.
Qed.
Lemma actor_kept_utf8 actor : utf8 (actor_Type actor) → utf8 (actor_ID actor) → actor_kept actor = true.
Proof. intros Ht Hi. apply bool_decide_true. unfold reread_actor. rewrite !coerce_utf8 by done. by destruct actor. Qed.
Lemma reread_idemp event : reread (reread event) = reread event.
Proof. unfold reread, reread_actor. cbn [ev_Actor actor_Type actor_ID]. by rewrite !coerce_idemp. Qed.
Lemma reread_kept event : actor_kept (ev_Actor event) = true → reread event = event.
Proof. intros Hk%bool_decide_eq_true. unfold reread. rewrite Hk. by destruct event. Qed.

Section log.
Context `{!SqliteJson, !UnicodeLower, !TicketSource}.
Implicit Types (db : Database) (row : EventRow) (item : PendingEvent).

(** * Steps of the database *)
Definition initial_database (s : source_state) : Database := {|
  db_last_position := 0; db_aggregates := ∅; db_events := []; db_tables := empty_tables;
  db_checkpoint := None; db_manifests := ∅; db_source := s |}.
(** The times a transaction records can be read back. *)
Definition readable (now : Time) (pending : list PendingEvent) : Prop :=
  parses_back now = true ∧ Forall (λ item, parses_back (pe_OccurredAt item) = true) pending.
(** The transactions that succeed, of pending events that are accepted; the ticket tables change
    as they like. *)
Inductive step_of (accepts : list PendingEvent → Prop) : Database → Database → Prop :=
| step_append now db pending db' committed :
    readable now pending → accepts pending → Append now db pending = (db', Ok committed) → step_of accepts db db'
| step_rebuild db db' : RebuildProjections db = (db', Ok tt) → step_of accepts db db'
| step_manifest db runID nodeID attemptID db' :
    insert_manifest db runID nodeID attemptID = Ok db' → step_of accepts db db'
| step_source db s : step_of accepts db (with_source s db).
(** Every pending event, and those whose actor comes back as it was. *)
Definition any_actor (pending : list PendingEvent) : Prop := True.
Definition store_step : Database → Database → Prop := step_of any_actor.
Definition kept_actors (pending : list PendingEvent) : Prop :=
  Forall (λ item, actor_kept (pe_Actor item) = true) pending.

(** * The invariant *)
Definition rows_of (id : string) (rows : list EventRow) : list EventRow :=
  filter (λ row, er_AggregateID row = id) rows.
Definition row_wf row : Prop :=
  er_SchemaVersion row = 1%Z ∧ is_Some (prefix_of (er_AggregateID row)) ∧
  parses_back (er_OccurredAt row) = true ∧ parses_back (er_RecordedAt row) = true ∧
  ∃ actor, er_ActorJSON row = encode_actor actor.
(** An aggregate: known exactly when it has events, of the type of its name, at the revision of
    its last event. *)
Definition aggregate_wf (rows : list EventRow) (id : string) (known : option (AggregateType * Z)) : Prop :=
  match known with
  | None => rows_of id rows = []
  | Some (type, revision) =>
      revision = Z.of_nat (length (rows_of id rows)) ∧ rows_of id rows ≠ [] ∧ prefix_of id = Some type
  end.
Definition numbered (rows : list EventRow) : Prop :=
  ∀ i row, rows !! i = Some row → er_GlobalPosition row = (Z.of_nat i + 1)%Z.
Definition streams_numbered (rows : list EventRow) : Prop :=
  ∀ id i row, rows_of id rows !! i = Some row → er_AggregateRevision row = (Z.of_nat i + 1)%Z.
Definition commands_unique (rows : list EventRow) : Prop :=
  NoDup (er_ID <$> rows) ∧ NoDup ((λ row, (er_AggregateID row, er_CommandID row)) <$> rows).

(** The database within a transaction that has reached position [last]. *)
Record log_wf (last : Z) (db : Database) : Prop := {
  lw_last : last = Z.of_nat (length (db_events db)) ∧ (last ≤ max_int64)%Z;
  lw_rows : Forall row_wf (db_events db);
  lw_numbered : numbered (db_events db);
  lw_streams : streams_numbered (db_events db);
  lw_unique : commands_unique (db_events db);
  lw_aggregates : ∀ id, aggregate_wf (db_events db) id (db_aggregates db !! id);
  lw_tables : ∃ events, scanEvents (db_events db) = Ok (reread <$> events) ∧
                foldM applyProjection empty_tables events = Ok (db_tables db);
}.

Lemma rows_of_app id rows row :
  rows_of id (rows ++ [row]) =
  if decide (er_AggregateID row = id) then rows_of id rows ++ [row] else rows_of id rows.
Proof.
  unfold rows_of. rewrite filter_app, filter_cons, filter_nil.
  case_decide; [done|by rewrite app_nil_r].
Qed.

Lemma scanEvents_app rows row :
  scanEvents (rows ++ [row]) =
  (let? events := scanEvents rows in let? event := scan_event row in Ok (events ++ [event])).
Proof.
  induction rows as [|r rows IH]; simpl.
  - by destruct (scan_event row).
  - destruct (scan_event r); simpl; [|done]. rewrite IH. destruct (scanEvents rows); simpl; [|done].
    by destruct (scan_event row).
Qed.

(** A row is read back as the event it was written for, up to its actor. *)
Definition event_wf (event : Event) : Prop :=
  prefix_of (ev_AggregateID event) = Some (ev_AggregateType event) ∧
  parses_back (ev_OccurredAt event) = true ∧ parses_back (ev_RecordedAt event) = true.
Lemma scan_event_row event : event_wf event → scan_event (event_row event) = Ok (reread event).
Proof.
  intros (Hp & Ho & Hr). unfold scan_event. cbn [event_row er_AggregateID er_OccurredAt er_RecordedAt er_ActorJSON].
  rewrite Hp, Ho, Hr, decode_encode_actor. done.
Qed.
Lemma scan_wf row : row_wf row → ∃ event, scan_event row = Ok (reread event) ∧ event_row event = row ∧ event_wf event.
Proof.
  intros (_ & [type Hp] & Ho & Hr & actor & Hact).
  set (event := {| ev_SchemaVersion := er_SchemaVersion row; ev_ID := er_ID row;
    ev_GlobalPosition := er_GlobalPosition row; ev_AggregateType := type; ev_AggregateID := er_AggregateID row;
    ev_AggregateRevision := er_AggregateRevision row; ev_Kind := er_Kind row; ev_OccurredAt := er_OccurredAt row;
    ev_RecordedAt := er_RecordedAt row; ev_CorrelationID := er_CorrelationID row;
    ev_CausationID := er_CausationID row; ev_CommandID := er_CommandID row; ev_Actor := actor;
    ev_Data := er_Data row; ev_Metadata := er_Metadata row |}).
  assert (event_row event = row) as Hrow by (destruct row; unfold event_row; cbn in *; by subst).
  assert (event_wf event) as Hwf by by split_and!.
  exists event. split; [|done]. rewrite <-Hrow. by apply scan_event_row.
Qed.
Lemma scanEvents_wf rows : Forall row_wf rows →
  ∃ events, scanEvents rows = Ok (reread <$> events) ∧ event_row <$> events = rows ∧ Forall event_wf events.
Proof.
  induction 1 as [|row rows (event & He & Hrow & Hwf)%scan_wf _ (events & Hs & Hrows & Hall)]; [by exists []|].
  exists (event :: events). cbn. rewrite He. cbn. rewrite Hs. split_and!; [done|by rewrite Hrow, Hrows|by constructor].
Qed.
Lemma scan_fields row event : scan_event row = Ok event →
  er_AggregateID row = ev_AggregateID event ∧ er_CommandID row = ev_CommandID event ∧
  er_AggregateRevision row = ev_AggregateRevision event.
Proof. unfold scan_event. repeat case_match; try done. by intros [= <-]. Qed.

Lemma initial_wf s : log_wf 0 (initial_database s).
Proof.
  split; try done; [by split; constructor|]. by exists [].
Qed.

(** * One new event *)
(** What a successful [append_new] did. *)
Record appended (now : Time) db (last : Z) item (db' : Database) (last' : Z) (event : Event) : Prop := {
  ad_last : last' = uint64 (last + 1);
  ad_event : event = new_event now last' item;
  ad_current : ∃ current, readAggregateRevision db (pe_AggregateID item) (pe_AggregateType item) = Ok current ∧
    current.1 = pe_ExpectedRevision item;
  ad_row : event_row_ok db (event_row event) = true;
  ad_tables : applyProjection (db_tables db) event = Ok (db_tables db');
  ad_events : db_events db' = db_events db ++ [event_row event];
  ad_aggregates : db_aggregates db' =
    <[pe_AggregateID item := (pe_AggregateType item, ev_AggregateRevision event)]> (db_aggregates db);
  ad_rest : db_last_position db' = db_last_position db ∧ db_checkpoint db' = db_checkpoint db ∧
    db_manifests db' = db_manifests db;
}.
Lemma append_new_Ok now db last item db' last' event :
  append_new now db last item = Ok (db', last', event) → appended now db last item db' last' event.
Proof.
  unfold append_new. intros (snapshot & _ & Hok)%result_bind_Ok.
  apply result_bind_Ok in Hok as (current & Hcur & Hok). case_decide as Hrev; [done|].
  apply result_bind_Ok in Hok as (events & Hev & Hok).
  apply result_bind_Ok in Hok as (t & Ht & Hok).
  unfold insertEvent in Hev. destruct (event_row_ok _ _) eqn:Hrow; [|done]. injection Hev as <-.
  destruct snapshot as [snapshot|]; [apply result_bind_Ok in Hok as (s & _ & Hok)|]; injection Hok as <- <- <-;
    (split; [done|done|by exists current|done|done|done|done|done]).
Qed.

Lemma validate_Ok item :
  validatePendingEvent item = Ok tt →
  pe_SchemaVersion item = 1%Z ∧ aggregate_id_ok item = true.
Proof.
  unfold validatePendingEvent. case_decide as Hs; [done|].
  destruct (eventIDPattern _); [|done]. destruct (aggregate_id_ok item); [|done].
  done.
Qed.

Lemma event_row_ok_inv db row :
  event_row_ok db row = true →
  (1 ≤ er_GlobalPosition row ≤ max_int64)%Z ∧ (1 ≤ er_AggregateRevision row ≤ max_int64)%Z ∧
  er_ID row ∉ er_ID <$> db_events db ∧
  (er_AggregateID row, er_CommandID row) ∉ (λ row, (er_AggregateID row, er_CommandID row)) <$> db_events db.
Proof.
  unfold event_row_ok, positive. intros Hok. bool_to_prop.
  match goal with Hall : forallb _ _ = true |- _ => rewrite forallb_forall in Hall; rename Hall into Hfresh end.
  assert (∀ old, old ∈ db_events db → er_ID old ≠ er_ID row ∧
    ¬ (er_AggregateID old = er_AggregateID row ∧ er_CommandID old = er_CommandID row)) as Hnew.
  { intros old Hold. apply list_elem_of_In, Hfresh in Hold. bool_to_prop. naive_solver. }
  split_and!; try lia.
  - intros (old & He & Hold)%list_elem_of_fmap. by apply Hnew in Hold as [[] _].
  - intros (old & [= He1 He2] & Hold)%list_elem_of_fmap. apply Hnew in Hold as [_ []]. done.
Qed.

Lemma rows_of_length id rows : length (rows_of id rows) ≤ length rows.
Proof. apply length_filter. Qed.

Section appended.
Context {now : Time} {db : Database} {last : Z} {item : PendingEvent} {db' : Database} {last' : Z}
  {event : Event}.
Hypotheses (Hwf : log_wf last db) (Happ : appended now db last item db' last' event)
  (Hitem : aggregate_id_ok item = true).
#[local] Set Default Proof Using "All".

Lemma appended_last : last' = (last + 1)%Z.
Proof.
  rewrite (ad_last _ _ _ _ _ _ _ Happ). apply uint64_next.
  destruct (lw_last _ _ Hwf) as [-> ?]. lia.
Qed.
(** The event takes the revision after the events its aggregate has. *)
Lemma appended_revision :
  pe_ExpectedRevision item = Z.of_nat (length (rows_of (pe_AggregateID item) (db_events db))) ∧
  ev_AggregateRevision event = (pe_ExpectedRevision item + 1)%Z.
Proof.
  destruct (ad_current _ _ _ _ _ _ _ Happ) as (current & Hcur & Hexp).
  assert (pe_ExpectedRevision item =
    Z.of_nat (length (rows_of (pe_AggregateID item) (db_events db)))) as Hlen.
  { pose proof (lw_aggregates _ _ Hwf (pe_AggregateID item)) as Hagg. unfold readAggregateRevision in Hcur.
    destruct (db_aggregates db !! _) as [[type revision]|]; simpl in Hagg.
    - case_decide; [done|]. injection Hcur as <-. rewrite <-Hexp. by destruct Hagg as [-> _].
    - injection Hcur as <-. rewrite <-Hexp, Hagg. done. }
  split; [done|]. rewrite (ad_event _ _ _ _ _ _ _ Happ). apply uint64_next.
  pose proof (rows_of_length (pe_AggregateID item) (db_events db)).
  destruct (lw_last _ _ Hwf) as [-> ?]. lia.
Qed.

Lemma appended_fields :
  ev_AggregateID event = pe_AggregateID item ∧ ev_AggregateType event = pe_AggregateType item ∧
  ev_GlobalPosition event = last' ∧ ev_ID event = pe_ID item ∧ ev_CommandID event = pe_CommandID item ∧
  ev_SchemaVersion event = pe_SchemaVersion item.
Proof. by rewrite (ad_event _ _ _ _ _ _ _ Happ). Qed.

Lemma appended_numbered : numbered (db_events db').
Proof.
  rewrite (ad_events _ _ _ _ _ _ _ Happ). intros i row. rewrite lookup_app.
  destruct (db_events db !! i) eqn:Hi; [intros [= <-]; by apply (lw_numbered _ _ Hwf)|].
  intros (Hlen & <-)%list_lookup_singleton_Some. cbn.
  destruct appended_fields as (_ & _ & -> & _). rewrite appended_last.
  destruct (lw_last _ _ Hwf) as [-> _]. apply lookup_ge_None in Hi. lia.
Qed.
Lemma appended_streams : streams_numbered (db_events db').
Proof.
  rewrite (ad_events _ _ _ _ _ _ _ Happ). intros id i row. rewrite rows_of_app. cbn.
  destruct appended_fields as (-> & _). destruct appended_revision as [Hlen Hrev].
  case_decide as Hid; [|apply (lw_streams _ _ Hwf)]. rewrite lookup_app.
  destruct (rows_of id _ !! i) eqn:Hi; [intros [= <-]; by eapply (lw_streams _ _ Hwf)|].
  intros (Hi' & <-)%list_lookup_singleton_Some. cbn. rewrite Hrev, Hlen, Hid.
  apply lookup_ge_None in Hi. lia.
Qed.
Lemma appended_unique : commands_unique (db_events db').
Proof.
  destruct (event_row_ok_inv _ _ (ad_row _ _ _ _ _ _ _ Happ)) as (_ & _ & Hid & Hcmd).
  rewrite (ad_events _ _ _ _ _ _ _ Happ). unfold commands_unique. rewrite !fmap_app.
  destruct (lw_unique _ _ Hwf) as [Hu1 Hu2].
  split; apply NoDup_app; 
    (split_and!; [done| |apply NoDup_singleton]); intros x Hx ->%list_elem_of_singleton; contradiction.
Qed.
Lemma appended_aggregates id : aggregate_wf (db_events db') id (db_aggregates db' !! id).
Proof.
  rewrite (ad_events _ _ _ _ _ _ _ Happ), (ad_aggregates _ _ _ _ _ _ _ Happ).
  destruct appended_fields as (Hid & _). destruct appended_revision as [Hlen Hrev].
  destruct (decide (id = pe_AggregateID item)) as [->|Hne].
  - rewrite lookup_insert_eq. unfold aggregate_wf. rewrite rows_of_app. cbn. rewrite Hid, decide_True by done.
    split_and!; [|by destruct (rows_of _ _)|by apply aggregate_id_prefix].
    rewrite length_app. cbn. rewrite Hrev, Hlen. lia.
  - rewrite lookup_insert_ne by done. unfold aggregate_wf. rewrite rows_of_app. cbn.
    rewrite Hid, decide_False by done. apply (lw_aggregates _ _ Hwf).
Qed.

Context (Hversion : pe_SchemaVersion item = 1%Z) (Hnow : parses_back now = true)
  (Hocc : parses_back (pe_OccurredAt item) = true).

Lemma appended_event_wf : event_wf event.
Proof.
  rewrite (ad_event _ _ _ _ _ _ _ Happ). split_and!; [by apply aggregate_id_prefix|done..].
Qed.
Lemma appended_wf : log_wf last' db'.
Proof.
  destruct (event_row_ok_inv _ _ (ad_row _ _ _ _ _ _ _ Happ)) as (Hpos & _).
  destruct appended_fields as (_ & _ & Hl & _ & _ & Hv). cbn in Hpos. rewrite Hl in Hpos.
  split.
  - rewrite (ad_events _ _ _ _ _ _ _ Happ), length_app. cbn.
    rewrite appended_last in *. destruct (lw_last _ _ Hwf) as [-> _]. lia.
  - rewrite (ad_events _ _ _ _ _ _ _ Happ). apply Forall_app; split; [apply (lw_rows _ _ Hwf)|].
    constructor; [|constructor]. destruct appended_event_wf as (? & ? & ?).
    split_and!; cbn; [by rewrite Hv|by eexists|done..|by eexists].
  - apply appended_numbered.
  - apply appended_streams.
  - apply appended_unique.
  - apply appended_aggregates.
  - rewrite (ad_events _ _ _ _ _ _ _ Happ), scanEvents_app.
    destruct (lw_tables _ _ Hwf) as (events & Hs & Hfold). exists (events ++ [event]). rewrite Hs. cbn [result_bind].
    rewrite scan_event_row by apply appended_event_wf. cbn [result_bind]. rewrite fmap_app. split; [done|].
    rewrite foldM_app, Hfold. cbn. by rewrite (ad_tables _ _ _ _ _ _ _ Happ).
Qed.
End appended.

(** * Commands *)
Definition stored (rows : list EventRow) (event : Event) : Prop :=
  event_wf event ∧ ∃ row, row ∈ rows ∧ scan_event row = Ok (reread event).
Definition commits (rows : list EventRow) item (event : Event) : Prop :=
  stored rows event ∧ sameTransitionCommand event item = true.

Lemma filter_unique {A B} `{EqDecision B} (f : A → B) (l : list A) x :
  NoDup (f <$> l) → x ∈ l → filter (λ y, f y = f x) l = [x].
Proof.
  induction l as [|y l IH]; [by intros _ ?%elem_of_nil|].
  rewrite fmap_cons, NoDup_cons, filter_cons, elem_of_cons. intros [Hy Hnd] Hin.
  case_decide as Heq.
  - destruct Hin as [->|Hin].
    + f_equal. apply elem_of_nil_inv. intros z [Hf Hz]%list_elem_of_filter. apply Hy. rewrite <-Hf.
      by apply list_elem_of_fmap_2.
    + destruct Hy. rewrite Heq. by apply list_elem_of_fmap_2.
  - destruct Hin as [->|Hin]; [done|by apply IH].
Qed.

Lemma filter_command (rows : list EventRow) (id command : string) :
  filter (λ row, er_AggregateID row = id ∧ er_CommandID row = command) rows =
  filter (λ row, (er_AggregateID row, er_CommandID row) = (id, command)) rows.
Proof. apply list_filter_iff. intros row. naive_solver. Qed.

Lemma read_stored last db event :
  log_wf last db → stored (db_events db) event →
  readEventByCommand db (ev_AggregateID event) (ev_CommandID event) = Ok (Some (reread event)).
Proof.
  intros Hwf [He (row & Hin & Hscan)]. unfold readEventByCommand. rewrite filter_command.
  destruct (scan_fields _ _ Hscan) as (Hid & Hcmd & _). cbn in Hid, Hcmd. rewrite <-Hid, <-Hcmd.
  rewrite (filter_unique (λ row, (er_AggregateID row, er_CommandID row)) _ row);
    [|apply (lw_unique _ _ Hwf)|done].
  cbn [scanEvents]. by rewrite Hscan.
Qed.

Lemma scan_stored row event : row_wf row → scan_event row = Ok event → reread event = event ∧ event_wf event.
Proof.
  intros (raw & Hscan & _ & Hwf)%scan_wf Hev. rewrite Hscan in Hev. injection Hev as <-. split; [apply reread_idemp|done].
Qed.
Lemma read_Some last db id command event :
  log_wf last db → readEventByCommand db id command = Ok (Some event) →
  stored (db_events db) event ∧ ev_AggregateID event = id ∧ ev_CommandID event = command.
Proof.
  intros Hwf. unfold readEventByCommand. intros (events & Hs & [= Hh])%result_bind_Ok.
  assert (∀ row, row ∈ filter (λ row, er_AggregateID row = id ∧ er_CommandID row = command) (db_events db) →
    row ∈ db_events db ∧ er_AggregateID row = id ∧ er_CommandID row = command) as Hin.
  { intros row. rewrite list_elem_of_filter. naive_solver. }
  destruct (filter _ _) as [|row rows]; simpl in Hs; [injection Hs as <-; done|].
  destruct (scan_event row) as [e|] eqn:He; simpl in Hs; [|done].
  destruct (scanEvents rows); simpl in Hs; [|done]. injection Hs as <-. injection Hh as ->.
  destruct (Hin row) as (Hrow & Hid & Hcmd); [by left|]. destruct (scan_fields _ _ He) as (Hi & Hc & _).
  destruct (scan_stored row event) as [Hre ?]; [by eapply Forall_forall; [apply (lw_rows _ _ Hwf)|]|done|].
  split; [|by rewrite <-Hi, <-Hc]. split; [done|]. exists row. by rewrite Hre.
Qed.
Lemma same_command event item :
  sameTransitionCommand event item = true →
  ev_AggregateID event = pe_AggregateID item ∧ ev_CommandID event = pe_CommandID item.
Proof. unfold sameTransitionCommand. intros Hs. bool_to_prop. done. Qed.
Lemma new_event_same now last item : sameTransitionCommand (new_event now last item) item = true.
Proof. unfold sameTransitionCommand. cbn. by rewrite !bool_decide_true. Qed.

(** * A transaction *)
Definition valid_item (now : Time) item : Prop :=
  validatePendingEvent item = Ok tt ∧ parses_back now = true ∧ parses_back (pe_OccurredAt item) = true.

(** What one loop of [appendInTransaction] keeps. *)
Record continues (last : Z) db (last' : Z) (db' : Database) : Prop := {
  cn_wf : log_wf last' db';
  cn_events : db_events db `prefix_of` db_events db';
  cn_rest : db_last_position db' = db_last_position db ∧ db_checkpoint db' = db_checkpoint db ∧
    db_manifests db' = db_manifests db;
}.
Lemma append_item_Ok now db last committed item db' last' committed' :
  log_wf last db → valid_item now item →
  append_item now (db, last, committed) item = Ok (db', last', committed') →
  continues last db last' db' ∧
  ∃ event, committed' = committed ++ [event] ∧ commits (db_events db') item event.
Proof.
  intros Hwf (Hvalid & Hnow & Hocc) (existing & Hread & Hok)%result_bind_Ok.
  destruct (validate_Ok _ Hvalid) as [Hv Hid].
  destruct existing as [event|].
  - destruct (sameTransitionCommand event item) eqn:Hsame; [|done]. injection Hok as <- <- <-.
    split; [by split|]. exists event. split; [done|]. split; [|done]. by eapply read_Some.
  - apply result_bind_Ok in Hok as ([[db1 last1] event] & Hnew & Hok). injection Hok as <- <- <-.
    apply append_new_Ok in Hnew as Happ. split.
    + split; [by eapply appended_wf| |apply Happ].
      rewrite (ad_events _ _ _ _ _ _ _ Happ). by apply prefix_app_r.
    + exists event. split; [done|]. split; [|rewrite (ad_event _ _ _ _ _ _ _ Happ); apply new_event_same].
      assert (event_wf event) as Hev by by eapply appended_event_wf. split; [done|]. exists (event_row event).
      rewrite (ad_events _ _ _ _ _ _ _ Happ). split; [set_solver|by apply scan_event_row].
Qed.

Lemma commits_prefix rows rows' item event :
  rows `prefix_of` rows' → commits rows item event → commits rows' item event.
Proof.
  intros [more ->] [[? (row & Hin & ?)] ?]. split; [|done]. split; [done|]. exists row. split; [|done]. apply elem_of_app. by left.
Qed.

Lemma append_fold_Ok now pending db last committed db' last' committed' :
  log_wf last db → Forall (valid_item now) pending →
  foldM (append_item now) (db, last, committed) pending = Ok (db', last', committed') →
  continues last db last' db' ∧
  ∃ events, committed' = committed ++ events ∧ Forall2 (commits (db_events db')) pending events.
Proof.
  revert db last committed. induction pending as [|item pending IH]; intros db last committed Hwf Hall Hfold.
  - injection Hfold as <- <- <-. split; [by split|]. exists []. by rewrite app_nil_r.
  - apply Forall_cons in Hall as [Hitem Hall]. cbn [foldM] in Hfold.
    apply result_bind_Ok in Hfold as ([[db1 last1] committed1] & Hone & Hfold).
    apply append_item_Ok in Hone as ([Hwf1 Hp1 (Hr1 & Hr2 & Hr3)] & event & -> & Hevent); [|done..].
    apply IH in Hfold as ([Hwf' Hp' (Hs1 & Hs2 & Hs3)] & events & -> & Hevents); [|done..].
    split; [split; [done|by etrans|split_and!; congruence]|].
    exists (event :: events). split; [by rewrite <-app_assoc|].
    constructor; [by eapply commits_prefix|done].
Qed.

(** * Reachable databases *)
Record database_wf (db : Database) : Prop := {
  dw_log : log_wf (db_last_position db) db;
  dw_checkpoint : ∀ position, db_checkpoint db = Some position → position = db_last_position db;
  dw_manifests : db_manifests db ⊆ dom (t_attempts (db_tables db));
}.

Lemma validate_each_Ok pending : validate_each pending = Ok tt → Forall (λ item, validatePendingEvent item = Ok tt) pending.
Proof.
  unfold validate_each. induction pending as [|item pending IH]; [by constructor|]. cbn [foldM].
  intros ([] & ? & ?)%result_bind_Ok. constructor; [done|by apply IH].
Qed.
Lemma Append_Ok now db pending db' committed :
  Append now db pending = (db', Ok committed) → log_wf (db_last_position db) db → readable now pending →
  Forall (valid_item now) pending ∧
  ∃ last' db1, foldM (append_item now) (db, db_last_position db, []) pending = Ok (db1, last', committed) ∧
    continues (db_last_position db) db last' db1 ∧ Forall2 (commits (db_events db1)) pending committed ∧
    db' = with_checkpoint last' (with_log last' (db_aggregates db1) (db_events db1) (db_tables db1) db1).
Proof.
  intros Happ Hwf [Hnow Hocc].
  assert ((let? _ := validate_each pending in appendInTransaction now db pending) = Ok (db', committed)) as Hok.
  { unfold Append in Happ. destruct pending; [done|].
    destruct (let? _ := validate_each _ in _) as [[? ?]|]; congruence. }
  apply result_bind_Ok in Hok as ([] & Hv%validate_each_Ok & Hok). unfold appendInTransaction in Hok.
  apply result_bind_Ok in Hok as (_ & _ & Hok). apply result_bind_Ok in Hok as ([[db1 last'] events] & Hf & Hok).
  destruct (negb _) eqn:Hs; [done|]. injection Hok as <- <-.
  assert (Forall (valid_item now) pending) as Hall.
  { rewrite Forall_forall in *. intros item Hin. split; [by apply Hv|]. split; [done|by apply Hocc]. }
  split; [done|]. exists last', db1. split; [done|].
  apply append_fold_Ok in Hf as (? & events' & -> & ?); [|done..]. done.
Qed.


(** * What one event does to the tables *)
Lemma project_event_Ok {P} (S : Store P) reducer allow t event t' :
  project_event S reducer allow t event = Ok t' →
  t' = t ∧ (∃ existing, st_read S t (ev_AggregateID event) = Ok existing ∧ reducer existing event = Ignored) ∨
  ∃ existing next, st_read S t (ev_AggregateID event) = Ok existing ∧
    reducer existing event = Reduced next ∧ allow next t = Ok tt ∧ st_write S next t = Ok t'.
Proof.
  unfold project_event. intros (existing & Hread & Hok)%result_bind_Ok.
  destruct (reducer existing event) as [|next|] eqn:Hred; [|right|done].
  - injection Hok as <-. left. eauto.
  - apply result_bind_Ok in Hok as ([] & ? & ?). eauto 10.
Qed.
Lemma applyProjection_Ok t event t' :
  applyProjection t event = Ok t' →
  check_interaction t event = Ok tt ∧ check_attempt t event = Ok tt ∧ check_deleted t event = Ok tt ∧
  ev_SchemaVersion event = 1%Z ∧ project_by_type t event = Ok t'.
Proof.
  unfold applyProjection.
  intros ([] & ? & ([] & ? & ([] & ? & Hok)%result_bind_Ok)%result_bind_Ok)%result_bind_Ok.
  case_decide as Hv; [done|]. split_and!; [done..| |done]. exact Hv.
Qed.

(** No attempt row is ever deleted. *)
Definition keeps_attempts (t t' : Tables) : Prop := dom (t_attempts t) ⊆ dom (t_attempts t').
#[local] Instance keeps_attempts_preorder : PreOrder keeps_attempts.
Proof. split; [intros t|intros t1 t2 t3]; unfold keeps_attempts; [done|by etrans; eauto]. Qed.
Lemma keeps_attempts_write {P} (T : Table P) value t t' :
  (∀ m, keeps_attempts t (tbl_with T (<[tbl_id T value := m]> (tbl_rows T t)) t)) →
  write_row T value t = Ok t' → keeps_attempts t t'.
Proof. intros Hk (r & -> & _)%write_row_inv. apply Hk. Qed.
Lemma applyProjection_attempts t event t' : applyProjection t event = Ok t' → keeps_attempts t t'.
Proof.
  intros (_ & _ & _ & _ & Hok)%applyProjection_Ok. revert Hok.
  apply (project_by_type_ind (λ r, r = Ok t' → keeps_attempts t t')); [intros _..|intros _ [= <-]; reflexivity];
    intros [[-> _]|(existing & next & _ & _ & _ & Hw)]%project_event_Ok; try reflexivity; cbn in Hw.
  4: apply write_point_inv in Hw as (t1 & m & Hw & ->);
     enough (keeps_attempts t t1) by done.
  all: revert Hw; apply keeps_attempts_write; intros r; unfold keeps_attempts; cbn; set_solver.
Qed.

Lemma append_new_attempts now db last item db' last' event :
  append_new now db last item = Ok (db', last', event) → keeps_attempts (db_tables db) (db_tables db').
Proof. intros Happ%append_new_Ok. eapply applyProjection_attempts, (ad_tables _ _ _ _ _ _ _ Happ). Qed.
Lemma append_fold_attempts now pending db last committed db' last' committed' :
  foldM (append_item now) (db, last, committed) pending = Ok (db', last', committed') →
  keeps_attempts (db_tables db) (db_tables db').
Proof.
  revert db last committed. induction pending as [|item pending IH]; intros db last committed.
  - intros [= <- _ _]. reflexivity.
  - cbn [foldM]. intros ([[db1 last1] committed1] & (existing & _ & Hone)%result_bind_Ok & Hrest%IH)%result_bind_Ok.
    etrans; [|exact Hrest]. destruct existing as [event|].
    + destruct (sameTransitionCommand _ _); [|done]. injection Hone as <- _ _. done.
    + apply result_bind_Ok in Hone as ([[db2 last2] event] & Hnew & Hone). injection Hone as <- _ _.
      by eapply append_new_attempts.
Qed.

(** Changing what the log does not depend on. *)
Lemma log_wf_with last db db' :
  db_aggregates db' = db_aggregates db → db_events db' = db_events db → db_tables db' = db_tables db →
  log_wf last db → log_wf last db'.
Proof. intros Ha He Ht [? ? ? ? ? ? ?]. by split; rewrite ?Ha, ?He, ?Ht. Qed.

Lemma Append_wf now db pending db' committed :
  database_wf db → readable now pending → Append now db pending = (db', Ok committed) →
  database_wf db' ∧ db_events db `prefix_of` db_events db' ∧
  Forall2 (commits (db_events db')) pending committed ∧ db_checkpoint db' = Some (db_last_position db').
Proof.
  intros [Hlog Hcp Hm] Hr Happ. destruct (Append_Ok _ _ _ _ _ Happ) as (_ & last' & db1 & Hf & Hcn & Hc & ->); [done..|].
  destruct Hcn as [Hwf Hp (_ & _ & Hms)]. cbn. split_and!; [|done|done|done].
  split; cbn; [by apply (log_wf_with last' db1)|by intros p [= ->]|].
  rewrite Hms. etrans; [exact Hm|]. by eapply append_fold_attempts.
Qed.

(** A rebuild takes the last position as its checkpoint; it fails as soon as a manifest holds an
    attempt row. *)
Lemma last_position db :
  log_wf (db_last_position db) db → ∀ events, scanEvents (db_events db) = Ok events →
  match last events with Some event => ev_GlobalPosition event | None => 0%Z end = db_last_position db.
Proof.
  intros Hwf events Hs. destruct (scanEvents_wf _ (lw_rows _ _ Hwf)) as (events' & Hs' & Hrows & _).
  rewrite Hs in Hs'. injection Hs' as ->.
  pose proof (lw_numbered _ _ Hwf) as Hn. destruct (lw_last _ _ Hwf) as [Hlen _]. rewrite <-Hrows in Hn, Hlen.
  rewrite length_fmap in Hlen. rewrite last_lookup, length_fmap, list_lookup_fmap.
  destruct (events' !! pred (length events')) as [event|] eqn:He; cbn [fmap option_fmap option_map].
  - specialize (Hn (pred (length events')) (event_row event)). rewrite list_lookup_fmap, He in Hn.
    specialize (Hn eq_refl). cbn in Hn |- *. apply lookup_lt_Some in He. lia.
  - apply lookup_ge_None in He. lia.
Qed.
Lemma rebuild_blocked db : database_wf db → db_manifests db ≠ ∅ →
  rebuild db = Err (StoreConstraint "attempt_projection").
Proof.
  intros [Hlog _ Hm] Hne. unfold rebuild. destruct (lw_tables _ _ Hlog) as (events & -> & _). cbn [result_bind].
  unfold clear_projections. rewrite decide_False; [done|]. clear -Hm Hne. intros He. apply Hne. set_solver.
Qed.
(** What is replayed are the events as they are read. *)
Definition replayed_tables db : store_result Tables :=
  let? events := scanEvents (db_events db) in foldM applyProjection empty_tables events.
Lemma rebuild_open db : database_wf db → db_manifests db = ∅ →
  rebuild db = let? t := replayed_tables db in
    Ok (with_checkpoint (db_last_position db) (with_log (db_last_position db) (db_aggregates db) (db_events db) t db)).
Proof.
  intros [Hlog _ _] He. unfold rebuild, replayed_tables. destruct (scanEvents (db_events db)) as [events|] eqn:Hs; [|done].
  cbn [result_bind]. unfold clear_projections. rewrite He, decide_True by set_solver. cbn [result_bind].
  by rewrite (last_position db Hlog events Hs).
Qed.

Lemma step_wf db db' : database_wf db → store_step db db' →
  database_wf db' ∧ db_events db `prefix_of` db_events db' ∧
  (is_Some (db_checkpoint db) → is_Some (db_checkpoint db')).
Proof.
  intros Hwf Hstep. revert Hwf.
  destruct Hstep as [now db1 pending db1' committed Hr _ Happ|db1 db1' Hre|db1 runID nodeID attemptID db1' Hins|db1 s];
    intros Hwf.
  - destruct (Append_wf _ _ _ _ _ Hwf Hr Happ) as (? & ? & _ & ->). by split_and!.
  - unfold RebuildProjections in Hre. destruct (decide (db_manifests db1 = ∅)) as [He|He];
      [rewrite rebuild_open in Hre by done|by rewrite rebuild_blocked in Hre].
    destruct (replayed_tables db1) as [t|] eqn:Ht; [|done]. injection Hre as <-.
    unfold replayed_tables in Ht. destruct Hwf as [[? ? ? ? ? ? Hlt] Hcp Hm]. destruct Hlt as (events & Hs & _).
    split_and!; [|done|done]. split; cbn; [split; try done|by intros p [= ->]|rewrite He; apply empty_subseteq].
    exists (reread <$> events). rewrite Hs in Ht. split; [|done]. cbn. rewrite Hs. f_equal.
    rewrite <-list_fmap_compose. apply list_fmap_ext. intros i e _. symmetry. apply reread_idemp.
  - unfold insert_manifest in Hins. destruct (t_attempts _ !! attemptID) as [a|] eqn:Ha; [|done].
    case_decide; [|done]. injection Hins as <-. destruct Hwf as [Hlog Hcp Hm]. split_and!; [|done|done].
    split; cbn; [by apply (log_wf_with _ db1)|done|].
    apply elem_of_dom_2 in Ha. clear -Ha Hm. set_solver.
  - destruct Hwf as [Hlog Hcp Hm]. split_and!; [|done|done].
    split; cbn; [by apply (log_wf_with _ db1)|done|done].
Qed.
Lemma steps_wf db db' : database_wf db → rtc store_step db db' →
  database_wf db' ∧ db_events db `prefix_of` db_events db' ∧
  (is_Some (db_checkpoint db) → is_Some (db_checkpoint db')).
Proof.
  intros Hwf Hsteps. induction Hsteps as [db|db db1 db' Hstep _ IH]; [done|].
  destruct (step_wf _ _ Hwf Hstep) as (Hwf1 & Hp & Hc). destruct (IH Hwf1) as (? & ? & ?).
  split_and!; [done|by etrans|auto].
Qed.
Lemma initial_database_wf s : database_wf (initial_database s).
Proof. split; [apply initial_wf|done|done]. Qed.

(** * The log *)

(** (C9) Whatever sequence of transactions a database has been through, its log is sound: the
    global positions are 1, 2, ..., the last position is the number of events and fits an
    int64, event identifiers are unique and so are the commands of an aggregate, the revisions
    of every aggregate are 1, 2, ..., each known aggregate is at the revision of its last event
    and has the type its identifier begins with; and later transactions only add events at the
    end. *)
Theorem log_consistent s db :
  rtc store_step (initial_database s) db →
  numbered (db_events db) ∧ db_last_position db = Z.of_nat (length (db_events db)) ∧
  (db_last_position db ≤ max_int64)%Z ∧ commands_unique (db_events db) ∧
  streams_numbered (db_events db) ∧ (∀ id, aggregate_wf (db_events db) id (db_aggregates db !! id)) ∧
  (∀ db', rtc store_step db db' → db_events db `prefix_of` db_events db').
Proof.
  intros Hsteps. destruct (steps_wf _ _ (initial_database_wf s) Hsteps) as (Hwf & _ & _).
  pose proof (dw_log _ Hwf) as [[? ?] ? ? ? ? ? _]. split_and!; [done..|].
  intros db' Hlater. by destruct (steps_wf _ _ Hwf Hlater) as (_ & ? & _).
Qed.

Lemma repeat_fold now last db pending events committed :
  log_wf last db → Forall2 (commits (db_events db)) pending events → kept_actors pending →
  foldM (append_item now) (db, last, committed) pending = Ok (db, last, committed ++ events).
Proof.
  intros Hwf Hall. revert committed.
  induction Hall as [|item event pending events [Hst Hsame] _ IH]; intros committed Hkept; [by rewrite app_nil_r|].
  apply Forall_cons in Hkept as [Hk Hkept]. cbn [foldM]. unfold append_item at 1.
  assert (ev_Actor event = pe_Actor item) as Hact by (unfold sameTransitionCommand in Hsame; bool_to_prop; done).
  destruct (same_command _ _ Hsame) as [<- <-].
  rewrite (read_stored _ _ _ Hwf Hst), reread_kept by by rewrite Hact. cbn [result_bind]. rewrite Hsame. cbn [result_bind].
  rewrite IH by done. by rewrite <-app_assoc.
Qed.
Lemma validate_each_valid pending :
  Forall (λ item, validatePendingEvent item = Ok tt) pending → validate_each pending = Ok tt.
Proof. unfold validate_each. induction 1 as [|item pending Hi _ IH]; [done|]. cbn [foldM]. by rewrite Hi. Qed.

(** (C10) A transaction is applied once: whatever has been committed since, repeating the
    same pending events answers the events committed the first time and leaves the whole
    database exactly as it is, provided that their actors come back from their texts as they were,
    which actors in UTF-8 do. *)
Theorem append_once s db now pending db1 committed db2 now' :
  rtc store_step (initial_database s) db → readable now pending → kept_actors pending →
  Append now db pending = (db1, Ok committed) → rtc store_step db1 db2 →
  Append now' db2 pending = (db2, Ok committed).
Proof.
  intros Hsteps Hr Hkept Happ Hlater.
  destruct (steps_wf _ _ (initial_database_wf s) Hsteps) as (Hwf & _ & _).
  destruct (Append_wf _ _ _ _ _ Hwf Hr Happ) as (Hwf1 & _ & Hc & Hcp).
  destruct (steps_wf _ _ Hwf1 Hlater) as (Hwf2 & Hp & Hs). rewrite Hcp in Hs.
  destruct Hs as [p Hs]; [done|]. assert (p = db_last_position db2) as -> by (by apply dw_checkpoint).
  destruct (Append_Ok _ _ _ _ _ Happ (dw_log _ Hwf) Hr) as (Hvalid & _).
  assert (validate_each pending = Ok tt) as Hv.
  { apply validate_each_valid. eapply Forall_impl; [exact Hvalid|]. by intros ? []. }
  assert (Forall2 (commits (db_events db2)) pending committed) as Hc2.
  { eapply Forall2_impl; [exact Hc|]. intros ??. by apply commits_prefix. }
  unfold Append. destruct pending as [|item pending]; [done|]. rewrite Hv. cbn [result_bind].
  unfold appendInTransaction. rewrite Hv. cbn [result_bind].
  rewrite (repeat_fold _ _ _ _ _ _ (dw_log _ Hwf2) Hc2 Hkept). cbn [result_bind].
  destruct (lw_last _ _ (dw_log _ Hwf2)) as [Hlen Hmax].
  assert (storable (db_last_position db2) = true) as ->.
  { unfold storable. apply andb_true_iff. split; apply Z.leb_le; lia. }
  cbn [negb]. f_equal. destruct db2. cbn in *. by subst.
Qed.

Lemma new_command db id command :
  (id, command) ∉ (λ row, (er_AggregateID row, er_CommandID row)) <$> db_events db →
  readEventByCommand db id command = Ok None.
Proof.
  intros Hnew. unfold readEventByCommand. rewrite filter_command.
  assert (filter (λ row, (er_AggregateID row, er_CommandID row) = (id, command)) (db_events db) = []) as ->; [|done].
  apply elem_of_nil_inv. intros row [Heq Hin]%list_elem_of_filter. apply Hnew. rewrite <-Heq.
  by apply (list_elem_of_fmap_2 (λ row, (er_AggregateID row, er_CommandID row))).
Qed.

(** (C12) Appending is optimistic concurrency control: a valid event of a new command is
    committed only when the revision it expects is the number of events its aggregate has, as
    the next revision at the next position; when another revision is expected and the ticket
    gate lets the event pass, the answer is a revision conflict that names both, and whatever
    the error is the database is left alone. *)
Theorem append_expects_revision s db now item :
  rtc store_step (initial_database s) db → readable now [item] →
  validatePendingEvent item = Ok tt →
  (pe_AggregateID item, pe_CommandID item) ∉ (λ row, (er_AggregateID row, er_CommandID row)) <$> db_events db →
  let actual := Z.of_nat (length (rows_of (pe_AggregateID item) (db_events db))) in
  match Append now db [item] with
  | (db', Ok committed) =>
      pe_ExpectedRevision item = actual ∧
      ∃ event, committed = [event] ∧ event = new_event now (db_last_position db + 1) item ∧
        ev_AggregateRevision event = (actual + 1)%Z ∧ db_events db' = db_events db ++ [event_row event]
  | (db', Err e) =>
      db' = db ∧
      (is_ok (prepareTicketExecutionEvent now (db_source db) (db_tables db) item) = true →
       pe_ExpectedRevision item ≠ actual →
       e = RevisionConflict (pe_AggregateID item) (pe_ExpectedRevision item) actual)
  end.
Proof.
  intros Hsteps Hr Hvalid Hnew actual.
  destruct (steps_wf _ _ (initial_database_wf s) Hsteps) as (Hwf & _ & _).
  destruct (validate_Ok _ Hvalid) as [_ Hid]. pose proof (dw_log _ Hwf) as Hlog.
  destruct (Append now db [item]) as [db' [committed|e]] eqn:Happ.
  - destruct (Append_Ok _ _ _ _ _ Happ) as (_ & last' & db1 & Hf & _ & _ & ->); [done..|].
    cbn [foldM] in Hf. apply result_bind_Ok in Hf as ([[db2 last2] c] & Hone & [= -> -> ->]).
    unfold append_item in Hone. rewrite new_command in Hone by done. cbn [result_bind] in Hone.
    apply result_bind_Ok in Hone as ([[db3 last3] event] & Ha & Hone). injection Hone as -> -> <-.
    apply append_new_Ok in Ha. destruct (appended_revision Hlog Ha Hid) as [Hexp Hrev].
    split; [done|]. exists event. split; [done|].
    rewrite <-(appended_last Hlog Ha Hid). split_and!; [apply Ha|by rewrite Hrev, Hexp|apply Ha].
  - assert (db' = db ∧ Err e = (let? _ := validate_each [item] in appendInTransaction now db [item])) as [-> He].
    { unfold Append in Happ. destruct (let? _ := _ in _) as [[? ?]|e']; [done|].
      injection Happ as <- <-. done. }
    split; [done|]. intros Hgate Hne. revert He. unfold appendInTransaction.
    rewrite validate_each_valid by by constructor. cbn [result_bind foldM].
    unfold append_item. rewrite new_command by done. cbn [result_bind]. unfold append_new.
    destruct (prepareTicketExecutionEvent _ _ _ _); [|done]. cbn [result_bind].
    assert (∃ known, readAggregateRevision db (pe_AggregateID item) (pe_AggregateType item) = Ok (actual, known)) as [known ->].
    { pose proof (lw_aggregates _ _ Hlog (pe_AggregateID item)) as Hagg. unfold readAggregateRevision, actual.
      destruct (db_aggregates db !! _) as [[type revision]|]; simpl in Hagg.
      - destruct Hagg as (-> & _ & Htype). rewrite (aggregate_id_prefix _ Hid) in Htype. injection Htype as <-.
        rewrite decide_False by (intros Hn; by apply Hn). by eexists.
      - rewrite Hagg. by eexists. }
    cbn [result_bind fst]. rewrite decide_True by done. by intros [= ->].
Qed.

(** ** Actors that are kept *)
Lemma step_any accepts db db' : step_of accepts db db' → store_step db db'.
Proof. intros []; by econstructor. Qed.
Lemma append_item_replays now db last committed item db' last' committed' :
  log_wf last db → valid_item now item → actor_kept (pe_Actor item) = true → replayed_tables db = Ok (db_tables db) →
  append_item now (db, last, committed) item = Ok (db', last', committed') → replayed_tables db' = Ok (db_tables db').
Proof.
  intros Hwf (Hvalid & Hnow & Hocc) Hkept Ht (existing & Hread & Hok)%result_bind_Ok.
  destruct (validate_Ok _ Hvalid) as [Hv Hid]. destruct existing as [event|].
  - destruct (sameTransitionCommand event item) eqn:Hsame; [|done]. by injection Hok as <- <- <-.
  - apply result_bind_Ok in Hok as ([[db1 last1] event] & Hnew & Hok). injection Hok as <- <- <-.
    apply append_new_Ok in Hnew as Happ. unfold replayed_tables in *.
    rewrite (ad_events _ _ _ _ _ _ _ Happ), scanEvents_app. apply result_bind_Ok in Ht as (events & -> & Ht).
    cbn [result_bind]. rewrite scan_event_row by (by eapply appended_event_wf). cbn [result_bind].
    rewrite reread_kept by by rewrite (ad_event _ _ _ _ _ _ _ Happ).
    rewrite foldM_app, Ht. cbn. by rewrite (ad_tables _ _ _ _ _ _ _ Happ).
Qed.
Lemma append_fold_replays now pending db last committed db' last' committed' :
  log_wf last db → Forall (valid_item now) pending → kept_actors pending → replayed_tables db = Ok (db_tables db) →
  foldM (append_item now) (db, last, committed) pending = Ok (db', last', committed') → replayed_tables db' = Ok (db_tables db').
Proof.
  revert db last committed. induction pending as [|item pending IH]; intros db last committed Hwf Hall Hkept Ht Hfold.
  - by injection Hfold as <- <- <-.
  - apply Forall_cons in Hall as [Hitem Hall]. apply Forall_cons in Hkept as [Hk Hkept]. cbn [foldM] in Hfold.
    apply result_bind_Ok in Hfold as ([[db1 last1] committed1] & Hone & Hfold).
    destruct (append_item_Ok _ _ _ _ _ _ _ _ Hwf Hitem Hone) as ([Hwf1 _ _] & _).
    eapply IH; [exact Hwf1|done|done| |exact Hfold]. eapply append_item_replays; [exact Hwf|done..|exact Hone].
Qed.
Lemma kept_step_replays db db' : database_wf db → step_of kept_actors db db' →
  replayed_tables db = Ok (db_tables db) → replayed_tables db' = Ok (db_tables db').
Proof.
  intros Hwf Hstep. revert Hwf.
  destruct Hstep as [now db1 pending db1' committed Hr Hkept Happ|db1 db1' Hre|db1 runID nodeID attemptID db1' Hins|db1 s];
    intros Hwf Ht.
  - destruct (Append_Ok _ _ _ _ _ Happ (dw_log _ Hwf) Hr) as (Hvalid & last' & db2 & Hf & _ & _ & ->).
    by eapply (append_fold_replays _ _ _ _ _ db2) in Hf; [|apply Hwf|..].
  - unfold RebuildProjections in Hre. destruct (decide (db_manifests db1 = ∅)) as [He|He];
      [rewrite rebuild_open in Hre by done|by rewrite rebuild_blocked in Hre].
    rewrite Ht in Hre. cbn in Hre. by injection Hre as <-.
  - unfold insert_manifest in Hins. destruct (t_attempts _ !! attemptID); [|done]. case_decide; [|done]. by injection Hins as <-.
  - done.
Qed.
Lemma kept_steps_replay s db : rtc (step_of kept_actors) (initial_database s) db →
  database_wf db ∧ replayed_tables db = Ok (db_tables db).
Proof.
  assert (∀ db1, database_wf db1 ∧ replayed_tables db1 = Ok (db_tables db1) → rtc (step_of kept_actors) db1 db →
    database_wf db ∧ replayed_tables db = Ok (db_tables db)) as Hind.
  2: { intros Hsteps. apply (Hind (initial_database s)); [|exact Hsteps]. split; [apply initial_database_wf|reflexivity]. }
  intros db1 Hdb1 Hsteps. induction Hsteps as [|db1 db2 db Hstep _ IH]; [done|]. apply IH. destruct Hdb1 as [Hwf Ht].
  destruct (step_wf _ _ Hwf (step_any _ _ _ Hstep)) as (? & _). split; [done|exact (kept_step_replays _ _ Hwf Hstep Ht)].
Qed.

(** (C11) The projections are a function of the log: as long as the actors of the events come back
    from their texts as they were, which actors in UTF-8 do, rebuilding the projections changes
    nothing in a database that transactions have made, except that it moves the checkpoint to the
    last position; but as soon as one context manifest has been stored a rebuild fails, because
    the manifest holds the row of its attempt. *)
Theorem rebuild_reproduces s db :
  rtc (step_of kept_actors) (initial_database s) db →
  RebuildProjections db =
    if decide (db_manifests db = ∅) then (with_checkpoint (db_last_position db) db, Ok tt)
    else (db, Err (StoreConstraint "attempt_projection")).
Proof.
  intros [Hwf Ht]%kept_steps_replay. unfold RebuildProjections. case_decide as He.
  - rewrite rebuild_open, Ht by done. cbn. by destruct db.
  - by rewrite rebuild_blocked.
Qed.
End log.

(** * Examples *)
Definition no_tickets : TicketSource := {|
  source_state := unit; workLineage := λ _ _, Ok None; admissions := λ _ _ _, 0%Z;
  outbox_settled := λ _ _ _ _, true; approvedRunSource := λ _ _ _ _, Err (SourceRefused "no tickets");
  persistRunSourceSnapshot := λ s _, Ok s |}.
(** Identifiers end in 26 characters. *)
Definition ex_payload (n : string) : string := "0000000000000000000000000" +:+ n.
Definition ex_id (type n : string) : string := type +:+ "_" +:+ ex_payload n.
Definition ex_pending (n : string) (type : AggregateType) (aggregate : string) (expected : Z) (kind data : string)
  : PendingEvent := {|
  pe_SchemaVersion := 1; pe_ID := ex_id "event" n; pe_AggregateType := type;
  pe_AggregateID := ex_id type aggregate; pe_ExpectedRevision := expected; pe_Kind := kind;
  pe_OccurredAt := 0; pe_CorrelationID := ex_id "run" "1"; pe_CausationID := None;
  pe_CommandID := "command" +:+ n; pe_Actor := {| actor_Type := ActorUser; actor_ID := "user_1" |};
  pe_Data := quoted data; pe_Metadata := "{}" |}.
Definition ex_hash : string :=
  "'0123456789abcdef0123456789abcdef0123456789abcdef0123456789abcdef'".
Definition ex_project_created : PendingEvent :=
  ex_pending "1" AggregateProject "1" 0 "project.created" ("{'Name':'p','SourceHash':" +:+ ex_hash +:+ "}").
Definition ex_work_created : PendingEvent :=
  ex_pending "2" AggregateWork "1" 0 "work.created"
    ("{'projectId':'" +:+ ex_id "project" "1" +:+ "','title':'t','sourceHash':" +:+ ex_hash +:+ "}").
Definition ex_run_created : PendingEvent :=
  ex_pending "3" AggregateRun "1" 0 "run.created"
    ("{'workItemId':'" +:+ ex_id "work" "1" +:+ "','workflowId':'w','workflowVersion':'1.0.0'}").
Definition ex_attempt_created : PendingEvent :=
  ex_pending "4" AggregateAttempt "1" 0 "attempt.created"
    ("{'runId':'" +:+ ex_id "run" "1" +:+ "','visitId':'visit_1','nodeId':'a','scenario':'s','provider':'p','logReference':'l'}").
Definition ex_batch : list PendingEvent := [ex_project_created; ex_work_created; ex_run_created; ex_attempt_created].

Section examples.
#[local] Existing Instances ex_sqlite ascii_lower no_tickets.
Definition ex_source : source_state := ().
Definition ex_initial : Database := initial_database ex_source.
Definition ex_db : Database := (Append 5 ex_initial ex_batch).1.
Definition ex_committed : list Event := match (Append 5 ex_initial ex_batch).2 with Ok l => l | Err _ => [] end.
Definition ex_frozen : Database :=
  match insert_manifest ex_db (ex_id "run" "1") "a" (ex_id "attempt" "1") with Ok db => db | Err _ => ex_db end.

Lemma ex_append : Append 5 ex_initial ex_batch = (ex_db, Ok ex_committed).
Proof. vm_compute. reflexivity. Qed.
Lemma ex_steps_of (accepts : list PendingEvent → Prop) : accepts ex_batch → rtc (step_of accepts) ex_initial ex_db.
Proof. intros Ha. apply rtc_once, (step_append _ 5 _ ex_batch _ ex_committed); [split; [done|by repeat constructor]|done|apply ex_append]. Qed.
Lemma ex_frozen_steps_of (accepts : list PendingEvent → Prop) : accepts ex_batch → rtc (step_of accepts) ex_initial ex_frozen.
Proof.
  intros Ha. eapply rtc_r; [by apply ex_steps_of|].
  apply (step_manifest _ _ (ex_id "run" "1") "a" (ex_id "attempt" "1")). vm_compute. reflexivity.
Qed.
Lemma ex_steps : rtc store_step ex_initial ex_db.
Proof. by apply ex_steps_of. Qed.
Lemma ex_frozen_steps : rtc store_step ex_initial ex_frozen.
Proof. by apply ex_frozen_steps_of. Qed.
Lemma ex_kept : kept_actors ex_batch.
Proof. unfold kept_actors, ex_batch. repeat (apply Forall_cons; split); [vm_compute; reflexivity..|constructor]. Qed.

Lemma log_consistent_witness :
  length (db_events ex_db) = 4 ∧ numbered (db_events ex_db) ∧ streams_numbered (db_events ex_db).
Proof.
  split; [vm_compute; reflexivity|].
  destruct (log_consistent ex_source ex_db ex_steps) as (? & _ & _ & _ & ? & _). done.
Defined.
Lemma append_once_witness :
  length ex_committed = 4 ∧ Append 9 ex_frozen ex_batch = (ex_frozen, Ok ex_committed).
Proof.
  split; [vm_compute; reflexivity|].
  apply (append_once ex_source ex_initial 5 ex_batch ex_db).
  - constructor.
  - split; [done|by repeat constructor].
  - exact ex_kept.
  - apply ex_append.
  - apply rtc_once, (step_manifest _ _ (ex_id "run" "1") "a" (ex_id "attempt" "1")). vm_compute. reflexivity.
Defined.
Definition ex_stale : PendingEvent := ex_pending "5" AggregateRun "1" 0 "run.started" "{}".
Lemma ex_stale_new :
  (pe_AggregateID ex_stale, pe_CommandID ex_stale) ∉
  (λ row, (er_AggregateID row, er_CommandID row)) <$> db_events ex_db.
Proof. refine (bool_decide_eq_true_1 _ _). vm_compute. reflexivity. Qed.
Lemma append_expects_revision_witness :
  (Append 6 ex_db [ex_stale]).2 = Err (RevisionConflict (ex_id "run" "1") 0 1).
Proof.
  pose proof (append_expects_revision ex_source ex_db 6 ex_stale ex_steps) as Hok. cbn zeta in Hok.
  destruct (Append 6 ex_db [ex_stale]) as [db' [committed|e]].
  - exfalso. destruct Hok as [Hexp _].
    + split; [done|by repeat constructor].
    + vm_compute. reflexivity.
    + exact ex_stale_new.
    + vm_compute in Hexp. discriminate Hexp.
  - cbn. f_equal. apply Hok.
    + split; [done|by repeat constructor].
    + vm_compute. reflexivity.
    + exact ex_stale_new.
    + vm_compute. reflexivity.
    + vm_compute. discriminate.
Defined.
Lemma rebuild_reproduces_witness :
  (RebuildProjections ex_db).2 = Ok tt ∧
  RebuildProjections ex_frozen = (ex_frozen, Err (StoreConstraint "attempt_projection")).
Proof.
  rewrite (rebuild_reproduces ex_source ex_db (ex_steps_of _ ex_kept)),
    (rebuild_reproduces ex_source ex_frozen (ex_frozen_steps_of _ ex_kept)).
  split; vm_compute; reflexivity.
Defined.
(** An actor whose identifier is not UTF-8 passes the validation, but does not come back from the
    log: the repeated transaction conflicts with itself, and a rebuild changes who decided. *)
Definition ex_unkept : list PendingEvent := [
  ex_pending "5" AggregateApproval "1" 0 "approval.requested"
    ("{'runId':'" +:+ ex_id "run" "1" +:+ "','class':'workflow_checkpoint','scopeDigest':'s','policyDigest':'p'}");
  let decided := ex_pending "6" AggregateApproval "1" 1 "approval.decided"
    "{'action':'approve','scopeDigest':'s','policyDigest':'p'}" in {|
  pe_SchemaVersion := 1; pe_ID := pe_ID decided; pe_AggregateType := pe_AggregateType decided;
  pe_AggregateID := pe_AggregateID decided; pe_ExpectedRevision := 1; pe_Kind := pe_Kind decided;
  pe_OccurredAt := 0; pe_CorrelationID := pe_CorrelationID decided; pe_CausationID := None;
  pe_CommandID := pe_CommandID decided;
  pe_Actor := {| actor_Type := ActorUser; actor_ID := "a" +:+ bytes [255%N] |};
  pe_Data := pe_Data decided; pe_Metadata := "{}" |}].
Definition decided_by (db : Database) : option string :=
  approval ← t_approvals (db_tables db) !! ex_id "approval" "1"; decision ← app_Decision approval;
  Some (actor_ID (dec_Actor decision)).
Example unkept_actor_changes :
  let '(db, first) := Append 6 ex_db ex_unkept in
  let '(rebuilt, result) := RebuildProjections db in
  is_ok first = true ∧ result = Ok tt ∧
  (Append 7 db ex_unkept).2 = Err (IdempotencyConflict (ex_id "approval" "1") "command6") ∧
  decided_by db = Some ("a" +:+ bytes [255%N]) ∧ decided_by rebuilt = Some ("a" +:+ replacement).
Proof. vm_compute. repeat split. Qed.
End examples.
