(* ===== verification/Coordination.v ===== *)
(** Leases and queues: [adapters/statestore/sqlite/coordination.go] over the tables of migration
    0004.  A scope is owned through a lease that carries a fencing token; writers of a
    repository wait in a queue.

    A transaction answers an error or the next tables with its result, so that an error leaves
    the tables as they were; [now] is the clock it reads. *)
From S2P Require Import Prelude GoStrings GoJson GoSort StateStore GoTime StoreTables EventStore.
From stdpp Require Import options.

(** * Leases and queue entries *)
Abbreviation LeaseScopeKind := string (only parsing).
Abbreviation LeaseState := string (only parsing).
Abbreviation QueueKind := string (only parsing).
Abbreviation Duration := Z (only parsing).  (* nanoseconds *)

Definition LeaseScopeAttempt : LeaseScopeKind := "attempt".
Definition LeaseScopeRepository : LeaseScopeKind := "repository".
Definition LeaseScopeWorktree : LeaseScopeKind := "worktree".
Definition LeaseHeld : LeaseState := "held".
Definition LeaseReleasing : LeaseState := "releasing".
Definition LeaseReleased : LeaseState := "released".
Definition LeaseReconcileRequired : LeaseState := "reconcile_required".
Definition QueueAttempt : QueueKind := "attempt".
Definition QueueRepositoryWrite : QueueKind := "repository_write".
Definition DefaultLeaseDuration : Duration := (30 * second)%Z.
Definition MaximumHeartbeatInterval : Duration := (10 * second)%Z.

Record LeaseGuard := {
  gd_LeaseID : string; gd_HolderAttemptID : string; gd_DaemonInstanceID : string; gd_FencingToken : Z;
}.
Record Lease := {
  ls_LeaseID : string; ls_ScopeKind : LeaseScopeKind; ls_ScopeID : string;
  ls_HolderAttemptID : string; ls_DaemonInstanceID : string; ls_FencingToken : Z;
  ls_AcquiredAt : Time; ls_HeartbeatAt : Time; ls_ExpiresAt : Time; ls_HostBootID : string;
  ls_ProcessIdentity : option RawMessage; ls_State : LeaseState; ls_Evidence : option RawMessage;
  ls_ReleasedAt : option Time;
}.
Record AcquireLeaseRequest := {
  rq_LeaseID : string; rq_ScopeKind : LeaseScopeKind; rq_ScopeID : string;
  rq_HolderAttemptID : string; rq_DaemonInstanceID : string; rq_HostBootID : string;
  rq_ExpectedFencingToken : Z; rq_Duration : Duration; rq_ProcessIdentity : RawMessage;
}.
Record QueueEntry := {
  qe_Kind : QueueKind; qe_ScopeID : string; qe_ItemID : string; qe_Priority : Z;
  qe_AvailableAt : Time; qe_EnqueuedAt : Time; qe_Payload : RawMessage;
}.
Record EnqueueRequest := {
  nq_Kind : QueueKind; nq_ScopeID : string; nq_ItemID : string; nq_Priority : Z;
  nq_AvailableAt : Time; nq_Payload : RawMessage;
}.

(** [lease_scopes] (the last token of each scope), [leases] and [queue_entries]. *)
Record Coordination := {
  co_scopes : gmap (LeaseScopeKind * string) Z;
  co_leases : gmap string Lease;
  co_queue : gmap (QueueKind * string * string) QueueEntry;
}.
Definition empty_coordination : Coordination := {| co_scopes := ∅; co_leases := ∅; co_queue := ∅ |}.

Inductive lease_error :=
| LeaseInvalid (message : msg)
| LeaseConstraint (table : string)
| LeaseUnreadable (what : string)
| LeaseNotFound (Kind ID : string)
| FencingConflict (ScopeKind ScopeID : string) (Expected Actual : Z)
| LeaseHeldError (ScopeKind ScopeID LeaseID : string) (State : LeaseState) (ExpiresAt : Time)
| LeaseGuardConflict (LeaseID : string)
| LeaseExpired (LeaseID : string) (ExpiresAt : Time)
| QueueConflict (Kind ScopeID ItemID : string)
| QueueHeadMismatch (ScopeID Want Actual : string).
Abbreviation lease_result := (result lease_error).
Definition lease_invalid {A} (format : string) (args : list msg_arg) : lease_result A :=
  Err (LeaseInvalid (Msg format args)).

(** A transaction is committed, or rolled back with its error. *)
Definition transact {S E A} (f : S → result E (S * A)) (s : S) : S * result E A :=
  match f s with Ok (s, a) => (s, Ok a) | Err e => (s, Err e) end.

(** * JSON objects *)

(** [json.Compact] of a valid text: the white space between tokens is dropped. *)
Inductive lexer := Outside | Inside | Escaped.
#[global] Instance lexer_eq_dec : EqDecision lexer.
Proof. solve_decision. Defined.
Fixpoint compact (state : lexer) (s : string) : string :=
  match s with
  | EmptyString => ""
  | String c s =>
      match state with
      | Outside =>
          if bool_decide (c ∈ [" "; "009"; "010"; "013"]%char) then compact Outside s
          else String c (compact (if bool_decide (c = "034"%char) then Inside else Outside) s)
      | Inside =>
          String c (compact (if bool_decide (c = "034"%char) then Outside
                             else if bool_decide (c = "\"%char) then Escaped else Inside) s)
      | Escaped => String c (compact Inside s)
      end
  end.
Definition requiredJSONObject (value : RawMessage) : lease_result RawMessage :=
  if decide (value = "") then lease_invalid "JSON object is required" []
  else if negb (jsonObject value) then lease_invalid "value must be a JSON object" []
  else Ok (compact Outside value).
Definition nullableJSONObject (value : RawMessage) : lease_result (option RawMessage) :=
  if decide (value = "") then Ok None
  else let? normalized := requiredJSONObject value in Ok (Some normalized).

(** * Validation *)
Definition normalizeLeaseDuration (duration : Duration) : Duration :=
  if decide (duration = 0%Z) then DefaultLeaseDuration else duration.
Definition validateLeaseDuration (duration : Duration) : lease_result unit :=
  if (duration <? MaximumHeartbeatInterval)%Z
  then lease_invalid "lease duration must be at least %s: %s" [AInt MaximumHeartbeatInterval; AInt duration]
  else Ok tt.
Definition validateAcquireLeaseRequest (request : AcquireLeaseRequest) : lease_result unit :=
  if decide (rq_LeaseID request = "" ∨ rq_ScopeID request = "" ∨ rq_HolderAttemptID request = "" ∨
             rq_DaemonInstanceID request = "" ∨ rq_HostBootID request = "") then
    lease_invalid "lease ID, scope ID, holder attempt ID, daemon instance ID, and host boot ID are required" []
  else if negb (member [LeaseScopeAttempt; LeaseScopeRepository; LeaseScopeWorktree] (rq_ScopeKind request)) then
    lease_invalid "invalid lease scope kind %q" [AStr (rq_ScopeKind request)]
  else
    let? _ := validateLeaseDuration (normalizeLeaseDuration (rq_Duration request)) in
    let? _ := nullableJSONObject (rq_ProcessIdentity request) in
    Ok tt.
Definition validateLeaseGuard (guard : LeaseGuard) : lease_result unit :=
  if decide (gd_LeaseID guard = "" ∨ gd_HolderAttemptID guard = "" ∨ gd_DaemonInstanceID guard = "" ∨
             gd_FencingToken guard = 0%Z) then
    lease_invalid "lease ID, holder attempt ID, daemon instance ID, and fencing token are required" []
  else Ok tt.
Definition validateQueueCoordinates (kind : QueueKind) (scopeID itemID : string) : lease_result unit :=
  if negb (member [QueueAttempt; QueueRepositoryWrite] kind) then
    lease_invalid "invalid queue kind %q" [AStr kind]
  else if decide (scopeID = "" ∨ itemID = "") then
    lease_invalid "queue scope ID and item ID are required" []
  else Ok tt.
Definition validateEnqueueRequest (request : EnqueueRequest) : lease_result RawMessage :=
  let? _ := validateQueueCoordinates (nq_Kind request) (nq_ScopeID request) (nq_ItemID request) in
  if (nq_Priority request <? 0)%Z then
    lease_invalid "queue priority must be non-negative: %d" [AInt (nq_Priority request)]
  else if decide (nq_AvailableAt request = zero_time) then
    lease_invalid "queue availability time is required" []
  else requiredJSONObject (nq_Payload request).

(** * Reading *)

(** [scanLease] reads what [formatTime] wrote. *)
Definition scanLease (lease : Lease) : lease_result Lease :=
  if parses_back (ls_AcquiredAt lease) && parses_back (ls_HeartbeatAt lease) &&
     parses_back (ls_ExpiresAt lease) &&
     match ls_ReleasedAt lease with Some at_ => parses_back at_ | None => true end
  then Ok lease else Err (LeaseUnreadable "lease").
Definition readLeaseByID (c : Coordination) (id : string) : lease_result (option Lease) :=
  match co_leases c !! id with
  | None => Ok None
  | Some lease => let? lease := scanLease lease in Ok (Some lease)
  end.
(** The unreleased leases of a scope; the index [leases_one_active_scope] allows one. *)
Definition active_leases (c : Coordination) (kind : LeaseScopeKind) (scopeID : string) : list Lease :=
  filter (λ lease, ls_ScopeKind lease = kind ∧ ls_ScopeID lease = scopeID ∧ ls_State lease ≠ LeaseReleased)
    (map_to_list (co_leases c)).*2.
Definition readActiveLease (c : Coordination) (kind : LeaseScopeKind) (scopeID : string)
  : lease_result (option Lease) :=
  match active_leases c kind scopeID with
  | [] => Ok None
  | lease :: _ => let? lease := scanLease lease in Ok (Some lease)
  end.
Definition readGuardedLease (c : Coordination) (guard : LeaseGuard) : lease_result Lease :=
  let? found := readLeaseByID c (gd_LeaseID guard) in
  match found with
  | None => Err (LeaseNotFound "lease" (gd_LeaseID guard))
  | Some lease =>
      if decide (ls_HolderAttemptID lease ≠ gd_HolderAttemptID guard ∨
                 ls_DaemonInstanceID lease ≠ gd_DaemonInstanceID guard ∨
                 ls_FencingToken lease ≠ gd_FencingToken guard)
      then Err (LeaseGuardConflict (gd_LeaseID guard))
      else Ok lease
  end.

(** [Time.Sub] saturates; a [Duration] is an int64. *)
Definition time_sub (a b : Time) : Duration := Z.max (- max_int64 - 1) (Z.min max_int64 (a - b)).
Definition leaseMatchesRequest (lease : Lease) (request : AcquireLeaseRequest) : bool :=
  match nullableJSONObject (rq_ProcessIdentity request) with
  | Err _ => false
  | Ok processIdentity =>
      bool_decide (ls_ScopeKind lease = rq_ScopeKind request) &&
      bool_decide (ls_ScopeID lease = rq_ScopeID request) &&
      bool_decide (ls_HolderAttemptID lease = rq_HolderAttemptID request) &&
      bool_decide (ls_DaemonInstanceID lease = rq_DaemonInstanceID request) &&
      bool_decide (ls_HostBootID lease = rq_HostBootID request) &&
      bool_decide (ls_FencingToken lease = uint64 (rq_ExpectedFencingToken request + 1)) &&
      bool_decide (time_sub (ls_ExpiresAt lease) (ls_AcquiredAt lease) =
                   normalizeLeaseDuration (rq_Duration request)) &&
      bool_decide (default "" (ls_ProcessIdentity lease) = default "" processIdentity)
  end.

(** * Leases *)
Section leases.
Context `{!SqliteJson}.
Implicit Types c : Coordination.

Definition with_lease (lease : Lease) c : Coordination := {|
  co_scopes := co_scopes c; co_leases := <[ls_LeaseID lease := lease]> (co_leases c);
  co_queue := co_queue c |}.
Definition with_token (kind : LeaseScopeKind) (scopeID : string) (token : Z) c : Coordination := {|
  co_scopes := <[(kind, scopeID) := token]> (co_scopes c); co_leases := co_leases c;
  co_queue := co_queue c |}.
Definition with_queue (queue : gmap (QueueKind * string * string) QueueEntry) c : Coordination := {|
  co_scopes := co_scopes c; co_leases := co_leases c; co_queue := queue |}.

Definition nullable_json_valid (value : option RawMessage) : bool :=
  match value with Some value => json_valid value | None => true end.
(** The constraints of every row: evidence and release time go with the state. *)
Definition lease_columns (lease : Lease) : bool :=
  match ls_Evidence lease, ls_ReleasedAt lease with
  | None, None => member [LeaseHeld; LeaseReleasing] (ls_State lease)
  | Some _, Some _ => bool_decide (ls_State lease = LeaseReleased)
  | Some _, None => bool_decide (ls_State lease = LeaseReconcileRequired)
  | None, Some _ => false
  end.
Definition lease_update_ok (lease : Lease) : bool :=
  nullable_json_valid (ls_Evidence lease) && lease_columns lease.
(** The constraints of a new row of [leases]: its identifier and its token of the scope are new,
    and the scope has no other unreleased lease. *)
Definition lease_row_ok c (lease : Lease) : bool :=
  bool_decide (co_leases c !! ls_LeaseID lease = None) && positive (ls_FencingToken lease) &&
  nullable_json_valid (ls_ProcessIdentity lease) && lease_update_ok lease &&
  forallb (λ other, negb (bool_decide (ls_ScopeKind other = ls_ScopeKind lease ∧
                                       ls_ScopeID other = ls_ScopeID lease ∧
                                       ls_FencingToken other = ls_FencingToken lease)))
    (map_to_list (co_leases c)).*2 &&
  bool_decide (active_leases c (ls_ScopeKind lease) (ls_ScopeID lease) = []).
Definition new_lease (now : Time) (request : AcquireLeaseRequest) (token : Z)
    (processIdentity : option RawMessage) : Lease := {|
  ls_LeaseID := rq_LeaseID request; ls_ScopeKind := rq_ScopeKind request;
  ls_ScopeID := rq_ScopeID request; ls_HolderAttemptID := rq_HolderAttemptID request;
  ls_DaemonInstanceID := rq_DaemonInstanceID request; ls_FencingToken := token;
  ls_AcquiredAt := now; ls_HeartbeatAt := now;
  ls_ExpiresAt := now + normalizeLeaseDuration (rq_Duration request);
  ls_HostBootID := rq_HostBootID request; ls_ProcessIdentity := processIdentity;
  ls_State := LeaseHeld; ls_Evidence := None; ls_ReleasedAt := None |}.

(** Reading back the row that was just written. *)
Definition written_lease c (id : string) : lease_result (Coordination * Lease) :=
  let? found := readLeaseByID c id in
  match found with Some lease => Ok (c, lease) | None => Err (LeaseNotFound "lease" id) end.
(** A lease that exists already is answered again when the request is the same; otherwise the
    scope's last token must be the expected one and no lease may be unreleased. *)
Definition acquireLeaseTx (now : Time) (request : AcquireLeaseRequest) c
  : lease_result (Coordination * Lease) :=
  let kind := rq_ScopeKind request in
  let scopeID := rq_ScopeID request in
  let? existing := readLeaseByID c (rq_LeaseID request) in
  match existing with
  | Some lease => if leaseMatchesRequest lease request then Ok (c, lease)
                  else Err (LeaseGuardConflict (rq_LeaseID request))
  | None =>
      let actual := default 0%Z (co_scopes c !! (kind, scopeID)) in
      if decide (actual ≠ rq_ExpectedFencingToken request) then
        Err (FencingConflict kind scopeID (rq_ExpectedFencingToken request) actual)
      else
        let? active := readActiveLease c kind scopeID in
        match active with
        | Some lease =>
            Err (LeaseHeldError kind scopeID (ls_LeaseID lease) (ls_State lease) (ls_ExpiresAt lease))
        | None =>
            let token := uint64 (actual + 1) in
            let? processIdentity := nullableJSONObject (rq_ProcessIdentity request) in
            let lease := new_lease now request token processIdentity in
            if negb (lease_row_ok c lease) then Err (LeaseConstraint "leases")
            else written_lease (with_token kind scopeID token (with_lease lease c)) (rq_LeaseID request)
        end
  end.
Definition AcquireLease (now : Time) (request : AcquireLeaseRequest)
  : Coordination → Coordination * lease_result Lease :=
  transact (λ c, let? _ := validateAcquireLeaseRequest request in acquireLeaseTx now request c).

Definition with_heartbeat (now expires : Time) (lease : Lease) : Lease := {|
  ls_LeaseID := ls_LeaseID lease; ls_ScopeKind := ls_ScopeKind lease; ls_ScopeID := ls_ScopeID lease;
  ls_HolderAttemptID := ls_HolderAttemptID lease; ls_DaemonInstanceID := ls_DaemonInstanceID lease;
  ls_FencingToken := ls_FencingToken lease; ls_AcquiredAt := ls_AcquiredAt lease;
  ls_HeartbeatAt := now; ls_ExpiresAt := expires; ls_HostBootID := ls_HostBootID lease;
  ls_ProcessIdentity := ls_ProcessIdentity lease; ls_State := ls_State lease;
  ls_Evidence := ls_Evidence lease; ls_ReleasedAt := ls_ReleasedAt lease |}.
Definition not_held {A} (lease : Lease) : lease_result A :=
  lease_invalid "lease %s is %s, not held" [AStr (ls_LeaseID lease); AStr (ls_State lease)].
Definition HeartbeatLease (now : Time) (guard : LeaseGuard) (duration : Duration)
  : Coordination → Coordination * lease_result Lease :=
  transact (λ c,
    let? _ := validateLeaseGuard guard in
    let? _ := validateLeaseDuration duration in
    let? lease := readGuardedLease c guard in
    if decide (ls_State lease ≠ LeaseHeld) then not_held lease
    else if (now <? ls_HeartbeatAt lease)%Z then
      lease_invalid "lease %s clock regressed from %s to %s"
        [AStr (ls_LeaseID lease); AInt (ls_HeartbeatAt lease); AInt now]
    else if (ls_ExpiresAt lease <? now)%Z then Err (LeaseExpired (ls_LeaseID lease) (ls_ExpiresAt lease))
    else written_lease (with_lease (with_heartbeat now (now + duration)%Z lease) c) (ls_LeaseID lease)).

(** The columns of [UPDATE leases SET state = ...]. *)
Definition with_state (state : LeaseState) (evidence : option RawMessage) (released : option Time)
    (lease : Lease) : Lease := {|
  ls_LeaseID := ls_LeaseID lease; ls_ScopeKind := ls_ScopeKind lease; ls_ScopeID := ls_ScopeID lease;
  ls_HolderAttemptID := ls_HolderAttemptID lease; ls_DaemonInstanceID := ls_DaemonInstanceID lease;
  ls_FencingToken := ls_FencingToken lease; ls_AcquiredAt := ls_AcquiredAt lease;
  ls_HeartbeatAt := ls_HeartbeatAt lease; ls_ExpiresAt := ls_ExpiresAt lease;
  ls_HostBootID := ls_HostBootID lease; ls_ProcessIdentity := ls_ProcessIdentity lease;
  ls_State := state; ls_Evidence := evidence; ls_ReleasedAt := released |}.
(** The row after a transition, or [None] when it stays as it is. *)
Definition transitionGuardedLease (guard : LeaseGuard) (transition : Lease → lease_result (option Lease)) c
  : lease_result (Coordination * Lease) :=
  let? _ := validateLeaseGuard guard in
  let? lease := readGuardedLease c guard in
  let? next := transition lease in
  match next with
  | None => written_lease c (gd_LeaseID guard)
  | Some next =>
      if lease_update_ok next then written_lease (with_lease next c) (gd_LeaseID guard)
      else Err (LeaseConstraint "leases")
  end.

Definition begin_release (lease : Lease) : lease_result (option Lease) :=
  if decide (ls_State lease = LeaseReleasing) then Ok None
  else if decide (ls_State lease ≠ LeaseHeld) then
    lease_invalid "lease %s cannot begin release from %s" [AStr (ls_LeaseID lease); AStr (ls_State lease)]
  else Ok (Some (with_state LeaseReleasing (ls_Evidence lease) (ls_ReleasedAt lease) lease)).
Definition BeginLeaseRelease (guard : LeaseGuard) : Coordination → Coordination * lease_result Lease :=
  transact (transitionGuardedLease guard begin_release).

Definition complete_release (now : Time) (evidence : RawMessage) (lease : Lease)
  : lease_result (option Lease) :=
  if decide (ls_State lease = LeaseReleased) then
    if decide (default "" (ls_Evidence lease) = evidence) then Ok None
    else lease_invalid "lease %s was released with different evidence" [AStr (ls_LeaseID lease)]
  else if decide (ls_State lease ≠ LeaseReleasing ∧ ls_State lease ≠ LeaseReconcileRequired) then
    lease_invalid "lease %s cannot complete release from %s" [AStr (ls_LeaseID lease); AStr (ls_State lease)]
  else Ok (Some (with_state LeaseReleased (Some evidence) (Some now) lease)).
Definition CompleteLeaseRelease (now : Time) (guard : LeaseGuard) (evidence : RawMessage)
  : Coordination → Coordination * lease_result Lease :=
  transact (λ c,
    let? normalized := requiredJSONObject evidence in
    transitionGuardedLease guard (complete_release now normalized) c).

Definition require_reconcile (evidence : RawMessage) (lease : Lease) : lease_result (option Lease) :=
  if decide (ls_State lease = LeaseReconcileRequired) then
    if decide (default "" (ls_Evidence lease) = evidence) then Ok None
    else lease_invalid "lease %s already requires reconciliation with different evidence"
           [AStr (ls_LeaseID lease)]
  else if decide (ls_State lease ≠ LeaseHeld ∧ ls_State lease ≠ LeaseReleasing) then
    lease_invalid "lease %s cannot require reconciliation from %s"
      [AStr (ls_LeaseID lease); AStr (ls_State lease)]
  else Ok (Some (with_state LeaseReconcileRequired (Some evidence) (ls_ReleasedAt lease) lease)).
Definition MarkLeaseReconcileRequired (guard : LeaseGuard) (evidence : RawMessage)
  : Coordination → Coordination * lease_result Lease :=
  transact (λ c,
    let? normalized := requiredJSONObject evidence in
    transitionGuardedLease guard (require_reconcile normalized) c).

Definition ValidateLease (now : Time) (kind : LeaseScopeKind) (scopeID : string) (guard : LeaseGuard) c
  : lease_result Lease :=
  let? _ := validateLeaseGuard guard in
  let? lease := readGuardedLease c guard in
  if decide (ls_ScopeKind lease ≠ kind ∨ ls_ScopeID lease ≠ scopeID) then
    Err (LeaseGuardConflict (gd_LeaseID guard))
  else if decide (ls_State lease ≠ LeaseHeld) then not_held lease
  else if (ls_ExpiresAt lease <? now)%Z then Err (LeaseExpired (ls_LeaseID lease) (ls_ExpiresAt lease))
  else Ok lease.
End leases.

(** * Queues *)
Section queues.
Context `{!SqliteJson}.
Implicit Types c : Coordination.

Definition queue_key (entry : QueueEntry) : QueueKind * string * string :=
  (qe_Kind entry, qe_ScopeID entry, qe_ItemID entry).
Definition scanQueueEntry (entry : QueueEntry) : lease_result QueueEntry :=
  if parses_back (qe_AvailableAt entry) && parses_back (qe_EnqueuedAt entry) then Ok entry
  else Err (LeaseUnreadable "queue entry").
Definition readQueueEntry c (kind : QueueKind) (scopeID itemID : string) : lease_result QueueEntry :=
  match co_queue c !! (kind, scopeID, itemID) with
  | Some entry => scanQueueEntry entry
  | None => Err (LeaseNotFound "queue entry" itemID)
  end.
Definition new_entry (now : Time) (request : EnqueueRequest) (payload : RawMessage) : QueueEntry := {|
  qe_Kind := nq_Kind request; qe_ScopeID := nq_ScopeID request; qe_ItemID := nq_ItemID request;
  qe_Priority := nq_Priority request; qe_AvailableAt := nq_AvailableAt request; qe_EnqueuedAt := now;
  qe_Payload := payload |}.
(** [INSERT ... ON CONFLICT DO NOTHING]. *)
Definition insert_entry (entry : QueueEntry) c : lease_result Coordination :=
  if negb (json_valid (qe_Payload entry)) then Err (LeaseConstraint "queue_entries")
  else match co_queue c !! queue_key entry with
       | Some _ => Ok c
       | None => Ok (with_queue (<[queue_key entry := entry]> (co_queue c)) c)
       end.
Definition same_entry (entry : QueueEntry) (request : EnqueueRequest) (payload : RawMessage) : bool :=
  bool_decide (qe_Priority entry = nq_Priority request) &&
  bool_decide (qe_AvailableAt entry = nq_AvailableAt request) && bool_decide (qe_Payload entry = payload).
(** Not a transaction: the row stays when reading it back fails. *)
Definition Enqueue (now : Time) (request : EnqueueRequest) c : Coordination * lease_result QueueEntry :=
  match validateEnqueueRequest request with
  | Err e => (c, Err e)
  | Ok payload =>
      match insert_entry (new_entry now request payload) c with
      | Err e => (c, Err e)
      | Ok c =>
          (c, let? entry := readQueueEntry c (nq_Kind request) (nq_ScopeID request) (nq_ItemID request) in
              if same_entry entry request payload then Ok entry
              else Err (QueueConflict (nq_Kind request) (nq_ScopeID request) (nq_ItemID request)))
      end
  end.

(** [ORDER BY priority DESC, enqueued_at, item_id]: the instants are compared as texts. *)
Definition queue_before (a b : QueueEntry) : bool :=
  if decide (qe_Priority a ≠ qe_Priority b) then (qe_Priority b <? qe_Priority a)%Z
  else lexicographic (formatTime (qe_EnqueuedAt a)) (formatTime (qe_EnqueuedAt b))
         (String.ltb (qe_ItemID a) (qe_ItemID b)).
(** [available_at <= ?], as texts too. *)
Definition available (now : Time) (kind : QueueKind) (scopeID : string) (entry : QueueEntry) : Prop :=
  qe_Kind entry = kind ∧ qe_ScopeID entry = scopeID ∧
  String.ltb (formatTime now) (formatTime (qe_AvailableAt entry)) = false.
#[global] Instance available_dec now kind scopeID entry : Decision (available now kind scopeID entry).
Proof. unfold available. apply _. Defined.
Definition queue_head (now : Time) c (kind : QueueKind) (scopeID : string) : lease_result (option QueueEntry) :=
  match stable_sort queue_before (filter (available now kind scopeID) (map_to_list (co_queue c)).*2) with
  | [] => Ok None
  | entry :: _ => let? entry := scanQueueEntry entry in Ok (Some entry)
  end.
Definition QueueHead (now : Time) (kind : QueueKind) (scopeID : string) c : lease_result QueueEntry :=
  let? _ := validateQueueCoordinates kind scopeID "head" in
  let? head := queue_head now c kind scopeID in
  match head with
  | Some entry => Ok entry
  | None => Err (LeaseNotFound "queue head" (kind +:+ "/" +:+ scopeID))
  end.
Definition RemoveQueueEntry (kind : QueueKind) (scopeID itemID : string) c : Coordination * lease_result unit :=
  match validateQueueCoordinates kind scopeID itemID with
  | Err e => (c, Err e)
  | Ok _ => (with_queue (delete (kind, scopeID, itemID) (co_queue c)) c, Ok tt)
  end.

(** The writer at the head of the queue leaves it as it acquires the repository's lease. *)
Definition lock_repository (now : Time) (queueItemID : string) (request : AcquireLeaseRequest) c
  : lease_result (Coordination * Lease) :=
  let? existing := readLeaseByID c (rq_LeaseID request) in
  match existing with
  | Some lease => if leaseMatchesRequest lease request then Ok (c, lease)
                  else Err (LeaseGuardConflict (rq_LeaseID request))
  | None =>
      let? head := queue_head now c QueueRepositoryWrite (rq_ScopeID request) in
      match head with
      | None => Err (LeaseNotFound "repository queue head" (rq_ScopeID request))
      | Some head =>
          if decide (qe_ItemID head ≠ queueItemID) then
            Err (QueueHeadMismatch (rq_ScopeID request) queueItemID (qe_ItemID head))
          else
            let? acquired := acquireLeaseTx now request c in
            let '(c, lease) := acquired in
            let key := (QueueRepositoryWrite, rq_ScopeID request, queueItemID) in
            match co_queue c !! key with
            | None => lease_invalid "repository queue item %s disappeared during lock acquisition" [AStr queueItemID]
            | Some _ => Ok (with_queue (delete key (co_queue c)) c, lease)
            end
      end
  end.
Definition AcquireRepositoryLock (now : Time) (queueItemID : string) (request : AcquireLeaseRequest)
  : Coordination → Coordination * lease_result Lease :=
  transact (λ c,
    if decide (rq_ScopeKind request ≠ LeaseScopeRepository) then
      lease_invalid "repository lock requires repository scope, got %s" [AStr (rq_ScopeKind request)]
    else
      let? _ := validateAcquireLeaseRequest request in
      if decide (queueItemID = "") then lease_invalid "repository queue item ID is required" []
      else lock_repository now queueItemID request c).
End queues.
