(* ===== verification/Recovery.v ===== *)
(** Startup recovery: [core/recovery/recovery.go] over the interface of its store, and that
    store in sqlite, [adapters/statestore/sqlite/recovery.go], with the tables of migration
    0005 and the outbox. *)
From S2P Require Import Prelude GoStrings GoUnicode GoJson GoSort GoEncode StateStore GoTime StoreTables EventStore Coordination RunContext.
From stdpp Require Import options.

(** * Subjects and decisions *)
Abbreviation SubjectKind := string (only parsing).
Abbreviation Outcome := string (only parsing).
Definition SubjectLease : SubjectKind := "lease".
Definition SubjectOperation : SubjectKind := "operation".
Definition OutcomeAdopt : Outcome := "adopt".
Definition OutcomeResume : Outcome := "resume".
Definition OutcomeRetry : Outcome := "retry".
Definition OutcomeInterrupt : Outcome := "interrupt".
Definition OutcomeReconcileRequired : Outcome := "reconcile_required".

Record Subject := {
  sj_Kind : SubjectKind; sj_ID : string; sj_Authority : string; sj_State : string; sj_Payload : RawMessage;
}.
Record Decision := { de_Outcome : Outcome; de_Evidence : RawMessage }.
(** [Report.Results]. *)
Abbreviation Report := (list (Subject * Decision)).
Definition ReconcileRequired (report : Report) : nat :=
  length (filter (λ result, de_Outcome result.2 = OutcomeReconcileRequired) report).
Definition SchedulingAllowed (report : Report) : bool := (ReconcileRequired report =? 0)%nat.

(** What an observer answers: a decision, an error, or that the context is done. *)
Inductive observation := Observed (decision : Decision) | ObservationFailed | ObservationCancelled.

Inductive recovery_error :=
| RecoveryInvalid (message : msg)
| RecoveryDuplicate (Kind ID : string)
| RecoveryConflict (StartupID SubjectKind SubjectID : string)
| RecoveryChanged (Kind ID : string)
| RecoveryCancelled
| RecoveryStoreError (error : store_error)
| RecoveryLeaseError (error : lease_error).
Abbreviation recovery_result := (result recovery_error).
Definition recovery_invalid {A} (format : string) (args : list msg_arg) : recovery_result A :=
  Err (RecoveryInvalid (Msg format args)).

(** One JSON object, with its keys sorted ([normalizeJSON] of the execution contexts decodes and
    encodes alike). *)
Definition normalizeJSONObject (value : RawMessage) : recovery_result RawMessage :=
  if decide (value = "") then recovery_invalid "must be a JSON object" []
  else match Unmarshal value with
       | Some (JObject _ as decoded) => Ok (Marshal decoded)
       | Some _ => recovery_invalid "must be a JSON object" []
       | None => recovery_invalid "must be valid JSON" []
       end.
Definition pending_state (kind : SubjectKind) (state : string) : bool :=
  bool_decide (kind = SubjectLease) && member [LeaseHeld; LeaseReleasing] state ||
  bool_decide (kind = SubjectOperation) && member ["prepared"; "leased"] state.
Definition normalizeSubject (subject : Subject) : recovery_result Subject :=
  if negb (member [SubjectLease; SubjectOperation] (sj_Kind subject)) then
    recovery_invalid "invalid recovery subject kind %q" [AStr (sj_Kind subject)]
  else if decide (TrimSpace (sj_ID subject) = "" ∨ TrimSpace (sj_Authority subject) = "" ∨
                  TrimSpace (sj_State subject) = "") then
    recovery_invalid "recovery subject %s requires ID, authority, and state" [AStr (sj_Kind subject)]
  else if negb (pending_state (sj_Kind subject) (sj_State subject)) then
    recovery_invalid "invalid %s recovery state %q" [AStr (sj_Kind subject); AStr (sj_State subject)]
  else
    let? payload := normalizeJSONObject (sj_Payload subject) in
    Ok {| sj_Kind := sj_Kind subject; sj_ID := sj_ID subject; sj_Authority := sj_Authority subject;
          sj_State := sj_State subject; sj_Payload := payload |}.
Definition normalizeDecision (decision : Decision) : recovery_result Decision :=
  if negb (member [OutcomeAdopt; OutcomeResume; OutcomeRetry; OutcomeInterrupt; OutcomeReconcileRequired]
             (de_Outcome decision)) then
    recovery_invalid "invalid recovery outcome %q" [AStr (de_Outcome decision)]
  else
    let? evidence := normalizeJSONObject (de_Evidence decision) in
    Ok {| de_Outcome := de_Outcome decision; de_Evidence := evidence |}.
Definition lease_outcomes : list Outcome :=
  [OutcomeResume; OutcomeRetry; OutcomeInterrupt; OutcomeReconcileRequired].
Definition operation_outcomes : list Outcome :=
  [OutcomeAdopt; OutcomeResume; OutcomeRetry; OutcomeReconcileRequired].
Definition validateDecisionForSubject (subject : Subject) (decision : Decision) : recovery_result unit :=
  if bool_decide (sj_Kind subject = SubjectLease) && member lease_outcomes (de_Outcome decision) ||
     bool_decide (sj_Kind subject = SubjectOperation) && member operation_outcomes (de_Outcome decision)
  then Ok tt
  else recovery_invalid "outcome %s is invalid for %s" [AStr (de_Outcome decision); AStr (sj_Kind subject)].

(** * The reconciler *)
Class RecoveryStore (S : Type) := {
  CheckIntegrity : S → recovery_result unit;
  RebuildDerived : S → S * recovery_result unit;
  PendingRecovery : S → recovery_result (list Subject);
  ApplyRecovery : string → Subject → Decision → S → S * recovery_result unit;
}.

Definition reason_decision (reason authority : string) : Decision := {|
  de_Outcome := OutcomeReconcileRequired;
  de_Evidence := Marshal (JObject [("reason", JString reason); ("authority", JString authority)]) |}.
Definition missingObserverDecision : string → Decision := reason_decision "authority_observer_unavailable".
Definition observationFailureDecision : string → Decision := reason_decision "authority_observation_failed".

Definition subjectOrder (kind : SubjectKind) : nat :=
  if decide (kind = SubjectLease) then 0 else if decide (kind = SubjectOperation) then 1 else 2.
Definition subject_before (a b : Subject) : bool :=
  if decide (sj_Kind a ≠ sj_Kind b) then (subjectOrder (sj_Kind a) <? subjectOrder (sj_Kind b))%nat
  else String.ltb (sj_ID a) (sj_ID b).

Section reconciler.
Context {S : Type} `{!RecoveryStore S} (observers : gmap string (Subject → observation)).

(** Without an observer, or when it fails, the subject is fenced. *)
Definition observe (subject : Subject) : recovery_result Decision :=
  match observers !! sj_Authority subject with
  | None => Ok (missingObserverDecision (sj_Authority subject))
  | Some observer =>
      match observer subject with
      | Observed decision => Ok decision
      | ObservationFailed => Ok (observationFailureDecision (sj_Authority subject))
      | ObservationCancelled => Err RecoveryCancelled
      end
  end.
(** What is committed for one subject. *)
Definition classify (seen : gset (string * string)) (pending : Subject)
  : recovery_result (Subject * Decision) :=
  let? subject := normalizeSubject pending in
  if decide ((sj_Kind subject, sj_ID subject) ∈ seen) then
    Err (RecoveryDuplicate (sj_Kind subject) (sj_ID subject))
  else
    let? decision := observe subject in
    let? decision := normalizeDecision decision in
    let? _ := validateDecisionForSubject subject decision in
    Ok (subject, decision).
(** The subjects decided before an error stay decided. *)
Fixpoint reconcile (startupID : string) (seen : gset (string * string)) (subjects : list Subject) (s : S)
  : S * recovery_result Report :=
  match subjects with
  | [] => (s, Ok [])
  | pending :: subjects =>
      match classify seen pending with
      | Err e => (s, Err e)
      | Ok (subject, decision) =>
          let '(s, applied) := ApplyRecovery startupID subject decision s in
          match applied with
          | Err e => (s, Err e)
          | Ok _ =>
              let '(s, report) :=
                reconcile startupID ({[(sj_Kind subject, sj_ID subject)]} ∪ seen) subjects s in
              (s, let? report := report in Ok ((subject, decision) :: report))
          end
      end
  end.
Definition startup_invalid (startupID : string) : bool :=
  bool_decide (TrimSpace startupID = "") || (128 <? str_length startupID)%nat.
(** The subjects have different keys, so that every sort gives the order of [stable_sort]. *)
Definition Run (startupID : string) (s : S) : S * recovery_result Report :=
  if startup_invalid startupID then (s, recovery_invalid "startup ID must be between 1 and 128 bytes" [])
  else match CheckIntegrity s with
  | Err e => (s, Err e)
  | Ok _ =>
      let '(s, rebuilt) := RebuildDerived s in
      match rebuilt with
      | Err e => (s, Err e)
      | Ok _ =>
          match PendingRecovery s with
          | Err e => (s, Err e)
          | Ok subjects => reconcile startupID ∅ (stable_sort subject_before subjects) s
          end
      end
  end.
End reconciler.

(** * The store in sqlite *)

(** A row of [outbox]; its instants are kept as the text they are. *)
Record Operation := {
  op_Kind : string; op_AggregateID : string; op_Request : RawMessage; op_State : string;
  op_AvailableAt : string; op_LeaseOwner : option string; op_LeaseExpiresAt : option string;
  op_AttemptCount : Z; op_Observation : option RawMessage; op_UpdatedAt : string;
}.
(** A row of [recovery_decisions], keyed by startup and subject. *)
Record DecisionRow := {
  dr_Authority : string; dr_State : string; dr_Payload : RawMessage; dr_Outcome : Outcome;
  dr_Evidence : RawMessage; dr_RecordedAt : Time;
}.
Record RecoveryState `{!TicketSource} := {
  rv_database : Database;
  rv_leases : Coordination;
  rv_outbox : gmap string Operation;
  rv_decisions : gmap (string * SubjectKind * string) DecisionRow;
}.

(** [json.Compact] as [json.Marshal] applies it to a raw message: HTML is escaped. *)
Fixpoint compact_html (state : lexer) (s : string) : string :=
  match s with
  | EmptyString => ""
  | String c rest =>
      match state with
      | Outside =>
          if bool_decide (c ∈ [" "; "009"; "010"; "013"]%char) then compact_html Outside rest
          else String c (compact_html (if bool_decide (c = "034"%char) then Inside else Outside) rest)
      | _ =>
          let next := if bool_decide (state = Escaped) then Inside
                      else if bool_decide (c = "034"%char) then Outside
                      else if bool_decide (c = "\"%char) then Escaped else Inside in
          if bool_decide (c ∈ ["<"; ">"; "&"]%char)
          then escape_ascii c +:+ compact_html next rest
          else match c, rest with
               | "226"%char, String "128"%char (String "168"%char rest) => "\u2028" +:+ compact_html next rest
               | "226"%char, String "128"%char (String "169"%char rest) => "\u2029" +:+ compact_html next rest
               | _, _ => String c (compact_html next rest)
               end
      end
  end.

Section sqlite.
Context `{!SqliteJson, !UnicodeLower, !TicketSource}.
Implicit Types s : RecoveryState.

Definition raw_text (value : RawMessage) : recovery_result string :=
  if Valid value then Ok (compact_html Outside value) else recovery_invalid "encode recovery lease" [].
Definition optional_raw (value : option RawMessage) : recovery_result (option string) :=
  match value with
  | Some value => let? encoded := raw_text value in Ok (Some encoded)
  | None => Ok None
  end.
Definition lease_subject (lease : Lease) : recovery_result Subject :=
  let identity := default "" (ls_ProcessIdentity lease) in
  let? encoded := optional_raw (if decide (identity = "") then None else Some identity) in
  Ok {| sj_Kind := SubjectLease; sj_ID := ls_LeaseID lease;
        sj_Authority := if decide (identity = "") then "lease:" +:+ ls_ScopeKind lease else "process";
        sj_State := ls_State lease;
        sj_Payload := encode_struct [
          ("scopeKind", Some (encode_string (ls_ScopeKind lease)));
          ("scopeId", Some (encode_string (ls_ScopeID lease)));
          ("holderAttemptId", Some (encode_string (ls_HolderAttemptID lease)));
          ("fencingToken", Some (encode_uint (ls_FencingToken lease)));
          ("hostBootId", Some (encode_string (ls_HostBootID lease)));
          ("heartbeatAt", Some (encode_string (formatTime (ls_HeartbeatAt lease))));
          ("expiresAt", Some (encode_string (formatTime (ls_ExpiresAt lease))));
          ("processIdentity", encoded)] |}.
(** [ORDER BY lease_id] over rows with a property. *)
Definition rows_in_order {A} (P : A → bool) (rows : gmap string A) : list (string * A) :=
  stable_sort (λ a b, String.ltb a.1 b.1) (filter (λ kv, P kv.2 = true) (map_to_list rows)).
Definition pending_lease (lease : Lease) : bool := member [LeaseHeld; LeaseReleasing] (ls_State lease).
Definition lift_lease {A} (r : lease_result A) : recovery_result A :=
  match r with Ok a => Ok a | Err e => Err (RecoveryLeaseError e) end.
Definition scan_subject (row : string * Lease) : recovery_result Subject :=
  let? lease := lift_lease (scanLease row.2) in lease_subject lease.
Definition pendingLeaseRecovery s : recovery_result (list Subject) :=
  foldM (λ subjects row, let? subject := scan_subject row in Ok (subjects ++ [subject]))
  [] (rows_in_order pending_lease (co_leases (rv_leases s))).
Definition operation_subject (id : string) (op : Operation) : recovery_result Subject :=
  let? request := raw_text (op_Request op) in
  Ok {| sj_Kind := SubjectOperation; sj_ID := id; sj_Authority := "operation:" +:+ op_Kind op;
        sj_State := op_State op;
        sj_Payload := encode_struct [
          ("kind", Some (encode_string (op_Kind op)));
          ("aggregateId", Some (encode_string (op_AggregateID op)));
          ("request", Some request);
          ("availableAt", Some (encode_string (op_AvailableAt op)));
          ("leaseOwner", encode_string <$> op_LeaseOwner op);
          ("leaseExpiresAt", encode_string <$> op_LeaseExpiresAt op);
          ("attemptCount", Some (encode_uint (op_AttemptCount op)))] |}.
Definition pending_operation (op : Operation) : bool := member ["prepared"; "leased"] (op_State op).
Definition pendingOperationRecovery s : recovery_result (list Subject) :=
  foldM (λ subjects row,
    let? subject := operation_subject row.1 row.2 in
    Ok (subjects ++ [subject]))
  [] (rows_in_order pending_operation (rv_outbox s)).
Definition sqlite_pending s : recovery_result (list Subject) :=
  let? leases := pendingLeaseRecovery s in
  let? operations := pendingOperationRecovery s in
  Ok (leases ++ operations).

Definition readRecoveryDecision s (startupID : string) (subject : Subject) (decision : Decision)
  : bool * bool :=
  match rv_decisions s !! (startupID, sj_Kind subject, sj_ID subject) with
  | None => (false, false)
  | Some row =>
      (bool_decide (dr_Authority row = sj_Authority subject ∧ dr_State row = sj_State subject ∧
                    dr_Payload row = sj_Payload subject ∧ dr_Outcome row = de_Outcome decision ∧
                    dr_Evidence row = de_Evidence decision), true)
  end.

(** [requireRecoveryUpdate]: the row is still in the state it was observed in. *)
Definition requireRecoveryUpdate {A} (row : option A) (state : A → string) (subject : Subject)
  : recovery_result A :=
  match row with
  | Some row => if decide (state row = sj_State subject) then Ok row
                else Err (RecoveryChanged (sj_Kind subject) (sj_ID subject))
  | None => Err (RecoveryChanged (sj_Kind subject) (sj_ID subject))
  end.
Definition resumed_lease (now : Time) (startupID : string) (lease : Lease) : Lease := {|
  ls_LeaseID := ls_LeaseID lease; ls_ScopeKind := ls_ScopeKind lease; ls_ScopeID := ls_ScopeID lease;
  ls_HolderAttemptID := ls_HolderAttemptID lease; ls_DaemonInstanceID := startupID;
  ls_FencingToken := ls_FencingToken lease; ls_AcquiredAt := ls_AcquiredAt lease;
  ls_HeartbeatAt := now; ls_ExpiresAt := now + 30 * second; ls_HostBootID := ls_HostBootID lease;
  ls_ProcessIdentity := ls_ProcessIdentity lease; ls_State := ls_State lease;
  ls_Evidence := ls_Evidence lease; ls_ReleasedAt := ls_ReleasedAt lease |}.
Definition recovered_lease (now : Time) (startupID : string) (subject : Subject) (decision : Decision)
    (lease : Lease) : recovery_result Lease :=
  let outcome := de_Outcome decision in
  if decide (outcome = OutcomeResume) then
    if decide (sj_State subject ≠ LeaseHeld) then
      recovery_invalid "lease %s cannot resume from %s" [AStr (sj_ID subject); AStr (sj_State subject)]
    else Ok (resumed_lease now startupID lease)
  else if decide (outcome = OutcomeRetry ∨ outcome = OutcomeInterrupt) then
    Ok (with_state LeaseReleased (Some (de_Evidence decision)) (Some now) lease)
  else if decide (outcome = OutcomeReconcileRequired) then
    Ok (with_state LeaseReconcileRequired (Some (de_Evidence decision)) (ls_ReleasedAt lease) lease)
  else recovery_invalid "unsupported lease recovery outcome %q" [AStr outcome].
Definition applyLeaseRecovery (now : Time) (startupID : string) (subject : Subject) (decision : Decision)
    (c : Coordination) : recovery_result Coordination :=
  if negb (member [LeaseHeld; LeaseReleasing] (sj_State subject)) then
    recovery_invalid "lease %s cannot recover from %s" [AStr (sj_ID subject); AStr (sj_State subject)]
  else
    let? lease := requireRecoveryUpdate (co_leases c !! sj_ID subject) ls_State subject in
    let? lease := recovered_lease now startupID subject decision lease in
    if lease_update_ok lease then Ok (with_lease lease c)
    else Err (RecoveryLeaseError (LeaseConstraint "leases")).

Definition with_operation (state : string) (available : string) (owner expires : option string)
    (observed : option RawMessage) (now : Time) (op : Operation) : Operation := {|
  op_Kind := op_Kind op; op_AggregateID := op_AggregateID op; op_Request := op_Request op;
  op_State := state; op_AvailableAt := available; op_LeaseOwner := owner; op_LeaseExpiresAt := expires;
  op_AttemptCount := op_AttemptCount op; op_Observation := observed; op_UpdatedAt := formatTime now |}.
Definition recovered_operation (now : Time) (startupID : string) (decision : Decision) (op : Operation)
  : recovery_result Operation :=
  let outcome := de_Outcome decision in
  if decide (outcome = OutcomeAdopt) then
    Ok (with_operation "committed" (op_AvailableAt op) None None (Some (de_Evidence decision)) now op)
  else if decide (outcome = OutcomeResume) then
    Ok (with_operation "leased" (op_AvailableAt op) (Some startupID)
          (Some (formatTime (now + 30 * second))) None now op)
  else if decide (outcome = OutcomeRetry) then
    Ok (with_operation "prepared" (formatTime now) None None None now op)
  else if decide (outcome = OutcomeReconcileRequired) then
    Ok (with_operation "reconcile_required" (op_AvailableAt op) None None (Some (de_Evidence decision)) now op)
  else recovery_invalid "unsupported operation recovery outcome %q" [AStr outcome].
Definition applyOperationRecovery (now : Time) (startupID : string) (subject : Subject) (decision : Decision)
    (outbox : gmap string Operation) : recovery_result (gmap string Operation) :=
  if negb (member ["prepared"; "leased"] (sj_State subject)) then
    recovery_invalid "operation %s cannot recover from %s" [AStr (sj_ID subject); AStr (sj_State subject)]
  else
    let? op := requireRecoveryUpdate (outbox !! sj_ID subject) op_State subject in
    let? op := recovered_operation now startupID decision op in
    if nullable_json_valid (op_Observation op) then Ok (<[sj_ID subject := op]> outbox)
    else Err (RecoveryLeaseError (LeaseConstraint "outbox")).

Definition decision_row (now : Time) (subject : Subject) (decision : Decision) : DecisionRow := {|
  dr_Authority := sj_Authority subject; dr_State := sj_State subject; dr_Payload := sj_Payload subject;
  dr_Outcome := de_Outcome decision; dr_Evidence := de_Evidence decision; dr_RecordedAt := now |}.
Definition insert_decision (now : Time) (startupID : string) (subject : Subject) (decision : Decision) s
  : recovery_result RecoveryState :=
  if negb (json_object (sj_Payload subject) && json_object (de_Evidence decision)) then
    Err (RecoveryLeaseError (LeaseConstraint "recovery_decisions"))
  else Ok {|
    rv_database := rv_database s; rv_leases := rv_leases s; rv_outbox := rv_outbox s;
    rv_decisions := <[(startupID, sj_Kind subject, sj_ID subject) := decision_row now subject decision]>
                      (rv_decisions s) |}.
(** The effect of a decision on its subject. *)
Definition apply_decision (now : Time) (startupID : string) (subject : Subject) (decision : Decision) s
  : recovery_result RecoveryState :=
  if decide (sj_Kind subject = SubjectLease) then
    let? leases := applyLeaseRecovery now startupID subject decision (rv_leases s) in
    Ok {| rv_database := rv_database s; rv_leases := leases; rv_outbox := rv_outbox s;
          rv_decisions := rv_decisions s |}
  else if decide (sj_Kind subject = SubjectOperation) then
    let? outbox := applyOperationRecovery now startupID subject decision (rv_outbox s) in
    Ok {| rv_database := rv_database s; rv_leases := rv_leases s; rv_outbox := outbox;
          rv_decisions := rv_decisions s |}
  else recovery_invalid "unsupported recovery subject kind %q" [AStr (sj_Kind subject)].
(** The first decision of a startup about a subject is the only one. *)
Definition decide_subject (now : Time) (startupID : string) (subject : Subject) (decision : Decision) s
  : recovery_result RecoveryState :=
  let? subject := normalizeSubject subject in
  let? decision := normalizeDecision decision in
  let? _ := validateDecisionForSubject subject decision in
  let '(exact, found) := readRecoveryDecision s startupID subject decision in
  if found then
    if exact then Ok s else Err (RecoveryConflict startupID (sj_Kind subject) (sj_ID subject))
  else
    let? s := apply_decision now startupID subject decision s in
    insert_decision now startupID subject decision s.
(** [now] is the clock of the transaction about a subject. *)
Definition sqlite_apply (now : Subject → Time) (startupID : string) (subject : Subject) (decision : Decision) s
  : RecoveryState * recovery_result unit :=
  if decide (startupID = "" ∨ 128 < str_length startupID) then
    (s, recovery_invalid "startup ID must be between 1 and 128 bytes" [])
  else transact (λ s, let? s := decide_subject (now subject) startupID subject decision s in Ok (s, tt)) s.

(** [PRAGMA quick_check] answers rows; each must be [ok]. *)
Definition check_rows (rows : list string) : recovery_result unit :=
  if decide (rows = []) then recovery_invalid "SQLite quick_check returned no result" []
  else forM_ (λ row, if decide (row = "ok") then Ok tt
                     else recovery_invalid "SQLite quick_check failed: %s" [AStr row]) rows.
Definition sqlite_rebuild s : RecoveryState * recovery_result unit :=
  let '(database, rebuilt) := RebuildProjections (rv_database s) in
  ({| rv_database := database; rv_leases := rv_leases s; rv_outbox := rv_outbox s;
      rv_decisions := rv_decisions s |},
   match rebuilt with Ok _ => Ok tt | Err e => Err (RecoveryStoreError e) end).

Definition sqlite_recovery (quick_check : RecoveryState → list string) (now : Subject → Time)
  : RecoveryStore RecoveryState := {|
  CheckIntegrity s := check_rows (quick_check s);
  RebuildDerived := sqlite_rebuild;
  PendingRecovery := sqlite_pending;
  ApplyRecovery := sqlite_apply now |}.
End sqlite.
