(* ===== verification/LeaseLock.v ===== *)
(** The lock behind a lease: the specification of one lock per scope, the invariant of the lease
    tables, and what each call of coordination.go and the lease part of startup recovery does to
    them. *)
From S2P Require Import Prelude GoStrings GoUnicode GoJson GoSort StateStore GoTime StoreTables EventStore Coordination Recovery.
From stdpp Require Import options.

(** * The specification: one lock per scope *)
Record Owner := {
  ow_LeaseID : string; ow_HolderAttemptID : string; ow_DaemonInstanceID : string; ow_Phase : LeaseState;
}.
Record Lock := { lk_token : Z; lk_owner : option Owner }.
Definition in_phase (state : LeaseState) (owner : Owner) : Owner := {|
  ow_LeaseID := ow_LeaseID owner; ow_HolderAttemptID := ow_HolderAttemptID owner;
  ow_DaemonInstanceID := ow_DaemonInstanceID owner; ow_Phase := state |}.
Definition by_daemon (daemon : string) (owner : Owner) : Owner := {|
  ow_LeaseID := ow_LeaseID owner; ow_HolderAttemptID := ow_HolderAttemptID owner;
  ow_DaemonInstanceID := daemon; ow_Phase := ow_Phase owner |}.
(** The owner of a lock shows its guard: the lease, its holder, its daemon and its token. *)
Definition guards (guard : LeaseGuard) (lock : Lock) (owner : Owner) : Prop :=
  lk_owner lock = Some owner ∧ gd_LeaseID guard = ow_LeaseID owner ∧
  gd_HolderAttemptID guard = ow_HolderAttemptID owner ∧
  gd_DaemonInstanceID guard = ow_DaemonInstanceID owner ∧ gd_FencingToken guard = lk_token lock.

Inductive lease_call :=
| CallAcquire (now : Time) (request : AcquireLeaseRequest)
| CallLock (now : Time) (queueItemID : string) (request : AcquireLeaseRequest)
| CallHeartbeat (now : Time) (guard : LeaseGuard) (duration : Duration)
| CallBeginRelease (guard : LeaseGuard)
| CallCompleteRelease (now : Time) (guard : LeaseGuard) (evidence : RawMessage)
| CallReconcile (guard : LeaseGuard) (evidence : RawMessage)
| CallRecover (now : Time) (startupID : string) (subject : Subject) (decision : Decision)
| CallEnqueue (now : Time) (request : EnqueueRequest)
| CallRemove (kind : QueueKind) (scopeID itemID : string).

(** What a call may do to the lock of its scope.  Only an acquisition gives a free lock an owner,
    and with the next token; only the owner's guard and startup recovery move an owned one. *)
Definition acquires (request : AcquireLeaseRequest) (before after : Lock) : Prop :=
  before = {| lk_token := rq_ExpectedFencingToken request; lk_owner := None |} ∧
  after = {| lk_token := rq_ExpectedFencingToken request + 1;
             lk_owner := Some {| ow_LeaseID := rq_LeaseID request;
                                 ow_HolderAttemptID := rq_HolderAttemptID request;
                                 ow_DaemonInstanceID := rq_DaemonInstanceID request;
                                 ow_Phase := LeaseHeld |} |}.
Definition moves (from : list LeaseState) (next : Owner → option Owner) (before after : Lock)
    (owner : Owner) : Prop :=
  lk_owner before = Some owner ∧ ow_Phase owner ∈ from ∧
  after = {| lk_token := lk_token before; lk_owner := next owner |}.
Definition lock_move (call : lease_call) (before after : Lock) : Prop :=
  match call with
  | CallAcquire _ request | CallLock _ _ request => acquires request before after
  | CallBeginRelease guard => ∃ owner, guards guard before owner ∧
      moves [LeaseHeld] (Some ∘ in_phase LeaseReleasing) before after owner
  | CallCompleteRelease _ guard _ => ∃ owner, guards guard before owner ∧
      moves [LeaseReleasing; LeaseReconcileRequired] (λ _, None) before after owner
  | CallReconcile guard _ => ∃ owner, guards guard before owner ∧
      moves [LeaseHeld; LeaseReleasing] (Some ∘ in_phase LeaseReconcileRequired) before after owner
  | CallRecover _ startupID subject decision => ∃ owner, ow_LeaseID owner = sj_ID subject ∧
      (moves [LeaseHeld] (Some ∘ by_daemon startupID) before after owner ∨
       moves [LeaseHeld; LeaseReleasing] (λ _, None) before after owner ∨
       moves [LeaseHeld; LeaseReleasing] (Some ∘ in_phase LeaseReconcileRequired) before after owner)
  | CallHeartbeat _ _ _ | CallEnqueue _ _ | CallRemove _ _ _ => False
  end.

Definition lease_states : list LeaseState :=
  [LeaseHeld; LeaseReleasing; LeaseReleased; LeaseReconcileRequired].
(** Membership in a short list. *)
Ltac in_list := unfold lease_states; rewrite ?elem_of_cons; auto 10.

(** * The implementation *)
Section safety.
Context `{!SqliteJson}.
Implicit Types c : Coordination.

Definition exec (call : lease_call) c : Coordination :=
  match call with
  | CallAcquire now request => (AcquireLease now request c).1
  | CallLock now queueItemID request => (AcquireRepositoryLock now queueItemID request c).1
  | CallHeartbeat now guard duration => (HeartbeatLease now guard duration c).1
  | CallBeginRelease guard => (BeginLeaseRelease guard c).1
  | CallCompleteRelease now guard evidence => (CompleteLeaseRelease now guard evidence c).1
  | CallReconcile guard evidence => (MarkLeaseReconcileRequired guard evidence c).1
  | CallRecover now startupID subject decision =>
      match applyLeaseRecovery now startupID subject decision c with Ok c => c | Err _ => c end
  | CallEnqueue now request => (Enqueue now request c).1
  | CallRemove kind scopeID itemID => (RemoveQueueEntry kind scopeID itemID c).1
  end.
(** The clock of a recovery shows a year of four digits: the instants it writes are not read back
    before they are committed. *)
Definition clock_ok (call : lease_call) : Prop :=
  match call with
  | CallRecover now _ _ _ => parses_back now = true ∧ parses_back (now + 30 * second) = true
  | _ => True
  end.
Inductive lease_step : Coordination → Coordination → Prop :=
| step_call call c : clock_ok call → lease_step c (exec call c).

Definition scope_of (lease : Lease) : LeaseScopeKind * string := (ls_ScopeKind lease, ls_ScopeID lease).
Definition last_token c (scope : LeaseScopeKind * string) : Z := default 0%Z (co_scopes c !! scope).
Definition owner_of (lease : Lease) : Owner := {|
  ow_LeaseID := ls_LeaseID lease; ow_HolderAttemptID := ls_HolderAttemptID lease;
  ow_DaemonInstanceID := ls_DaemonInstanceID lease; ow_Phase := ls_State lease |}.
Definition lock_of c (scope : LeaseScopeKind * string) : Lock := {|
  lk_token := last_token c scope;
  lk_owner := owner_of <$> head (active_leases c scope.1 scope.2) |}.

(** * The invariant *)
Record lease_wf c (id : string) (lease : Lease) : Prop := {
  lw_id : ls_LeaseID lease = id;
  lw_state : ls_State lease ∈ lease_states;
  lw_readable : scanLease lease = Ok lease;
  lw_columns : lease_update_ok lease = true;
  lw_token : (1 ≤ ls_FencingToken lease ≤ last_token c (scope_of lease))%Z;
  lw_current : ls_State lease ≠ LeaseReleased → ls_FencingToken lease = last_token c (scope_of lease);
}.
Record leases_wf c : Prop := {
  cw_rows : ∀ id lease, co_leases c !! id = Some lease → lease_wf c id lease;
  cw_tokens : ∀ id id' lease lease', co_leases c !! id = Some lease → co_leases c !! id' = Some lease' →
    scope_of lease = scope_of lease' → ls_FencingToken lease = ls_FencingToken lease' → id = id';
  cw_bound : ∀ scope, (0 ≤ last_token c scope ≤ max_int64)%Z;
  cw_issued : ∀ scope token, (1 ≤ token ≤ last_token c scope)%Z →
    ∃ id lease, co_leases c !! id = Some lease ∧ scope_of lease = scope ∧ ls_FencingToken lease = token;
}.

Lemma elem_of_active c kind scopeID lease :
  lease ∈ active_leases c kind scopeID ↔
  scope_of lease = (kind, scopeID) ∧ ls_State lease ≠ LeaseReleased ∧ ∃ id, co_leases c !! id = Some lease.
Proof.
  unfold active_leases, scope_of. rewrite list_elem_of_filter, list_elem_of_fmap. split.
  - intros ((-> & -> & ?) & [id l] & -> & ?%elem_of_map_to_list). eauto.
  - intros ([= -> ->] & ? & id & ?). split; [done|]. exists (id, lease).
    split; [done|]. by apply elem_of_map_to_list.
Qed.

Lemma active_unique c kind scopeID lease lease' : leases_wf c →
  lease ∈ active_leases c kind scopeID → lease' ∈ active_leases c kind scopeID → lease = lease'.
Proof.
  intros Hwf (Hs & Hne & id & Hid)%elem_of_active (Hs' & Hne' & id' & Hid')%elem_of_active.
  pose proof (cw_rows _ Hwf _ _ Hid) as Hl. pose proof (cw_rows _ Hwf _ _ Hid') as Hl'.
  assert (id = id') as ->; [|by simplify_eq].
  eapply (cw_tokens _ Hwf); [done..|by rewrite Hs, Hs'|].
  rewrite (lw_current _ _ _ Hl), (lw_current _ _ _ Hl') by done. by rewrite Hs, Hs'.
Qed.
(** The owner of a scope, without the order in which rows are read. *)
Lemma head_active c kind scopeID lease : leases_wf c →
  head (active_leases c kind scopeID) = Some lease ↔ lease ∈ active_leases c kind scopeID.
Proof.
  intros Hwf. split; [by apply head_Some_elem_of|].
  destruct (active_leases c kind scopeID) as [|l ls] eqn:Hl; [by intros ?%elem_of_nil|].
  intros Hin. simpl. f_equal. eapply active_unique; [done|rewrite Hl; apply list_elem_of_here|by rewrite Hl].
Qed.

(** * The effect of a call on the tables *)
Record moved c c' (id : string) (lease lease' : Lease) : Prop := {
  mv_row : co_leases c !! id = Some lease;
  mv_leases : co_leases c' = <[id := lease']> (co_leases c);
  mv_scopes : co_scopes c' = co_scopes c;
  mv_same : (ls_LeaseID lease', scope_of lease', ls_HolderAttemptID lease', ls_FencingToken lease') =
            (ls_LeaseID lease, scope_of lease, ls_HolderAttemptID lease, ls_FencingToken lease);
  mv_readable : scanLease lease' = Ok lease';
  mv_columns : lease_update_ok lease' = true;
  mv_unreleased : ls_State lease ≠ LeaseReleased;
  mv_state : ls_State lease' ∈ lease_states;
}.
Record issued c c' (lease : Lease) : Prop := {
  is_new : co_leases c !! ls_LeaseID lease = None;
  is_leases : co_leases c' = <[ls_LeaseID lease := lease]> (co_leases c);
  is_scopes : co_scopes c' = <[scope_of lease := ls_FencingToken lease]> (co_scopes c);
  is_token : ls_FencingToken lease = (last_token c (scope_of lease) + 1)%Z;
  is_bound : (ls_FencingToken lease ≤ max_int64)%Z;
  is_free : active_leases c (ls_ScopeKind lease) (ls_ScopeID lease) = [];
  is_readable : scanLease lease = Ok lease;
  is_columns : lease_update_ok lease = true;
  is_held : ls_State lease = LeaseHeld;
}.
Definition kept c c' : Prop := co_scopes c' = co_scopes c ∧ co_leases c' = co_leases c.

Lemma kept_wf c c' : leases_wf c → kept c c' → leases_wf c'.
Proof.
  intros [H1 H2 H3 H4] [Hs Hl]. assert (∀ scope, last_token c' scope = last_token c scope) as Ht.
  { intros. unfold last_token. by rewrite Hs. }
  split; rewrite ?Hl; try done.
  - intros id lease Hid. destruct (H1 _ _ Hid). split; rewrite ?Ht; auto.
  - intros scope. rewrite Ht. auto.
  - intros scope token. rewrite Ht. auto.
Qed.

Lemma moved_wf c c' id lease lease' : leases_wf c → moved c c' id lease lease' → leases_wf c'.
Proof.
  intros [H1 H2 H3 H4] [Hrow Hl Hs Hsame Hread Hcol Hun Hst]. injection Hsame as Hid Hkind Hscope Hho Hto.
  pose proof (H1 _ _ Hrow) as [Hlid Hlst _ _ Hltok Hlcur].
  assert (∀ scope, last_token c' scope = last_token c scope) as Ht by (intros; unfold last_token; by rewrite Hs).
  assert (scope_of lease' = scope_of lease) as Hsc' by (unfold scope_of; congruence).
  split.
  - intros id' l. rewrite Hl, lookup_insert_Some. intros [[<- <-]|[Hne Hid']].
    + split; rewrite ?Ht, ?Hsc', ?Hto; auto; by rewrite Hid.
    + destruct (H1 _ _ Hid'). split; rewrite ?Ht; auto.
  - assert (∀ i l, co_leases c' !! i = Some l → ∃ l0, co_leases c !! i = Some l0 ∧
        scope_of l = scope_of l0 ∧ ls_FencingToken l = ls_FencingToken l0) as Hold.
    { intros i l. rewrite Hl, lookup_insert_Some. intros [[<- <-]|[_ ?]]; eauto. }
    intros i i' l l' (l0 & ? & Hs0 & Ht0)%Hold (l1 & ? & Hs1 & Ht1)%Hold ??.
    eapply H2; [done..|congruence|congruence].
  - intros scope. rewrite Ht. auto.
  - intros scope token. rewrite Ht. intros (i & l & Hi & Hsl & Htl)%H4. exists i.
    destruct (decide (i = id)) as [->|]; rewrite Hl.
    + exists lease'. rewrite lookup_insert_eq, Hsc', Hto. assert (l = lease) as -> by congruence. auto.
    + exists l. rewrite lookup_insert_ne by done. auto.
Qed.

Lemma last_token_issued c c' lease scope : issued c c' lease →
  last_token c' scope = if decide (scope = scope_of lease) then ls_FencingToken lease else last_token c scope.
Proof.
  intros Hi. unfold last_token. rewrite (is_scopes _ _ _ Hi).
  case_decide as Hd; [by rewrite Hd, lookup_insert_eq|by rewrite lookup_insert_ne].
Qed.
Lemma issued_wf c c' lease : leases_wf c → issued c c' lease → leases_wf c'.
Proof.
  intros [H1 H2 H3 H4] Hi. pose proof Hi as [Hnew Hl _ Htok Hb Hfree Hread Hcol Hheld].
  pose proof (λ scope, last_token_issued _ _ _ scope Hi) as Ht. pose proof (H3 (scope_of lease)) as Hpos.
  assert (∀ id l, co_leases c !! id = Some l → scope_of l = scope_of lease →
            ls_State l = LeaseReleased ∧ (ls_FencingToken l < ls_FencingToken lease)%Z) as Hold.
  { intros id l Hid Hsl. pose proof (H1 _ _ Hid) as [_ _ _ _ Hlt _]. rewrite Hsl in Hlt. split; [|lia].
    destruct (decide (ls_State l = LeaseReleased)); [done|]. exfalso.
    eapply elem_of_nil. rewrite <-Hfree. apply elem_of_active. split_and!; [done..|eauto]. }
  split.
  - intros id l. rewrite Hl, lookup_insert_Some. intros [[<- <-]|[_ Hid]].
    + split; rewrite ?Ht, ?decide_True by done; [done| |done|done|lia|done]. rewrite Hheld. apply list_elem_of_here.
    + pose proof (H1 _ _ Hid) as [? ? ? ? ? Hcur]. split; rewrite ?Ht; try done.
      * case_decide as Hd; [|done]. destruct (Hold _ _ Hid Hd). rewrite Hd in *. lia.
      * case_decide as Hd; [|done]. by destruct (Hold _ _ Hid Hd).
  - intros i i' l l'. rewrite Hl, !lookup_insert_Some.
    intros [[<- <-]|[_ Hi1]] [[<- <-]|[_ Hi2]] Hsl Htl; [done| | |by eapply H2].
    + destruct (Hold _ _ Hi2); [done|lia].
    + destruct (Hold _ _ Hi1); [done|lia].
  - intros scope. rewrite Ht. case_decide; [|auto]. lia.
  - intros scope token. rewrite Ht. rewrite Hl.
    case_decide as Hd; intros Hr; [destruct (decide (token = ls_FencingToken lease)) as [->|]|].
    + exists (ls_LeaseID lease), lease. by rewrite lookup_insert_eq.
    + destruct (H4 scope token) as (i & l & ? & ? & ?); [subst; lia|]. exists i, l.
      rewrite lookup_insert_ne; [done|]. congruence.
    + destruct (H4 scope token) as (i & l & ? & ? & ?); [done|]. exists i, l.
      rewrite lookup_insert_ne; [done|]. congruence.
Qed.

(** * Locks *)
Definition lease_lock (lease : Lease) : Lock := {|
  lk_token := ls_FencingToken lease;
  lk_owner := if decide (ls_State lease = LeaseReleased) then None else Some (owner_of lease) |}.

(** The newest lease of a scope is its lock. *)
Lemma lock_newest c id lease : leases_wf c → co_leases c !! id = Some lease →
  ls_FencingToken lease = last_token c (scope_of lease) → lock_of c (scope_of lease) = lease_lock lease.
Proof.
  intros Hwf Hid Htok. unfold lock_of, lease_lock. rewrite <-Htok. f_equal. case_decide as Hst.
  - destruct (active_leases c _ _) as [|l ls] eqn:Hact; [done|]. exfalso.
    assert (l ∈ active_leases c (scope_of lease).1 (scope_of lease).2) as Hl
      by (rewrite Hact; apply list_elem_of_here).
    apply elem_of_active in Hl as (Hsc & Hne & id' & Hid').
    change (scope_of l = scope_of lease) in Hsc.
    pose proof (lw_current _ _ _ (cw_rows _ Hwf _ _ Hid') Hne) as Htok'. rewrite Hsc in Htok'.
    assert (id' = id) as -> by (eapply (cw_tokens _ Hwf); [done..|congruence]). congruence.
  - assert (head (active_leases c (scope_of lease).1 (scope_of lease).2) = Some lease) as ->; [|done].
    apply head_active; [done|]. apply elem_of_active. eauto.
Qed.
Lemma lock_free c kind scopeID : active_leases c kind scopeID = [] →
  lock_of c (kind, scopeID) = {| lk_token := last_token c (kind, scopeID); lk_owner := None |}.
Proof. intros Hact. unfold lock_of. simpl. by rewrite Hact. Qed.
Lemma lock_ext c c' scope : leases_wf c → leases_wf c' → last_token c' scope = last_token c scope →
  (∀ id lease, scope_of lease = scope → co_leases c' !! id = Some lease ↔ co_leases c !! id = Some lease) →
  lock_of c' scope = lock_of c scope.
Proof.
  intros Hwf Hwf' Htok Heq. unfold lock_of. rewrite Htok. do 2 f_equal.
  apply option_eq. intros lease. rewrite !head_active, !elem_of_active by done.
  destruct scope as [kind scopeID]. simpl. split; intros (Hsc & ? & id & Hid).
  all: split_and!; [done..|]; exists id; by apply Heq.
Qed.

Lemma moved_lock c c' id lease lease' : leases_wf c → moved c c' id lease lease' →
  lock_of c (scope_of lease) = lease_lock lease ∧ lock_of c' (scope_of lease) = lease_lock lease' ∧
  ∀ scope, scope ≠ scope_of lease → lock_of c' scope = lock_of c scope.
Proof.
  intros Hwf Hm. pose proof (moved_wf _ _ _ _ _ Hwf Hm) as Hwf'.
  destruct Hm as [Hrow Hl Hs Hsame _ _ Hun _]. injection Hsame as _ Hkind Hscope _ Hto.
  assert (scope_of lease' = scope_of lease) as Hsc by (unfold scope_of; congruence).
  pose proof (lw_current _ _ _ (cw_rows _ Hwf _ _ Hrow) Hun) as Hcur.
  assert (∀ scope, last_token c' scope = last_token c scope) as Ht by (intros; unfold last_token; by rewrite Hs).
  split_and!.
  - by eapply lock_newest.
  - rewrite <-Hsc. eapply lock_newest; [done|by rewrite Hl, lookup_insert_eq|]. by rewrite Ht, Hsc, Hto.
  - intros scope Hne. apply lock_ext; [done..|]. intros i l Hi. rewrite Hl, lookup_insert_Some. split.
    + intros [[<- <-]|[_ ?]]; [congruence|done].
    + intros Hil. right. split; [|done]. congruence.
Qed.
Lemma issued_lock c c' lease : leases_wf c → issued c c' lease →
  lock_of c (scope_of lease) = {| lk_token := last_token c (scope_of lease); lk_owner := None |} ∧
  lock_of c' (scope_of lease) = lease_lock lease ∧
  ∀ scope, scope ≠ scope_of lease → lock_of c' scope = lock_of c scope.
Proof.
  intros Hwf Hi. pose proof (issued_wf _ _ _ Hwf Hi) as Hwf'.
  pose proof (λ scope, last_token_issued _ _ _ scope Hi) as Ht.
  destruct Hi as [Hnew Hl _ _ _ Hfree _ _ _]. split_and!.
  - by apply lock_free.
  - eapply lock_newest; [done|by rewrite Hl, lookup_insert_eq|]. by rewrite Ht, decide_True.
  - intros scope Hne. apply lock_ext; [done..| |].
    + by rewrite Ht, decide_False.
    + intros i l Hil. rewrite Hl, lookup_insert_Some. split.
      * intros [[<- <-]|[_ ?]]; [congruence|done].
      * intros Hl'. right. split; [|done]. congruence.
Qed.

(** * The calls *)
Lemma transact_fst {S E A} (f : S → result E (S * A)) s :
  (transact f s).1 = s ∨ ∃ a, f s = Ok ((transact f s).1, a).
Proof. unfold transact. destruct (f s) as [[s' a]|e]; [right; by exists a|by left]. Qed.

Lemma scanLease_Ok lease lease' : scanLease lease = Ok lease' → lease' = lease.
Proof. unfold scanLease. destruct (_ && _ && _ && _); congruence. Qed.
Lemma readLease_wf c id : leases_wf c → readLeaseByID c id = Ok (co_leases c !! id).
Proof.
  intros Hwf. unfold readLeaseByID. destruct (co_leases c !! id) as [lease|] eqn:Hid; [|done].
  by rewrite (lw_readable _ _ _ (cw_rows _ Hwf _ _ Hid)).
Qed.
Lemma readActive_wf c kind scopeID : leases_wf c →
  readActiveLease c kind scopeID = Ok (head (active_leases c kind scopeID)).
Proof.
  intros Hwf. unfold readActiveLease. destruct (active_leases c kind scopeID) as [|lease ls] eqn:Hact; [done|].
  assert (lease ∈ active_leases c kind scopeID) as (_ & _ & id & Hid)%elem_of_active
    by (rewrite Hact; apply list_elem_of_here).
  by rewrite (lw_readable _ _ _ (cw_rows _ Hwf _ _ Hid)).
Qed.
Lemma written_Ok c id c' lease : written_lease c id = Ok (c', lease) →
  c' = c ∧ co_leases c !! id = Some lease ∧ scanLease lease = Ok lease.
Proof.
  unfold written_lease, readLeaseByID. destruct (co_leases c !! id) as [l|]; [|done]. cbn [result_bind].
  destruct (scanLease l) as [l'|] eqn:Hs; [|done]. cbn [result_bind]. intros [= -> ->].
  pose proof (scanLease_Ok _ _ Hs) as ->. done.
Qed.
Lemma readGuarded_Ok c guard lease : leases_wf c → readGuardedLease c guard = Ok lease →
  co_leases c !! gd_LeaseID guard = Some lease ∧ ls_HolderAttemptID lease = gd_HolderAttemptID guard ∧
  ls_DaemonInstanceID lease = gd_DaemonInstanceID guard ∧ ls_FencingToken lease = gd_FencingToken guard.
Proof.
  intros Hwf. unfold readGuardedLease. rewrite readLease_wf by done. cbn [result_bind].
  destruct (co_leases c !! _) as [l|]; [|done]. case_decide as Hd; [done|]. intros [= ->].
  split; [done|]. split_and!; apply dec_stable; tauto.
Qed.
Lemma guards_row c guard lease : leases_wf c → readGuardedLease c guard = Ok lease →
  ls_State lease ≠ LeaseReleased → guards guard (lease_lock lease) (owner_of lease).
Proof.
  intros Hwf (Hid & Hh & Hd & Ht)%readGuarded_Ok Hst; [|done]. unfold guards, lease_lock. cbn.
  rewrite decide_False by done. split_and!; try done. by rewrite (lw_id _ _ _ (cw_rows _ Hwf _ _ Hid)).
Qed.

(** What an acquisition commits. *)
Lemma acquireTx_Ok now request c c' lease : leases_wf c → acquireLeaseTx now request c = Ok (c', lease) →
  c' = c ∧ co_leases c !! rq_LeaseID request = Some lease ∧ leaseMatchesRequest lease request = true ∨
  ∃ processIdentity,
    nullableJSONObject (rq_ProcessIdentity request) = Ok processIdentity ∧
    lease = new_lease now request (rq_ExpectedFencingToken request + 1) processIdentity ∧
    c' = with_token (rq_ScopeKind request) (rq_ScopeID request) (ls_FencingToken lease) (with_lease lease c) ∧
    last_token c (scope_of lease) = rq_ExpectedFencingToken request ∧ issued c c' lease.
Proof.
  intros Hwf. unfold acquireLeaseTx. rewrite readLease_wf by done. cbn [result_bind].
  destruct (co_leases c !! rq_LeaseID request) as [l|] eqn:Hid.
  { destruct (leaseMatchesRequest l request) eqn:Hm; [|done]. intros [= <- <-]. by left. }
  intros Hacq. right. destruct (decide _) as [|Hexp] in Hacq; [done|]. apply dec_stable in Hexp.
  change (last_token c (rq_ScopeKind request, rq_ScopeID request) = rq_ExpectedFencingToken request) in Hexp.
  fold (last_token c (rq_ScopeKind request, rq_ScopeID request)) in Hacq. rewrite Hexp in Hacq.
  rewrite readActive_wf in Hacq by done. cbn [result_bind] in Hacq.
  destruct (active_leases c _ _) as [|l ls] eqn:Hact in Hacq; [|done]. cbn [head] in Hacq.
  apply result_bind_Ok in Hacq as (pid & Hpid & Hacq). exists pid.
  pose proof (cw_bound _ Hwf (rq_ScopeKind request, rq_ScopeID request)) as Hb. rewrite Hexp in Hb.
  rewrite uint64_next in Hacq by done. destruct (lease_row_ok c _) eqn:Hok in Hacq; [|done]. cbn [negb] in Hacq.
  apply written_Ok in Hacq as (-> & Hl & Hread). cbn in Hl. rewrite lookup_insert_eq in Hl. injection Hl as <-.
  split_and!; [done..|]. unfold lease_row_ok, positive in Hok. cbn in Hok.
  rewrite !andb_true_iff, !bool_decide_eq_true, !Z.leb_le in Hok. destruct Hok as (((((Hnew & _ & Hmax) & _) & Hcol) & _) & _).
  split; cbn; try done. f_equal. symmetry. exact Hexp.
Qed.

(** A transition keeps everything of a row but its state, evidence and release. *)
Definition restates (lease lease' : Lease) : Prop :=
  ∃ state evidence released, lease' = with_state state evidence released lease ∧ state ∈ lease_states ∧
    ls_State lease ≠ LeaseReleased.
Lemma restates_moved c c' id lease lease' :
  co_leases c !! id = Some lease → ls_LeaseID lease = id → restates lease lease' →
  scanLease lease' = Ok lease' → lease_update_ok lease' = true → c' = with_lease lease' c → moved c c' id lease lease'.
Proof.
  intros Hid Hkey (st & ev & rel & -> & Hst & Hun) Hread Hcol ->. split; try done. cbn. by rewrite Hkey.
Qed.
Lemma transition_Ok guard transition c c' lease' :
  leases_wf c → transitionGuardedLease guard transition c = Ok (c', lease') →
  (∀ lease next, transition lease = Ok (Some next) → restates lease next) →
  c' = c ∨ ∃ lease, readGuardedLease c guard = Ok lease ∧ transition lease = Ok (Some lease') ∧
    moved c c' (gd_LeaseID guard) lease lease'.
Proof.
  intros Hwf Htr Hrest. unfold transitionGuardedLease in Htr.
  apply result_bind_Ok in Htr as (_ & _ & Htr). apply result_bind_Ok in Htr as (lease & Hg & Htr).
  apply result_bind_Ok in Htr as ([next|] & Hnext & Htr).
  - right. destruct (lease_update_ok next) eqn:Hcol; [|done]. apply written_Ok in Htr as (-> & Hl & Hread).
    destruct (readGuarded_Ok _ _ _ Hwf Hg) as (Hid & _). pose proof (lw_id _ _ _ (cw_rows _ Hwf _ _ Hid)) as Hkey.
    pose proof (Hrest _ _ Hnext) as Hr. destruct Hr as (st & ev & rel & Hn & ?).
    assert (ls_LeaseID next = gd_LeaseID guard) as Hnkey by (by subst next).
    cbn in Hl. rewrite Hnkey, lookup_insert_eq in Hl. injection Hl as ->.
    exists lease. split_and!; [done..|]. eapply restates_moved; eauto.
  - left. by apply written_Ok in Htr as [-> _].
Qed.

Lemma begin_release_restates lease next : begin_release lease = Ok (Some next) →
  restates lease next ∧ ls_State lease ∈ [LeaseHeld] ∧ ls_State next = LeaseReleasing.
Proof.
  unfold begin_release. case_decide; [done|]. case_decide as Hst; [done|].
  intros [= <-]. split_and!; [|in_list|done]. eexists _, _, _. split_and!; [done|in_list|by rewrite Hst].
Qed.
Lemma complete_release_restates now evidence lease next : complete_release now evidence lease = Ok (Some next) →
  restates lease next ∧ ls_State lease ∈ [LeaseReleasing; LeaseReconcileRequired] ∧
  ls_State next = LeaseReleased.
Proof.
  unfold complete_release. case_decide as Hrel; [by case_decide|]. case_decide as Hst; [done|].
  intros [= <-]. split_and!; [eexists _, _, _; split_and!; [done|in_list|done]| |done].
  destruct (decide (ls_State lease = LeaseReleasing)), (decide (ls_State lease = LeaseReconcileRequired));
    in_list. tauto.
Qed.
Lemma require_reconcile_restates evidence lease next : require_reconcile evidence lease = Ok (Some next) →
  restates lease next ∧ ls_State lease ∈ [LeaseHeld; LeaseReleasing] ∧
  ls_State next = LeaseReconcileRequired.
Proof.
  unfold require_reconcile. case_decide as Hrel; [by case_decide|]. case_decide as Hst; [done|].
  intros [= <-]. assert (ls_State lease = LeaseHeld ∨ ls_State lease = LeaseReleasing) as Hin.
  { destruct (decide (ls_State lease = LeaseHeld)), (decide (ls_State lease = LeaseReleasing)); tauto. }
  split_and!; [eexists _, _, _; split_and!; [done|in_list|]|destruct Hin; in_list|done].
  by destruct Hin as [-> | ->].
Qed.

Lemma recovered_cases now startupID subject decision lease lease' :
  recovered_lease now startupID subject decision lease = Ok lease' → ls_State lease = sj_State subject →
  lease' = resumed_lease now startupID lease ∧ ls_State lease = LeaseHeld ∨
  ls_State lease' = LeaseReleased ∧ (∃ evidence, lease' = with_state LeaseReleased evidence (Some now) lease) ∨
  ls_State lease' = LeaseReconcileRequired ∧
    (∃ evidence, lease' = with_state LeaseReconcileRequired evidence (ls_ReleasedAt lease) lease).
Proof.
  unfold recovered_lease. intros Hrec Hst. case_decide.
  - case_decide as Hheld; [done|]. injection Hrec as <-. left. by rewrite Hst.
  - case_decide; [injection Hrec as <-; right; left; split; [done|by eexists]|].
    case_decide; [|done]. injection Hrec as <-. right. right. split; [done|by eexists].
Qed.
Lemma scan_with_state state evidence released lease :
  scanLease lease = Ok lease → match released with Some at_ => parses_back at_ | None => true end = true →
  scanLease (with_state state evidence released lease) = Ok (with_state state evidence released lease).
Proof.
  unfold scanLease. cbn. intros Hs Hrel. rewrite Hrel.
  destruct (parses_back (ls_AcquiredAt lease) && parses_back (ls_HeartbeatAt lease) &&
            parses_back (ls_ExpiresAt lease)); [done|discriminate].
Qed.
Lemma scan_released lease : scanLease lease = Ok lease →
  match ls_ReleasedAt lease with Some at_ => parses_back at_ | None => true end = true.
Proof.
  unfold scanLease. destruct (ls_ReleasedAt lease) as [at_|]; [|done].
  destruct (parses_back at_); [done|]. by rewrite andb_false_r.
Qed.
Lemma scan_resumed now startupID lease : scanLease lease = Ok lease →
  parses_back now = true → parses_back (now + 30 * second) = true →
  scanLease (resumed_lease now startupID lease) = Ok (resumed_lease now startupID lease).
Proof.
  intros Hs Hnow Hexp. pose proof (scan_released _ Hs) as Hrel. revert Hs. unfold scanLease. cbn.
  rewrite Hnow, Hexp, Hrel. by destruct (parses_back (ls_AcquiredAt lease)); cbn.
Qed.

(** Startup recovery moves one lease that was held or releasing. *)
Lemma recovery_Ok now startupID subject decision c c' :
  leases_wf c → parses_back now = true → parses_back (now + 30 * second) = true →
  applyLeaseRecovery now startupID subject decision c = Ok c' →
  ∃ lease lease', ls_State lease = sj_State subject ∧
    recovered_lease now startupID subject decision lease = Ok lease' ∧
    c' = with_lease lease' c ∧ moved c c' (sj_ID subject) lease lease' ∧
    lock_move (CallRecover now startupID subject decision) (lease_lock lease) (lease_lock lease').
Proof.
  intros Hwf Hnow Hexp. unfold applyLeaseRecovery. destruct (member _ _) eqn:Hpend; [|done]. cbn [negb].
  apply bool_decide_eq_true in Hpend. intros Happ.
  apply result_bind_Ok in Happ as (lease & Hreq & Happ). apply result_bind_Ok in Happ as (lease' & Hrec & Happ).
  unfold requireRecoveryUpdate in Hreq. destruct (co_leases c !! sj_ID subject) as [l|] eqn:Hid; [|done].
  case_decide as Hst; [|done]. injection Hreq as ->. destruct (lease_update_ok lease') eqn:Hcol; [|done].
  injection Happ as <-. pose proof (cw_rows _ Hwf _ _ Hid) as [Hkey _ Hread Hlcol _ _].
  assert (ls_State lease ≠ LeaseReleased) as Hun.
  { rewrite Hst. intros Hr. rewrite Hr, !elem_of_cons, elem_of_nil in Hpend.
    by destruct Hpend as [|[|]]. }
  rewrite <-Hst in Hpend. exists lease, lease'. split_and!; [done..| |].
  - destruct (recovered_cases _ _ _ _ _ _ Hrec Hst) as [[-> Hheld]|[[Hst' [ev ->]]|[Hst' [ev ->]]]].
    + split; try done; cbn; [by rewrite Hkey|by apply scan_resumed|rewrite Hheld; in_list].
    + split; try done; cbn; [by rewrite Hkey|by apply scan_with_state|in_list].
    + split; try done; cbn; [by rewrite Hkey| |in_list]. apply scan_with_state; [done|by apply scan_released].
  - exists (owner_of lease). split; [done|].
    assert (∀ from next, ls_State lease ∈ from → lease_lock lease' = {| lk_token := ls_FencingToken lease; lk_owner := next (owner_of lease) |} →
      moves from next (lease_lock lease) (lease_lock lease') (owner_of lease)) as Hmoves.
    { intros from next Hfrom Heq. unfold moves, lease_lock at 1. cbn [lk_owner]. by rewrite decide_False. }
    destruct (recovered_cases _ _ _ _ _ _ Hrec Hst) as [[-> Hheld]|[[Hst' [ev ->]]|[Hst' [ev ->]]]].
    + left. apply Hmoves; [rewrite Hheld; in_list|]. unfold lease_lock. cbn.
      by rewrite decide_False.
    + right. left. by apply Hmoves.
    + right. right. by apply Hmoves.
Qed.

(** The scope an acquisition names. *)
Definition call_scope (call : lease_call) : option (LeaseScopeKind * string) :=
  match call with
  | CallAcquire _ request | CallLock _ _ request => Some (rq_ScopeKind request, rq_ScopeID request)
  | _ => None
  end.
(** Every call leaves the leases alone, issues one, or moves one along its lock's moves. *)
Inductive effect (call : lease_call) c c' : Prop :=
| effect_kept : kept c c' → effect call c c'
| effect_issued lease : issued c c' lease → call_scope call = Some (scope_of lease) →
    lock_move call {| lk_token := last_token c (scope_of lease); lk_owner := None |} (lease_lock lease) →
    effect call c c'
| effect_moved id lease lease' : moved c c' id lease lease' →
    lease_lock lease' = lease_lock lease ∨ lock_move call (lease_lock lease) (lease_lock lease') →
    effect call c c'.

Lemma effect_acquired call now request c c1 c' lease : leases_wf c →
  acquireLeaseTx now request c = Ok (c1, lease) → kept c1 c' → lock_move call = acquires request →
  call_scope call = Some (rq_ScopeKind request, rq_ScopeID request) → effect call c c'.
Proof.
  intros Hwf Hacq [Hks Hkl] Hcall Hscope.
  destruct (acquireTx_Ok _ _ _ _ _ Hwf Hacq) as [(-> & _)|(pid & _ & Hl & _ & Htok & Hi)]; [by apply effect_kept|].
  apply (effect_issued _ _ _ lease); [destruct Hi; split; congruence|by subst lease|].
  rewrite Hcall, Htok. split; [done|]. by subst lease.
Qed.
(** A guarded transition by the owner of the lock. *)
Lemma effect_transition call guard transition c c' lease' from next : leases_wf c →
  transitionGuardedLease guard transition c = Ok (c', lease') →
  (∀ lease next, transition lease = Ok (Some next) → restates lease next ∧ ls_State lease ∈ from) →
  (∀ lease, transition lease = Ok (Some lease') → restates lease lease' →
     lk_owner (lease_lock lease') = next (owner_of lease)) →
  (∀ before after, lock_move call before after ↔
     ∃ owner, guards guard before owner ∧ moves from next before after owner) →
  effect call c c'.
Proof.
  intros Hwf Htr Hrest Hnext Hcall.
  destruct (transition_Ok _ _ _ _ _ Hwf Htr) as [->|(lease & Hg & Hok & Hm)]; [|by apply effect_kept|].
  { intros l n Hn. by apply Hrest. }
  destruct (Hrest _ _ Hok) as [Hre Hfrom]. apply (effect_moved _ _ _ _ _ _ Hm). right. apply Hcall.
  exists (owner_of lease). split; [by eapply guards_row, mv_unreleased|]. unfold moves. split_and!.
  - unfold lease_lock. cbn. rewrite decide_False; [done|by eapply mv_unreleased].
  - done.
  - rewrite <-Hnext by done. unfold lease_lock. f_equal. by destruct Hre as (? & ? & ? & -> & _).
Qed.
Lemma heartbeat_Ok now guard duration c c' lease' : leases_wf c →
  (let? _ := validateLeaseGuard guard in
   let? _ := validateLeaseDuration duration in
   let? lease := readGuardedLease c guard in
   if decide (ls_State lease ≠ LeaseHeld) then not_held lease
   else if (now <? ls_HeartbeatAt lease)%Z then
     lease_invalid "lease %s clock regressed from %s to %s"
       [AStr (ls_LeaseID lease); AInt (ls_HeartbeatAt lease); AInt now]
   else if (ls_ExpiresAt lease <? now)%Z then Err (LeaseExpired (ls_LeaseID lease) (ls_ExpiresAt lease))
   else written_lease (with_lease (with_heartbeat now (now + duration)%Z lease) c) (ls_LeaseID lease))
    = Ok (c', lease') →
  ∃ lease, readGuardedLease c guard = Ok lease ∧ ls_State lease = LeaseHeld ∧
    (ls_HeartbeatAt lease ≤ now ≤ ls_ExpiresAt lease)%Z ∧ lease' = with_heartbeat now (now + duration) lease ∧
    c' = with_lease lease' c ∧ moved c c' (gd_LeaseID guard) lease lease'.
Proof.
  intros Hwf Hh. apply result_bind_Ok in Hh as (_ & _ & Hh). apply result_bind_Ok in Hh as (_ & _ & Hh).
  apply result_bind_Ok in Hh as (lease & Hg & Hh). case_decide as Hst; [done|].
  destruct (Z.ltb_spec now (ls_HeartbeatAt lease)); [done|].
  destruct (Z.ltb_spec (ls_ExpiresAt lease) now); [done|].
  apply written_Ok in Hh as (-> & Hl & Hread). cbn in Hl. rewrite lookup_insert_eq in Hl. injection Hl as <-.
  exists lease. split_and!; [done..|]. destruct (readGuarded_Ok _ _ _ Hwf Hg) as (Hid & _).
  split; try done; cbn.
  - by rewrite (lw_id _ _ _ (cw_rows _ Hwf _ _ Hid)).
  - apply (lw_columns _ _ _ (cw_rows _ Hwf _ _ Hid)).
  - by rewrite Hst.
  - rewrite Hst. in_list.
Qed.
Lemma restated_owner lease lease' : restates lease lease' →
  lk_owner (lease_lock lease') =
    if decide (ls_State lease' = LeaseReleased) then None
    else Some (in_phase (ls_State lease') (owner_of lease)).
Proof. by intros (st & ev & rel & -> & _). Qed.

(** A repository is locked by the first writer in its queue, who leaves it. *)
Lemma lock_repository_Ok now item request c c' lease : leases_wf c →
  lock_repository now item request c = Ok (c', lease) →
  c' = c ∧ co_leases c !! rq_LeaseID request = Some lease ∧ leaseMatchesRequest lease request = true ∨
  ∃ c1 head, co_leases c !! rq_LeaseID request = None ∧
    queue_head now c QueueRepositoryWrite (rq_ScopeID request) = Ok (Some head) ∧ qe_ItemID head = item ∧
    acquireLeaseTx now request c = Ok (c1, lease) ∧
    c' = with_queue (delete (QueueRepositoryWrite, rq_ScopeID request, item) (co_queue c1)) c1.
Proof.
  intros Hwf Hlock. unfold lock_repository in Hlock. rewrite readLease_wf in Hlock by done.
  cbn [result_bind] in Hlock. destruct (co_leases c !! rq_LeaseID request) as [l|] eqn:Hid.
  { destruct (leaseMatchesRequest l request) eqn:Hm; [|done]. injection Hlock as -> ->. by left. }
  right. apply result_bind_Ok in Hlock as ([head|] & Hhead & Hlock); [|done].
  case_decide as Hitem; [done|]. apply result_bind_Ok in Hlock as ([c1 l] & Hacq & Hlock).
  destruct (co_queue c1 !! _); [|done]. injection Hlock as <- <-. by exists c1, head.
Qed.

Lemma call_effect call c : leases_wf c → clock_ok call → effect call c (exec call c).
Proof.
  intros Hwf Hclock.
  destruct call as [now request|now item request|now guard duration|guard|now guard evidence|guard evidence
                   |now startupID subject decision|now request|kind scopeID item]; cbn [exec];
    try (match goal with |- effect _ _ (?f c).1 =>
      unfold AcquireLease, AcquireRepositoryLock, HeartbeatLease, BeginLeaseRelease, CompleteLeaseRelease,
        MarkLeaseReconcileRequired;
      match goal with |- effect _ _ (transact ?g c).1 =>
        destruct (transact_fst g c) as [Heq|[lease Heq]];
        [by apply effect_kept; rewrite Heq|revert Heq; generalize (transact g c).1; intros c' Heq]
      end end).
  - apply result_bind_Ok in Heq as (_ & _ & Heq). by eapply effect_acquired.
  - case_decide; [done|]. apply result_bind_Ok in Heq as (_ & _ & Heq). case_decide; [done|].
    destruct (lock_repository_Ok _ _ _ _ _ _ Hwf Heq) as [[-> _]|(c1 & head & _ & _ & _ & Hacq & ->)];
      [by apply effect_kept|by eapply effect_acquired].
  - apply heartbeat_Ok in Heq as (l & _ & Hst & _ & Hl & _ & Hm); [|done].
    eapply effect_moved; [done|]. left. by subst.
  - eapply effect_transition; [done..| | |done].
    + intros l n (? & ? & ?)%begin_release_restates. done.
    + intros l (_ & _ & Hst)%begin_release_restates Hr. by rewrite (restated_owner _ _ Hr), Hst.
  - apply result_bind_Ok in Heq as (normalized & _ & Heq). eapply effect_transition; [done..| | |done].
    + intros l n (? & ? & ?)%complete_release_restates. done.
    + intros l (_ & _ & Hst)%complete_release_restates Hr. by rewrite (restated_owner _ _ Hr), Hst.
  - apply result_bind_Ok in Heq as (normalized & _ & Heq). eapply effect_transition; [done..| | |done].
    + intros l n (? & ? & ?)%require_reconcile_restates. done.
    + intros l (_ & _ & Hst)%require_reconcile_restates Hr. by rewrite (restated_owner _ _ Hr), Hst.
  - destruct (applyLeaseRecovery _ _ _ _ c) as [c'|] eqn:Happ; [|by apply effect_kept].
    destruct Hclock as [Hc1 Hc2]. destruct (recovery_Ok _ _ _ _ _ _ Hwf Hc1 Hc2 Happ)
      as (l & l' & _ & _ & _ & Hm & Hmove). eapply effect_moved; [done|by right].
  - apply effect_kept. unfold Enqueue. destruct (validateEnqueueRequest request); [|done].
    unfold insert_entry. destruct (negb _); [done|]. by destruct (co_queue c !! _).
  - apply effect_kept. unfold RemoveQueueEntry. by destruct (validateQueueCoordinates _ _ _).
Qed.

(** * Histories *)
Lemma effect_wf call c c' : leases_wf c → effect call c c' → leases_wf c'.
Proof. intros Hwf []; [by eapply kept_wf|by eapply issued_wf|by eapply moved_wf]. Qed.
Lemma empty_wf : leases_wf empty_coordination.
Proof.
  assert (∀ scope, last_token empty_coordination scope = 0%Z) as Ht by done.
  split; try (intros *; cbn; by rewrite lookup_empty); intros *; rewrite Ht; [unfold max_int64|]; lia.
Qed.

(** A row keeps its scope, holder and token, and a released one stays as it is; the tokens of a
    scope grow. *)
Definition same_row (lease lease' : Lease) : Prop :=
  ls_LeaseID lease' = ls_LeaseID lease ∧ scope_of lease' = scope_of lease ∧
  ls_HolderAttemptID lease' = ls_HolderAttemptID lease ∧ ls_FencingToken lease' = ls_FencingToken lease ∧
  (ls_State lease = LeaseReleased → lease' = lease).
Record later c c' : Prop := {
  lt_rows : ∀ id lease, co_leases c !! id = Some lease →
    ∃ lease', co_leases c' !! id = Some lease' ∧ same_row lease lease';
  lt_tokens : ∀ scope, (last_token c scope ≤ last_token c' scope)%Z;
}.
#[export] Instance later_preorder : PreOrder later.
Proof.
  split.
  - intros c. split; [|done]. intros id lease Hid. by exists lease.
  - intros c1 c2 c3 [H1 T1] [H2 T2]. split; [|intros scope; etrans; [apply T1|apply T2]].
    intros id lease (l2 & Hid2 & S1)%H1. destruct (H2 _ _ Hid2) as (l3 & Hid3 & S2).
    exists l3. split; [done|]. destruct S1 as (? & ? & ? & ? & E1), S2 as (? & ? & ? & ? & E2).
    split_and!; [congruence..|]. intros Hrel. pose proof (E1 Hrel) as ->. auto.
Qed.
Lemma effect_later call c c' : leases_wf c → effect call c c' → later c c'.
Proof.
  intros Hwf [[Hs Hl]|lease Hi _ _|id lease lease' [Hrow Hl Hs Hsame _ _ Hun _] _].
  - split; [|intros scope; unfold last_token; by rewrite Hs]. rewrite Hl. intros i l Hil. by exists l.
  - split.
    + intros i l Hil. exists l. rewrite (is_leases _ _ _ Hi), lookup_insert_ne; [by split|].
      pose proof (is_new _ _ _ Hi). congruence.
    + intros scope. rewrite (last_token_issued _ _ _ _ Hi). case_decide as Hd; [|done].
      pose proof (is_token _ _ _ Hi). rewrite Hd. lia.
  - split; [|intros scope; unfold last_token; by rewrite Hs]. intros i l Hil. rewrite Hl.
    injection Hsame as Hid Hkind Hscope Hho Hto.
    destruct (decide (i = id)) as [->|]; [|rewrite lookup_insert_ne by done; by exists l].
    exists lease'. rewrite lookup_insert_eq. assert (l = lease) as -> by congruence.
    split; [done|]. unfold same_row, scope_of. split_and!; [congruence..|done].
Qed.
Lemma steps_later c c' : leases_wf c → rtc lease_step c c' → leases_wf c' ∧ later c c'.
Proof.
  intros Hwf Hsteps. revert Hwf. induction Hsteps as [c|c1 c2 c3 [call c Hclock] _ IH]; intros Hwf; [done|].
  pose proof (call_effect _ _ Hwf Hclock) as He. destruct (IH (effect_wf _ _ _ Hwf He)) as [Hwf' Hl].
  split; [done|]. etrans; [by eapply effect_later|done].
Qed.
Lemma reachable_wf c : rtc lease_step empty_coordination c → leases_wf c.
Proof. intros Hsteps. by apply (steps_later _ _ empty_wf). Qed.
End safety.
