(* ===== verification/LeaseSafety.v ===== *)
(** What leases promise: the calls of coordination.go refine one lock per scope, ownership is
    exclusive, stale owners are fenced, and a scope can always be handed over. *)
From S2P Require Import Prelude GoStrings GoUnicode GoJson GoSort StateStore GoTime StoreTables EventStore Coordination Recovery LeaseLock.
From stdpp Require Import options.

Section safety.
Context `{!SqliteJson}.
Implicit Types c : Coordination.

(** (C13) The leases refine one lock per scope: in every reachable state a call leaves the lock of
    every scope but one alone, and that one stays or takes a step the call may take: an
    acquisition, of the scope it names, gives a free lock an owner with the next token; releasing
    and fencing need the whole guard of the owner; startup recovery takes over, frees or fences
    the lock of the lease it names. *)
Theorem lease_calls_refine_locks c call :
  rtc lease_step empty_coordination c → clock_ok call →
  ∃ scope,
    (∀ other, other ≠ scope → lock_of (exec call c) other = lock_of c other) ∧
    (lock_of (exec call c) scope = lock_of c scope ∨
     lock_move call (lock_of c scope) (lock_of (exec call c) scope) ∧
       default scope (call_scope call) = scope).
Proof.
  intros Hreach Hclock. pose proof (reachable_wf _ Hreach) as Hwf.
  pose proof (call_effect _ _ Hwf Hclock) as He. pose proof (effect_wf _ _ _ Hwf He) as Hwf'.
  destruct He as [[Hs Hl]|lease Hi Hscope Hmove|id lease lease' Hm Hmove].
  - assert (∀ scope, lock_of (exec call c) scope = lock_of c scope) as Heq.
    { intros scope. apply lock_ext; [done..| |]; [unfold last_token; by rewrite Hs|by rewrite Hl]. }
    exists ("", ""). split; [done|by left].
  - destruct (issued_lock _ _ _ Hwf Hi) as (Hb & Ha & Ho). exists (scope_of lease). split; [done|].
    right. by rewrite Hb, Ha, Hscope.
  - destruct (moved_lock _ _ _ _ _ Hwf Hm) as (Hb & Ha & Ho). exists (scope_of lease). split; [done|].
    rewrite Hb, Ha. destruct Hmove as [|Hmove]; [by left|right]. split; [done|].
    destruct call; try done; cbn in Hmove; destruct Hmove as [Hfree _];
      unfold lease_lock in Hfree; rewrite decide_False in Hfree by (by eapply mv_unreleased); done.
Qed.

Lemma lease_valid_Ok now kind scopeID guard c lease : leases_wf c →
  ValidateLease now kind scopeID guard c = Ok lease →
  co_leases c !! gd_LeaseID guard = Some lease ∧ scope_of lease = (kind, scopeID) ∧
  ls_State lease = LeaseHeld ∧ ls_HolderAttemptID lease = gd_HolderAttemptID guard ∧
  ls_DaemonInstanceID lease = gd_DaemonInstanceID guard ∧ ls_FencingToken lease = gd_FencingToken guard ∧
  (now ≤ ls_ExpiresAt lease)%Z.
Proof.
  intros Hwf Hv. apply result_bind_Ok in Hv as (_ & _ & Hv). apply result_bind_Ok in Hv as (l & Hg & Hv).
  destruct (readGuarded_Ok _ _ _ Hwf Hg) as (Hid & Hh & Hd & Ht). case_decide as Hscope; [done|].
  case_decide as Hst; [done|]. destruct (Z.ltb_spec (ls_ExpiresAt l) now); [done|]. injection Hv as ->.
  split_and!; try done. unfold scope_of. f_equal; apply dec_stable; tauto.
Qed.
Lemma gd_eq (g g' : LeaseGuard) :
  gd_LeaseID g = gd_LeaseID g' → gd_HolderAttemptID g = gd_HolderAttemptID g' →
  gd_DaemonInstanceID g = gd_DaemonInstanceID g' → gd_FencingToken g = gd_FencingToken g' → g = g'.
Proof. destruct g, g'. cbn. congruence. Qed.

(** (C16) Ownership is exclusive.  In every reachable state the fencing tokens issued for a
    scope are 1, 2, ..., the last one, each to one lease; an unreleased lease of the scope is
    unique and has the last token; and only one guard is valid for a scope, whatever the
    clocks of those who ask. *)
Theorem lease_exclusive c kind scopeID :
  rtc lease_step empty_coordination c →
  let last := last_token c (kind, scopeID) in
  (∀ token, (1 ≤ token ≤ last)%Z ↔ ∃ id lease, co_leases c !! id = Some lease ∧
     scope_of lease = (kind, scopeID) ∧ ls_FencingToken lease = token) ∧
  (∀ id id' lease lease', co_leases c !! id = Some lease → co_leases c !! id' = Some lease' →
     scope_of lease = (kind, scopeID) → scope_of lease' = (kind, scopeID) →
     ls_FencingToken lease = ls_FencingToken lease' → id = id') ∧
  (∀ id id' lease lease', co_leases c !! id = Some lease → co_leases c !! id' = Some lease' →
     scope_of lease = (kind, scopeID) → scope_of lease' = (kind, scopeID) →
     ls_State lease ≠ LeaseReleased → ls_State lease' ≠ LeaseReleased →
     id = id' ∧ ls_FencingToken lease = last) ∧
  (∀ now now' guard guard' lease lease', ValidateLease now kind scopeID guard c = Ok lease →
     ValidateLease now' kind scopeID guard' c = Ok lease' → guard = guard').
Proof.
  intros Hreach last. pose proof (reachable_wf _ Hreach) as Hwf.
  assert (∀ id id' lease lease', co_leases c !! id = Some lease → co_leases c !! id' = Some lease' →
     scope_of lease = (kind, scopeID) → scope_of lease' = (kind, scopeID) →
     ls_State lease ≠ LeaseReleased → ls_State lease' ≠ LeaseReleased →
     id = id' ∧ ls_FencingToken lease = last) as Hone.
  { intros id id' l l' Hid Hid' Hs Hs' Hun Hun'.
    pose proof (lw_current _ _ _ (cw_rows _ Hwf _ _ Hid) Hun) as Ht.
    pose proof (lw_current _ _ _ (cw_rows _ Hwf _ _ Hid') Hun') as Ht'. rewrite Hs in Ht. rewrite Hs' in Ht'.
    split; [|done]. eapply (cw_tokens _ Hwf); [done..|congruence|congruence]. }
  split_and!; [| |done|].
  - intros token. split; [apply (cw_issued _ Hwf)|]. intros (id & l & Hid & Hs & <-).
    pose proof (lw_token _ _ _ (cw_rows _ Hwf _ _ Hid)) as Ht. by rewrite Hs in Ht.
  - intros id id' l l' Hid Hid' Hs Hs' Ht. eapply (cw_tokens _ Hwf); [done..|congruence|done].
  - intros now now' g g' l l' Hv Hv'.
    destruct (lease_valid_Ok _ _ _ _ _ _ Hwf Hv) as (Hid & Hs & Hheld & Hh & Hd & Ht & _).
    destruct (lease_valid_Ok _ _ _ _ _ _ Hwf Hv') as (Hid' & Hs' & Hheld' & Hh' & Hd' & Ht' & _).
    destruct (Hone _ _ _ _ Hid Hid' Hs Hs') as [Heq _]; [by rewrite Hheld|by rewrite Hheld'|].
    assert (l = l') as -> by congruence. apply gd_eq; congruence.
Qed.

Definition presents (guard : LeaseGuard) (call : lease_call) : Prop :=
  match call with
  | CallHeartbeat _ g _ | CallBeginRelease g | CallCompleteRelease _ g _ | CallReconcile g _ => g = guard
  | _ => False
  end.
(** A guard changes only the unreleased lease it names. *)
Lemma guarded_exec guard call c : leases_wf c → presents guard call →
  exec call c = c ∨ ∃ lease, readGuardedLease c guard = Ok lease ∧ ls_State lease ≠ LeaseReleased.
Proof.
  intros Hwf Hp.
  assert (∀ transition c' lease, transitionGuardedLease guard transition c = Ok (c', lease) →
    (∀ lease next, transition lease = Ok (Some next) → restates lease next) →
    c' = c ∨ ∃ lease, readGuardedLease c guard = Ok lease ∧ ls_State lease ≠ LeaseReleased) as Htrans.
  { intros tr c' l Htr Hr. destruct (transition_Ok _ _ _ _ _ Hwf Htr Hr) as [->|(l' & ? & _ & Hm)]; [by left|].
    right. exists l'. split; [done|]. by eapply mv_unreleased. }
  destruct call; try done; cbn in Hp; subst; cbn [exec];
    unfold HeartbeatLease, BeginLeaseRelease, CompleteLeaseRelease, MarkLeaseReconcileRequired;
    match goal with |- (transact ?g c).1 = c ∨ _ =>
      destruct (transact_fst g c) as [Heq|[lease Heq]]; [by left|] end.
  - apply heartbeat_Ok in Heq as (l & Hg & Hst & _); [|done]. right. exists l. by rewrite Hst.
  - eapply Htrans; [done|]. by intros ? ? []%begin_release_restates.
  - apply result_bind_Ok in Heq as (normalized & _ & Heq). eapply Htrans; [done|].
    by intros ? ? []%complete_release_restates.
  - apply result_bind_Ok in Heq as (normalized & _ & Heq). eapply Htrans; [done|].
    by intros ? ? []%require_reconcile_restates.
Qed.

(** (C14) Stale owners are fenced.  When a guard was valid for a scope and the scope has since
    issued another token, the guard is worthless for ever: its lease is released and keeps its
    row, the guard is not valid whatever the clock says, and no call that shows it changes
    anything. *)
Theorem stale_guard_fenced c c' now kind scopeID guard lease :
  rtc lease_step empty_coordination c → ValidateLease now kind scopeID guard c = Ok lease →
  rtc lease_step c c' → last_token c' (kind, scopeID) ≠ gd_FencingToken guard →
  (gd_FencingToken guard < last_token c' (kind, scopeID))%Z ∧
  ∃ old, co_leases c' !! gd_LeaseID guard = Some old ∧ ls_State old = LeaseReleased ∧
  ∀ c'', rtc lease_step c' c'' →
    co_leases c'' !! gd_LeaseID guard = Some old ∧
    (∀ now', is_ok (ValidateLease now' kind scopeID guard c'') = false) ∧
    (∀ call, presents guard call → exec call c'' = c'').
Proof.
  intros Hreach Hv Hsteps Hne. pose proof (reachable_wf _ Hreach) as Hwf.
  destruct (lease_valid_Ok _ _ _ _ _ _ Hwf Hv) as (Hid & Hs & Hheld & _ & _ & Ht & _).
  destruct (steps_later _ _ Hwf Hsteps) as [Hwf' [Hrows Htokens]].
  assert (last_token c (kind, scopeID) = gd_FencingToken guard) as Hlast.
  { rewrite <-Hs, <-Ht. symmetry. apply (cw_rows _ Hwf _ _ Hid). by rewrite Hheld. }
  specialize (Htokens (kind, scopeID)). rewrite Hlast in Htokens. split; [lia|].
  destruct (Hrows _ _ Hid) as (old & Hold & Hrow). exists old.
  destruct Hrow as (_ & Hs' & _ & Ht' & _).
  assert (ls_State old = LeaseReleased) as Hrel.
  { apply dec_stable. intros Hun. pose proof (lw_current _ _ _ (cw_rows _ Hwf' _ _ Hold) Hun) as Hcur.
    rewrite Hs', Hs in Hcur. congruence. }
  split_and!; [done..|]. intros c'' Hsteps'. destruct (steps_later _ _ Hwf' Hsteps') as [Hwf'' [Hrows' _]].
  destruct (Hrows' _ _ Hold) as (l'' & Hl'' & (_ & _ & _ & _ & Heq)). rewrite (Heq Hrel) in Hl''.
  split_and!; [done| |].
  - intros now'. destruct (ValidateLease now' kind scopeID guard c'') as [l|] eqn:Hv''; [|done].
    destruct (lease_valid_Ok _ _ _ _ _ _ Hwf'' Hv'') as (Hl & _ & Hst & _). exfalso.
    rewrite Hl'' in Hl. injection Hl as <-. by rewrite Hrel in Hst.
  - intros call Hp. destruct (guarded_exec _ _ _ Hwf'' Hp) as [|(l & Hg & Hun)]; [done|].
    destruct (readGuarded_Ok _ _ _ Hwf'' Hg) as (Hl & _). rewrite Hl'' in Hl. injection Hl as <-. done.
Qed.

Lemma acquireTx_free now request c processIdentity : leases_wf c →
  co_leases c !! rq_LeaseID request = None →
  nullableJSONObject (rq_ProcessIdentity request) = Ok processIdentity →
  let lease := new_lease now request (rq_ExpectedFencingToken request + 1) processIdentity in
  lock_of c (scope_of lease) = {| lk_token := rq_ExpectedFencingToken request; lk_owner := None |} →
  acquireLeaseTx now request c =
    if negb (lease_row_ok c lease) then Err (LeaseConstraint "leases")
    else let? _ := scanLease lease in
         Ok (with_token (rq_ScopeKind request) (rq_ScopeID request) (ls_FencingToken lease) (with_lease lease c), lease).
Proof.
  intros Hwf Hnew Hpid lease Hlock. unfold lock_of in Hlock. cbn in Hlock. injection Hlock as Htok Hown.
  unfold acquireLeaseTx. rewrite readLease_wf, Hnew by done. cbn [result_bind].
  fold (last_token c (rq_ScopeKind request, rq_ScopeID request)).
  change (last_token c (rq_ScopeKind request, rq_ScopeID request) = rq_ExpectedFencingToken request) in Htok.
  pose proof (cw_bound _ Hwf (rq_ScopeKind request, rq_ScopeID request)) as Hb. rewrite Htok in *.
  rewrite decide_False by tauto. rewrite readActive_wf by done. cbn [result_bind].
  destruct (active_leases c _ _) as [|l ls]; [|done]. cbn [head]. rewrite Hpid. cbn [result_bind].
  rewrite uint64_next by done. fold lease. destruct (negb _); [done|]. unfold written_lease, readLeaseByID. cbn.
  rewrite lookup_insert_eq. fold lease. destruct (scanLease lease) as [l|] eqn:Hscan; [|done]. cbn.
  by rewrite (scanLease_Ok _ _ Hscan).
Qed.
Lemma validate_identity request : validateAcquireLeaseRequest request = Ok tt →
  ∃ processIdentity, nullableJSONObject (rq_ProcessIdentity request) = Ok processIdentity.
Proof.
  unfold validateAcquireLeaseRequest. case_decide; [done|]. destruct (negb _); [done|].
  intros Hv. apply result_bind_Ok in Hv as (_ & _ & Hv). apply result_bind_Ok in Hv as (pid & Hpid & _). eauto.
Qed.

(** (C17) An acquisition with a new lease identifier succeeds only on a free lock whose last
    token is the expected one, and then the lease has the next token, is held and expires after
    the duration.  Otherwise nothing changes: another token is a fencing conflict, and an owned
    lock is refused with its owner's lease and phase however long ago the lease expired; on a
    free lock only the constraints of the table or a clock beyond the year 9999 refuse it. *)
Theorem acquire_decides c now request :
  rtc lease_step empty_coordination c → validateAcquireLeaseRequest request = Ok tt →
  co_leases c !! rq_LeaseID request = None →
  let kind := rq_ScopeKind request in
  let scopeID := rq_ScopeID request in
  let expected := rq_ExpectedFencingToken request in
  let lock := lock_of c (kind, scopeID) in
  match AcquireLease now request c with
  | (c', Ok lease) =>
      lock = {| lk_token := expected; lk_owner := None |} ∧
      ls_FencingToken lease = (expected + 1)%Z ∧ ls_State lease = LeaseHeld ∧
      ls_ExpiresAt lease = (now + normalizeLeaseDuration (rq_Duration request))%Z ∧
      co_leases c' = <[rq_LeaseID request := lease]> (co_leases c)
  | (c', Err e) =>
      c' = c ∧
      (lk_token lock ≠ expected → e = FencingConflict kind scopeID expected (lk_token lock)) ∧
      (∀ owner, lk_token lock = expected → lk_owner lock = Some owner →
        ∃ expires, e = LeaseHeldError kind scopeID (ow_LeaseID owner) (ow_Phase owner) expires) ∧
      (lock = {| lk_token := expected; lk_owner := None |} →
        e = LeaseConstraint "leases" ∨ e = LeaseUnreadable "lease")
  end.
Proof.
  intros Hreach Hvalid Hnew kind scopeID expected lock. pose proof (reachable_wf _ Hreach) as Hwf.
  destruct (validate_identity _ Hvalid) as [pid Hpid].
  unfold AcquireLease, transact. rewrite Hvalid. cbn [result_bind].
  destruct (decide (lk_token lock = expected)) as [Htok|Htok].
  - destruct (lk_owner lock) as [owner|] eqn:Hown.
    + assert (∃ expires, acquireLeaseTx now request c =
        Err (LeaseHeldError kind scopeID (ow_LeaseID owner) (ow_Phase owner) expires)) as [expires ->].
      { unfold acquireLeaseTx. rewrite readLease_wf, Hnew by done. cbn [result_bind].
        fold kind scopeID expected (last_token c (kind, scopeID)).
        change (last_token c (kind, scopeID) = expected) in Htok. rewrite decide_False by tauto.
        rewrite readActive_wf by done. cbn [result_bind]. unfold lock, lock_of in Hown. cbn in Hown.
        destruct (head (active_leases c kind scopeID)) as [l|]; [|done]. injection Hown as <-. by eexists. }
      split_and!; [done|done| |].
      * intros o _ [= <-]. by exists expires.
      * intros Hlock. by rewrite Hlock in Hown.
    + assert (lock = {| lk_token := expected; lk_owner := None |}) as Hlock by (destruct lock; cbn in *; congruence).
      rewrite (acquireTx_free _ _ _ _ Hwf Hnew Hpid Hlock). destruct (negb _).
      { split_and!; [done|done|by rewrite Hlock|by left]. }
      destruct (scanLease _) as [l|e] eqn:Hscan; cbn [result_bind]; [done|].
      split_and!; [done|done|by rewrite Hlock|]. intros _. right. revert Hscan. unfold scanLease.
      destruct (_ && _ && _ && _); congruence.
  - assert (acquireLeaseTx now request c = Err (FencingConflict kind scopeID expected (lk_token lock))) as ->.
    { unfold acquireLeaseTx. rewrite readLease_wf, Hnew by done. cbn [result_bind]. by rewrite decide_True. }
    split_and!; [done|done|done|]. intros Hlock. by rewrite Hlock in Htok.
Qed.

Lemma transition_makes guard transition c lease next :
  validateLeaseGuard guard = Ok tt → leases_wf c → readGuardedLease c guard = Ok lease →
  transition lease = Ok (Some next) → ls_LeaseID next = ls_LeaseID lease →
  lease_update_ok next = true → scanLease next = Ok next →
  transact (transitionGuardedLease guard transition) c = (with_lease next c, Ok next).
Proof.
  intros Hv Hwf Hg Htr Hid Hjson Hscan. unfold transact, transitionGuardedLease.
  rewrite Hv, Hg. cbn [result_bind]. rewrite Htr. cbn [result_bind]. rewrite Hjson.
  destruct (readGuarded_Ok _ _ _ Hwf Hg) as (Hrow & _).
  unfold written_lease, readLeaseByID. cbn.
  rewrite Hid, (lw_id _ _ _ (cw_rows _ Hwf _ _ Hrow)), lookup_insert_eq, Hscan. done.
Qed.
Lemma guarded_again c guard lease next : leases_wf c → readGuardedLease c guard = Ok lease →
  restates lease next → scanLease next = Ok next → readGuardedLease (with_lease next c) guard = Ok next.
Proof.
  intros Hwf Hg Hre Hscan. destruct (readGuarded_Ok _ _ _ Hwf Hg) as (Hrow & Hh & Hd & Ht).
  pose proof (lw_id _ _ _ (cw_rows _ Hwf _ _ Hrow)) as Hid. destruct Hre as (st & ev & rel & -> & _).
  unfold readGuardedLease, readLeaseByID. cbn [with_lease co_leases with_state ls_LeaseID].
  rewrite Hid, lookup_insert_eq, Hscan. cbn. rewrite Hh, Hd, Ht. by rewrite decide_False by tauto.
Qed.
Lemma free_row_ok c lease : leases_wf c → co_leases c !! ls_LeaseID lease = None →
  ls_FencingToken lease = (last_token c (scope_of lease) + 1)%Z → (ls_FencingToken lease ≤ max_int64)%Z →
  active_leases c (ls_ScopeKind lease) (ls_ScopeID lease) = [] →
  nullable_json_valid (ls_ProcessIdentity lease) = true → lease_update_ok lease = true →
  lease_row_ok c lease = true.
Proof.
  intros Hwf Hnew Htok Hmax Hfree Hjson Hcol. unfold lease_row_ok. rewrite Hjson, Hcol.
  rewrite !andb_true_iff, !bool_decide_eq_true. split_and!; try done.
  - pose proof (cw_bound _ Hwf (scope_of lease)). unfold positive. rewrite andb_true_iff, !Z.leb_le. lia.
  - apply forallb_forall. intros other Hin%list_elem_of_In. apply list_elem_of_fmap in Hin as ([id l] & -> & Hid).
    apply elem_of_map_to_list in Hid. apply negb_true_iff, bool_decide_eq_false. intros (Hk & Hs & Ht). cbn in *.
    pose proof (lw_token _ _ _ (cw_rows _ Hwf _ _ Hid)) as Hl.
    assert (scope_of l = scope_of lease) as Hsc by (unfold scope_of; congruence). rewrite Hsc in Hl. lia.
Qed.

Definition guard_of (lease : Lease) : LeaseGuard := {|
  gd_LeaseID := ls_LeaseID lease; gd_HolderAttemptID := ls_HolderAttemptID lease;
  gd_DaemonInstanceID := ls_DaemonInstanceID lease; gd_FencingToken := ls_FencingToken lease |}.

(** ** Handing over *)
Lemma begin_makes c guard lease : leases_wf c → validateLeaseGuard guard = Ok tt →
  readGuardedLease c guard = Ok lease → ls_State lease = LeaseHeld →
  let next := with_state LeaseReleasing (ls_Evidence lease) (ls_ReleasedAt lease) lease in
  BeginLeaseRelease guard c = (with_lease next c, Ok next) ∧ readGuardedLease (with_lease next c) guard = Ok next.
Proof.
  intros Hwf Hv Hg Hheld next. destruct (readGuarded_Ok _ _ _ Hwf Hg) as (Hrow & _).
  pose proof (cw_rows _ Hwf _ _ Hrow) as [Hid _ Hread Hcol _ _].
  assert (ls_Evidence lease = None ∧ ls_ReleasedAt lease = None) as [Hev Hrel].
  { unfold lease_update_ok, lease_columns in Hcol. rewrite Hheld in Hcol. revert Hcol.
    destruct (ls_Evidence lease), (ls_ReleasedAt lease); rewrite ?andb_false_r; done. }
  assert (restates lease next) as Hre by (eexists _, _, _; split_and!; [done|in_list|by rewrite Hheld]).
  assert (scanLease next = Ok next) as Hs by (apply scan_with_state; [done|by rewrite Hrel]).
  split; [|by apply guarded_again with lease]. apply (transition_makes _ _ _ lease); try done.
  - unfold begin_release. rewrite Hheld. done.
  - unfold lease_update_ok, lease_columns. cbn. by rewrite Hev, Hrel.
Qed.
Lemma complete_makes c guard lease now evidence : leases_wf c → validateLeaseGuard guard = Ok tt →
  readGuardedLease c guard = Ok lease → ls_State lease = LeaseReleasing →
  jsonObject evidence = true → json_valid (compact Outside evidence) = true → parses_back now = true →
  let next := with_state LeaseReleased (Some (compact Outside evidence)) (Some now) lease in
  CompleteLeaseRelease now guard evidence c = (with_lease next c, Ok next).
Proof.
  intros Hwf Hv Hg Hst Hobj Hjson Hnow next. destruct (readGuarded_Ok _ _ _ Hwf Hg) as (Hrow & _).
  pose proof (cw_rows _ Hwf _ _ Hrow) as [_ _ Hread _ _ _].
  unfold CompleteLeaseRelease, requiredJSONObject. rewrite Hobj.
  rewrite decide_False by (intros ->; discriminate). cbn [negb result_bind].
  apply (transition_makes _ _ _ lease); try done.
  - unfold complete_release. rewrite Hst. done.
  - unfold lease_update_ok. cbn. by rewrite Hjson.
  - by apply scan_with_state.
Qed.
(** The request, the clock and the constraints let a new lease be written. *)
Record may_acquire (now : Time) (request : AcquireLeaseRequest) (processIdentity : option RawMessage) : Prop := {
  ma_valid : validateAcquireLeaseRequest request = Ok tt;
  ma_identity : nullableJSONObject (rq_ProcessIdentity request) = Ok processIdentity;
  ma_json : nullable_json_valid processIdentity = true;
  ma_token : (rq_ExpectedFencingToken request < max_int64)%Z;
  ma_now : parses_back now = true;
  ma_expires : parses_back (now + normalizeLeaseDuration (rq_Duration request)) = true;
}.
Lemma acquire_makes c now request processIdentity : leases_wf c → may_acquire now request processIdentity →
  co_leases c !! rq_LeaseID request = None →
  let lease := new_lease now request (rq_ExpectedFencingToken request + 1) processIdentity in
  lock_of c (scope_of lease) = {| lk_token := rq_ExpectedFencingToken request; lk_owner := None |} →
  AcquireLease now request c =
    (with_token (rq_ScopeKind request) (rq_ScopeID request) (ls_FencingToken lease) (with_lease lease c), Ok lease).
Proof.
  intros Hwf [Hvalid Hpid Hpjson Hmax Hnow Hexp] Hnew lease Hlock.
  unfold AcquireLease, transact. rewrite Hvalid. cbn [result_bind].
  rewrite (acquireTx_free _ _ _ _ Hwf Hnew Hpid Hlock). fold lease.
  assert (lease_row_ok c lease = true) as ->; [|by unfold scanLease; cbn; rewrite Hnow, Hexp].
  unfold lock_of in Hlock. injection Hlock as Htok Hown. apply free_row_ok; try done.
  - by rewrite Htok.
  - cbn. lia.
  - change (active_leases c (scope_of lease).1 (scope_of lease).2 = []). by destruct (active_leases c _ _).
Qed.
(** A held lease that has not expired is valid. *)
Lemma validate_makes c lease now : co_leases c !! ls_LeaseID lease = Some lease → scanLease lease = Ok lease →
  validateLeaseGuard (guard_of lease) = Ok tt → ls_State lease = LeaseHeld → (now ≤ ls_ExpiresAt lease)%Z →
  ValidateLease now (ls_ScopeKind lease) (ls_ScopeID lease) (guard_of lease) c = Ok lease.
Proof.
  intros Hrow Hscan Hv Hheld Hexp. unfold ValidateLease, readGuardedLease, readLeaseByID.
  cbn [guard_of gd_LeaseID gd_HolderAttemptID gd_DaemonInstanceID gd_FencingToken].
  rewrite Hv, Hrow, Hscan. cbn [result_bind]. rewrite decide_False by tauto. cbn [result_bind].
  rewrite decide_False by tauto. rewrite Hheld, decide_False by tauto.
  destruct (Z.ltb_spec (ls_ExpiresAt lease) now); [lia|done].
Qed.
Lemma validate_new_guard now request processIdentity token : validateAcquireLeaseRequest request = Ok tt →
  (1 ≤ token)%Z → validateLeaseGuard (guard_of (new_lease now request token processIdentity)) = Ok tt ∧
  (MaximumHeartbeatInterval ≤ normalizeLeaseDuration (rq_Duration request))%Z.
Proof.
  unfold validateAcquireLeaseRequest, validateLeaseGuard. case_decide as Hids; [done|]. destruct (negb _); [done|].
  intros Hv Htok. apply result_bind_Ok in Hv as (u & Hd & _). unfold validateLeaseDuration in Hd.
  destruct (Z.ltb_spec (normalizeLeaseDuration (rq_Duration request)) MaximumHeartbeatInterval); [done|].
  split; [|done]. cbn. rewrite decide_False; [done|].
  intros [?|[?|[?|?]]]; [..|lia]; apply Hids; tauto.
Qed.

(** (C18) A scope can always be handed over: the owner of a held lease, even of an expired one,
    begins and completes its release with a JSON object as evidence, and then whoever expects the
    last token acquires the scope under a new lease identifier and holds a valid guard with the
    next token. *)
Theorem lease_handover c guard lease now evidence now' request processIdentity :
  rtc lease_step empty_coordination c →
  validateLeaseGuard guard = Ok tt → readGuardedLease c guard = Ok lease → ls_State lease = LeaseHeld →
  jsonObject evidence = true → json_valid (compact Outside evidence) = true → parses_back now = true →
  may_acquire now' request processIdentity →
  (rq_ScopeKind request, rq_ScopeID request) = scope_of lease →
  rq_ExpectedFencingToken request = ls_FencingToken lease →
  co_leases c !! rq_LeaseID request = None →
  ∃ c1 c2 c3 l1 l2 l3,
    BeginLeaseRelease guard c = (c1, Ok l1) ∧
    CompleteLeaseRelease now guard evidence c1 = (c2, Ok l2) ∧
    AcquireLease now' request c2 = (c3, Ok l3) ∧
    ls_FencingToken l3 = (ls_FencingToken lease + 1)%Z ∧
    ValidateLease now' (ls_ScopeKind lease) (ls_ScopeID lease) (guard_of l3) c3 = Ok l3.
Proof.
  intros Hreach Hgv Hg Hheld Hobj Hjson Hnow Hma Hscope Hexp Hnew.
  pose proof (reachable_wf _ Hreach) as Hwf. destruct (readGuarded_Ok _ _ _ Hwf Hg) as (Hrow & _).
  pose proof (cw_rows _ Hwf _ _ Hrow) as [Hid _ _ _ Htok Hcur].
  destruct (begin_makes _ _ _ Hwf Hgv Hg Hheld) as [Hbegin Hg1].
  set (n1 := with_state LeaseReleasing _ _ lease) in *. set (c1 := with_lease n1 c) in *.
  assert (leases_wf c1) as Hwf1.
  { pose proof (call_effect (CallBeginRelease guard) c Hwf I) as He. cbn [exec] in He.
    rewrite Hbegin in He. by eapply effect_wf. }
  pose proof (complete_makes _ _ _ now evidence Hwf1 Hgv Hg1 eq_refl Hobj Hjson Hnow) as Hcomplete.
  set (n2 := with_state LeaseReleased _ _ n1) in *. set (c2 := with_lease n2 c1) in *.
  assert (leases_wf c2) as Hwf2.
  { pose proof (call_effect (CallCompleteRelease now guard evidence) c1 Hwf1 I) as He. cbn [exec] in He.
    rewrite Hcomplete in He. by eapply effect_wf. }
  assert (lock_of c2 (scope_of lease) = {| lk_token := ls_FencingToken lease; lk_owner := None |}) as Hlock.
  { apply (lock_newest c2 (ls_LeaseID lease) n2 Hwf2); [cbn; by rewrite lookup_insert_eq|].
    apply Hcur. by rewrite Hheld. }
  set (n3 := new_lease now' request (rq_ExpectedFencingToken request + 1) processIdentity).
  assert (scope_of n3 = scope_of lease) as Hscope3 by done.
  assert (co_leases c2 !! rq_LeaseID request = None) as Hnew2.
  { cbn. rewrite !lookup_insert_ne; [done|congruence..]. }
  pose proof (acquire_makes _ _ _ _ Hwf2 Hma Hnew2) as Hacq. cbv zeta in Hacq. fold n3 in Hacq.
  rewrite Hscope3, Hlock, Hexp in Hacq. specialize (Hacq eq_refl). destruct (validate_new_guard now' request processIdentity (ls_FencingToken n3)
    (ma_valid _ _ _ Hma)) as [Hv3 Hdur]; [cbn; lia|].
  eexists c1, c2, _, n1, n2, n3. split_and!; [done..|cbn; congruence|].
  injection Hscope as Hk Hs. rewrite <-Hk, <-Hs. apply (validate_makes _ n3); try done.
  - cbn. by rewrite lookup_insert_eq.
  - unfold scanLease. cbn. by rewrite (ma_now _ _ _ Hma), (ma_expires _ _ _ Hma).
  - cbn. unfold MaximumHeartbeatInterval, second in Hdur. lia.
Qed.
End safety.

(** * Examples *)
Section examples.
#[local] Existing Instance ex_sqlite.
Definition ex_acquire (id attempt : string) (expected : Z) : AcquireLeaseRequest := {|
  rq_LeaseID := id; rq_ScopeKind := LeaseScopeRepository; rq_ScopeID := "repo";
  rq_HolderAttemptID := attempt; rq_DaemonInstanceID := "daemon"; rq_HostBootID := "boot";
  rq_ExpectedFencingToken := expected; rq_Duration := 0; rq_ProcessIdentity := "{ }" |}.
Definition ex_guard (id attempt : string) (token : Z) : LeaseGuard := {|
  gd_LeaseID := id; gd_HolderAttemptID := attempt; gd_DaemonInstanceID := "daemon"; gd_FencingToken := token |}.
Definition ex_held : Coordination := exec (CallAcquire 0 (ex_acquire "l1" "a1" 0)) empty_coordination.
Definition ex_released : Coordination :=
  exec (CallCompleteRelease second (ex_guard "l1" "a1" 1) "{}") (exec (CallBeginRelease (ex_guard "l1" "a1" 1)) ex_held).
Definition ex_taken : Coordination := exec (CallAcquire (2 * second) (ex_acquire "l2" "a2" 1)) ex_released.
Definition ex_lease : Lease := new_lease 0 (ex_acquire "l1" "a1" 0) 1 (Some "{}").

Lemma ex_held_reachable : rtc lease_step empty_coordination ex_held.
Proof. apply rtc_once. by apply (step_call (CallAcquire 0 (ex_acquire "l1" "a1" 0))). Qed.
Lemma ex_taken_later : rtc lease_step ex_held ex_taken.
Proof.
  eapply rtc_l; [by apply (step_call (CallBeginRelease (ex_guard "l1" "a1" 1)))|].
  eapply rtc_l; [by apply (step_call (CallCompleteRelease second (ex_guard "l1" "a1" 1) "{}"))|].
  apply rtc_once. by apply (step_call (CallAcquire (2 * second) (ex_acquire "l2" "a2" 1))).
Qed.

Lemma lease_calls_refine_locks_witness :
  lock_of ex_held (LeaseScopeRepository, "repo") =
    {| lk_token := 1; lk_owner := Some {| ow_LeaseID := "l1"; ow_HolderAttemptID := "a1";
                                          ow_DaemonInstanceID := "daemon"; ow_Phase := LeaseHeld |} |} ∧
  ∃ scope,
    (∀ other, other ≠ scope → lock_of (exec (CallBeginRelease (ex_guard "l1" "a1" 1)) ex_held) other = lock_of ex_held other) ∧
    (lock_of (exec (CallBeginRelease (ex_guard "l1" "a1" 1)) ex_held) scope = lock_of ex_held scope ∨
     lock_move (CallBeginRelease (ex_guard "l1" "a1" 1)) (lock_of ex_held scope)
       (lock_of (exec (CallBeginRelease (ex_guard "l1" "a1" 1)) ex_held) scope) ∧
     default scope (call_scope (CallBeginRelease (ex_guard "l1" "a1" 1))) = scope).
Proof.
  split; [vm_compute; reflexivity|].
  apply (lease_calls_refine_locks ex_held (CallBeginRelease (ex_guard "l1" "a1" 1))); [apply ex_held_reachable|exact I].
Defined.
Lemma lease_exclusive_witness :
  ValidateLease second LeaseScopeRepository "repo" (ex_guard "l1" "a1" 1) ex_held = Ok ex_lease ∧
  ∀ guard lease, ValidateLease 0 LeaseScopeRepository "repo" guard ex_held = Ok lease → guard = ex_guard "l1" "a1" 1.
Proof.
  assert (ValidateLease second LeaseScopeRepository "repo" (ex_guard "l1" "a1" 1) ex_held = Ok ex_lease) as Hv
    by (vm_compute; reflexivity).
  split; [exact Hv|]. intros guard lease Hg.
  destruct (lease_exclusive ex_held LeaseScopeRepository "repo" ex_held_reachable) as (_ & _ & _ & Hone).
  exact (Hone _ _ _ _ _ _ Hg Hv).
Defined.
Lemma stale_guard_fenced_witness :
  (gd_FencingToken (ex_guard "l1" "a1" 1) < 2)%Z ∧
  exec (CallHeartbeat (3 * second) (ex_guard "l1" "a1" 1) (20 * second)) ex_taken = ex_taken.
Proof.
  destruct (stale_guard_fenced ex_held ex_taken second LeaseScopeRepository "repo" (ex_guard "l1" "a1" 1) ex_lease
    ex_held_reachable ltac:(vm_compute; reflexivity) ex_taken_later ltac:(vm_compute; discriminate))
    as (Hlt & old & _ & _ & Hall).
  split; [exact Hlt|]. destruct (Hall ex_taken (rtc_refl _ _)) as (_ & _ & Hno). by apply Hno.
Defined.
Lemma acquire_decides_witness :
  (AcquireLease (1000 * second) (ex_acquire "l2" "a2" 1) ex_held).2 =
    Err (LeaseHeldError LeaseScopeRepository "repo" "l1" LeaseHeld (30 * second)) ∧
  ((AcquireLease (1000 * second) (ex_acquire "l2" "a2" 1) ex_held).1 = ex_held).
Proof.
  split; [vm_compute; reflexivity|].
  pose proof (acquire_decides ex_held (1000 * second) (ex_acquire "l2" "a2" 1) ex_held_reachable eq_refl eq_refl) as Hd.
  destruct (AcquireLease (1000 * second) (ex_acquire "l2" "a2" 1) ex_held) as [c' [lease|e]] eqn:Hacq.
  - destruct Hd as (Hlock & _). vm_compute in Hlock. discriminate.
  - by destruct Hd.
Defined.
Lemma lease_handover_witness :
  ∃ c1 c2 c3 l1 l2 l3,
    BeginLeaseRelease (ex_guard "l1" "a1" 1) ex_held = (c1, Ok l1) ∧
    CompleteLeaseRelease (100 * second) (ex_guard "l1" "a1" 1) "{}" c1 = (c2, Ok l2) ∧
    AcquireLease (100 * second) (ex_acquire "l2" "a2" 1) c2 = (c3, Ok l3) ∧
    ls_FencingToken l3 = 2%Z ∧
    ValidateLease (100 * second) LeaseScopeRepository "repo" (guard_of l3) c3 = Ok l3.
Proof.
  refine (lease_handover ex_held (ex_guard "l1" "a1" 1) ex_lease (100 * second) "{}" (100 * second)
    (ex_acquire "l2" "a2" 1) (Some "{}") ex_held_reachable _ _ _ _ _ _ _ _ _ _).
  7: split; vm_compute; reflexivity.
  all: vm_compute; reflexivity.
Defined.

(** A lease request that is repeated after a heartbeat is a conflict with the lease it made, and
    one that is repeated after the release is answered with the released lease. *)
Example repeated_after_heartbeat :
  let c := exec (CallHeartbeat second (ex_guard "l1" "a1" 1) (30 * second)) ex_held in
  (AcquireLease (2 * second) (ex_acquire "l1" "a1" 0) ex_held).2 = Ok ex_lease ∧
  (AcquireLease (2 * second) (ex_acquire "l1" "a1" 0) c).2 = Err (LeaseGuardConflict "l1").
Proof. vm_compute. split; reflexivity. Qed.
Example repeated_after_release :
  match (AcquireLease (3 * second) (ex_acquire "l1" "a1" 0) ex_taken).2 with
  | Ok lease => ls_State lease = LeaseReleased
  | Err _ => False
  end.
Proof. vm_compute. reflexivity. Qed.
End examples.
