(* ===== verification/QueueOrder.v ===== *)
(** The queues of coordination.go: the order in which entries are served, and what a writer that
    locks a repository takes from its queue. *)
From S2P Require Import Prelude GoStrings GoUnicode GoJson GoSort StateStore GoTime StoreTables EventStore Coordination Recovery LeaseLock.
From stdpp Require Import options.

(** * The order of a queue *)
Lemma queue_before_asym a b : queue_before a b = true → queue_before b a = false.
Proof.
  unfold queue_before. intros Hab. repeat case_decide; try congruence.
  - apply Z.ltb_lt in Hab. apply Z.ltb_ge. lia.
  - revert Hab. apply lexicographic_asym, ltb_asym.
Qed.
Lemma queue_before_trans a b c :
  queue_before b a = false → queue_before c b = false → queue_before c a = false.
Proof.
  unfold queue_before. intros Hba Hcb. repeat case_decide; rewrite ?Z.ltb_ge in *; try lia.
  revert Hba Hcb. apply lexicographic_trans, ltb_trans_false.
Qed.
(** Entries with different items are ordered. *)
Lemma queue_before_total a b : qe_ItemID a ≠ qe_ItemID b → queue_before b a = false → queue_before a b = true.
Proof.
  unfold queue_before, lexicographic. intros Hne Hba. repeat case_decide; rewrite ?Z.ltb_ge, ?Z.ltb_lt in *;
    try congruence; try lia; by apply ltb_total.
Qed.

(** The head of a sorted list is before everything else in it. *)
Lemma sorted_head {A} (less : A → A → bool) l head :
  (∀ x y, less x y = true → less y x = false) →
  (∀ x y z, less y x = false → less z y = false → less z x = false) →
  list.head (stable_sort less l) = Some head → ∀ x, x ∈ l → less x head = false.
Proof.
  intros Hasym Htrans Hhead x Hx. pose proof (stable_sort_sorted less l Hasym Htrans) as Hs.
  rewrite <-(stable_sort_perm less l) in Hx. destruct (stable_sort less l) as [|y ys]; [done|].
  injection Hhead as ->. apply StronglySorted_inv in Hs as [_ Hall].
  apply elem_of_cons in Hx as [->|Hx].
  - destruct (less head head) eqn:Hl; [|done]. by rewrite (Hasym _ _ Hl) in Hl.
  - by apply (proj1 (Forall_forall _ _) Hall).
Qed.

Section queues.
Context `{!SqliteJson}.
Implicit Types c : Coordination.

Definition queue_wf c : Prop := ∀ key entry, co_queue c !! key = Some entry → queue_key entry = key.

Lemma acquireTx_queue now request c c' lease : leases_wf c →
  acquireLeaseTx now request c = Ok (c', lease) → co_queue c' = co_queue c.
Proof.
  intros Hwf Hacq. by destruct (acquireTx_Ok _ _ _ _ _ Hwf Hacq) as [(-> & _)|(pid & _ & _ & -> & _)].
Qed.
Lemma delete_queue_wf c key : queue_wf c → queue_wf (with_queue (delete key (co_queue c)) c).
Proof. intros Hq k e. cbn. rewrite lookup_delete_Some. intros [_ ?]. by apply Hq. Qed.

(** Calls about leases leave the queue alone. *)
Lemma transition_queue guard transition c : leases_wf c →
  co_queue (transact (transitionGuardedLease guard transition) c).1 = co_queue c.
Proof.
  intros Hwf. destruct (transact_fst (transitionGuardedLease guard transition) c) as [->|[l Heq]]; [done|].
  revert Heq. unfold transitionGuardedLease. intros Heq.
  apply result_bind_Ok in Heq as (u & _ & Heq). apply result_bind_Ok in Heq as (l0 & _ & Heq).
  apply result_bind_Ok in Heq as ([n|] & _ & Heq); [destruct (lease_update_ok n); [|done]|];
    by apply written_Ok in Heq as (-> & _).
Qed.
Lemma written_queue c0 id c c' lease : written_lease c0 id = Ok (c', lease) → co_queue c0 = co_queue c →
  co_queue c' = co_queue c.
Proof. by intros [-> _]%written_Ok. Qed.
Lemma exec_queue_wf call c : leases_wf c → queue_wf c → queue_wf (exec call c).
Proof.
  intros Hwf Hq. assert (∀ c', co_queue c' = co_queue c → queue_wf c') as Hsame.
  { intros c' Heq key entry. rewrite Heq. apply Hq. }
  destruct call as [now request|now item request|now guard duration|guard|now guard evidence|guard evidence
                   |now startupID subject decision|now request|kind scopeID item]; cbn [exec].
  - apply Hsame. unfold AcquireLease, transact. destruct (validateAcquireLeaseRequest request); [|done].
    cbn [result_bind]. destruct (acquireLeaseTx now request c) as [[c' l]|] eqn:Hacq; [|done].
    by eapply acquireTx_queue.
  - unfold AcquireRepositoryLock, transact. case_decide; [done|].
    destruct (validateAcquireLeaseRequest request); [|done]. cbn [result_bind]. case_decide; [done|].
    destruct (lock_repository now item request c) as [[c' l]|] eqn:Hlock; [|done].
    destruct (lock_repository_Ok _ _ _ _ _ _ Hwf Hlock) as [[-> _]|(c1 & head & _ & _ & _ & Hacq & ->)]; [done|].
    apply delete_queue_wf. apply Hsame. by eapply acquireTx_queue.
  - apply Hsame. unfold HeartbeatLease.
    match goal with |- co_queue (transact ?f c).1 = _ => destruct (transact_fst f c) as [->|[l Heq]] end; [done|].
    apply heartbeat_Ok in Heq as (l0 & _ & _ & _ & _ & -> & _); done.
  - apply Hsame, transition_queue, Hwf.
  - apply Hsame. unfold CompleteLeaseRelease. destruct (requiredJSONObject evidence) as [n|e] eqn:Hn; [|done].
    by apply transition_queue.
  - apply Hsame. unfold MarkLeaseReconcileRequired. destruct (requiredJSONObject evidence) as [n|e]; [|done].
    by apply transition_queue.
  - destruct (applyLeaseRecovery _ _ _ _ c) as [c'|] eqn:Happ; [|done]. apply Hsame.
    unfold applyLeaseRecovery in Happ. destruct (negb _); [done|].
    apply result_bind_Ok in Happ as (l & _ & Happ). apply result_bind_Ok in Happ as (l' & _ & Happ).
    destruct (lease_update_ok l'); [|done]. by injection Happ as <-.
  - unfold Enqueue. destruct (validateEnqueueRequest request) as [payload|]; [|done]. unfold insert_entry.
    destruct (negb _); [done|]. destruct (co_queue c !! _) eqn:Hk; [done|]. intros k e. cbn.
    rewrite lookup_insert_Some. intros [[<- <-]|[_ ?]]; [done|by apply Hq].
  - unfold RemoveQueueEntry. destruct (validateQueueCoordinates kind scopeID item); [|done].
    by apply delete_queue_wf.
Qed.
Lemma reachable_queue_wf c : rtc lease_step empty_coordination c → queue_wf c.
Proof.
  assert (∀ c0, rtc lease_step c0 c → leases_wf c0 → queue_wf c0 → queue_wf c) as Hgen.
  { intros c0 Hsteps. induction Hsteps as [c|c1 c2 c3 [call c1' Hclock] _ IH]; intros Hwf Hq; [done|].
    apply IH; [by eapply effect_wf, call_effect|by apply exec_queue_wf]. }
  intros Hsteps. eapply Hgen; [done|apply empty_wf|]. intros k e. cbn. by rewrite lookup_empty.
Qed.

(** The head of a queue is its first available entry. *)
Lemma queue_head_Ok c now kind scopeID head : queue_wf c → queue_head now c kind scopeID = Ok (Some head) →
  co_queue c !! (kind, scopeID, qe_ItemID head) = Some head ∧ available now kind scopeID head ∧
  ∀ key other, co_queue c !! key = Some other → available now kind scopeID other →
    qe_ItemID other ≠ qe_ItemID head → queue_before head other = true.
Proof.
  intros Hq Hhead. unfold queue_head in Hhead.
  set (entries := filter (available now kind scopeID) (map_to_list (co_queue c)).*2) in *.
  assert (list.head (stable_sort queue_before entries) = Some head) as Hfirst.
  { destruct (stable_sort queue_before entries) as [|e es]; [done|].
    apply result_bind_Ok in Hhead as (e' & Hscan & [= ->]). unfold scanQueueEntry in Hscan.
    destruct (parses_back _ && parses_back _); [|done]. by injection Hscan as ->. }
  assert (head ∈ entries) as Hin.
  { rewrite <-(stable_sort_perm queue_before entries). by apply head_Some_elem_of. }
  unfold entries in Hin. rewrite list_elem_of_filter, list_elem_of_fmap in Hin.
  destruct Hin as (Hav & [key e] & -> & Hrow%elem_of_map_to_list). cbn in *.
  pose proof (Hq _ _ Hrow) as Hkey. destruct Hav as (Hk & Hs & Hav). unfold queue_key in Hkey.
  split_and!; [by rewrite <-Hk, <-Hs, Hkey|done|].
  intros key' other Hother Hav' Hne. apply queue_before_total; [done|].
  apply (sorted_head queue_before entries); [apply queue_before_asym|apply queue_before_trans|done|].
  unfold entries. rewrite list_elem_of_filter, list_elem_of_fmap. split; [done|]. exists (key', other).
  split; [done|]. by apply elem_of_map_to_list.
Qed.

(** (C19) A repository is locked in the order of its queue.  When a writer under a new lease
    identifier locks a repository, its queue entry is an available one that comes before every
    other available entry of the repository (a higher priority, then an earlier enqueueing time
    as text, then the smaller item identifier); exactly that entry leaves the queue, and the lock
    of the repository passes from free to the writer with the next token.  A failed call changes
    nothing. *)
Theorem repository_lock_serves_queue c now item request c' result :
  rtc lease_step empty_coordination c → co_leases c !! rq_LeaseID request = None →
  AcquireRepositoryLock now item request c = (c', result) →
  match result with
  | Err _ => c' = c
  | Ok lease =>
      let key := (QueueRepositoryWrite, rq_ScopeID request, item) in
      let scope := (LeaseScopeRepository, rq_ScopeID request) in
      (∃ head, co_queue c !! key = Some head ∧ available now QueueRepositoryWrite (rq_ScopeID request) head ∧
        ∀ key' other, co_queue c !! key' = Some other →
          available now QueueRepositoryWrite (rq_ScopeID request) other → qe_ItemID other ≠ item →
          queue_before head other = true) ∧
      co_queue c' = delete key (co_queue c) ∧
      acquires request (lock_of c scope) (lock_of c' scope) ∧ ls_LeaseID lease = rq_LeaseID request
  end.
Proof.
  intros Hreach Hnew Hlock. pose proof (reachable_wf _ Hreach) as Hwf. pose proof (reachable_queue_wf _ Hreach) as Hq.
  unfold AcquireRepositoryLock, transact in Hlock. case_decide as Hkind; [by injection Hlock as <- <-|].
  destruct (validateAcquireLeaseRequest request); [|by injection Hlock as <- <-]. cbn [result_bind] in Hlock.
  case_decide; [by injection Hlock as <- <-|].
  destruct (lock_repository now item request c) as [[c1 l]|] eqn:Hrun; [|by injection Hlock as <- <-].
  injection Hlock as <- <-.
  destruct (lock_repository_Ok _ _ _ _ _ _ Hwf Hrun) as [(_ & Hold & _)|(c0 & head & _ & Hhead & <- & Hacq & ->)];
    [congruence|]. cbn [with_queue co_queue].
  destruct (queue_head_Ok _ _ _ _ _ Hq Hhead) as (Hrow & Hav & Hfirst).
  rewrite (acquireTx_queue _ _ _ _ _ Hwf Hacq). split_and!; [by exists head|done| |].
  - destruct (acquireTx_Ok _ _ _ _ _ Hwf Hacq) as [(_ & Hold & _)|(pid & _ & Hl & _ & Htok & Hi)]; [congruence|].
    assert (scope_of l = (LeaseScopeRepository, rq_ScopeID request)) as Hscope
      by (subst l; unfold scope_of; cbn; by rewrite Hkind).
    destruct (issued_lock _ _ _ Hwf Hi) as (Hb & Ha & _). rewrite Htok, Hscope in Hb. rewrite Hscope in Ha.
    split; [done|].
    change (lock_of (with_queue _ c0) ?s) with (lock_of c0 s). rewrite Ha. by subst l.
  - destruct (acquireTx_Ok _ _ _ _ _ Hwf Hacq) as [(_ & Hold & _)|(pid & _ & -> & _)]; [congruence|done].
Qed.
End queues.

(** * Examples *)
Section examples.
#[local] Existing Instance ex_sqlite.
Definition ex_enqueue (item : string) (priority : Z) : EnqueueRequest := {|
  nq_Kind := QueueRepositoryWrite; nq_ScopeID := "repo"; nq_ItemID := item; nq_Priority := priority;
  nq_AvailableAt := 0; nq_Payload := "{}" |}.
Definition ex_queue : Coordination :=
  exec (CallEnqueue (3 * second) (ex_enqueue "low" 0)) (exec (CallEnqueue (5 * second) (ex_enqueue "high" 1)) empty_coordination).
Definition ex_writer : AcquireLeaseRequest := {|
  rq_LeaseID := "l1"; rq_ScopeKind := LeaseScopeRepository; rq_ScopeID := "repo";
  rq_HolderAttemptID := "a1"; rq_DaemonInstanceID := "daemon"; rq_HostBootID := "boot";
  rq_ExpectedFencingToken := 0; rq_Duration := 0; rq_ProcessIdentity := "" |}.
Definition ex_locked : Coordination * lease_result Lease :=
  AcquireRepositoryLock (10 * second) "high" ex_writer ex_queue.
Lemma repository_lock_serves_queue_witness :
  match ex_locked.2 with
  | Err _ => ex_locked.1 = ex_queue
  | Ok lease =>
      co_queue ex_locked.1 = delete (QueueRepositoryWrite, "repo", "high") (co_queue ex_queue) ∧
      ls_LeaseID lease = "l1"
  end ∧ is_ok ex_locked.2 = true.
Proof.
  split; [|vm_compute; reflexivity].
  pose proof (repository_lock_serves_queue ex_queue (10 * second) "high" ex_writer ex_locked.1 ex_locked.2) as Hq.
  specialize (Hq ltac:(eapply rtc_l; [by apply (step_call (CallEnqueue (5 * second) (ex_enqueue "high" 1)))|];
    apply rtc_once; by apply (step_call (CallEnqueue (3 * second) (ex_enqueue "low" 0)))) eq_refl
    (surjective_pairing _)).
  destruct ex_locked.2 as [lease|e]; [|exact Hq]. destruct Hq as (_ & Hqueue & _ & Hid). split; assumption.
Defined.

(** The texts of instants are not in the order of the instants: the entry enqueued at 0.15 s is
    served before the one enqueued at 0.1 s, and at 0.15 s an entry available from 0.1 s is not
    available yet. *)
Example queue_not_fifo :
  let c := exec (CallEnqueue 150000000 (ex_enqueue "later" 0))
             (exec (CallEnqueue 100000000 (ex_enqueue "earlier" 0)) empty_coordination) in
  qe_ItemID <$> (match QueueHead second QueueRepositoryWrite "repo" c with Ok e => Some e | Err _ => None end)
    = Some "later".
Proof. vm_compute. reflexivity. Qed.
Example available_too_late :
  ¬ available 150000000 QueueRepositoryWrite "repo"
      {| qe_Kind := QueueRepositoryWrite; qe_ScopeID := "repo"; qe_ItemID := "item"; qe_Priority := 0;
         qe_AvailableAt := 100000000; qe_EnqueuedAt := 0; qe_Payload := "{}" |}.
Proof. unfold available. vm_compute. intros (_ & _ & H). discriminate. Qed.
End examples.
