(* ===== verification/RecoverySafety.v ===== *)
(** What startup recovery promises: every pending lease and operation is decided once, without an
    observer nothing is let loose, and scheduling waits for what has to be reconciled. *)
From S2P Require Import Prelude GoStrings GoUnicode GoJson JsonRoundTrip GoSort GoEncode StateStore Interaction GoTime StoreTables EventStore EventLog Coordination RunContext Recovery LeaseLock LeaseSafety.
From stdpp Require Import options.

(** * Normal forms *)
Lemma normalizeJSONObject_idemp value encoded :
  normalizeJSONObject value = Ok encoded → normalizeJSONObject encoded = Ok encoded.
Proof.
  unfold normalizeJSONObject. case_decide; [done|]. destruct (Unmarshal value) as [v|] eqn:Hu; [|done].
  destruct v as [| | | | |m]; try done. intros Heq.
  assert (encoded = Marshal (JObject m)) as -> by congruence. clear Heq.
  destruct (Marshal_canonical _ _ Hu) as [Hs Hm]. rewrite Hs. cbn [sorted] in *. rewrite Hm.
  rewrite decide_False; [done|]. intros He. rewrite He in Hs. done.
Qed.
Lemma normalizeSubject_idemp subject normal :
  normalizeSubject subject = Ok normal → normalizeSubject normal = Ok normal.
Proof.
  intros Hn. unfold normalizeSubject in Hn. destruct (negb (member _ _)) eqn:Hk; [done|].
  case_decide as Hids; [done|]. destruct (negb (pending_state _ _)) eqn:Hp; [done|].
  apply result_bind_Ok in Hn as (payload & Hpay & Hn). injection Hn as <-.
  unfold normalizeSubject. cbn [sj_Kind sj_ID sj_Authority sj_State sj_Payload].
  rewrite Hk, decide_False, Hp, (normalizeJSONObject_idemp _ _ Hpay) by done. done.
Qed.
Lemma normalizeDecision_idemp decision normal :
  normalizeDecision decision = Ok normal → normalizeDecision normal = Ok normal.
Proof.
  intros Hn. unfold normalizeDecision in Hn. destruct (negb (member _ _)) eqn:Ho; [done|].
  apply result_bind_Ok in Hn as (evidence & He & Hn). injection Hn as <-.
  unfold normalizeDecision. cbn [de_Outcome de_Evidence]. by rewrite Ho, (normalizeJSONObject_idemp _ _ He).
Qed.

Abbreviation subject_key subject := (sj_Kind subject, sj_ID subject).
Lemma normalizeSubject_key subject normal : normalizeSubject subject = Ok normal →
  subject_key normal = subject_key subject ∧ sj_Authority normal = sj_Authority subject ∧
  sj_State normal = sj_State subject ∧ sj_Kind subject ∈ [SubjectLease; SubjectOperation].
Proof.
  unfold normalizeSubject. destruct (member _ _) eqn:Hk; [|done]. cbn [negb]. case_decide; [done|].
  destruct (negb _); [done|]. intros Hn. apply result_bind_Ok in Hn as (payload & _ & [= <-]).
  split_and!; [done..|]. by apply bool_decide_eq_true in Hk.
Qed.

Section classify.
Context {S : Type} (observers : gmap string (Subject → observation)).

Lemma classify_Ok seen pending subject decision : classify observers seen pending = Ok (subject, decision) →
  normalizeSubject pending = Ok subject ∧ subject_key subject ∉ seen ∧
  normalizeSubject subject = Ok subject ∧ normalizeDecision decision = Ok decision ∧
  validateDecisionForSubject subject decision = Ok tt ∧
  ∃ observed, observe observers subject = Ok observed ∧ normalizeDecision observed = Ok decision.
Proof.
  intros Hc. apply result_bind_Ok in Hc as (s & Hs & Hc). case_decide as Hseen; [done|].
  apply result_bind_Ok in Hc as (o & Ho & Hc). apply result_bind_Ok in Hc as (d & Hd & Hc).
  apply result_bind_Ok in Hc as ([] & Hv & [= -> ->]). split_and!; try done.
  - by eapply normalizeSubject_idemp.
  - by eapply normalizeDecision_idemp.
  - by exists o.
Qed.
End classify.

(** * One decision *)
Section sqlite.
Context `{!SqliteJson, !UnicodeLower, !TicketSource}.
Implicit Types s : RecoveryState.

(** The row of a subject. *)
Definition subject_row s (key : SubjectKind * string) : option (Lease + Operation) :=
  if decide (key.1 = SubjectLease) then inl <$> co_leases (rv_leases s) !! key.2
  else if decide (key.1 = SubjectOperation) then inr <$> rv_outbox s !! key.2
  else None.
Definition row_state (row : Lease + Operation) : string :=
  match row with inl lease => ls_State lease | inr op => op_State op end.
Definition recovered_row (now : Time) (startupID : string) (subject : Subject) (decision : Decision)
    (row : Lease + Operation) : recovery_result (Lease + Operation) :=
  match row with
  | inl lease => let? lease := recovered_lease now startupID subject decision lease in Ok (inl lease)
  | inr op => let? op := recovered_operation now startupID decision op in Ok (inr op)
  end.
(** A decision about a subject reaches its row, its record and nothing else. *)
Record decided (now : Time) (startupID : string) (subject : Subject) (decision : Decision) s s' : Prop := {
  dc_row : ∃ row row', subject_row s (subject_key subject) = Some row ∧ row_state row = sj_State subject ∧
    recovered_row now startupID subject decision row = Ok row' ∧
    subject_row s' (subject_key subject) = Some row';
  dc_record : rv_decisions s' !! (startupID, sj_Kind subject, sj_ID subject) = Some (decision_row now subject decision);
  dc_others : ∀ key, key ≠ subject_key subject → subject_row s' key = subject_row s key;
  dc_records : ∀ key, key ≠ (startupID, sj_Kind subject, sj_ID subject) → rv_decisions s' !! key = rv_decisions s !! key;
  dc_wf : leases_wf (rv_leases s) → parses_back now = true → parses_back (now + 30 * second) = true →
    leases_wf (rv_leases s');
  dc_scopes : co_scopes (rv_leases s') = co_scopes (rv_leases s);
}.

Lemma apply_decision_Ok now startupID subject decision s s' : leases_wf (rv_leases s) →
  apply_decision now startupID subject decision s = Ok s' →
  (∃ row row', subject_row s (subject_key subject) = Some row ∧ row_state row = sj_State subject ∧
    recovered_row now startupID subject decision row = Ok row' ∧ subject_row s' (subject_key subject) = Some row') ∧
  rv_decisions s' = rv_decisions s ∧ (∀ key, key ≠ subject_key subject → subject_row s' key = subject_row s key) ∧
  (parses_back now = true → parses_back (now + 30 * second) = true → leases_wf (rv_leases s')) ∧
  co_scopes (rv_leases s') = co_scopes (rv_leases s).
Proof.
  intros Hwf. unfold apply_decision. case_decide as Hkind; [|case_decide as Hop; [|done]].
  - intros Ha. apply result_bind_Ok in Ha as (c' & Ha & [= <-]).
    pose proof Ha as Happ. unfold applyLeaseRecovery in Ha. destruct (negb _); [done|].
    apply result_bind_Ok in Ha as (l & Hreq & Ha). apply result_bind_Ok in Ha as (l' & Hrec & Ha).
    destruct (lease_update_ok l'); [|done]. injection Ha as <-.
    unfold requireRecoveryUpdate in Hreq. destruct (co_leases (rv_leases s) !! sj_ID subject) as [l0|] eqn:Hid; [|done].
    case_decide as Hst; [|done]. injection Hreq as ->.
    assert (ls_LeaseID l' = sj_ID subject) as Hkey.
    { rewrite <-(lw_id _ _ _ (cw_rows _ Hwf _ _ Hid)).
      by destruct (recovered_cases _ _ _ _ _ _ Hrec Hst) as [[-> _]|[[_ [ev ->]]|[_ [ev ->]]]]. }
    split_and!; try done.
    + exists (inl l), (inl l'). unfold subject_row. cbn [fst snd rv_leases with_lease co_leases].
      rewrite decide_True by done. rewrite Hid, Hkey, lookup_insert_eq. cbn. by rewrite Hrec, decide_True.
    + intros [kind id] Hne. unfold subject_row. cbn. case_decide as Hk; [|done]. rewrite Hkey, lookup_insert_ne; [done|].
      intros <-. apply Hne. congruence.
    + intros Hn He. cbn. destruct (recovery_Ok _ _ _ _ _ _ Hwf Hn He Happ) as (? & ? & _ & _ & _ & Hm & _).
      by eapply moved_wf.
  - intros Ha. apply result_bind_Ok in Ha as (outbox & Ha & [= <-]). unfold applyOperationRecovery in Ha.
    destruct (negb _); [done|]. apply result_bind_Ok in Ha as (op & Hreq & Ha).
    apply result_bind_Ok in Ha as (op' & Hrec & Ha). destruct (nullable_json_valid _); [|done]. injection Ha as <-.
    unfold requireRecoveryUpdate in Hreq. destruct (rv_outbox s !! sj_ID subject) as [o|] eqn:Hid; [|done].
    case_decide as Hst; [|done]. injection Hreq as ->. split_and!; try done.
    + exists (inr op), (inr op'). unfold subject_row. cbn [fst snd rv_outbox].
      rewrite Hid, lookup_insert_eq. cbn. by rewrite Hrec, !(decide_False (P := _ = SubjectLease)), !decide_True.
    + intros [kind id] Hne. unfold subject_row. cbn. case_decide; [done|]. case_decide as Hk; [|done].
      rewrite lookup_insert_ne; [done|]. intros <-. apply Hne. congruence.
Qed.

Lemma decide_fresh now startupID subject decision s s' : leases_wf (rv_leases s) →
  normalizeSubject subject = Ok subject → normalizeDecision decision = Ok decision →
  rv_decisions s !! (startupID, sj_Kind subject, sj_ID subject) = None →
  decide_subject now startupID subject decision s = Ok s' → decided now startupID subject decision s s'.
Proof.
  intros Hwf Hs Hd Hfresh Hdec. unfold decide_subject in Hdec. rewrite Hs, Hd in Hdec. cbn [result_bind] in Hdec.
  apply result_bind_Ok in Hdec as (u & _ & Hdec). unfold readRecoveryDecision in Hdec. rewrite Hfresh in Hdec.
  apply result_bind_Ok in Hdec as (s1 & Ha & Hdec). unfold insert_decision in Hdec.
  destruct (negb _); [done|]. injection Hdec as <-.
  destruct (apply_decision_Ok _ _ _ _ _ _ Hwf Ha) as (Hrow & Hrec & Hothers & Hwf' & Hsc).
  split; cbn [rv_decisions]; try done.
  - by rewrite lookup_insert_eq.
  - intros key Hne. by rewrite lookup_insert_ne, Hrec by done.
Qed.

(** (C20) A startup decides a subject once.  After a decision was committed, committing the same
    one again for the subject as it was observed is accepted and changes nothing, any other is a
    conflict and changes nothing either, and this stays so whatever else the startup decides. *)
Theorem recovery_decided_once now startupID subject decision s s' :
  leases_wf (rv_leases s) → rv_decisions s !! (startupID, sj_Kind subject, sj_ID subject) = None →
  normalizeSubject subject = Ok subject → normalizeDecision decision = Ok decision →
  sqlite_apply now startupID subject decision s = (s', Ok tt) →
  ∀ s'', rv_decisions s' ⊆ rv_decisions s'' →
  sqlite_apply now startupID subject decision s'' = (s'', Ok tt) ∧
  ∀ subject' decision', subject_key subject' = subject_key subject →
    normalizeSubject subject' = Ok subject' → normalizeDecision decision' = Ok decision' →
    validateDecisionForSubject subject' decision' = Ok tt →
    (sj_Authority subject', sj_State subject', sj_Payload subject', decision') ≠
      (sj_Authority subject, sj_State subject, sj_Payload subject, decision) →
    sqlite_apply now startupID subject' decision' s'' =
      (s'', Err (RecoveryConflict startupID (sj_Kind subject) (sj_ID subject))).
Proof.
  intros Hwf Hfresh Hs Hd Happ s'' Hsub. unfold sqlite_apply in Happ. case_decide as Hid; [done|].
  unfold transact in Happ. destruct (let? _ := _ in _) as [[s1 []]|] eqn:Hdec in Happ; [|done]. injection Happ as ->.
  apply result_bind_Ok in Hdec as (s2 & Hdec & [= ->]).
  pose proof Hdec as Hvalid. unfold decide_subject in Hvalid. rewrite Hs, Hd in Hvalid. cbn [result_bind] in Hvalid.
  apply result_bind_Ok in Hvalid as ([] & Hvalid & _).
  pose proof (decide_fresh _ _ _ _ _ _ Hwf Hs Hd Hfresh Hdec) as Hdc.
  pose proof (lookup_weaken _ _ _ _ (dc_record _ _ _ _ _ _ Hdc) Hsub) as Hrow.
  split.
  - unfold sqlite_apply, transact, decide_subject. rewrite decide_False by done. rewrite Hs, Hd. cbn [result_bind].
    rewrite Hvalid. cbn [result_bind]. unfold readRecoveryDecision. rewrite Hrow. cbn.
    by rewrite bool_decide_eq_true_2.
  - intros subject' decision' [= Hk Hi] Hs' Hd' Hv' Hne.
    unfold sqlite_apply, transact, decide_subject. rewrite decide_False by done. rewrite Hs', Hd'. cbn [result_bind].
    rewrite Hv'. cbn [result_bind]. unfold readRecoveryDecision. rewrite Hk, Hi, Hrow. cbn.
    rewrite bool_decide_eq_false_2; [done|]. intros (Ha & Hst & Hp & Ho & He). apply Hne.
    rewrite <-Ha, <-Hst, <-Hp. f_equal. destruct decision, decision'. cbn in *. congruence.
Qed.

(** * A pass over the subjects *)
Section pass.
Context (quick_check : RecoveryState → list string) (now : Subject → Time)
        (observers : gmap string (Subject → observation)) (startupID : string).
#[local] Instance store : RecoveryStore RecoveryState := sqlite_recovery quick_check now.

(** The clocks show years of four digits. *)
Definition clocks_ok : Prop := ∀ subject, parses_back (now subject) = true ∧ parses_back (now subject + 30 * second) = true.
(** No decision of this startup is recorded yet about the keys outside of a set. *)
Definition undecided (seen : gset (SubjectKind * string)) s : Prop :=
  ∀ key, key ∉ seen → rv_decisions s !! (startupID, key.1, key.2) = None.
Definition report_keys (report : Report) : list (SubjectKind * string) := (λ entry, subject_key entry.1) <$> report.
(** The decision of an entry is what its observer says, or the fence without one. *)
Definition classified (pending : Subject) (entry : Subject * Decision) : Prop :=
  normalizeSubject pending = Ok entry.1 ∧
  ∃ observed, observe observers entry.1 = Ok observed ∧ normalizeDecision observed = Ok entry.2.
(** The row of an entry was in the state it was observed in, and moved as decided. *)
Definition settled s s' (entry : Subject * Decision) : Prop :=
  (∃ row row', subject_row s (subject_key entry.1) = Some row ∧ row_state row = sj_State entry.1 ∧
     recovered_row (now entry.1) startupID entry.1 entry.2 row = Ok row' ∧
     subject_row s' (subject_key entry.1) = Some row') ∧
  rv_decisions s' !! (startupID, sj_Kind entry.1, sj_ID entry.1) = Some (decision_row (now entry.1) entry.1 entry.2).
Record pass s s' (subjects : list Subject) (report : Report) : Prop := {
  ps_classified : Forall2 classified subjects report;
  ps_once : NoDup (report_keys report);
  ps_settled : ∀ entry, entry ∈ report → settled s s' entry;
  ps_others : ∀ key, key ∉ report_keys report → subject_row s' key = subject_row s key;
  ps_records : ∀ startup key, startup ≠ startupID ∨ key ∉ report_keys report →
    rv_decisions s' !! (startup, key.1, key.2) = rv_decisions s !! (startup, key.1, key.2);
  ps_wf : leases_wf (rv_leases s');
  ps_scopes : co_scopes (rv_leases s') = co_scopes (rv_leases s);
}.

Lemma pass_cons s s1 s' pending subject decision subjects report :
  classified pending (subject, decision) → decided (now subject) startupID subject decision s s1 →
  pass s1 s' subjects report → subject_key subject ∉ report_keys report →
  pass s s' (pending :: subjects) ((subject, decision) :: report).
Proof.
  intros Hc Hd Hp Hnew. destruct Hp as [Hall Hnd Hset Hoth Hrec Hwf Hsc].
  split; [by constructor|by constructor| | | |done|by rewrite Hsc; apply Hd].
  - intros entry [->|Hin]%elem_of_cons.
    + destruct (dc_row _ _ _ _ _ _ Hd) as (row & row' & Hr & Hst & Hre & Hr'). split.
      * exists row, row'. split_and!; try done. cbn [fst]. by rewrite Hoth.
      * pose proof (Hrec startupID (subject_key subject) (or_intror Hnew)) as Hk. cbn in Hk |- *. rewrite Hk. apply (dc_record _ _ _ _ _ _ Hd).
    + destruct (Hset _ Hin) as [(row & row' & Hr & ?) ?]. split; [|done]. exists row, row'.
      split; [|done]. rewrite <-Hr. symmetry. apply (dc_others _ _ _ _ _ _ Hd). intros Heq. apply Hnew.
      rewrite <-Heq. by apply (list_elem_of_fmap_2 (λ entry, subject_key entry.1)).
  - intros key [Hne Hni]%not_elem_of_cons. rewrite Hoth by done. by apply (dc_others _ _ _ _ _ _ Hd).
  - intros startup [k i] Hk. cbn [fst snd]. pose proof (Hrec startup (k, i)) as Hr. cbn [fst snd] in Hr. rewrite Hr.
    + apply (dc_records _ _ _ _ _ _ Hd). intros [= -> -> ->].
      destruct Hk as [Hk|[Hk _]%not_elem_of_cons]; by apply Hk.
    + destruct Hk as [|[_ Hk]%not_elem_of_cons]; [by left|by right].
Qed.
Lemma reconcile_pass subjects : ∀ seen s s' report,
  leases_wf (rv_leases s) → clocks_ok → undecided seen s →
  reconcile observers startupID seen subjects s = (s', Ok report) →
  pass s s' subjects report ∧ ∀ key, key ∈ report_keys report → key ∉ seen.
Proof.
  induction subjects as [|pending subjects IH]; intros seen s s' report Hwf Hclock Hund Hrun; cbn [reconcile] in Hrun.
  { injection Hrun as <- <-. split; [|by intros ? ?%elem_of_nil]. split; try done; [apply NoDup_nil_2|by intros ? ?%elem_of_nil]. }
  destruct (classify observers seen pending) as [[subject decision]|] eqn:Hc; [|done].
  destruct (classify_Ok _ _ _ _ _ Hc) as (Hn & Hnew & Hs & Hd & Hv & Hobs).
  destruct (ApplyRecovery startupID subject decision s) as [s1 [[]|]] eqn:Happ; [|done].
  cbn in Happ. unfold sqlite_apply in Happ. case_decide; [done|]. unfold transact in Happ.
  destruct (let? _ := _ in _) as [[s2 []]|] eqn:Hdec in Happ; [|done]. injection Happ as ->.
  apply result_bind_Ok in Hdec as (s3 & Hdec & [= ->]).
  pose proof (decide_fresh _ _ _ _ _ _ Hwf Hs Hd (Hund _ Hnew) Hdec) as Hdc.
  destruct (reconcile observers startupID ({[subject_key subject]} ∪ seen) subjects s1) as [s4 rest] eqn:Hrest.
  injection Hrun as <- Hrun. destruct rest as [rest|]; [|done]. injection Hrun as <-.
  destruct (Hclock subject) as [Hc1 Hc2].
  assert (undecided ({[subject_key subject]} ∪ seen) s1) as Hund1.
  { intros [k i] Hk. rewrite not_elem_of_union, not_elem_of_singleton in Hk. destruct Hk as [Hne Hk].
    rewrite (dc_records _ _ _ _ _ _ Hdc); [by apply Hund|]. intros [= -> ->]. by apply Hne. }
  destruct (IH _ _ _ _ (dc_wf _ _ _ _ _ _ Hdc Hwf Hc1 Hc2) Hclock Hund1 Hrest) as [Hp Hseen].
  split.
  - eapply pass_cons; [by split|done|done|]. intros Hin. apply (Hseen _ Hin).
    by apply elem_of_union_l, elem_of_singleton.
  - intros key [->|Hin]%elem_of_cons; [done|]. intros Hk. apply (Hseen _ Hin). by apply elem_of_union_r.
Qed.

(** * What is pending *)
Definition row_pending (row : Lease + Operation) : Prop :=
  match row with inl lease => pending_lease lease = true | inr op => pending_operation op = true end.

Lemma foldM_collect {A B} (f : A → recovery_result B) l acc out :
  foldM (λ out x, let? y := f x in Ok (out ++ [y])) acc l = Ok out →
  ∃ ys, out = acc ++ ys ∧ Forall2 (λ x y, f x = Ok y) l ys.
Proof.
  revert acc. induction l as [|x l IH]; intros acc Hf; cbn [foldM] in Hf.
  { injection Hf as <-. exists []. by rewrite app_nil_r. }
  apply result_bind_Ok in Hf as (acc' & Hx & Hf). apply result_bind_Ok in Hx as (y & Hy & [= <-]).
  destruct (IH _ Hf) as (ys & -> & Hall). exists (y :: ys). rewrite <-app_assoc. split; [done|by constructor].
Qed.
Lemma elem_of_rows_in_order {A} (P : A → bool) (rows : gmap string A) kv :
  kv ∈ rows_in_order P rows ↔ rows !! kv.1 = Some kv.2 ∧ P kv.2 = true.
Proof.
  unfold rows_in_order. rewrite stable_sort_perm, list_elem_of_filter. destruct kv as [k v]. cbn.
  rewrite elem_of_map_to_list. tauto.
Qed.
(** The subjects collected from the rows with a property. *)
Lemma collected {A} (P : A → bool) (rows : gmap string A) (f : string * A → recovery_result Subject) kind subjects :
  foldM (λ out row, let? y := f row in Ok (out ++ [y])) [] (rows_in_order P rows) = Ok subjects →
  (∀ row subject, row ∈ rows_in_order P rows → f row = Ok subject → subject_key subject = (kind, row.1)) →
  ∀ key, (∃ subject, subject ∈ subjects ∧ subject_key subject = key) ↔
         key.1 = kind ∧ ∃ row, rows !! key.2 = Some row ∧ P row = true.
Proof.
  intros Hf Hkey key. destruct (foldM_collect _ _ _ _ Hf) as (ys & -> & Hall). cbn [app].
  split.
  - intros (subject & Hin & <-). apply list_elem_of_lookup in Hin as [i Hi].
    destruct (Forall2_lookup_r _ _ _ _ _ Hall Hi) as (row & Hr & Hs). apply list_elem_of_lookup_2 in Hr.
    rewrite (Hkey _ _ Hr Hs). apply elem_of_rows_in_order in Hr as [? ?]. split; [done|]. by exists row.2.
  - intros (Hk & v & Hv & HP). assert ((key.2, v) ∈ rows_in_order P rows) as Hin by by apply elem_of_rows_in_order.
    pose proof Hin as Hin2. apply list_elem_of_lookup in Hin as [i Hi].
    destruct (Forall2_lookup_l _ _ _ _ _ Hall Hi) as (subject & Hs & Hf').
    exists subject. split; [by eapply list_elem_of_lookup_2|]. rewrite (Hkey _ _ Hin2 Hf'). by destruct key; cbn in *; subst.
Qed.
Lemma pending_keys s subjects : leases_wf (rv_leases s) → sqlite_pending s = Ok subjects →
  ∀ key, (∃ subject, subject ∈ subjects ∧ subject_key subject = key) ↔
         ∃ row, subject_row s key = Some row ∧ row_pending row.
Proof.
  intros Hwf Hp key. apply result_bind_Ok in Hp as (leases & Hl & Hp). apply result_bind_Ok in Hp as (ops & Ho & [= <-]).
  assert (∀ key, (∃ subject, subject ∈ leases ∧ subject_key subject = key) ↔
    key.1 = SubjectLease ∧ ∃ row, co_leases (rv_leases s) !! key.2 = Some row ∧ pending_lease row = true) as HL.
  { apply (collected _ _ scan_subject); [done|].
    intros [id l] subject Hin Hs. apply elem_of_rows_in_order in Hin as [Hid _]. cbn in *.
      pose proof (cw_rows _ Hwf _ _ Hid) as Hlw. unfold scan_subject in Hs. cbn in Hs.
      rewrite (lw_readable _ _ _ Hlw) in Hs. cbn in Hs.
      apply result_bind_Ok in Hs as (e & _ & [= <-]). cbn. by rewrite (lw_id _ _ _ Hlw). }
  assert (∀ key, (∃ subject, subject ∈ ops ∧ subject_key subject = key) ↔
    key.1 = SubjectOperation ∧ ∃ row, rv_outbox s !! key.2 = Some row ∧ pending_operation row = true) as HO.
  { apply (collected _ _ (λ row, operation_subject row.1 row.2)); [done|].
    intros [id op] subject _ Hs. cbn in Hs. by apply result_bind_Ok in Hs as (e & _ & [= <-]). }
  specialize (HL key). specialize (HO key). unfold subject_row. split.
  - intros (subject & [Hin|Hin]%elem_of_app & <-).
    + destruct (proj1 HL) as (Hk & row & Hr & HP); [by exists subject|]. exists (inl row).
      rewrite decide_True by done. by rewrite Hr.
    + destruct (proj1 HO) as (Hk & row & Hr & HP); [by exists subject|]. exists (inr row).
      rewrite decide_False, decide_True by (done || by rewrite Hk). by rewrite Hr.
  - intros (row & Hr & HP). case_decide as Hk; [|case_decide as Hk'; [|done]].
    + apply fmap_Some in Hr as (l & Hr & ->). destruct (proj2 HL) as (subject & Hin & Heq); [split; [done|by exists l]|].
      exists subject. split; [by apply elem_of_app; left|done].
    + apply fmap_Some in Hr as (o & Hr & ->). destruct (proj2 HO) as (subject & Hin & Heq); [split; [done|by exists o]|].
      exists subject. split; [by apply elem_of_app; right|done].
Qed.

(** What becomes of a pending row: a held lease may go on under this startup, an operation may be
    taken over by it or wait again; anything else is over or fenced. *)
Definition fate (row row' : Lease + Operation) : Prop :=
  match row, row' with
  | inl lease, inl lease' =>
      (ls_LeaseID lease', scope_of lease', ls_HolderAttemptID lease', ls_FencingToken lease') =
        (ls_LeaseID lease, scope_of lease, ls_HolderAttemptID lease, ls_FencingToken lease) ∧
      (ls_State lease = LeaseHeld ∧ ls_State lease' = LeaseHeld ∧ ls_DaemonInstanceID lease' = startupID ∨
       ls_State lease' = LeaseReleased ∨ ls_State lease' = LeaseReconcileRequired)
  | inr op, inr op' =>
      (op_Kind op', op_AggregateID op', op_Request op', op_AttemptCount op') =
        (op_Kind op, op_AggregateID op, op_Request op, op_AttemptCount op) ∧
      (op_State op' = "leased" ∧ op_LeaseOwner op' = Some startupID ∨
       op_State op' = "prepared" ∧ op_LeaseOwner op' = None ∨
       op_State op' = "committed" ∨ op_State op' = "reconcile_required")
  | _, _ => False
  end.
Lemma recovered_fate at_ subject decision row row' : recovered_row at_ startupID subject decision row = Ok row' →
  row_state row = sj_State subject →
  fate row row' ∧ (row_state row' = "reconcile_required" ↔ de_Outcome decision = OutcomeReconcileRequired).
Proof.
  clear now. destruct row as [l|o]; intros Hr Hst; apply result_bind_Ok in Hr as (next & Hr & [= <-]); cbn in *.
  - unfold recovered_lease in Hr. case_decide as Ho; [|case_decide as Ho'; [|case_decide as Ho'']].
    + case_decide as Hheld; [done|]. injection Hr as <-. cbn. rewrite Hst, Hheld, Ho. split; [|done].
      split; [done|by left].
    + injection Hr as <-. cbn. destruct Ho' as [-> | ->]; (split; [|done]); (split; [done|by right; left]).
    + injection Hr as <-. cbn. rewrite Ho''. split; [|done]. split; [done|by right; right].
    + done.
  - unfold recovered_operation in Hr.
    repeat (case_decide as Ho; [injection Hr as <-; cbn; rewrite Ho; split; [|done]; split; [done|tauto]|clear Ho]).
    done.
Qed.

Lemma forM_ok_rows (rows : list string) : check_rows rows = Ok tt → rows ≠ [] ∧ Forall (.= "ok") rows.
Proof.
  unfold check_rows. case_decide; [done|]. rewrite forM_Ok. intros Hall. split; [done|].
  eapply Forall_impl; [exact Hall|]. cbn. intros row. by case_decide.
Qed.
(** The stages of a successful run. *)
Lemma Run_Ok s s' report : Run observers startupID s = (s', Ok report) →
  ∃ s1 subjects, rv_leases s1 = rv_leases s ∧ rv_outbox s1 = rv_outbox s ∧ rv_decisions s1 = rv_decisions s ∧
    sqlite_pending s1 = Ok subjects ∧
    reconcile observers startupID ∅ (stable_sort subject_before subjects) s1 = (s', Ok report).
Proof.
  unfold Run. destruct (startup_invalid startupID); [done|].
  destruct (CheckIntegrity s) as [[]|]; [|done]. destruct (RebuildDerived s) as [s1 [[]|]] eqn:Hre; [|done].
  destruct (PendingRecovery s1) as [subjects|] eqn:Hp; [|done]. intros Hrun. exists s1, subjects.
  cbn in Hre. unfold sqlite_rebuild in Hre. destruct (RebuildProjections (rv_database s)) as [db [|]]; [|done].
  by injection Hre as <-.
Qed.
Lemma run_pass s s' report : leases_wf (rv_leases s) → clocks_ok → undecided ∅ s →
  Run observers startupID s = (s', Ok report) →
  ∃ subjects, pass s s' subjects report ∧
    (∀ key, key ∈ report_keys report ↔ ∃ row, subject_row s key = Some row ∧ row_pending row).
Proof.
  intros Hwf Hclock Hund Hrun. destruct (Run_Ok _ _ _ Hrun) as (s1 & subjects & Hl & Ho & Hd & Hp & Hrec).
  assert (∀ key, subject_row s1 key = subject_row s key) as Hrows by (intros; unfold subject_row; by rewrite Hl, Ho).
  destruct (reconcile_pass _ _ _ _ _ ltac:(rewrite Hl; exact Hwf) Hclock
    ltac:(intros key Hk; rewrite Hd; by apply Hund) Hrec) as [Hps _].
  exists (stable_sort subject_before subjects). split.
  - destruct Hps as [H2 H3 H4 H5 H6 H7 H8]. split; try done.
    + intros entry [Hr Hrec']%H4. split; [|done]. by rewrite <-Hrows.
    + intros key Hk. by rewrite H5, Hrows.
    + intros startup key Hk. by rewrite H6, Hd.
    + by rewrite H8, Hl.
  - intros key. setoid_rewrite <-Hrows. rewrite <-(pending_keys s1 subjects) by (done || by rewrite Hl).
    pose proof (ps_classified _ _ _ _ Hps) as Hall. unfold report_keys. rewrite list_elem_of_fmap. split.
    + intros (entry & -> & Hin). apply list_elem_of_lookup in Hin as [i Hi].
      destruct (Forall2_lookup_r _ _ _ _ _ Hall Hi) as (pending & Hpend & [Hn _]).
      exists pending. rewrite <-(stable_sort_perm subject_before subjects).
      split; [by eapply list_elem_of_lookup_2|]. symmetry. by apply normalizeSubject_key.
    + intros (pending & Hin & <-). rewrite <-(stable_sort_perm subject_before subjects) in Hin.
      apply list_elem_of_lookup in Hin as [i Hi].
      destruct (Forall2_lookup_l _ _ _ _ _ Hall Hi) as (entry & Hentry & [Hn _]).
      exists entry. split; [symmetry; by apply normalizeSubject_key|by eapply list_elem_of_lookup_2].
Qed.

Lemma scheduling_allowed (report : Report) :
  SchedulingAllowed report = true ↔ ∀ entry, entry ∈ report → de_Outcome entry.2 ≠ OutcomeReconcileRequired.
Proof.
  unfold SchedulingAllowed, ReconcileRequired. rewrite Nat.eqb_eq. split.
  - intros Hlen entry Hin Ho. apply length_zero_iff_nil in Hlen.
    by apply (proj1 (filter_nil_iff _ _) Hlen entry).
  - intros Hall. assert (filter (λ result, de_Outcome result.2 = OutcomeReconcileRequired) report = []) as ->; [|done].
    apply filter_nil_iff. intros x Hx. by apply Hall.
Qed.
(** Without an answer of an observer the subject is fenced. *)
Definition unobserved (subject : Subject) : Prop :=
  match observers !! sj_Authority subject with
  | None => True
  | Some observer => observer subject = ObservationFailed
  end.
Lemma reason_fenced reason authority : de_Outcome (reason_decision reason authority) = OutcomeReconcileRequired.
Proof. reflexivity. Qed.
Lemma unobserved_fenced pending entry : classified pending entry → unobserved entry.1 →
  de_Outcome entry.2 = OutcomeReconcileRequired.
Proof.
  intros (_ & observed & Hobs & Hn). unfold unobserved, observe in *.
  assert (de_Outcome entry.2 = de_Outcome observed) as ->.
  { unfold normalizeDecision in Hn. destruct (negb _); [done|].
    apply result_bind_Ok in Hn as (e & _ & Hn). destruct entry as [subj dec]. cbn in *. by injection Hn as <-. }
  destruct (observers !! _) as [observer|].
  - intros Hf. rewrite Hf in Hobs. injection Hobs as <-. apply reason_fenced.
  - intros _. injection Hobs as <-. apply reason_fenced.
Qed.

(** (C15) Startup recovery settles what was under way.  When a run with a fresh startup identifier
    succeeds, the pending leases and operations (held, releasing; prepared, leased) are exactly
    the subjects of its report, each once, each with its decision on record; a pending row ends
    resumed by this startup, waiting, finished or fenced, and every other row is as it was; the
    fencing tokens stand still and the invariant of the leases is kept; a subject that no observer
    answers for is fenced; and scheduling is allowed exactly when nothing that was pending has to
    be reconciled. *)
Theorem recovery_settles s s' report :
  leases_wf (rv_leases s) → clocks_ok → undecided ∅ s →
  Run observers startupID s = (s', Ok report) →
  NoDup (report_keys report) ∧
  (∀ key, key ∈ report_keys report ↔ ∃ row, subject_row s key = Some row ∧ row_pending row) ∧
  (∀ key row, subject_row s key = Some row →
     if bool_decide (key ∈ report_keys report) then ∃ row', subject_row s' key = Some row' ∧ fate row row'
     else subject_row s' key = Some row) ∧
  (∀ subject decision, (subject, decision) ∈ report →
     rv_decisions s' !! (startupID, sj_Kind subject, sj_ID subject) =
       Some (decision_row (now subject) subject decision) ∧
     (unobserved subject → de_Outcome decision = OutcomeReconcileRequired)) ∧
  leases_wf (rv_leases s') ∧ co_scopes (rv_leases s') = co_scopes (rv_leases s) ∧
  (SchedulingAllowed report = true ↔
     ∀ key row row', subject_row s key = Some row → row_pending row → subject_row s' key = Some row' →
       row_state row' ≠ "reconcile_required").
Proof.
  intros Hwf Hclock Hund Hrun. destruct (run_pass _ _ _ Hwf Hclock Hund Hrun) as (subjects & Hp & Hkeys).
  assert (∀ key, key ∈ report_keys report → ∃ entry, entry ∈ report ∧ key = subject_key entry.1) as Hentry.
  { intros key Hin. apply list_elem_of_fmap in Hin as (entry & -> & Hin). by exists entry. }
  split_and!; [apply (ps_once _ _ _ _ Hp)|done| | |apply (ps_wf _ _ _ _ Hp)|apply (ps_scopes _ _ _ _ Hp)|].
  - intros key row Hrow. case_bool_decide as Hin; [|by rewrite (ps_others _ _ _ _ Hp)].
    destruct (Hentry _ Hin) as (entry & He & ->).
    destruct (ps_settled _ _ _ _ Hp _ He) as [(r & r' & Hr & Hst & Hrec & Hr') _].
    assert (r = row) as -> by congruence. exists r'. split; [done|]. by eapply recovered_fate.
  - intros subject decision Hin. split; [by apply (ps_settled _ _ _ _ Hp) in Hin as [_ ?]|].
    apply list_elem_of_lookup in Hin as [i Hi].
    destruct (Forall2_lookup_r _ _ _ _ _ (ps_classified _ _ _ _ Hp) Hi) as (pending & _ & Hc).
    by apply (unobserved_fenced _ _ Hc).
  - rewrite scheduling_allowed. split.
    + intros Hall key row row' Hrow Hpend Hrow' Hst.
      destruct (Hentry key) as (entry & He & ->); [by apply Hkeys; exists row|].
      destruct (ps_settled _ _ _ _ Hp _ He) as [(r & r' & Hr & Hrs & Hrec & Hr') _].
      assert (r' = row') as -> by congruence. apply (Hall _ He). by eapply recovered_fate.
    + intros Hall entry He Ho. destruct (ps_settled _ _ _ _ Hp _ He) as [(r & r' & Hr & Hrs & Hrec & Hr') _].
      destruct (proj1 (Hkeys (subject_key entry.1))) as (row & Hrow & Hpend);
        [by apply (list_elem_of_fmap_2 (λ entry, subject_key entry.1))|].
      apply (Hall _ _ _ Hrow Hpend Hr'). by eapply recovered_fate.
Qed.

(** (C21) Once a context manifest is stored no startup recovers: rebuilding the projections fails
    before any pending work is looked at, and the run leaves everything as it is. *)
Theorem manifest_blocks_recovery s initial :
  rtc store_step (initial_database initial) (rv_database s) → db_manifests (rv_database s) ≠ ∅ →
  startup_invalid startupID = false → check_rows (quick_check s) = Ok tt →
  Run observers startupID s =
    (s, Err (RecoveryStoreError (StoreConstraint "attempt_projection"))).
Proof.
  intros Hsteps Hman Hid Hcheck. unfold Run. rewrite Hid. cbn [CheckIntegrity store sqlite_recovery].
  rewrite Hcheck. cbn [RebuildDerived store sqlite_recovery]. unfold sqlite_rebuild, RebuildProjections.
  destruct (steps_wf _ _ (initial_database_wf initial) Hsteps) as (Hwf & _ & _).
  rewrite (rebuild_blocked _ Hwf) by done. by destruct s.
Qed.
End pass.
End sqlite.

(** * Examples *)
Section examples.
#[local] Existing Instances ex_sqlite ascii_lower no_tickets.

Definition ex_operation : Operation := {|
  op_Kind := "deliver"; op_AggregateID := "run"; op_Request := "{}"; op_State := "prepared";
  op_AvailableAt := "2026-01-01T00:00:00Z"; op_LeaseOwner := None; op_LeaseExpiresAt := None;
  op_AttemptCount := 0; op_Observation := None; op_UpdatedAt := "2026-01-01T00:00:00Z" |}.
Definition ex_recovery : RecoveryState := {|
  rv_database := ex_initial; rv_leases := ex_held; rv_outbox := {["op1" := ex_operation]}; rv_decisions := ∅ |}.
Definition ex_resume : Decision := {| de_Outcome := OutcomeResume; de_Evidence := "{}" |}.
Definition ex_observers : gmap string (Subject → observation) := {["process" := λ _, Observed ex_resume]}.
Definition ex_check (s : RecoveryState) : list string := ["ok"].
Definition ex_clock (subject : Subject) : Time := (100 * second)%Z.
Definition ex_run : RecoveryState * recovery_result Report :=
  Run (RecoveryStore0 := store ex_check ex_clock) ex_observers "startup" ex_recovery.

Lemma ex_clock_ok : clocks_ok ex_clock.
Proof. intros subject. vm_compute. done. Qed.
(** The held lease goes on under the new startup; the operation, for which there is no observer, is
    fenced, and scheduling has to wait. *)
Lemma recovery_settles_witness :
  match ex_run with
  | (s', Ok report) => leases_wf (rv_leases s') ∧ co_scopes (rv_leases s') = co_scopes ex_held
  | (_, Err _) => False
  end ∧
  (λ result : result _ _, match result with Ok report => (report_keys report, SchedulingAllowed report) | Err _ => ([], true) end)
    ex_run.2 = ([(SubjectLease, "l1"); (SubjectOperation, "op1")], false).
Proof.
  split; [|vm_compute; reflexivity].
  assert (is_ok ex_run.2 = true) as Hok by (vm_compute; reflexivity).
  destruct ex_run as [s' [report|e]] eqn:Hrun; [|discriminate Hok].
  destruct (recovery_settles ex_check ex_clock ex_observers "startup" ex_recovery s' report
    (reachable_wf _ ex_held_reachable) ex_clock_ok ltac:(intros key _; apply lookup_empty) Hrun)
    as (_ & _ & _ & _ & Hwf & Hscopes & _).
  split; [exact Hwf|exact Hscopes].
Defined.

Definition ex_subject : Subject := {|
  sj_Kind := SubjectOperation; sj_ID := "op1"; sj_Authority := "operation:deliver"; sj_State := "prepared";
  sj_Payload := "{}" |}.
Definition ex_adopt : Decision := {| de_Outcome := OutcomeAdopt; de_Evidence := "{}" |}.
Definition ex_decided : RecoveryState := (sqlite_apply ex_clock "startup" ex_subject ex_adopt ex_recovery).1.
Lemma recovery_decided_once_witness :
  sqlite_apply ex_clock "startup" ex_subject ex_adopt ex_decided = (ex_decided, Ok tt) ∧
  sqlite_apply ex_clock "startup" ex_subject {| de_Outcome := OutcomeRetry; de_Evidence := "{}" |} ex_decided =
    (ex_decided, Err (RecoveryConflict "startup" SubjectOperation "op1")).
Proof.
  destruct (recovery_decided_once ex_clock "startup" ex_subject ex_adopt ex_recovery ex_decided
    (reachable_wf _ ex_held_reachable) (lookup_empty _) ltac:(vm_compute; reflexivity)
    ltac:(vm_compute; reflexivity) ltac:(unfold ex_decided; vm_compute; reflexivity) ex_decided (reflexivity _))
    as [Hsame Hother].
  split; [exact Hsame|].
  apply (Hother ex_subject); try (vm_compute; reflexivity). discriminate.
Defined.

Lemma manifest_blocks_recovery_witness :
  Run (RecoveryStore0 := store ex_check ex_clock) ex_observers "startup"
      {| rv_database := ex_frozen; rv_leases := ex_held; rv_outbox := ∅; rv_decisions := ∅ |} =
    ({| rv_database := ex_frozen; rv_leases := ex_held; rv_outbox := ∅; rv_decisions := ∅ |},
     Err (RecoveryStoreError (StoreConstraint "attempt_projection"))).
Proof.
  apply (manifest_blocks_recovery ex_check ex_clock ex_observers "startup" _ ex_source).
  - exact ex_frozen_steps.
  - vm_compute. discriminate.
  - vm_compute. reflexivity.
  - vm_compute. reflexivity.
Defined.
End examples.
