(* ===== verification/WorkDeletion.v ===== *)
(** Deletion of work items: in every database the transactions reach, a deleted work item has no
    run that is still open and no attempt that is still active, and it stays so. *)
From S2P Require Import Prelude GoStrings GoUnicode GoJson GoDecode StateStore GoTime Reducer WorkReducer Interaction Lifecycle RunLifecycle WorkLifecycle StoreTables EventStore EventLog.
From stdpp Require Import options.

(** * One field of a struct *)

(** A string field is decoded in the same way in a struct of its own and among other fields, as
    long as no other field answers to its name. *)
Section field.
Context (name : string) (fields : list (string * FieldKind)).
Hypotheses (Hin : (name, Simple KString) ∈ fields) (Hdup : NoDup ((λ f, foldName f.1) <$> fields)).
#[local] Set Default Proof Using "All".

Lemma same_fold f : f ∈ fields → foldName f.1 = foldName name → f = (name, Simple KString).
Proof.
  intros Hf Heq. pose proof (filter_unique (λ f : string * FieldKind, foldName f.1) _ _ Hdup Hin) as Hone.
  assert (f ∈ [(name, Simple KString)]) as ?%list_elem_of_singleton; [|done].
  rewrite <-Hone. by apply list_elem_of_filter.
Qed.
(** A key names the field among the others exactly when it names it alone. *)
Lemma find_field_own key :
  match find_field [string_field name] key with
  | Some f => f = (name, Simple KString) ∧ find_field fields key = Some f
  | None => ∀ f, find_field fields key = Some f → f.1 ≠ name
  end.
Proof.
  assert (∀ f, List.find (λ f, bool_decide (foldName f.1 = foldName name)) fields = Some f →
    f = (name, Simple KString)) as Hfold.
  { intros f [?%list_elem_of_In Hb%bool_decide_eq_true]%find_some. by apply same_fold. }
  unfold find_field at 1. cbn. case_bool_decide as He; [subst key|case_bool_decide as Hf].
  - split; [done|]. unfold find_field.
    destruct (List.find (λ f, bool_decide (f.1 = name)) fields) as [f|] eqn:H1.
    + apply find_some in H1 as [?%list_elem_of_In Hb%bool_decide_eq_true]. f_equal. apply same_fold; [done|by rewrite Hb].
    + exfalso. apply list_elem_of_In in Hin. apply (find_none _ _ H1), bool_decide_eq_false in Hin. done.
  - split; [done|]. unfold find_field.
    destruct (List.find (λ f, bool_decide (f.1 = key)) fields) as [f|] eqn:H1.
    + apply find_some in H1 as [Hf'%list_elem_of_In Hb%bool_decide_eq_true].
      assert (f = (name, Simple KString)) as -> by (apply same_fold; [done|by rewrite Hb]). done.
    + rewrite <-Hf. destruct (List.find _ fields) as [f|] eqn:H2; [f_equal; by apply Hfold|].
      exfalso. apply list_elem_of_In in Hin. apply (find_none _ _ H2), bool_decide_eq_false in Hin. done.
  - intros f Hff Hn. unfold find_field in Hff.
    destruct (List.find (λ f, bool_decide (f.1 = key)) fields) as [f'|] eqn:H1.
    + injection Hff as ->. apply find_some in H1 as [_ Hb%bool_decide_eq_true]. congruence.
    + apply find_some in Hff as [_ Hb%bool_decide_eq_true]. congruence.
Qed.

(** Decoding one field changes no other. *)
Lemma decode_simple_other (env : SimpleFields) other kind raw v env' :
  decode_simple env other kind raw v = Some env' → other ≠ name → env' !! name = env !! name.
Proof.
  intros Hok Hne. destruct kind, v; cbn in Hok; repeat case_match; simplify_option_eq;
    rewrite ?lookup_insert_ne by done; done.
Qed.
Lemma decode_field_other (env : StructFields) other kind raw v env' :
  decode_field env other kind raw v = Some env' → other ≠ name → env' !! name = env !! name.
Proof.
  intros Hok Hne. destruct kind; cbn in Hok.
  all: try (apply bind_Some in Hok as (new & _ & [= <-]); case_match; [by rewrite lookup_insert_ne|done]).
  all: case_match; try (injection Hok as <-; rewrite ?lookup_insert_ne by done; done).
  all: apply bind_Some in Hok as (new & _ & [= <-]); by rewrite lookup_insert_ne.
Qed.
Lemma decode_field_own (env env1 : StructFields) raw v env' :
  env1 !! name = env !! name → decode_field env name (Simple KString) raw v = Some env' →
  ∃ env1', decode_field env1 name (Simple KString) raw v = Some env1' ∧ env1' !! name = env' !! name.
Proof.
  intros Heq. cbn. destruct v; cbn; try done.
  - unfold simple_fields. rewrite !lookup_omap, Heq. intros [= <-]. eexists. split; [done|].
    destruct (env !! name) as [[]|] eqn:He; cbn; [by rewrite !lookup_insert_eq|congruence..].
  - rewrite !lookup_insert_eq. intros [= <-]. eexists. split; [reflexivity|]. by rewrite !lookup_insert_eq.
Qed.

Lemma decode_members_own members (env env1 env' : StructFields) :
  env1 !! name = env !! name → decode_members fields decode_field env members = Some env' →
  ∃ env1', decode_members [string_field name] decode_field env1 members = Some env1' ∧
    env1' !! name = env' !! name.
Proof.
  revert env env1. induction members as [|[[key raw] v] members IH]; intros env env1 Heq; cbn [decode_members].
  { intros [= <-]. eauto. }
  pose proof (find_field_own key) as Hown. destruct (find_field [string_field name] key) as [f|].
  - destruct Hown as [-> ->]. intros (next & Hone & Hrest)%bind_Some.
    destruct (decode_field_own _ env1 _ _ _ Heq Hone) as (next1 & -> & Heq1). cbn. by apply (IH next).
  - destruct (find_field fields key) as [[other kind]|] eqn:Hf; [|by apply IH].
    intros (next & Hone & Hrest)%bind_Some. apply (IH next); [|done]. rewrite Heq. symmetry.
    eapply decode_field_other; [exact Hone|]. by apply (Hown (other, kind)).
Qed.

Lemma Unmarshal_struct_own data env :
  Unmarshal_struct fields data = Some env →
  ∃ env1, Unmarshal_struct [string_field name] data = Some env1 ∧ get_string env1 name = get_string env name.
Proof.
  unfold Unmarshal_struct. destruct (Unmarshal data) as [v|]; [|done].
  assert (∀ env2 members, decode_members fields decode_field ∅ members = Some env2 →
    ∃ env1, decode_members [string_field name] decode_field ∅ members = Some env1 ∧
      get_string env1 name = get_string env2 name) as Hm.
  { intros env2 members (env1 & -> & Heq)%(decode_members_own _ _ ∅); [|done]. exists env1. split; [done|].
    unfold get_string, simple_of. by rewrite Heq. }
  destruct v; try (intros (members & Hmem & Hok%Hm)%bind_Some; rewrite Hmem; exact Hok).
  intros [= <-]. eauto.
Qed.
End field.

Section deletion.
Context `{!SqliteJson, !UnicodeLower, !TicketSource}.
Implicit Types (t : Tables) (event : Event).

(** * The invariant *)
Definition work_deleted t (work : string) : Prop := wit_Deletion <$> t_works t !! work = Some WorkDeleted.
Definition run_over (run : RunProjection) : Prop := run_Status run ∈ [RunCompleted; RunCancelled].
Definition attempt_over (attempt : AttemptProjection) : Prop :=
  att_Status attempt ∈ [AttemptSucceeded; AttemptFailed; AttemptCancelled; AttemptInterrupted].
(** The work item an attempt is made for. *)
Definition attempt_work t (attempt : AttemptProjection) : option string :=
  run_WorkItemID <$> t_runs t !! att_RunID attempt.

Record deletion_safe t : Prop := {
  ds_runs : ∀ id run, t_runs t !! id = Some run → work_deleted t (run_WorkItemID run) → run_over run;
  ds_attempts : ∀ id attempt work, t_attempts t !! id = Some attempt → attempt_work t attempt = Some work →
    work_deleted t work → attempt_over attempt;
  ds_known : ∀ id attempt, t_attempts t !! id = Some attempt → att_Status attempt ∈ active_attempt ∨ attempt_over attempt;
}.

Lemma empty_safe : deletion_safe empty_tables.
Proof. by split; intros id ?; intros. Qed.

Lemma retained_not_deleted t work : requireRetainedWork t work = Ok tt → ¬ work_deleted t work.
Proof.
  unfold requireRetainedWork, work_deleted, read_row. cbn. destruct (t_works t !! work) as [value|]; [|done].
  destruct (_ && _); [|done]. cbn. case_decide as Hd; [done|]. by rewrite Hd.
Qed.
Lemma retained_run_not_deleted t runID run :
  requireRetainedRun t runID = Ok tt → t_runs t !! runID = Some run → ¬ work_deleted t (run_WorkItemID run).
Proof.
  unfold requireRetainedRun, read_row. cbn. intros Hok Hrun. rewrite Hrun in Hok.
  destruct (_ && _); [|done]. by apply retained_not_deleted.
Qed.
Lemma read_row_Some {P} (T : Table P) t id existing : read_row T t id = Ok existing → existing = tbl_rows T t !! id.
Proof. unfold read_row. destruct (tbl_rows T t !! id); [|by intros [= <-]]. destruct (forallb _ _); [|done]. by intros [= <-]. Qed.

Lemma write_row_at {P} (T : Table P) value id t t' :
  write_row T value t = Ok t' → tbl_id T value = id →
  ∃ r, t' = tbl_with T (<[id := r]> (tbl_rows T t)) t ∧ tbl_check T r = true ∧
    match tbl_rows T t !! id with
    | None => r = tbl_row T value
    | Some old => r = tbl_update T old (tbl_row T value)
    end.
Proof.
  intros (r & -> & Hc & Hr)%write_row_inv <-. exists r. split_and!; [done..|].
  destruct (tbl_rows T t !! _); [done|by destruct Hr].
Qed.

(** * What one event does *)
Definition work_written t event (work : WorkItemProjection) : Prop :=
  (wit_Deletion work = WorkDeleted → work_deleted t (ev_AggregateID event) ∨ ev_Kind event = "work.deleted") ∧
  (work_deleted t (ev_AggregateID event) → wit_Deletion work = WorkDeleted).
Lemma project_work t event t' :
  project_event (table_store works) ReduceWorkItem admit_all t event = Ok t' →
  t' = t ∨ ∃ work, t' = tbl_with works (<[ev_AggregateID event := work]> (t_works t)) t ∧ work_written t event work.
Proof.
  intros [[-> _]|(existing & next & Hread & Hred & _ & Hw)]%project_event_Ok; [by left|right].
  apply read_row_Some in Hread as ->. cbn in Hred, Hw. apply reduce_Reduced in Hred as (_ & _ & Hred).
  apply (write_row_at works next (ev_AggregateID event)) in Hw as (work & -> & _ & Hrow); last first.
  { destruct (t_works t !! ev_AggregateID event).
    - apply work_applied_inv in Hred as (Hid & _ & _ & _ & Hnext).
      rewrite Hid. apply (f_equal wit_WorkItemID Hnext).
    - apply work_created_inv in Hred as (_ & Hh & _). apply (f_equal hd_ID Hh). }
  exists work. split; [done|]. unfold work_written, work_deleted. cbn in Hrow.
  destruct (t_works t !! ev_AggregateID event) as [old|]; cbn.
  - subst work. cbn. apply work_applied_inv in Hred as (_ & _ & _ & (Hreq & Hdel & Hother & _) & _).
    destruct (decide (ev_Kind event = "work.deletion_requested")) as [Hk|Hk].
    { destruct Hreq as [-> ->]; [done|]. by split. }
    destruct (decide (ev_Kind event = "work.deleted")) as [Hk'|Hk'].
    { destruct Hdel as [-> ->]; [done|]. split; [by right|done]. }
    rewrite Hother by done. split; [intros ->; by left|by intros [= ->]].
  - subst work. apply work_created_inv in Hred as (_ & _ & -> & _). done.
Qed.

(** The run an event writes belongs to the work item it had; a run that was over is only opened
    again for a work item that is not deleted. *)
Definition run_written t event (run : RunProjection) : Prop :=
  (∀ old, t_runs t !! ev_AggregateID event = Some old → run_WorkItemID run = run_WorkItemID old) ∧
  (work_deleted t (run_WorkItemID run) →
    ∃ old, t_runs t !! ev_AggregateID event = Some old ∧ (run_over old → run_over run)).
Lemma admit_run_Ok event next t :
  admit_run event next t = Ok tt → ev_Kind event ∈ run_guarded → ¬ work_deleted t (run_WorkItemID next).
Proof. unfold admit_run. intros Hok Hk. rewrite decide_True in Hok by done. by apply retained_not_deleted. Qed.
Lemma run_reopened s k s' :
  run_step s k s' → s ∈ [RunCompleted; RunCancelled] → s' ∉ [RunCompleted; RunCancelled] → k = "run.continued".
Proof.
  intros Hs Hin Hout. assert (RunTerminal s = true) as Ht by (apply bool_decide_eq_true; set_solver).
  destruct (run_terminal_step _ _ _ Hs Ht); [done|done|set_solver].
Qed.
Lemma project_run t event t' :
  project_event (table_store runs) ReduceRun (admit_run event) t event = Ok t' →
  t' = t ∨ ∃ run, t' = tbl_with runs (<[ev_AggregateID event := run]> (t_runs t)) t ∧ run_written t event run.
Proof.
  intros [[-> _]|(existing & next & Hread & Hred & Hallow & Hw)]%project_event_Ok; [by left|right].
  apply read_row_Some in Hread as ->. cbn in Hred, Hw.
  assert (tbl_id runs next = ev_AggregateID event) as Hnext.
  { apply reduce_Reduced in Hred as (_ & _ & Hred). destruct (t_runs t !! ev_AggregateID event).
    - apply run_applied_inv in Hred as (-> & _ & mid & s & _ & [->|(? & -> & _)] & ->); done.
    - apply run_created_inv in Hred as (_ & Hh & _). apply (f_equal hd_ID Hh). }
  apply (write_row_at runs next _ _ _ Hw) in Hnext as (run & -> & _ & Hrow). cbn in Hrow.
  exists run. split; [done|]. unfold run_written. destruct (t_runs t !! ev_AggregateID event) as [old|] eqn:Hold.
  - apply ReduceRun_applied in Hred as (mid & s & Hstep & Hgood & -> & <-). subst run. cbn in *.
    assert (run_WorkItemID mid = run_WorkItemID old) as Hwork by by destruct Hgood as [->|(? & -> & _)].
    split; [by intros ? [= <-]|]. intros Hdel. exists old. split; [done|]. unfold run_over. cbn. intros Hover.
    destruct (decide (run_Status mid ∈ [RunCompleted; RunCancelled])) as [?|Hout]; [done|].
    apply (run_reopened _ _ _ Hstep Hover) in Hout. apply admit_run_Ok in Hallow; [|rewrite Hout; set_solver].
    cbn in Hallow. by rewrite Hwork in Hallow.
  - apply ReduceRun_created, run_created_inv in Hred as (Hkind & _). subst run. cbn.
    split; [done|]. intros Hdel. apply admit_run_Ok in Hallow; [done|]. rewrite Hkind. set_solver.
Qed.

(** The attempt an event writes is made for the run it had; one that was over stays over, and a
    new one is not made for deleted work. *)
Definition attempt_written t event (attempt : AttemptProjection) : Prop :=
  (att_Status attempt ∈ active_attempt ∨ attempt_over attempt) ∧
  (∀ work, attempt_work t attempt = Some work → work_deleted t work →
    ∃ old, t_attempts t !! ev_AggregateID event = Some old ∧ att_RunID attempt = att_RunID old ∧
      (attempt_over old → attempt_over attempt)).
Lemma attempt_created_run event next :
  attempt_created event = Ok next →
  ∃ data, Unmarshal_struct [string_field "runId"] (ev_Data event) = Some data ∧
    get_string data "runId" = att_RunID next.
Proof.
  intros Hok. unfold attempt_created in Hok. inv_created Hok. cbn.
  unfold decodeData in Hdata0. destruct (Unmarshal_struct _ _) as [env|] eqn:He; [|done]. injection Hdata0 as <-.
  apply (Unmarshal_struct_own "runId") in He; [done|set_solver|].
  refine (bool_decide_eq_true_1 _ _). vm_compute. reflexivity.
Qed.
Lemma project_attempt t event t' :
  check_attempt t event = Ok tt →
  project_event (table_store attempts) ReduceAttempt admit_all t event = Ok t' →
  t' = t ∨ ∃ attempt, t' = tbl_with attempts (<[ev_AggregateID event := attempt]> (t_attempts t)) t ∧
    attempt_written t event attempt.
Proof.
  intros Hcheck [[-> _]|(existing & next & Hread & Hred & _ & Hw)]%project_event_Ok; [by left|right].
  apply read_row_Some in Hread as ->. cbn in Hred, Hw.
  assert (tbl_id attempts next = ev_AggregateID event) as Hnext.
  { apply reduce_Reduced in Hred as (_ & _ & Hred). destruct (t_attempts t !! ev_AggregateID event) as [old|].
    - apply attempt_applied_inv in Hred as (-> & _ & mid & s & _ & Hgood & ->).
      apply (f_equal hd_ID (proj1 (attempt_good_facts _ _ _ _ Hgood))).
    - apply attempt_created_inv in Hred as (_ & Hh & _). apply (f_equal hd_ID Hh). }
  apply (write_row_at attempts next _ _ _ Hw) in Hnext as (attempt & -> & Hok & Hrow). cbn in Hrow.
  exists attempt. split; [done|]. split.
  { cbn in Hok. unfold attempt_row_ok in Hok. unfold member in Hok. bool_to_prop. unfold active_attempt, attempt_over.
    set_solver. }
  destruct (t_attempts t !! ev_AggregateID event) as [old|] eqn:Hold.
  - apply ReduceAttempt_applied in Hred as (mid & s & Hstep & Hgood & ->).
    pose proof (attempt_good_facts _ _ _ _ Hgood) as (Hh & Hsub & _).
    intros work _ _. exists old. split; [done|]. subst attempt. cbn.
    split; [unfold attempt_subject in Hsub; cbn in Hsub; congruence|]. intros Hover. exfalso.
    assert (AttemptTerminal (att_Status old) = true) as Ht.
    { apply bool_decide_eq_true. unfold attempt_over in Hover. set_solver. }
    destruct (attempt_terminal_step _ _ _ Hstep Ht) as (He & _). unfold attempt_over in Hover. rewrite He in Hover.
    set_solver.
  - intros work Hwork Hdel. exfalso. subst attempt. apply reduce_Reduced in Hred as (_ & _ & Hred).
    pose proof (attempt_created_inv _ _ Hred) as (Hkind & _).
    destruct (attempt_created_run _ _ Hred) as (data & Hdata & Hrun).
    unfold check_attempt in Hcheck. rewrite decide_True in Hcheck by (rewrite Hkind; set_solver).
    unfold attempt_run in Hcheck. rewrite decide_True, Hdata in Hcheck by done. cbn in Hcheck.
    rewrite Hrun in Hcheck. unfold attempt_work in Hwork. cbn in Hwork.
    apply fmap_Some in Hwork as (run & Hrunrow & ->). by eapply retained_run_not_deleted.
Qed.

(** * The invariant holds *)
Lemma deleted_same t t' work : t_works t' = t_works t → work_deleted t' work ↔ work_deleted t work.
Proof. unfold work_deleted. by intros ->. Qed.
(** The check before a deletion is what the invariant asks for the work item deleted. *)
Lemma check_deleted_safe t event :
  deletion_safe t → check_deleted t event = Ok tt → ev_Kind event = "work.deleted" →
  (∀ id run, t_runs t !! id = Some run → run_WorkItemID run = ev_AggregateID event → run_over run) ∧
  (∀ id attempt, t_attempts t !! id = Some attempt → attempt_work t attempt = Some (ev_AggregateID event) →
    attempt_over attempt).
Proof.
  intros Hsafe Hcheck Hkind. unfold check_deleted in Hcheck. rewrite decide_True in Hcheck by done.
  case_decide as Hr; [done|]. case_decide as Ha; [done|]. split.
  - intros id run Hrun Hwork. unfold run_over. destruct (decide (run_Status run ∈ [RunCompleted; RunCancelled])) as [?|Hn]; [done|].
    assert ((id, run) ∈ unfinished_runs t (ev_AggregateID event)) as Hin.
    { apply list_elem_of_filter. split; [done|by apply elem_of_map_to_list]. }
    rewrite Hr in Hin. by apply elem_of_nil in Hin.
  - intros id attempt Hatt Hwork. destruct (ds_known _ Hsafe _ _ Hatt) as [Hact|?]; [|done].
    assert ((id, attempt) ∈ active_attempts t (ev_AggregateID event)) as Hin.
    { apply list_elem_of_filter. split; [done|by apply elem_of_map_to_list]. }
    rewrite Ha in Hin. by apply elem_of_nil in Hin.
Qed.

Lemma work_written_safe t event work :
  deletion_safe t → check_deleted t event = Ok tt → work_written t event work →
  deletion_safe (tbl_with works (<[ev_AggregateID event := work]> (t_works t)) t).
Proof.
  intros Hsafe Hcheck [Hnew _].
  assert (∀ w, work_deleted (tbl_with works (<[ev_AggregateID event := work]> (t_works t)) t) w →
    work_deleted t w ∨ w = ev_AggregateID event ∧ ev_Kind event = "work.deleted") as Hdel.
  { intros w. unfold work_deleted. cbn. destruct (decide (w = ev_AggregateID event)) as [->|Hne].
    - rewrite lookup_insert_eq. intros [= ?]. destruct Hnew as [?|?]; [done|by left|by right].
    - rewrite lookup_insert_ne by done. by left. }
  split; cbn.
  - intros id run Hrun [?|[Hw Hk]]%Hdel; [by eapply ds_runs|]. by eapply (check_deleted_safe t event).
  - intros id attempt w Hatt Hwork [?|[-> Hk]]%Hdel; [by eapply ds_attempts|]. by eapply (check_deleted_safe t event).
  - apply ds_known, Hsafe.
Qed.
Lemma run_written_safe t event run :
  deletion_safe t → run_written t event run →
  deletion_safe (tbl_with runs (<[ev_AggregateID event := run]> (t_runs t)) t).
Proof.
  intros Hsafe [Hsame Hnew]. split; cbn; [| |apply ds_known, Hsafe].
  - intros id other. rewrite lookup_insert_Some. intros [[<- <-]|[Hne Hrun]] Hdel; [|by eapply ds_runs].
    change (work_deleted t (run_WorkItemID run)) in Hdel. destruct (Hnew Hdel) as (old & Hold & Hover).
    apply Hover. eapply ds_runs; [done..|]. by rewrite <-(Hsame _ Hold).
  - intros id attempt w Hatt Hwork Hdel. change (work_deleted t w) in Hdel.
    eapply ds_attempts; [done|exact Hatt| |exact Hdel]. unfold attempt_work in *. cbn in Hwork.
    destruct (decide (att_RunID attempt = ev_AggregateID event)) as [He|Hne];
      [rewrite He in *|by rewrite lookup_insert_ne in Hwork].
    rewrite lookup_insert_eq in Hwork. injection Hwork as <-.
    destruct (Hnew Hdel) as (old & Hold & _). rewrite Hold. cbn. by rewrite (Hsame _ Hold).
Qed.
Lemma attempt_written_safe t event attempt :
  deletion_safe t → attempt_written t event attempt →
  deletion_safe (tbl_with attempts (<[ev_AggregateID event := attempt]> (t_attempts t)) t).
Proof.
  intros Hsafe [Hknown Hnew]. split; cbn; [apply (ds_runs _ Hsafe)|..].
  - intros id other w. rewrite lookup_insert_Some. intros [[<- <-]|[Hne Hatt]] Hwork Hdel; [|by eapply ds_attempts].
    destruct (Hnew w Hwork Hdel) as (old & Hold & Hrun & Hover). apply Hover.
    eapply ds_attempts; [done..| |exact Hdel]. unfold attempt_work. rewrite <-Hrun. exact Hwork.
  - intros id other. rewrite lookup_insert_Some. intros [[<- <-]|[Hne Hatt]]; [done|by eapply ds_known].
Qed.

(** What an event leaves of deleted work. *)
Lemma applyProjection_safe t event t' :
  deletion_safe t → applyProjection t event = Ok t' →
  deletion_safe t' ∧ (∀ work, work_deleted t work → work_deleted t' work).
Proof.
  intros Hsafe (_ & Ha & Hd & _ & Hok)%applyProjection_Ok. revert Hok.
  assert (∀ t1, t_works t1 = t_works t → t_runs t1 = t_runs t → t_attempts t1 = t_attempts t →
    deletion_safe t1 ∧ (∀ work, work_deleted t work → work_deleted t1 work)) as Hsame.
  { intros t1 Hw Hr Hat. unfold work_deleted. rewrite Hw. split; [|done].
    split; unfold attempt_work, work_deleted; rewrite ?Hw, ?Hr, ?Hat; apply Hsafe. }
  apply (project_by_type_ind (λ r, r = Ok t' → deletion_safe t' ∧ (∀ work, work_deleted t work → work_deleted t' work)));
    intros _.
  2: { intros [->|(work & -> & Hw)]%project_work; [by apply Hsame|]. split; [by apply work_written_safe|].
       intros w. unfold work_deleted. cbn. destruct (decide (w = ev_AggregateID event)) as [->|Hne].
       - rewrite lookup_insert_eq. intros Hdel. cbn. f_equal. by apply Hw.
       - by rewrite lookup_insert_ne. }
  4: { intros [->|(run & -> & Hw)]%project_run; [by apply Hsame|]. split; [by apply run_written_safe|done]. }
  5: { intros [->|(attempt & -> & Hw)]%project_attempt; [by apply Hsame| |done]. split; [by apply attempt_written_safe|done]. }
  9: { intros [= <-]. by apply Hsame. }
  3: { intros [[-> _]|(existing & next & _ & _ & _ & Hw)]%project_event_Ok; [by apply Hsame|].
       apply write_point_inv in Hw as (t1 & m & (r & -> & _)%write_row_inv & ->). by apply Hsame. }
  all: intros [[-> _]|(existing & next & _ & _ & _ & (r & -> & _)%write_row_inv)]%project_event_Ok; by apply Hsame.
Qed.
Lemma fold_safe events t t' :
  deletion_safe t → foldM applyProjection t events = Ok t' →
  deletion_safe t' ∧ (∀ work, work_deleted t work → work_deleted t' work).
Proof.
  revert t. induction events as [|event events IH]; intros t Hsafe; cbn [foldM]; [by intros [= <-]|].
  intros (t1 & [Hsafe1 Hkeep1]%applyProjection_safe & Hrest)%result_bind_Ok; [|done].
  destruct (IH _ Hsafe1 Hrest) as [? Hkeep2]. split; [done|auto].
Qed.

(** ** Work items replayed *)

(** The work items after an event are a function of those before it, whoever caused the event. *)
Definition works_after (m : gmap string WorkItemProjection) (event : Event) : gmap string WorkItemProjection :=
  if decide (ev_AggregateType event = AggregateWork) then
    match ReduceWorkItem (m !! ev_AggregateID event) event with
    | Reduced next =>
        <[tbl_id works next := match m !! tbl_id works next with
                               | Some old => tbl_update works old (tbl_row works next)
                               | None => tbl_row works next
                               end]> m
    | _ => m
    end
  else m.
Lemma applyProjection_works t event t' : applyProjection t event = Ok t' → t_works t' = works_after (t_works t) event.
Proof.
  intros (_ & _ & _ & _ & Hok)%applyProjection_Ok. unfold works_after. revert Hok.
  apply (project_by_type_ind (λ r, r = Ok t' → t_works t' = _)); intros Htype.
  2: { rewrite decide_True by done. intros [[-> (existing & Hread & Hred)]|(existing & next & Hread & Hred & _ & Hw)]%project_event_Ok;
         apply read_row_Some in Hread as ->; cbn in Hred; rewrite Hred; [done|].
       apply write_row_inv in Hw as (r & -> & _ & Hr). cbn in Hr |- *.
       destruct (t_works t !! wit_WorkItemID next); [by subst|by destruct Hr as [-> _]]. }
  all: rewrite decide_False by (rewrite ?Htype; first [done|intros He; apply Htype; rewrite He; set_solver]).
  3: { intros [[-> _]|(existing & next & _ & _ & _ & Hw)]%project_event_Ok; [done|].
       by apply write_point_inv in Hw as (t1 & m & (r & -> & _)%write_row_inv & ->). }
  10: by intros [= <-].
  all: intros [[-> _]|(existing & next & _ & _ & _ & (r & -> & _)%write_row_inv)]%project_event_Ok; done.
Qed.
Lemma works_after_reread m event : works_after m (reread event) = works_after m event.
Proof. reflexivity. Qed.
Lemma fold_works events t t' :
  foldM applyProjection t events = Ok t' → t_works t' = foldl works_after (t_works t) events.
Proof.
  revert t. induction events as [|event events IH]; intros t; cbn [foldM foldl]; [by intros [= <-]|].
  intros (t1 & Hone & Hrest)%result_bind_Ok. by rewrite (IH _ Hrest), (applyProjection_works _ _ _ Hone).
Qed.
(** Rebuilding brings back the work items as they were. *)
Lemma rebuilt_works db t : database_wf db → replayed_tables db = Ok t → t_works t = t_works (db_tables db).
Proof.
  intros Hwf. unfold replayed_tables. destruct (lw_tables _ _ (dw_log _ Hwf)) as (events & -> & Hfold). cbn [result_bind].
  intros Ht. rewrite (fold_works _ _ _ Ht), (fold_works _ _ _ Hfold). clear. generalize (t_works empty_tables).
  induction events as [|event events IH]; intros m; [done|]. cbn [fmap list_fmap foldl]. by rewrite works_after_reread, IH.
Qed.

Lemma database_safe db : database_wf db → deletion_safe (db_tables db).
Proof. intros Hwf. destruct (lw_tables _ _ (dw_log _ Hwf)) as (events & _ & Hfold). eapply fold_safe; [apply empty_safe|exact Hfold]. Qed.
Lemma append_deleted now pending db last committed db' last' committed' :
  foldM (append_item now) (db, last, committed) pending = Ok (db', last', committed') → deletion_safe (db_tables db) →
  deletion_safe (db_tables db') ∧ ∀ work, work_deleted (db_tables db) work → work_deleted (db_tables db') work.
Proof.
  revert db last committed. induction pending as [|item pending IH]; intros db last committed; [by intros [= <- _ _]|].
  cbn [foldM]. intros ([[db1 last1] committed1] & (existing & _ & Hone)%result_bind_Ok & Hrest)%result_bind_Ok Hsafe.
  assert (deletion_safe (db_tables db1) ∧ ∀ work, work_deleted (db_tables db) work → work_deleted (db_tables db1) work) as [Hsafe1 Hkeep1].
  { destruct existing as [event|]; [destruct (sameTransitionCommand _ _); [|done]; by injection Hone as <- _ _|].
    apply result_bind_Ok in Hone as ([[db2 last2] event] & Hnew & Hone). injection Hone as <- _ _.
    apply append_new_Ok in Hnew. by eapply applyProjection_safe, (ad_tables _ _ _ _ _ _ _ Hnew). }
  destruct (IH _ _ _ Hrest Hsafe1) as [? Hkeep2]. split; [done|auto].
Qed.
Lemma step_deleted db db' work : database_wf db → store_step db db' →
  work_deleted (db_tables db) work → work_deleted (db_tables db') work.
Proof.
  intros Hwf Hstep. revert Hwf.
  destruct Hstep as [now db1 pending db1' committed Hr _ Happ|db1 db1' Hre|db1 runID nodeID attemptID db1' Hins|db1 s]; intros Hwf.
  - destruct (Append_Ok _ _ _ _ _ Happ (dw_log _ Hwf) Hr) as (_ & last' & db2 & Hf & _ & _ & ->).
    apply append_deleted in Hf as [_ Hkeep]; [apply Hkeep|by apply database_safe].
  - unfold RebuildProjections in Hre. destruct (decide (db_manifests db1 = ∅)) as [He|He];
      [rewrite rebuild_open in Hre by done|by rewrite rebuild_blocked in Hre].
    destruct (replayed_tables db1) as [t|] eqn:Ht; [|done]. injection Hre as <-.
    apply deleted_same. cbn. by apply rebuilt_works.
  - unfold insert_manifest in Hins. destruct (t_attempts _ !! attemptID); [|done]. case_decide; [|done]. by injection Hins as <-.
  - done.
Qed.
Lemma steps_deleted db db' work : database_wf db → rtc store_step db db' →
  work_deleted (db_tables db) work → work_deleted (db_tables db') work.
Proof.
  intros Hwf Hsteps. induction Hsteps as [|db db1 db' Hstep _ IH]; [done|]. intros Hdel.
  apply IH; [by destruct (step_wf _ _ Hwf Hstep)|exact (step_deleted _ _ _ Hwf Hstep Hdel)].
Qed.

(** (C22) Deleting a work item is safe and final: in every database the transactions reach, all
    the runs of a deleted work item are completed or cancelled, no attempt of such a run is
    active or waits to be reconciled, and whatever is committed later, the work item stays
    deleted: nothing resumes its runs and none is created for it. *)
Theorem deleted_work_is_settled s db work :
  rtc store_step (initial_database s) db → work_deleted (db_tables db) work →
  ∀ db', rtc store_step db db' → work_deleted (db_tables db') work ∧
  (∀ id run, t_runs (db_tables db') !! id = Some run → run_WorkItemID run = work →
    run_Status run ∈ [RunCompleted; RunCancelled]) ∧
  (∀ id attempt run, t_attempts (db_tables db') !! id = Some attempt →
    t_runs (db_tables db') !! att_RunID attempt = Some run → run_WorkItemID run = work →
    att_Status attempt ∈ [AttemptSucceeded; AttemptFailed; AttemptCancelled; AttemptInterrupted]).
Proof.
  intros Hsteps Hdel db' Hlater. destruct (steps_wf _ _ (initial_database_wf s) Hsteps) as (Hwf & _ & _).
  destruct (steps_wf _ _ Hwf Hlater) as (Hwf' & _ & _). pose proof (database_safe _ Hwf') as Hsafe.
  assert (work_deleted (db_tables db') work) as Hkeep by exact (steps_deleted _ _ _ Hwf Hlater Hdel).
  split; [done|]. split.
  - intros id run Hrun <-. eapply (ds_runs _ Hsafe); [done|by apply Hkeep].
  - intros id attempt run Hatt Hrun <-. eapply (ds_attempts _ Hsafe); [done| |by apply Hkeep].
    unfold attempt_work. by rewrite Hrun.
Qed.
End deletion.

(** * Example *)
Section examples.
#[local] Existing Instances ex_sqlite ascii_lower no_tickets.
(** The run and its attempt are cancelled, then the work item is deleted. *)
Definition ex_deletion : list PendingEvent := [
  ex_pending "5" AggregateWork "1" 1 "work.deletion_requested" "{}";
  ex_pending "6" AggregateAttempt "1" 1 "attempt.cancelled" "{}";
  ex_pending "7" AggregateRun "1" 1 "run.cancelled" "{}";
  ex_pending "8" AggregateWork "1" 2 "work.deleted" "{}"].
Definition ex_deleted : Database := (Append 6 ex_db ex_deletion).1.
Definition ex_deleted_events : list Event := match (Append 6 ex_db ex_deletion).2 with Ok l => l | Err _ => [] end.
Lemma ex_deleted_steps : rtc store_step ex_initial ex_deleted.
Proof.
  eapply rtc_r; [apply ex_steps|]. apply (step_append _ 6 _ ex_deletion _ ex_deleted_events); [|done|].
  - split; [done|by repeat constructor].
  - vm_compute. reflexivity.
Qed.
(** A work item whose run is open is not deleted, and a deleted one gets no new run. *)
Example open_run_blocks_deletion :
  (Append 6 ex_db [ex_pending "5" AggregateWork "1" 1 "work.deletion_requested" "{}";
                   ex_pending "8" AggregateWork "1" 2 "work.deleted" "{}"]).2 =
  Err (StoreRefused (text "cannot delete work with unfinished runs")).
Proof. vm_compute. reflexivity. Qed.
Example deleted_work_gets_no_run :
  (Append 7 ex_deleted [ex_pending "9" AggregateRun "2" 0 "run.created"
     ("{'workItemId':'" +:+ ex_id "work" "1" +:+ "','workflowId':'w','workflowVersion':'1.0.0'}")]).2 =
  Err (StoreRefused (text "work item is being deleted")).
Proof. vm_compute. reflexivity. Qed.
Lemma deleted_work_is_settled_witness :
  length ex_deleted_events = 4 ∧ work_deleted (db_tables ex_deleted) (ex_id "work" "1") ∧
  run_Status <$> t_runs (db_tables ex_deleted) !! ex_id "run" "1" = Some RunCancelled.
Proof.
  split; [vm_compute; reflexivity|]. assert (work_deleted (db_tables ex_deleted) (ex_id "work" "1")) as Hdel.
  { vm_compute. reflexivity. }
  destruct (deleted_work_is_settled ex_source ex_deleted _ ex_deleted_steps Hdel ex_deleted (rtc_refl _ _)) as (? & _ & _).
  split; [done|vm_compute; reflexivity].
Defined.
End examples.
