(* ===== verification/Commands.v ===== *)
(** The ledger of public commands: [adapters/statestore/sqlite/commands.go] over the table of
    migration 0002.  A command is begun under its scope and idempotency key, and completed once
    with the response that a repetition is answered with. *)
From S2P Require Import Prelude GoStrings GoJson StateStore GoTime StoreTables.
From stdpp Require Import options.

(** A row of [commands], as scanning it gives it. *)
Record CommandEvidence := {
  ce_Scope : string; ce_IdempotencyKey : string; ce_RequestDigest : string; ce_Status : string;
  ce_ResponseStatus : option Z; ce_Response : option RawMessage;
  ce_FirstEventPosition : option Z; ce_LastEventPosition : option Z;
  ce_CreatedAt : Time; ce_CompletedAt : option Time;
}.
Record BeginCommandRequest := {
  bc_Scope : string; bc_IdempotencyKey : string; bc_RequestDigest : string; bc_CreatedAt : Time;
}.
Record CompleteCommandRequest := {
  cc_Scope : string; cc_IdempotencyKey : string; cc_ResponseStatus : Z; cc_Response : RawMessage;
  cc_FirstEventPosition : option Z; cc_LastEventPosition : option Z; cc_CompletedAt : Time;
}.
Abbreviation CommandTable := (gmap (string * string) CommandEvidence).

Inductive command_error :=
| CommandInvalid (message : string)
| CommandConflict (Scope IdempotencyKey : string)
| CommandNotFound (Scope IdempotencyKey : string)
| CommandUnreadable
| CommandConstraint.
Abbreviation command_result := (result command_error).

Definition readCommand (commands : CommandTable) (scope key : string) : command_result CommandEvidence :=
  match commands !! (scope, key) with
  | None => Err (CommandNotFound scope key)
  | Some row =>
      if parses_back (ce_CreatedAt row) &&
         match ce_CompletedAt row with Some at_ => parses_back at_ | None => true end
      then Ok row else Err CommandUnreadable
  end.

(** [INSERT ... ON CONFLICT DO NOTHING]; the answer is the command and whether it was there. *)
Definition pending_command (request : BeginCommandRequest) : CommandEvidence := {|
  ce_Scope := bc_Scope request; ce_IdempotencyKey := bc_IdempotencyKey request;
  ce_RequestDigest := bc_RequestDigest request; ce_Status := "pending"; ce_ResponseStatus := None;
  ce_Response := None; ce_FirstEventPosition := None; ce_LastEventPosition := None;
  ce_CreatedAt := bc_CreatedAt request; ce_CompletedAt := None |}.
Definition BeginCommand (request : BeginCommandRequest) (commands : CommandTable)
  : CommandTable * command_result (CommandEvidence * bool) :=
  if blank (bc_Scope request) || blank (bc_IdempotencyKey request) || blank (bc_RequestDigest request) ||
     bool_decide (bc_CreatedAt request = zero_time) then
    (commands, Err (CommandInvalid "command scope, idempotency key, request digest, and created time are required"))
  else
    let key := (bc_Scope request, bc_IdempotencyKey request) in
    let inserted := bool_decide (commands !! key = None) in
    let commands := if inserted then <[key := pending_command request]> commands else commands in
    (commands,
     let? existing := readCommand commands (bc_Scope request) (bc_IdempotencyKey request) in
     if decide (ce_RequestDigest existing ≠ bc_RequestDigest request)
     then Err (CommandConflict (bc_Scope request) (bc_IdempotencyKey request))
     else Ok (existing, negb inserted)).

Definition ordered_pair (first last : option Z) : bool :=
  match first, last with
  | None, None => true
  | Some first, Some last => (first <=? last)%Z
  | _, _ => false
  end.
Definition completed_command (request : CompleteCommandRequest) (row : CommandEvidence) : CommandEvidence := {|
  ce_Scope := ce_Scope row; ce_IdempotencyKey := ce_IdempotencyKey row;
  ce_RequestDigest := ce_RequestDigest row; ce_Status := "completed";
  ce_ResponseStatus := Some (cc_ResponseStatus request); ce_Response := Some (cc_Response request);
  ce_FirstEventPosition := cc_FirstEventPosition request;
  ce_LastEventPosition := cc_LastEventPosition request;
  ce_CreatedAt := ce_CreatedAt row; ce_CompletedAt := Some (cc_CompletedAt request) |}.
Definition storable_option (n : option Z) : bool := match n with Some n => storable n | None => true end.
(** The update finds the row only while it is pending. *)
Definition CompleteCommand `{!SqliteJson} (request : CompleteCommandRequest) (commands : CommandTable)
  : CommandTable * command_result CommandEvidence :=
  if (cc_ResponseStatus request <? 100)%Z || negb (Valid (cc_Response request)) ||
     bool_decide (cc_CompletedAt request = zero_time) then
    (commands, Err (CommandInvalid "completed command requires an HTTP status, valid JSON response, and completion time"))
  else if negb (ordered_pair (cc_FirstEventPosition request) (cc_LastEventPosition request)) then
    (commands, Err (CommandInvalid "command event positions must form an ordered pair"))
  else
    let key := (cc_Scope request, cc_IdempotencyKey request) in
    let missing := (commands, Err (CommandInvalid "command is missing or already completed")) in
    if negb (storable_option (cc_FirstEventPosition request) && storable_option (cc_LastEventPosition request))
    then (commands, Err CommandConstraint)
    else match commands !! key with
         | Some row =>
             if decide (ce_Status row ≠ "pending") then missing
             else if negb (json_valid (cc_Response request)) then (commands, Err CommandConstraint)
             else let commands := <[key := completed_command request row]> commands in
                  (commands, readCommand commands (cc_Scope request) (cc_IdempotencyKey request))
         | None => missing
         end.
