(* ===== verification/StreamFacts.v ===== *)
(** The rows of a projection table against the streams of the log: every event writes the row of
    its aggregate and no other one, a row has the revision of the last event of its aggregate,
    and a status that no move leaves is the status of every row whose stream reached it. *)
From S2P Require Import Prelude GoStrings GoUnicode GoJson GoDecode StateStore GoTime Reducer Interaction Lifecycle RunLifecycle StoreTables EventStore EventLog.
From stdpp Require Import options.

Section streams.
Context `{!SqliteJson, !UnicodeLower}.

(** * One table and the reducer that feeds it *)
Class Projected {P} (T : Table P) (type : AggregateType) (reduce : option P → Event → reduction P)
    (header : P → Header) (lc : Lifecycle) : Prop := {
  pj_lawful :: LawfulReducer reduce header type lc;
  pj_own t event : ev_AggregateType event = type →
    ∃ admitted, project_by_type t event = project_event (table_store T) reduce admitted t event;
  pj_other t event t' : ev_AggregateType event ≠ type → project_by_type t event = Ok t' →
    tbl_rows T t' = tbl_rows T t;
  pj_with m t : tbl_rows T (tbl_with T m t) = m;
  pj_id p : tbl_id T p = hd_ID (header p);
  pj_row p : header (tbl_row T p) = header p;
  pj_update old p : hd_ID (header (tbl_update T old p)) = hd_ID (header old) ∧
    hd_Status (header (tbl_update T old p)) = hd_Status (header p) ∧
    hd_ResourceVersion (header (tbl_update T old p)) = hd_ResourceVersion (header p);
  pj_empty : tbl_rows T empty_tables = ∅;
}.

Section table.
#[local] Set Default Proof Using "All".
Context {P : Type} (T : Table P) {type : AggregateType} {reduce : option P → Event → reduction P}
  {header : P → Header} {lc : Lifecycle} `{!Projected T type reduce header lc}.

(** What an event of the table's type writes. *)
Record row_written (t : Tables) (event : Event) (p : P) : Prop := {
  rw_id : hd_ID (header p) = ev_AggregateID event;
  rw_version : hd_ResourceVersion (header p) = ev_AggregateRevision event;
  rw_status : match tbl_rows T t !! ev_AggregateID event with
              | None => ev_Kind event = lc_created lc ∧ hd_Status (header p) = lc_initial lc
              | Some old => lc_step lc (hd_Status (header old)) (ev_Kind event) (hd_Status (header p)) ∧
                            ∃ next, p = tbl_update T old next
              end;
}.
Lemma applyProjection_rows t event t' :
  applyProjection t event = Ok t' →
  (ev_AggregateType event ≠ type → tbl_rows T t' = tbl_rows T t) ∧
  (ev_AggregateType event = type →
    ∃ p, tbl_rows T t' = <[ev_AggregateID event := p]> (tbl_rows T t) ∧ row_written t event p).
Proof.
  intros (_ & _ & _ & Hv & Hok)%applyProjection_Ok. split; intros Htype; [by eapply pj_other|].
  destruct (pj_own t event Htype) as [admitted Hown]. rewrite Hown in Hok.
  apply project_event_Ok in Hok as [[_ (existing & _ & Hign)]|(existing & next & Hread & Hred & _ & Hw)].
  { by apply lawful_own in Hign. }
  cbn in Hread, Hw. unfold read_row in Hread.
  assert (existing = tbl_rows T t !! ev_AggregateID event) as ->.
  { destruct (tbl_rows T t !! _); [|congruence]. destruct (forallb _ _); congruence. }
  clear Hread. apply write_row_inv in Hw as (r & -> & _ & Hr). rewrite pj_id in Hr |- *.
  destruct (tbl_rows T t !! ev_AggregateID event) as [old|] eqn:Hold.
  - apply lawful_applied in Hred as (Hid & Hrev & Hstep & Hh).
    assert (hd_ID (header next) = ev_AggregateID event) as Hnid by (rewrite Hh; cbn; done).
    rewrite Hnid in Hr |- *. rewrite Hold in Hr. subst r. exists (tbl_update T old (tbl_row T next)).
    rewrite pj_with. split; [done|]. destruct (pj_update old (tbl_row T next)) as (Hu1 & Hu2 & Hu3).
    rewrite pj_row in Hu2, Hu3. split.
    + by rewrite Hu1, Hid.
    + rewrite Hu3, Hh. done.
    + rewrite Hold. split; [by rewrite Hu2|by eexists].
  - apply lawful_created in Hred as (Hk & Hh).
    assert (hd_ID (header next) = ev_AggregateID event) as Hnid by by rewrite Hh.
    rewrite Hnid in Hr |- *. rewrite Hold in Hr. destruct Hr as [-> _]. exists (tbl_row T next).
    rewrite pj_with. split; [done|]. split; rewrite ?pj_row, ?Hh, ?Hold; done.
Qed.

(** A row is left alone by the events of other aggregates. *)
Lemma applyProjection_other t event t' x :
  applyProjection t event = Ok t' → ev_AggregateID event ≠ x → tbl_rows T t' !! x = tbl_rows T t !! x.
Proof.
  intros [Hother Hown]%applyProjection_rows Hx. destruct (decide (ev_AggregateType event = type)) as [He|He].
  - destruct (Hown He) as (p & -> & _). by rewrite lookup_insert_ne.
  - by rewrite Hother.
Qed.

(** * Replayed logs *)
Definition replayed (events : list Event) (t : Tables) : Prop :=
  Forall event_wf events ∧ foldM applyProjection empty_tables events = Ok t.
Lemma replayed_snoc events event t :
  replayed (events ++ [event]) t → ∃ t1, replayed events t1 ∧ event_wf event ∧ applyProjection t1 event = Ok t.
Proof.
  intros [[Hwf [He _]%Forall_cons]%Forall_app Hfold]. rewrite foldM_app in Hfold.
  apply result_bind_Ok in Hfold as (t1 & Ht1 & Hstep). cbn in Hstep.
  apply result_bind_Ok in Hstep as (t2 & Hstep & [= ->]). by exists t1.
Qed.

Definition stream (x : string) (events : list Event) : list Event := filter (λ e, ev_AggregateID e = x) events.
Lemma stream_snoc x events event :
  stream x (events ++ [event]) = if decide (ev_AggregateID event = x) then stream x events ++ [event] else stream x events.
Proof. unfold stream. rewrite filter_app, filter_cons, filter_nil. case_decide; [done|by rewrite app_nil_r]. Qed.

(** A row carries the identifier it is stored under and the revision of the last event. *)
Lemma replayed_row events t x p :
  replayed events t → tbl_rows T t !! x = Some p →
  hd_ID (header p) = x ∧ prefix_of x = Some type ∧
  ∃ event, last (stream x events) = Some event ∧ hd_ResourceVersion (header p) = ev_AggregateRevision event.
Proof.
  revert t p. induction events as [|event events IH] using rev_ind; intros t p Hrep Hrow.
  { destruct Hrep as [_ [= <-]]. rewrite pj_empty in Hrow. done. }
  apply replayed_snoc in Hrep as (t1 & Hrep & (Hpre & _) & Hstep). rewrite stream_snoc.
  case_decide as Hx.
  - apply applyProjection_rows in Hstep as [Hother Hown]. destruct (decide (ev_AggregateType event = type)) as [He|He].
    + destruct (Hown He) as (q & Hq & Hw). rewrite Hq, Hx, lookup_insert_eq in Hrow. injection Hrow as ->.
      split; [rewrite <-Hx; apply Hw|]. split; [congruence|]. exists event. rewrite last_snoc. split; [done|apply Hw].
    + exfalso. rewrite (Hother He) in Hrow. destruct (IH _ _ Hrep Hrow) as (_ & Hp & _). congruence.
  - rewrite (applyProjection_other _ _ _ _ Hstep Hx) in Hrow. by eapply IH.
Qed.

(** A closed set of statuses that every event of a kind leads into holds the row of each
    aggregate with such an event. *)
Lemma replayed_absorbed events t event (S : string → Prop) :
  replayed events t → event ∈ events → ev_AggregateType event = type →
  (ev_Kind event = lc_created lc → S (lc_initial lc)) →
  (∀ s s', lc_step lc s (ev_Kind event) s' → S s') → (∀ s k s', S s → lc_step lc s k s' → S s') →
  ∃ p, tbl_rows T t !! ev_AggregateID event = Some p ∧ S (hd_Status (header p)).
Proof.
  intros Hrep Hin Htype Hnew Hinto Hclosed. revert t Hrep Hin.
  induction events as [|e events IH] using rev_ind; intros t Hrep Hin; [by apply elem_of_nil in Hin|].
  apply replayed_snoc in Hrep as (t1 & Hrep & _ & Hstep).
  apply elem_of_app in Hin as [Hold| ->%list_elem_of_singleton].
  - destruct (IH t1 Hrep Hold) as (p & Hp & Hs).
    destruct (decide (ev_AggregateID e = ev_AggregateID event)) as [Hid|Hid].
    + apply applyProjection_rows in Hstep as [Hother Hown].
      destruct (decide (ev_AggregateType e = type)) as [He|He]; [|rewrite (Hother He); eauto].
      destruct (Hown He) as (q & Hq & [_ _ Hst]). rewrite Hid in Hq, Hst. rewrite Hp in Hst. destruct Hst as [Hst _].
      exists q. rewrite Hq, lookup_insert_eq. split; [done|by eapply Hclosed].
    + rewrite (applyProjection_other _ _ _ _ Hstep Hid). eauto.
  - apply applyProjection_rows in Hstep as [_ Hown]. destruct (Hown Htype) as (q & Hq & [_ _ Hst]).
    exists q. rewrite Hq, lookup_insert_eq. split; [done|].
    destruct (tbl_rows T t1 !! ev_AggregateID e); [destruct Hst as [Hst _]; by eapply Hinto|].
    destruct Hst as [Hk ->]. by apply Hnew.
Qed.
End table.

(** * The tables *)
Lemma rows_other {P Q} (T : Table P) (T' : Store Q) reduce admitted t event t' :
  (∀ next t', st_write T' next t = Ok t' → tbl_rows T t' = tbl_rows T t) →
  project_event T' reduce admitted t event = Ok t' → tbl_rows T t' = tbl_rows T t.
Proof. intros Hw [[-> _]|(existing & next & _ & _ & _ & ?)]%project_event_Ok; [done|by eapply Hw]. Qed.
Lemma write_other {P Q} (T : Table P) (T' : Table Q) t next t' :
  (∀ m, tbl_rows T (tbl_with T' m t) = tbl_rows T t) →
  write_row T' next t = Ok t' → tbl_rows T t' = tbl_rows T t.
Proof. intros Hm (r & -> & _)%write_row_inv. apply Hm. Qed.
Lemma write_point_other {P} (T : Table P) t next t' :
  (∀ m t1, tbl_rows T (with_dependencies m t1) = tbl_rows T t1) →
  (∀ m, tbl_rows T (tbl_with points m t) = tbl_rows T t) →
  writePointProjection next t = Ok t' → tbl_rows T t' = tbl_rows T t.
Proof. intros Hd Hm (t1 & m & Hw & ->)%write_point_inv. rewrite Hd. by eapply write_other. Qed.
End streams.

Ltac own_rows Htype :=
  unfold project_by_type; rewrite Htype; cbn [switch];
  repeat (rewrite decide_False by done); rewrite decide_True by done; by eexists.
Ltac other_rows :=
  intros ????; match goal with |- project_by_type ?t ?event = Ok ?t' → ?C =>
    apply (project_by_type_ind (λ r, r = Ok t' → C)) end;
  intros ?; try (intros [= <-]; done); try contradiction;
  apply rows_other; intros ??; cbn [st_write table_store point_store];
  first [apply write_other; done
        |apply write_point_other; done].

Section tables.
Context `{!SqliteJson, !UnicodeLower}.
#[export] Instance runs_projected : Projected runs AggregateRun ReduceRun run_header run_lifecycle.
Proof. split; [apply _| |other_rows|done..]. intros t event Htype. own_rows Htype. Qed.
#[export] Instance nodes_projected : Projected nodes AggregateVisit ReduceNode node_header node_lifecycle.
Proof. split; [apply _| |other_rows|done..]. intros t event Htype. own_rows Htype. Qed.
#[export] Instance attempts_projected : Projected attempts AggregateAttempt ReduceAttempt attempt_header attempt_lifecycle.
Proof. split; [apply _| |other_rows|done..]. intros t event Htype. own_rows Htype. Qed.
End tables.

(** * Databases *)
Section databases.
Context `{!SqliteJson, !UnicodeLower, !TicketSource}.
Implicit Types (db : Database) (item : PendingEvent).

(** The events of the log that made the tables, one for each row. *)
Lemma scan_event_wf row event : scan_event row = Ok (reread event) → event_wf event ∧
  er_AggregateID row = ev_AggregateID event ∧ er_AggregateRevision row = ev_AggregateRevision event.
Proof.
  intros Hscan. destruct (scan_fields _ _ Hscan) as (Hid & _ & Hrev). split; [|done].
  unfold scan_event in Hscan. destruct (prefix_of _) as [type|] eqn:Hp; [|done].
  destruct (negb _) eqn:Ht; [done|]. destruct (decode_actor _); [|done]. injection Hscan as _ _ _ Htype Hagg _ _ Hocc Hrec _ _ _ _ _ _.
  apply negb_false_iff, andb_true_iff in Ht. unfold event_wf. rewrite <-Htype, <-Hagg, <-Hocc, <-Hrec. by destruct Ht.
Qed.
Lemma scanned_events rows events : scanEvents rows = Ok (reread <$> events) →
  Forall2 (λ row event, scan_event row = Ok (reread event)) rows events.
Proof.
  revert events. induction rows as [|row rows IH]; intros events; cbn [scanEvents].
  - intros Hs. injection Hs as Hs. by destruct events.
  - intros (e & He & (es & Hes & [= Hs])%result_bind_Ok)%result_bind_Ok. destruct events as [|event events]; [done|].
    injection Hs as -> ->. constructor; [done|by apply IH].
Qed.
Lemma log_replayed last db : log_wf last db →
  ∃ events, Forall2 (λ row event, scan_event row = Ok (reread event)) (db_events db) events ∧ replayed events (db_tables db).
Proof.
  intros Hwf. destruct (lw_tables _ _ Hwf) as (events & Hs%scanned_events & Hfold). exists events. split; [done|].
  split; [|done]. clear Hfold. induction Hs as [|row event rows events Hrow _ IH]; constructor; [by eapply scan_event_wf|done].
Qed.
Lemma stream_revisions rows events x : Forall2 (λ row event, scan_event row = Ok (reread event)) rows events →
  er_AggregateRevision <$> rows_of x rows = ev_AggregateRevision <$> stream x events.
Proof.
  induction 1 as [|row event rows events Hrow _ IH]; [done|]. unfold rows_of, stream in *. rewrite !filter_cons.
  destruct (scan_event_wf _ _ Hrow) as (_ & -> & Hrev). case_decide; [|done]. cbn. by rewrite Hrev, IH.
Qed.
Lemma stored_replayed rows events event : Forall2 (λ row event, scan_event row = Ok (reread event)) rows events →
  stored rows event → ∃ event', event' ∈ events ∧ reread event' = reread event.
Proof.
  intros Hall [_ (row & (i & Hi)%list_elem_of_lookup & Hscan)].
  destruct (Forall2_lookup_l _ _ _ _ _ Hall Hi) as (event' & Hi' & Hscan'). exists event'.
  split; [by eapply list_elem_of_lookup_2|congruence].
Qed.

Lemma appended_target now db last item db' last' event :
  appended now db last item db' last' event →
  ev_AggregateID event = pe_AggregateID item ∧ ev_AggregateType event = pe_AggregateType item ∧
  ev_Kind event = pe_Kind item ∧ ev_AggregateRevision event = uint64 (pe_ExpectedRevision item + 1).
Proof. intros Happ. by rewrite (ad_event _ _ _ _ _ _ _ Happ). Qed.

Section one_table.
#[local] Set Default Proof Using "All".
Context {P : Type} (T : Table P) {type : AggregateType} {reduce : option P → Event → reduction P}
  {header : P → Header} {lc : Lifecycle} `{!Projected T type reduce header lc}.

(** A row has the revision its aggregate has in the log. *)
Lemma row_revision last db x p :
  log_wf last db → tbl_rows T (db_tables db) !! x = Some p →
  hd_ID (header p) = x ∧ prefix_of x = Some type ∧
  hd_ResourceVersion (header p) = Z.of_nat (length (rows_of x (db_events db))).
Proof.
  intros Hwf Hrow. destruct (log_replayed _ _ Hwf) as (events & Hrows & Hrep).
  destruct (replayed_row T _ _ _ _ Hrep Hrow) as (Hid & Hp & event & Hlast & Hrev).
  split_and!; [done..|]. rewrite Hrev. apply (stream_revisions _ _ x) in Hrows.
  rewrite last_lookup in Hlast. pose proof (f_equal (lookup (pred (length (stream x events)))) Hrows) as Hrow'.
  rewrite !list_lookup_fmap, Hlast in Hrow'. apply fmap_Some in Hrow' as (row & Hlook & ->).
  rewrite (lw_streams _ _ Hwf _ _ _ Hlook). pose proof (f_equal length Hrows) as Hlen. rewrite !length_fmap in Hlen.
  rewrite Hlen. apply lookup_lt_Some in Hlast. lia.
Qed.
Lemma row_absorbed last db event (S : string → Prop) :
  log_wf last db → stored (db_events db) event → ev_AggregateType event = type →
  (ev_Kind event = lc_created lc → S (lc_initial lc)) →
  (∀ s s', lc_step lc s (ev_Kind event) s' → S s') → (∀ s k s', S s → lc_step lc s k s' → S s') →
  ∃ p, tbl_rows T (db_tables db) !! ev_AggregateID event = Some p ∧ S (hd_Status (header p)).
Proof.
  intros Hwf Hst. destruct (log_replayed _ _ Hwf) as (events & Hrows & Hrep).
  destruct (stored_replayed _ _ _ Hrows Hst) as (event' & Hin & Heq).
  injection Heq as _ _ _ Htype Hid _ Hkind _ _ _ _ _ _ _ _. rewrite <-Htype, <-Hid, <-Hkind.
  intros. by eapply (replayed_absorbed T).
Qed.

(** A transaction leaves alone what it has no event for. *)
Lemma append_item_other now db last committed item db' last' committed' x :
  append_item now (db, last, committed) item = Ok (db', last', committed') → pe_AggregateID item ≠ x →
  tbl_rows T (db_tables db') !! x = tbl_rows T (db_tables db) !! x ∧
  rows_of x (db_events db') = rows_of x (db_events db).
Proof.
  intros (existing & _ & Hok)%result_bind_Ok Hx. destruct existing as [event|].
  - destruct (sameTransitionCommand _ _); [|done]. by injection Hok as <- <- <-.
  - apply result_bind_Ok in Hok as ([[db1 last1] event] & Hnew & Hok). injection Hok as <- <- <-.
    apply append_new_Ok in Hnew as Happ. destruct (appended_target _ _ _ _ _ _ _ Happ) as (Hid & _).
    rewrite (ad_events _ _ _ _ _ _ _ Happ), rows_of_app. cbn. rewrite Hid, decide_False by done. split; [|done].
    eapply (applyProjection_other T); [apply (ad_tables _ _ _ _ _ _ _ Happ)|by rewrite Hid].
Qed.
Lemma append_fold_other now pending db last committed db' last' committed' x :
  foldM (append_item now) (db, last, committed) pending = Ok (db', last', committed') →
  (∀ item, item ∈ pending → pe_AggregateID item ≠ x) →
  tbl_rows T (db_tables db') !! x = tbl_rows T (db_tables db) !! x ∧
  rows_of x (db_events db') = rows_of x (db_events db).
Proof.
  revert db last committed. induction pending as [|item pending IH]; intros db last committed.
  { by intros [= <- _ _]. }
  cbn [foldM]. intros ([[db1 last1] committed1] & Hone & Hrest)%result_bind_Ok Hx.
  destruct (IH _ _ _ Hrest) as [-> ->]; [intros i Hi; apply Hx; by right|].
  eapply append_item_other; [exact Hone|apply Hx; by left].
Qed.
(** The item that moves a row from its current revision is new, and moves it. *)
Lemma append_item_moves now db last committed item db' last' committed' p :
  log_wf last db → valid_item now item →
  append_item now (db, last, committed) item = Ok (db', last', committed') →
  pe_AggregateType item = type → tbl_rows T (db_tables db) !! pe_AggregateID item = Some p →
  pe_ExpectedRevision item = hd_ResourceVersion (header p) →
  ∃ p', tbl_rows T (db_tables db') !! pe_AggregateID item = Some p' ∧
    lc_step lc (hd_Status (header p)) (pe_Kind item) (hd_Status (header p')) ∧
    hd_ResourceVersion (header p') = (hd_ResourceVersion (header p) + 1)%Z.
Proof.
  intros Hwf (Hvalid & _) (existing & Hread & Hok)%result_bind_Ok Htype Hp Hexp.
  destruct (row_revision _ _ _ _ Hwf Hp) as (_ & _ & Hrev).
  pose proof (rows_of_length (pe_AggregateID item) (db_events db)) as Hlen.
  destruct (lw_last _ _ Hwf) as [Hl Hmax]. destruct existing as [event|].
  - exfalso. destruct (sameTransitionCommand event item) eqn:Hsame; [|done].
    apply (read_Some _ _ _ _ _ Hwf) in Hread as ((_ & row & Hin & Hscan) & Hid & _).
    destruct (scan_event_wf _ _ Hscan) as (_ & Hagg & Hrow).
    unfold sameTransitionCommand in Hsame. bool_to_prop.
    match goal with H : ev_AggregateRevision event = _ |- _ => rename H into Hr end.
    assert (row ∈ rows_of (pe_AggregateID item) (db_events db)) as (i & Hi)%list_elem_of_lookup
      by (apply list_elem_of_filter; split; [congruence|done]).
    pose proof (lw_streams _ _ Hwf _ _ _ Hi) as Hn. apply lookup_lt_Some in Hi. rewrite Hrow in Hn.
    rewrite Hexp, Hrev, uint64_next in Hr by lia. lia.
  - apply result_bind_Ok in Hok as ([[db1 last1] event] & Hnew & Hok). injection Hok as <- <- <-.
    apply append_new_Ok in Hnew as Happ. destruct (appended_target _ _ _ _ _ _ _ Happ) as (Hid & Hty & Hki & Hre).
    destruct (applyProjection_rows T _ _ _ (ad_tables _ _ _ _ _ _ _ Happ)) as [_ Hown].
    destruct Hown as (p' & Hrows & [_ Hv Hst]); [congruence|]. exists p'. rewrite Hrows, Hid, lookup_insert_eq.
    rewrite Hid, Hp in Hst. destruct Hst as [Hst _].
    rewrite <-Hki. split_and!; [done..|]. rewrite Hv, Hre, Hexp, Hrev. apply uint64_next. lia.
Qed.
End one_table.
End databases.
