(* ===== verification/RunControl.v ===== *)
(** Commands on a run: [core/runexecution/control.go], the handlers [Pause] and [Cancel] with
    the idempotency they share with the other ones, and the deletion of work items that cancels
    runs, [core/runexecution/work_deletion.go].

    A handler reads and writes the event store and the ledger of commands, and keeps what it has
    written when it fails later: a computation in the state-and-error monad [Control].  The
    provider adapters, the workers of the process, the clock and the random bytes are in [Env]. *)
From S2P Require Import Prelude GoStrings GoUnicode GoJson GoEncode GoDecode GoCompact OpaqueID StateStore GoTime Reducer StoreTables EventStore Commands.
From stdpp Require Import options.

(** * Requests and errors *)
Record ControlRequest := {
  crq_ConfirmationDigest : string; crq_RunID : string; crq_ExpectedResourceVersion : Z; crq_IdempotencyKey : string; crq_Actor : Actor;
}.
(** [cancelObservation]: what a provider answered to a cancellation. *)
Abbreviation CancelDisposition := string (only parsing).
Definition CancelGraceful : CancelDisposition := "graceful".
Definition CancelForced : CancelDisposition := "forced".
Definition CancelAlreadyDone : CancelDisposition := "already_terminal".
Definition CancelUncertain : CancelDisposition := "uncertain".
Record cancelObservation := { co_Disposition : CancelDisposition; co_Uncertain : bool }.

(** [ErrInvalidControl] with what wraps it, [ControlConflictError], [InvalidTransitionError],
    and the errors of the store, of the ledger and of this package. *)
Inductive control_error :=
| InvalidControl (message : msg)
| ControlConflict (RunID : string) (Expected Current : Z)
| InvalidTransition (Action RunID : string) (Status : RunStatus)
| ControlStore (error : store_error)
| ControlCommand (error : command_error)
| ControlFailed (message : msg)
| ControlJoined (errors : list control_error).
(** [Error()], which goes into the stored response of a refused command: its quoting verb uses
    the tables of printable Unicode characters. *)
Class ErrorText := { error_text : control_error → string }.

(** * The state and the monad *)
Record ControlState `{!TicketSource} := { cs_db : Database; cs_commands : CommandTable }.

Section monad.
Context `{!TicketSource}.
Definition Control (A : Type) : Type := ControlState → ControlState * result control_error A.
Definition ctl_ret {A} (a : A) : Control A := λ s, (s, Ok a).
Definition ctl_throw {A} (e : control_error) : Control A := λ s, (s, Err e).
Definition ctl_bind {A B} (m : Control A) (k : A → Control B) : Control B := λ s,
  match m s with
  | (s, Ok a) => k a s
  | (s, Err e) => (s, Err e)
  end.
(** A read of the database. *)
Definition ctl_read {A} (query : Database → store_result A) : Control A := λ s,
  (s, match query (cs_db s) with Ok a => Ok a | Err e => Err (ControlStore e) end).
(** A computation that may fail without touching the state. *)
Definition ctl_lift {A} (r : result control_error A) : Control A := λ s, (s, r).
Definition ctl_command {A} (call : CommandTable → CommandTable * command_result A) : Control A := λ s,
  let '(commands, r) := call (cs_commands s) in
  ({| cs_db := cs_db s; cs_commands := commands |},
   match r with Ok a => Ok a | Err e => Err (ControlCommand e) end).
End monad.
Notation "x <-! m ; k" := (ctl_bind m (λ x, k)) (at level 100, m at next level, k at level 200, right associativity).
Definition ctl_append `{!SqliteJson, !UnicodeLower, !TicketSource} (now : Time) (pending : list PendingEvent)
  : Control (list Event) := λ s,
  let '(db, r) := Append now (cs_db s) pending in
  ({| cs_db := db; cs_commands := cs_commands s |},
   match r with Ok a => Ok a | Err e => Err (ControlStore e) end).

(** * Rows in the order of the queries *)

(** [ORDER BY created_at, id]: the columns hold texts, and texts are compared byte by byte. *)
Definition text_le {P} (created : P → Time) (id : P → string) (a b : P) : Prop :=
  String.ltb (formatTime (created a)) (formatTime (created b)) = true ∨
  formatTime (created a) = formatTime (created b) ∧ String.ltb (id b) (id a) = false.
#[global] Instance text_le_dec {P} (created : P → Time) (id : P → string) a b : Decision (text_le created id a b).
Proof. unfold text_le. apply _. Defined.
Definition scan_rows {P} (T : Table P) (rows : list P) : store_result (list P) :=
  if forallb (λ row, forallb parses_back (tbl_times T row)) rows then Ok rows else Err (StoreUnreadable (tbl_name T)).
Definition query_rows {P} (T : Table P) (created : P → Time) (wanted : P → bool) (t : Tables) : store_result (list P) :=
  scan_rows T (merge_sort (text_le created (tbl_id T))
    (filter (λ row, wanted row = true) (map_to_list (tbl_rows T t)).*2)).

Section queries.
Context `{!SqliteJson, !TicketSource}.
Definition find_row {P} (T : Table P) (id : string) (db : Database) : store_result P := require_row T (db_tables db) id.
Definition AttemptsForRun (runID : string) (db : Database) : store_result (list AttemptProjection) :=
  query_rows attempts att_CreatedAt (λ a, bool_decide (att_RunID a = runID)) (db_tables db).
Definition NodesForRun (runID : string) (db : Database) : store_result (list NodeProjection) :=
  query_rows nodes node_CreatedAt (λ n, bool_decide (node_RunID n = runID)) (db_tables db).
Definition Approvals (status : ApprovalStatus) (db : Database) : store_result (list ApprovalProjection) :=
  query_rows approvals app_CreatedAt (λ a, bool_decide (app_Status a = status)) (db_tables db).
Definition CheckpointApprovals (runID : string) (status : ApprovalStatus) (db : Database)
  : store_result (list ApprovalProjection) :=
  query_rows approvals app_CreatedAt (λ a,
    bool_decide (app_Class a = ApprovalWorkflowCheckpoint ∧ app_Status a = status ∧
                 (runID = "" ∨ app_RunID a = runID))) (db_tables db).
(** [ORDER BY priority DESC, created_at, id]. *)
Definition by_priority {P} (priority : P → Z) (T : Table P) (created : P → Time) (a b : P) : Prop :=
  (priority b < priority a)%Z ∨ priority a = priority b ∧ text_le created (tbl_id T) a b.
#[global] Instance by_priority_dec {P} (priority : P → Z) (T : Table P) (created : P → Time) a b :
  Decision (by_priority priority T created a b).
Proof. unfold by_priority. apply _. Defined.
Definition WorkItems (db : Database) : store_result (list WorkItemProjection) :=
  scan_rows works (merge_sort (by_priority wit_Priority works wit_CreatedAt) (map_to_list (t_works (db_tables db))).*2).
Definition RunsForWorkItem (id : string) (db : Database) : store_result (list RunProjection) :=
  scan_rows runs (merge_sort (by_priority run_Priority runs run_CreatedAt)
    (filter (λ run, run_WorkItemID run = id) (map_to_list (t_runs (db_tables db))).*2)).
End queries.

(** What [RunEvidence] answers of the events of a run: also its commands have to be readable. *)
Definition RunEvidence `{!SqliteJson, !TicketSource} (id : string) (s : ControlState) : option (list Event) :=
  let mine := filter (λ row, of_run id row = true) (db_events (cs_db s)) in
  match find_row runs id (cs_db s), scanEvents mine with
  | Ok _, Ok events =>
      if forallb (λ kv, negb (bool_decide (kv.1.1 = id ∨ kv.1.2 ∈ er_CommandID <$> mine)) ||
                        is_ok (readCommand (cs_commands s) kv.1.1 kv.1.2))
           (map_to_list (cs_commands s))
      then Some events else None
  | _, _ => None
  end.

(** * Responses: [controlCommandResponse] *)
Record controlFailure := {
  cf_Kind : string; cf_Message : string; cf_Status : RunStatus; cf_Expected : Z; cf_Current : Z;
}.
Definition omit_empty (s : string) : option string := if decide (s = "") then None else Some (encode_string s).
Definition omit_zero (n : Z) : option string := if decide (n = 0%Z) then None else Some (encode_uint n).
Definition encode_time (t : Time) : option string :=
  if parses_back t then Some (quote_mark +:+ formatTime t +:+ quote_mark) else None.
(** [JSONSnapshot.MarshalJSON], compacted by the encoder. *)
Definition encode_snapshot (snapshot : string) : option (option string) :=
  if decide (snapshot = "") then Some None else Some <$> Compact snapshot.
Definition encode_run (run : RunProjection) : option string :=
  snapshot ← encode_snapshot (run_RouteSnapshot run);
  created ← encode_time (run_CreatedAt run);
  updated ← encode_time (run_UpdatedAt run);
  Some (encode_struct [
    ("id", Some (encode_string (run_RunID run)));
    ("workItemId", Some (encode_string (run_WorkItemID run)));
    ("workflowId", Some (encode_string (run_WorkflowID run)));
    ("workflowVersion", Some (encode_string (run_WorkflowVersion run)));
    ("workflowDigest", omit_empty (run_WorkflowDigest run));
    ("routeDigest", omit_empty (run_RouteDigest run));
    ("routeSnapshot", snapshot);
    ("priority", omit_zero (run_Priority run));
    ("status", Some (encode_string (run_Status run)));
    ("resourceVersion", Some (encode_uint (run_ResourceVersion run)));
    ("lastGlobalPosition", Some (encode_uint (run_LastGlobalPosition run)));
    ("createdAt", Some created);
    ("updatedAt", Some updated)]).
Definition encode_failure (failure : controlFailure) : string :=
  encode_struct [
    ("kind", Some (encode_string (cf_Kind failure)));
    ("message", Some (encode_string (cf_Message failure)));
    ("status", omit_empty (cf_Status failure));
    ("expected", omit_zero (cf_Expected failure));
    ("current", omit_zero (cf_Current failure))].

Definition run_fields : list (string * SimpleKind) :=
  [("id", KString); ("workItemId", KString); ("workflowId", KString); ("workflowVersion", KString);
   ("workflowDigest", KString); ("routeDigest", KString); ("routeSnapshot", KRaw); ("priority", KInt);
   ("status", KString); ("resourceVersion", KUint64); ("lastGlobalPosition", KUint64);
   ("createdAt", KTime); ("updatedAt", KTime)].
Definition failure_fields : list (string * SimpleKind) :=
  [("kind", KString); ("message", KString); ("status", KString); ("expected", KUint64); ("current", KUint64)].
Definition simple_time (v : option SimpleValue) : Time := match v with Some (VInt t) => t | _ => zero_time end.
(** [JSONSnapshot.UnmarshalJSON]. *)
Definition snapshot_of (raw : RawMessage) : string := if decide (raw = "null") then "" else raw.
Definition decoded_run (env : SimpleFields) : RunProjection := {|
  run_RunID := simple_string (env !! "id"); run_WorkItemID := simple_string (env !! "workItemId");
  run_WorkflowID := simple_string (env !! "workflowId");
  run_WorkflowVersion := simple_string (env !! "workflowVersion");
  run_WorkflowDigest := simple_string (env !! "workflowDigest");
  run_RouteDigest := simple_string (env !! "routeDigest");
  run_RouteSnapshot := snapshot_of (simple_raw (env !! "routeSnapshot"));
  run_Priority := simple_int (env !! "priority"); run_Status := simple_string (env !! "status");
  run_ResourceVersion := simple_int (env !! "resourceVersion");
  run_LastGlobalPosition := simple_int (env !! "lastGlobalPosition");
  run_CreatedAt := simple_time (env !! "createdAt"); run_UpdatedAt := simple_time (env !! "updatedAt") |}.
Definition decodeControlResponse (encoded : RawMessage) (action runID : string)
  : result control_error RunProjection :=
  match Unmarshal_struct [("result", StructPtr run_fields); ("failure", StructPtr failure_fields)] encoded with
  | None => Err (ControlFailed (Msg "decode replayed %s response: %w" [AStr action]))
  | Some env =>
      match get_struct env "result", get_struct env "failure" with
      | Some run, _ => Ok (decoded_run run)
      | None, None => Err (ControlFailed (Msg "decode replayed %s response: empty response" [AStr action]))
      | None, Some failure =>
          let kind := simple_string (failure !! "kind") in
          if decide (kind = "not_found") then Err (ControlStore (NoRows "" ""))
          else if decide (kind = "transition") then
            Err (InvalidTransition action runID (simple_string (failure !! "status")))
          else if decide (kind = "conflict") then
            Err (ControlConflict runID (simple_int (failure !! "expected")) (simple_int (failure !! "current")))
          else Err (InvalidControl (Msg "%s" [AStr (simple_string (failure !! "message"))]))
      end
  end.

(** * Beginning and finishing a command *)

(** What surrounds one call: the readings of the clock, the random bytes, what other transactions
    commit while workers stop, and the worker whose end the call no longer waited for. *)
Record Env `{!TicketSource} := {
  env_clock : nat → Time; env_entropy : nat → list Z;
  env_meanwhile : ControlState → ControlState; env_unfinished : option string;
}.

Section control.
Context `{!SqliteJson, !UnicodeLower, !TicketSource, !Sha256, !ErrorText}.
Implicit Types (env : Env) (request : ControlRequest) (run : RunProjection).

Definition invalid_control {A} (format : string) (args : list msg_arg) : result control_error A :=
  Err (InvalidControl (Msg format args)).
Definition normalizeControlRequest request : ControlRequest := {|
  crq_ConfirmationDigest := crq_ConfirmationDigest request;
  crq_RunID := TrimSpace (crq_RunID request);
  crq_ExpectedResourceVersion := crq_ExpectedResourceVersion request;
  crq_IdempotencyKey := crq_IdempotencyKey request;
  crq_Actor := if decide (actor_Type (crq_Actor request) = "" ∨ actor_ID (crq_Actor request) = "")
               then {| actor_Type := ActorUser; actor_ID := "local-user" |} else crq_Actor request |}.

Definition key_ok (key : string) : bool :=
  bool_decide (TrimSpace key = key) && (8 <=? str_length key)%nat && (str_length key <=? 128)%nat.
Definition request_digest request (extra : gmap string string) : string :=
  sha256_hex (encode_map (extra ∪ {["runId" := encode_string (crq_RunID request);
    "expectedResourceVersion" := encode_uint (crq_ExpectedResourceVersion request)]})).

(** The events carry positions in the order they were committed. *)
Definition event_positions (events : list Event) : option Z * option Z :=
  match events with
  | [] => (None, None)
  | event :: _ => (Some (ev_GlobalPosition event), ev_GlobalPosition <$> last events)
  end.
Definition finishControl env (action key : string) run (events : list Event) : Control unit :=
  match encode_run run with
  | None => ctl_throw (ControlFailed (text "json: error calling MarshalJSON"))
  | Some encoded =>
      _ <-! ctl_command (CompleteCommand {|
        cc_Scope := "runs." +:+ action; cc_IdempotencyKey := key; cc_ResponseStatus := 200;
        cc_Response := encode_struct [("result", Some encoded)];
        cc_FirstEventPosition := (event_positions events).1;
        cc_LastEventPosition := (event_positions events).2;
        cc_CompletedAt := env_clock env 3 |});
      ctl_ret tt
  end.

Definition no_details (kind message : string) : controlFailure := {|
  cf_Kind := kind; cf_Message := message; cf_Status := ""; cf_Expected := 0; cf_Current := 0 |}.
(** The failures that are recorded, with their HTTP status. *)
Definition control_failure (cause : control_error) : option (controlFailure * Z) :=
  let message := error_text cause in
  match cause with
  | ControlStore (NoRows _ _) => Some (no_details "not_found" message, 404%Z)
  | InvalidTransition _ _ status =>
      Some ({| cf_Kind := "transition"; cf_Message := message; cf_Status := status; cf_Expected := 0;
               cf_Current := 0 |}, 409%Z)
  | ControlConflict _ expected current =>
      Some ({| cf_Kind := "conflict"; cf_Message := message; cf_Status := ""; cf_Expected := expected;
               cf_Current := current |}, 412%Z)
  | InvalidControl _ => Some (no_details "invalid" message, 400%Z)
  | _ => None
  end.
Definition finishControlFailure {A} env (action key : string) (cause : control_error) : Control A :=
  match control_failure cause with
  | None => ctl_throw cause
  | Some (failure, status) =>
      _ <-! ctl_command (CompleteCommand {|
        cc_Scope := "runs." +:+ action; cc_IdempotencyKey := key; cc_ResponseStatus := status;
        cc_Response := encode_struct [("failure", Some (encode_failure failure))];
        cc_FirstEventPosition := None; cc_LastEventPosition := None; cc_CompletedAt := env_clock env 3 |});
      ctl_throw cause
  end.
(** [if err != nil { return finishControlFailure(err) }]. *)
Definition or_finish {A} env (action key : string) (m : Control A) : Control A := λ s,
  match m s with
  | (s, Ok a) => (s, Ok a)
  | (s, Err e) => finishControlFailure env action key e s
  end.

(** [Some] is the answer of a command that was done before. *)
Definition committed_before (evidence : option (list Event)) (eventKind key : string) : bool :=
  existsb (λ event, bool_decide (ev_Kind event = eventKind ∧ ev_CommandID event = key)) (default [] evidence).
Definition beginControl env (action eventKind : string) request (extra : gmap string string)
  : Control (option RunProjection) :=
  let runID := TrimSpace (crq_RunID request) in
  let key := crq_IdempotencyKey request in
  if bool_decide (runID = "") || bool_decide (crq_ExpectedResourceVersion request = 0%Z) || negb (key_ok key) then
    ctl_lift (invalid_control "run ID, positive resource version, and an 8-128 byte idempotency key are required" [])
  else
    begun <-! ctl_command (BeginCommand {|
      bc_Scope := "runs." +:+ action; bc_IdempotencyKey := key;
      bc_RequestDigest := request_digest {|
        crq_ConfirmationDigest := crq_ConfirmationDigest request; crq_RunID := runID; crq_ExpectedResourceVersion := crq_ExpectedResourceVersion request;
        crq_IdempotencyKey := key; crq_Actor := crq_Actor request |} extra;
      bc_CreatedAt := env_clock env 0 |});
    let '(command, reused) := begun in
    if negb reused then ctl_ret None
    else if decide (ce_Status command = "completed") then
      run <-! ctl_lift (decodeControlResponse (default "" (ce_Response command)) action runID);
      ctl_ret (Some run)
    else λ s,
      if committed_before (RunEvidence runID s) eventKind key then
        (run <-! ctl_read (find_row runs runID);
         _ <-! finishControl env action key run [];
         ctl_ret (Some run)) s
      else (s, Ok None).

Definition controlRun request (action : string) (allowed : list RunStatus) : Control RunProjection :=
  run <-! ctl_read (find_row runs (crq_RunID request));
  deletion <-! (if decide (action = "cancel") then ctl_ret WorkRetained
                else λ s, match find_row works (run_WorkItemID run) (cs_db s) with
                          | Ok work => (s, Ok (wit_Deletion work))
                          | Err (NoRows _ _) => (s, Ok WorkRetained)
                          | Err e => (s, Err (ControlStore e))
                          end);
  ctl_lift
    (if decide (deletion ≠ WorkRetained) then invalid_control "work item is being deleted" []
     else if decide (run_ResourceVersion run ≠ crq_ExpectedResourceVersion request) then
       Err (ControlConflict (run_RunID run) (crq_ExpectedResourceVersion request) (run_ResourceVersion run))
     else if decide (run_Status run ∈ allowed) then Ok run
     else Err (InvalidTransition action (run_RunID run) (run_Status run))).

(** * Events *)

(** An event that still lacks its random identifier. *)
Definition draft : Type := string → PendingEvent.
Definition pendingEvent (kind : string) (type : AggregateType) (id : string) (revision : Z)
    (correlation command : string) (actor : Actor) (occurredAt : Time) (data : gmap string string) : draft := λ eventID, {|
  pe_SchemaVersion := 1; pe_ID := eventID; pe_AggregateType := type; pe_AggregateID := id;
  pe_ExpectedRevision := revision; pe_Kind := kind; pe_OccurredAt := occurredAt;
  pe_CorrelationID := correlation; pe_CausationID := None; pe_CommandID := command; pe_Actor := actor;
  pe_Data := encode_map data; pe_Metadata := "{}" |}.
Definition controlEvent (kind : string) run request (data : gmap string string) (occurredAt : Time) : draft :=
  pendingEvent kind AggregateRun (run_RunID run) (run_ResourceVersion run) (run_RunID run)
    (crq_IdempotencyKey request) (crq_Actor request) occurredAt data.
Definition identified_events env (drafts : list draft) : list PendingEvent :=
  imap (λ i d, d (Random (env_entropy env i) "event_")) drafts.
Definition reason (value : string) : gmap string string := {["reason" := encode_string value]}.
Definition daemon : Actor := {| actor_Type := ActorSystem; actor_ID := "daemon" |}.
End control.

(** * Providers and workers *)
Record AttemptHandle := {
  hn_AttemptID : string; hn_Provider : string; hn_ProviderThreadID : string; hn_ProviderTurnID : string;
  hn_ProcessOwnerID : string;
}.
(** [CancelAttempt] with its idempotency key; [None] is an error. *)
Definition Adapter : Type := AttemptHandle → string → option CancelDisposition.
Record ProviderRequest := { prq_Provider : string; prq_Scenario : string; prq_AttemptID : string; prq_Resume : bool }.
Record worker := { wk_RunID : string; wk_adapter : option Adapter; wk_handle : AttemptHandle }.
Record Service := {
  sv_workers : gmap string worker;
  sv_workflowFactory : option (ProviderRequest → option Adapter);
  sv_factory : option (string → string → bool → option Adapter);
  sv_artifactReviews : bool;
}.
Definition ScenarioWorkflow : string := "workflow".

Section handlers.
Context `{!SqliteJson, !UnicodeLower, !TicketSource, !Sha256, !ErrorText}.
Implicit Types (env : Env) (request : ControlRequest) (run : RunProjection).

(** The adapter of an attempt that no worker of this process owns. *)
Definition resumed_adapter (service : Service) (attempt : AttemptProjection) : option Adapter :=
  match sv_workflowFactory service, sv_factory service with
  | Some factory, other =>
      if decide (att_Scenario attempt = ScenarioWorkflow)
      then factory {| prq_Provider := att_Provider attempt; prq_Scenario := att_Scenario attempt;
                      prq_AttemptID := att_AttemptID attempt; prq_Resume := true |}
      else other' ← other; other' (att_Scenario attempt) (att_AttemptID attempt) true
  | None, Some factory => factory (att_Scenario attempt) (att_AttemptID attempt) true
  | None, None => None
  end.
Definition resumed_handle (attempt : AttemptProjection) : AttemptHandle := {|
  hn_AttemptID := att_AttemptID attempt; hn_Provider := att_Provider attempt;
  hn_ProviderThreadID := att_ProviderThreadID attempt; hn_ProviderTurnID := att_ProviderTurnID attempt;
  hn_ProcessOwnerID := att_ProcessOwnerID attempt |}.
Definition uncertain : cancelObservation := {| co_Disposition := CancelUncertain; co_Uncertain := true |}.
(** The answer of an adapter; a worker without an adapter or a handle is not asked. *)
Definition cancel_stopped (key attemptID : string) (stopped : option Adapter * AttemptHandle) : option cancelObservation :=
  match stopped with
  | (Some adapter, handle) =>
      if decide (hn_AttemptID handle = "") then None
      else Some match adapter handle ("cancel:" +:+ key +:+ ":" +:+ attemptID) with
                | None => uncertain
                | Some disposition => {|
                    co_Disposition := disposition;
                    co_Uncertain := bool_decide (disposition ∉ [CancelGraceful; CancelForced; CancelAlreadyDone]) |}
                end
  | (None, _) => None
  end.
Definition quiesced (service : Service) env (runID : string) (terminate : bool) (key : string)
    (attempts : list AttemptProjection) : gmap string cancelObservation :=
  let live := filter (λ kv : string * worker, wk_RunID kv.2 = runID) (sv_workers service) in
  let asked := filter (λ a, att_Status a ∈ [AttemptRunning; AttemptStarting; AttemptReconcileRequired] ∧
                            live !! att_AttemptID a = None) attempts in
  let failed := list_to_map ((λ a, (att_AttemptID a, uncertain)) <$>
                  filter (λ a, is_Some (resumed_adapter service a) → False) asked) in
  let resumed := list_to_map ((λ a, (att_AttemptID a, (resumed_adapter service a, resumed_handle a))) <$>
                   filter (λ a, is_Some (resumed_adapter service a)) asked) in
  let stopped := ((λ w, (wk_adapter w, wk_handle w)) <$> live) ∪ resumed in
  let evidence := if terminate then map_imap (cancel_stopped key) stopped ∪ failed else ∅ in
  match env_unfinished env with
  | Some attemptID => if decide (is_Some (live !! attemptID)) then <[attemptID := uncertain]> evidence else evidence
  | None => evidence
  end.
(** The workers are stopped and the providers asked; meanwhile other transactions commit. *)
Definition quiesceRun (service : Service) env (runID : string) (terminate : bool) (key : string)
  : Control (gmap string cancelObservation) := λ s,
  let attempts := match AttemptsForRun runID (cs_db s) with Ok l => l | Err _ => [] end in
  (env_meanwhile env s, Ok (quiesced service env runID terminate key attempts)).

(** * Pause *)
Definition pausable : list RunStatus := [RunQueued; RunRunning].
Definition Pause (service : Service) env request : Control RunProjection :=
  let request := normalizeControlRequest request in
  let key := crq_IdempotencyKey request in
  replayed <-! beginControl env "pause" "run.paused" request ∅;
  match replayed with
  | Some run => ctl_ret run
  | None =>
      _ <-! or_finish env "pause" key (controlRun request "pause" pausable);
      _ <-! quiesceRun service env (crq_RunID request) false key;
      run <-! or_finish env "pause" key (controlRun request "pause" pausable);
      committed <-! ctl_append (env_clock env 2)
        (identified_events env [controlEvent "run.paused" run request (reason "user") (env_clock env 1)]);
      value <-! ctl_read (find_row runs (crq_RunID request));
      _ <-! finishControl env "pause" key value committed;
      ctl_ret value
  end.

(** * Cancel *)
Record cancellation := { cn_events : list draft; cn_visits : gset string; cn_reconcile : bool }.
Definition cancel_data (attempt : AttemptProjection) (observation : option cancelObservation) : gmap string string :=
  let data : gmap string string := {["reason" := encode_string "user"; "logReference" := encode_string (att_LogReference attempt)]} in
  match observation with
  | Some observation =>
      if decide (co_Disposition observation = "") then data
      else <["disposition" := encode_string (co_Disposition observation)]>
           (<["providerCancellation" :=
                encode_map {["disposition" := encode_string (co_Disposition observation)]}]> data)
  | None => data
  end.
(** An attempt that is not settled: fenced when its provider is uncertain, and otherwise cancelled
    with its visit. *)
Definition cancel_live (db : Database) run request (now : Time) (evidence : gmap string cancelObservation)
    (state : cancellation) (attempt : AttemptProjection) (kind : string) : result control_error cancellation :=
  let event kind type id revision actor data :=
    pendingEvent kind type id revision (run_RunID run) (crq_IdempotencyKey request) actor now data in
  let observation := evidence !! att_AttemptID attempt in
  if from_option co_Uncertain false observation then Ok {|
    cn_events := cn_events state ++ [event "attempt.reconcile_required" AggregateAttempt (att_AttemptID attempt)
      (att_ResourceVersion attempt) daemon (reason "provider_cancellation_unconfirmed")];
    cn_visits := cn_visits state; cn_reconcile := true |}
  else
    let cancelled := event kind AggregateAttempt (att_AttemptID attempt) (att_ResourceVersion attempt)
      (crq_Actor request) (cancel_data attempt observation) in
    let alone := {| cn_events := cn_events state ++ [cancelled]; cn_visits := cn_visits state;
                    cn_reconcile := cn_reconcile state |} in
    if decide (att_VisitID attempt = "" ∨ att_VisitID attempt ∈ cn_visits state) then Ok alone
    else match find_row nodes (att_VisitID attempt) db with
         | Err e => Err (ControlStore e)
         | Ok node =>
             if NodeTerminal (node_Status node) then Ok alone
             else Ok {|
               cn_events := cn_events state ++ [cancelled; event "visit.cancelled" AggregateVisit (node_VisitID node)
                 (node_ResourceVersion node) (crq_Actor request) (reason "user")];
               cn_visits := {[att_VisitID attempt]} ∪ cn_visits state; cn_reconcile := cn_reconcile state |}
         end.
(** One attempt of the run; an attempt that waits for reconciliation is settled only by a definite
    answer of its provider. *)
Definition cancel_attempt (db : Database) run request (now : Time) (evidence : gmap string cancelObservation)
    (state : cancellation) (attempt : AttemptProjection) : result control_error cancellation :=
  let observation := evidence !! att_AttemptID attempt in
  let cancel := cancel_live db run request now evidence state attempt in
  if decide (att_Status attempt = AttemptReconcileRequired) then
    if from_option co_Uncertain false observation || bool_decide (from_option co_Disposition "" observation = "") then
      Err (ControlFailed (text "provider cancellation remains unconfirmed"))
    else cancel "attempt.cancellation_reconciled"
  else if AttemptTerminal (att_Status attempt) then Ok state
  else cancel "attempt.cancelled".

Definition executionApprovalID (visitID : string) : string :=
  Deterministic "approval_" ("execution-checkpoint:" +:+ visitID).
Definition cancel_approval run request (now : Time) (approval : ApprovalProjection) : draft :=
  pendingEvent "approval.cancelled" AggregateApproval (app_ApprovalID approval) (app_ResourceVersion approval)
    (run_RunID run) (crq_IdempotencyKey request) (crq_Actor request) now (reason "run_stopped").
(** A visit that waits for a checkpoint, with the approval it waits for. *)
Definition cancel_visit (db : Database) run request (now : Time) (cancelled : gset string)
    (events : list draft) (visit : NodeProjection) : result control_error (list draft) :=
  if decide (node_Status visit ≠ NodeWaitingCheckpoint ∨ node_VisitID visit ∈ cancelled) then Ok events
  else
    let events := events ++ [pendingEvent "visit.cancelled" AggregateVisit (node_VisitID visit)
      (node_ResourceVersion visit) (run_RunID run) (crq_IdempotencyKey request) (crq_Actor request) now (reason "user")] in
    match find_row approvals (executionApprovalID (node_VisitID visit)) db with
    | Ok approval =>
        if decide (app_Status approval = ApprovalPending)
        then Ok (events ++ [cancel_approval run request now approval]) else Ok events
    | Err (NoRows _ _) => Ok events
    | Err e => Err (ControlStore e)
    end.
Definition cancel_run_events (now : Time) run request (unsure : bool) : draft :=
  controlEvent (if unsure then "run.reconcile_required" else "run.cancelled") run request
    (reason (if unsure then "provider_cancellation_unconfirmed" else "user")) now.
Definition read_result {A} (r : store_result A) : result control_error A :=
  match r with Ok a => Ok a | Err e => Err (ControlStore e) end.
(** The batch [Cancel] appends. *)
Definition cancel_batch (service : Service) (db : Database) run request (now : Time)
    (evidence : gmap string cancelObservation) : result control_error (list draft) :=
  let? attempts := read_result (AttemptsForRun (crq_RunID request) db) in
  let? state := foldM (cancel_attempt db run request now evidence)
    {| cn_events := []; cn_visits := ∅; cn_reconcile := false |} attempts in
  let? visits := read_result (NodesForRun (run_RunID run) db) in
  let? events := foldM (cancel_visit db run request now (cn_visits state)) (cn_events state) visits in
  let? reviews := if sv_artifactReviews service
                  then read_result (CheckpointApprovals (run_RunID run) ApprovalPending db) else Ok [] in
  Ok (events ++ (cancel_approval run request now <$> reviews) ++ [cancel_run_events now run request (cn_reconcile state)]).
Definition cancellable : list RunStatus :=
  [RunDraft; RunReady; RunQueued; RunRunning; RunWaiting; RunBlocked; RunFailed; RunReconcileRequired].
Definition Cancel (service : Service) env request : Control RunProjection :=
  let request := normalizeControlRequest request in
  let key := crq_IdempotencyKey request in
  replayed <-! beginControl env "cancel" "run.cancelled" request ∅;
  match replayed with
  | Some run => ctl_ret run
  | None =>
      _ <-! or_finish env "cancel" key (controlRun request "cancel" cancellable);
      evidence <-! quiesceRun service env (crq_RunID request) true key;
      run <-! or_finish env "cancel" key (controlRun request "cancel" cancellable);
      batch <-! (λ s, (s, cancel_batch service (cs_db s) run request (env_clock env 1) evidence));
      committed <-! ctl_append (env_clock env 2) (identified_events env batch);
      value <-! ctl_read (find_row runs (crq_RunID request));
      _ <-! finishControl env "cancel" key value committed;
      ctl_ret value
  end.

(** * Deleting work items *)

(** [delete:%s:%d]. *)
Definition deletion_request run : ControlRequest := {|
  crq_ConfirmationDigest := ""; crq_RunID := run_RunID run; crq_ExpectedResourceVersion := run_ResourceVersion run;
  crq_IdempotencyKey := "delete:" +:+ run_RunID run +:+ ":" +:+ encode_uint (run_ResourceVersion run);
  crq_Actor := daemon |}.
(** The surroundings of the [i]-th call a deletion makes. *)
Abbreviation Envs := (nat → Env) (only parsing).

Definition reject_approval (envs : Envs) (runs : list RunProjection) (i : nat) (approval : ApprovalProjection)
  : Control unit :=
  if decide (app_RunID approval ∈ run_RunID <$> runs) then
    _ <-! ctl_append (env_clock (envs i) 2) (identified_events (envs i) [
      pendingEvent "approval.cancelled" AggregateApproval (app_ApprovalID approval) (app_ResourceVersion approval)
        (app_RunID approval) ("delete-approval:" +:+ app_ApprovalID approval) daemon (env_clock (envs i) 1)
        (reason "work_deleted")]);
    ctl_ret tt
  else ctl_ret tt.
Fixpoint reject_approvals (envs : Envs) (runs : list RunProjection) (i : nat) (approvals : list ApprovalProjection)
  : Control unit :=
  match approvals with
  | [] => ctl_ret tt
  | approval :: approvals => _ <-! reject_approval envs runs i approval; reject_approvals envs runs (S i) approvals
  end.
(** The runs that are not over are cancelled one after the other; a failure does not stop the
    loop. *)
Fixpoint cancel_runs (service : Service) (envs : Envs) (i : nat) (runs : list RunProjection)
  : Control (list control_error) :=
  match runs with
  | [] => ctl_ret []
  | run :: runs =>
      failure <-! (if decide (run_Status run ∈ [RunCompleted; RunCancelled]) then ctl_ret []
        else λ s, match Cancel service (envs i) (deletion_request run) s with
                  | (s, Err e) => (s, Ok [e])
                  | (s, Ok value) =>
                      (s, Ok (if decide (run_Status value ∈ [RunCompleted; RunCancelled]) then []
                              else [ControlFailed (text "provider cancellation requires reconciliation")]))
                  end);
      failures <-! cancel_runs service envs (S i) runs;
      ctl_ret (failure ++ failures)
  end.
Definition reconcileWorkDeletion (service : Service) (envs : Envs) (id : string) : Control unit :=
  work <-! ctl_read (find_row works id);
  if decide (wit_Deletion work ≠ WorkDeleting) then ctl_ret tt
  else
    owned <-! ctl_read (RunsForWorkItem id);
    pending <-! ctl_read (Approvals ApprovalPending);
    _ <-! reject_approvals envs owned 0 pending;
    failures <-! cancel_runs service envs (length pending) owned;
    if decide (failures ≠ []) then ctl_throw (ControlJoined failures)
    else
      work <-! ctl_read (find_row works id);
      if decide (wit_Deletion work = WorkDeleted) then ctl_ret tt
      else
        let env := envs (length pending + length owned) in
        _ <-! ctl_append (env_clock env 2) (identified_events env [
          pendingEvent "work.deleted" AggregateWork id (wit_ResourceVersion work) id ("deleted:" +:+ id) daemon
            (env_clock env 1) ∅]);
        ctl_ret tt.
(** The result of the reconciliation is dropped: the answer is the work item as it is then. *)
Definition DeleteWork (service : Service) (envs : Envs) (id : string) (expected : Z) (key : string)
  : Control WorkItemProjection :=
  if decide (expected = 0%Z) then ctl_lift (invalid_control "" [])
  else if negb (key_ok key) then ctl_lift (invalid_control "" [])
  else
    work <-! ctl_read (find_row works id);
    _ <-! (if decide (wit_Deletion work ≠ WorkRetained) then ctl_ret tt
           else if decide (wit_ResourceVersion work ≠ expected) then
             ctl_throw (ControlConflict id expected (wit_ResourceVersion work))
           else
             _ <-! ctl_append (env_clock (envs 0) 2) (identified_events (envs 0) [
               pendingEvent "work.deletion_requested" AggregateWork id expected id ("delete:" +:+ key)
                 {| actor_Type := ActorUser; actor_ID := "local-user" |} (env_clock (envs 0) 1) ∅]);
             ctl_ret tt);
    λ s, let '(s, _) := reconcileWorkDeletion service (λ i, envs (S i)) id s in
         ctl_read (find_row works id) s.
(** Failures of one work item do not keep the next from being reconciled. *)
Fixpoint reconcile_each (service : Service) (envs : nat → Envs) (i : nat) (items : list WorkItemProjection)
  : Control unit :=
  match items with
  | [] => ctl_ret tt
  | work :: items =>
      _ <-! (if decide (wit_Deletion work = WorkDeleting)
             then λ s, let '(s, _) := reconcileWorkDeletion service (envs i) (wit_WorkItemID work) s in (s, Ok tt)
             else ctl_ret tt);
      reconcile_each service envs (S i) items
  end.
Definition ReconcileWorkDeletions (service : Service) (envs : nat → Envs) : Control unit :=
  items <-! ctl_read WorkItems;
  reconcile_each service envs 0 items.
End handlers.
