(* ===== verification/RunControlSafety.v ===== *)
(** What the commands on a run promise: a command is answered once and for all, a cancelled run
    leaves nothing behind that could go on, and a requested deletion is not forgotten. *)
From S2P Require Import Prelude GoStrings GoUnicode GoJson GoEncode GoDecode OpaqueID StateStore GoTime Reducer Interaction Lifecycle RunLifecycle StoreTables EventStore EventLog StreamFacts Commands RunControl.
From stdpp Require Import options.

(** * The monad *)
Section monad.
Context `{!SqliteJson, !UnicodeLower, !TicketSource}.
Lemma ctl_bind_Ok {A B} (m : Control A) (k : A → Control B) s s' b :
  ctl_bind m k s = (s', Ok b) ↔ ∃ s1 a, m s = (s1, Ok a) ∧ k a s1 = (s', Ok b).
Proof.
  unfold ctl_bind. split; [|by intros (s1 & a & -> & ?)].
  destruct (m s) as [s1 [a|e]]; [by eauto|done].
Qed.
Lemma ctl_read_Ok {A} (query : Database → store_result A) s s' a :
  ctl_read query s = (s', Ok a) ↔ s' = s ∧ query (cs_db s) = Ok a.
Proof. unfold ctl_read. destruct (query (cs_db s)); naive_solver. Qed.
Lemma ctl_lift_Ok {A} (r : result control_error A) s s' a : ctl_lift r s = (s', Ok a) ↔ s' = s ∧ r = Ok a.
Proof. unfold ctl_lift. naive_solver. Qed.
Lemma ctl_ret_Ok {A} (a b : A) s s' : ctl_ret a s = (s', Ok b) ↔ s' = s ∧ a = b.
Proof. unfold ctl_ret. naive_solver. Qed.
Lemma ctl_command_Ok {A} (call : CommandTable → CommandTable * command_result A) s s' a :
  ctl_command call s = (s', Ok a) ↔ cs_db s' = cs_db s ∧ call (cs_commands s) = (cs_commands s', Ok a).
Proof.
  unfold ctl_command. destruct (call (cs_commands s)) as [commands [b|e]]; destruct s'; cbn; naive_solver.
Qed.
Lemma ctl_append_Ok now pending s s' events :
  ctl_append now pending s = (s', Ok events) ↔
  cs_commands s' = cs_commands s ∧ Append now (cs_db s) pending = (cs_db s', Ok events).
Proof.
  unfold ctl_append. destruct (Append now (cs_db s) pending) as [db [l|e]]; destruct s'; cbn; naive_solver.
Qed.
End monad.
Tactic Notation "ctl_step" hyp(H) "as" simple_intropattern(p) ident(H1) :=
  apply ctl_bind_Ok in H as (? & p & H1 & H).

Section control.
Context `{!SqliteJson, !UnicodeLower, !TicketSource, !Sha256, !ErrorText}.
Implicit Types (env : Env) (request : ControlRequest) (run : RunProjection) (s : ControlState).

Lemma or_finish_Ok {A} env action key (m : Control A) s s' a :
  or_finish env action key m s = (s', Ok a) ↔ m s = (s', Ok a).
Proof.
  unfold or_finish. destruct (m s) as [s1 [b|e]]; [done|]. split; [|done]. unfold finishControlFailure.
  destruct (control_failure e) as [[failure status]|]; [|done]. by intros (? & ? & _ & ?)%ctl_bind_Ok.
Qed.
Lemma find_row_Ok {P} (T : Table P) id db p : find_row T id db = Ok p → tbl_rows T (db_tables db) !! id = Some p.
Proof.
  unfold find_row, require_row, read_row. destruct (tbl_rows T (db_tables db) !! id) as [row|]; [|done].
  destruct (forallb _ _); [|done]. by intros [= ->].
Qed.
Lemma controlRun_Ok request action allowed s s' run :
  controlRun request action allowed s = (s', Ok run) →
  s' = s ∧ find_row runs (crq_RunID request) (cs_db s) = Ok run ∧
  run_ResourceVersion run = crq_ExpectedResourceVersion request ∧ run_Status run ∈ allowed.
Proof.
  unfold controlRun. intros Hok. ctl_step Hok as found Hrun. apply ctl_read_Ok in Hrun as [-> Hrun].
  apply ctl_bind_Ok in Hok as (s1 & deletion & Hdel & Hok).
  assert (s1 = s) as ->.
  { destruct (decide (action = "cancel")); [by apply ctl_ret_Ok in Hdel as [-> _]|]. destruct (find_row works _ _) as [|[]]; congruence. }
  clear Hdel. apply ctl_lift_Ok in Hok as [-> Hok]. unfold invalid_control in Hok. case_decide; [done|]. case_decide as Hv; [done|].
  case_decide; [|done]. injection Hok as ->. done.
Qed.
(** A command that is not in the ledger is begun, and nothing else happens. *)
Lemma beginControl_fresh env action kind request extra s s' r :
  cs_commands s !! ("runs." +:+ action, crq_IdempotencyKey request) = None →
  beginControl env action kind request extra s = (s', Ok r) → r = None ∧ cs_db s' = cs_db s.
Proof.
  intros Hnew. unfold beginControl. destruct (_ || _); [by intros [_ ?]%ctl_lift_Ok|]. intros Hok.
  ctl_step Hok as [command reused] Hbegin. apply ctl_command_Ok in Hbegin as [Hdb Hbegin].
  assert (reused = false) as ->.
  { unfold BeginCommand in Hbegin. destruct (_ || _) in Hbegin; [done|].
    cbn [bc_Scope bc_IdempotencyKey] in Hbegin. rewrite Hnew in Hbegin. rewrite bool_decide_true in Hbegin by done.
    injection Hbegin as _ Hbegin. apply result_bind_Ok in Hbegin as (row & _ & Hbegin). destruct (decide _) in Hbegin; congruence. }
  apply ctl_ret_Ok in Hok as [-> <-]. done.
Qed.
Lemma finishControl_Ok env action key run events s s' : 
  finishControl env action key run events s = (s', Ok tt) → cs_db s' = cs_db s.
Proof.
  unfold finishControl. destruct (encode_run run); [|done]. intros Hok. ctl_step Hok as row Hrow.
  apply ctl_command_Ok in Hrow as [Hdb _]. by apply ctl_ret_Ok in Hok as [-> _].
Qed.

(** * What a cancellation appends *)
Lemma cancel_Ok service env request s s' value :
  cs_commands s !! ("runs.cancel", crq_IdempotencyKey request) = None →
  Cancel service env request s = (s', Ok value) →
  let normal := normalizeControlRequest request in
  ∃ s1 run batch committed, cs_db s1 = cs_db s ∧
    let mid := cs_db (env_meanwhile env s1) in
    let attempts := match AttemptsForRun (crq_RunID normal) (cs_db s) with Ok l => l | Err _ => [] end in
    find_row runs (crq_RunID normal) mid = Ok run ∧ run_ResourceVersion run = crq_ExpectedResourceVersion normal ∧
    cancel_batch service mid run normal (env_clock env 1)
      (quiesced service env (crq_RunID normal) true (crq_IdempotencyKey normal) attempts) = Ok batch ∧
    Append (env_clock env 2) mid (identified_events env batch) = (cs_db s', Ok committed) ∧
    find_row runs (crq_RunID normal) (cs_db s') = Ok value.
Proof.
  intros Hnew Hok normal. unfold Cancel in Hok. fold normal in Hok.
  ctl_step Hok as replayed Hbegin. apply beginControl_fresh in Hbegin as [-> Hdb]; [|done].
  ctl_step Hok as first Hfirst. apply or_finish_Ok, controlRun_Ok in Hfirst as (-> & _).
  ctl_step Hok as evidence Hquiet. injection Hquiet as <- <-.
  ctl_step Hok as run Hrun. apply or_finish_Ok, controlRun_Ok in Hrun as (-> & Hrun & Hver & _).
  ctl_step Hok as batch Hbatch. injection Hbatch as <- Hbatch.
  ctl_step Hok as committed Happ. apply ctl_append_Ok in Happ as [_ Happ].
  ctl_step Hok as found Hfound. apply ctl_read_Ok in Hfound as [-> Hfound].
  apply ctl_bind_Ok in Hok as (s2 & [] & Hfin%finishControl_Ok & Hok). apply ctl_ret_Ok in Hok as [-> ->].
  eexists _, run, batch, committed. split; [exact Hdb|]. cbv zeta. rewrite <-Hdb, Hfin. done.
Qed.

(** A draft of an event of a type and a kind for an aggregate. *)
Definition drafts (now : Time) (type : AggregateType) (kind id : string) (d : draft) : Prop :=
  ∀ e, pe_AggregateType (d e) = type ∧ pe_Kind (d e) = kind ∧ pe_AggregateID (d e) = id ∧ pe_OccurredAt (d e) = now.
Definition live (a : AttemptProjection) : bool :=
  negb (AttemptTerminal (att_Status a)) || bool_decide (att_Status a = AttemptReconcileRequired).
(** Whether the provider of an attempt left open what became of it. *)
Definition unsure (evidence : gmap string cancelObservation) (id : string) : bool :=
  from_option co_Uncertain false (evidence !! id).
Definition cancel_kind (evidence : gmap string cancelObservation) (a : AttemptProjection) (kind : string) : Prop :=
  if unsure evidence (att_AttemptID a) then kind = "attempt.reconcile_required"
  else kind ∈ ["attempt.cancelled"; "attempt.cancellation_reconciled"].

(** What the loop over the attempts has drafted. *)
Record cancels (now : Time) (db : Database) (evidence : gmap string cancelObservation) (attempts : list AttemptProjection)
    (state : cancellation) : Prop := {
  ca_drafts d : d ∈ cn_events state → (∃ v, drafts now AggregateVisit "visit.cancelled" v d) ∨
    ∃ a kind, a ∈ attempts ∧ live a = true ∧ drafts now AggregateAttempt kind (att_AttemptID a) d ∧ cancel_kind evidence a kind;
  ca_live a : a ∈ attempts → live a = true →
    ∃ d kind, d ∈ cn_events state ∧ drafts now AggregateAttempt kind (att_AttemptID a) d ∧ cancel_kind evidence a kind;
  ca_visits v : v ∈ cn_visits state → ∃ d, d ∈ cn_events state ∧ drafts now AggregateVisit "visit.cancelled" v d;
  ca_owned a : a ∈ attempts → live a = true → unsure evidence (att_AttemptID a) = false → att_VisitID a ≠ "" →
    att_VisitID a ∈ cn_visits state ∨
    ∃ node, find_row nodes (att_VisitID a) db = Ok node ∧ NodeTerminal (node_Status node) = true;
  ca_reconcile : cn_reconcile state = existsb (λ a, live a && unsure evidence (att_AttemptID a)) attempts;
}.
Lemma cancel_attempt_cancels db run request now evidence attempts state a state' :
  (∀ v node, find_row nodes v db = Ok node → node_VisitID node = v) →
  cancels now db evidence attempts state →
  cancel_attempt db run request now evidence state a = Ok state' →
  cancels now db evidence (attempts ++ [a]) state'.
Proof.
  intros Hrow [Hd Hl Hv Ho Hr] Hok.
  (* an attempt that is not live *)
  assert (live a = false → state' = state → cancels now db evidence (attempts ++ [a]) state') as Hskip.
  { intros Ha ->. split.
    - intros d Hin. destruct (Hd d Hin) as [?|(a' & kind & ? & ?)]; [by left|]. right. exists a', kind. set_solver.
    - intros a' [Hin| ->%list_elem_of_singleton]%elem_of_app Hlive; [by apply Hl|congruence].
    - done.
    - intros a' [Hin| ->%list_elem_of_singleton]%elem_of_app Hlive; [by apply Ho|congruence].
    - rewrite existsb_app, Hr. cbn. by rewrite Ha, !orb_false_r. }
  (* one that is, when its event has been drafted *)
  assert (∀ kind d new visits reconcile, live a = true → drafts now AggregateAttempt kind (att_AttemptID a) d →
    cancel_kind evidence a kind → (∀ d', d' ∈ new → ∃ v, drafts now AggregateVisit "visit.cancelled" v d') →
    cn_visits state ⊆ visits → (∀ v, v ∈ visits → v ∈ cn_visits state ∨ ∃ d', d' ∈ new ∧ drafts now AggregateVisit "visit.cancelled" v d') →
    (unsure evidence (att_AttemptID a) = false → att_VisitID a ≠ "" → att_VisitID a ∈ visits ∨
      ∃ node, find_row nodes (att_VisitID a) db = Ok node ∧ NodeTerminal (node_Status node) = true) →
    reconcile = cn_reconcile state || unsure evidence (att_AttemptID a) →
    cancels now db evidence (attempts ++ [a])
      {| cn_events := cn_events state ++ d :: new; cn_visits := visits; cn_reconcile := reconcile |}) as Hadd.
  { intros kind d new visits reconcile Ha Hdraft Hkind Hnew Hsub Hvisits Howned ->. split; cbn.
    - intros d' [Hin|[->|Hin]%elem_of_cons]%elem_of_app; [| |left; by apply Hnew].
      + destruct (Hd d' Hin) as [?|(a' & k & ? & ?)]; [by left|]. right. exists a', k. set_solver.
      + right. exists a, kind. set_solver.
    - intros a' [Hin| ->%list_elem_of_singleton]%elem_of_app Hlive.
      + destruct (Hl a' Hin Hlive) as (d' & k & ? & ?). exists d', k. set_solver.
      + exists d, kind. set_solver.
    - intros v [Hin|(d' & ? & ?)]%Hvisits; [destruct (Hv v Hin) as (d' & ? & ?)|]; exists d'; set_solver.
    - intros a' [Hin| ->%list_elem_of_singleton]%elem_of_app Hlive Hsure Hne; [|by apply Howned].
      destruct (Ho a' Hin Hlive Hsure Hne) as [?|?]; [left; set_solver|by right].
    - rewrite existsb_app, Hr. cbn. by rewrite Ha, orb_false_r. }
  assert (∀ kind, live a = true → kind ∈ ["attempt.cancelled"; "attempt.cancellation_reconciled"] →
    cancel_live db run request now evidence state a kind = Ok state' → cancels now db evidence (attempts ++ [a]) state') as Hlive.
  { intros kind Ha Hkind Hc. unfold cancel_live in Hc. fold (unsure evidence (att_AttemptID a)) in Hc.
    assert (unsure evidence (att_AttemptID a) = false → cancel_kind evidence a kind) as Hk by (unfold cancel_kind; by intros ->).
    destruct (unsure evidence (att_AttemptID a)) eqn:Hu.
    { injection Hc as <-. apply (Hadd "attempt.reconcile_required"); [done|done| |by intros d ?%elem_of_nil|done|by left|done|by rewrite orb_true_r].
      unfold cancel_kind. by rewrite Hu. }
    destruct (decide (att_VisitID a = "" ∨ att_VisitID a ∈ cn_visits state)) as [Hown|Hown].
    { injection Hc as <-. apply (Hadd kind); [done|done|by apply Hk|by intros d ?%elem_of_nil|done|by left| |by rewrite orb_false_r].
      intros _ Hne. left. tauto. }
    destruct (find_row nodes _ db) as [node|] eqn:Hnode; [|done].
    destruct (NodeTerminal (node_Status node)) eqn:Ht; injection Hc as <-.
    { apply (Hadd kind); [done|done|by apply Hk|by intros d ?%elem_of_nil|done|by left| |by rewrite orb_false_r].
      intros _ Hne. right. eauto. }
    assert (drafts now AggregateVisit "visit.cancelled" (att_VisitID a)
      (pendingEvent "visit.cancelled" AggregateVisit (node_VisitID node) (node_ResourceVersion node) (run_RunID run)
         (crq_IdempotencyKey request) (crq_Actor request) now (reason "user"))) as Hv'.
    { intros e. cbn. by rewrite (Hrow _ _ Hnode). }
    apply (Hadd kind); [done|done|by apply Hk|..].
    - intros d ->%list_elem_of_singleton. eauto.
    - set_solver.
    - intros v [->%elem_of_singleton|?]%elem_of_union; [right; eexists; split; [by left|done]|by left].
    - intros _ _. left. set_solver.
    - by rewrite orb_false_r. }
  unfold cancel_attempt in Hok. cbv zeta in Hok. case_decide as Hs.
  { destruct (_ || _) in Hok; [done|]. apply (Hlive _) in Hok; [done|unfold live; by rewrite Hs|set_solver]. }
  destruct (AttemptTerminal (att_Status a)) eqn:Ht.
  - injection Hok as ->. apply Hskip; [|done]. unfold live. rewrite Ht. by rewrite bool_decide_false.
  - apply (Hlive _) in Hok; [done|unfold live; by rewrite Ht|set_solver].
Qed.

Lemma cancel_attempts_cancels db run request now evidence attempts state :
  (∀ v node, find_row nodes v db = Ok node → node_VisitID node = v) →
  foldM (cancel_attempt db run request now evidence) {| cn_events := []; cn_visits := ∅; cn_reconcile := false |} attempts = Ok state →
  cancels now db evidence attempts state.
Proof.
  intros Hrow. revert state. induction attempts as [|a attempts IH] using rev_ind; intros state Hok.
  - injection Hok as <-. split; cbn; try set_solver.
  - rewrite foldM_app in Hok. apply result_bind_Ok in Hok as (mid & Hmid & Hok). cbn in Hok.
    apply result_bind_Ok in Hok as (last & Hlast & [= ->]). eapply cancel_attempt_cancels; eauto.
Qed.

(** The loop over the visits adds cancellations of visits and of approvals. *)
Lemma cancel_visits_adds db run request now cancelled visits events events' :
  foldM (cancel_visit db run request now cancelled) events visits = Ok events' →
  ∃ more, events' = events ++ more ∧
    (∀ d, d ∈ more → (∃ v, drafts now AggregateVisit "visit.cancelled" v d) ∨ ∃ x, drafts now AggregateApproval "approval.cancelled" x d) ∧
    (∀ node, node ∈ visits → node_Status node = NodeWaitingCheckpoint →
      node_VisitID node ∈ cancelled ∨ ∃ d, d ∈ more ∧ drafts now AggregateVisit "visit.cancelled" (node_VisitID node) d).
Proof.
  revert events'. induction visits as [|node visits IH] using rev_ind; intros events' Hok.
  { injection Hok as <-. exists []. rewrite app_nil_r. set_solver. }
  rewrite foldM_app in Hok. apply result_bind_Ok in Hok as (mid & Hmid & Hok). cbn in Hok.
  apply result_bind_Ok in Hok as (last & Hlast & [= ->]). destruct (IH _ Hmid) as (more & -> & Hdrafts & Hwait).
  unfold cancel_visit in Hlast. case_decide as Hskip.
  { injection Hlast as <-. exists more. split_and!; [done..|].
    intros n [?| ->%list_elem_of_singleton]%elem_of_app Hn; [by apply Hwait|]. tauto. }
  match type of Hlast with context [(_ ++ _) ++ [?d]] => set (v := d) in * end.
  assert (drafts now AggregateVisit "visit.cancelled" (node_VisitID node) v) as Hv by by intros e.
  assert (∀ tail, (∀ d, d ∈ tail → ∃ x, drafts now AggregateApproval "approval.cancelled" x d) →
    events' = ((events ++ more) ++ [v]) ++ tail → ∃ more', events' = events ++ more' ∧
    (∀ d, d ∈ more' → (∃ v, drafts now AggregateVisit "visit.cancelled" v d) ∨ ∃ x, drafts now AggregateApproval "approval.cancelled" x d) ∧
    (∀ n, n ∈ visits ++ [node] → node_Status n = NodeWaitingCheckpoint →
      node_VisitID n ∈ cancelled ∨ ∃ d, d ∈ more' ∧ drafts now AggregateVisit "visit.cancelled" (node_VisitID n) d)) as Hadd.
  { intros tail Htail ->. exists (more ++ [v] ++ tail). split; [by rewrite !(assoc_L (++))|]. split.
    - intros d [?|[->%list_elem_of_singleton|?]%elem_of_app]%elem_of_app; [by apply Hdrafts|left; eauto|right; by apply Htail].
    - intros n [Hin| ->%list_elem_of_singleton]%elem_of_app Hn.
      + destruct (Hwait n Hin Hn) as [?|(d & ? & ?)]; [by left|right; exists d; set_solver].
      + right. exists v. set_solver. }
  destruct (find_row approvals _ db) as [approval|e].
  - case_decide; injection Hlast as <-; [apply (Hadd [cancel_approval run request now approval])|apply (Hadd [])]; try done.
    + intros d ->%list_elem_of_singleton. exists (app_ApprovalID approval). by intros e.
    + by intros d ?%elem_of_nil.
    + by rewrite app_nil_r.
  - destruct e; try done. injection Hlast as <-. apply (Hadd []); [by intros d ?%elem_of_nil|by rewrite app_nil_r].
Qed.

Lemma elem_of_query {P} (T : Table P) created wanted t l p :
  query_rows T created wanted t = Ok l → p ∈ l ↔ wanted p = true ∧ ∃ x, tbl_rows T t !! x = Some p.
Proof.
  unfold query_rows, scan_rows. destruct (forallb _ _); [|done]. intros [= <-].
  rewrite (merge_sort_Permutation _), list_elem_of_filter, list_elem_of_fmap. split.
  - intros (? & [x q] & -> & ?%elem_of_map_to_list). eauto.
  - intros (? & x & Hx). split; [done|]. exists (x, p). split; [done|]. by apply elem_of_map_to_list.
Qed.
Definition cancel_draft (now : Time) (evidence : gmap string cancelObservation) (attempts : list AttemptProjection) (d : draft) : Prop :=
  (∃ v, drafts now AggregateVisit "visit.cancelled" v d) ∨ (∃ x, drafts now AggregateApproval "approval.cancelled" x d) ∨
  ∃ a kind, a ∈ attempts ∧ live a = true ∧ drafts now AggregateAttempt kind (att_AttemptID a) d ∧ cancel_kind evidence a kind.
Lemma cancel_batch_facts service db run request now evidence batch :
  (∀ v node, find_row nodes v db = Ok node → node_VisitID node = v) →
  cancel_batch service db run request now evidence = Ok batch →
  ∃ attempts state visits body, AttemptsForRun (crq_RunID request) db = Ok attempts ∧
    NodesForRun (run_RunID run) db = Ok visits ∧ cancels now db evidence attempts state ∧
    batch = body ++ [cancel_run_events now run request (cn_reconcile state)] ∧
    (∀ d, d ∈ body → cancel_draft now evidence attempts d) ∧ (∀ d, d ∈ cn_events state → d ∈ body) ∧
    (∀ node, node ∈ visits → node_Status node = NodeWaitingCheckpoint →
      ∃ d, d ∈ body ∧ drafts now AggregateVisit "visit.cancelled" (node_VisitID node) d).
Proof.
  intros Hrow Hok. unfold cancel_batch in Hok.
  apply result_bind_Ok in Hok as (attempts & Hatt & Hok). apply result_bind_Ok in Hok as (state & Hstate & Hok).
  apply result_bind_Ok in Hok as (visits & Hvis & Hok). apply result_bind_Ok in Hok as (events & Hev & Hok).
  apply result_bind_Ok in Hok as (reviews & Hrev & [= <-]).
  apply cancel_attempts_cancels in Hstate; [|done].
  apply cancel_visits_adds in Hev as (more & -> & Hmore & Hwait).
  assert (AttemptsForRun (crq_RunID request) db = Ok attempts) by (unfold read_result in Hatt; destruct (AttemptsForRun _ _); congruence).
  assert (NodesForRun (run_RunID run) db = Ok visits) by (unfold read_result in Hvis; destruct (NodesForRun _ _); congruence).
  exists attempts, state, visits, ((cn_events state ++ more) ++ (cancel_approval run request now <$> reviews)).
  split_and!; [done..|by rewrite (assoc_L (++))| |set_solver|].
  - intros d [[Hd|Hd]%elem_of_app|Hd]%elem_of_app.
    + destruct (ca_drafts _ _ _ _ _ Hstate d Hd) as [?|?]; [by left|by right; right].
    + destruct (Hmore d Hd) as [?|?]; [by left|by right; left].
    + apply list_elem_of_fmap in Hd as (approval & -> & _). right; left. exists (app_ApprovalID approval). by intros e.
  - intros node Hin Hn. destruct (Hwait node Hin Hn) as [Hv|(d & ? & ?)]; [|exists d; set_solver].
    destruct (ca_visits _ _ _ _ _ Hstate _ Hv) as (d & ? & ?). exists d. set_solver.
Qed.

(** * What a cancellation leaves *)
Definition settled_attempt : list AttemptStatus := [AttemptSucceeded; AttemptFailed; AttemptCancelled; AttemptInterrupted].
(** The run, its attempts and its visits afterwards, given the tables the cancellation read. *)
Record run_settled (id : string) (version : Z) (evidence : gmap string cancelObservation)
    (mid after : Tables) (value : RunProjection) : Prop := {
  st_value : t_runs after !! id = Some value ∧ run_ResourceVersion value = (version + 1)%Z;
  st_status :
    run_Status value = RunCancelled ∧
      (∀ x a, t_attempts mid !! x = Some a → att_RunID a = id → live a = true → unsure evidence x = false) ∨
    run_Status value = RunReconcileRequired ∧
      (∃ x a, t_attempts mid !! x = Some a ∧ att_RunID a = id ∧ live a = true ∧ unsure evidence x = true);
  st_attempts x a : t_attempts after !! x = Some a → att_RunID a = id →
    att_Status a ∈ settled_attempt ∨ att_Status a = AttemptReconcileRequired ∧ unsure evidence x = true;
  st_waiting x node : t_nodes after !! x = Some node → node_RunID node = id → node_Status node ≠ NodeWaitingCheckpoint;
  st_visits x a node : t_attempts mid !! x = Some a → att_RunID a = id → live a = true → unsure evidence x = false →
    t_nodes after !! att_VisitID a = Some node → att_VisitID a ≠ "" → NodeTerminal (node_Status node) = true;
}.

Lemma identified_snoc env body d :
  identified_events env (body ++ [d]) = identified_events env body ++ [d (Random (env_entropy env (length body)) "event_")].
Proof. unfold identified_events. rewrite imap_app. cbn. by rewrite Nat.add_0_r. Qed.
Lemma elem_of_identified env batch item :
  item ∈ identified_events env batch → ∃ d e, d ∈ batch ∧ item = d e.
Proof.
  unfold identified_events. rewrite elem_of_lookup_imap. intros (i & d & -> & Hi).
  exists d. eexists. split; [by eapply list_elem_of_lookup_2|done].
Qed.
Lemma identified_elem env batch d : d ∈ batch → ∃ e, d e ∈ identified_events env batch.
Proof.
  intros (i & Hi)%list_elem_of_lookup. exists (Random (env_entropy env i) "event_").
  unfold identified_events. apply elem_of_lookup_imap. by exists i, d.
Qed.
(** Every draft of a committed batch is an event of the log. *)
Lemma draft_stored env batch rows committed now type kind id d :
  Forall2 (commits rows) (identified_events env batch) committed → d ∈ batch → drafts now type kind id d →
  ∃ event, stored rows event ∧ ev_AggregateType event = type ∧ ev_Kind event = kind ∧ ev_AggregateID event = id.
Proof.
  intros Hall (e & He)%(identified_elem env) Hd. apply list_elem_of_lookup in He as (i & Hi).
  destruct (Forall2_lookup_l _ _ _ _ _ Hall Hi) as (event & _ & Hst & Hsame). exists event.
  destruct (Hd e) as (Ht & Hk & Hid & _). unfold sameTransitionCommand in Hsame. bool_to_prop.
  split; [done|]. split_and!; congruence.
Qed.

Section settle.
#[local] Set Default Proof Using "Type".
Context {env : Env} {mid : Database} {run : RunProjection} {request : ControlRequest} {now clock : Time}
  {evidence : gmap string cancelObservation} {attempts : list AttemptProjection} {visits : list NodeProjection}
  {state : cancellation} {body : list draft} {after : Database} {committed : list Event}.
Let batch := body ++ [cancel_run_events now run request (cn_reconcile state)].
Hypotheses (Hwf : database_wf mid) (Hnow : parses_back now = true) (Hclock : parses_back clock = true)
  (Hrun : t_runs (db_tables mid) !! run_RunID run = Some run)
  (Hcancels : cancels now mid evidence attempts state)
  (Hbody : ∀ d, d ∈ body → cancel_draft now evidence attempts d)
  (Hevents : ∀ d, d ∈ cn_events state → d ∈ body)
  (Hwaiting : ∀ node, node ∈ visits → node_Status node = NodeWaitingCheckpoint →
     ∃ d, d ∈ body ∧ drafts now AggregateVisit "visit.cancelled" (node_VisitID node) d)
  (Hattempts : ∀ a, a ∈ attempts ↔ att_RunID a = run_RunID run ∧ ∃ x, t_attempts (db_tables mid) !! x = Some a)
  (Hvisits : ∀ n, n ∈ visits ↔ node_RunID n = run_RunID run ∧ ∃ x, t_nodes (db_tables mid) !! x = Some n)
  (Happend : Append clock mid (identified_events env batch) = (after, Ok committed)).

Lemma settle_drafts d : d ∈ batch → cancel_draft now evidence attempts d ∨
  ∃ kind, drafts now AggregateRun kind (run_RunID run) d.
Proof using Hbody.
  intros [Hd| ->%list_elem_of_singleton]%elem_of_app; [left; by apply Hbody|right].
  exists (if cn_reconcile state then "run.reconcile_required" else "run.cancelled"). by intros e.
Qed.
Lemma settle_readable : readable clock (identified_events env batch).
Proof using Hnow Hclock Hbody.
  split; [done|]. apply Forall_forall. intros item (d & e & Hd & ->)%elem_of_identified.
  assert (∃ type kind id, drafts now type kind id d) as (type & kind & id & Hdraft); [|by destruct (Hdraft e) as (_ & _ & _ & ->)].
  destruct (settle_drafts d Hd) as [[(v & Hv)|[(x & Hx)|(a & k & _ & _ & Ha & _)]]|(k & Hk)]; eauto.
Qed.
Lemma settle_commits :
  ∃ last0 db0 committed0 item, database_wf after ∧ Forall2 (commits (db_events after)) (identified_events env batch) committed ∧
    log_wf last0 db0 ∧ valid_item clock item ∧
    foldM (append_item clock) (mid, db_last_position mid, []) (identified_events env body) = Ok (db0, last0, committed0) ∧
    (∃ last1 db1, append_item clock (db0, last0, committed0) item = Ok (db1, last1, committed) ∧
      db_tables after = db_tables db1 ∧ rows_of (run_RunID run) (db_events after) = rows_of (run_RunID run) (db_events db1)) ∧
    (∃ e, item = cancel_run_events now run request (cn_reconcile state) e) ∧
    Forall (valid_item clock) (identified_events env batch).
Proof using Hwf Happend Hnow Hclock Hbody.
  pose proof settle_readable as Hr. destruct (Append_wf _ _ _ _ _ Hwf Hr Happend) as (Hwf' & _ & Hc & _).
  destruct (Append_Ok _ _ _ _ _ Happend (dw_log _ Hwf) Hr) as (Hvalid & last1 & db1 & Hfold & _ & _ & Hafter).
  unfold batch in Hvalid, Hfold. rewrite identified_snoc in Hvalid, Hfold.
  pose proof Hvalid as [Hv1 [Hv2 _]%Forall_cons]%Forall_app. rewrite foldM_app in Hfold.
  apply result_bind_Ok in Hfold as ([[db0 last0] committed0] & Hbefore & Hfold). cbn in Hfold.
  apply result_bind_Ok in Hfold as ([[db2 last2] committed2] & Hlast & [= -> -> ->]).
  destruct (append_fold_Ok _ _ _ _ _ _ _ _ (dw_log _ Hwf) Hv1 Hbefore) as ([Hwf0 _ _] & _).
  exists last0, db0, committed0. eexists. split_and!; [done|exact Hc|done|exact Hv2|done| |by eexists|].
  - exists last1, db1. split; [done|]. by rewrite Hafter.
  - unfold batch. by rewrite identified_snoc.
Qed.
Definition touched (x : string) : Prop := x ∈ pe_AggregateID <$> identified_events env batch.
#[local] Instance touched_dec x : Decision (touched x).
Proof. unfold touched. apply _. Defined.
Lemma settle_other {P} (T : Table P) {type reduce header lc} `{!Projected T type reduce header lc} x :
  ¬ touched x → tbl_rows T (db_tables after) !! x = tbl_rows T (db_tables mid) !! x.
Proof using Hwf Happend Hnow Hclock Hbody.
  intros Hx. destruct settle_commits as (last0 & db0 & c0 & item & _ & _ & _ & _ & Hfold & (last1 & db1 & Hlast & -> & _) & (e & He) & Hv).
  destruct settle_commits as (? & ? & ? & ? & _ & Hc & _).
  assert (∀ i, i ∈ identified_events env batch → pe_AggregateID i ≠ x) as Hids.
  { intros i Hi Heq. apply Hx. unfold touched. rewrite <-Heq. by apply list_elem_of_fmap_2. }
  unfold batch in Hids. rewrite identified_snoc in Hids.
  destruct (append_item_other T _ _ _ _ _ _ _ _ x Hlast) as [-> _].
  { rewrite He. cbn. specialize (Hids _ ltac:(apply elem_of_app; right; by left)). done. }
  destruct (append_fold_other T _ _ _ _ _ _ _ _ x Hfold) as [-> _]; [|done].
  intros i Hi. apply Hids. apply elem_of_app. by left.
Qed.
(** Something of the type its identifier says moved a touched row. *)
Lemma settle_touched x type : touched x → prefix_of x = Some type →
  ∃ d kind, d ∈ batch ∧ drafts now type kind x d ∧ (type = AggregateVisit → kind = "visit.cancelled") ∧
    (type = AggregateAttempt → ∃ a, a ∈ attempts ∧ att_AttemptID a = x ∧ cancel_kind evidence a kind).
Proof using Hwf Happend Hnow Hclock Hbody.
  intros (item & -> & Hin)%list_elem_of_fmap Hp. destruct settle_commits as (? & ? & ? & ? & _ & _ & _ & _ & _ & _ & _ & Hv).
  rewrite Forall_forall in Hv. destruct (Hv _ Hin) as (Hvalid & _). apply validate_Ok in Hvalid as [_ Hid].
  apply aggregate_id_prefix in Hid. rewrite Hid in Hp. injection Hp as <-.
  apply elem_of_identified in Hin as (d & e & Hd & ->).
  destruct (settle_drafts d Hd) as [[(v & Hdr)|[(y & Hdr)|(a & k & Ha & _ & Hdr & Hk)]]|(k & Hdr)];
    destruct (Hdr e) as (Ht & _ & Hi & _); rewrite Ht, Hi; do 2 eexists; (split; [exact Hd|]); (split; [exact Hdr|]); (split; [done|]); try done.
  intros _. by exists a.
Qed.
Lemma settle_run : ∃ value, t_runs (db_tables after) !! run_RunID run = Some value ∧
  run_ResourceVersion value = (run_ResourceVersion run + 1)%Z ∧
  run_Status value = if cn_reconcile state then RunReconcileRequired else RunCancelled.
Proof using Hwf Happend Hnow Hclock Hbody Hrun.
  destruct settle_commits as (last0 & db0 & c0 & item & _ & _ & Hlog & Hv & Hfold & (last1 & db1 & Hlast & -> & _) & (e & ->) & Hall).
  destruct (row_revision runs _ _ _ _ (dw_log _ Hwf) Hrun) as (_ & Hp & _).
  unfold batch in Hall. rewrite identified_snoc in Hall. apply Forall_app in Hall as [Hall _]. rewrite Forall_forall in Hall.
  destruct (append_fold_other runs _ _ _ _ _ _ _ _ (run_RunID run) Hfold) as [Hsame _].
  { intros i Hi Heq. destruct (Hall i Hi) as (Hvalid & _). apply validate_Ok in Hvalid as [_ Hid].
    apply aggregate_id_prefix in Hid. rewrite Heq, Hp in Hid. injection Hid as Hty.
    apply elem_of_identified in Hi as (d & e' & Hd & ->).
    destruct (Hbody d Hd) as [(v & Hdr)|[(y & Hdr)|(a & k & _ & _ & Hdr & _)]]; destruct (Hdr e') as (Ht & _); rewrite Ht in Hty; done. }
  cbn in Hsame. rewrite Hrun in Hsame.
  destruct (append_item_moves runs _ _ _ _ _ _ _ _ run Hlog Hv Hlast) as (value & Hval & Hstep & Hver); [done|exact Hsame|done|].
  exists value. split; [exact Hval|]. split; [exact Hver|]. cbn in Hstep. destruct (cn_reconcile state); by inversion Hstep.
Qed.
Lemma batch_touched d type kind x : d ∈ batch → drafts now type kind x d → touched x.
Proof using Type.
  intros (e & He)%(identified_elem env) Hd. unfold touched. apply list_elem_of_fmap. exists (d e).
  split; [symmetry; apply Hd|done].
Qed.
Lemma event_touched d type kind x : d ∈ cn_events state → drafts now type kind x d → touched x.
Proof using Hevents. intros Hd. eapply batch_touched. apply elem_of_app. left. by apply Hevents. Qed.

(** An attempt with an event ends in a status that its event and what follows it allow. *)
Lemma settle_attempt x a : t_attempts (db_tables after) !! x = Some a → att_RunID a = run_RunID run →
  att_Status a ∈ settled_attempt ∨ att_Status a = AttemptReconcileRequired ∧ unsure evidence x = true.
Proof using All.
  intros Ha Hid. destruct settle_commits as (_ & _ & _ & _ & Hwf' & Hc & _).
  destruct (row_revision StoreTables.attempts _ _ _ _ (dw_log _ Hwf') Ha) as (_ & Hp & _).
  destruct (decide (touched x)) as [Ht|Ht].
  - destruct (settle_touched _ _ Ht Hp) as (d & kind & Hd & Hdr & _ & Hk). destruct (Hk eq_refl) as (a0 & _ & <- & Hkind).
    destruct (draft_stored _ _ _ _ _ _ _ _ _ Hc Hd Hdr) as (event & Hst & Hty & Hki & Hi).
    set (S := λ st : string, st ∈ settled_attempt ∨ st = AttemptReconcileRequired ∧ unsure evidence (att_AttemptID a0) = true).
    destruct (row_absorbed StoreTables.attempts _ _ event S (dw_log _ Hwf') Hst Hty) as (p & Hrow & Hs).
    + unfold cancel_kind in Hkind. rewrite Hki. destruct (unsure _ _); [by rewrite Hkind|]. intros ->. set_solver.
    + unfold cancel_kind in Hkind. rewrite Hki. unfold S. destruct (unsure _ _).
      * rewrite Hkind. intros ? ? Hstep. inversion Hstep. by right.
      * intros ? ? Hstep. left. repeat (apply elem_of_cons in Hkind as [->|Hkind]); [..|by apply elem_of_nil in Hkind]; inversion Hstep; set_solver.
    + intros s k s' Hs Hstep. unfold S in *. destruct Hs as [Hs|[-> Hu]].
      * exfalso. unfold settled_attempt in Hs.
        repeat (apply elem_of_cons in Hs as [->|Hs]); [..|by apply elem_of_nil in Hs]; inversion Hstep; subst; try done; set_solver.
      * inversion Hstep; subst; try done; try set_solver.
    + rewrite Hi in Hrow. cbn in Hrow. rewrite Ha in Hrow. by injection Hrow as <-.
  - pose proof (settle_other StoreTables.attempts x Ht) as Hsame. cbn in Hsame. rewrite Ha in Hsame. symmetry in Hsame.
    destruct (row_revision StoreTables.attempts _ _ _ _ (dw_log _ Hwf) Hsame) as (Hxa & _). cbn in Hxa.
    assert (a ∈ attempts) as Hin by (apply Hattempts; eauto).
    destruct (live a) eqn:Hl.
    + exfalso. destruct (ca_live _ _ _ _ _ Hcancels a Hin Hl) as (d & kind & Hd & Hdr & _). apply Ht. rewrite <-Hxa.
      by eapply event_touched.
    + left. unfold live, AttemptTerminal in Hl. unfold settled_attempt. bool_to_prop. set_solver.
Qed.
(** A visit with an event is cancelled. *)
Lemma settle_visit x node : t_nodes (db_tables after) !! x = Some node → touched x → node_Status node = NodeCancelled.
Proof using All.
  intros Hn Ht. destruct settle_commits as (_ & _ & _ & _ & Hwf' & Hc & _).
  destruct (row_revision nodes _ _ _ _ (dw_log _ Hwf') Hn) as (_ & Hp & _).
  destruct (settle_touched _ _ Ht Hp) as (d & kind & Hd & Hdr & Hk & _). specialize (Hk eq_refl) as ->.
  destruct (draft_stored _ _ _ _ _ _ _ _ _ Hc Hd Hdr) as (event & Hst & Hty & Hki & Hi).
  destruct (row_absorbed nodes _ _ event (λ st : string, st = NodeCancelled) (dw_log _ Hwf') Hst Hty) as (p & Hrow & Hs).
  - by rewrite Hki.
  - rewrite Hki. intros ?? Hstep. by inversion Hstep.
  - intros s k s' -> Hstep. inversion Hstep; subst; try done; set_solver.
  - rewrite Hi in Hrow. cbn in Hrow. rewrite Hn in Hrow. by injection Hrow as <-.
Qed.
Lemma settle_settled : ∃ value, run_settled (run_RunID run) (run_ResourceVersion run) evidence (db_tables mid) (db_tables after) value.
Proof using All.
  destruct settle_run as (value & Hval & Hver & Hst). exists value. split; [done|..].
  - assert (∀ x a, t_attempts (db_tables mid) !! x = Some a → att_AttemptID a = x) as Hids.
    { intros x a Ha. by destruct (row_revision StoreTables.attempts _ _ _ _ (dw_log _ Hwf) Ha) as (? & _). }
    rewrite (ca_reconcile _ _ _ _ _ Hcancels) in Hst. destruct (existsb _ attempts) eqn:Hex; rewrite Hst; [right|left].
    + split; [done|]. apply existsb_exists in Hex as (a & Hin & [Hl Hu]%andb_true_iff).
      apply list_elem_of_In, Hattempts in Hin as (Hrid & x & Hx). rewrite (Hids _ _ Hx) in Hu. by exists x, a.
    + split; [done|]. intros x a Hx Hrid Hl. destruct (unsure evidence x) eqn:Hu; [|done]. exfalso.
      assert (existsb (λ a, live a && unsure evidence (att_AttemptID a)) attempts = true); [|congruence].
      apply existsb_exists. exists a. split; [apply list_elem_of_In, Hattempts; eauto|]. by rewrite Hl, (Hids _ _ Hx), Hu.
  - apply settle_attempt.
  - intros x node Hn Hid Hw. destruct (decide (touched x)) as [Ht|Ht]; [by rewrite (settle_visit _ _ Hn Ht) in Hw|].
    pose proof (settle_other nodes x Ht) as Hsame. cbn in Hsame. rewrite Hn in Hsame. symmetry in Hsame.
    destruct (row_revision nodes _ _ _ _ (dw_log _ Hwf) Hsame) as (Hxn & _). cbn in Hxn.
    destruct (Hwaiting node) as (d & Hd & Hdr); [apply Hvisits; eauto|done|]. apply Ht. rewrite <-Hxn.
    eapply batch_touched; [apply elem_of_app; by left|done].
  - intros x a node Ha Hid Hl Hu Hn Hne.
    destruct (row_revision StoreTables.attempts _ _ _ _ (dw_log _ Hwf) Ha) as (Hxa & _). cbn in Hxa.
    destruct (decide (touched (att_VisitID a))) as [Ht|Ht]; [by rewrite (settle_visit _ _ Hn Ht)|].
    destruct (ca_owned _ _ _ _ _ Hcancels a) as [Hv|(node' & Hn' & Hterm)]; [apply Hattempts; eauto|done|by rewrite Hxa|done|..].
    + destruct (ca_visits _ _ _ _ _ Hcancels _ Hv) as (d & Hd & Hdr). destruct Ht. by eapply event_touched.
    + apply find_row_Ok in Hn'. pose proof (settle_other nodes _ Ht) as Hsame. cbn in Hsame, Hn'. congruence.
Qed.
End settle.

(** A cancellation that is not a repetition, started in any database the transactions reach
    and whatever other transactions commit while its workers stop, leaves nothing of the run that
    could go on: when it answers, the run is cancelled at the next revision, every attempt of it
    is over, no visit waits for a checkpoint, and the visits of the attempts it stopped are over
    too.  The one exception is an attempt whose provider did not confirm its end: that attempt,
    and with it the run, waits to be reconciled, and only then. *)
Theorem cancel_settles_run src service env request s s' value :
  rtc store_step (initial_database src) (cs_db s) →
  (∀ s1, rtc store_step (cs_db s1) (cs_db (env_meanwhile env s1))) →
  parses_back (env_clock env 1) = true → parses_back (env_clock env 2) = true →
  cs_commands s !! ("runs.cancel", crq_IdempotencyKey request) = None →
  Cancel service env request s = (s', Ok value) →
  let id := crq_RunID (normalizeControlRequest request) in
  ∃ mid attempts, rtc store_step (cs_db s) mid ∧ rtc store_step mid (cs_db s') ∧
    attempts = match AttemptsForRun id (cs_db s) with Ok l => l | Err _ => [] end ∧
    run_settled id (crq_ExpectedResourceVersion request)
      (quiesced service env id true (crq_IdempotencyKey request) attempts)
      (db_tables mid) (db_tables (cs_db s')) value.
Proof.
  intros Hreach Hmean Hnow Hclock Hnew Hok id. apply cancel_Ok in Hok; [|done]. cbv zeta in Hok. fold id in Hok.
  destruct Hok as (s1 & run & batch & committed & Hdb & Hrun & Hver & Hbatch & Happ & Hval).
  specialize (Hmean s1). rewrite Hdb in Hmean.
  assert (database_wf (cs_db (env_meanwhile env s1))) as Hwf.
  { by destruct (steps_wf _ _ (initial_database_wf src) (transitivity Hreach Hmean)) as (? & _). }
  apply find_row_Ok in Hrun, Hval. pose proof (row_revision runs _ _ _ _ (dw_log _ Hwf) Hrun) as (Hid & _). cbn in Hid, Hrun, Hval.
  apply cancel_batch_facts in Hbatch as (attempts & state & visits & body & Hatt & Hvis & Hc & -> & Hbody & Hevents & Hwait).
  2: { intros v node Hn%find_row_Ok. by pose proof (row_revision nodes _ _ _ _ (dw_log _ Hwf) Hn) as (? & _). }
  fold id in Hatt. rewrite Hid in Hvis. rewrite <-Hid in Hrun.
  assert (∀ a, a ∈ attempts ↔ att_RunID a = run_RunID run ∧ ∃ x, t_attempts (db_tables (cs_db (env_meanwhile env s1))) !! x = Some a) as Ha.
  { intros a. by rewrite (elem_of_query _ _ _ _ _ a Hatt), bool_decide_eq_true, Hid. }
  assert (∀ n, n ∈ visits ↔ node_RunID n = run_RunID run ∧ ∃ x, t_nodes (db_tables (cs_db (env_meanwhile env s1))) !! x = Some n) as Hn.
  { intros n. by rewrite (elem_of_query _ _ _ _ _ n Hvis), bool_decide_eq_true, Hid. }
  destruct (settle_settled Hwf Hnow Hclock Hrun Hc Hbody Hevents Hwait Ha Hn Happ) as (value' & Hset).
  eexists _, _. split; [exact Hmean|]. split; [|split; [reflexivity|]].
  - apply rtc_once. eapply (step_append any_actor); [|done|exact Happ]. by eapply settle_readable.
  - rewrite Hid in Hset. cbn in Hver. rewrite Hver in Hset. destruct (st_value _ _ _ _ _ _ Hset) as [Hv _].
    rewrite Hval in Hv. by injection Hv as <-.
Qed.
End control.

(** * Example *)
Definition ex_sha : Sha256 := {| sha256_hex := λ s, s |}.
Definition ex_errors : ErrorText := {| error_text := λ _, "refused" |}.
Section examples.
#[local] Existing Instances ex_sqlite ascii_lower no_tickets ex_sha ex_errors.
(** A run with two attempts under way, each in a visit of its own. *)
Definition ex_attempt (n : string) : string :=
  "{'runId':'" +:+ ex_id "run" "1" +:+ "','visitId':'" +:+ ex_id "visit" n +:+
  "','nodeId':'a','scenario':'s','provider':'p','logReference':'l'}".
Definition ex_visit : string := "{'runId':'" +:+ ex_id "run" "1" +:+ "','nodeId':'a'}".
Definition ex_running_batch : list PendingEvent := [
  ex_project_created; ex_work_created; ex_run_created;
  ex_pending "4" AggregateRun "1" 1 "run.started" "{}";
  ex_pending "5" AggregateVisit "1" 0 "visit.created" ex_visit;
  ex_pending "6" AggregateVisit "2" 0 "visit.created" ex_visit;
  ex_pending "7" AggregateAttempt "1" 0 "attempt.created" (ex_attempt "1");
  ex_pending "8" AggregateAttempt "2" 0 "attempt.created" (ex_attempt "2");
  ex_pending "9" AggregateAttempt "1" 1 "attempt.resources_acquired" "{}";
  ex_pending "A" AggregateAttempt "2" 1 "attempt.resources_acquired" "{}"].
Definition ex_running : ControlState := {| cs_db := (Append 5 ex_initial ex_running_batch).1; cs_commands := ∅ |}.
Lemma ex_running_steps : rtc store_step (initial_database ex_source) (cs_db ex_running).
Proof.
  apply rtc_once, (step_append _ 5 _ ex_running_batch _ (match (Append 5 ex_initial ex_running_batch).2 with Ok l => l | Err _ => [] end)); [| done|].
  - split; [done|by repeat constructor].
  - vm_compute. reflexivity.
Qed.
(** Providers that confirm the end of some attempts. *)
Definition ex_service (confirmed : list string) : Service := {|
  sv_workers := ∅; sv_workflowFactory := None; sv_artifactReviews := false;
  sv_factory := Some (λ _ id _, Some (λ _ _, if decide (id ∈ confirmed) then Some CancelGraceful else None)) |}.
Definition ex_env : Env := {|
  env_clock := λ i, (10 + Z.of_nat i)%Z; env_entropy := λ i, replicate 15 0%Z ++ [Z.of_nat (64 + i)];
  env_meanwhile := λ s, s; env_unfinished := None |}.
Definition ex_cancel : ControlRequest := {|
  crq_ConfirmationDigest := ""; crq_RunID := ex_id "run" "1"; crq_ExpectedResourceVersion := 2; crq_IdempotencyKey := "cancel-it";
  crq_Actor := {| actor_Type := ""; actor_ID := "" |} |}.
Definition ex_ended (confirmed : list string) := Cancel (ex_service confirmed) ex_env ex_cancel ex_running.
Lemma ex_cancelled : ∃ s' value, ex_ended [ex_id "attempt" "1"] = (s', Ok value) ∧ run_Status value = RunReconcileRequired.
Proof. do 2 eexists. split; [vm_compute; reflexivity|reflexivity]. Qed.
Lemma cancel_settles_run_witness :
  ∃ s' value mid attempts, ex_ended [ex_id "attempt" "1"] = (s', Ok value) ∧ run_Status value = RunReconcileRequired ∧
    run_settled (ex_id "run" "1") 2
      (quiesced (ex_service [ex_id "attempt" "1"]) ex_env (ex_id "run" "1") true "cancel-it" attempts)
      (db_tables mid) (db_tables (cs_db s')) value.
Proof.
  destruct ex_cancelled as (s' & value & Hok & Hst).
  destruct (cancel_settles_run ex_source (ex_service [ex_id "attempt" "1"]) ex_env ex_cancel ex_running s' value) as (mid & attempts & _ & _ & _ & Hset).
  - exact ex_running_steps.
  - intros s1. reflexivity.
  - reflexivity.
  - reflexivity.
  - reflexivity.
  - exact Hok.
  - exists s', value, mid, attempts. split; [exact Hok|]. split; [exact Hst|exact Hset].
Defined.
(** When all providers confirm, nothing has to be reconciled. *)
Example all_confirmed :
  match ex_ended [ex_id "attempt" "1"; ex_id "attempt" "2"] with
  | (s', Ok value) => run_Status value = RunCancelled ∧
      (att_Status <$> t_attempts (db_tables (cs_db s')) !! ex_id "attempt" "2") = Some AttemptCancelled ∧
      (node_Status <$> t_nodes (db_tables (cs_db s')) !! ex_id "visit" "2") = Some NodeCancelled
  | _ => False
  end.
Proof. vm_compute. repeat split. Qed.
End examples.
