(* ===== verification/RunReplay.v ===== *)
(** The answer of a command on a run: the response that is stored is decoded into what was
    answered, so a repetition of the command is answered in the same way and does nothing. *)
From S2P Require Import Prelude GoStrings GoUnicode GoJson GoEncode JsonText JsonCut StateStore GoTime TimeText GoDecode GoCompact OpaqueID StructText Reducer Interaction StoreTables EventStore EventLog StreamFacts Commands RunControl RunControlSafety.
From stdpp Require Import options.

(** * Responses *)
Section responses.
Implicit Types (run : RunProjection).

(** The route that was pinned comes back without its white space. *)
Definition compacted run : RunProjection := {|
  run_RunID := run_RunID run; run_WorkItemID := run_WorkItemID run; run_WorkflowID := run_WorkflowID run;
  run_WorkflowVersion := run_WorkflowVersion run; run_WorkflowDigest := run_WorkflowDigest run;
  run_RouteDigest := run_RouteDigest run;
  run_RouteSnapshot := if decide (run_RouteSnapshot run = "") then ""
                       else snapshot_of (default "" (Compact (run_RouteSnapshot run)));
  run_Priority := run_Priority run; run_Status := run_Status run;
  run_ResourceVersion := run_ResourceVersion run; run_LastGlobalPosition := run_LastGlobalPosition run;
  run_CreatedAt := run_CreatedAt run; run_UpdatedAt := run_UpdatedAt run |}.
(** What the encoder can write and the decoder reads: texts in UTF-8, numbers and times in their
    ranges, and a route that is not nested too deep. *)
Record run_writable run : Prop := {
  wr_texts : Forall utf8 [run_RunID run; run_WorkItemID run; run_WorkflowID run; run_WorkflowVersion run;
                          run_WorkflowDigest run; run_RouteDigest run; run_Status run];
  wr_route : run_RouteSnapshot run = "" ∨ ∃ d c v, d + 2 ≤ max_nesting_depth ∧ Compact (run_RouteSnapshot run) = Some c ∧ value_text d c v;
  wr_priority : in_int64 (run_Priority run) = true;
  wr_version : (0 ≤ run_ResourceVersion run ≤ max_uint64)%Z;
  wr_position : (0 ≤ run_LastGlobalPosition run ≤ max_uint64)%Z;
  wr_times : parses_back (run_CreatedAt run) = true ∧ parses_back (run_UpdatedAt run) = true;
}.

(** The entries of the struct. *)
Definition string_entry (k s : string) : text_entry := (k, Some (encode_string s, JString s, VString s)).
Definition optional_string (k s : string) : text_entry :=
  (k, if decide (s = "") then None else Some (encode_string s, JString s, VString s)).
Definition number_entry (k : string) (n : Z) : text_entry := (k, Some (encode_uint n, JNumber (encode_uint n), VInt n)).
Definition optional_number (k : string) (n : Z) : text_entry :=
  (k, if decide (n = 0%Z) then None else Some (encode_uint n, JNumber (encode_uint n), VInt n)).
Definition time_entry (k : string) (t : Time) : text_entry := (k, Some (time_text t, JString (formatTime t), VInt t)).
Lemma string_entry_ok fields d k s : utf8 k → utf8 s → find_field fields k = Some (k, KString) →
  entry_ok fields d (string_entry k s) ∧ entry_ok fields d (optional_string k s).
Proof.
  intros Hk Hs Hf. unfold optional_string. split; [|case_decide; [done|]].
  all: (split; [done|]; split; [by apply string_text|]; exists KString; done).
Qed.
Lemma number_entry_ok fields d k n kind : utf8 k → find_field fields k = Some (k, kind) →
  kind = KInt ∧ in_int64 n = true ∨ kind = KUint64 ∧ (0 ≤ n ≤ max_uint64)%Z →
  entry_ok fields d (number_entry k n) ∧ entry_ok fields d (optional_number k n).
Proof.
  intros Hk Hf Hn. assert (∀ env, decode_simple env k kind (encode_uint n) (JNumber (encode_uint n)) = Some (<[k := VInt n]> env)) as Hdec.
  { intros env. destruct Hn as [[-> Hn]|[-> Hn]]; cbn [decode_simple]; by rewrite ?ParseInt_encode, ?ParseUint_encode. }
  unfold optional_number. split; [|case_decide; [done|]].
  all: (split; [done|]; split; [apply uint_text|]; by exists kind).
Qed.
Lemma time_entry_ok fields d k t : utf8 k → parses_back t = true → find_field fields k = Some (k, KTime) →
  entry_ok fields d (time_entry k t).
Proof.
  intros Hk Ht Hf. split; [done|]. split; [apply time_value_text|]. exists KTime. split; [done|]. intros env.
  cbn [fst snd time_entry decode_simple]. by rewrite time_text_inner, time_read_back.
Qed.

Definition route_entry run (route : option (RawMessage * Json)) : text_entry :=
  ("routeSnapshot", (λ r, (r.1, r.2, VRaw r.1)) <$> route).
Definition run_entries run (route : option (RawMessage * Json)) : list text_entry := [
  string_entry "id" (run_RunID run); string_entry "workItemId" (run_WorkItemID run);
  string_entry "workflowId" (run_WorkflowID run); string_entry "workflowVersion" (run_WorkflowVersion run);
  optional_string "workflowDigest" (run_WorkflowDigest run); optional_string "routeDigest" (run_RouteDigest run);
  route_entry run route; optional_number "priority" (run_Priority run); string_entry "status" (run_Status run);
  number_entry "resourceVersion" (run_ResourceVersion run);
  number_entry "lastGlobalPosition" (run_LastGlobalPosition run);
  time_entry "createdAt" (run_CreatedAt run); time_entry "updatedAt" (run_UpdatedAt run)].
Definition written_route (d : nat) run (route : option (RawMessage * Json)) : Prop :=
  match route with
  | None => run_RouteSnapshot run = ""
  | Some (c, v) => run_RouteSnapshot run ≠ "" ∧ Compact (run_RouteSnapshot run) = Some c ∧ value_text d c v
  end.
Lemma depth_room : 0 + 2 ≤ max_nesting_depth.
Proof. apply Nat.leb_le. vm_compute. reflexivity. Qed.
Lemma run_writable_route run : run_writable run → ∃ d route, d + 2 ≤ max_nesting_depth ∧ written_route d run route.
Proof.
  intros [_ Hr _ _ _ _]. destruct (decide (run_RouteSnapshot run = "")) as [He|He]; [exists 0, None; split; [apply depth_room|done]|].
  destruct Hr as [?|(d & c & v & ? & ? & ?)]; [done|]. by exists d, (Some (c, v)).
Qed.
Lemma entry_optional_string k s : entry_text (optional_string k s) = (k, omit_empty s).
Proof. unfold optional_string, omit_empty, entry_text. by case_decide. Qed.
Lemma entry_optional_number k n : entry_text (optional_number k n) = (k, omit_zero n).
Proof. unfold optional_number, omit_zero, entry_text. by case_decide. Qed.
Lemma entry_route run route : entry_text (route_entry run route) = ("routeSnapshot", fst <$> route).
Proof. by destruct route. Qed.
Lemma encode_run_entries d run route : run_writable run → written_route d run route →
  encode_run run = Some (encode_struct (entry_text <$> run_entries run route)).
Proof.
  intros [_ _ _ _ _ [Hc Hu]] Hroute. unfold encode_run, encode_time. rewrite Hc, Hu.
  assert (encode_snapshot (run_RouteSnapshot run) = Some (fst <$> route)) as ->.
  { unfold encode_snapshot. destruct route as [[c v]|]; cbn in Hroute |- *.
    - destruct Hroute as (Hne & -> & _). by rewrite decide_False.
    - by rewrite decide_True. }
  cbn [mbind option_bind]. f_equal. f_equal. unfold run_entries. cbn [fmap list_fmap].
  rewrite !entry_optional_string, entry_optional_number, entry_route. reflexivity.
Qed.
Lemma ascii_text s : str_forall html_safe s = true → utf8 s.
Proof. intros Hs. by apply plain_text. Qed.
Lemma run_entries_ok d run route : run_writable run → written_route d run route →
  Forall (entry_ok run_fields d) (run_entries run route).
Proof.
  intros [Ht _ Hp Hv Hg [Hc Hu]] Hroute. rewrite !Forall_cons in Ht. destruct Ht as (? & ? & ? & ? & ? & ? & ? & _). unfold run_entries.
  repeat first [apply Forall_nil; done
    |apply Forall_cons; split; [first
      [apply string_entry_ok; [by apply ascii_text|done|reflexivity]
      |eapply number_entry_ok; [by apply ascii_text|reflexivity|by eauto]
      |apply time_entry_ok; [by apply ascii_text|done|reflexivity]
      |split; [by apply ascii_text|]; destruct route as [[c v]|]; [|exact I]; split; [apply Hroute|]; exists KRaw; done]|]].
Qed.
#[local] Tactic Notation "entry_at" constr(i) := apply (list_elem_of_lookup_2 _ i); reflexivity.
Lemma decode_run_entries d run route env : written_route d run route →
  (∀ k x, (k, x) ∈ run_entries run route → env !! k = snd <$> x) → decoded_run env = compacted run.
Proof.
  intros Hroute Hin. unfold decoded_run, compacted. 
  assert (∀ k s, string_entry k s ∈ run_entries run route ∨ optional_string k s ∈ run_entries run route →
    simple_string (env !! k) = s) as Hstring.
  { intros k s [Hk|Hk]; rewrite (Hin _ _ Hk); [done|]. by case_decide. }
  assert (∀ k n, number_entry k n ∈ run_entries run route ∨ optional_number k n ∈ run_entries run route →
    simple_int (env !! k) = n) as Hnumber.
  { intros k n [Hk|Hk]; rewrite (Hin _ _ Hk); [done|]. by case_decide. }
  assert (∀ k t, time_entry k t ∈ run_entries run route → simple_time (env !! k) = t) as Htime.
  { intros k t Hk. by rewrite (Hin _ _ Hk). }
  assert (simple_raw (env !! "routeSnapshot") = default "" (fst <$> route)) as ->.
  { rewrite (Hin "routeSnapshot" ((λ r, (r.1, r.2, VRaw r.1)) <$> route)) by entry_at 6. by destruct route. }
  f_equal; [apply Hstring; left; entry_at 0|apply Hstring; left; entry_at 1|apply Hstring; left; entry_at 2
    |apply Hstring; left; entry_at 3|apply Hstring; right; entry_at 4|apply Hstring; right; entry_at 5|
    |apply Hnumber; right; entry_at 7|apply Hstring; left; entry_at 8|apply Hnumber; left; entry_at 9
    |apply Hnumber; left; entry_at 10|apply Htime; entry_at 11|apply Htime; entry_at 12].
  destruct route as [[c v]|]; cbn in Hroute |- *; [|by rewrite decide_True].
  destruct Hroute as (Hne & -> & _). by rewrite decide_False.
Qed.
(** The stored answer is what was answered. *)
Lemma decode_result action id run : run_writable run → ∃ encoded, encode_run run = Some encoded ∧
  decodeControlResponse (encode_struct [("result", Some encoded)]) action id = Ok (compacted run).
Proof.
  intros Hrun. destruct (run_writable_route _ Hrun) as (d & route & Hd & Hroute).
  eexists. split; [by eapply encode_run_entries|]. unfold decodeControlResponse.
  destruct (Unmarshal_one_struct [("result", StructPtr run_fields); ("failure", StructPtr failure_fields)] "result" run_fields d (run_entries run route))
    as (env & -> & Hin); [by apply ascii_text|reflexivity| |lia|by apply run_entries_ok|].
  - apply (bool_decide_unpack _). vm_compute. reflexivity.
  - unfold get_struct. rewrite lookup_singleton_eq. f_equal. by eapply decode_run_entries.
Qed.
End responses.

(** * Repetitions *)
Section repetition.
Context `{!SqliteJson, !UnicodeLower, !TicketSource, !Sha256, !ErrorText}.
Implicit Types (env : Env) (request : ControlRequest) (run : RunProjection) (s t : ControlState).

Definition ledger_key (action : string) request : string * string := ("runs." +:+ action, crq_IdempotencyKey request).
Definition digest_of request : string :=
  request_digest {|
    crq_ConfirmationDigest := crq_ConfirmationDigest request; crq_RunID := TrimSpace (crq_RunID request);
    crq_ExpectedResourceVersion := crq_ExpectedResourceVersion request;
    crq_IdempotencyKey := crq_IdempotencyKey request; crq_Actor := crq_Actor request |} ∅.
(** The row of a command that was answered with a run. *)
Record answered (action : string) request run (row : CommandEvidence) : Prop := {
  an_status : ce_Status row = "completed";
  an_digest : ce_RequestDigest row = digest_of request;
  an_response : ∃ encoded, encode_run run = Some encoded ∧
    ce_Response row = Some (encode_struct [("result", Some encoded)]);
  an_times : parses_back (ce_CreatedAt row) &&
    match ce_CompletedAt row with Some at_ => parses_back at_ | None => true end = true;
}.
(** The request passes the checks of [beginControl]. *)
Definition beginnable request : bool :=
  negb (bool_decide (TrimSpace (crq_RunID request) = "") ||
        bool_decide (crq_ExpectedResourceVersion request = 0%Z) || negb (key_ok (crq_IdempotencyKey request))).

(** A command that is begun leaves a pending row with its digest. *)
Lemma beginControl_pending env action kind request s s' r :
  cs_commands s !! ledger_key action request = None →
  beginControl env action kind request ∅ s = (s', Ok r) →
  ∃ row, cs_commands s' !! ledger_key action request = Some row ∧ ce_Status row = "pending" ∧
    ce_RequestDigest row = digest_of request ∧ parses_back (ce_CreatedAt row) = true.
Proof.
  intros Hnew. unfold beginControl. destruct (_ || _); [by intros [_ ?]%ctl_lift_Ok|]. intros Hok.
  ctl_step Hok as [command reused] Hbegin. apply ctl_command_Ok in Hbegin as [_ Hbegin].
  unfold BeginCommand in Hbegin. destruct (_ || _) in Hbegin; [done|].
  cbn [bc_Scope bc_IdempotencyKey] in Hbegin. unfold ledger_key in Hnew. rewrite Hnew in Hbegin.
  rewrite bool_decide_true in Hbegin by done. injection Hbegin as Hc Hbegin.
  unfold readCommand in Hbegin. rewrite lookup_insert_eq in Hbegin. cbn [pending_command ce_CreatedAt ce_CompletedAt bc_CreatedAt] in Hbegin.
  rewrite andb_true_r in Hbegin. destruct (parses_back _) eqn:Ht in Hbegin; [|done]. cbn in Hbegin.
  rewrite decide_False in Hbegin by (intros []; done). injection Hbegin as _ <-. cbn in Hok.
  apply ctl_ret_Ok in Hok as [-> _]. rewrite <-Hc. unfold ledger_key. rewrite lookup_insert_eq. eexists. split; [reflexivity|]. done.
Qed.
(** Completing a command writes its response into the pending row. *)
Lemma CompleteCommand_Ok (request : CompleteCommandRequest) commands commands' got :
  CompleteCommand request commands = (commands', Ok got) →
  ∃ row, commands !! (cc_Scope request, cc_IdempotencyKey request) = Some row ∧
    commands' !! (cc_Scope request, cc_IdempotencyKey request) = Some (completed_command request row) ∧
    parses_back (ce_CreatedAt row) && parses_back (cc_CompletedAt request) = true.
Proof.
  unfold CompleteCommand. destruct (_ || _); [done|]. destruct (negb _); [done|]. destruct (negb _); [done|].
  destruct (commands !! _) as [row|]; [|done]. destruct (decide _); [done|]. destruct (negb _); [done|].
  intros [= <- Hread]. exists row. rewrite lookup_insert_eq. split; [done|]. split; [done|].
  unfold readCommand in Hread. rewrite lookup_insert_eq in Hread. cbn in Hread. by destruct (_ && _).
Qed.
(** Finishing it records the answer. *)
Lemma finishControl_answered env action request run events row s s' :
  cs_commands s !! ledger_key action request = Some row → ce_RequestDigest row = digest_of request →
  finishControl env action (crq_IdempotencyKey request) run events s = (s', Ok tt) →
  ∃ row', cs_commands s' !! ledger_key action request = Some row' ∧ answered action request run row'.
Proof.
  intros Hrow Hdig. unfold finishControl. destruct (encode_run run) as [encoded|] eqn:Henc; [|done]. intros Hok.
  ctl_step Hok as got Hgot. apply ctl_command_Ok in Hgot as [_ Hgot]. apply ctl_ret_Ok in Hok as [-> _].
  match type of Hgot with CompleteCommand ?r _ = _ => remember r as completion eqn:Hr end.
  apply CompleteCommand_Ok in Hgot as (row0 & Hold & Hnew & Ht).
  assert ((cc_Scope completion, cc_IdempotencyKey completion) = ledger_key action request) as Hkey by by rewrite Hr.
  rewrite Hkey in Hold, Hnew. rewrite Hrow in Hold. injection Hold as <-. eexists. split; [exact Hnew|].
  split; [reflexivity|exact Hdig| |exact Ht]. exists encoded. split; [done|].
  change (Some (cc_Response completion) = Some (encode_struct [("result", Some encoded)])). by rewrite Hr.
Qed.
(** A repetition is answered from the row, another request is refused. *)
Lemma beginControl_answered env action kind first request run row t :
  run_writable run → cs_commands t !! ledger_key action first = Some row → answered action first run row →
  crq_IdempotencyKey request = crq_IdempotencyKey first → beginnable request = true →
  env_clock env 0 ≠ zero_time → blank (digest_of request) = false → blank ("runs." +:+ action) = false →
  beginControl env action kind request ∅ t =
    (t, if decide (digest_of request = digest_of first) then Ok (Some (compacted run))
        else Err (ControlCommand (CommandConflict ("runs." +:+ action) (crq_IdempotencyKey first)))).
Proof.
  intros Hrun Hrow [Hst Hdig (encoded & Henc & Hres) Ht] Hkey Hok%negb_true_iff Hclock Hblank Hscope.
  unfold beginnable in Hok. unfold beginControl. rewrite Hok.
  apply orb_false_iff in Hok as [_ Hok%negb_false_iff].
  assert (blank (crq_IdempotencyKey request) = false) as Hkb.
  { unfold key_ok in Hok. apply andb_true_iff in Hok as [[Htrim Hlen]%andb_true_iff _]. unfold blank.
    apply bool_decide_eq_true in Htrim. apply bool_decide_eq_false. rewrite Htrim. intros He. by rewrite He in Hlen. }
  fold (digest_of request). unfold ctl_bind at 1. unfold ctl_command, BeginCommand.
  cbn [bc_Scope bc_IdempotencyKey bc_RequestDigest bc_CreatedAt]. rewrite Hkb, Hblank.
  rewrite (bool_decide_false _ Hclock), Hkey, Hscope. cbn [orb].
  unfold ledger_key in Hrow. rewrite Hrow. rewrite bool_decide_false by done. cbn [negb].
  unfold readCommand. rewrite Hrow, Ht. cbn [result_bind]. rewrite Hdig.
  assert ({| cs_db := cs_db t; cs_commands := cs_commands t |} = t) as -> by by destruct t.
  destruct (decide (digest_of request = digest_of first)) as [Hsame|Hdiff].
  - rewrite decide_False by (intros Hn; by apply Hn). cbn [negb].
    rewrite decide_True by exact Hst. rewrite Hres.
    destruct (decode_result action (TrimSpace (crq_RunID request)) _ Hrun) as (encoded' & Henc' & Hdec).
    rewrite Henc in Henc'. injection Henc' as <-. cbn [default from_option].
    unfold ctl_bind, ctl_lift, ctl_ret, id. by rewrite Hdec.
  - rewrite decide_True by (intros He; by apply Hdiff). done.
Qed.

(** What is in the ledger when a handler has answered. *)
Lemma cancel_answered service env request s s' value :
  cs_commands s !! ledger_key "cancel" request = None →
  (∀ s1, cs_commands (env_meanwhile env s1) !! ledger_key "cancel" request = cs_commands s1 !! ledger_key "cancel" request) →
  Cancel service env request s = (s', Ok value) →
  ∃ row, cs_commands s' !! ledger_key "cancel" request = Some row ∧
    answered "cancel" (normalizeControlRequest request) value row.
Proof.
  intros Hnew Hmean Hok. unfold Cancel in Hok. 
  change (ledger_key "cancel" request) with (ledger_key "cancel" (normalizeControlRequest request)) in *.
  set (normal := normalizeControlRequest request) in *.
  ctl_step Hok as replayed Hbegin.
  pose proof (beginControl_fresh _ _ _ _ _ _ _ _ Hnew Hbegin) as [-> _].
  apply beginControl_pending in Hbegin as (row & Hrow & _ & Hdig & _); [|done].
  ctl_step Hok as first Hfirst. apply or_finish_Ok, controlRun_Ok in Hfirst as [-> _].
  ctl_step Hok as evidence Hquiet. injection Hquiet as <- <-.
  ctl_step Hok as run Hrun. apply or_finish_Ok, controlRun_Ok in Hrun as [-> _].
  ctl_step Hok as batch Hbatch. injection Hbatch as <- Hbatch.
  ctl_step Hok as committed Happ. apply ctl_append_Ok in Happ as [Hc _].
  ctl_step Hok as found Hfound. apply ctl_read_Ok in Hfound as [-> Hfound].
  apply ctl_bind_Ok in Hok as (s2 & [] & Hfin & Hok). apply ctl_ret_Ok in Hok as [-> ->].
  eapply finishControl_answered; [|exact Hdig|exact Hfin]. rewrite Hc, Hmean. exact Hrow.
Qed.
Lemma pause_answered service env request s s' value :
  cs_commands s !! ledger_key "pause" request = None →
  (∀ s1, cs_commands (env_meanwhile env s1) !! ledger_key "pause" request = cs_commands s1 !! ledger_key "pause" request) →
  Pause service env request s = (s', Ok value) →
  ∃ row, cs_commands s' !! ledger_key "pause" request = Some row ∧
    answered "pause" (normalizeControlRequest request) value row.
Proof.
  intros Hnew Hmean Hok. unfold Pause in Hok. 
  change (ledger_key "pause" request) with (ledger_key "pause" (normalizeControlRequest request)) in *.
  set (normal := normalizeControlRequest request) in *.
  ctl_step Hok as replayed Hbegin.
  pose proof (beginControl_fresh _ _ _ _ _ _ _ _ Hnew Hbegin) as [-> _].
  apply beginControl_pending in Hbegin as (row & Hrow & _ & Hdig & _); [|done].
  ctl_step Hok as first Hfirst. apply or_finish_Ok, controlRun_Ok in Hfirst as [-> _].
  ctl_step Hok as evidence Hquiet. injection Hquiet as <- <-.
  ctl_step Hok as run Hrun. apply or_finish_Ok, controlRun_Ok in Hrun as [-> _].
  ctl_step Hok as committed Happ. apply ctl_append_Ok in Happ as [Hc _].
  ctl_step Hok as found Hfound. apply ctl_read_Ok in Hfound as [-> Hfound].
  apply ctl_bind_Ok in Hok as (s2 & [] & Hfin & Hok). apply ctl_ret_Ok in Hok as [-> ->].
  eapply finishControl_answered; [|exact Hdig|exact Hfin]. rewrite Hc, Hmean. exact Hrow.
Qed.

(** A cancellation, and in the same way a pause, that has answered is answered once and for all:
    in every later state whose ledger still has the row, the key with the same run and revision
    is answered with the same run and changes nothing, whoever asks and whatever surrounds the
    call, and the key with another digest is refused as a conflict and changes nothing either.
    The route of the answer comes back compacted. *)
Theorem cancel_answered_once service env first s s' value :
  cs_commands s !! ledger_key "cancel" first = None →
  (∀ s1, cs_commands (env_meanwhile env s1) !! ledger_key "cancel" first = cs_commands s1 !! ledger_key "cancel" first) →
  Cancel service env first s = (s', Ok value) → run_writable value →
  ∀ service' env' request t, cs_commands t !! ledger_key "cancel" first = cs_commands s' !! ledger_key "cancel" first →
    crq_IdempotencyKey request = crq_IdempotencyKey first →
    beginnable (normalizeControlRequest request) = true → env_clock env' 0 ≠ zero_time →
    blank (digest_of (normalizeControlRequest request)) = false →
    Cancel service' env' request t =
      (t, if decide (digest_of (normalizeControlRequest request) = digest_of (normalizeControlRequest first))
          then Ok (compacted value)
          else Err (ControlCommand (CommandConflict "runs.cancel" (crq_IdempotencyKey first)))).
Proof.
  intros Hnew Hmean Hok Hw service' env' request t Hkept Hkey Hbeg Hclock Hblank.
  destruct (cancel_answered _ _ _ _ _ _ Hnew Hmean Hok) as (row & Hrow & Hans).
  unfold Cancel. unfold ctl_bind at 1.
  rewrite (beginControl_answered _ _ _ (normalizeControlRequest first) _ value row);
    [|done|by rewrite <-Hrow, <-Hkept|done..].
  by destruct (decide _).
Qed.
Theorem pause_answered_once service env first s s' value :
  cs_commands s !! ledger_key "pause" first = None →
  (∀ s1, cs_commands (env_meanwhile env s1) !! ledger_key "pause" first = cs_commands s1 !! ledger_key "pause" first) →
  Pause service env first s = (s', Ok value) → run_writable value →
  ∀ service' env' request t, cs_commands t !! ledger_key "pause" first = cs_commands s' !! ledger_key "pause" first →
    crq_IdempotencyKey request = crq_IdempotencyKey first →
    beginnable (normalizeControlRequest request) = true → env_clock env' 0 ≠ zero_time →
    blank (digest_of (normalizeControlRequest request)) = false →
    Pause service' env' request t =
      (t, if decide (digest_of (normalizeControlRequest request) = digest_of (normalizeControlRequest first))
          then Ok (compacted value)
          else Err (ControlCommand (CommandConflict "runs.pause" (crq_IdempotencyKey first)))).
Proof.
  intros Hnew Hmean Hok Hw service' env' request t Hkept Hkey Hbeg Hclock Hblank.
  destruct (pause_answered _ _ _ _ _ _ Hnew Hmean Hok) as (row & Hrow & Hans).
  unfold Pause. unfold ctl_bind at 1.
  rewrite (beginControl_answered _ _ _ (normalizeControlRequest first) _ value row);
    [|done|by rewrite <-Hrow, <-Hkept|done..].
  by destruct (decide _).
Qed.
End repetition.

(** * Examples *)
Section examples.
#[local] Existing Instances ex_sqlite ascii_lower no_tickets ex_sha ex_errors.
Definition ex_one : list string := [ex_id "attempt" "1"].
Definition ex_both : list string := [ex_id "attempt" "1"; ex_id "attempt" "2"].
(** The state after a cancellation, as a process finds it that was stopped before the command was
    completed. *)
Definition ex_unfinished (confirmed : list string) : ControlState :=
  let '(s, _) := ex_ended confirmed in {|
    cs_db := cs_db s;
    cs_commands := {[("runs.cancel", "cancel-it") := pending_command {|
      bc_Scope := "runs.cancel"; bc_IdempotencyKey := "cancel-it";
      bc_RequestDigest := digest_of (normalizeControlRequest ex_cancel); bc_CreatedAt := 10 |}]} |}.
Definition ex_answer (confirmed : list string) (s : ControlState) : result control_error RunStatus :=
  let? run := (Cancel (ex_service confirmed) ex_env ex_cancel s).2 in Ok (run_Status run).

(** A repetition of a finished cancellation has its answer. *)
Example repeated_cancellation :
  ex_answer ex_both (ex_ended ex_both).1 = Ok RunCancelled ∧
  ex_answer ex_one (ex_ended ex_one).1 = Ok RunReconcileRequired.
Proof. by vm_compute. Qed.
(** A cancellation that committed [run.cancelled] and was stopped before it was recorded is found
    in the log and answered; one that committed [run.reconcile_required] is not looked for, so
    its repetition is refused as a conflict with the revision the first call made. *)
Example unfinished_cancellation :
  ex_answer ex_both (ex_unfinished ex_both) = Ok RunCancelled ∧
  ex_answer ex_one (ex_unfinished ex_one) = Err (ControlConflict (ex_id "run" "1") 2 3).
Proof. by vm_compute. Qed.
End examples.
